(* ===== verification/_CoqProject ===== *)
-Q . S2P
Prelude.v
JConfig.v
JRun.v
JBin.v
JMap.v
JChunk.v
JArena.v
JPages.v
JHeap.v
JApi.v
JSpec.v
JAlign.v
JClient.v
JVm.v
JExample.v
JTheorems.v
JParts.v
AvlTree.v
AvlIter.v
Double.v
Random.v
BTrackers.v
BConfig.v
BArbiter.v
BPolicy.v
BRobin.v
BWeighted.v
BWeighted2.v
BModule.v
BRun.v
BConfigured.v
BParts.v
BExample.v
BTheorems.v
CCoro.v
CWake.v
CSteps.v
LList.v
LWorld.v
LSort.v
HChunks.v
CIo.v
CTheorems.v
HSocket.v
HSocketTheorems.v
HChunkString.v
LTheorems.v
HStream.v
HLaws.v
HHttp.v
HParse.v
HRequest.v
HHeaders.v
HServer.v
HServerSpec.v
HEncoder.v
HProxy.v
HProxySpec.v
HWorkers.v
HTermination.v
HPipeline.v
HSpdy.v
HSpdyLoop.v
HSpdySpec.v
HSpdyBlocks.v
HSpdyTheorems.v
HTheorems.v
HModules.v
HModulesTheorems.v
