(* ===== verification/Prelude.v ===== *)
(** * Verification of the HTTP balancer and of what it runs on

    The repository is an HTTP server, built of modules, whose central module is a load
    balancer.  A connection is served by a coroutine; the chain of modules that the
    configuration builds reads requests from it and passes them on; the balancer chooses a
    back end, and the proxy module copies between the two.  Six layers are modelled here.

    - The memory allocator (a jemalloc), [src/util/private/jalloc/malloc.c]: files [J*].
    - Containers and generators of the library: [src/util/generic/avltree.h] ([Avl*]),
      [src/util/random] ([Double], [Random]), [src/util/generic/intrlist.h] ([L*]).
    - The balancer, [src/web/httpd/modules/balancer]: files [B*].
    - The coroutine engine, [src/util/green], and its input and output: files [C*].
    - The server kernel, [src/web/httpd/kernel]: chunks, streams, requests and their parser,
      sockets; and the modules http, proxy, headers, regexp and ipdispatch: files [H*].
    - The SPDY module, [src/web/httpd/modules/spdy]: files [HSpdy*].

    ** The files

    [Prelude] has the notations for undefined behaviour ([let*] on [option]) and for
    aborting code ([let!] on [outcome]), machine-width arithmetic ([u32], [u64]),
    arrays with checked indices ([zget], [zset], [zlen]), the tactics and the lemmas
    on lists and powers of two that the other files share.

    The allocator, all of it from [malloc.c]:
    - [JConfig]: [options], [parse_opts], [init_settings], [pow2_ceil], [umax2s],
      [size2bin], [init_narenas]; the invariant [config_ok] of the settings.
    - [JRun]: [arena_run_t] and [arena_bin_t], [arena_run_reg_alloc],
      [arena_run_reg_dalloc] with the inverse tables, the header of a new run.
    - [JBin]: [arena_bin_run_size_calc] with its floating-point tests, [arena_new].
    - [JMap]: the page map of a chunk, the search, [arena_run_split] and
      [arena_run_dalloc] on one chunk.
    - [JChunk]: [pages_map], [base_alloc], [chunk_alloc] and [chunk_dealloc] with the
      cache of old chunks, [huge_malloc], [huge_palloc], [huge_dalloc], over a
      virtual memory that is a parameter (class [VM], laws [VMSpec]).
    - [JArena]: the operations of arenas on the whole state [heap].
    - [JPages], [JHeap]: what the state means (who owns which page) and that every
      operation keeps it.
    - [JApi]: [malloc_init_hard] and the six functions of the interface.
    - [JSpec], [JAlign]: the abstract state, a finite map from addresses to sizes, the
      refinement of each function to it, and alignment.
    - [JClient]: the calls a program may make of the interface, and its steps as a relation.
    - [JVm], [JExample]: an executable virtual memory and a process on it, on which
      the theorems are applied.
    - [JTheorems], [JParts]: the properties of the allocator.

    The library and the balancer:
    - [AvlTree]: [Insert], [Erase], [Rebalance], [Find], [LowerBound] of
      [avltree.h]; parent links are a zipper, items are told apart by address, and an item
      that [Insert] has refused stays owned ([Stale_]).
      [AvlIter]: its iterators, [ForEach] and the destructor.
    - [Double]: the C++ [double] as binary64 of the Standard Library's [SpecFloat],
      with the order and the exact whole numbers.
    - [Random]: [mersenne64.h] and [mersenne32.h], one definition for both, and
      [ToRes53].
    - [LList]: [TIntrusiveListItem] and [TIntrusiveList] of [intrlist.h] on a store of
      items; [LWorld]: the lists that a store holds, and every call against its counterpart
      on lists; [LSort]: [QuickSort], [ForEach]; [LTheorems]: the properties.
    - [BTrackers]: [average.h] and [deviation.h].
    - [BConfig]: configurations ([kernel/config.h], [kernel/luacfg.cpp]) and
      [backend.cpp]; [BArbiter]: [arbiter.cpp].
    - [BPolicy]: the interface [IBackEnds] of [iterator.h] as a class, and the
      contract [BackEndsSpec] that the attempt loop relies on.
    - [BRobin]: [rrobin.cpp], [smartrr.cpp]; [BWeighted]: [hashing.cpp], [fair.cpp],
      [robust.cpp], [weighted.cpp], [pidgroup.cpp]; [BWeighted2]: [weighted2.cpp].
    - [BModule]: [kernel/rewind.h], [TConnIterator] of [iterator.h], [iterator.cpp],
      [module.cpp].
    - [BRun]: the loop of attempts over any policy that keeps the contract, and its
      termination under the two round robins; [BConfigured]: what the configuration builds
      keeps the contract; [BParts]: sequences of operations on the parts.
    - [BExample]: a small installation; [BTheorems]: the properties.

    The coroutines:
    - [CCoro]: the scheduler, sleeping, timers, cancelling, wait queues, mutexes and condition
      variables of [impl.h], [impl.cpp], [events.h], [mutex.h], [condvar.h], and [TMyEvent] of
      [kernel/syncro.h].
    - [CWake], [CSteps]: the invariant of the queues and timers, and that every step keeps it;
      the trace of locks.
    - [CIo]: [ReadD], [WriteD], [WriteVectorD], [AcceptD], [ConnectD] and the choice of
      [SelectD], over the answers of the system.
    - [CTheorems]: the properties.

    The server:
    - [HChunks]: [chunks.h], [split.h]; [HChunkString]: [chunkstring.h]; [HStream]: the streams
      of [iobase.h], [iterator.h], [limitio.h], [concat.h], [precharge.h], [countio.h],
      [stream.h], [null.h].  [HLaws]: what a stream promises to its reader, as a class, and that
      every stream keeps it when those under it do.
    - [HHttp]: the request of [http.h], its parser ([httpfsm.rl], [http.cpp]) and printer;
      [HParse], [HRequest]: the parser against a reference on flat bytes, the round trip.
    - [HHeaders]: [headers.cpp]; [HServer]: [modules/http/module.cpp] and [encoder.h];
      [HServerSpec], [HEncoder], [HTermination], [HPipeline]: what a client sees.
    - [HProxy]: the input from a back end and the copying ([modules/proxy]); [HProxySpec];
      [HWorkers]: the two concurrent copies of [TProxy::Run], which either coroutine may be
      cancelled in.
    - [HSocket]: [socket.h], [socket.cpp]; [HSocketTheorems]: the properties.
    - [HModules]: what the modules regexp, ipdispatch and headers do with a request, and the
      list of connections of [kernel/main.cpp]; [HModulesTheorems]: the properties.
    - [HSpdy]: frames and header blocks of [spdy/module.cpp] and [zlib.h]; [HSpdyLoop]: the loop
      of a connection and the jobs of its streams with [kernel/queue.h] between them;
      [HSpdySpec], [HSpdyBlocks]; [HSpdyTheorems]: the properties.
    - [HTheorems]: the properties of requests and responses.

    ** How the state corresponds to the code

    The state of the allocator is a record of maps from addresses to what the C code
    keeps there (run headers, chunk headers, arenas) over the virtual memory, which
    holds the bytes.  Red-black trees are the ordered lists they represent.  A read
    of memory that holds no such object is undefined, and so are an index outside an
    array and a loop that outruns its bound.  The objects of the round robin policies
    are shared by a list and a tree: they live in a store and both hold addresses; a
    back end of the other policies is its position in the list.  Intrusive lists live in a
    store from locations to the two pointers of an item.  Memory that the
    constructors do not initialise is a parameter.

    A stream is a type with a [DoRecv] that returns what it delivers, or the exception it
    throws, and its new state; exceptions are values of [res].  A chunk is the bytes it shows,
    except in [HSocket], where chunks share blocks of memory that are written again.

    A coroutine is a program of calls into the engine, suspended at a place inside a call that
    sleeps; a step is one call or one turn of the scheduler.  Programs are finite trees: what
    holds of all reachable states is said of the start of every execution.  Where only the
    order of turns matters ([HSpdyLoop], [HWorkers], [HSocket]) a schedule or a list of events
    is the input, and the use of a destroyed object is undefined.

    ** What the theorems show

    [JTheorems]: in every state that a program of the interface reaches, live blocks
    are disjoint, mapped and aligned; no call with [NULL] or a live block is undefined,
    whatever its sizes and alignment; each function refines its specification on the
    abstract map.  [JParts]: initialisation from any option
    string, the size classes, the run geometry, the division by multiplication, the
    page maps, fresh chunks, aligned huge objects; two places where the code differs
    from its comments or from the standard.
    [BTheorems]: a request tries distinct back ends, repeats what may be repeated and
    reports the last result; requests under the round robins end and are shared fairly;
    the tree is an ordered list of logarithmic height, walked and destroyed in order; the trackers are queues; the
    replayed input is the connection's, read no further than is asked for; arbiters and
    the smart round robin are the state machines they mean to be; the weights of weighted2
    are numbers between their limits, where the configured weights are positive; the
    generators are
    memory safe and produce the values of their unit test; and three ways a
    configuration or an unlucky number breaks a request.
    [LTheorems]: calls on intrusive lists do on pointers what they mean on lists; sorting
    ends and sorts; items may be destroyed while a list is walked; a string of chunks is the
    string of its bytes, but for a search up to the end of the list, which reads the end
    node where it does not find.
    [CTheorems]: mutexes exclude, their wake-ups are not lost, timers fire in order, vectors
    are written exactly; a wait on a condition variable that times out breaks exclusion, and an
    event loses its second waiter.
    [HTheorems]: the parser is its reference on every way the bytes are cut, with valid
    pointers until a head ends; after it, exactly which contexts may be fed again; pipelined requests are each served once and in order; the loop of a connection
    ends; a forwarded request reparses; responses are proxied and chunked without loss; bad
    requests are answered.  [HWorkers]: what the two copies of a request have sent when it
    returns, and when they are complete: unless one failed or was cancelled.
    [HSocketTheorems]: output is taken in order and without loss and within the limits of the
    sender, in its own event or after it has slept; a sender alone is woken, received chunks
    stay as they are; and three ways in which an output hangs or fails.
    [HModulesTheorems]: the routes and rewritten requests of the three modules, and exactly
    when a buffer is overrun.  [HSpdyTheorems]: streams are demultiplexed, header blocks make
    the round trip; and exactly when a frame or the step of a job uses a destroyed object.

    ** Bounds and fuel

    Loops over memory take a fuel that the invariant shows to be enough: the number
    of pages of a chunk, of elements of a mask, of items of a tracker, the height of
    the tree, the length of a list.  The search for a back end in [TConnIterator::Next] has no bound in the
    code: its fuel is a parameter, the theorem on termination says how much is enough
    under the round robins, and another one exhibits a configuration for which no amount
    is.  Loops over streams take more fuel than there are bytes to come, and the theorems say
    that they end with it.  [TSocketOut::Flush] ends at once but for a cancelled coroutine, for
    which no fuel is enough.  Loops over the answers of the system recurse on the answers.
    Page sizes are 4 to 32 KiB, chunks at most 4 GiB, as the code assumes by its
    32-bit page offsets.  Weights are whole numbers below 2^53 where the theorems
    speak of exact sums.

    ** Not modelled

    Locks and the interleaving of threads in the allocator (each function is one step),
    its statistics, messages, and the code for brk, thread-local arenas and Windows;
    the other real-valued draws of the generators; the statistics output of the modules; the
    Lua interpreter, the conversions from strings, the module loader and, but for the
    balancer, the reading of configurations; the one-way lists.  Of the coroutines: machine
    contexts and stacks, the registration of descriptors and the pollers, [Abort], the socket
    pool; assertions ([YASSERT]) are compiled out.  Of the server: listening, logs, TLS and the
    modules accesslog, admin, debug, errorlog, pinger, shared, static and stats, which only
    print, serve files or own sockets of other libraries; regular expressions (pire), zlib, the
    formatting of addresses and the modules behind a module are parameters.  The rest of the
    library under [src/util] and [src/library], vendored and generated code. *)

From Stdlib Require Import ZArith Lia Bool.
From stdpp Require Import base list gmap numbers.

#[global] Open Scope Z_scope.

(** ** Notations and automation *)

Declare Scope c_scope.
Delimit Scope c_scope with c.

(** Machine widths: every C integer is a [Z]; a result that the C type
    truncates is passed through one of these. *)
Definition u32 (x : Z) : Z := x mod 2 ^ 32.
Definition u64 (x : Z) : Z := x mod 2 ^ 64.

(** Bitwise complement of a [size_t]. *)
Definition not64 (m : Z) : Z := u64 (Z.lnot m).

Create HintDb jalloc.

(** Undefined behaviour is [None]; a computation that the C text leaves
    undefined (an out-of-range array access, a dereference of an address that
    holds no header) stops the whole computation. *)
Notation "'let*' x ':=' e 'in' k" :=
  (match e with Some x => k | None => None end)
  (at level 200, x pattern, e at level 200, k at level 200,
   format "'[v' 'let*'  x  ':='  e  'in' '/' k ']'") : c_scope.
#[global] Open Scope c_scope.

(** Code that may also call [abort()] returns an [outcome]. *)
Inductive outcome (A : Type) :=
  | Ok (a : A)
  | Abort
  | Undef.
Arguments Ok {A} a.
Arguments Abort {A}.
Arguments Undef {A}.

Definition lift {A} (o : option A) : outcome A :=
  match o with Some a => Ok a | None => Undef end.

Notation "'let!' x ':=' e 'in' k" :=
  (match e with Ok x => k | Abort => Abort | Undef => Undef end)
  (at level 200, x pattern, e at level 200, k at level 200,
   format "'[v' 'let!'  x  ':='  e  'in' '/' k ']'") : c_scope.

(** [wp ab o Q]: the computation does not reach undefined behaviour, aborts only
    when [ab] allows it, and every result it returns satisfies [Q]. *)
Definition wp {A} (ab : bool) (o : outcome A) (Q : A -> Prop) : Prop :=
  match o with Ok a => Q a | Abort => ab = true | Undef => False end.

Definition safe {A} (ab : bool) (o : outcome A) : Prop := wp ab o (fun _ => True).

Section wp.
Context {A B : Type} (ab : bool).

Lemma wp_bind (o : outcome A) (k : A -> outcome B) Q :
  wp ab o (fun a => wp ab (k a) Q) ->
  wp ab (match o with Ok a => k a | Abort => Abort | Undef => Undef end) Q.
Proof. by destruct o. Qed.

Lemma wp_mono (o : outcome A) (P Q : A -> Prop) :
  wp ab o P -> (forall a, o = Ok a -> P a -> Q a) -> wp ab o Q.
Proof. destruct o; cbn; auto. Qed.

(** From a partial-correctness lemma and safety. *)
Lemma wp_of_safe (o : outcome A) (Q : A -> Prop) :
  safe ab o -> (forall a, o = Ok a -> Q a) -> wp ab o Q.
Proof. destruct o; cbn; auto. Qed.

Lemma wp_ok (o : outcome A) (Q : A -> Prop) a : wp ab o Q -> o = Ok a -> Q a.
Proof. by intros H ->. Qed.

Lemma wp_safe (o : outcome A) (Q : A -> Prop) : wp ab o Q -> safe ab o.
Proof. by destruct o. Qed.

Lemma wp_lift (o : option A) (Q : A -> Prop) a : o = Some a -> Q a -> wp ab (lift o) Q.
Proof. by intros -> H. Qed.

Lemma safe_bind (o : outcome A) (k : A -> outcome B) :
  safe ab o -> (forall a, o = Ok a -> safe ab (k a)) ->
  safe ab (match o with Ok a => k a | Abort => Abort | Undef => Undef end).
Proof. destruct o; cbn; auto. Qed.
End wp.

(** ** Arrays indexed by C integers *)

Definition zget {A} (l : list A) (i : Z) : option A :=
  if 0 <=? i then l !! Z.to_nat i else None.

Definition zset {A} (l : list A) (i : Z) (x : A) : option (list A) :=
  if (0 <=? i) && (i <? Z.of_nat (length l))
  then Some (<[Z.to_nat i := x]> l) else None.

Definition zlen {A} (l : list A) : Z := Z.of_nat (length l).

(** The tactics of the development: [bsplit] turns boolean tests of the code
    into arithmetic facts, [deex] opens existentials and conjunctions. *)
Ltac deex :=
  repeat match goal with
         | H : exists _, _ |- _ => destruct H
         | H : _ /\ _ |- _ => destruct H
         end.

Ltac b2p :=
  repeat match goal with
         | H : (_ && _) = true |- _ => apply andb_true_iff in H; destruct H
         | H : (_ || _) = false |- _ => apply orb_false_iff in H; destruct H
         | H : negb _ = true |- _ => apply negb_true_iff in H
         | H : negb _ = false |- _ => apply negb_false_iff in H
         | H : (_ <? _) = true |- _ => apply Z.ltb_lt in H
         | H : (_ <? _) = false |- _ => apply Z.ltb_ge in H
         | H : (_ <=? _) = true |- _ => apply Z.leb_le in H
         | H : (_ <=? _) = false |- _ => apply Z.leb_gt in H
         | H : (_ =? _) = true |- _ => apply Z.eqb_eq in H
         | H : (_ =? _) = false |- _ => apply Z.eqb_neq in H
         end.

(** Case analysis on the innermost boolean test of the goal. *)
Ltac cases_test :=
  match goal with
  | |- context [if ?b then _ else _] =>
      lazymatch b with
      | context [if _ then _ else _] => fail
      | _ => destruct b eqn:?
      end
  end.

Ltac inv H := inversion H; subst; clear H.

(** Splits the conjunctions one sees. *)
Ltac conj := repeat match goal with |- _ /\ _ => split end.

Section arrays.
Context {A : Type}.
Implicit Types (l : list A) (i : Z) (x : A).

Lemma zlen_nonneg l : 0 <= zlen l.
Proof. unfold zlen. lia. Qed.

Lemma zget_Some_bound l i x : zget l i = Some x -> 0 <= i < zlen l.
Proof.
  unfold zget, zlen. destruct (0 <=? i) eqn:E; [|discriminate].
  intros H%lookup_lt_Some. b2p. lia.
Qed.

Lemma zget_is_Some l i : 0 <= i < zlen l -> exists x, zget l i = Some x.
Proof.
  unfold zget, zlen. intros H. rewrite (proj2 (Z.leb_le 0 i)) by lia.
  destruct (lookup_lt_is_Some_2 l (Z.to_nat i)); [lia|eauto].
Qed.

Lemma zget_None l i : zlen l <= i -> zget l i = None.
Proof.
  unfold zget, zlen. intros H. destruct (0 <=? i) eqn:E; [|done].
  apply lookup_ge_None_2. b2p. lia.
Qed.

Lemma zset_Some l i x : 0 <= i < zlen l -> zset l i x = Some (<[Z.to_nat i := x]> l).
Proof.
  unfold zset, zlen. intros H.
  rewrite (proj2 (Z.leb_le 0 i)), (proj2 (Z.ltb_lt i _)) by lia. done.
Qed.

Lemma zset_inv l i x l' :
  zset l i x = Some l' -> 0 <= i < zlen l /\ l' = <[Z.to_nat i := x]> l.
Proof.
  unfold zset, zlen.
  destruct ((0 <=? i) && (i <? Z.of_nat (length l))) eqn:E; [|discriminate].
  intros [= <-]. b2p. split; [lia|done].
Qed.

Lemma zset_is_Some l i x : 0 <= i < zlen l -> exists l', zset l i x = Some l'.
Proof. intros H. rewrite zset_Some by done. eauto. Qed.

Lemma zlen_zset l i x l' : zset l i x = Some l' -> zlen l' = zlen l.
Proof. intros (_ & ->)%zset_inv. unfold zlen. by rewrite length_insert. Qed.

Lemma zget_zset_eq l i x l' : zset l i x = Some l' -> zget l' i = Some x.
Proof.
  intros ([H0 H1] & ->)%zset_inv. unfold zget, zlen in *.
  rewrite (proj2 (Z.leb_le 0 i)) by lia.
  apply list_lookup_insert_eq. lia.
Qed.

Lemma zget_zset_ne l i j x l' : zset l i x = Some l' -> i <> j -> zget l' j = zget l j.
Proof.
  intros ([H0 H1] & ->)%zset_inv Hne. unfold zget.
  destruct (0 <=? j) eqn:E; [|done]. b2p.
  apply list_lookup_insert_ne. lia.
Qed.

Lemma zget_app_l l k i : i < zlen l -> zget (l ++ k) i = zget l i.
Proof.
  unfold zget, zlen. intros H. destruct (0 <=? i) eqn:E; [|done]. b2p.
  apply lookup_app_l. lia.
Qed.

Lemma zget_app_r l k i : zlen l <= i -> zget (l ++ k) i = zget k (i - zlen l).
Proof.
  unfold zget, zlen. intros H.
  rewrite (proj2 (Z.leb_le 0 i)), (proj2 (Z.leb_le 0 (i - _))) by lia.
  rewrite lookup_app_r by lia. f_equal. lia.
Qed.

Lemma zget_replicate n x i : 0 <= i < Z.of_nat n -> zget (replicate n x) i = Some x.
Proof.
  unfold zget. intros H. rewrite (proj2 (Z.leb_le 0 i)) by lia.
  apply lookup_replicate_2. lia.
Qed.

Lemma zlen_replicate n x : zlen (replicate n x) = Z.of_nat n.
Proof. unfold zlen. by rewrite length_replicate. Qed.

Lemma zlen_app l k : zlen (l ++ k) = zlen l + zlen k.
Proof. unfold zlen. rewrite length_app. lia. Qed.

Lemma zlen_cons x l : zlen (x :: l) = zlen l + 1.
Proof. unfold zlen. cbn [length]. lia. Qed.

Lemma zlen_nil : zlen (@nil A) = 0.
Proof. done. Qed.

Lemma zget_cons_0 x l : zget (x :: l) 0 = Some x.
Proof. done. Qed.

Lemma zget_cons_pos x l i : 0 < i -> zget (x :: l) i = zget l (i - 1).
Proof.
  intros Hi. change (x :: l) with ([x] ++ l). rewrite zget_app_r; [done|].
  change (zlen [x]) with 1. lia.
Qed.

Lemma zget_ext l k :
  zlen l = zlen k -> (forall i, 0 <= i < zlen l -> zget l i = zget k i) -> l = k.
Proof.
  intros Hlen H. apply list_eq. intros n.
  destruct (decide (n < length l)%nat) as [Hn|Hn].
  - specialize (H (Z.of_nat n)). unfold zget, zlen in *.
    rewrite (proj2 (Z.leb_le 0 _)) in H by lia. rewrite Nat2Z.id in H. apply H. lia.
  - unfold zlen in *. rewrite !lookup_ge_None_2 by lia. done.
Qed.
End arrays.

(** ** Machine integers and bits *)

Lemma u32_small x : 0 <= x < 2 ^ 32 -> u32 x = x.
Proof. intros. by apply Z.mod_small. Qed.

Lemma u64_small x : 0 <= x < 2 ^ 64 -> u64 x = x.
Proof. intros. by apply Z.mod_small. Qed.

Lemma u32_bound x : 0 <= u32 x < 2 ^ 32.
Proof. by apply Z.mod_pos_bound. Qed.

Lemma u64_sub_l a b : u64 (u64 a - b) = u64 (a - b).
Proof. apply Zminus_mod_idemp_l. Qed.

Lemma u64_bound x : 0 <= u64 x < 2 ^ 64.
Proof. by apply Z.mod_pos_bound. Qed.

Lemma u64_testbit x i : 0 <= i < 64 -> Z.testbit (u64 x) i = Z.testbit x i.
Proof. intros. unfold u64. apply Z.mod_pow2_bits_low. lia. Qed.

Lemma testbit_high x n i : 0 <= x < 2 ^ n -> 0 <= n <= i -> Z.testbit x i = false.
Proof.
  intros Hx Hi. rewrite <- (Z.mod_small x (2 ^ n)) by done.
  apply Z.mod_pow2_bits_high. lia.
Qed.

(** [x & ~(2^k - 1)] is [x] rounded down to a multiple of [2^k]. *)
Lemma land_not64_mask x k :
  0 <= x < 2 ^ 64 -> 0 <= k <= 64 ->
  Z.land x (not64 (2 ^ k - 1)) = 2 ^ k * (x / 2 ^ k).
Proof.
  intros Hx Hk.
  rewrite Z.mul_comm, <- Z.shiftl_mul_pow2, <- Z.shiftr_div_pow2 by lia.
  apply Z.bits_inj'. intros i Hi.
  rewrite Z.land_spec, Z.shiftl_spec by lia.
  destruct (Z.lt_ge_cases i 64) as [Hi64|Hi64].
  - unfold not64. rewrite u64_testbit, Z.lnot_spec by lia.
    rewrite Z.sub_1_r, <- Z.ones_equiv.
    destruct (Z.lt_ge_cases i k) as [Hik|Hik].
    + rewrite Z.ones_spec_low, (Z.testbit_neg_r _ (i - k)) by lia. by rewrite andb_false_r.
    + rewrite Z.ones_spec_high, Z.shiftr_spec by lia.
      rewrite andb_true_r. f_equal. lia.
  - rewrite (testbit_high x 64) by lia.
    destruct (Z.lt_ge_cases i k); [lia|].
    rewrite Z.shiftr_spec by lia. replace (i - k + k) with i by lia.
    by rewrite (testbit_high x 64) by lia.
Qed.

(** [x & (2^k - 1)] is the remainder modulo [2^k]. *)
Lemma land_mask x k : 0 <= k -> Z.land x (2 ^ k - 1) = x mod 2 ^ k.
Proof. intros. rewrite Z.sub_1_r, <- Z.ones_equiv. by apply Z.land_ones. Qed.

Lemma pow2_pos k : 0 <= k -> 0 < 2 ^ k.
Proof. intros. by apply Z.pow_pos_nonneg. Qed.

Lemma pow2_le_mono a b : 0 <= a <= b -> 2 ^ a <= 2 ^ b.
Proof. intros. apply Z.pow_le_mono_r; lia. Qed.

Lemma pow2_lt_mono a b : 0 <= a < b -> 2 ^ a < 2 ^ b.
Proof. intros. apply Z.pow_lt_mono_r; lia. Qed.

Lemma pow2_split a b : 0 <= a <= b -> 2 ^ b = 2 ^ a * 2 ^ (b - a).
Proof. intros. rewrite <- Z.pow_add_r by lia. f_equal. lia. Qed.

#[export] Hint Resolve u32_bound u64_bound pow2_pos zlen_nonneg : jalloc.

Lemma bits_lt_pow2 x n :
  0 <= x -> 0 <= n -> (forall i, n <= i -> Z.testbit x i = false) -> x < 2 ^ n.
Proof.
  intros Hx Hn H.
  assert (E : x mod 2 ^ n = x).
  { apply Z.bits_inj'. intros i Hi. destruct (Z.lt_ge_cases i n).
    - by rewrite Z.mod_pow2_bits_low by lia.
    - rewrite Z.mod_pow2_bits_high by lia. by rewrite H. }
  rewrite <- E. apply Z.mod_pos_bound. by apply pow2_pos.
Qed.

(** ** Counting *)

(** The number of integers of [[0, n)] that satisfy [f]. *)
Definition zcount (f : Z -> bool) (n : Z) : Z :=
  zlen (List.filter f (seqZ 0 n)).

Lemma zcount_0 f n : n <= 0 -> zcount f n = 0.
Proof. intros. unfold zcount. by rewrite seqZ_nil by lia. Qed.

Lemma zcount_succ f n :
  0 <= n -> zcount f (n + 1) = zcount f n + (if f n then 1 else 0).
Proof.
  intros Hn. unfold zcount. rewrite (seqZ_app 0 n 1) by lia.
  rewrite List.filter_app, zlen_app. f_equal.
  rewrite seqZ_cons, seqZ_nil by lia. rewrite Z.add_0_l. simpl. by destruct (f n).
Qed.

Lemma zcount_ext f g n :
  (forall i, 0 <= i < n -> f i = g i) -> zcount f n = zcount g n.
Proof.
  destruct (Z.le_gt_cases 0 n) as [Hn|Hn]; [|by rewrite !zcount_0 by lia].
  revert n Hn. refine (natlike_ind _ _ _); [by rewrite !zcount_0 by lia|].
  intros n Hn IH H. change (Z.succ n) with (n + 1) in *. rewrite !zcount_succ, IH by (intros; try apply H; lia).
  by rewrite H by lia.
Qed.

(** Switching one index off lowers the count by one. *)
Lemma zcount_clear f g n r :
  0 <= r < n -> f r = true -> g r = false ->
  (forall i, 0 <= i < n -> i <> r -> g i = f i) ->
  zcount f n = zcount g n + 1.
Proof.
  intros Hr. assert (Hn : 0 <= n) by lia. revert n Hn Hr.
  refine (natlike_ind _ _ _); [lia|]. intros n Hn IH Hr Hf Hg H.
  change (Z.succ n) with (n + 1) in *. rewrite !zcount_succ by lia.
  destruct (decide (r = n)) as [->|Hne].
  - rewrite Hf, Hg. rewrite (zcount_ext g f n) by (intros; apply H; lia). lia.
  - rewrite (H n) by lia. rewrite IH by (try apply H; auto; intros; try apply H; lia). lia.
Qed.

Lemma zcount_bounds f n : 0 <= n -> 0 <= zcount f n <= n.
Proof.
  revert n. refine (natlike_ind _ _ _); [by rewrite zcount_0 by lia|].
  intros n Hn IH. change (Z.succ n) with (n + 1) in *. rewrite zcount_succ by lia.
  destruct (f n); lia.
Qed.

Lemma zcount_pos f n : 0 < zcount f n -> exists i, 0 <= i < n /\ f i = true.
Proof.
  destruct (Z.le_gt_cases 0 n) as [Hn|Hn]; [|rewrite zcount_0 by lia; lia].
  revert n Hn. refine (natlike_ind _ _ _); [rewrite zcount_0 by lia; lia|].
  intros n Hn IH. change (Z.succ n) with (n + 1) in *. rewrite zcount_succ by lia.
  destruct (f n) eqn:E; [intros _; exists n; split; [lia|done]|].
  intros H. destruct IH as (i & ? & ?); [lia|]. exists i. split; [lia|done].
Qed.

Lemma zcount_full f n :
  0 <= n -> (zcount f n = n <-> forall i, 0 <= i < n -> f i = true).
Proof.
  revert n. refine (natlike_ind _ _ _); [rewrite zcount_0 by lia; split; [lia|done]|].
  intros n Hn IH. change (Z.succ n) with (n + 1) in *. rewrite zcount_succ by lia.
  pose proof (zcount_bounds f n Hn). split.
  - intros H0 i Hi. destruct (f n) eqn:E; [|lia].
    destruct (decide (i = n)) as [->|]; [done|]. apply IH; lia.
  - intros H0. rewrite H0 by lia. rewrite (proj2 IH); [done|]. intros. apply H0. lia.
Qed.
