(* ===== verification/JConfig.v ===== *)
(** * jalloc: macros, size arithmetic, run-time options and derived settings

    Models the parts of [src/util/private/jalloc/malloc.c] that compute with
    sizes and addresses only: the rounding macros, [pow2_ceil], [umax2s], the
    option parser of [malloc_init_hard] and the settings it derives, and the
    size-class selection of [arena_malloc].  The build modelled is the one the
    file selects on x86-64 Linux: [MALLOC_PRODUCTION], [NO_TLS], no [USE_BRK]. *)

From Stdlib Require Import ZArith Lia Bool Ascii String.
From stdpp Require Import base numbers list.
From S2P Require Import Prelude.

(** ** Build constants *)

Definition QUANTUM_2POW_MIN : Z := 4.
Definition SIZEOF_PTR : Z := 8.
Definition SIZEOF_INT_2POW : Z := 2.
Definition CHUNK_2POW_DEFAULT : Z := 20.
Definition CACHELINE : Z := 64.
Definition TINY_MIN_2POW : Z := 1.
Definition SMALL_MAX_2POW_DEFAULT : Z := 9.
Definition RUN_MAX_SMALL : Z := 2 ^ 15.
Definition POS_FREE : Z := 4294967295.
Definition UINT_MAX : Z := 4294967295.
Definition SIZE_T_MAX : Z := 2 ^ 64 - 1.

(** Structure sizes of the LP64 layout: [RB_ENTRY] is three pointers and an
    [int] (32 bytes), so [arena_chunk_t] is 8+32+3*4+8 rounded up to 64,
    [arena_run_t] is 32+8+3*4 rounded up to 56 with [regs_mask] at offset 48. *)
Definition sizeof_arena_chunk_t : Z := 64.
Definition sizeof_arena_chunk_map_t : Z := 8.
Definition sizeof_arena_run_t : Z := 56.
Definition offsetof_regs_mask : Z := 48.
Definition sizeof_unsigned : Z := 4.

(** ** Run-time options and settings *)

Record options := mk_options {
  opt_abort : bool;
  opt_junk : bool;
  opt_hint : bool;
  opt_print_stats : bool;
  opt_quantum_2pow : Z;
  opt_small_max_2pow : Z;
  opt_chunk_2pow : Z;
  opt_utrace : bool;
  opt_sysv : bool;
  opt_xmalloc : bool;
  opt_zero : bool;
  opt_narenas_lshift : Z }.

Definition default_options : options := {|
  opt_abort := false;
  opt_junk := false;
  opt_hint := false;
  opt_print_stats := false;
  opt_quantum_2pow := QUANTUM_2POW_MIN;
  opt_small_max_2pow := SMALL_MAX_2POW_DEFAULT;
  opt_chunk_2pow := CHUNK_2POW_DEFAULT;
  opt_utrace := false;
  opt_sysv := false;
  opt_xmalloc := false;
  opt_zero := false;
  opt_narenas_lshift := 0 |}.

Record config := mk_config {
  opts : options;
  pagesize : Z;
  pagesize_mask : Z;
  pagesize_2pow : Z;
  bin_maxclass : Z;
  ntbins : Z;
  nqbins : Z;
  nsbins : Z;
  small_min : Z;
  small_max : Z;
  quantum : Z;
  quantum_mask : Z;
  chunksize : Z;
  chunksize_mask : Z;
  chunk_npages : Z;
  arena_chunk_header_npages : Z;
  arena_maxclass : Z }.

(** ** Utility functions and macros *)

(** [ffs(3)]: one plus the index of the least significant set bit of an [int]. *)
Fixpoint pos_ctz (p : positive) : Z :=
  match p with xO q => 1 + pos_ctz q | _ => 0 end.

Definition ffs (v : Z) : Z :=
  match u32 v with Zpos p => 1 + pos_ctz p | _ => 0 end.

Section macros.
Context (cfg : config).

Definition CHUNK_ADDR2BASE (a : Z) : Z := Z.land a (not64 (chunksize_mask cfg)).
Definition CHUNK_ADDR2OFFSET (a : Z) : Z := Z.land a (chunksize_mask cfg).
Definition CHUNK_CEILING (s : Z) : Z :=
  Z.land (u64 (s + chunksize_mask cfg)) (not64 (chunksize_mask cfg)).
Definition CACHELINE_CEILING (s : Z) : Z :=
  Z.land (u64 (s + (CACHELINE - 1))) (not64 (CACHELINE - 1)).
Definition QUANTUM_CEILING (a : Z) : Z :=
  Z.land (u64 (a + quantum_mask cfg)) (not64 (quantum_mask cfg)).
Definition PAGE_CEILING (s : Z) : Z :=
  Z.land (u64 (s + pagesize_mask cfg)) (not64 (pagesize_mask cfg)).
End macros.

Definition pow2_ceil (x : Z) : Z :=
  let x := u64 (x - 1) in
  let x := Z.lor x (Z.shiftr x 1) in
  let x := Z.lor x (Z.shiftr x 2) in
  let x := Z.lor x (Z.shiftr x 4) in
  let x := Z.lor x (Z.shiftr x 8) in
  let x := Z.lor x (Z.shiftr x 16) in
  let x := Z.lor x (Z.shiftr x 32) in
  u64 (x + 1).

(** [umax2s] fills the caller's buffer from its end; it returns the buffer and
    the index of the first character.  The [do..while] loop runs with fuel
    [UMAX2S_BUFSIZE]; a write below index 0 is undefined. *)
Definition UMAX2S_BUFSIZE : Z := 21.

Fixpoint umax2s_loop (fuel : nat) (x i : Z) (s : list Z) : option (Z * list Z) :=
  match fuel with
  | O => None
  | S fuel =>
      let i := i - 1 in
      let* s := zset s i (48 + x mod 10) in
      let x := x / 10 in
      if 0 <? x then umax2s_loop fuel x i s else Some (i, s)
  end.

Definition umax2s (x : Z) (s : list Z) : option (Z * list Z) :=
  let i := UMAX2S_BUFSIZE - 1 in
  let* s := zset s i 0 in
  umax2s_loop (Z.to_nat UMAX2S_BUFSIZE) x i s.

(** ** The option parser *)

Section set_options.
Context (o : options).
Definition set_quantum (v : Z) : options :=
  mk_options (opt_abort o) (opt_junk o) (opt_hint o) (opt_print_stats o) v
    (opt_small_max_2pow o) (opt_chunk_2pow o) (opt_utrace o) (opt_sysv o)
    (opt_xmalloc o) (opt_zero o) (opt_narenas_lshift o).
Definition set_small_max (v : Z) : options :=
  mk_options (opt_abort o) (opt_junk o) (opt_hint o) (opt_print_stats o)
    (opt_quantum_2pow o) v (opt_chunk_2pow o) (opt_utrace o) (opt_sysv o)
    (opt_xmalloc o) (opt_zero o) (opt_narenas_lshift o).
Definition set_chunk (v : Z) : options :=
  mk_options (opt_abort o) (opt_junk o) (opt_hint o) (opt_print_stats o)
    (opt_quantum_2pow o) (opt_small_max_2pow o) v (opt_utrace o) (opt_sysv o)
    (opt_xmalloc o) (opt_zero o) (opt_narenas_lshift o).
Definition set_lshift (v : Z) : options :=
  mk_options (opt_abort o) (opt_junk o) (opt_hint o) (opt_print_stats o)
    (opt_quantum_2pow o) (opt_small_max_2pow o) (opt_chunk_2pow o) (opt_utrace o)
    (opt_sysv o) (opt_xmalloc o) (opt_zero o) v.
(** The boolean flags, in declaration order. *)
Definition set_flags (a j h p u v x z : bool) : options :=
  mk_options a j h p (opt_quantum_2pow o) (opt_small_max_2pow o)
    (opt_chunk_2pow o) u v x z (opt_narenas_lshift o).
End set_options.

Definition parse_opt (pagesize_2pow : Z) (o : options) (c : ascii) : options :=
  let flags := set_flags o in
  let a := opt_abort o in let j := opt_junk o in let h := opt_hint o in
  let p := opt_print_stats o in let u := opt_utrace o in let v := opt_sysv o in
  let x := opt_xmalloc o in let z := opt_zero o in
  match c with
  | "a"%char => flags false j h p u v x z
  | "A"%char => flags true j h p u v x z
  | "h"%char => flags a j false p u v x z
  | "H"%char => flags a j true p u v x z
  | "j"%char => flags a false h p u v x z
  | "J"%char => flags a true h p u v x z
  | "k"%char =>
      if pagesize_2pow + 1 <? opt_chunk_2pow o
      then set_chunk o (opt_chunk_2pow o - 1) else o
  | "K"%char =>
      if u64 (opt_chunk_2pow o - pagesize_2pow) <? Z.shiftl 4 3 - 1
      then set_chunk o (opt_chunk_2pow o + 1) else o
  | "n"%char => set_lshift o (opt_narenas_lshift o - 1)
  | "N"%char => set_lshift o (opt_narenas_lshift o + 1)
  | "p"%char => flags a j h false u v x z
  | "P"%char => flags a j h true u v x z
  | "q"%char =>
      if QUANTUM_2POW_MIN <? opt_quantum_2pow o
      then set_quantum o (opt_quantum_2pow o - 1) else o
  | "Q"%char =>
      if opt_quantum_2pow o <? pagesize_2pow - 1
      then set_quantum o (opt_quantum_2pow o + 1) else o
  | "s"%char =>
      if QUANTUM_2POW_MIN <? opt_small_max_2pow o
      then set_small_max o (opt_small_max_2pow o - 1) else o
  | "S"%char =>
      if opt_small_max_2pow o <? pagesize_2pow - 1
      then set_small_max o (opt_small_max_2pow o + 1) else o
  | "u"%char => flags a j h p false v x z
  | "U"%char => flags a j h p true v x z
  | "v"%char => flags a j h p u false x z
  | "V"%char => flags a j h p u true x z
  | "x"%char => flags a j h p u v false z
  | "X"%char => flags a j h p u v true z
  | "z"%char => flags a j h p u v x false
  | "Z"%char => flags a j h p u v x true
  | _ => o
  end.

(** One configuration string: the loop over [opts[j]]. *)
Fixpoint parse_opts (pagesize_2pow : Z) (o : options) (s : string) : options :=
  match s with
  | EmptyString => o
  | String c s => parse_opts pagesize_2pow (parse_opt pagesize_2pow o c) s
  end.

(** The three sources, in order: the target of the [/etc/malloc.conf] link, the
    [MALLOC_OPTIONS] variable, the compiled-in [_malloc_options]; an absent one
    is the empty string. *)
Definition parse_sources (pagesize_2pow : Z) (o : options)
    (malloc_conf malloc_options compiled_in : option string) : options :=
  let src (s : option string) := match s with Some s => s | None => EmptyString end in
  let o := parse_opts pagesize_2pow o (src malloc_conf) in
  let o := parse_opts pagesize_2pow o (src malloc_options) in
  parse_opts pagesize_2pow o (src compiled_in).

(** ** The settings [malloc_init_hard] derives from the options *)

(** [result] is [sysconf(_SC_PAGESIZE)]. *)
Definition init_settings (result : Z) (o : options) : config :=
  let pagesize := u32 result in
  let pagesize_mask := u64 (result - 1) in
  let pagesize_2pow := ffs result - 1 in
  let o :=
    if opt_small_max_2pow o <? opt_quantum_2pow o
    then set_small_max o (opt_quantum_2pow o) else o in
  let small_max := Z.shiftl 1 (opt_small_max_2pow o) in
  let bin_maxclass := Z.shiftr pagesize 1 in
  let ntbins := u32 (opt_quantum_2pow o - TINY_MIN_2POW) in
  let nqbins := u32 (Z.shiftr small_max (opt_quantum_2pow o)) in
  let nsbins := u32 (pagesize_2pow - opt_small_max_2pow o - 1) in
  let quantum := Z.shiftl 1 (opt_quantum_2pow o) in
  let quantum_mask := u64 (quantum - 1) in
  let small_min := if 0 <? ntbins then Z.shiftr quantum 1 + 1 else 1 in
  let chunksize := u64 (Z.shiftl 1 (opt_chunk_2pow o)) in
  let chunksize_mask := u64 (chunksize - 1) in
  let chunk_npages := u32 (Z.shiftr chunksize pagesize_2pow) in
  let header_size :=
    u32 (sizeof_arena_chunk_t + sizeof_arena_chunk_map_t * u32 (chunk_npages - 1)) in
  let header_npages := Z.shiftr header_size pagesize_2pow in
  let header_npages :=
    if negb (Z.land header_size pagesize_mask =? 0)
    then u32 (header_npages + 1) else header_npages in
  let arena_maxclass := u64 (chunksize - u32 (Z.shiftl header_npages pagesize_2pow)) in
  {| opts := o; pagesize := pagesize; pagesize_mask := pagesize_mask;
     pagesize_2pow := pagesize_2pow; bin_maxclass := bin_maxclass;
     ntbins := ntbins; nqbins := nqbins; nsbins := nsbins;
     small_min := small_min; small_max := small_max;
     quantum := quantum; quantum_mask := quantum_mask;
     chunksize := chunksize; chunksize_mask := chunksize_mask;
     chunk_npages := chunk_npages;
     arena_chunk_header_npages := header_npages;
     arena_maxclass := arena_maxclass |}.

(** The number of arenas.  A shift by a negative amount or by 32 and more is
    undefined. *)
Definition primes : list Z :=
  [1; 3; 5; 7; 11; 13; 17; 19; 23; 29; 31; 37; 41; 43; 47; 53; 59; 61; 67; 71;
   73; 79; 83; 89; 97; 101; 103; 107; 109; 113; 127; 131; 137; 139; 149; 151;
   157; 163; 167; 173; 179; 181; 191; 193; 197; 199; 211; 223; 227; 229; 233;
   239; 241; 251; 257; 263].

Fixpoint pick_prime (ps : list Z) (narenas parenas : Z) : Z :=
  match ps with
  | [] => parenas
  | q :: ps => if narenas <? q then q else pick_prime ps narenas parenas
  end.

Definition init_narenas (ncpus opt_narenas_lshift chunksize : Z) : option Z :=
  let lshift := if 1 <? ncpus then opt_narenas_lshift + 2 else opt_narenas_lshift in
  let* narenas :=
    if 0 <? lshift then
      if lshift <? 32 then
        let shifted := u32 (Z.shiftl ncpus lshift) in
        let narenas := if ncpus <? shifted then shifted else ncpus in
        Some (if chunksize <? u64 (narenas * SIZEOF_PTR)
              then u32 (chunksize / SIZEOF_PTR) else narenas)
      else None
    else if lshift <? 0 then None
    else Some ncpus in
  Some (if 1 <? narenas then pick_prime (tail primes) narenas 263 else narenas).

(** ** Size classes *)

(** The small branch of [arena_malloc]: the bin index and the class size. *)
Definition size2bin (cfg : config) (size : Z) : Z * Z :=
  if size <? small_min cfg then
    let size := pow2_ceil size in
    (ffs (Z.shiftr size (TINY_MIN_2POW + 1)), size)
  else if size <=? small_max cfg then
    let size := QUANTUM_CEILING cfg size in
    (ntbins cfg + Z.shiftr size (opt_quantum_2pow (opts cfg)) - 1, size)
  else
    let size := pow2_ceil size in
    (ntbins cfg + nqbins cfg
     + (ffs (Z.shiftr size (opt_small_max_2pow (opts cfg))) - 2), size).

(** The region size [arena_new] gives bin [i]. *)
Definition bin_reg_size (cfg : config) (i : Z) : Z :=
  if i <? ntbins cfg then Z.shiftl 1 (TINY_MIN_2POW + i)
  else if i <? ntbins cfg + nqbins cfg then
    u64 (quantum cfg * u32 (i - ntbins cfg + 1))
  else Z.shiftl (small_max cfg) (i - (ntbins cfg + nqbins cfg) + 1).

Definition nbins (cfg : config) : Z := ntbins cfg + nqbins cfg + nsbins cfg.

(** ** Lemmas on the utility functions *)

Lemma pos_ctz_nonneg p : 0 <= pos_ctz p.
Proof. induction p; simpl; lia. Qed.

Lemma pos_ctz_bits p :
  Z.testbit (Zpos p) (pos_ctz p) = true /\
  forall j, 0 <= j < pos_ctz p -> Z.testbit (Zpos p) j = false.
Proof.
  induction p as [p IH|p [IH1 IH2]|]; simpl; [split; [done|lia]| |split; [done|lia]].
  pose proof (pos_ctz_nonneg p) as Hc.
  change (Zpos p~0) with (2 * Zpos p).
  split.
  - replace (1 + pos_ctz p) with (Z.succ (pos_ctz p)) by lia.
    by rewrite Z.testbit_even_succ.
  - intros j Hj. destruct (decide (j = 0)) as [->|Hne]; [apply Z.testbit_even_0|].
    replace j with (Z.succ (j - 1)) by lia.
    rewrite Z.testbit_even_succ by lia. apply IH2. lia.
Qed.

Lemma ffs_0 : ffs 0 = 0.
Proof. reflexivity. Qed.

(** [ffs] finds the least significant set bit. *)
Lemma ffs_bits v :
  0 < v < 2 ^ 32 ->
  1 <= ffs v <= 32 /\
  Z.testbit v (ffs v - 1) = true /\
  (forall j, 0 <= j < ffs v - 1 -> Z.testbit v j = false).
Proof.
  intros Hv. unfold ffs. rewrite u32_small by lia.
  destruct v as [|p|p]; [lia| |lia].
  pose proof (pos_ctz_nonneg p). destruct (pos_ctz_bits p) as [H1 H2].
  replace (1 + pos_ctz p - 1) with (pos_ctz p) by lia.
  split; [|done]. split; [lia|].
  destruct (Z.lt_ge_cases (pos_ctz p) 32); [lia|].
  rewrite (testbit_high _ 32) in H1 by lia. done.
Qed.

Lemma ffs_pow2 n : 0 <= n < 32 -> ffs (2 ^ n) = n + 1.
Proof.
  intros Hn. pose proof (pow2_lt_mono n 32 ltac:(lia)).
  pose proof (pow2_pos n ltac:(lia)).
  destruct (ffs_bits (2 ^ n)) as (Hb & H1 & H2); [lia|].
  rewrite Z.pow2_bits_eqb in H1 by lia. b2p. lia.
Qed.

(** Rounding up to a multiple of [2^k], the body of every [*_CEILING] macro. *)
Lemma ceil_pow2 s k :
  0 <= k <= 64 -> 0 <= s -> s + (2 ^ k - 1) < 2 ^ 64 ->
  Z.land (u64 (s + (2 ^ k - 1))) (not64 (2 ^ k - 1)) = 2 ^ k * ((s + (2 ^ k - 1)) / 2 ^ k).
Proof.
  intros Hk Hs Hov. pose proof (pow2_pos k ltac:(lia)).
  rewrite u64_small by lia. apply land_not64_mask; lia.
Qed.

Lemma ceil_pow2_overflow s k :
  0 <= k <= 63 -> 2 ^ 64 - 2 ^ k < s < 2 ^ 64 ->
  Z.land (u64 (s + (2 ^ k - 1))) (not64 (2 ^ k - 1)) = 0.
Proof.
  intros Hk Hs. pose proof (pow2_pos k ltac:(lia)).
  pose proof (pow2_lt_mono k 64 ltac:(lia)).
  assert (E : u64 (s + (2 ^ k - 1)) = s + (2 ^ k - 1) - 2 ^ 64).
  { unfold u64. symmetry. apply Z.mod_unique with 1; lia. }
  rewrite E, land_not64_mask by lia. rewrite Z.div_small by lia. lia.
Qed.

(** What rounding up means. *)
Lemma div_ceil_spec s m :
  0 < m -> s <= m * ((s + (m - 1)) / m) < s + m.
Proof. intros Hm. pose proof (Z.div_mod (s + (m - 1)) m). pose proof (Z.mod_pos_bound (s + (m - 1)) m). lia. Qed.

(** *** [pow2_ceil] *)

(** [s] has bit [i] set exactly when [y] has one of the [w] bits from [i] on. *)
Definition smears (y s w : Z) : Prop :=
  forall i, 0 <= i ->
    (Z.testbit s i = true <-> exists j, i <= j < i + w /\ Z.testbit y j = true).

Lemma smears_step y s w :
  0 < w -> smears y s w -> smears y (Z.lor s (Z.shiftr s w)) (w + w).
Proof.
  intros Hw H i Hi. rewrite Z.lor_spec, Z.shiftr_spec, orb_true_iff by lia.
  rewrite (H i Hi), (H (i + w)) by lia. split.
  - intros [(j & ? & ?)|(j & ? & ?)]; exists j; (split; [lia|done]).
  - intros (j & Hj & ?). destruct (Z.lt_ge_cases j (i + w)).
    + left. exists j. split; [lia|done].
    + right. exists j. split; [lia|done].
Qed.

Lemma smears_all y s :
  0 < y < 2 ^ 64 -> smears y s 64 -> 0 <= s -> s = 2 ^ (Z.log2 y + 1) - 1.
Proof.
  intros Hy H Hs. rewrite Z.sub_1_r, <- Z.ones_equiv.
  apply Z.bits_inj'. intros i Hi.
  pose proof (Z.log2_nonneg y).
  assert (Hl : Z.log2 y < 64) by (apply Z.log2_lt_pow2; lia).
  destruct (Z.le_gt_cases i (Z.log2 y)) as [Hle|Hgt].
  - rewrite Z.ones_spec_low by lia. apply (H i Hi).
    exists (Z.log2 y). split; [lia|]. apply Z.bit_log2. lia.
  - rewrite Z.ones_spec_high by lia. apply not_true_iff_false.
    intros (j & Hj & Hb)%(H i Hi). rewrite Z.bits_above_log2 in Hb by lia. done.
Qed.

Lemma smears_refl y : smears y y 1.
Proof.
  intros i Hi. split; [intros ?; exists i; split; [lia|done]|].
  intros (j & Hj & ?). by replace i with j by lia.
Qed.

Lemma lor_shiftr_nonneg s w : 0 <= s -> 0 <= Z.lor s (Z.shiftr s w).
Proof. intros. apply Z.lor_nonneg. by rewrite Z.shiftr_nonneg. Qed.

Lemma pow2_ceil_log2_up x :
  1 <= x <= 2 ^ 63 -> pow2_ceil x = 2 ^ Z.log2_up x.
Proof.
  intros Hx. destruct (decide (x = 1)) as [->|Hne]; [reflexivity|].
  unfold pow2_ceil. rewrite (u64_small (x - 1)) by lia.
  set (y := x - 1). assert (Hy : 0 < y < 2 ^ 63) by lia.
  match goal with |- u64 (?s + 1) = _ => set (r := s) end.
  assert (Hr : r = 2 ^ (Z.log2 y + 1) - 1).
  { apply smears_all; [lia| |by repeat apply lor_shiftr_nonneg; lia].
    unfold r. do 6 (apply smears_step; [lia|]). apply smears_refl. }
  rewrite Hr, Z.log2_up_eqn by lia. rewrite Z.sub_1_r at 1.
  replace (Z.pred x) with y by lia.
  assert (Z.log2 y < 63) by (apply Z.log2_lt_pow2; lia).
  pose proof (Z.log2_nonneg y).
  pose proof (pow2_lt_mono (Z.log2 y + 1) 64 ltac:(lia)).
  pose proof (pow2_pos (Z.log2 y + 1) ltac:(lia)).
  rewrite u64_small by lia. unfold Z.succ. lia.
Qed.

(** The result bounds its argument within a factor of two. *)
Lemma pow2_ceil_bounds x :
  1 <= x <= 2 ^ 63 ->
  exists n, 0 <= n <= 63 /\ pow2_ceil x = 2 ^ n /\ x <= 2 ^ n /\ (0 < n -> 2 ^ (n - 1) < x).
Proof.
  intros Hx. exists (Z.log2_up x). pose proof (Z.log2_up_nonneg x).
  assert (Z.log2_up x <= 63) by (apply Z.log2_up_le_pow2; lia).
  split; [lia|]. split; [by apply pow2_ceil_log2_up|].
  destruct (decide (x = 1)) as [->|]; [cbn; lia|].
  destruct (Z.log2_up_spec x) as [Hlo Hhi]; [lia|].
  split; [done|]. intros _. by rewrite Z.sub_1_r.
Qed.

(** ** Well-formed settings

    [config_ok] is what the rest of the allocator relies on.  The page size is
    between 4 kB and 32 kB; [opt_chunk_2pow] is at most 32, the largest chunk
    whose page offsets fit the [unsigned] arithmetic of the arena code. *)

Class config_ok (c : config) : Prop := mk_config_ok {
  ok_p : 12 <= pagesize_2pow c <= 15;
  ok_q : QUANTUM_2POW_MIN <= opt_quantum_2pow (opts c) <= opt_small_max_2pow (opts c);
  ok_s : opt_small_max_2pow (opts c) <= pagesize_2pow c - 1;
  ok_k : pagesize_2pow c + 1 <= opt_chunk_2pow (opts c) <= 32;
  ok_pagesize : pagesize c = 2 ^ pagesize_2pow c;
  ok_pagesize_mask : pagesize_mask c = 2 ^ pagesize_2pow c - 1;
  ok_bin_maxclass : bin_maxclass c = 2 ^ (pagesize_2pow c - 1);
  ok_ntbins : ntbins c = opt_quantum_2pow (opts c) - 1;
  ok_nqbins : nqbins c = 2 ^ (opt_small_max_2pow (opts c) - opt_quantum_2pow (opts c));
  ok_nsbins : nsbins c = pagesize_2pow c - opt_small_max_2pow (opts c) - 1;
  ok_small_max : small_max c = 2 ^ opt_small_max_2pow (opts c);
  ok_small_min : small_min c = 2 ^ (opt_quantum_2pow (opts c) - 1) + 1;
  ok_quantum : quantum c = 2 ^ opt_quantum_2pow (opts c);
  ok_quantum_mask : quantum_mask c = 2 ^ opt_quantum_2pow (opts c) - 1;
  ok_chunksize : chunksize c = 2 ^ opt_chunk_2pow (opts c);
  ok_chunksize_mask : chunksize_mask c = 2 ^ opt_chunk_2pow (opts c) - 1;
  ok_chunk_npages : chunk_npages c = 2 ^ (opt_chunk_2pow (opts c) - pagesize_2pow c);
  ok_header : 1 <= arena_chunk_header_npages c < chunk_npages c;
  ok_header_fits :
    sizeof_arena_chunk_t + sizeof_arena_chunk_map_t * (chunk_npages c - 1)
    <= arena_chunk_header_npages c * 2 ^ pagesize_2pow c;
  ok_maxclass :
    arena_maxclass c = (chunk_npages c - arena_chunk_header_npages c) * 2 ^ pagesize_2pow c }.

(** The option parser keeps the exponents in range for every input. *)
Definition opts_ok (p : Z) (o : options) : Prop :=
  4 <= opt_quantum_2pow o <= p - 1 /\
  4 <= opt_small_max_2pow o <= p - 1 /\
  p + 1 <= opt_chunk_2pow o <= p + 31.

Lemma parse_opt_ok p o c : 12 <= p <= 15 -> opts_ok p o -> opts_ok p (parse_opt p o c).
Proof.
  intros Hp (Hq & Hs & Hk). destruct c as [b0 b1 b2 b3 b4 b5 b6 b7].
  assert (Hu : u64 (opt_chunk_2pow o - p) = opt_chunk_2pow o - p)
    by (apply u64_small; lia).
  destruct b0, b1, b2, b3, b4, b5, b6, b7; cbn [parse_opt];
    try (repeat split; simpl; lia);
    rewrite ?Hu; change (Z.shiftl 4 3 - 1) with 31; unfold QUANTUM_2POW_MIN;
    (case_match; b2p; repeat split; simpl; lia).
Qed.

Lemma parse_opts_ok p o s : 12 <= p <= 15 -> opts_ok p o -> opts_ok p (parse_opts p o s).
Proof.
  intros Hp. revert o. induction s as [|c s IH]; intros o Ho; simpl; [done|].
  apply IH. by apply parse_opt_ok.
Qed.

Lemma default_options_ok p : 12 <= p <= 15 -> opts_ok p default_options.
Proof.
  intros Hp. unfold opts_ok, default_options, QUANTUM_2POW_MIN, SMALL_MAX_2POW_DEFAULT, CHUNK_2POW_DEFAULT.
  simpl. lia.
Qed.

Lemma parse_sources_ok p o a b c :
  12 <= p <= 15 -> opts_ok p o -> opts_ok p (parse_sources p o a b c).
Proof. intros Hp Ho. unfold parse_sources. by do 3 (apply parse_opts_ok; [done|]). Qed.

Lemma shiftl_1 n : 0 <= n -> Z.shiftl 1 n = 2 ^ n.
Proof. intros. rewrite Z.shiftl_mul_pow2 by done. lia. Qed.

Lemma shiftr_pow2 a b : 0 <= b <= a -> Z.shiftr (2 ^ a) b = 2 ^ (a - b).
Proof.
  intros H. rewrite Z.shiftr_div_pow2 by lia. rewrite (pow2_split b a) by lia.
  rewrite Z.mul_comm. apply Z.div_mul. pose proof (pow2_pos b). lia.
Qed.

(** The number of header pages of a chunk of [2^n] pages. *)
Lemma header_npages_bounds p n hs :
  12 <= p <= 15 -> 1 <= n <= 20 -> hs = 56 + 8 * 2 ^ n ->
  let h := if negb (Z.land hs (2 ^ p - 1) =? 0)
           then u32 (Z.shiftr hs p + 1) else Z.shiftr hs p in
  1 <= h < 2 ^ n /\ hs <= h * 2 ^ p /\ h <= 2 ^ 12.
Proof.
  intros Hp Hn -> h. subst h.
  assert (Hn2 : 2 ^ 1 <= 2 ^ n <= 2 ^ 20) by (split; apply pow2_le_mono; lia).
  assert (Hp2 : 2 ^ 12 <= 2 ^ p) by (apply pow2_le_mono; lia).
  rewrite land_mask, Z.shiftr_div_pow2 by lia.
  pose proof (Z.div_mod (56 + 8 * 2 ^ n) (2 ^ p) ltac:(lia)) as Hdm.
  pose proof (Z.mod_pos_bound (56 + 8 * 2 ^ n) (2 ^ p) ltac:(lia)) as Hmb.
  set (d := (56 + 8 * 2 ^ n) / 2 ^ p) in *. set (r := (56 + 8 * 2 ^ n) mod 2 ^ p) in *.
  assert (Hd0 : 0 <= d) by (apply Z.div_pos; lia).
  assert (Hd1 : 2 ^ 12 * d <= 56 + 8 * 2 ^ n).
  { transitivity (2 ^ p * d); [apply Z.mul_le_mono_nonneg_r; lia|lia]. }
  change (2 ^ 12) with 4096 in *. change (2 ^ 20) with 1048576 in *. change (2 ^ 1) with 2 in *.
  destruct (r =? 0) eqn:Er; simpl; b2p.
  - assert (1 <= d) by nia. lia.
  - rewrite u32_small by lia. lia.
Qed.

Lemma init_settings_ok_aux p o :
  12 <= p <= 15 -> opts_ok p o -> opt_chunk_2pow o <= 32 ->
  config_ok (init_settings (2 ^ p) o).
Proof.
  intros Hp (Hq & Hs & Hk) Hk32.
  assert (Hp2 : 2 ^ 12 <= 2 ^ p <= 2 ^ 15) by (split; apply pow2_le_mono; lia).
  change (2 ^ 12) with 4096 in Hp2. change (2 ^ 15) with 32768 in Hp2.
  assert (Hffs : ffs (2 ^ p) - 1 = p) by (rewrite ffs_pow2 by lia; lia).
  set (o' := if opt_small_max_2pow o <? opt_quantum_2pow o
             then set_small_max o (opt_quantum_2pow o) else o).
  assert (Ho' : opt_quantum_2pow o' = opt_quantum_2pow o /\
                opt_chunk_2pow o' = opt_chunk_2pow o /\
                opt_quantum_2pow o <= opt_small_max_2pow o' <= p - 1).
  { unfold o'. destruct (_ <? _) eqn:E; b2p; simpl; lia. }
  destruct Ho' as (Eq & Ek & Hs').
  unfold init_settings. cbv zeta. fold o'. clearbody o'.
  set (k := opt_chunk_2pow o) in *. set (q := opt_quantum_2pow o) in *.
  set (s := opt_small_max_2pow o') in *.
  assert (Hkp : 2 ^ 1 <= 2 ^ (k - p) <= 2 ^ 20) by (split; apply pow2_le_mono; lia).
  change (2 ^ 1) with 2 in Hkp. change (2 ^ 20) with 1048576 in Hkp.
  assert (Hk2 : 2 ^ k <= 2 ^ 32) by (apply pow2_le_mono; lia).
  assert (Hks : 2 ^ k = 2 ^ p * 2 ^ (k - p)) by (apply pow2_split; lia).
  assert (Hsq : 0 < 2 ^ (s - q) <= 2 ^ 15)
    by (split; [apply pow2_pos; lia|apply pow2_le_mono; lia]).
  assert (Hq2 : 2 ^ 4 <= 2 ^ q <= 2 ^ 15) by (split; apply pow2_le_mono; lia).
  change (2 ^ 15) with 32768 in *. change (2 ^ 4) with 16 in *.
  change (2 ^ 32) with 4294967296 in *.
  destruct (header_npages_bounds p (k - p) (56 + 8 * 2 ^ (k - p))) as (Hh1 & Hh2 & Hh3);
    [lia|lia|done|].
  rewrite Hffs, Eq, Ek. fold s.
  rewrite (shiftl_1 k), (shiftl_1 s), (shiftl_1 q) by lia.
  assert (Eh : u32 (sizeof_arena_chunk_t + sizeof_arena_chunk_map_t *
                    u32 (u32 (Z.shiftr (u64 (2 ^ k)) p) - 1)) = 56 + 8 * 2 ^ (k - p)).
  { rewrite (u64_small (2 ^ k)) by lia. rewrite shiftr_pow2 by lia.
    unfold sizeof_arena_chunk_t, sizeof_arena_chunk_map_t.
    rewrite (u32_small (2 ^ (k - p))), (u32_small (2 ^ (k - p) - 1)), u32_small by lia. lia. }
  rewrite Eh. rewrite (u64_small (2 ^ p - 1)) by lia.
  set (h := if negb (Z.land (56 + 8 * 2 ^ (k - p)) (2 ^ p - 1) =? 0)
            then u32 (Z.shiftr (56 + 8 * 2 ^ (k - p)) p + 1)
            else Z.shiftr (56 + 8 * 2 ^ (k - p)) p) in *.
  change (2 ^ 12) with 4096 in Hh3.
  assert (Ehp : u32 (Z.shiftl h p) = h * 2 ^ p).
  { rewrite Z.shiftl_mul_pow2 by lia. apply u32_small. nia. }
  assert (Ent : u32 (q - TINY_MIN_2POW) = q - 1)
    by (unfold TINY_MIN_2POW; apply u32_small; lia).
  rewrite Ehp, Ent.
  split; cbn [opts pagesize pagesize_mask pagesize_2pow bin_maxclass ntbins nqbins nsbins
              small_min small_max quantum quantum_mask chunksize chunksize_mask
              chunk_npages arena_chunk_header_npages arena_maxclass];
    rewrite ?Eq, ?Ek; try fold s; unfold QUANTUM_2POW_MIN; try lia;
    rewrite ?shiftr_pow2 by lia;
    rewrite ?(u64_small (2 ^ k)), ?(u64_small (2 ^ q - 1)), ?(u32_small (2 ^ p)) by lia;
    rewrite ?shiftr_pow2 by lia;
    rewrite ?(u32_small (2 ^ (k - p))), ?(u32_small (2 ^ (s - q))) by lia;
    try done.
  - apply u32_small. lia.
  - by rewrite (proj2 (Z.ltb_lt 0 (q - 1))) by lia.
  - apply u64_small. lia.
  - unfold sizeof_arena_chunk_t, sizeof_arena_chunk_map_t. lia.
  - rewrite u64_small by nia. rewrite Hks. lia.
Qed.

(** ** Size classes *)

Section size_classes.
Context (c : config) `{Hok : !config_ok c}.
Let p := pagesize_2pow c.
Let q := opt_quantum_2pow (opts c).
Let s := opt_small_max_2pow (opts c).

(** [i] is the index of the smallest class that holds [size] bytes. *)
Definition best_fit (size i : Z) : Prop :=
  0 <= i < nbins c /\ size <= bin_reg_size c i /\
  (0 < i -> bin_reg_size c (i - 1) < size).

Lemma exponents : 4 <= q <= s /\ s <= p - 1 /\ p <= 15.
Proof. destruct Hok. unfold p, q, s, QUANTUM_2POW_MIN in *. lia. Qed.

Lemma bin_reg_size_tiny i : 0 <= i < q - 1 -> bin_reg_size c i = 2 ^ (i + 1).
Proof.
  intros Hi. unfold bin_reg_size. rewrite ok_ntbins. fold q.
  rewrite (proj2 (Z.ltb_lt i (q - 1))) by lia.
  unfold TINY_MIN_2POW. rewrite shiftl_1 by lia. f_equal. lia.
Qed.

Lemma bin_reg_size_quantum m :
  1 <= m <= 2 ^ (s - q) -> bin_reg_size c (q - 1 + (m - 1)) = 2 ^ q * m.
Proof.
  intros Hm. destruct exponents as (Hq & Hs & Hp).
  assert (2 ^ (s - q) <= 2 ^ 15) by (apply pow2_le_mono; lia).
  assert (2 ^ q <= 2 ^ 15) by (apply pow2_le_mono; lia).
  change (2 ^ 15) with 32768 in *. pose proof (pow2_pos q ltac:(lia)).
  unfold bin_reg_size. rewrite ok_ntbins, ok_nqbins, ok_quantum. fold q s.
  rewrite (proj2 (Z.ltb_ge _ (q - 1))), (proj2 (Z.ltb_lt _ (q - 1 + _))) by lia.
  replace (q - 1 + (m - 1) - (q - 1) + 1) with m by lia.
  rewrite u32_small by lia. apply u64_small. nia.
Qed.

Lemma bin_reg_size_subpage j :
  0 <= j -> bin_reg_size c (q - 1 + 2 ^ (s - q) + j) = 2 ^ (s + j + 1).
Proof.
  intros Hj. destruct exponents as (Hq & Hs & Hp).
  pose proof (pow2_pos (s - q) ltac:(lia)).
  unfold bin_reg_size. rewrite ok_ntbins, ok_nqbins, ok_small_max. fold q s.
  rewrite (proj2 (Z.ltb_ge _ (q - 1))), (proj2 (Z.ltb_ge _ (q - 1 + _))) by lia.
  rewrite Z.shiftl_mul_pow2, <- Z.pow_add_r by lia. f_equal. lia.
Qed.

Lemma pow2_exp_le a b : 0 <= b -> 2 ^ a <= 2 ^ b -> a <= b.
Proof.
  intros Hb H. destruct (Z.le_gt_cases a b); [done|].
  pose proof (pow2_lt_mono b a ltac:(lia)). lia.
Qed.

Lemma pow2_lt_exp a b : 0 <= a -> 0 <= b -> 2 ^ a < 2 ^ b -> a < b.
Proof. intros Ha Hb H. by apply (Z.pow_lt_mono_r_iff 2). Qed.

(** The three kinds of classes. *)
Lemma bin_class_cases i :
  0 <= i < nbins c ->
  (i < q - 1 /\ bin_reg_size c i = 2 ^ (i + 1)) \/
  (q - 1 <= i /\ 2 ^ q <= bin_reg_size c i <= small_max c /\ bin_reg_size c i mod quantum c = 0) \/
  (q - 1 <= i /\ small_max c < bin_reg_size c i).
Proof.
  intros Hi. destruct exponents as (Hq & Hs & Hp). unfold nbins in Hi.
  rewrite ok_ntbins, ok_nqbins, ok_nsbins in Hi. fold p q s in Hi.
  pose proof (pow2_pos q ltac:(lia)). rewrite ok_small_max, ok_quantum. fold q s.
  destruct (Z.lt_ge_cases i (q - 1)) as [H1|H1]; [left; split; [done|apply bin_reg_size_tiny; lia]|].
  destruct (Z.lt_ge_cases i (q - 1 + 2 ^ (s - q))) as [H2|H2].
  - right. left. split; [done|]. replace i with (q - 1 + (i - q + 2 - 1)) by lia.
    rewrite bin_reg_size_quantum by lia. rewrite (pow2_split q s) by lia.
    split; [nia|]. rewrite Z.mul_comm. apply Z.mod_mul. lia.
  - right. right. split; [done|]. replace i with (q - 1 + 2 ^ (s - q) + (i - (q - 1 + 2 ^ (s - q)))) by lia.
    rewrite bin_reg_size_subpage by lia. apply pow2_lt_mono. lia.
Qed.

Lemma size2bin_tiny size :
  1 <= size < small_min c ->
  best_fit size (fst (size2bin c size)) /\
  (2 <= size -> snd (size2bin c size) = bin_reg_size c (fst (size2bin c size))).
Proof.
  intros Hsize. destruct exponents as (Hq & Hs & Hp).
  unfold size2bin, best_fit, nbins. rewrite (proj2 (Z.ltb_lt size _)) by lia.
  cbn [fst snd]. rewrite ok_ntbins, ok_nqbins, ok_nsbins. fold p q s.
  rewrite ok_small_min in Hsize. fold q in Hsize.
  pose proof (pow2_pos (s - q) ltac:(lia)).
  assert (2 ^ (q - 1) < 2 ^ 63) by (apply pow2_lt_mono; lia).
  destruct (pow2_ceil_bounds size) as (n & Hn & -> & Hle & Hmin); [lia|].
  unfold TINY_MIN_2POW.
  assert (Hnq : n <= q - 1).
  { destruct (decide (n = 0)); [lia|].
    enough (n - 1 < q - 1) by lia. apply pow2_lt_exp; lia. }
  destruct (Z.lt_ge_cases n 2) as [Hn2|Hn2].
  - assert (E : Z.shiftr (2 ^ n) (1 + 1) = 0).
    { rewrite Z.shiftr_div_pow2 by lia. apply Z.div_small.
      pose proof (pow2_pos n ltac:(lia)). pose proof (pow2_lt_mono n 2 ltac:(lia)). lia. }
    rewrite E, ffs_0, bin_reg_size_tiny by lia. change (2 ^ (0 + 1)) with 2.
    assert (n = 0 \/ n = 1) as [-> | ->] by lia; cbn in Hle |- *; lia.
  - change (1 + 1) with 2. rewrite shiftr_pow2, ffs_pow2 by lia.
    replace (n - 2 + 1) with (n - 1) by lia.
    rewrite !bin_reg_size_tiny by lia.
    replace (n - 1 + 1) with n by lia. replace (n - 1 - 1 + 1) with (n - 1) by lia. lia.
Qed.

Lemma size2bin_quantum size :
  small_min c <= size <= small_max c ->
  best_fit size (fst (size2bin c size)) /\
  snd (size2bin c size) = bin_reg_size c (fst (size2bin c size)).
Proof.
  intros Hsize. destruct exponents as (Hq & Hs & Hp).
  unfold size2bin, best_fit, nbins.
  rewrite (proj2 (Z.ltb_ge size _)), (proj2 (Z.leb_le size _)) by lia. cbn [fst snd].
  unfold QUANTUM_CEILING. rewrite ok_quantum_mask, ok_ntbins, ok_nqbins, ok_nsbins.
  fold p q s. rewrite ok_small_min, ok_small_max in Hsize. fold q s in Hsize.
  pose proof (pow2_pos (q - 1) ltac:(lia)). pose proof (pow2_pos q ltac:(lia)).
  assert (2 ^ s <= 2 ^ 15) by (apply pow2_le_mono; lia).
  assert (2 ^ q <= 2 ^ 15) by (apply pow2_le_mono; lia).
  change (2 ^ 15) with 32768 in *.
  rewrite ceil_pow2 by lia.
  pose proof (div_ceil_spec size (2 ^ q) ltac:(lia)) as Hc.
  set (m := (size + (2 ^ q - 1)) / 2 ^ q) in *.
  assert (Em : Z.shiftr (2 ^ q * m) q = m).
  { rewrite Z.shiftr_div_pow2, Z.mul_comm by lia. apply Z.div_mul. lia. }
  rewrite Em.
  assert (Hsq : 2 ^ s = 2 ^ q * 2 ^ (s - q)) by (apply pow2_split; lia).
  assert (Hm : 1 <= m <= 2 ^ (s - q)) by nia.
  replace (q - 1 + m - 1) with (q - 1 + (m - 1)) by lia.
  rewrite bin_reg_size_quantum by lia.
  split; [|done]. split; [lia|]. split; [lia|]. intros _.
  destruct (decide (m = 1)) as [->|Hm1].
  - replace (q - 1 + (1 - 1) - 1) with (q - 2) by lia.
    rewrite bin_reg_size_tiny by lia. replace (q - 2 + 1) with (q - 1) by lia. lia.
  - replace (q - 1 + (m - 1) - 1) with (q - 1 + (m - 1 - 1)) by lia.
    rewrite bin_reg_size_quantum by lia. lia.
Qed.

Lemma size2bin_subpage size :
  small_max c < size <= bin_maxclass c ->
  best_fit size (fst (size2bin c size)) /\
  snd (size2bin c size) = bin_reg_size c (fst (size2bin c size)).
Proof.
  intros Hsize. destruct exponents as (Hq & Hs & Hp).
  assert (Hmin : small_min c <= size).
  { rewrite ok_small_min. rewrite ok_small_max in Hsize. fold q. fold s in Hsize.
    pose proof (pow2_lt_mono (q - 1) s ltac:(lia)). lia. }
  unfold size2bin, best_fit, nbins.
  rewrite (proj2 (Z.ltb_ge size _)), (proj2 (Z.leb_gt size _)) by lia. cbn [fst snd].
  rewrite ok_ntbins, ok_nqbins, ok_nsbins. fold p q s.
  rewrite ok_small_max, ok_bin_maxclass in Hsize. fold p s in Hsize.
  pose proof (pow2_pos s ltac:(lia)). pose proof (pow2_pos (s - q) ltac:(lia)).
  assert (2 ^ (p - 1) < 2 ^ 63) by (apply pow2_lt_mono; lia).
  destruct (pow2_ceil_bounds size) as (n & Hn & -> & Hle & Hmin'); [lia|].
  assert (Hsn : s < n) by (apply pow2_lt_exp; lia).
  assert (Hnp : n <= p - 1).
  { enough (n - 1 < p - 1) by lia. apply pow2_lt_exp; lia. }
  rewrite shiftr_pow2, ffs_pow2 by lia.
  replace (q - 1 + 2 ^ (s - q) + (n - s + 1 - 2))
    with (q - 1 + 2 ^ (s - q) + (n - s - 1)) by lia.
  rewrite bin_reg_size_subpage by lia.
  replace (s + (n - s - 1) + 1) with n by lia.
  split; [|done]. split; [lia|]. split; [lia|]. intros _.
  destruct (decide (n = s + 1)) as [->|Hns].
  - replace (q - 1 + 2 ^ (s - q) + (s + 1 - s - 1) - 1)
      with (q - 1 + (2 ^ (s - q) - 1)) by lia.
    rewrite bin_reg_size_quantum by lia.
    rewrite <- (pow2_split q s) by lia. lia.
  - replace (q - 1 + 2 ^ (s - q) + (n - s - 1) - 1)
      with (q - 1 + 2 ^ (s - q) + (n - s - 2)) by lia.
    rewrite bin_reg_size_subpage by lia.
    replace (s + (n - s - 2) + 1) with (n - 1) by lia. lia.
Qed.

Lemma size2bin_best_fit size :
  1 <= size <= bin_maxclass c -> best_fit size (fst (size2bin c size)).
Proof.
  intros Hsize. destruct (Z.lt_ge_cases size (small_min c)).
  - apply size2bin_tiny. lia.
  - destruct (Z.le_gt_cases size (small_max c)).
    + apply size2bin_quantum. lia.
    + apply size2bin_subpage. lia.
Qed.
End size_classes.

(** ** Decimal printing *)

(** The number the [n] characters from index [j] on denote. *)
Fixpoint digits_val (s : list Z) (j : Z) (n : nat) : Z :=
  match n with
  | O => 0
  | S n =>
      10 * digits_val s j n
      + (match zget s (j + Z.of_nat n) with Some d => d - 48 | None => 0 end)
  end.

Definition is_digit (d : option Z) : Prop :=
  match d with Some d => 48 <= d <= 57 | None => False end.

Lemma digits_val_ext s s' j n :
  (forall k, j <= k < j + Z.of_nat n -> zget s k = zget s' k) ->
  digits_val s j n = digits_val s' j n.
Proof.
  induction n as [|n IH]; intros H; cbn [digits_val]; [done|].
  rewrite IH by (intros; apply H; lia). rewrite H by lia. done.
Qed.

Lemma umax2s_loop_spec fuel x i s :
  0 <= x < 10 ^ i -> 1 <= i <= zlen s -> i <= Z.of_nat fuel ->
  exists j s', umax2s_loop fuel x i s = Some (j, s') /\
    0 <= j < i /\ zlen s' = zlen s /\
    (forall k, i <= k -> zget s' k = zget s k) /\
    (forall k, j <= k < i -> is_digit (zget s' k)) /\
    digits_val s' j (Z.to_nat (i - j)) = x /\
    (0 < x -> zget s' j <> Some 48).
Proof.
  revert x i s. induction fuel as [|fuel IH]; intros x i s Hx Hi Hf; [lia|].
  cbn [umax2s_loop].
  destruct (zset_is_Some s (i - 1) (48 + x mod 10)) as [s1 Hs1]; [lia|].
  rewrite Hs1. pose proof (zlen_zset _ _ _ _ Hs1) as Hl1.
  pose proof (zget_zset_eq _ _ _ _ Hs1) as Hg1.
  pose proof (Z.div_mod x 10 ltac:(lia)) as Hdm.
  pose proof (Z.mod_pos_bound x 10 ltac:(lia)) as Hmb.
  assert (Hd : 0 <= x / 10) by (apply Z.div_pos; lia).
  destruct (0 <? x / 10) eqn:E; b2p.
  - assert (Hi2 : 2 <= i).
    { destruct (decide (i = 1)) as [->|]; [|lia]. change (10 ^ 1) with 10 in Hx. lia. }
    assert (H10 : 10 ^ i = 10 * 10 ^ (i - 1)).
    { rewrite <- Z.pow_succ_r by lia. f_equal. lia. }
    destruct (IH (x / 10) (i - 1) s1) as (j & s' & -> & Hj & Hl & Hge & Hdig & Hval & Hlead);
      [lia|lia|lia|].
    exists j, s'. split; [done|]. split; [lia|]. split; [lia|].
    assert (Hlast : zget s' (i - 1) = Some (48 + x mod 10)) by (rewrite Hge by lia; done).
    split; [intros k Hk; rewrite Hge by lia; apply (zget_zset_ne _ _ _ _ _ Hs1); lia|].
    split.
    { intros k Hk. destruct (decide (k = i - 1)) as [->|]; [rewrite Hlast; simpl; lia|].
      apply Hdig. lia. }
    replace (Z.to_nat (i - j)) with (S (Z.to_nat (i - 1 - j))) by lia.
    cbn [digits_val]. rewrite Hval.
    replace (j + Z.of_nat (Z.to_nat (i - 1 - j))) with (i - 1) by lia.
    rewrite Hlast. split; [lia|]. intros _. apply Hlead. lia.
  - exists (i - 1), s1. split; [done|]. split; [lia|]. split; [done|].
    split; [intros k Hk; apply (zget_zset_ne _ _ _ _ _ Hs1); lia|].
    split; [intros k Hk; replace k with (i - 1) by lia; rewrite Hg1; simpl; lia|].
    replace (Z.to_nat (i - (i - 1))) with 1%nat by lia.
    cbn [digits_val]. replace (i - 1 + Z.of_nat 0) with (i - 1) by lia. rewrite Hg1.
    split; [lia|]. intros ? [= ?]. lia.
Qed.

Lemma umax2s_spec x buf :
  0 <= x < 2 ^ 64 -> zlen buf = UMAX2S_BUFSIZE ->
  exists j s, umax2s x buf = Some (j, s) /\
    0 <= j < 20 /\ zget s 20 = Some 0 /\
    (forall k, j <= k < 20 -> is_digit (zget s k)) /\
    digits_val s j (Z.to_nat (20 - j)) = x /\
    (0 < x -> zget s j <> Some 48).
Proof.
  intros Hx Hl. unfold umax2s. unfold UMAX2S_BUFSIZE in *. cbv zeta.
  change (21 - 1) with 20.
  destruct (zset_is_Some buf 20 0) as [s0 Hs0]; [lia|]. rewrite Hs0.
  pose proof (zlen_zset _ _ _ _ Hs0).
  destruct (umax2s_loop_spec (Z.to_nat 21) x 20 s0)
    as (j & s & -> & Hj & Hls & Hge & Hdig & Hval & Hlead); [|lia|lia|].
  - assert (2 ^ 64 < 10 ^ 20) by reflexivity. lia.
  - exists j, s. split; [done|]. split; [done|]. split; [|done].
    rewrite Hge by lia. apply (zget_zset_eq _ _ _ _ Hs0).
Qed.

(** ** The number of arenas *)

Lemma pick_prime_spec ps n d :
  (pick_prime ps n d = d /\ Forall (fun q => q <= n) ps) \/
  (In (pick_prime ps n d) ps /\ n < pick_prime ps n d).
Proof.
  induction ps as [|q ps IH]; simpl; [by left|].
  destruct (n <? q) eqn:E; b2p; [right; split; [by left|lia]|].
  destruct IH as [[? ?]|[? ?]]; [left; split; [done|by constructor]|right; tauto].
Qed.

Lemma init_narenas_bounds ncpus lshift chunksize n :
  1 <= ncpus < 2 ^ 32 -> 2 ^ 13 <= chunksize <= 2 ^ 32 ->
  init_narenas ncpus lshift chunksize = Some n ->
  1 <= n <= 263 /\ In n primes.
Proof.
  intros Hc Hk. unfold init_narenas, SIZEOF_PTR. cbv zeta.
  set (ls := if 1 <? ncpus then lshift + 2 else lshift).
  assert (Hpick : forall m, 1 <= m ->
    1 <= (if 1 <? m then pick_prime (tail primes) m 263 else m) <= 263 /\
    In (if 1 <? m then pick_prime (tail primes) m 263 else m) primes).
  { intros m Hm. destruct (1 <? m) eqn:E; b2p.
    - assert (Hin : In (pick_prime (tail primes) m 263) primes).
      { destruct (pick_prime_spec (tail primes) m 263) as [[-> _]|[? _]].
        - repeat (try (left; reflexivity); right).
        - by right. }
      split; [|done]. revert Hin. generalize (pick_prime (tail primes) m 263).
      intros z Hz. repeat (destruct Hz as [<- | Hz]; [lia|]). destruct Hz.
    - replace m with 1 by lia. split; [lia|by left]. }
  assert (Hm : forall m, Some (if 1 <? m then pick_prime (tail primes) m 263 else m) = Some n ->
     1 <= m -> 1 <= n <= 263 /\ In n primes) by (intros m [= <-]; apply Hpick).
  pose proof (Z.div_le_mono (2 ^ 13) chunksize 8 ltac:(lia) ltac:(lia)) as Hd.
  pose proof (Z.div_le_mono chunksize (2 ^ 32) 8 ltac:(lia) ltac:(lia)) as Hd'.
  change (2 ^ 13 / 8) with 1024 in Hd. change (2 ^ 32 / 8) with 536870912 in Hd'.
  intros H. match type of H with
            | match ?e with Some _ => _ | None => _ end = _ => destruct e as [m|] eqn:E
            end; [|done].
  apply (Hm m H). clear H Hm Hpick.
  repeat case_match; simplify_eq; b2p; rewrite ?u32_small by lia; lia.
Qed.
