(* ===== verification/JRun.v ===== *)
(** * jalloc: runs of small regions

    Models the run header and the bin descriptor of
    [src/util/private/jalloc/malloc.c], [arena_run_reg_alloc],
    [arena_run_reg_dalloc] with its two division tables, the initialisation of a
    fresh run in [arena_bin_nonfull_run_get] and [arena_bin_malloc_easy]. *)

From Stdlib Require Import ZArith Lia Bool.
From stdpp Require Import base numbers list.
From S2P Require Import Prelude JConfig.

(** ** Data *)

(** [struct arena_run_s].  [regs_mask] is the array that starts at offset 48 of
    the run; its length is the number of words that have been written.  The
    [bin] pointer is the index of the bin in the arena that owns the chunk. *)
Record arena_run := mk_run {
  bin : Z;
  regs_minelm : Z;
  nfree : Z;
  regs_mask : list Z }.

(** [struct arena_bin_s].  Runs are named by their addresses; [runs] is the tree
    of non-full runs, in address order. *)
Record arena_bin := mk_bin {
  runcur : option Z;
  runs : list Z;
  reg_size : Z;
  run_size : Z;
  nregs : Z;
  regs_mask_nelms : Z;
  reg0_offset : Z }.

Definition set_nfree (r : arena_run) (n : Z) : arena_run :=
  mk_run (bin r) (regs_minelm r) n (regs_mask r).

(** ** [arena_run_reg_alloc] *)

(** The address of region [regind] of the run at [run]. *)
Definition reg_addr (run : Z) (b : arena_bin) (regind : Z) : Z :=
  u64 (run + reg0_offset b + u64 (reg_size b * regind)).

(** Takes the lowest free region of element [i], whose value is [mask]. *)
Definition reg_take (run : Z) (r : arena_run) (b : arena_bin) (i mask minelm : Z)
    : option (option Z * arena_run) :=
  let bit := ffs mask - 1 in
  let regind := u32 (u32 (Z.shiftl i (SIZEOF_INT_2POW + 3)) + bit) in
  let ret := reg_addr run b regind in
  let mask := Z.lxor mask (Z.shiftl 1 bit) in
  let* m := zset (regs_mask r) i mask in
  Some (Some ret, mk_run (bin r) minelm (nfree r) m).

(** The loop over the elements after [regs_minelm]. *)
Fixpoint reg_alloc_loop (fuel : nat) (run : Z) (r : arena_run) (b : arena_bin) (i : Z)
    : option (option Z * arena_run) :=
  match fuel with
  | O => Some (None, r)
  | S fuel =>
      if i <? regs_mask_nelms b then
        let* mask := zget (regs_mask r) i in
        if negb (mask =? 0) then reg_take run r b i mask i
        else reg_alloc_loop fuel run r b (i + 1)
      else Some (None, r)
  end.

(** The outer option is undefined behaviour, the inner one the [NULL] return. *)
Definition arena_run_reg_alloc (run : Z) (r : arena_run) (b : arena_bin)
    : option (option Z * arena_run) :=
  let i := regs_minelm r in
  let* mask := zget (regs_mask r) i in
  if negb (mask =? 0) then reg_take run r b i mask (regs_minelm r)
  else reg_alloc_loop (Z.to_nat (regs_mask_nelms b)) run r b (i + 1).

Definition arena_bin_malloc_easy (run : Z) (r : arena_run) (b : arena_bin)
    : option (option Z * arena_run) :=
  let* (ret, r) := arena_run_reg_alloc run r b in
  Some (ret, set_nfree r (u32 (nfree r - 1))).

(** ** [arena_run_reg_dalloc] *)

Definition SIZE_INV_SHIFT : Z := 21.

Definition SIZE_INV (s : Z) : Z :=
  Z.shiftl 1 SIZE_INV_SHIFT / Z.shiftl s QUANTUM_2POW_MIN + 1.

(** [SIZE_INV(3)] to [SIZE_INV(31)]. *)
Definition size_invs : list Z := SIZE_INV <$> seqZ 3 29.

Definition log2_table : list Z :=
  [0; 1; 0; 2; 0; 0; 0; 3; 0; 0; 0; 0; 0; 0; 0; 4;
   0; 0; 0; 0; 0; 0; 0; 0; 0; 0; 0; 0; 0; 0; 0; 5;
   0; 0; 0; 0; 0; 0; 0; 0; 0; 0; 0; 0; 0; 0; 0; 0;
   0; 0; 0; 0; 0; 0; 0; 0; 0; 0; 0; 0; 0; 0; 0; 6;
   0; 0; 0; 0; 0; 0; 0; 0; 0; 0; 0; 0; 0; 0; 0; 0;
   0; 0; 0; 0; 0; 0; 0; 0; 0; 0; 0; 0; 0; 0; 0; 0;
   0; 0; 0; 0; 0; 0; 0; 0; 0; 0; 0; 0; 0; 0; 0; 0;
   0; 0; 0; 0; 0; 0; 0; 0; 0; 0; 0; 0; 0; 0; 0; 7].

(** The division-free computation of [diff / size]. *)
Definition reg_index (size diff : Z) : option Z :=
  if Z.land size (u64 (size - 1)) =? 0 then
    if size <=? 128 then
      let* l := zget log2_table (size - 1) in
      Some (Z.shiftr diff l)
    else if size <=? 32768 then
      let* l := zget log2_table (Z.shiftr size 8 - 1) in
      Some (Z.shiftr diff (8 + l))
    else Some (u32 (diff / size))
  else if size <=? Z.shiftl (zlen size_invs) QUANTUM_2POW_MIN + 2 then
    let* inv := zget size_invs (Z.shiftr size QUANTUM_2POW_MIN - 3) in
    Some (Z.shiftr (u32 (inv * diff)) SIZE_INV_SHIFT)
  else Some (u32 (diff / size)).

Definition arena_run_reg_dalloc (run : Z) (r : arena_run) (b : arena_bin) (ptr size : Z)
    : option arena_run :=
  let diff := u32 (ptr - run - reg0_offset b) in
  let* regind := reg_index size diff in
  let elm := Z.shiftr regind (SIZEOF_INT_2POW + 3) in
  let minelm := if elm <? regs_minelm r then elm else regs_minelm r in
  let bit := u32 (regind - u32 (Z.shiftl elm (SIZEOF_INT_2POW + 3))) in
  let* mask := zget (regs_mask r) elm in
  let* m := zset (regs_mask r) elm (Z.lor mask (Z.shiftl 1 bit)) in
  Some (mk_run (bin r) minelm (nfree r) m).

(** ** The header of a fresh run

    [arena_bin_nonfull_run_get] stores [UINT_MAX] in the first
    [regs_mask_nelms] words and then, when the last word has spare bits, stores
    the trimmed value in the word at index [i], which the loop has left equal to
    [regs_mask_nelms]. *)
Definition arena_run_init (bin_ind : Z) (b : arena_bin) : arena_run :=
  let mask := replicate (Z.to_nat (regs_mask_nelms b)) UINT_MAX in
  let remainder := Z.land (nregs b) (Z.shiftl 1 (SIZEOF_INT_2POW + 3) - 1) in
  let mask :=
    if negb (remainder =? 0)
    then mask ++ [Z.shiftr UINT_MAX (Z.shiftl 1 (SIZEOF_INT_2POW + 3) - remainder)]
    else mask in
  mk_run bin_ind 0 (nregs b) mask.

(** ** Specification: a run is a set of free regions *)

Definition reg_free (r : arena_run) (regind : Z) : bool :=
  match zget (regs_mask r) (regind / 32) with
  | Some m => Z.testbit m (regind mod 32)
  | None => false
  end.

(** The geometry of a bin, as [arena_bin_run_size_calc] establishes it. *)
Record bin_geom (b : arena_bin) : Prop := mk_bin_geom {
  geom_reg_size : 2 <= reg_size b;
  geom_nregs : 1 <= nregs b;
  geom_nelms : regs_mask_nelms b = (nregs b + 31) / 32;
  geom_header :
    sizeof_arena_run_t + sizeof_unsigned * (regs_mask_nelms b - 1) <= reg0_offset b;
  geom_fill : reg0_offset b + nregs b * reg_size b = run_size b;
  geom_run_size : run_size b <= RUN_MAX_SMALL }.

(** The invariant of a run.  It says nothing about the bits from [nregs] on. *)
Record run_inv (b : arena_bin) (r : arena_run) : Prop := mk_run_inv {
  inv_masks : forall i, 0 <= i < regs_mask_nelms b ->
    exists m, zget (regs_mask r) i = Some m /\ 0 <= m < 2 ^ 32;
  inv_minelm : 0 <= regs_minelm r < regs_mask_nelms b;
  inv_below : forall i, 0 <= i < regs_minelm r -> zget (regs_mask r) i = Some 0;
  inv_nfree : nfree r = zcount (reg_free r) (nregs b) }.

(** ** Lemmas: the geometry *)

Section geometry.
Context (b : arena_bin) (Hg : bin_geom b).

Lemma geom_bounds : 1 <= nregs b < 2 ^ 14 /\ 1 <= regs_mask_nelms b <= 2 ^ 9 /\
  nregs b <= 32 * regs_mask_nelms b < nregs b + 32 /\
  56 <= reg0_offset b < 2 ^ 15 /\ 2 <= reg_size b < 2 ^ 15.
Proof.
  destruct Hg as [H1 H2 H3 H4 H5 H6].
  unfold sizeof_arena_run_t, sizeof_unsigned, RUN_MAX_SMALL in *.
  change (2 ^ 15) with 32768 in *. change (2 ^ 14) with 16384 in *.
  change (2 ^ 9) with 512 in *.
  pose proof (Z.div_mod (nregs b + 31) 32 ltac:(lia)).
  pose proof (Z.mod_pos_bound (nregs b + 31) 32 ltac:(lia)).
  assert (1 <= regs_mask_nelms b) by lia.
  nia.
Qed.

Lemma elm_of_reg regind : 0 <= regind < nregs b -> 0 <= regind / 32 < regs_mask_nelms b.
Proof.
  intros H. destruct geom_bounds as (_ & _ & Hn & _).
  pose proof (Z.div_mod regind 32 ltac:(lia)).
  pose proof (Z.mod_pos_bound regind 32 ltac:(lia)). lia.
Qed.

(** The address computation of region [regind] does not wrap inside a run that
    ends below [2^64]. *)
Lemma reg_addr_eq run regind :
  0 <= run -> run + run_size b < 2 ^ 64 -> 0 <= regind < nregs b ->
  reg_addr run b regind = run + reg0_offset b + reg_size b * regind.
Proof.
  intros Hr0 Hr H. destruct geom_bounds as (Hn & _ & _ & Ho & Hs).
  destruct Hg as [_ _ _ _ Hfill _]. unfold reg_addr.
  assert (0 <= reg_size b * regind <= reg_size b * nregs b) by nia.
  change (2 ^ 15) with 32768 in *. change (2 ^ 14) with 16384 in *.
  rewrite (u64_small (reg_size b * regind)) by nia. apply u64_small. lia.
Qed.
End geometry.

Lemma div_mod_32 i bit : 0 <= bit < 32 -> (32 * i + bit) / 32 = i /\ (32 * i + bit) mod 32 = bit.
Proof.
  intros H. split.
  - symmetry. apply Z.div_unique with bit; lia.
  - symmetry. apply Z.mod_unique with i; lia.
Qed.

Lemma div_mod_32_inv r i bit : r / 32 = i -> r mod 32 = bit -> r = 32 * i + bit.
Proof. intros. pose proof (Z.div_mod r 32 ltac:(lia)). lia. Qed.

(** ** Lemmas: allocation *)

Lemma lxor_bit m bit i :
  0 <= bit -> 0 <= i -> Z.testbit (Z.lxor m (Z.shiftl 1 bit)) i
  = if decide (i = bit) then negb (Z.testbit m i) else Z.testbit m i.
Proof.
  intros Hb Hi. rewrite Z.lxor_spec, shiftl_1, Z.pow2_bits_eqb by lia.
  case_decide as E.
  - rewrite (proj2 (Z.eqb_eq bit i)) by lia. by rewrite xorb_true_r.
  - rewrite (proj2 (Z.eqb_neq bit i)) by lia. by rewrite xorb_false_r.
Qed.

Lemma lor_bit m bit i :
  0 <= bit -> 0 <= i -> Z.testbit (Z.lor m (Z.shiftl 1 bit)) i
  = if decide (i = bit) then true else Z.testbit m i.
Proof.
  intros Hb Hi. rewrite Z.lor_spec, shiftl_1, Z.pow2_bits_eqb by lia.
  case_decide as E.
  - rewrite (proj2 (Z.eqb_eq bit i)) by lia. by rewrite orb_true_r.
  - rewrite (proj2 (Z.eqb_neq bit i)) by lia. by rewrite orb_false_r.
Qed.

Lemma lxor_range m bit : 0 <= m < 2 ^ 32 -> 0 <= bit < 32 -> 0 <= Z.lxor m (Z.shiftl 1 bit) < 2 ^ 32.
Proof.
  intros Hm Hb. rewrite shiftl_1 by lia. pose proof (pow2_pos bit ltac:(lia)).
  assert (0 <= Z.lxor m (2 ^ bit)) by (apply Z.lxor_nonneg; lia).
  split; [done|]. apply bits_lt_pow2; [lia|lia|]. intros i Hi.
  rewrite Z.lxor_spec, (testbit_high m 32), Z.pow2_bits_false by lia. done.
Qed.

Lemma lor_range m bit : 0 <= m < 2 ^ 32 -> 0 <= bit < 32 -> 0 <= Z.lor m (Z.shiftl 1 bit) < 2 ^ 32.
Proof.
  intros Hm Hb. rewrite shiftl_1 by lia. pose proof (pow2_pos bit ltac:(lia)).
  assert (0 <= Z.lor m (2 ^ bit)) by (apply Z.lor_nonneg; lia).
  split; [done|]. apply bits_lt_pow2; [lia|lia|]. intros i Hi.
  rewrite Z.lor_spec, (testbit_high m 32), Z.pow2_bits_false by lia. done.
Qed.

(** Storing into element [elm] changes the status of that element's regions only. *)
Lemma reg_free_zset r elm mask' m' n k reg :
  zset (regs_mask r) elm mask' = Some m' ->
  reg_free (mk_run n k (nfree r) m') reg
  = if decide (reg / 32 = elm) then Z.testbit mask' (reg mod 32) else reg_free r reg.
Proof.
  intros Hs. unfold reg_free. cbn [regs_mask]. case_decide as E.
  - by rewrite E, (zget_zset_eq _ _ _ _ Hs).
  - by rewrite (zget_zset_ne _ _ _ _ _ Hs) by done.
Qed.

Section alloc.
Context (b : arena_bin) (Hg : bin_geom b).

(** What one successful allocation does to the run. *)
Definition alloc_ok (run : Z) (r : arena_run) (res : option (option Z * arena_run)) : Prop :=
  exists reg r',
    res = Some (Some (reg_addr run b reg), r') /\
    0 <= reg < nregs b /\ reg_free r reg = true /\
    (forall reg', 0 <= reg' < reg -> reg_free r reg' = false) /\
    (forall reg', 0 <= reg' < nregs b ->
       reg_free r' reg' = if decide (reg' = reg) then false else reg_free r reg') /\
    bin r' = bin r /\ nfree r' = nfree r /\
    zlen (regs_mask r') = zlen (regs_mask r) /\
    (forall i, 0 <= i < regs_mask_nelms b ->
       exists m, zget (regs_mask r') i = Some m /\ 0 <= m < 2 ^ 32) /\
    0 <= regs_minelm r' < regs_mask_nelms b /\
    (forall i, 0 <= i < regs_minelm r' -> zget (regs_mask r') i = Some 0).

Lemma reg_take_ok run r i mask minelm :
  run_inv b r -> 0 < nfree r ->
  regs_minelm r <= i < regs_mask_nelms b ->
  (forall j, 0 <= j < i -> zget (regs_mask r) j = Some 0) ->
  zget (regs_mask r) i = Some mask -> mask <> 0 -> 0 <= minelm <= i ->
  alloc_ok run r (reg_take run r b i mask minelm).
Proof.
  intros [Hm Hmin Hbelow Hn] Hnf Hi Hz Hmask Hne Hminelm.
  destruct (geom_bounds b Hg) as (Hnr & Hnel & Hround & _).
  destruct (Hm i) as (m & Hm1 & Hm2); [lia|]. rewrite Hmask in Hm1. injection Hm1 as <-.
  destruct (ffs_bits mask) as (Hf1 & Hf2 & Hf3); [lia|].
  set (bit := ffs mask - 1) in *.
  destruct (div_mod_32 i bit) as [Hd Hmo]; [lia|].
  assert (Hreg : u32 (u32 (Z.shiftl i (SIZEOF_INT_2POW + 3)) + bit) = 32 * i + bit).
  { unfold SIZEOF_INT_2POW. change (2 + 3) with 5. rewrite Z.shiftl_mul_pow2 by lia.
    change (2 ^ 5) with 32. change (2 ^ 9) with 512 in *.
    rewrite (u32_small (i * 32)), u32_small by lia. lia. }
  assert (Hfree : reg_free r (32 * i + bit) = true).
  { unfold reg_free. by rewrite Hd, Hmo, Hmask. }
  assert (Hleast : forall reg', 0 <= reg' < 32 * i + bit -> reg_free r reg' = false).
  { intros reg' Hr'. unfold reg_free.
    pose proof (Z.div_mod reg' 32 ltac:(lia)). pose proof (Z.mod_pos_bound reg' 32 ltac:(lia)).
    destruct (decide (reg' / 32 = i)) as [E|E].
    - rewrite E, Hmask. apply Hf3. lia.
    - rewrite Hz; [apply Z.bits_0|]. split; [apply Z.div_pos; lia|lia]. }
  assert (Hlt : 32 * i + bit < nregs b).
  { destruct (zcount_pos (reg_free r) (nregs b)) as (x & Hx & Hx2); [lia|].
    destruct (Z.lt_ge_cases x (32 * i + bit)); [|lia].
    rewrite Hleast in Hx2 by lia. done. }
  destruct (zset_is_Some (regs_mask r) i (Z.lxor mask (Z.shiftl 1 bit))) as [m' Hm'].
  { apply zget_Some_bound in Hmask. lia. }
  exists (32 * i + bit), (mk_run (bin r) minelm (nfree r) m').
  unfold reg_take. fold bit. cbv zeta. rewrite Hreg, Hm'.
  split; [done|]. split; [lia|]. split; [done|]. split; [done|].
  split.
  { intros reg' Hr'. rewrite (reg_free_zset _ _ _ _ _ _ _ Hm').
    pose proof (Z.div_mod reg' 32 ltac:(lia)). pose proof (Z.mod_pos_bound reg' 32 ltac:(lia)).
    destruct (decide (reg' / 32 = i)) as [E|E].
    - rewrite lxor_bit by lia. unfold reg_free. rewrite E, Hmask.
      repeat case_decide; try lia; [|done]. replace (reg' mod 32) with bit by lia. by rewrite Hf2.
    - case_decide; [lia|done]. }
  split; [done|]. split; [done|]. cbn [regs_mask regs_minelm].
  split; [by rewrite (zlen_zset _ _ _ _ Hm')|].
  split.
  { intros k Hk. destruct (decide (k = i)) as [->|].
    - rewrite (zget_zset_eq _ _ _ _ Hm'). eexists. split; [done|]. apply lxor_range; lia.
    - rewrite (zget_zset_ne _ _ _ _ _ Hm') by done. by apply Hm. }
  split; [lia|]. intros k Hk. rewrite (zget_zset_ne _ _ _ _ _ Hm') by lia. apply Hz. lia.
Qed.

Lemma reg_alloc_loop_ok fuel run r i :
  run_inv b r -> 0 < nfree r ->
  regs_minelm r < i -> (forall j, 0 <= j < i -> zget (regs_mask r) j = Some 0) ->
  regs_mask_nelms b - i < Z.of_nat fuel ->
  alloc_ok run r (reg_alloc_loop fuel run r b i).
Proof.
  intros Hinv Hnf. pose proof Hinv as [Hm Hmin Hbelow Hn].
  revert i. induction fuel as [|fuel IH]; intros i Hi Hz Hfuel; cbn [reg_alloc_loop].
  - exfalso. destruct (zcount_pos (reg_free r) (nregs b)) as (x & Hx & Hx2); [lia|].
    unfold reg_free in Hx2. pose proof (elm_of_reg b Hg x Hx).
    rewrite Hz in Hx2 by lia. by rewrite Z.bits_0 in Hx2.
  - destruct (Z.lt_ge_cases i (regs_mask_nelms b)) as [Hlt|Hge].
    + rewrite (proj2 (Z.ltb_lt i _)) by done.
      destruct (Hm i) as (mask & Hmask & Hr); [lia|]. rewrite Hmask.
      destruct (mask =? 0) eqn:E; b2p; cbn [negb].
      * apply IH; [lia| |lia]. intros j Hj. destruct (decide (j = i)) as [->|]; [by subst|].
        apply Hz. lia.
      * apply reg_take_ok; auto; lia.
    + exfalso. destruct (zcount_pos (reg_free r) (nregs b)) as (x & Hx & Hx2); [lia|].
      unfold reg_free in Hx2. pose proof (elm_of_reg b Hg x Hx).
      rewrite Hz in Hx2 by lia. by rewrite Z.bits_0 in Hx2.
Qed.

Lemma arena_run_reg_alloc_ok run r :
  run_inv b r -> 0 < nfree r -> alloc_ok run r (arena_run_reg_alloc run r b).
Proof.
  intros Hinv Hnf. pose proof Hinv as [Hm Hmin Hbelow Hn].
  unfold arena_run_reg_alloc. cbv zeta.
  destruct (Hm (regs_minelm r)) as (mask & Hmask & Hr); [lia|]. rewrite Hmask.
  destruct (mask =? 0) eqn:E; b2p; cbn [negb].
  - apply reg_alloc_loop_ok; auto; [lia| |lia].
    intros j Hj. destruct (decide (j = regs_minelm r)) as [->|]; [by subst|]. apply Hbelow. lia.
  - apply reg_take_ok; auto; lia.
Qed.

(** The whole of [arena_bin_malloc_easy]: the lowest free region is handed out
    and the invariant is kept. *)
Lemma arena_bin_malloc_easy_ok run r :
  run_inv b r -> 0 < nfree r ->
  exists reg r',
    arena_bin_malloc_easy run r b = Some (Some (reg_addr run b reg), r') /\
    0 <= reg < nregs b /\ reg_free r reg = true /\
    (forall reg', 0 <= reg' < reg -> reg_free r reg' = false) /\
    (forall reg', 0 <= reg' < nregs b ->
       reg_free r' reg' = if decide (reg' = reg) then false else reg_free r reg') /\
    run_inv b r' /\ nfree r' = nfree r - 1 /\ bin r' = bin r /\
    zlen (regs_mask r') = zlen (regs_mask r).
Proof.
  intros Hinv Hnf. pose proof Hinv as [_ _ _ Hn].
  destruct (arena_run_reg_alloc_ok run r Hinv Hnf)
    as (reg & r1 & Heq & Hreg & Hfree & Hleast & Hupd & Hb & Hnf1 & Hlen & Hm1 & Hmin1 & Hbel1).
  destruct (geom_bounds b Hg) as (Hnr & _). change (2 ^ 14) with 16384 in *.
  pose proof (zcount_bounds (reg_free r) (nregs b) ltac:(lia)).
  assert (Hcnt : u32 (nfree r1 - 1) = nfree r - 1) by (rewrite Hnf1; apply u32_small; lia).
  exists reg, (set_nfree r1 (nfree r - 1)).
  unfold arena_bin_malloc_easy. rewrite Heq, Hcnt.
  split; [done|]. split; [done|]. split; [done|]. split; [done|].
  assert (Hrf : forall x, reg_free (set_nfree r1 (nfree r - 1)) x = reg_free r1 x) by done.
  split; [intros x Hx; rewrite Hrf; by apply Hupd|].
  split; [|done]. split; [done|done|done|]. cbn [nfree set_nfree]. rewrite Hn.
  rewrite (zcount_ext (reg_free (set_nfree r1 _)) (reg_free r1) (nregs b)) by done.
  rewrite (zcount_clear (reg_free r) (reg_free r1) (nregs b) reg); [lia|lia|done| |].
  - rewrite Hupd by done. by case_decide.
  - intros x Hx Hne. rewrite Hupd by done. by case_decide.
Qed.
End alloc.

(** ** Lemmas: division by table *)

(** The power-of-two test of the code. *)
Lemma land_pred_0 x : 0 < x < 2 ^ 64 -> Z.land x (u64 (x - 1)) = 0 -> x = 2 ^ Z.log2 x.
Proof.
  intros Hx H. rewrite u64_small in H by lia.
  destruct (Z.log2_spec x) as [Hlo Hhi]; [lia|].
  pose proof (Z.log2_nonneg x) as Hl.
  destruct (decide (x = 2 ^ Z.log2 x)) as [|Hne]; [done|exfalso].
  assert (E : Z.testbit (Z.land x (x - 1)) (Z.log2 x) = true).
  { rewrite Z.land_spec, Z.bit_log2 by lia. simpl.
    replace (Z.log2 x) with (Z.log2 (x - 1)) at 1 by (apply Z.log2_unique; lia).
    apply Z.bit_log2. lia. }
  by rewrite H, Z.bits_0 in E.
Qed.

Lemma land_pred_pow2 n : 0 <= n < 64 -> Z.land (2 ^ n) (u64 (2 ^ n - 1)) = 0.
Proof.
  intros Hn. pose proof (pow2_pos n ltac:(lia)). pose proof (pow2_lt_mono n 64 ltac:(lia)).
  rewrite u64_small, land_mask by lia. apply Z.mod_same. lia.
Qed.

Lemma zlen_size_invs : zlen size_invs = 29.
Proof. reflexivity. Qed.

Lemma zget_size_invs i : 0 <= i < 29 -> zget size_invs i = Some (SIZE_INV (3 + i)).
Proof.
  intros Hi. unfold zget, size_invs. rewrite (proj2 (Z.leb_le 0 i)) by lia.
  rewrite list_lookup_fmap, lookup_seqZ_lt by lia. simpl. do 2 f_equal. lia.
Qed.

(** Multiplying by the rounded-up reciprocal and shifting divides exactly. *)
Lemma size_inv_mul D k :
  48 <= D -> 0 <= k -> k * D < 2 ^ 15 ->
  Z.shiftr (u32 ((2 ^ 21 / D + 1) * (k * D))) 21 = k.
Proof.
  intros HD Hk HkD. change (2 ^ 15) with 32768 in *.
  pose proof (Z.div_mod (2 ^ 21) D ltac:(lia)) as Hdm.
  pose proof (Z.mod_pos_bound (2 ^ 21) D ltac:(lia)) as Hmb.
  set (d := 2 ^ 21 / D) in *. set (r := 2 ^ 21 mod D) in *.
  assert (Hprod : (d + 1) * (k * D) = k * 2 ^ 21 + k * (D - r)) by nia.
  assert (Hke : 0 <= k * (D - r) <= k * D) by nia.
  assert (Hk2 : k < 700) by nia.
  change (2 ^ 21) with 2097152 in *.
  rewrite Hprod, u32_small by lia. rewrite Z.shiftr_div_pow2 by lia.
  change (2 ^ 21) with 2097152. symmetry. apply Z.div_unique with (k * (D - r)); lia.
Qed.

Lemma shiftr_mul_pow2 k n : 0 <= n -> Z.shiftr (k * 2 ^ n) n = k.
Proof.
  intros. rewrite Z.shiftr_div_pow2 by lia. apply Z.div_mul. pose proof (pow2_pos n). lia.
Qed.

Lemma reg_index_pow2 n k :
  1 <= n <= 14 -> 0 <= k -> reg_index (2 ^ n) (k * 2 ^ n) = Some k.
Proof.
  intros Hn Hk. unfold reg_index. rewrite land_pred_pow2 by lia. simpl (0 =? 0).
  assert (n = 1 \/ n = 2 \/ n = 3 \/ n = 4 \/ n = 5 \/ n = 6 \/ n = 7 \/ n = 8 \/ n = 9 \/
          n = 10 \/ n = 11 \/ n = 12 \/ n = 13 \/ n = 14) as Hcases by lia.
  repeat destruct Hcases as [-> | Hcases]; try subst n;
    lazymatch goal with
    | |- context [k * 2 ^ ?m] =>
        generalize (shiftr_mul_pow2 k m ltac:(lia)); generalize (k * 2 ^ m);
        intros d E; cbn -[Z.shiftr]; exact (f_equal Some E)
    end.
Qed.

Definition class_size (size : Z) : Prop :=
  2 <= size <= 2 ^ 14 /\ ((exists n, 0 <= n /\ size = 2 ^ n) \/ exists m, size = 16 * m).

Lemma reg_index_exact size k :
  class_size size -> 0 <= k -> k * size < 2 ^ 15 -> reg_index size (k * size) = Some k.
Proof.
  intros [Hs Hc] Hk HkD. change (2 ^ 14) with 16384 in *.
  destruct (decide (Z.land size (u64 (size - 1)) = 0)) as [E|E].
  - pose proof (land_pred_0 size ltac:(lia) E) as Hp. rewrite Hp.
    apply reg_index_pow2; [|done]. split.
    + pose proof (Z.log2_le_mono 2 size ltac:(lia)) as H. by change (Z.log2 2) with 1 in H.
    + pose proof (Z.log2_le_mono size 16384 ltac:(lia)) as H. by change (Z.log2 16384) with 14 in H.
  - destruct Hc as [(n & Hn & ->)|(m & ->)].
    { destruct E. apply land_pred_pow2. split; [done|].
      apply pow2_lt_exp; [lia|lia|]. change (2 ^ 64) with 18446744073709551616. lia. }
    assert (Hm : 3 <= m).
    { assert (m <> 1) by (intros ->; by destruct E).
      assert (m <> 2) by (intros ->; by destruct E). lia. }
    unfold reg_index. rewrite (proj2 (Z.eqb_neq _ 0)) by done.
    rewrite zlen_size_invs. unfold QUANTUM_2POW_MIN. change (Z.shiftl 29 4 + 2) with 466.
    destruct (Z.le_gt_cases (16 * m) 466) as [Hle|Hgt].
    + rewrite (proj2 (Z.leb_le _ 466)) by done.
      rewrite Z.shiftr_div_pow2 by lia. change (2 ^ 4) with 16.
      rewrite (Z.mul_comm 16 m), Z.div_mul by lia.
      rewrite zget_size_invs by lia. replace (3 + (m - 3)) with m by lia.
      unfold SIZE_INV, SIZE_INV_SHIFT, QUANTUM_2POW_MIN.
      rewrite Z.shiftl_mul_pow2 by lia. rewrite (Z.shiftl_mul_pow2 m) by lia.
      rewrite Z.mul_1_l. f_equal. change (2 ^ 4) with 16. apply size_inv_mul; lia.
    + rewrite (proj2 (Z.leb_gt _ 466)) by done. f_equal.
      rewrite Z.div_mul by lia. change (2 ^ 15) with 32768 in *. apply u32_small. nia.
Qed.

Lemma bin_reg_size_class c `{!config_ok c} i :
  0 <= i < nbins c -> class_size (bin_reg_size c i).
Proof.
  intros Hi. unfold nbins in Hi.
  destruct (exponents c) as (Hq & Hs & Hp).
  set (p := pagesize_2pow c) in *. set (q := opt_quantum_2pow (opts c)) in *.
  set (s := opt_small_max_2pow (opts c)) in *.
  rewrite ok_ntbins, ok_nqbins, ok_nsbins in Hi. fold p q s in Hi.
  assert (H2 : forall n, 1 <= n <= 14 -> 2 <= 2 ^ n <= 2 ^ 14).
  { intros n Hn. split; [change 2 with (2 ^ 1) at 1|]; apply pow2_le_mono; lia. }
  destruct (Z.lt_ge_cases i (q - 1)) as [Ht|Ht].
  { rewrite (bin_reg_size_tiny c i) by (fold q; lia). split; [apply H2; lia|].
    left. exists (i + 1). split; [lia|done]. }
  destruct (Z.lt_ge_cases i (q - 1 + 2 ^ (s - q))) as [Hm|Hm].
  - replace i with (q - 1 + (i - q + 2 - 1)) by lia.
    rewrite (bin_reg_size_quantum c) by (fold q s; lia). fold q s.
    set (m := i - q + 2). assert (Hmb : 1 <= m <= 2 ^ (s - q)) by lia.
    pose proof (H2 q ltac:(lia)). pose proof (H2 s ltac:(lia)).
    rewrite (pow2_split q s) in * by lia. split; [nia|]. right.
    exists (2 ^ (q - 4) * m). rewrite (pow2_split 4 q) by lia. change (2 ^ 4) with 16. lia.
  - replace i with (q - 1 + 2 ^ (s - q) + (i - (q - 1 + 2 ^ (s - q)))) by lia.
    rewrite (bin_reg_size_subpage c) by (fold q s; lia). fold q s.
    set (j := i - (q - 1 + 2 ^ (s - q))). split; [apply H2; lia|].
    left. exists (s + j + 1). split; [lia|done].
Qed.

(** ** Lemmas: deallocation *)

Section dalloc.
Context (b : arena_bin) (Hg : bin_geom b) (Hclass : class_size (reg_size b)).

Lemma reg_index_of_addr run reg :
  0 <= run -> run + run_size b < 2 ^ 64 -> 0 <= reg < nregs b ->
  reg_index (reg_size b) (u32 (reg_addr run b reg - run - reg0_offset b)) = Some reg.
Proof.
  intros Hr0 Hr Hreg. rewrite reg_addr_eq by done.
  destruct (geom_bounds b Hg) as (Hn & _ & _ & Ho & Hs).
  destruct Hg as [_ _ _ _ Hfill Hrs]. unfold RUN_MAX_SMALL in *.
  change (2 ^ 15) with 32768 in *.
  replace (run + reg0_offset b + reg_size b * reg - run - reg0_offset b)
    with (reg * reg_size b) by lia.
  assert (0 <= reg * reg_size b < 32768) by nia.
  rewrite u32_small by lia. apply reg_index_exact; [done|lia|].
  change (2 ^ 15) with 32768. lia.
Qed.

Lemma arena_run_reg_dalloc_ok run r reg :
  run_inv b r -> 0 <= run -> run + run_size b < 2 ^ 64 ->
  0 <= reg < nregs b -> reg_free r reg = false ->
  exists r',
    arena_run_reg_dalloc run r b (reg_addr run b reg) (reg_size b) = Some r' /\
    (forall reg', 0 <= reg' < nregs b ->
       reg_free r' reg' = if decide (reg' = reg) then true else reg_free r reg') /\
    bin r' = bin r /\ nfree r' = nfree r /\
    zlen (regs_mask r') = zlen (regs_mask r) /\
    run_inv b (set_nfree r' (nfree r + 1)).
Proof.
  intros [Hm Hmin Hbelow Hn] Hr0 Hr Hreg Hused.
  destruct (geom_bounds b Hg) as (Hnr & Hnel & _). change (2 ^ 14) with 16384 in *.
  unfold arena_run_reg_dalloc. cbv zeta. rewrite reg_index_of_addr by done.
  unfold SIZEOF_INT_2POW. change (2 + 3) with 5.
  rewrite Z.shiftr_div_pow2 by lia. change (2 ^ 5) with 32.
  pose proof (elm_of_reg b Hg reg Hreg) as Helm.
  pose proof (Z.div_mod reg 32 ltac:(lia)) as Hdm.
  pose proof (Z.mod_pos_bound reg 32 ltac:(lia)) as Hmb.
  set (elm := reg / 32) in *. set (bit := reg mod 32) in *.
  assert (Hbit : u32 (reg - u32 (Z.shiftl elm 5)) = bit).
  { rewrite Z.shiftl_mul_pow2 by lia. change (2 ^ 5) with 32. change (2 ^ 9) with 512 in *.
    rewrite (u32_small (elm * 32)), u32_small by lia. lia. }
  rewrite Hbit. destruct (Hm elm Helm) as (mask & Hmask & Hrange). rewrite Hmask.
  destruct (zset_is_Some (regs_mask r) elm (Z.lor mask (Z.shiftl 1 bit))) as [m' Hm'].
  { apply zget_Some_bound in Hmask. lia. }
  rewrite Hm'. eexists. split; [reflexivity|].
  match goal with |- context [mk_run _ ?k _ m'] => set (minelm := k) end.
  assert (Hmin' : 0 <= minelm < regs_mask_nelms b /\ minelm <= regs_minelm r /\ minelm <= elm).
  { unfold minelm. case_match; b2p; lia. }
  assert (Hfree : forall reg', 0 <= reg' < nregs b ->
    reg_free (mk_run (bin r) minelm (nfree r) m') reg'
    = if decide (reg' = reg) then true else reg_free r reg').
  { intros reg' Hr'. rewrite (reg_free_zset _ _ _ _ _ _ _ Hm').
    pose proof (Z.div_mod reg' 32 ltac:(lia)). pose proof (Z.mod_pos_bound reg' 32 ltac:(lia)).
    destruct (decide (reg' / 32 = elm)) as [E|E].
    - rewrite lor_bit by lia. unfold reg_free. rewrite E, Hmask.
      repeat case_decide; try lia; done.
    - case_decide as E'; [|done]. subst reg'. done. }
  split; [done|]. split; [done|]. split; [done|]. cbn [regs_mask].
  split; [by rewrite (zlen_zset _ _ _ _ Hm')|].
  split; cbn [regs_mask regs_minelm nfree set_nfree].
  - intros k Hk. destruct (decide (k = elm)) as [->|].
    + rewrite (zget_zset_eq _ _ _ _ Hm'). eexists. split; [done|]. apply lor_range; lia.
    + rewrite (zget_zset_ne _ _ _ _ _ Hm') by done. by apply Hm.
  - lia.
  - intros k Hk. rewrite (zget_zset_ne _ _ _ _ _ Hm') by lia. apply Hbelow. lia.
  - rewrite Hn. symmetry. apply (zcount_clear _ (reg_free r) (nregs b) reg); [lia| |done|].
    + etransitivity; [by apply Hfree|]. by case_decide.
    + intros x Hx Hne. symmetry. etransitivity; [by apply Hfree|]. by case_decide.
Qed.
End dalloc.

(** ** Lemmas: the fresh run *)

Section init.
Context (b : arena_bin) (Hg : bin_geom b).

Lemma zget_init_mask bin_ind i :
  0 <= i < regs_mask_nelms b ->
  zget (regs_mask (arena_run_init bin_ind b)) i = Some UINT_MAX.
Proof.
  intros Hi. unfold arena_run_init. cbn [regs_mask].
  case_match; [|by apply zget_replicate; lia].
  rewrite zget_app_l; [by apply zget_replicate; lia|]. rewrite zlen_replicate. lia.
Qed.

Lemma arena_run_init_free bin_ind reg :
  0 <= reg < nregs b -> reg_free (arena_run_init bin_ind b) reg = true.
Proof.
  intros Hr. unfold reg_free. rewrite zget_init_mask by (by apply elm_of_reg).
  pose proof (Z.mod_pos_bound reg 32 ltac:(lia)).
  change UINT_MAX with (Z.ones 32). apply Z.ones_spec_low. lia.
Qed.

Lemma arena_run_init_ok bin_ind :
  run_inv b (arena_run_init bin_ind b) /\ nfree (arena_run_init bin_ind b) = nregs b.
Proof.
  destruct (geom_bounds b Hg) as (Hnr & Hnel & _).
  split; [|done]. split.
  - intros i Hi. exists UINT_MAX. split; [by apply zget_init_mask|]. unfold UINT_MAX. lia.
  - cbn [regs_minelm arena_run_init]. lia.
  - cbn [regs_minelm arena_run_init]. lia.
  - symmetry. cbn [nfree arena_run_init]. apply zcount_full; [lia|]. intros. by apply arena_run_init_free.
Qed.

(** The words written by the initialisation end before the first region. *)
Lemma arena_run_init_extent bin_ind :
  offsetof_regs_mask + sizeof_unsigned * zlen (regs_mask (arena_run_init bin_ind b))
  <= reg0_offset b.
Proof.
  destruct (geom_bounds b Hg) as (_ & Hnel & _).
  destruct Hg as [_ _ _ Hhdr _ _].
  unfold arena_run_init, offsetof_regs_mask, sizeof_unsigned, sizeof_arena_run_t in *.
  cbn [regs_mask]. case_match; rewrite ?zlen_app, zlen_replicate;
    try change (zlen [_]) with 1; lia.
Qed.
End init.
