(* ===== verification/JBin.v ===== *)
(** * jalloc: sizing the runs of a bin, and creating an arena

    Models [arena_bin_run_size_calc] and [arena_new] of
    [src/util/private/jalloc/malloc.c].  The two overhead tests compare [float]
    and [double] values; they are evaluated with the correctly rounded IEEE 754
    operations of the standard library's [SpecFloat]. *)

From Stdlib Require Import ZArith Lia Bool SpecFloat.
From stdpp Require Import base numbers list.
From S2P Require Import Prelude JConfig JRun.

(** ** Floating point *)

Definition float_of_Z (z : Z) : spec_float := binary_normalize 24 128 z 0 false.
Definition double_of_Z (z : Z) : spec_float := binary_normalize 53 1024 z 0 false.

Definition convert (prec emax : Z) (x : spec_float) : spec_float :=
  match x with
  | S754_finite s m e => binary_normalize prec emax (if s then Zneg m else Zpos m) e s
  | _ => x
  end.

(** The C constants [0.015] and [1.5]. *)
Definition RUN_MAX_OVRHD : spec_float := SFdiv 53 1024 (double_of_Z 15) (double_of_Z 1000).
Definition RUN_MAX_OVRHD_RELAX : spec_float := SFdiv 53 1024 (double_of_Z 3) (double_of_Z 2).
Definition max_ovrhd : spec_float := convert 24 128 RUN_MAX_OVRHD.

(** [max_ovrhd > RUN_MAX_OVRHD_RELAX / ((float)(bin->reg_size << 3))] *)
Definition ovrhd_not_relaxed (reg_size : Z) : bool :=
  SFltb (SFdiv 53 1024 RUN_MAX_OVRHD_RELAX
           (convert 53 1024 (float_of_Z (u64 (Z.shiftl reg_size 3)))))
        (convert 53 1024 max_ovrhd).

(** [((float)(try_reg0_offset)) / ((float)(try_run_size)) > max_ovrhd] *)
Definition ovrhd_exceeded (reg0_offset run_size : Z) : bool :=
  SFltb max_ovrhd (SFdiv 24 128 (float_of_Z reg0_offset) (float_of_Z run_size)).

(** ** [arena_bin_run_size_calc] *)

(** The inner [do..while] loop: the number of regions is lowered until the header
    and the regions no longer overlap. *)
Fixpoint fit_nregs (fuel : nat) (try_run_size reg_size try_nregs : Z)
    : option (Z * Z * Z) :=
  match fuel with
  | O => None
  | S fuel =>
      let try_nregs := u32 (try_nregs - 1) in
      let try_mask_nelms :=
        u32 (Z.shiftr try_nregs (SIZEOF_INT_2POW + 3)
             + (if negb (Z.land try_nregs (Z.shiftl 1 (SIZEOF_INT_2POW + 3) - 1) =? 0)
                then 1 else 0)) in
      let try_reg0_offset := u32 (u64 (try_run_size - u64 (try_nregs * reg_size))) in
      if try_reg0_offset
         <? u64 (sizeof_arena_run_t + sizeof_unsigned * u32 (try_mask_nelms - 1))
      then fit_nregs fuel try_run_size reg_size try_nregs
      else Some (try_nregs, try_mask_nelms, try_reg0_offset)
  end.

Definition try_settings (try_run_size reg_size : Z) : option (Z * Z * Z) :=
  let try_nregs := u32 (u64 (try_run_size - sizeof_arena_run_t) / reg_size + 1) in
  fit_nregs (Z.to_nat try_nregs) try_run_size reg_size try_nregs.

(** The run-size expansion loop: returns the last valid settings
    (run size, nregs, mask elements, offset of region 0). *)
Fixpoint expand_run (fuel : nat) (cfg : config) (reg_size : Z)
    (try_run_size : Z) (t : Z * Z * Z) : option (Z * (Z * Z * Z)) :=
  match fuel with
  | O => None
  | S fuel =>
      let good := (try_run_size, t) in
      let try_run_size := u64 (try_run_size + pagesize cfg) in
      let* t := try_settings try_run_size reg_size in
      let '(_, _, try_reg0_offset) := t in
      if (try_run_size <=? arena_maxclass cfg) && (try_run_size <=? RUN_MAX_SMALL)
         && ovrhd_not_relaxed reg_size && ovrhd_exceeded try_reg0_offset try_run_size
      then expand_run fuel cfg reg_size try_run_size t
      else Some good
  end.

(** [RUN_MAX_SMALL / pagesize] is at most 8 for a page of at least 4 kB. *)
Definition expand_fuel : nat := 16.

(** The bin with its settings filled in; [good_run_size], the return value, is
    the [run_size] field. *)
Definition arena_bin_run_size_calc (cfg : config) (b : arena_bin) (min_run_size : Z)
    : option arena_bin :=
  let* t := try_settings min_run_size (reg_size b) in
  let* (good_run_size, (good_nregs, good_mask_nelms, good_reg0_offset)) :=
    expand_run expand_fuel cfg (reg_size b) min_run_size t in
  Some (mk_bin (runcur b) (runs b) (reg_size b) good_run_size good_nregs
          good_mask_nelms good_reg0_offset).

(** ** [arena_new] *)

Record arena := mk_arena {
  chunks : list Z;
  spare : option Z;
  bins : list arena_bin }.

(** One of the three loops over the bins; [reg] is its [reg_size] expression.
    Returns the bins created and the last run size. *)
Fixpoint bins_loop (n : nat) (cfg : config) (reg : Z -> Z) (i prev_run_size : Z)
    : option (list arena_bin * Z) :=
  match n with
  | O => Some ([], prev_run_size)
  | S n =>
      let b := mk_bin None [] (reg i) 0 0 0 0 in
      let* b := arena_bin_run_size_calc cfg b prev_run_size in
      let* (bs, last) := bins_loop n cfg reg (i + 1) (run_size b) in
      Some (b :: bs, last)
  end.

Definition arena_new (cfg : config) : option arena :=
  let nt := ntbins cfg in let nq := nqbins cfg in let ns := nsbins cfg in
  let* (tiny, prev) :=
    bins_loop (Z.to_nat nt) cfg (fun i => Z.shiftl 1 (TINY_MIN_2POW + i)) 0 (pagesize cfg) in
  let* (quant, prev) :=
    bins_loop (Z.to_nat nq) cfg (fun i => u64 (quantum cfg * u32 (i - nt + 1))) nt prev in
  let* (sub, _) :=
    bins_loop (Z.to_nat ns) cfg (fun i => Z.shiftl (small_max cfg) (i - (nt + nq) + 1))
      (nt + nq) prev in
  Some (mk_arena [] None (tiny ++ quant ++ sub)).

(** ** Lemmas: the inner loop *)

(** [n] regions of [reg] bytes and the header fit in a run of [run] bytes. *)
Definition fits (run reg n : Z) : Prop :=
  1 <= n /\
  sizeof_arena_run_t + sizeof_unsigned * ((n + 31) / 32 - 1) <= run - n * reg.

#[export] Instance fits_dec run reg n : Decision (fits run reg n).
Proof. unfold fits. apply _. Defined.

Lemma nelms_eq n :
  0 <= n < 2 ^ 16 ->
  u32 (Z.shiftr n (SIZEOF_INT_2POW + 3)
       + (if negb (Z.land n (Z.shiftl 1 (SIZEOF_INT_2POW + 3) - 1) =? 0) then 1 else 0))
  = (n + 31) / 32.
Proof.
  intros Hn. unfold SIZEOF_INT_2POW. change (2 + 3) with 5.
  rewrite shiftl_1, land_mask, Z.shiftr_div_pow2 by lia. change (2 ^ 5) with 32.
  change (2 ^ 16) with 65536 in *.
  pose proof (Z.div_mod n 32 ltac:(lia)). pose proof (Z.mod_pos_bound n 32 ltac:(lia)).
  destruct (n mod 32 =? 0) eqn:E; b2p; cbn [negb]; rewrite u32_small by lia.
  - apply Z.div_unique with 31; lia.
  - apply Z.div_unique with (n mod 32 - 1); lia.
Qed.

Section fit.
Context (run reg : Z).
Context (Hreg : 2 <= reg) (Hrun : reg + 56 <= run < 2 ^ 17).

Lemma fits_bound n : fits run reg n -> 1 <= n <= (run - 56) / reg.
Proof.
  intros [H1 H2]. unfold sizeof_arena_run_t, sizeof_unsigned in H2. split; [done|].
  assert (1 <= (n + 31) / 32) by (apply Z.div_le_lower_bound; lia).
  apply Z.div_le_lower_bound; lia.
Qed.

Lemma fits_1 : fits run reg 1.
Proof. unfold fits, sizeof_arena_run_t, sizeof_unsigned. change ((1 + 31) / 32) with 1. lia. Qed.

Lemma fit_nregs_spec fuel N :
  1 < N <= (run - 56) / reg + 1 -> N <= Z.of_nat fuel ->
  exists n, fit_nregs fuel run reg N = Some (n, (n + 31) / 32, run - n * reg) /\
    fits run reg n /\ n < N /\ (forall m, n < m < N -> ~ fits run reg m).
Proof.
  change (2 ^ 17) with 131072 in Hrun.
  assert (Hd : reg * ((run - 56) / reg) <= run - 56) by (apply Z.mul_div_le; lia).
  revert N. induction fuel as [|fuel IH]; intros N HN Hf; [lia|].
  cbn [fit_nregs]. rewrite (u32_small (N - 1)) by nia.
  assert (HNr : (N - 1) * reg <= run - 56) by nia.
  assert (HN16 : 0 <= N - 1 < 2 ^ 16) by (change (2 ^ 16) with 65536; nia).
  rewrite nelms_eq by done.
  rewrite (u64_small ((N - 1) * reg)), (u64_small (run - (N - 1) * reg)),
    (u32_small (run - (N - 1) * reg)) by nia.
  pose proof (Z.div_mod (N - 1 + 31) 32 ltac:(lia)).
  pose proof (Z.mod_pos_bound (N - 1 + 31) 32 ltac:(lia)).
  change (2 ^ 16) with 65536 in *.
  rewrite (u32_small ((N - 1 + 31) / 32 - 1)) by lia.
  unfold sizeof_arena_run_t, sizeof_unsigned.
  rewrite u64_small by lia.
  destruct (_ <? _) eqn:E; b2p.
  - assert (Hno : ~ fits run reg (N - 1)).
    { unfold fits, sizeof_arena_run_t, sizeof_unsigned. lia. }
    assert (N <> 2) by (intros ->; apply Hno, fits_1).
    destruct (IH (N - 1)) as (n & -> & Hfit & Hlt & Hmax); [lia|lia|].
    exists n. split; [done|]. split; [done|]. split; [lia|].
    intros m Hm. destruct (decide (m = N - 1)) as [->|]; [done|]. apply Hmax. lia.
  - exists (N - 1). split; [done|]. split; [|split; [lia|intros m Hm; lia]].
    unfold fits, sizeof_arena_run_t, sizeof_unsigned. lia.
Qed.

(** The settings tried for one run size: the largest number of regions that fits. *)
Lemma try_settings_spec :
  exists n, try_settings run reg = Some (n, (n + 31) / 32, run - n * reg) /\
    fits run reg n /\ (forall m, fits run reg m -> m <= n).
Proof.
  change (2 ^ 17) with 131072 in Hrun.
  assert (Hd : 1 <= (run - 56) / reg <= 131072).
  { split; [apply Z.div_le_lower_bound; lia|].
    transitivity (run - 56); [apply Z.div_le_upper_bound; nia|lia]. }
  unfold try_settings, sizeof_arena_run_t. cbv zeta.
  rewrite (u64_small (run - 56)), u32_small by lia.
  destruct (fit_nregs_spec (Z.to_nat ((run - 56) / reg + 1)) ((run - 56) / reg + 1))
    as (n & -> & Hfit & Hlt & Hmax); [lia|lia|].
  exists n. split; [done|]. split; [done|]. intros m Hm.
  pose proof (fits_bound m Hm). destruct (Z.le_gt_cases m n); [done|].
  destruct (Hmax m); [lia|done].
Qed.
End fit.

(** ** Lemmas: the expansion loop and [arena_bin_run_size_calc] *)

(** Valid settings for one bin: a whole number of pages within the limits, filled
    with as many regions as fit. *)
Definition run_settings (cfg : config) (reg run n nelms off : Z) : Prop :=
  run mod pagesize cfg = 0 /\
  run <= arena_maxclass cfg /\ run <= RUN_MAX_SMALL /\
  fits run reg n /\ (forall m, fits run reg m -> m <= n) /\
  nelms = (n + 31) / 32 /\ off = run - n * reg.

Section calc.
Context (cfg : config) `{Hok : !config_ok cfg}.

Lemma pagesize_bounds : 4096 <= pagesize cfg <= 32768 /\ arena_maxclass cfg < 2 ^ 32.
Proof.
  rewrite ok_pagesize. pose proof ok_p as Hp. pose proof ok_k as Hk.
  assert (2 ^ 12 <= 2 ^ pagesize_2pow cfg <= 2 ^ 15) by (split; apply pow2_le_mono; lia).
  change (2 ^ 12) with 4096 in *. change (2 ^ 15) with 32768 in *.
  split; [lia|]. rewrite ok_maxclass. pose proof ok_header as Hh.
  assert (chunk_npages cfg * 2 ^ pagesize_2pow cfg <= 2 ^ 32).
  { rewrite ok_chunk_npages, <- Z.pow_add_r by lia. apply pow2_le_mono. lia. }
  nia.
Qed.

Lemma expand_run_spec fuel reg run n nelms off :
  2 <= reg <= pagesize cfg / 2 -> pagesize cfg <= run ->
  run_settings cfg reg run n nelms off ->
  (RUN_MAX_SMALL - run) / pagesize cfg + 1 < Z.of_nat fuel ->
  exists run' n' nelms' off',
    expand_run fuel cfg reg run (n, nelms, off) = Some (run', (n', nelms', off')) /\
    run <= run' /\ run_settings cfg reg run' n' nelms' off'.
Proof.
  destruct pagesize_bounds as [Hpg Hmc]. unfold RUN_MAX_SMALL. change (2 ^ 15) with 32768.
  revert run n nelms off. induction fuel as [|fuel IH]; intros run n nelms off Hr Hle Hset Hf.
  { pose proof Hset as (_ & _ & H & _). unfold RUN_MAX_SMALL in H.
    assert (0 <= (32768 - run) / pagesize cfg) by (apply Z.div_pos; lia). lia. }
  cbn [expand_run].
  pose proof Hset as (Hmod & Hmax & Hsm & _). unfold RUN_MAX_SMALL in Hsm.
  change (2 ^ 15) with 32768 in Hsm.
  rewrite u64_small by lia.
  pose proof (Z.div_mod (pagesize cfg) 2 ltac:(lia)).
  pose proof (Z.mod_pos_bound (pagesize cfg) 2 ltac:(lia)).
  destruct (try_settings_spec (run + pagesize cfg) reg) as (n1 & -> & Hfit & Hbest);
    [lia|change (2 ^ 17) with 131072; lia|].
  destruct (_ && _ && _ && _) eqn:E.
  - b2p. match goal with H : _ <= RUN_MAX_SMALL |- _ => unfold RUN_MAX_SMALL in H end.
    change (2 ^ 15) with 32768 in *.
    destruct (IH (run + pagesize cfg) n1 ((n1 + 31) / 32)
                (run + pagesize cfg - n1 * reg)) as (run' & n' & e' & o' & -> & Hle' & Hset');
      [lia|lia| | |].
    + split; [rewrite <- Zplus_mod_idemp_r, Z.mod_same, Z.add_0_r by lia; done|].
      split; [done|]. split; [unfold RUN_MAX_SMALL; change (2 ^ 15) with 32768; done|done].
    + replace (32768 - (run + pagesize cfg)) with (32768 - run + (-1) * pagesize cfg) by lia.
      rewrite Z.div_add by lia. lia.
    + exists run', n', e', o'. split; [done|]. split; [lia|done].
  - exists run, n, nelms, off. split; [done|]. split; [lia|done].
Qed.

Lemma arena_bin_run_size_calc_spec b min_run :
  2 <= reg_size b <= pagesize cfg / 2 ->
  pagesize cfg <= min_run -> min_run mod pagesize cfg = 0 ->
  min_run <= arena_maxclass cfg -> min_run <= RUN_MAX_SMALL ->
  exists b', arena_bin_run_size_calc cfg b min_run = Some b' /\
    runcur b' = runcur b /\ runs b' = runs b /\ reg_size b' = reg_size b /\
    min_run <= run_size b' /\
    run_settings cfg (reg_size b) (run_size b') (nregs b') (regs_mask_nelms b') (reg0_offset b').
Proof.
  intros Hreg Hmin Hmod Hmax Hsm. destruct pagesize_bounds as [Hpg Hmc].
  unfold RUN_MAX_SMALL in Hsm. change (2 ^ 15) with 32768 in Hsm.
  unfold arena_bin_run_size_calc.
  pose proof (Z.div_mod (pagesize cfg) 2 ltac:(lia)).
  pose proof (Z.mod_pos_bound (pagesize cfg) 2 ltac:(lia)).
  destruct (try_settings_spec min_run (reg_size b)) as (n & -> & Hfit & Hbest);
    [lia|change (2 ^ 17) with 131072; lia|].
  destruct (expand_run_spec expand_fuel (reg_size b) min_run n ((n + 31) / 32)
              (min_run - n * reg_size b)) as (run' & n' & e' & o' & -> & Hle & Hset);
    [lia|lia| | |].
  - split; [done|]. split; [done|]. split; [unfold RUN_MAX_SMALL; change (2 ^ 15) with 32768; done|done].
  - unfold RUN_MAX_SMALL, expand_fuel. change (2 ^ 15) with 32768.
    enough ((32768 - min_run) / pagesize cfg <= 8) by lia.
    apply Z.div_le_upper_bound; lia.
  - eexists. split; [reflexivity|]. cbn. done.
Qed.

Lemma run_settings_geom reg run n nelms off cur rs :
  2 <= reg -> run_settings cfg reg run n nelms off ->
  bin_geom (mk_bin cur rs reg run n nelms off).
Proof.
  intros Hreg (_ & _ & Hsm & [Hn Hfit] & _ & -> & ->).
  split; cbn; auto; lia.
Qed.
End calc.

(** ** Lemmas: [arena_new] *)

(** Bin [i] of an arena: region size of its class, valid settings. *)
Definition bin_for (cfg : config) (i : Z) (b : arena_bin) : Prop :=
  reg_size b = bin_reg_size cfg i /\
  run_settings cfg (reg_size b) (run_size b) (nregs b) (regs_mask_nelms b) (reg0_offset b).

Section new.
Context (cfg : config) `{Hok : !config_ok cfg}.

Lemma bin_reg_size_half_page i :
  0 <= i < nbins cfg -> 2 <= bin_reg_size cfg i <= pagesize cfg / 2.
Proof.
  intros Hi. destruct (bin_reg_size_class cfg i Hi) as [[H2 _] _]. split; [done|].
  rewrite ok_pagesize. pose proof ok_p as Hp.
  replace (2 ^ pagesize_2pow cfg / 2) with (2 ^ (pagesize_2pow cfg - 1)).
  2:{ rewrite <- (shiftr_pow2 (pagesize_2pow cfg) 1), Z.shiftr_div_pow2 by lia. done. }
  destruct (exponents cfg) as (Hq & Hs & _). unfold nbins in Hi.
  set (p := pagesize_2pow cfg) in *. set (q := opt_quantum_2pow (opts cfg)) in *.
  set (s := opt_small_max_2pow (opts cfg)) in *.
  rewrite ok_ntbins, ok_nqbins, ok_nsbins in Hi. fold p q s in Hi.
  destruct (Z.lt_ge_cases i (q - 1)) as [Ht|Ht].
  { rewrite (bin_reg_size_tiny cfg i) by (fold q; lia). apply pow2_le_mono. lia. }
  destruct (Z.lt_ge_cases i (q - 1 + 2 ^ (s - q))) as [Hm|Hm].
  - replace i with (q - 1 + (i - q + 2 - 1)) by lia.
    rewrite (bin_reg_size_quantum cfg) by (fold q s; lia). fold q s.
    transitivity (2 ^ s); [|apply pow2_le_mono; lia].
    rewrite (pow2_split q s) by lia. pose proof (pow2_pos q ltac:(lia)). nia.
  - replace i with (q - 1 + 2 ^ (s - q) + (i - (q - 1 + 2 ^ (s - q)))) by lia.
    rewrite (bin_reg_size_subpage cfg) by (fold q s; lia). fold q s.
    apply pow2_le_mono. lia.
Qed.

Lemma bins_loop_spec n reg i prev :
  (forall j, i <= j < i + Z.of_nat n -> reg j = bin_reg_size cfg j) ->
  0 <= i -> i + Z.of_nat n <= nbins cfg ->
  pagesize cfg <= prev -> prev mod pagesize cfg = 0 ->
  prev <= arena_maxclass cfg -> prev <= RUN_MAX_SMALL ->
  exists bs last, bins_loop n cfg reg i prev = Some (bs, last) /\
    zlen bs = Z.of_nat n /\
    (forall j, 0 <= j < Z.of_nat n -> exists b, zget bs j = Some b /\ bin_for cfg (i + j) b /\
       runcur b = None /\ runs b = []) /\
    pagesize cfg <= last /\ last mod pagesize cfg = 0 /\
    last <= arena_maxclass cfg /\ last <= RUN_MAX_SMALL.
Proof.
  revert i prev. induction n as [|n IH]; intros i prev Hreg Hi Hn Hp1 Hp2 Hp3 Hp4; cbn [bins_loop].
  - exists [], prev. split; [done|]. split; [done|]. split; [lia|done].
  - pose proof (bin_reg_size_half_page i ltac:(lia)) as Hhalf.
    destruct (arena_bin_run_size_calc_spec cfg (mk_bin None [] (reg i) 0 0 0 0) prev)
      as (b & -> & Hb1 & Hb2 & Hb3 & Hb4 & Hb5); auto.
    { cbn. rewrite Hreg by lia. done. }
    cbn in Hb1, Hb2, Hb3, Hb5. pose proof Hb5 as (Hr1 & Hr2 & Hr3 & _).
    destruct (IH (i + 1) (run_size b)) as (bs & last & -> & Hlen & Hbs & Hlast); auto; try lia.
    { intros j Hj. apply Hreg. lia. }
    exists (b :: bs), last. split; [done|].
    split; [rewrite zlen_cons; lia|]. split; [|done].
    intros j Hj. destruct (decide (j = 0)) as [->|Hj0].
    + exists b. split; [done|]. split; [|done]. rewrite Z.add_0_r.
      unfold bin_for. rewrite Hb3, <- Hreg by lia. done.
    + destruct (Hbs (j - 1)) as (b' & Hb' & Hfor & Hrest); [lia|].
      exists b'. split; [|replace (i + j) with (i + 1 + (j - 1)) by lia; done].
      by rewrite zget_cons_pos by lia.
Qed.

Lemma page_le_maxclass : pagesize cfg <= arena_maxclass cfg.
Proof.
  rewrite ok_maxclass, ok_pagesize. pose proof ok_header as Hh. pose proof ok_p as Hp.
  pose proof (pow2_pos (pagesize_2pow cfg) ltac:(lia)). nia.
Qed.

Lemma arena_new_spec :
  exists a, arena_new cfg = Some a /\ chunks a = [] /\ spare a = None /\
    zlen (bins a) = nbins cfg /\
    (forall i, 0 <= i < nbins cfg -> exists b, zget (bins a) i = Some b /\ bin_for cfg i b /\
       runcur b = None /\ runs b = []).
Proof.
  destruct (exponents cfg) as (Hq & Hs & Hp). pose proof pagesize_bounds cfg as [Hpg _].
  pose proof ok_ntbins as Ent. pose proof ok_nqbins as Enq. pose proof ok_nsbins as Ens.
  set (nt := ntbins cfg) in *. set (nq := nqbins cfg) in *. set (ns := nsbins cfg) in *.
  assert (Hnq : 0 < nq) by (rewrite Enq; apply pow2_pos; lia).
  assert (Hnb : nbins cfg = nt + nq + ns) by done.
  unfold arena_new. fold nt nq ns. cbv zeta.
  destruct (bins_loop_spec (Z.to_nat nt) (fun i => Z.shiftl 1 (TINY_MIN_2POW + i)) 0 (pagesize cfg))
    as (l1 & p1 & -> & Hl1 & Hb1 & H11 & H12 & H13 & H14); try lia.
  { intros j Hj. unfold bin_reg_size. fold nt. by rewrite (proj2 (Z.ltb_lt j nt)) by lia. }
  { apply Z.mod_same. lia. }
  { apply page_le_maxclass. }
  { unfold RUN_MAX_SMALL. change (2 ^ 15) with 32768. lia. }
  destruct (bins_loop_spec (Z.to_nat nq) (fun i => u64 (quantum cfg * u32 (i - nt + 1))) nt p1)
    as (l2 & p2 & -> & Hl2 & Hb2 & H21 & H22 & H23 & H24); try lia; auto.
  { intros j Hj. unfold bin_reg_size. fold nt nq.
    by rewrite (proj2 (Z.ltb_ge j nt)), (proj2 (Z.ltb_lt j (nt + nq))) by lia. }
  destruct (bins_loop_spec (Z.to_nat ns)
              (fun i => Z.shiftl (small_max cfg) (i - (nt + nq) + 1)) (nt + nq) p2)
    as (l3 & p3 & -> & Hl3 & Hb3 & _); try lia; auto.
  { intros j Hj. unfold bin_reg_size. fold nt nq.
    by rewrite (proj2 (Z.ltb_ge j nt)), (proj2 (Z.ltb_ge j (nt + nq))) by lia. }
  eexists. split; [reflexivity|]. cbn [chunks spare bins].
  split; [done|]. split; [done|]. split; [rewrite !zlen_app; lia|].
  intros i Hi. destruct (Z.lt_ge_cases i nt) as [Hi1|Hi1].
  { destruct (Hb1 i) as (b & Hb & Hf); [lia|]. exists b. rewrite zget_app_l by lia. done. }
  rewrite zget_app_r by lia. destruct (Z.lt_ge_cases i (nt + nq)) as [Hi2|Hi2].
  { destruct (Hb2 (i - nt)) as (b & Hb & Hf); [lia|]. exists b.
    rewrite zget_app_l by lia. split; [by rewrite Hl1, Z2Nat.id by lia|].
    by replace (nt + (i - nt)) with i in Hf by lia. }
  rewrite zget_app_r by lia.
  destruct (Hb3 (i - (nt + nq))) as (b & Hb & Hf); [lia|]. exists b.
  split; [rewrite Hl1, Hl2, !Z2Nat.id by lia; by replace (i - nt - nq) with (i - (nt + nq)) by lia|].
  by replace (nt + nq + (i - (nt + nq))) with i in Hf by lia.
Qed.
End new.
