(* ===== verification/JMap.v ===== *)
(** * jalloc: the page map of an arena chunk

    Models the chunk header of [src/util/private/jalloc/malloc.c] and the code
    that reads and writes its page map: [arena_run_split], the first-fit search
    inside [arena_run_alloc], [arena_run_dalloc] with its coalescing, the map
    initialisation of [arena_chunk_alloc], and the loops of [arena_palloc].  The abstract
    view of a chunk is the list of its runs, free or used, in address order. *)

From Stdlib Require Import ZArith Lia Bool.
From stdpp Require Import base numbers list.
From S2P Require Import Prelude JConfig.

(** ** Data *)

Record arena_chunk_map := mk_mapelm { npages : Z; pos : Z }.

(** [struct arena_chunk_s]; the tree linkage is the arena's list of chunks. *)
Record arena_chunk := mk_chunk {
  chunk_arena : Z;
  pages_used : Z;
  max_frun_npages : Z;
  min_frun_ind : Z;
  chunk_map : list arena_chunk_map }.

Definition set_map (ch : arena_chunk) (m : list arena_chunk_map) : arena_chunk :=
  mk_chunk (chunk_arena ch) (pages_used ch) (max_frun_npages ch) (min_frun_ind ch) m.
Definition set_pages_used (ch : arena_chunk) (n : Z) : arena_chunk :=
  mk_chunk (chunk_arena ch) n (max_frun_npages ch) (min_frun_ind ch) (chunk_map ch).
Definition set_max_frun (ch : arena_chunk) (n : Z) : arena_chunk :=
  mk_chunk (chunk_arena ch) (pages_used ch) n (min_frun_ind ch) (chunk_map ch).
Definition set_min_frun (ch : arena_chunk) (n : Z) : arena_chunk :=
  mk_chunk (chunk_arena ch) (pages_used ch) (max_frun_npages ch) n (chunk_map ch).

(** ** Map updates *)

Definition put_npages (m : list arena_chunk_map) (i n : Z) : option (list arena_chunk_map) :=
  let* e := zget m i in zset m i (mk_mapelm n (pos e)).
Definition put_pos (m : list arena_chunk_map) (i p : Z) : option (list arena_chunk_map) :=
  let* e := zget m i in zset m i (mk_mapelm (npages e) p).

(** [for (i = 0; i < n; i++) { map[off + i].npages = v; map[off + i].pos = i; }] *)
Fixpoint fill_run (fuel : nat) (m : list arena_chunk_map) (off i v : Z)
    : option (list arena_chunk_map) :=
  match fuel with
  | O => Some m
  | S fuel =>
      let* m := zset m (u32 (off + i)) (mk_mapelm v i) in
      fill_run fuel m off (i + 1) v
  end.

(** [for (i = 0; i < n; i++) map[off + i].npages = v;] *)
Fixpoint fill_npages (fuel : nat) (m : list arena_chunk_map) (off i v : Z)
    : option (list arena_chunk_map) :=
  match fuel with
  | O => Some m
  | S fuel =>
      let* m := put_npages m (u32 (off + i)) v in
      fill_npages fuel m off (i + 1) v
  end.

(** ** [arena_run_split], on the chunk and the page index of the run *)

Definition run_split (ch : arena_chunk) (run_ind need_pages : Z) : option arena_chunk :=
  let* e := zget (chunk_map ch) run_ind in
  let total_pages := npages e in
  let rem_pages := u32 (total_pages - need_pages) in
  let* m := fill_run (Z.to_nat need_pages) (chunk_map ch) run_ind 0 need_pages in
  let* m :=
    if 0 <? rem_pages then
      let map_offset := u32 (run_ind + need_pages) in
      let* m := zset m map_offset (mk_mapelm rem_pages POS_FREE) in
      zset m (u32 (map_offset + rem_pages - 1)) (mk_mapelm rem_pages POS_FREE)
    else Some m in
  Some (set_pages_used (set_map ch m) (u32 (pages_used ch + need_pages))).

(** ** The search loop of [arena_run_alloc] over one chunk

    Returns the page index of the run found, or [None] with the cached maximum
    reset, and the chunk.  Running out of fuel stands for a loop that does not
    end (an element with [npages = 0]). *)
Fixpoint search_runs (fuel : nat) (cfg : config) (ch : arena_chunk)
    (need_npages i max_frun min_frun : Z) : option (option Z * arena_chunk) :=
  match fuel with
  | O => None
  | S fuel =>
      if i <? chunk_npages cfg then
        let* mapelm := zget (chunk_map ch) i in
        if pos mapelm =? POS_FREE then
          if need_npages <=? npages mapelm then Some (Some i, ch)
          else
            let max_frun := if max_frun <? npages mapelm then npages mapelm else max_frun in
            let ch := if (i <? min_frun) && (i <? min_frun_ind ch)
                      then set_min_frun ch i else ch in
            let min_frun := if i <? min_frun then i else min_frun in
            search_runs fuel cfg ch need_npages (u32 (i + npages mapelm)) max_frun min_frun
        else
          search_runs fuel cfg ch need_npages (u32 (i + npages mapelm)) max_frun min_frun
      else Some (None, set_max_frun ch max_frun)
  end.

Definition search_fuel (cfg : config) : nat := S (Z.to_nat (chunk_npages cfg)).

Definition search_chunk (cfg : config) (ch : arena_chunk) (need_npages : Z)
    : option (option Z * arena_chunk) :=
  search_runs (search_fuel cfg) cfg ch need_npages (min_frun_ind ch) 0 (chunk_npages cfg).

(** The guard that decides whether a chunk is searched at all. *)
Definition may_fit (cfg : config) (ch : arena_chunk) (need_npages : Z) : bool :=
  let limit_pages := u32 (chunk_npages cfg - arena_chunk_header_npages cfg) in
  let compl_need_npages := u32 (limit_pages - need_npages) in
  (pages_used ch <=? compl_need_npages) && (need_npages <=? max_frun_npages ch).

(** ** [arena_run_dalloc], up to the release of an empty chunk *)

Definition coalesce_prev (cfg : config) (m : list arena_chunk_map) (run_ind run_pages : Z)
    : option (list arena_chunk_map * Z * Z) :=
  let* prev_free :=
    if arena_chunk_header_npages cfg <? run_ind then
      let* e := zget m (run_ind - 1) in Some (pos e =? POS_FREE)
    else Some false in
  if prev_free : bool then
    let* e := zget m (run_ind - 1) in
    let prev_npages := npages e in
    let run_ind := u32 (run_ind - prev_npages) in
    let run_pages := u32 (run_pages + prev_npages) in
    let* m := put_npages m run_ind run_pages in
    let* m := put_npages m (u32 (run_ind + run_pages - 1)) run_pages in
    Some (m, run_ind, run_pages)
  else Some (m, run_ind, run_pages).

Definition coalesce_next (cfg : config) (m : list arena_chunk_map) (run_ind run_pages : Z)
    : option (list arena_chunk_map * Z) :=
  let* next_free :=
    if u32 (run_ind + run_pages) <? chunk_npages cfg then
      let* e := zget m (u32 (run_ind + run_pages)) in Some (pos e =? POS_FREE)
    else Some false in
  if next_free : bool then
    let* e := zget m (u32 (run_ind + run_pages)) in
    let next_npages := npages e in
    let run_pages := u32 (run_pages + next_npages) in
    let* m := zset m run_ind (mk_mapelm run_pages POS_FREE) in
    let* m := put_npages m (u32 (run_ind + run_pages - 1)) run_pages in
    Some (m, run_pages)
  else Some (m, run_pages).

Definition run_dalloc (cfg : config) (ch : arena_chunk) (run_ind run_pages : Z)
    : option arena_chunk :=
  let pages_used := u32 (pages_used ch - run_pages) in
  let* m := put_pos (chunk_map ch) run_ind POS_FREE in
  let* m := put_pos m (u32 (run_ind + run_pages - 1)) POS_FREE in
  let* (m, run_ind, run_pages) := coalesce_prev cfg m run_ind run_pages in
  let* (m, run_pages) := coalesce_next cfg m run_ind run_pages in
  let* e := zget m run_ind in
  let ch := set_pages_used (set_map ch m) pages_used in
  let ch := if max_frun_npages ch <? npages e then set_max_frun ch (npages e) else ch in
  let ch := if run_ind <? min_frun_ind ch then set_min_frun ch run_ind else ch in
  Some ch.

(** ** The header [arena_chunk_alloc] writes at a fresh chunk *)

Definition chunk_init (cfg : config) (arena : Z) : option arena_chunk :=
  let free_npages := u32 (chunk_npages cfg - arena_chunk_header_npages cfg) in
  let m := replicate (Z.to_nat (chunk_npages cfg)) (mk_mapelm 0 0) in
  let* m := zset m (arena_chunk_header_npages cfg) (mk_mapelm free_npages POS_FREE) in
  let* m := zset m (chunk_npages cfg - 1) (mk_mapelm free_npages POS_FREE) in
  Some (mk_chunk arena 0 free_npages (arena_chunk_header_npages cfg) m).

(** ** Specification: a chunk is a list of runs *)

Inductive seg := Free (n : Z) | Used (n : Z).

Definition seg_len (s : seg) : Z := match s with Free n | Used n => n end.
Definition is_free (s : seg) : bool := match s with Free _ => true | Used _ => false end.

#[export] Instance seg_eq_dec : EqDecision seg.
Proof. solve_decision. Defined.

Fixpoint total (l : list seg) : Z :=
  match l with [] => 0 | s :: l => seg_len s + total l end.

Fixpoint used_pages (l : list seg) : Z :=
  match l with [] => 0 | Used n :: l => n + used_pages l | Free _ :: l => used_pages l end.

Fixpoint max_free (l : list seg) : Z :=
  match l with [] => 0 | Free n :: l => Z.max n (max_free l) | Used _ :: l => max_free l end.

(** No two free runs are adjacent. *)
Fixpoint coalesced (l : list seg) : Prop :=
  match l with
  | Free _ :: ((Free _ :: _) as l') => False
  | _ :: l' => coalesced l'
  | [] => True
  end.

(** The page index of the first free run of at least [need] pages. *)
Fixpoint first_fit (need i : Z) (l : list seg) : option Z :=
  match l with
  | [] => None
  | Free n :: l => if need <=? n then Some i else first_fit need (i + n) l
  | Used n :: l => first_fit need (i + n) l
  end.

(** The page map from index [i] to [j] encodes the runs [l]: every page of a used
    run holds its length and its position; the first and last page of a free run
    hold its length and [POS_FREE]. *)
Fixpoint map_rep (m : list arena_chunk_map) (i : Z) (l : list seg) (j : Z) : Prop :=
  match l with
  | [] => i = j
  | Free n :: l =>
      1 <= n /\ zget m i = Some (mk_mapelm n POS_FREE) /\
      zget m (i + n - 1) = Some (mk_mapelm n POS_FREE) /\ map_rep m (i + n) l j
  | Used n :: l =>
      1 <= n /\ (forall k, 0 <= k < n -> zget m (i + k) = Some (mk_mapelm n k)) /\
      map_rep m (i + n) l j
  end.

(** The invariant of a chunk header whose runs are [l]. *)
Record chunk_inv (cfg : config) (ch : arena_chunk) (l : list seg) : Prop := mk_chunk_inv {
  ci_len : zlen (chunk_map ch) = chunk_npages cfg;
  ci_rep : map_rep (chunk_map ch) (arena_chunk_header_npages cfg) l (chunk_npages cfg);
  ci_coalesced : coalesced l;
  ci_used : pages_used ch = used_pages l;
  ci_max : max_free l <= max_frun_npages ch;
  ci_min : min_frun_ind ch = arena_chunk_header_npages cfg }.

(** Allocating [need] pages at the front of a free run of [n] pages. *)
Definition carve (need n : Z) : list seg :=
  Used need :: (if need <? n then [Free (n - need)] else []).

(** A possibly absent free neighbour. *)
Definition opt_free (a : Z) : list seg := if 0 <? a then [Free a] else [].

(** ** Lemmas: lists of runs *)

Definition starts_free (l : list seg) : bool :=
  match l with s :: _ => is_free s | [] => false end.
Definition ends_free (l : list seg) : bool :=
  match last l with Some s => is_free s | None => false end.

Lemma total_app l1 l2 : total (l1 ++ l2) = total l1 + total l2.
Proof. induction l1; simpl; lia. Qed.

Lemma used_pages_app l1 l2 : used_pages (l1 ++ l2) = used_pages l1 + used_pages l2.
Proof. induction l1 as [|[] ? ?]; simpl; lia. Qed.

Lemma max_free_app l1 l2 : max_free (l1 ++ l2) = Z.max (max_free l1) (max_free l2).
Proof.
  assert (H : forall l, 0 <= max_free l) by (intros l; induction l as [|[] ? ?]; simpl; lia).
  induction l1 as [|[] ? ?]; simpl; pose proof (H l2); lia.
Qed.

Lemma max_free_nonneg l : 0 <= max_free l.
Proof. induction l as [|[] ? ?]; simpl; lia. Qed.

Lemma coalesced_app l1 l2 :
  coalesced (l1 ++ l2) <->
  coalesced l1 /\ coalesced l2 /\ ends_free l1 && starts_free l2 = false.
Proof.
  induction l1 as [|s l1 IH]; [cbn; tauto|].
  destruct l1 as [|s' l1].
  - cbn [app ends_free last]. unfold ends_free. cbn [last].
    destruct s; cbn [is_free coalesced]; [|simpl; tauto].
    destruct l2 as [|[] l2]; cbn; intuition congruence.
  - change (ends_free (s :: s' :: l1)) with (ends_free (s' :: l1)).
    destruct s as [n|n].
    + destruct s' as [k|k]; cbn [app coalesced] in *; tauto.
    + cbn [app coalesced] in *. destruct s'; tauto.
Qed.

Lemma coalesced_used pre n post :
  coalesced (pre ++ Used n :: post) <-> coalesced pre /\ coalesced post.
Proof.
  rewrite coalesced_app. cbn [coalesced starts_free is_free]. rewrite andb_false_r.
  destruct post; tauto.
Qed.

Lemma coalesced_free pre n post :
  coalesced (pre ++ Free n :: post) <->
  coalesced pre /\ coalesced post /\ ends_free pre = false /\ starts_free post = false.
Proof.
  rewrite coalesced_app. cbn [starts_free is_free]. rewrite andb_true_r.
  destruct post as [|[] post]; cbn; intuition congruence.
Qed.

Lemma ends_free_app_cons l s : ends_free (l ++ [s]) = is_free s.
Proof. unfold ends_free. by rewrite last_snoc. Qed.

(** Any list of runs splits off its trailing free run. *)
Lemma split_last_free l :
  coalesced l -> Forall (fun s => 1 <= seg_len s) l ->
  exists pre a, 0 <= a /\ l = pre ++ opt_free a /\ ends_free pre = false /\ coalesced pre.
Proof.
  intros Hc Hpos. destruct l as [|s l _] using rev_ind.
  - exists [], 0. done.
  - apply Forall_app in Hpos as [_ Hs]. inv Hs. destruct s as [n|n]; cbn in *.
    + apply (coalesced_free l n []) in Hc as (Hl & _ & He & _).
      exists l, n. unfold opt_free. rewrite (proj2 (Z.ltb_lt 0 n)) by lia.
      split; [lia|done].
    + exists (l ++ [Used n]), 0. split; [lia|]. split; [by rewrite app_nil_r|].
      split; [apply ends_free_app_cons|done].
Qed.

Lemma split_first_free l :
  coalesced l -> Forall (fun s => 1 <= seg_len s) l ->
  exists b post, 0 <= b /\ l = opt_free b ++ post /\ starts_free post = false /\ coalesced post.
Proof.
  intros Hc Hpos. destruct l as [|[n|n] l].
  - exists 0, []. done.
  - inv Hpos. cbn in *. exists n, l. unfold opt_free. rewrite (proj2 (Z.ltb_lt 0 n)) by lia.
    apply (coalesced_free [] n l) in Hc as (_ & Hl & _ & Hs). split; [lia|done].
  - exists 0, (Used n :: l). done.
Qed.

Lemma used_pages_bounds l :
  Forall (fun s => 1 <= seg_len s) l -> 0 <= used_pages l <= total l.
Proof. induction 1 as [|[] ? ? ?]; cbn in *; lia. Qed.

Lemma total_opt_free a : 0 <= a -> total (opt_free a) = a.
Proof. intros. unfold opt_free. destruct (0 <? a) eqn:E; b2p; cbn; lia. Qed.

Lemma used_pages_opt_free a : used_pages (opt_free a) = 0.
Proof. unfold opt_free. by case_match. Qed.

(** ** Lemmas: the encoding *)

Section rep.
Implicit Types (m : list arena_chunk_map) (l : list seg).

Lemma map_rep_total m i l j :
  map_rep m i l j -> j = i + total l /\ Forall (fun s => 1 <= seg_len s) l.
Proof.
  revert i. induction l as [|s l IH]; intros i; cbn [map_rep total]; [intros ->; split; [lia|done]|].
  destruct s as [n|n]; intros H; deex;
    match goal with H : map_rep _ _ _ _ |- _ => apply IH in H as [-> Hf] end;
    (split; [cbn; lia|by constructor]).
Qed.

Lemma total_nonneg l : Forall (fun s => 1 <= seg_len s) l -> 0 <= total l.
Proof. induction 1; cbn; lia. Qed.

Lemma map_rep_app m i l1 l2 j :
  map_rep m i (l1 ++ l2) j <->
  map_rep m i l1 (i + total l1) /\ map_rep m (i + total l1) l2 j.
Proof.
  revert i. induction l1 as [|s l1 IH]; intros i; cbn [map_rep total app].
  - rewrite Z.add_0_r. tauto.
  - destruct s as [n|n]; cbn [seg_len]; rewrite IH, Z.add_assoc; tauto.
Qed.

(** The encoding only depends on the pages it covers. *)
Lemma map_rep_frame m m' i l j :
  map_rep m i l j -> (forall k, i <= k < j -> zget m' k = zget m k) -> map_rep m' i l j.
Proof.
  revert i. induction l as [|s l IH]; intros i H Hfr; cbn [map_rep] in *; [done|].
  pose proof (map_rep_total m i (s :: l) j H) as [Hj Hpos].
  apply Forall_cons in Hpos as [_ Hpos].
  pose proof (total_nonneg l Hpos). cbn [total] in Hj.
  destruct s as [n|n]; cbn [seg_len] in *.
  - destruct H as (? & H1 & H2 & H3). split; [done|]. rewrite !Hfr by lia.
    do 2 (split; [done|]). apply IH; [done|]. intros. apply Hfr. lia.
  - destruct H as (? & H1 & H3). split; [done|]. split.
    + intros k Hk. rewrite Hfr by lia. by apply H1.
    + apply IH; [done|]. intros. apply Hfr. lia.
Qed.

(** The last page before [i] tells whether the previous run is free. *)
Lemma map_rep_last m i l j :
  map_rep m i l j -> l <> [] -> total l < POS_FREE ->
  exists e, zget m (j - 1) = Some e /\ (pos e =? POS_FREE) = ends_free l.
Proof.
  intros H Hne Hlt. destruct l as [|s l _] using rev_ind; [done|].
  apply map_rep_app in H as [H1 H2].
  apply map_rep_total in H1 as [_ Hpos]. pose proof (total_nonneg l Hpos).
  rewrite total_app in Hlt. cbn [total] in Hlt. rewrite ends_free_app_cons.
  destruct s as [n|n]; cbn [map_rep seg_len is_free] in *; deex; subst j.
  - eexists. split; [eassumption|]. done.
  - eexists. replace (i + total l + n - 1) with (i + total l + (n - 1)) by lia.
    split; [eauto with lia|]. cbn [pos]. apply Z.eqb_neq. lia.
Qed.

Lemma map_rep_first m i l j :
  map_rep m i l j -> l <> [] ->
  exists e, zget m i = Some e /\ (pos e =? POS_FREE) = starts_free l.
Proof.
  intros H Hne. destruct l as [|[n|n] l]; [done| |]; cbn [map_rep starts_free is_free] in *; deex.
  - eexists. split; [eassumption|]. done.
  - eexists. split.
    + match goal with H : forall k, _ -> _ |- _ => specialize (H 0 ltac:(lia)) end.
      rewrite Z.add_0_r in *. eassumption.
    + done.
Qed.
End rep.

(** ** Lemmas: filling *)

Lemma fill_run_spec fuel m off i v :
  0 <= off -> 0 <= i -> off + i + Z.of_nat fuel <= zlen m -> zlen m <= 2 ^ 32 ->
  exists m', fill_run fuel m off i v = Some m' /\ zlen m' = zlen m /\
    (forall k, i <= k < i + Z.of_nat fuel -> zget m' (off + k) = Some (mk_mapelm v k)) /\
    (forall k, k < off + i \/ off + i + Z.of_nat fuel <= k -> zget m' k = zget m k).
Proof.
  revert m i. induction fuel as [|fuel IH]; intros m i Ho Hi Hl Hb; cbn [fill_run].
  - exists m. split; [done|]. split; [done|]. split; [lia|done].
  - rewrite u32_small by lia.
    destruct (zset_is_Some m (off + i) (mk_mapelm v i)) as [m1 Hm1]; [lia|]. rewrite Hm1.
    pose proof (zlen_zset _ _ _ _ Hm1) as Hl1.
    destruct (IH m1 (i + 1)) as (m' & -> & Hl' & Hin & Hout); [lia|lia|lia|lia|].
    exists m'. split; [done|]. split; [lia|]. split.
    + intros k Hk. destruct (decide (k = i)) as [->|]; [|apply Hin; lia].
      rewrite Hout by lia. apply (zget_zset_eq _ _ _ _ Hm1).
    + intros k Hk. rewrite Hout by lia. apply (zget_zset_ne _ _ _ _ _ Hm1). lia.
Qed.

(** Filling [n] pages encodes one used run. *)
Lemma fill_run_used m off n :
  0 <= off -> 1 <= n -> off + n <= zlen m -> zlen m <= 2 ^ 32 ->
  exists m', fill_run (Z.to_nat n) m off 0 n = Some m' /\ zlen m' = zlen m /\
    map_rep m' off [Used n] (off + n) /\
    (forall k, k < off \/ off + n <= k -> zget m' k = zget m k).
Proof.
  intros Ho Hn Hl Hb.
  destruct (fill_run_spec (Z.to_nat n) m off 0 n) as (m' & -> & Hl' & Hin & Hout); [lia..|].
  exists m'. split; [done|]. split; [done|]. split.
  - cbn. split; [lia|]. split; [intros; apply Hin; lia|done].
  - intros k Hk. apply Hout. lia.
Qed.

Lemma put_pos_spec m i e p :
  zget m i = Some e ->
  exists m', put_pos m i p = Some m' /\ zlen m' = zlen m /\
    zget m' i = Some (mk_mapelm (npages e) p) /\ (forall k, k <> i -> zget m' k = zget m k).
Proof.
  intros He. unfold put_pos. rewrite He.
  destruct (zset_is_Some m i (mk_mapelm (npages e) p)) as [m' Hm'].
  { by apply zget_Some_bound in He. }
  exists m'. split; [done|]. split; [by apply zlen_zset in Hm'|].
  split; [by apply zget_zset_eq in Hm'|]. intros. by apply (zget_zset_ne _ _ _ _ _ Hm').
Qed.

Lemma put_npages_spec m i e n :
  zget m i = Some e ->
  exists m', put_npages m i n = Some m' /\ zlen m' = zlen m /\
    zget m' i = Some (mk_mapelm n (pos e)) /\ (forall k, k <> i -> zget m' k = zget m k).
Proof.
  intros He. unfold put_npages. rewrite He.
  destruct (zset_is_Some m i (mk_mapelm n (pos e))) as [m' Hm'].
  { by apply zget_Some_bound in He. }
  exists m'. split; [done|]. split; [by apply zlen_zset in Hm'|].
  split; [by apply zget_zset_eq in Hm'|]. intros. by apply (zget_zset_ne _ _ _ _ _ Hm').
Qed.

(** ** Lemmas: the operations *)

Section ops.
Context (cfg : config) `{Hok : !config_ok cfg}.
Let H := arena_chunk_header_npages cfg.
Let N := chunk_npages cfg.

Lemma npages_bounds : 1 <= H < N /\ N <= 2 ^ 20.
Proof.
  pose proof ok_header as Hh. fold H N in Hh. split; [done|].
  unfold N. rewrite ok_chunk_npages. pose proof ok_k as Hk. pose proof ok_p as Hp.
  apply pow2_le_mono. lia.
Qed.

(** Where the runs of a prefix end. *)
Lemma inv_split ch pre post :
  chunk_inv cfg ch (pre ++ post) ->
  map_rep (chunk_map ch) H pre (H + total pre) /\
  map_rep (chunk_map ch) (H + total pre) post N /\
  N = H + total pre + total post /\ 0 <= total pre /\ 0 <= total post /\
  Forall (fun s => 1 <= seg_len s) pre /\ Forall (fun s => 1 <= seg_len s) post.
Proof.
  intros [_ Hrep _ _ _ _]. fold H N in Hrep.
  pose proof (map_rep_total _ _ _ _ Hrep) as [Ht Hpos].
  apply map_rep_app in Hrep as [H1 H2]. rewrite total_app in Ht.
  apply Forall_app in Hpos as [Hp1 Hp2].
  pose proof (total_nonneg _ Hp1). pose proof (total_nonneg _ Hp2).
  split; [done|]. split; [done|]. split; [lia|done].
Qed.

Lemma carve_facts need n post :
  1 <= need <= n ->
  total (carve need n) = n /\ used_pages (carve need n) = need /\
  max_free (carve need n) <= n - need /\
  (coalesced (Free n :: post) -> coalesced (carve need n ++ post)).
Proof.
  intros Hn. unfold carve. destruct (need <? n) eqn:E; b2p; cbn -[coalesced];
    (split; [lia|]); (split; [lia|]); (split; [lia|]).
  - intros Hc. apply (coalesced_used [] need). split; [done|].
    apply (coalesced_free [] (n - need) post).
    apply (coalesced_free [] n post) in Hc. tauto.
  - intros Hc. apply (coalesced_used [] need). split; [done|].
    apply (coalesced_free [] n post) in Hc. tauto.
Qed.

(** The two map updates of [arena_run_split] encode [carve]. *)
Lemma carve_map m i n need :
  0 <= i -> 1 <= need <= n -> i + n <= zlen m -> zlen m <= 2 ^ 31 ->
  exists m1 m2,
    fill_run (Z.to_nat need) m i 0 need = Some m1 /\
    (if 0 <? n - need then
       let* m := zset m1 (u32 (i + need)) (mk_mapelm (n - need) POS_FREE) in
       zset m (u32 (u32 (i + need) + (n - need) - 1)) (mk_mapelm (n - need) POS_FREE)
     else Some m1) = Some m2 /\ zlen m2 = zlen m /\
    map_rep m2 i (carve need n) (i + n) /\
    (forall k, k < i \/ i + n <= k -> zget m2 k = zget m k).
Proof.
  intros Hi Hneed Hl Hl32. change (2 ^ 31) with 2147483648 in *.
  destruct (fill_run_used m i need) as (m1 & -> & Hl1 & Hu1 & Hout1); [lia..|].
  exists m1. unfold carve. destruct (need <? n) eqn:E; b2p.
  - rewrite (proj2 (Z.ltb_lt 0 (n - need))) by lia.
    rewrite (u32_small (i + need)), (u32_small (i + need + (n - need) - 1)) by lia.
    destruct (zset_is_Some m1 (i + need) (mk_mapelm (n - need) POS_FREE)) as [m2 Hm2]; [lia|].
    rewrite Hm2. pose proof (zlen_zset _ _ _ _ Hm2).
    destruct (zset_is_Some m2 (i + need + (n - need) - 1) (mk_mapelm (n - need) POS_FREE))
      as [m3 Hm3]; [lia|].
    rewrite Hm3. exists m3. do 2 (split; [done|]). split; [apply zlen_zset in Hm3; lia|].
    assert (Hin : forall k, k < i + need \/ i + n <= k -> zget m3 k = zget m1 k).
    { intros k Hk. by rewrite (zget_zset_ne _ _ _ _ _ Hm3), (zget_zset_ne _ _ _ _ _ Hm2) by lia. }
    split; [|intros k Hk; rewrite Hin, Hout1 by lia; done].
    apply (map_rep_app m3 i [Used need] [Free (n - need)]).
    cbn [total seg_len]. rewrite Z.add_0_r. split.
    + eapply map_rep_frame; [exact Hu1|]. intros k Hk. apply Hin. lia.
    + cbn. split; [lia|]. split; [|split; [by apply zget_zset_eq in Hm3|lia]].
      destruct (decide (i + need = i + need + (n - need) - 1)) as [E'|E'].
      * rewrite E' at 1. by apply zget_zset_eq in Hm3.
      * rewrite (zget_zset_ne _ _ _ _ _ Hm3) by lia. by apply zget_zset_eq in Hm2.
  - rewrite (proj2 (Z.ltb_ge 0 (n - need))) by lia.
    exists m1. do 2 (split; [done|]). split; [done|].
    replace n with need by lia. split; [done|]. intros k Hk. apply Hout1. lia.
Qed.

Lemma run_split_ok ch pre n post need :
  chunk_inv cfg ch (pre ++ Free n :: post) -> 1 <= need <= n ->
  exists ch', run_split ch (H + total pre) need = Some ch' /\
    chunk_inv cfg ch' (pre ++ carve need n ++ post) /\
    chunk_arena ch' = chunk_arena ch /\ max_frun_npages ch' = max_frun_npages ch.
Proof.
  intros Hinv Hneed. destruct npages_bounds as [HN HN20]. change (2 ^ 20) with 1048576 in *.
  pose proof (inv_split _ _ _ Hinv) as (Hpre & Hpost & Hend & Htp & Hts & Hpos1 & Hpos2).
  pose proof Hinv as [Hlen Hrep Hco Hused Hmax Hmin]. fold N in Hlen. fold H in Hmin.
  pose proof (used_pages_bounds _ Hpos1). pose proof (used_pages_bounds _ Hpos2).
  cbn [map_rep total used_pages seg_len] in *. destruct Hpost as (Hn & Hfst & Hlst & Hpost).
  apply Forall_cons in Hpos2 as [_ Hpos2]. pose proof (total_nonneg _ Hpos2).
  set (i := H + total pre) in *.
  destruct (carve_facts need n post Hneed) as (Ct & Cu & Cm & Cc).
  unfold run_split. rewrite Hfst. cbn [npages]. rewrite (u32_small (n - need)) by lia.
  destruct (carve_map (chunk_map ch) i n need) as (m1 & m2 & -> & -> & Hl2 & Hrep2 & Hout);
    [lia..|].
  eexists. split; [reflexivity|]. split; [|done].
  split; cbn [chunk_map pages_used max_frun_npages min_frun_ind set_map set_pages_used].
  - fold N. lia.
  - fold H N. apply map_rep_app. fold i. split.
    { eapply map_rep_frame; [exact Hpre|]. intros k Hk. apply Hout. lia. }
    apply map_rep_app. rewrite Ct. split; [done|].
    eapply map_rep_frame; [exact Hpost|]. intros k Hk. apply Hout. lia.
  - apply coalesced_free in Hco as (Hc1 & Hc2 & Hc3 & Hc4).
    apply coalesced_app. split; [done|]. split.
    + apply Cc. by apply (coalesced_free [] n post).
    + unfold carve. cbn. by rewrite andb_false_r.
  - rewrite Hused, !used_pages_app, Cu in *. cbn [used_pages]. rewrite u32_small by lia. lia.
  - rewrite !max_free_app in *. cbn [max_free] in Hmax. lia.
  - done.
Qed.

(** *** First fit *)

Lemma first_fit_Some need i l j :
  first_fit need i l = Some j ->
  exists pre n post, l = pre ++ Free n :: post /\ j = i + total pre /\
    need <= n /\ Forall (fun s => is_free s = true -> seg_len s < need) pre.
Proof.
  revert i. induction l as [|s l IH]; intros i; cbn [first_fit]; [done|].
  destruct s as [n|n].
  - destruct (need <=? n) eqn:E; b2p.
    + intros [= <-]. exists [], n, l. cbn. split; [done|]. split; [lia|done].
    + intros (pre & k & post & -> & -> & Hk & Hall)%IH.
      exists (Free n :: pre), k, post. cbn. split; [done|]. split; [lia|]. split; [done|].
      constructor; [cbn; lia|done].
  - intros (pre & k & post & -> & -> & Hk & Hall)%IH.
    exists (Used n :: pre), k, post. cbn. split; [done|]. split; [lia|]. split; [done|].
    constructor; [done|done].
Qed.

Lemma first_fit_None need i l : 1 <= need -> first_fit need i l = None <-> max_free l < need.
Proof.
  intros Hn. revert i. induction l as [|s l IH]; intros i; cbn [first_fit max_free]; [split; [lia|done]|].
  destruct s as [n|n]; [|apply IH].
  destruct (need <=? n) eqn:E; b2p; [split; [done|lia]|]. rewrite IH. lia.
Qed.

Lemma free_used_total l :
  Forall (fun s => 1 <= seg_len s) l -> max_free l + used_pages l <= total l.
Proof.
  induction 1 as [|[n|n] l Hs Hl IH]; cbn in *; [lia| |lia].
  pose proof (used_pages_bounds l Hl). lia.
Qed.

Lemma length_le_total l :
  Forall (fun s => 1 <= seg_len s) l -> Z.of_nat (length l) <= total l.
Proof. induction 1; cbn [length total]; lia. Qed.

Lemma search_runs_ok fuel ch l i mx mn need :
  map_rep (chunk_map ch) i l N -> H <= i -> min_frun_ind ch = H -> 0 <= mx ->
  (length l < fuel)%nat ->
  search_runs fuel cfg ch need i mx mn
  = Some (match first_fit need i l with
          | Some j => (Some j, ch)
          | None => (None, set_max_frun ch (Z.max mx (max_free l)))
          end).
Proof.
  destruct npages_bounds as [HN HN20]. change (2 ^ 20) with 1048576 in *.
  revert l i mx mn. induction fuel as [|fuel IH]; intros l i mx mn Hrep Hi Hmin Hmx Hf; [lia|].
  cbn [search_runs]. fold N.
  pose proof (map_rep_total _ _ _ _ Hrep) as [Ht Hpos].
  destruct l as [|s l]; cbn [first_fit max_free].
  { cbn in Hrep. rewrite (proj2 (Z.ltb_ge i N)) by lia. by rewrite Z.max_l by lia. }
  apply Forall_cons in Hpos as [Hs Hpos]. pose proof (total_nonneg _ Hpos).
  cbn [total] in Ht. rewrite (proj2 (Z.ltb_lt i N)) by lia. cbn [length] in Hf.
  destruct s as [n|n]; cbn [map_rep seg_len] in *.
  - destruct Hrep as (_ & Hfst & _ & Hrep). rewrite Hfst. cbn [pos npages].
    rewrite Z.eqb_refl. destruct (need <=? n) eqn:E; [done|]. b2p.
    rewrite Hmin, (proj2 (Z.ltb_ge i H)), andb_false_r by lia.
    rewrite u32_small by lia.
    rewrite (IH l (i + n)) by (try done; try lia; case_match; lia).
    case_match; [done|]. do 3 f_equal. case_match; b2p; lia.
  - destruct Hrep as (_ & Hall & Hrep). specialize (Hall 0 ltac:(lia)).
    rewrite Z.add_0_r in Hall. rewrite Hall. cbn [pos npages].
    change (0 =? POS_FREE) with false. rewrite u32_small by lia.
    apply IH; [done|lia|done|lia|lia].
Qed.

Lemma search_chunk_ok ch l need :
  chunk_inv cfg ch l ->
  search_chunk cfg ch need
  = Some (match first_fit need H l with
          | Some j => (Some j, ch)
          | None => (None, set_max_frun ch (max_free l))
          end).
Proof.
  intros Hinv. pose proof Hinv as [_ Hrep _ _ _ Hmin]. unfold search_chunk, search_fuel.
  fold H N in Hrep, Hmin |- *. destruct npages_bounds as [HN _].
  pose proof (map_rep_total _ _ _ _ Hrep) as [Ht Hpos]. pose proof (length_le_total _ Hpos).
  rewrite Hmin, (search_runs_ok _ ch l H 0 N need) by (try done; try lia).
  case_match; [done|]. by rewrite Z.max_r by apply max_free_nonneg.
Qed.

(** A chunk that the guard skips has no run that fits. *)
Lemma may_fit_false ch l need :
  chunk_inv cfg ch l -> 1 <= need <= N - H -> may_fit cfg ch need = false -> max_free l < need.
Proof.
  intros Hinv Hneed. pose proof Hinv as [_ Hrep _ Hused Hmax _]. fold H N in Hrep.
  destruct npages_bounds as [HN HN20]. change (2 ^ 20) with 1048576 in *.
  pose proof (map_rep_total _ _ _ _ Hrep) as [Ht Hpos]. pose proof (free_used_total _ Hpos).
  unfold may_fit. fold H N. rewrite (u32_small (N - H)), (u32_small (N - H - need)) by lia.
  intros [E|E]%andb_false_iff; b2p; lia.
Qed.

Lemma set_max_frun_inv ch l v :
  chunk_inv cfg ch l -> max_free l <= v -> chunk_inv cfg (set_max_frun ch v) l.
Proof. intros [] ?. by split. Qed.

(** *** Release of a run *)

Lemma opt_free_pos a : 0 < a -> opt_free a = [Free a].
Proof. intros. unfold opt_free. by rewrite (proj2 (Z.ltb_lt 0 a)) by lia. Qed.

Lemma opt_free_0 : opt_free 0 = [].
Proof. done. Qed.

Lemma coalesce_prev_ok m i n pre a :
  zlen m = N -> 0 <= a ->
  map_rep m H (pre ++ opt_free a) i -> map_rep m i [Free n] (i + n) ->
  ends_free pre = false -> i + n <= N ->
  exists m', coalesce_prev cfg m i n = Some (m', i - a, n + a) /\ zlen m' = N /\
    map_rep m' H pre (i - a) /\ map_rep m' (i - a) [Free (n + a)] (i + n) /\
    (forall k, i + n <= k -> zget m' k = zget m k).
Proof.
  intros Hlen Ha Hpre Hrun Hends Hn. destruct npages_bounds as [HN HN20].
  change (2 ^ 20) with 1048576 in *. unfold coalesce_prev. fold H.
  pose proof (map_rep_total _ _ _ _ Hpre) as [Hi Hpos].
  rewrite total_app, total_opt_free in Hi by lia.
  apply Forall_app in Hpos as [Hpos _]. pose proof (total_nonneg _ Hpos).
  cbn [map_rep] in Hrun. destruct Hrun as (Hn1 & Hfst & Hlst & _).
  destruct (decide (a = 0)) as [->|Ha0].
  - rewrite opt_free_0, app_nil_r in Hpre.
    replace (i - 0) with i by lia. replace (n + 0) with n by lia.
    assert (Hguard : (if H <? i then let* e := zget m (i - 1) in Some (pos e =? POS_FREE)
                      else Some false) = Some false).
    { destruct (H <? i) eqn:E; b2p; [|done].
      destruct (map_rep_last m H pre i) as (e & -> & He); [done| | |by rewrite He, Hends].
      - intros ->. cbn in *. lia.
      - unfold POS_FREE. lia. }
    rewrite Hguard. exists m. do 3 (split; [done|]). split; [|done]. cbn. done.
  - rewrite opt_free_pos in Hpre by lia. apply map_rep_app in Hpre as [Hp1 Hp2].
    cbn [map_rep] in Hp2. destruct Hp2 as (_ & Hq1 & Hq2 & Hq3).
    replace (H + total pre) with (i - a) in * by lia.
    replace (i - a + a - 1) with (i - 1) in * by lia.
    rewrite (proj2 (Z.ltb_lt H i)) by lia. rewrite Hq2. cbn [pos npages].
    rewrite Z.eqb_refl. rewrite (u32_small (i - a)), (u32_small (n + a)) by lia.
    destruct (put_npages_spec m (i - a) _ (n + a) Hq1) as (m1 & -> & Hl1 & Hg1 & Ho1).
    rewrite u32_small by lia. replace (i - a + (n + a) - 1) with (i + n - 1) by lia.
    assert (Hlst1 : zget m1 (i + n - 1) = Some (mk_mapelm n POS_FREE))
      by (rewrite Ho1 by lia; done).
    destruct (put_npages_spec m1 (i + n - 1) _ (n + a) Hlst1) as (m2 & -> & Hl2 & Hg2 & Ho2).
    exists m2. cbn [pos] in *. split; [done|]. split; [lia|]. split; [|split].
    + eapply map_rep_frame; [exact Hp1|]. intros k Hk. rewrite Ho2, Ho1 by lia. done.
    + cbn [map_rep]. split; [lia|]. replace (i - a + (n + a)) with (i + n) by lia.
      split; [rewrite Ho2 by lia; done|done].
    + intros k Hk. rewrite Ho2, Ho1 by lia. done.
Qed.

Lemma coalesce_next_ok m i n b post :
  zlen m = N -> 0 <= b -> H <= i ->
  map_rep m i [Free n] (i + n) -> map_rep m (i + n) (opt_free b ++ post) N ->
  starts_free post = false ->
  exists m', coalesce_next cfg m i n = Some (m', n + b) /\ zlen m' = N /\
    map_rep m' i [Free (n + b)] (i + n + b) /\ map_rep m' (i + n + b) post N /\
    (forall k, k < i -> zget m' k = zget m k).
Proof.
  intros Hlen Hb Hi Hrun Hpost Hstarts. destruct npages_bounds as [HN HN20].
  change (2 ^ 20) with 1048576 in *. unfold coalesce_next. fold N.
  pose proof (map_rep_total _ _ _ _ Hpost) as [HNe Hpos].
  rewrite total_app, total_opt_free in HNe by lia.
  apply Forall_app in Hpos as [_ Hpos]. pose proof (total_nonneg _ Hpos).
  cbn [map_rep] in Hrun. destruct Hrun as (Hn1 & Hfst & Hlst & _).
  rewrite (u32_small (i + n)) by lia.
  destruct (decide (b = 0)) as [->|Hb0].
  - rewrite opt_free_0 in Hpost. cbn [app] in Hpost.
    assert (Hguard : (if i + n <? N then let* e := zget m (i + n) in Some (pos e =? POS_FREE)
                      else Some false) = Some false).
    { destruct (i + n <? N) eqn:E; b2p; [|done].
      destruct (map_rep_first m (i + n) post N) as (e & -> & He); [done| |by rewrite He, Hstarts].
      intros ->. cbn in *. lia. }
    rewrite Hguard, !Z.add_0_r. exists m. do 2 (split; [done|]). cbn. done.
  - rewrite opt_free_pos in Hpost by lia. cbn [app map_rep] in Hpost.
    destruct Hpost as (_ & Hq1 & Hq2 & Hq3).
    rewrite (proj2 (Z.ltb_lt (i + n) N)) by lia. rewrite Hq1. cbn [pos npages].
    rewrite Z.eqb_refl. rewrite (u32_small (n + b)) by lia.
    destruct (zset_is_Some m i (mk_mapelm (n + b) POS_FREE)) as [m1 Hm1]; [lia|].
    rewrite Hm1. pose proof (zlen_zset _ _ _ _ Hm1) as Hl1.
    rewrite u32_small by lia. replace (i + (n + b) - 1) with (i + n + b - 1) by lia.
    assert (Hlst1 : zget m1 (i + n + b - 1) = Some (mk_mapelm b POS_FREE))
      by (rewrite (zget_zset_ne _ _ _ _ _ Hm1) by lia; done).
    destruct (put_npages_spec m1 (i + n + b - 1) _ (n + b) Hlst1) as (m2 & -> & Hl2 & Hg2 & Ho2).
    exists m2. cbn [pos] in *. split; [done|]. split; [lia|]. split; [|split].
    + cbn [map_rep]. split; [lia|]. replace (i + (n + b)) with (i + n + b) by lia.
      split; [rewrite Ho2 by lia; by apply zget_zset_eq in Hm1|done].
    + eapply map_rep_frame; [exact Hq3|]. intros k Hk.
      rewrite Ho2, (zget_zset_ne _ _ _ _ _ Hm1) by lia. done.
    + intros k Hk. rewrite Ho2, (zget_zset_ne _ _ _ _ _ Hm1) by lia. done.
Qed.

(** Marking the first and the last page of a used run frees it. *)
Lemma mark_free m i n :
  0 <= i -> 1 <= n -> i + n <= N -> map_rep m i [Used n] (i + n) ->
  exists m1 m2, put_pos m i POS_FREE = Some m1 /\
    put_pos m1 (u32 (i + n - 1)) POS_FREE = Some m2 /\ zlen m2 = zlen m /\
    map_rep m2 i [Free n] (i + n) /\
    (forall k, k < i \/ i + n <= k -> zget m2 k = zget m k).
Proof.
  intros Hi Hn HiN (_ & Hall & _). destruct npages_bounds as [HN HN20].
  change (2 ^ 20) with 1048576 in *. rewrite u32_small by lia.
  pose proof (Hall 0 ltac:(lia)) as H0. rewrite Z.add_0_r in H0.
  destruct (put_pos_spec m i _ POS_FREE H0) as (m1 & E1 & Hl1 & Hg1 & Ho1). cbn [npages] in Hg1.
  assert (Hl : exists e, zget m1 (i + n - 1) = Some e /\ npages e = n).
  { destruct (decide (n = 1)) as [->|].
    - replace (i + 1 - 1) with i by lia. eexists. split; [exact Hg1|done].
    - rewrite Ho1 by lia. replace (i + n - 1) with (i + (n - 1)) by lia.
      eexists. split; [apply Hall; lia|done]. }
  destruct Hl as (e & He & Hne).
  destruct (put_pos_spec m1 (i + n - 1) _ POS_FREE He) as (m2 & E2 & Hl2 & Hg2 & Ho2).
  rewrite Hne in Hg2. exists m1, m2. do 2 (split; [done|]). split; [lia|]. split.
  - cbn [map_rep]. split; [lia|]. split; [|done].
    destruct (decide (n = 1)) as [->|]; [by replace (i + 1 - 1) with i in Hg2 by lia|].
    by rewrite Ho2 by lia.
  - intros k Hk. rewrite Ho2, Ho1 by lia. done.
Qed.

(** The cached bounds after a release: [min_frun_ind] stays where it is. *)
Lemma bump_cached ch v ri :
  min_frun_ind ch <= ri ->
  (let ch := if max_frun_npages ch <? v then set_max_frun ch v else ch in
   if ri <? min_frun_ind ch then set_min_frun ch ri else ch)
  = set_max_frun ch (Z.max (max_frun_npages ch) v).
Proof.
  intros Hri. destruct ch as [ar u mx mn m]. cbn in *.
  destruct (mx <? v) eqn:E; b2p; cbn; rewrite (proj2 (Z.ltb_ge ri mn)) by lia; unfold set_max_frun; cbn;
    f_equal; lia.
Qed.

Lemma run_dalloc_ok ch pre a n b post :
  chunk_inv cfg ch (pre ++ opt_free a ++ Used n :: opt_free b ++ post) ->
  0 <= a -> 0 <= b -> ends_free pre = false -> starts_free post = false ->
  exists ch', run_dalloc cfg ch (H + total pre + a) n = Some ch' /\
    chunk_inv cfg ch' (pre ++ Free (n + a + b) :: post) /\
    chunk_arena ch' = chunk_arena ch.
Proof.
  intros Hinv Ha Hb Hends Hstarts. destruct npages_bounds as [HN HN20].
  change (2 ^ 20) with 1048576 in *.
  rewrite app_assoc in Hinv.
  pose proof (inv_split _ _ _ Hinv) as (Hpre & Hpost & Hend & Htp & Hts & Hpos1 & Hpos2).
  pose proof Hinv as [Hlen Hrep Hco Hused Hmax Hmin]. fold N in Hlen. fold H in Hmin.
  pose proof (used_pages_bounds _ Hpos1) as Hub1. pose proof (used_pages_bounds _ Hpos2) as Hub2.
  apply Forall_app in Hpos1 as [Hpos1 _]. pose proof (total_nonneg _ Hpos1).
  rewrite total_app, total_opt_free in * by lia. rewrite used_pages_app, used_pages_opt_free in *.
  set (i := H + (total pre + a)) in *. replace (H + total pre + a) with i by lia.
  change (Used n :: opt_free b ++ post) with ([Used n] ++ (opt_free b ++ post)) in Hpost.
  apply map_rep_app in Hpost as [Hrun Hpost]. cbn [total seg_len used_pages] in *.
  rewrite Z.add_0_r in Hrun, Hpost.
  apply Forall_cons in Hpos2 as [Hn Hpos2]. cbn [seg_len] in Hn.
  pose proof (total_nonneg _ Hpos2). pose proof (used_pages_bounds _ Hpos2).
  destruct (mark_free (chunk_map ch) i n) as (m1 & m2 & E1 & E2 & Hl2 & Hr2 & Hf2); [lia..|done|].
  destruct (coalesce_prev_ok m2 i n pre a) as (m3 & E3 & Hl3 & Hp3 & Hr3 & Hf3);
    [lia|done| |done|done|lia|].
  { eapply map_rep_frame; [exact Hpre|]. intros k Hk. apply Hf2. lia. }
  destruct (coalesce_next_ok m3 (i - a) (n + a) b post) as (m4 & E4 & Hl4 & Hr4 & Hp4 & Hf4);
    [lia|done|lia| | |done|].
  { by replace (i - a + (n + a)) with (i + n) by lia. }
  { replace (i - a + (n + a)) with (i + n) by lia.
    eapply map_rep_frame; [exact Hpost|]. intros k Hk. rewrite Hf3, Hf2 by lia. done. }
  unfold run_dalloc. cbv zeta. rewrite E1, E2, E3, E4.
  pose proof Hr4 as (_ & Hhd & _). rewrite Hhd. cbn [npages].
  eexists. split; [reflexivity|]. rewrite bump_cached by (cbn; lia).
  split; [|done].
  rewrite coalesced_used, !coalesced_app in Hco. rewrite !max_free_app in Hmax. cbn [max_free] in Hmax.
  rewrite max_free_app in Hmax. rewrite !used_pages_app, !used_pages_opt_free in *.
  split; cbn [chunk_map pages_used max_frun_npages min_frun_ind set_map set_pages_used set_max_frun].
  - done.
  - fold H N. apply map_rep_app. replace (H + total pre) with (i - a) by lia. split.
    + eapply map_rep_frame; [exact Hp3|]. intros k Hk. apply Hf4. lia.
    + apply (map_rep_app m4 (i - a) [Free (n + a + b)] post). cbn [total seg_len].
      replace (i - a + (n + a + b + 0)) with (i - a + (n + a) + b) by lia. done.
  - apply coalesced_free. tauto.
  - rewrite Hused, u32_small by lia. rewrite used_pages_app. cbn [used_pages]. lia.
  - rewrite max_free_app. cbn [max_free]. lia.
  - done.
Qed.

(** Release of any used run: the free neighbours are merged with it. *)
Lemma run_dalloc_any ch pre n post :
  chunk_inv cfg ch (pre ++ Used n :: post) ->
  exists ch' pre' a b post',
    0 <= a /\ 0 <= b /\ pre = pre' ++ opt_free a /\ post = opt_free b ++ post' /\
    run_dalloc cfg ch (H + total pre) n = Some ch' /\
    chunk_inv cfg ch' (pre' ++ Free (n + a + b) :: post') /\
    chunk_arena ch' = chunk_arena ch.
Proof.
  intros Hinv. pose proof (inv_split _ _ _ Hinv) as (_ & _ & _ & _ & _ & Hpos1 & Hpos2).
  apply Forall_cons in Hpos2 as [_ Hpos2].
  pose proof (ci_coalesced _ _ _ Hinv) as Hco. apply coalesced_used in Hco as [Hc1 Hc2].
  destruct (split_last_free pre Hc1 Hpos1) as (pre' & a & Ha & -> & He & _).
  destruct (split_first_free post Hc2 Hpos2) as (b & post' & Hb & -> & Hs & _).
  rewrite total_app, total_opt_free, Z.add_assoc by lia.
  rewrite <- app_assoc in Hinv.
  destruct (run_dalloc_ok ch pre' a n b post' Hinv Ha Hb He Hs) as (ch' & E & Hinv' & Har).
  exists ch', pre', a, b, post'. done.
Qed.

(** *** Fresh and empty chunks *)

Lemma chunk_init_ok ar :
  exists ch, chunk_init cfg ar = Some ch /\ chunk_inv cfg ch [Free (N - H)] /\
    chunk_arena ch = ar /\ max_frun_npages ch = N - H.
Proof.
  destruct npages_bounds as [HN HN20]. change (2 ^ 20) with 1048576 in *.
  unfold chunk_init. fold H N. rewrite u32_small by lia.
  set (m0 := replicate (Z.to_nat N) (mk_mapelm 0 0)).
  assert (Hl0 : zlen m0 = N) by (unfold m0; rewrite zlen_replicate; lia).
  destruct (zset_is_Some m0 H (mk_mapelm (N - H) POS_FREE)) as [m1 Hm1]; [lia|].
  rewrite Hm1. pose proof (zlen_zset _ _ _ _ Hm1) as Hl1.
  destruct (zset_is_Some m1 (N - 1) (mk_mapelm (N - H) POS_FREE)) as [m2 Hm2]; [lia|].
  rewrite Hm2. pose proof (zlen_zset _ _ _ _ Hm2) as Hl2.
  eexists. split; [reflexivity|]. split; [|done].
  split; cbn [chunk_map pages_used max_frun_npages min_frun_ind]; try done; try (cbn; lia).
  cbn [map_rep]. fold H N. split; [lia|].
  replace (H + (N - H) - 1) with (N - 1) by lia. split; [|split; [by apply zget_zset_eq in Hm2|lia]].
  destruct (decide (H = N - 1)) as [E|E]; [rewrite E at 1; by apply zget_zset_eq in Hm2|].
  rewrite (zget_zset_ne _ _ _ _ _ Hm2) by lia. by apply zget_zset_eq in Hm1.
Qed.

Lemma unused_is_free l :
  coalesced l -> Forall (fun s => 1 <= seg_len s) l -> used_pages l = 0 -> 0 < total l ->
  l = [Free (total l)].
Proof.
  intros Hc Hpos Hu Ht. destruct l as [|[n|n] l]; [cbn in *; lia| |].
  - apply Forall_cons in Hpos as [_ Hpos]. cbn [used_pages] in Hu.
    destruct l as [|[k|k] l]; [cbn; f_equal; f_equal; lia|done|].
    apply Forall_cons in Hpos as [Hk Hpos]. pose proof (used_pages_bounds _ Hpos).
    cbn in *. lia.
  - apply Forall_cons in Hpos as [Hn Hpos]. pose proof (used_pages_bounds _ Hpos). cbn in *. lia.
Qed.

(** A chunk with no page in use is one maximal free run. *)
Lemma empty_chunk ch l :
  chunk_inv cfg ch l -> (pages_used ch = 0 <-> l = [Free (N - H)]).
Proof.
  intros Hinv. pose proof Hinv as [_ Hrep Hco Hused _ _]. fold H N in Hrep.
  pose proof (map_rep_total _ _ _ _ Hrep) as [Ht Hpos]. destruct npages_bounds as [HN _].
  split.
  - intros E. rewrite (unused_is_free l) by (try done; lia). do 2 f_equal. lia.
  - intros ->. by rewrite Hused.
Qed.
End ops.
