(* ===== verification/JChunk.v ===== *)
(** * jalloc: pages from the kernel, the base allocator, chunks and huge objects

    Models [pages_map], [pages_unmap], [base_pages_alloc], [base_alloc],
    [base_chunk_node_alloc], [base_chunk_node_dealloc], [chunk_alloc],
    [chunk_dealloc], [huge_malloc], [huge_palloc], [huge_dalloc] and the huge
    branch of [isalloc] of [src/util/private/jalloc/malloc.c].

    The kernel is a parameter: the class [VM] names the system calls and the
    contents of memory, the class [VMSpec] states their documented behaviour.
    Locks are not modelled: every definition is one critical section. *)

From Stdlib Require Import ZArith Lia Bool Sorted.
From stdpp Require Import base numbers sets list.
From S2P Require Import Prelude JConfig.

(** ** The kernel interface *)

(** [mmap v addr size]: an anonymous private mapping; [None] is [MAP_FAILED].
    [munmap v addr size]: [true] is success.  [vm_read] and [vm_write] are the
    contents of memory, a byte per address; [vm_write v a n f] stores [f i] at
    [a + i] for [0 <= i < n].  [madvise v a n] is [MADV_DONTNEED], which may drop
    the contents of the range. *)
Class VM := {
  vm : Type;
  mmap : vm -> Z -> Z -> option Z * vm;
  munmap : vm -> Z -> Z -> bool * vm;
  vm_read : vm -> Z -> Z;
  vm_write : vm -> Z -> Z -> (Z -> Z) -> vm;
  madvise : vm -> Z -> Z -> vm }.

Definition in_range (a n x : Z) : Prop := a <= x < a + n.

Class VMSpec (V : VM) (page : Z) := {
  vm_ok : vm -> Prop;
  mapped : vm -> Z -> Prop;
  mmap_ok v a n r v' : vm_ok v -> 0 < n -> mmap v a n = (r, v') -> vm_ok v';
  mmap_failed v a n v' :
    mmap v a n = (None, v') ->
    (forall x, mapped v' x <-> mapped v x) /\ (forall x, vm_read v' x = vm_read v x);
  mmap_placed v a n r v' :
    vm_ok v -> 0 < n -> mmap v a n = (Some r, v') ->
    0 < r /\ r + n < 2 ^ 64 /\ r mod page = 0 /\
    (forall x, in_range r n x -> ~ mapped v x) /\
    (forall x, mapped v' x <-> mapped v x \/ in_range r n x) /\
    (forall x, in_range r n x -> vm_read v' x = 0) /\
    (forall x, ~ in_range r n x -> vm_read v' x = vm_read v x);
  munmap_ok v a n b v' : vm_ok v -> munmap v a n = (b, v') -> vm_ok v';
  munmap_failed v a n v' :
    munmap v a n = (false, v') ->
    (forall x, mapped v' x <-> mapped v x) /\ (forall x, vm_read v' x = vm_read v x);
  munmap_done v a n v' :
    munmap v a n = (true, v') ->
    (forall x, mapped v' x <-> mapped v x /\ ~ in_range a n x) /\
    (forall x, ~ in_range a n x -> vm_read v' x = vm_read v x);
  vm_write_ok v a n f : vm_ok v -> vm_ok (vm_write v a n f);
  vm_write_mapped v a n f x : mapped (vm_write v a n f) x <-> mapped v x;
  vm_write_in v a n f x : in_range a n x -> vm_read (vm_write v a n f) x = f (x - a);
  vm_write_out v a n f x : ~ in_range a n x -> vm_read (vm_write v a n f) x = vm_read v x;
  madvise_ok v a n : vm_ok v -> vm_ok (madvise v a n);
  madvise_mapped v a n x : mapped (madvise v a n) x <-> mapped v x;
  madvise_out v a n x : ~ in_range a n x -> vm_read (madvise v a n) x = vm_read v x }.

(** ** Chunk trees

    [chunk_tree_t] is a red-black tree ordered by chunk address; it is
    represented by the list of its nodes in order.  [addr] is the address of the
    node itself. *)

Record chunk_node := mk_node { addr : Z; chunk : Z; size : Z }.

(** [RB_INSERT] leaves the tree unchanged when the key is already present. *)
Fixpoint tree_insert (n : chunk_node) (t : list chunk_node) : list chunk_node :=
  match t with
  | [] => [n]
  | x :: t' =>
      if chunk n <? chunk x then n :: t
      else if chunk n =? chunk x then t
      else x :: tree_insert n t'
  end.

(** [RB_FIND], [RB_REMOVE] by key. *)
Fixpoint tree_find (k : Z) (t : list chunk_node) : option chunk_node :=
  match t with
  | [] => None
  | x :: t => if k =? chunk x then Some x else tree_find k t
  end.

Fixpoint tree_remove (k : Z) (t : list chunk_node) : list chunk_node :=
  match t with
  | [] => []
  | x :: t => if k =? chunk x then t else x :: tree_remove k t
  end.

Section chunks.
Context `{V : VM} (cfg : config).

(** ** [pages_map], [pages_unmap] *)

Definition pages_unmap (v : vm) (addr size : Z) : outcome vm :=
  let '(done, v) := munmap v addr size in
  if done : bool then Ok v
  else if opt_abort (opts cfg) then Abort else Ok v.

(** [addr = 0] is [NULL]; so is a [None] result. *)
Definition pages_map (v : vm) (addr size : Z) : outcome (option Z * vm) :=
  let '(ret, v) := mmap v addr size in
  match ret with
  | None => Ok (None, v)
  | Some r =>
      if negb (addr =? 0) && negb (r =? addr) then
        let! v := pages_unmap v r size in Ok (None, v)
      else Ok (Some r, v)
  end.

(** ** The state of the base and chunk layers *)

Record state := mk_state {
  kernel : vm;
  base_next_addr : Z;
  base_past_addr : Z;
  base_chunk_nodes : list Z;
  old_chunks : list chunk_node;
  huge : list chunk_node }.

Definition set_kernel (s : state) (v : vm) : state :=
  mk_state v (base_next_addr s) (base_past_addr s) (base_chunk_nodes s) (old_chunks s) (huge s).
Definition set_nodes (s : state) (l : list Z) : state :=
  mk_state (kernel s) (base_next_addr s) (base_past_addr s) l (old_chunks s) (huge s).
Definition set_base (s : state) (next past : Z) : state :=
  mk_state (kernel s) next past (base_chunk_nodes s) (old_chunks s) (huge s).
Definition set_old (s : state) (t : list chunk_node) : state :=
  mk_state (kernel s) (base_next_addr s) (base_past_addr s) (base_chunk_nodes s) t (huge s).
Definition set_huge (s : state) (t : list chunk_node) : state :=
  mk_state (kernel s) (base_next_addr s) (base_past_addr s) (base_chunk_nodes s) (old_chunks s) t.

(** ** The base allocator *)

Definition sizeof_chunk_node_t : Z := 48.

(** [true] is failure, as in the code. *)
Definition base_pages_alloc (s : state) (minsize : Z) : outcome (bool * state) :=
  let csize := PAGE_CEILING cfg minsize in
  let! (pages, v) := pages_map (kernel s) 0 csize in
  let s := set_kernel s v in
  match pages with
  | None => Ok (true, s)
  | Some p => Ok (false, set_base s p (u64 (p + csize)))
  end.

Definition base_alloc (s : state) (size : Z) : outcome (option Z * state) :=
  let csize := CACHELINE_CEILING size in
  let! (failed, s) :=
    if base_past_addr s <? u64 (base_next_addr s + csize)
    then base_pages_alloc s csize else Ok (false, s) in
  if failed : bool then Ok (None, s)
  else
    let ret := base_next_addr s in
    Ok (Some ret, set_base s (u64 (base_next_addr s + csize)) (base_past_addr s)).

Definition base_chunk_node_alloc (s : state) : outcome (option Z * state) :=
  match base_chunk_nodes s with
  | n :: l => Ok (Some n, set_nodes s l)
  | [] => base_alloc s sizeof_chunk_node_t
  end.

Definition base_chunk_node_dealloc (s : state) (node : Z) : state :=
  set_nodes s (node :: base_chunk_nodes s).

(** ** Chunks *)

(** The loop that tries to recycle the addresses of former chunks: each
    candidate is removed from [old_chunks] whether or not the kernel grants it. *)
Fixpoint recycle (t : list chunk_node) (s : state) (size : Z) : outcome (option Z * state) :=
  match t with
  | [] => Ok (None, set_old s [])
  | n :: t =>
      let s := base_chunk_node_dealloc (set_old s t) (addr n) in
      let! (ret, v) := pages_map (kernel s) (chunk n) size in
      let s := set_kernel s v in
      match ret with
      | Some r => Ok (Some r, s)
      | None => recycle t s size
      end
  end.

(** Over-allocate and trim to chunk alignment. *)
Definition chunk_overalloc (s : state) (size : Z) : outcome (option Z * state) :=
  if size <? u64 (size + chunksize cfg) then
    let! (ret, v) := pages_map (kernel s) 0 (u64 (size + chunksize cfg)) in
    match ret with
    | None => Ok (None, set_kernel s v)
    | Some ret =>
        let offset := CHUNK_ADDR2OFFSET cfg ret in
        if negb (offset =? 0) then
          let! v := pages_unmap v ret (u64 (chunksize cfg - offset)) in
          let ret := u64 (ret + u64 (chunksize cfg - offset)) in
          let! v := pages_unmap v (u64 (ret + size)) offset in
          Ok (Some ret, set_kernel s v)
        else
          let! v := pages_unmap v (u64 (ret + size)) (chunksize cfg) in
          Ok (Some ret, set_kernel s v)
    end
  else Ok (None, s).

(** Drop the entries of [old_chunks] inside [[ret, ret + size)]: the loop from
    [RB_NFIND] on. *)
Fixpoint clean_old (t : list chunk_node) (ret size : Z) (nodes : list Z)
    : list chunk_node * list Z :=
  match t with
  | [] => ([], nodes)
  | n :: t' =>
      if chunk n <? ret then
        let '(t'', nodes) := clean_old t' ret size nodes in (n :: t'', nodes)
      else if chunk n <? u64 (ret + size) then clean_old t' ret size (addr n :: nodes)
      else (t, nodes)
  end.

Definition chunk_alloc (s : state) (size : Z) : outcome (option Z * state) :=
  let! (ret, s) :=
    if size =? chunksize cfg then recycle (old_chunks s) s size else Ok (None, s) in
  let! (ret, s) :=
    match ret with Some r => Ok (Some r, s) | None => chunk_overalloc s size end in
  match ret with
  | None => Ok (None, s)
  | Some r =>
      let '(t, nodes) := clean_old (old_chunks s) r size (base_chunk_nodes s) in
      Ok (Some r, set_nodes (set_old s t) nodes)
  end.

Definition chunk_dealloc (s : state) (c size : Z) : outcome state :=
  let! v := pages_unmap (kernel s) c size in
  let s := set_kernel s v in
  if size =? chunksize cfg then
    let! (node, s) := base_chunk_node_alloc s in
    match node with
    | Some n => Ok (set_old s (tree_insert (mk_node n c (chunksize cfg)) (old_chunks s)))
    | None => Ok s
    end
  else Ok s.

(** ** Huge objects *)

Definition fill (v : vm) (a n byte : Z) : vm := vm_write v a n (fun _ => byte).

(** Junk (0xa5) or zero filling of a fresh object. *)
Definition fill_new (v : vm) (a n : Z) : vm :=
  if opt_junk (opts cfg) then fill v a n 165
  else if opt_zero (opts cfg) then fill v a n 0
  else v.

Definition huge_malloc (s : state) (size : Z) : outcome (option Z * state) :=
  let csize := CHUNK_CEILING cfg size in
  if csize =? 0 then Ok (None, s)
  else
    let! (node, s) := base_chunk_node_alloc s in
    match node with
    | None => Ok (None, s)
    | Some n =>
        let! (ret, s) := chunk_alloc s csize in
        match ret with
        | None => Ok (None, base_chunk_node_dealloc s n)
        | Some r =>
            let s := set_huge s (tree_insert (mk_node n r csize) (huge s)) in
            Ok (Some r, set_kernel s (fill_new (kernel s) r csize))
        end
    end.

(** The trimming of an over-sized block to an aligned block of [chunk_size] bytes. *)
Definition palloc_cut (s : state) (alignment chunk_size alloc_size r : Z) : outcome (Z * state) :=
  let offset := Z.land r (u64 (alignment - 1)) in
  if offset =? 0 then
    let! s := chunk_dealloc s (u64 (r + chunk_size)) (u64 (alloc_size - chunk_size)) in
    Ok (r, s)
  else
    let! s := chunk_dealloc s r (u64 (alignment - offset)) in
    let r := u64 (r + u64 (alignment - offset)) in
    let trailsize := u64 (alloc_size - u64 (alignment - offset) - chunk_size) in
    let! s :=
      if negb (trailsize =? 0) then chunk_dealloc s (u64 (r + chunk_size)) trailsize
      else Ok s in
    Ok (r, s).

Definition huge_palloc (s : state) (alignment size : Z) : outcome (option Z * state) :=
  let chunk_size := CHUNK_CEILING cfg size in
  let alloc_size :=
    if alignment <=? size then u64 (chunk_size + alignment - chunksize cfg)
    else u64 (u64 (Z.shiftl alignment 1) - chunksize cfg) in
  let! (node, s) := base_chunk_node_alloc s in
  match node with
  | None => Ok (None, s)
  | Some n =>
      let! (ret, s) := chunk_alloc s alloc_size in
      match ret with
      | None => Ok (None, base_chunk_node_dealloc s n)
      | Some r =>
          let! (r, s) := palloc_cut s alignment chunk_size alloc_size r in
          let s := set_huge s (tree_insert (mk_node n r chunk_size) (huge s)) in
          Ok (Some r, set_kernel s (fill_new (kernel s) r chunk_size))
      end
  end.

(** A pointer that is not in the tree is a null dereference. *)
Definition huge_dalloc (s : state) (ptr : Z) : outcome state :=
  match tree_find ptr (huge s) with
  | None => Undef
  | Some n =>
      let s := set_huge s (tree_remove ptr (huge s)) in
      let! s := chunk_dealloc s (chunk n) (size n) in
      Ok (base_chunk_node_dealloc s (addr n))
  end.

Definition huge_salloc (s : state) (ptr : Z) : outcome Z :=
  match tree_find ptr (huge s) with
  | None => Undef
  | Some n => Ok (size n)
  end.
End chunks.

Arguments state : clear implicits.
Arguments state {V}.

(** ** Lemmas: what the kernel calls preserve *)

Section pages.
Context {V : VM} {page : Z} {VS : VMSpec V page} (cfg : config).

(** Every mapped byte stays mapped and keeps its contents. *)
Definition keeps (v v' : vm) : Prop :=
  vm_ok v' /\ forall x, mapped v x -> mapped v' x /\ vm_read v' x = vm_read v x.

(** The same, except on [[a, a + n)]. *)
Definition keeps_but (a n : Z) (v v' : vm) : Prop :=
  vm_ok v' /\ (forall x, mapped v x -> ~ in_range a n x -> mapped v' x /\ vm_read v' x = vm_read v x) /\
  (forall x, ~ in_range a n x -> vm_read v' x = vm_read v x).

Lemma keeps_refl v : vm_ok v -> keeps v v.
Proof. split; [done|by intros]. Qed.

Lemma keeps_trans v1 v2 v3 : keeps v1 v2 -> keeps v2 v3 -> keeps v1 v3.
Proof.
  intros [H1 H12] [H3 H23]. split; [done|]. intros x Hx.
  destruct (H12 x Hx) as [Hm Hr]. destruct (H23 x Hm) as [? Hr']. split; [done|]. congruence.
Qed.

(** [[r, r + n)] was free and is now mapped and zero; the rest is kept. *)
Definition grants (v : vm) (r n : Z) (v' : vm) : Prop :=
  keeps v v' /\ 0 < r /\ r + n < 2 ^ 64 /\
  (forall x, in_range r n x -> ~ mapped v x) /\
  (forall x, in_range r n x -> mapped v' x /\ vm_read v' x = 0).

Lemma keeps_grants v1 v2 r n v3 : keeps v1 v2 -> grants v2 r n v3 -> grants v1 r n v3.
Proof.
  intros H12 (Hk & Hr & Hn & Hfresh & Hnew). split; [by eapply keeps_trans|].
  do 2 (split; [done|]). split; [|done]. intros x Hx Hm. apply (Hfresh x Hx). by apply H12.
Qed.

Lemma pages_unmap_ok v a n v' :
  vm_ok v -> pages_unmap cfg v a n = Ok v' -> keeps_but a n v v'.
Proof.
  unfold pages_unmap. intros Hok. destruct (munmap v a n) as [[] v1] eqn:E.
  - intros [= <-]. pose proof (munmap_ok _ _ _ _ _ Hok E).
    apply munmap_done in E as [Hm Hr]. split; [done|]. split; [|done].
    intros x Hx Hn. split; [by apply Hm|by apply Hr].
  - case_match; [done|]. intros [= <-]. pose proof (munmap_ok _ _ _ _ _ Hok E).
    apply munmap_failed in E as [Hm Hr]. split; [done|]. split; [|done].
    intros x Hx Hn. split; [by apply Hm|by apply Hr].
Qed.

Lemma mmap_grants v a n r v' :
  vm_ok v -> 0 < n -> mmap v a n = (Some r, v') -> grants v r n v' /\ r mod page = 0.
Proof.
  intros Hok Hn E. pose proof (mmap_ok _ _ _ _ _ Hok Hn E).
  destruct (mmap_placed _ _ _ _ _ Hok Hn E) as (Hr & Hend & Hal & Hfresh & Hm & Hz & Hk).
  split; [|done]. split; [|do 2 (split; [done|]); split; [done|]].
  - split; [done|]. intros x Hx. split; [apply Hm; by left|]. apply Hk. intros Hi. by apply (Hfresh x Hi).
  - intros x Hx. split; [apply Hm; by right|by apply Hz].
Qed.

(** Unmapping part of a fresh mapping leaves the older mappings alone. *)
Lemma unmap_fresh v v1 a n v2 :
  keeps v v1 -> (forall x, in_range a n x -> ~ mapped v x) ->
  pages_unmap cfg v1 a n = Ok v2 -> keeps v v2.
Proof.
  intros [Hok Hk] Hfresh E. apply pages_unmap_ok in E as (Hok2 & Hk2 & _); [|done].
  split; [done|]. intros x Hx. destruct (Hk x Hx) as [Hm Hr].
  destruct (Hk2 x Hm) as [? Hr2]; [intros Hi; by apply (Hfresh x Hi)|].
  split; [done|]. congruence.
Qed.

Lemma pages_map_ok v a n ro v' :
  vm_ok v -> 0 < n -> pages_map cfg v a n = Ok (ro, v') ->
  keeps v v' /\
  match ro with
  | Some r => grants v r n v' /\ r mod page = 0 /\ (a <> 0 -> r = a)
  | None => True
  end.
Proof.
  intros Hok Hn. unfold pages_map. destruct (mmap v a n) as [[r|] v1] eqn:E.
  - destruct (mmap_grants _ _ _ _ _ Hok Hn E) as [Hg Hal].
    destruct (negb (a =? 0) && negb (r =? a)) eqn:Ec.
    + destruct (pages_unmap cfg v1 r n) as [v2| |] eqn:Eu; [|done|done]. intros [= <- <-].
      split; [|done]. eapply unmap_fresh; [apply Hg| |done]. apply Hg.
    + intros [= <- <-]. split; [apply Hg|]. split; [done|]. split; [done|].
      intros Ha. apply andb_false_iff in Ec as [Ec|Ec]; b2p; congruence.
  - intros [= <- <-]. split; [|done]. pose proof (mmap_ok _ _ _ _ _ Hok Hn E).
    apply mmap_failed in E as [Hm Hr]. split; [done|]. intros x Hx.
    split; [by apply Hm|by apply Hr].
Qed.
End pages.

(** ** Lemmas: trees *)

Definition node_before (a b : chunk_node) : Prop := chunk a < chunk b.

(** The ranges of two nodes, in order and disjoint. *)
Definition range_before (a b : chunk_node) : Prop := chunk a + size a <= chunk b.

Lemma tree_insert_Forall P n t : P n -> Forall P t -> Forall P (tree_insert n t).
Proof.
  intros Hn. induction 1 as [|x t Hx Ht IH]; cbn; [by constructor|].
  repeat case_match; by repeat constructor.
Qed.

Lemma tree_insert_sorted n t :
  StronglySorted node_before t -> StronglySorted node_before (tree_insert n t).
Proof.
  unfold node_before. induction 1 as [|x t Hs IH Hx]; cbn; [by repeat constructor|].
  destruct (chunk n <? chunk x) eqn:E; [|destruct (chunk n =? chunk x) eqn:E2]; b2p.
  - constructor; [by constructor|]. constructor; [done|].
    eapply Forall_impl; [exact Hx|]. cbn. intros; lia.
  - by constructor.
  - constructor; [done|]. apply tree_insert_Forall; [lia|done].
Qed.

Lemma tree_remove_Forall P k t : Forall P t -> Forall P (tree_remove k t).
Proof. induction 1; cbn; [done|]. case_match; [done|by constructor]. Qed.

Lemma tree_remove_sorted R k t : StronglySorted R t -> StronglySorted R (tree_remove k t).
Proof.
  induction 1 as [|x t Hs IH Hx]; cbn; [constructor|]. case_match; [done|].
  constructor; [done|]. by apply tree_remove_Forall.
Qed.

Lemma tree_find_Some k t n : tree_find k t = Some n -> n ∈ t /\ chunk n = k.
Proof.
  induction t as [|x t IH]; cbn; [done|]. case_match; b2p.
  - intros [= <-]. split; [left|done].
  - intros [? ?]%IH. split; [by right|done].
Qed.

Lemma tree_find_insert n t :
  Forall (fun x => chunk x <> chunk n) t -> tree_find (chunk n) (tree_insert n t) = Some n.
Proof.
  induction 1 as [|x t Hx Ht IH]; cbn; [by rewrite Z.eqb_refl|].
  destruct (chunk n <? chunk x) eqn:E; [cbn; by rewrite Z.eqb_refl|].
  rewrite (proj2 (Z.eqb_neq _ _)) by lia. cbn.
  by rewrite (proj2 (Z.eqb_neq _ _)) by lia.
Qed.

Lemma tree_remove_insert n t :
  StronglySorted node_before t -> Forall (fun x => chunk x <> chunk n) t ->
  tree_remove (chunk n) (tree_insert n t) = t.
Proof.
  unfold node_before. induction 1 as [|x t Hs IH Hx]; intros Hf; cbn; [by rewrite Z.eqb_refl|].
  apply Forall_cons in Hf as [Hne Hf].
  destruct (chunk n <? chunk x) eqn:E; [cbn; by rewrite Z.eqb_refl|].
  rewrite (proj2 (Z.eqb_neq _ _)) by lia. cbn.
  rewrite (proj2 (Z.eqb_neq _ _)) by lia. by rewrite IH.
Qed.

(** Two non-empty ranges with no common address are ordered. *)
Definition apart (a b : chunk_node) : Prop := range_before a b \/ range_before b a.

Lemma disjoint_apart a b :
  0 < size a -> 0 < size b ->
  (forall x, in_range (chunk a) (size a) x -> ~ in_range (chunk b) (size b) x) -> apart a b.
Proof.
  unfold apart, range_before, in_range. intros Ha Hb Hd.
  destruct (Z.le_gt_cases (chunk a) (chunk b)).
  - pose proof (Hd (chunk b)). lia.
  - pose proof (Hd (chunk a)). lia.
Qed.

Lemma tree_insert_ranges n t :
  0 < size n -> Forall (fun x => 0 < size x) t ->
  StronglySorted range_before t -> Forall (apart n) t ->
  StronglySorted range_before (tree_insert n t).
Proof.
  intros Hn Hpos Hs. induction Hs as [|x t Hs IH Hx]; intros Hap; cbn; [by repeat constructor|].
  apply Forall_cons in Hpos as [Hpx Hpos]. apply Forall_cons in Hap as [Hax Hap].
  unfold apart, range_before in Hax.
  destruct (chunk n <? chunk x) eqn:E; [|destruct (chunk n =? chunk x) eqn:E2]; b2p.
  - constructor; [by constructor|]. constructor; [unfold range_before; lia|].
    eapply Forall_impl; [exact Hx|]. unfold range_before. cbn. intros; lia.
  - by constructor.
  - constructor; [by apply IH|]. apply tree_insert_Forall; [unfold range_before; lia|done].
Qed.

Lemma ranges_sorted t :
  Forall (fun x => 0 < size x) t -> StronglySorted range_before t -> StronglySorted node_before t.
Proof.
  intros Hpos Hs. induction Hs as [|x t Hs IH Hx]; [constructor|].
  apply Forall_cons in Hpos as [Hpx Hpos]. constructor; [by apply IH|].
  eapply Forall_impl; [exact Hx|]. unfold range_before, node_before. cbn. intros; lia.
Qed.

Lemma clean_old_spec t ret n nodes t' nodes' :
  StronglySorted node_before t -> 0 <= ret -> 0 <= n -> ret + n < 2 ^ 64 ->
  clean_old t ret n nodes = (t', nodes') ->
  StronglySorted node_before t' /\ (forall P, Forall P t -> Forall P t') /\
  Forall (fun x => ~ in_range ret n (chunk x)) t'.
Proof.
  intros Hs Hr Hn Hov. revert nodes t' nodes'.
  assert (Eu : u64 (ret + n) = ret + n) by (apply u64_small; lia).
  induction Hs as [|x t Hs IH Hx]; cbn; intros nodes t' nodes'.
  { intros [= <- <-]. by repeat constructor. }
  rewrite Eu. destruct (chunk x <? ret) eqn:E; [|destruct (chunk x <? ret + n) eqn:E2]; b2p.
  - destruct (clean_old t ret n nodes) as [t1 n1] eqn:Ec. intros [= <- <-].
    destruct (IH _ _ _ Ec) as (Hs1 & HP & Hout). split; [|split].
    + constructor; [done|by apply HP].
    + intros P HPt. apply Forall_cons in HPt as [? ?]. constructor; [done|by apply HP].
    + constructor; [unfold in_range; lia|done].
  - intros Ec. destruct (IH _ _ _ Ec) as (Hs1 & HP & Hout). split; [done|]. split; [|done].
    intros P HPt. apply Forall_cons in HPt as [_ ?]. by apply HP.
  - intros [= <- <-]. split; [by constructor|]. split; [done|].
    constructor; [unfold in_range; lia|].
    eapply Forall_impl; [exact Hx|]. unfold node_before, in_range. cbn. intros; lia.
Qed.

Lemma tree_insert_elem n t m :
  Forall (fun x => chunk x <> chunk n) t -> m ∈ tree_insert n t <-> m = n \/ m ∈ t.
Proof.
  induction 1 as [|x t Hx Ht IH]; cbn; [set_solver|].
  case_match; [set_solver|]. rewrite (proj2 (Z.eqb_neq _ _)) by lia. set_solver.
Qed.

Lemma tree_remove_elem k t m :
  StronglySorted node_before t -> m ∈ tree_remove k t <-> m ∈ t /\ chunk m <> k.
Proof.
  unfold node_before. induction 1 as [|x t Hs IH Hx]; cbn; [set_solver|].
  rewrite Forall_forall in Hx. destruct (k =? chunk x) eqn:E; b2p; [|set_solver].
  split; [intros Hm; specialize (Hx m Hm); split; [set_solver|lia]|set_solver].
Qed.

Lemma tree_find_elem t m :
  StronglySorted node_before t -> m ∈ t -> tree_find (chunk m) t = Some m.
Proof.
  unfold node_before. induction 1 as [|x t Hs IH Hx]; intros Hm; [by apply elem_of_nil in Hm|].
  rewrite Forall_forall in Hx. cbn. apply elem_of_cons in Hm as [->|Hm]; [by rewrite Z.eqb_refl|].
  specialize (Hx m Hm). rewrite (proj2 (Z.eqb_neq _ _)) by lia. auto.
Qed.

(** ** The invariant of the chunk layer *)

Section chunk_layer.
Context (cfg : config) {Hok : config_ok cfg}.
Context {V : VM} {VS : VMSpec V (pagesize cfg)}.
Implicit Types (s : state).

(** A recorded former chunk, and a live huge object: aligned, non-empty, all of
    its bytes mapped. *)
Definition old_ok (n : chunk_node) : Prop :=
  0 < chunk n /\ chunk n mod chunksize cfg = 0.

Definition huge_ok (v : vm) (n : chunk_node) : Prop :=
  0 < chunk n < 2 ^ 64 - size n /\ 0 < size n /\ chunk n mod chunksize cfg = 0 /\
  size n mod chunksize cfg = 0 /\
  forall x, in_range (chunk n) (size n) x -> mapped v x.

Record chunks_inv s : Prop := mk_chunks_inv {
  cs_vm : vm_ok (kernel s);
  cs_old_sorted : StronglySorted node_before (old_chunks s);
  cs_old : Forall old_ok (old_chunks s);
  cs_huge_sorted : StronglySorted range_before (huge s);
  cs_huge : Forall (huge_ok (kernel s)) (huge s) }.

Lemma huge_ok_keeps v v' n : keeps v v' -> huge_ok v n -> huge_ok v' n.
Proof.
  intros [_ Hk] (H1 & H2 & H3 & H4 & H5). do 4 (split; [done|]).
  intros x Hx. by apply Hk, H5.
Qed.

Lemma huge_keeps v v' t : keeps v v' -> Forall (huge_ok v) t -> Forall (huge_ok v') t.
Proof. intros Hk Ht. eapply Forall_impl; [exact Ht|]. intros. by eapply huge_ok_keeps. Qed.

Lemma chunksize_bounds : 2 ^ 13 <= chunksize cfg <= 2 ^ 32 /\ 0 < pagesize cfg.
Proof.
  pose proof ok_k as Hk. pose proof ok_p as Hp. rewrite ok_chunksize, ok_pagesize.
  split; [split; apply pow2_le_mono; lia|]. apply pow2_pos. lia.
Qed.

Lemma chunk_offset r : 0 <= r -> CHUNK_ADDR2OFFSET cfg r = r mod chunksize cfg.
Proof.
  intros Hr. unfold CHUNK_ADDR2OFFSET. pose proof ok_k as Hk. pose proof ok_p as Hp.
  rewrite ok_chunksize_mask, ok_chunksize. apply land_mask. lia.
Qed.

Lemma page_ceiling n :
  0 < n -> n + pagesize cfg <= 2 ^ 64 ->
  n <= PAGE_CEILING cfg n < n + pagesize cfg /\ PAGE_CEILING cfg n mod pagesize cfg = 0.
Proof.
  intros Hn Hov. unfold PAGE_CEILING. rewrite ok_pagesize_mask, ok_pagesize in *.
  pose proof ok_p as Hp. rewrite ceil_pow2 by lia. split; [apply div_ceil_spec; apply pow2_pos; lia|].
  rewrite Z.mul_comm. apply Z.mod_mul. pose proof (pow2_pos (pagesize_2pow cfg)). lia.
Qed.

Lemma chunk_ceiling n :
  0 < n -> n + chunksize cfg <= 2 ^ 64 ->
  n <= CHUNK_CEILING cfg n < n + chunksize cfg /\ CHUNK_CEILING cfg n mod chunksize cfg = 0.
Proof.
  intros Hn Hov. unfold CHUNK_CEILING. rewrite ok_chunksize_mask, ok_chunksize in *.
  pose proof ok_k as Hk. pose proof ok_p as Hp.
  rewrite ceil_pow2 by lia. split; [apply div_ceil_spec; apply pow2_pos; lia|].
  rewrite Z.mul_comm. apply Z.mod_mul. pose proof (pow2_pos (opt_chunk_2pow (opts cfg))). lia.
Qed.

(** *** The base allocator *)

Lemma cacheline_ceiling n :
  0 < n -> n < 2 ^ 63 -> n <= CACHELINE_CEILING n < n + 64.
Proof.
  intros Hn Hov. unfold CACHELINE_CEILING, CACHELINE. change 64 with (2 ^ 6).
  rewrite ceil_pow2 by lia. apply div_ceil_spec. lia.
Qed.

Lemma base_alloc_ok s n ro s' :
  vm_ok (kernel s) -> 0 < n < 2 ^ 62 -> base_alloc cfg s n = Ok (ro, s') ->
  keeps (kernel s) (kernel s') /\ old_chunks s' = old_chunks s /\ huge s' = huge s.
Proof.
  intros Hv Hn. unfold base_alloc. pose proof (cacheline_ceiling n ltac:(lia) ltac:(lia)) as Hc.
  set (c := CACHELINE_CEILING n) in *. cbv zeta.
  destruct (_ <? _).
  - unfold base_pages_alloc. destruct chunksize_bounds as [_ Hpg].
    assert (Hps : pagesize cfg <= 2 ^ 15).
    { rewrite ok_pagesize. pose proof ok_p as Hp. apply pow2_le_mono. lia. }
    change (2 ^ 15) with 32768 in Hps.
    pose proof (page_ceiling c ltac:(lia) ltac:(lia)) as [Hpc _].
    destruct (pages_map cfg (kernel s) 0 (PAGE_CEILING cfg c)) as [[[p|] v]| |] eqn:E; try done;
      apply pages_map_ok in E as [Hk _]; try done; try lia; intros [= <- <-]; by cbn.
  - intros [= <- <-]. split; [by apply keeps_refl|done].
Qed.

Lemma node_alloc_ok s ro s' :
  vm_ok (kernel s) -> base_chunk_node_alloc cfg s = Ok (ro, s') ->
  keeps (kernel s) (kernel s') /\ old_chunks s' = old_chunks s /\ huge s' = huge s.
Proof.
  intros Hv. unfold base_chunk_node_alloc. case_match.
  - apply base_alloc_ok; [done|unfold sizeof_chunk_node_t; lia].
  - intros [= <- <-]. split; [by apply keeps_refl|done].
Qed.

(** *** [chunk_alloc] *)

Lemma recycle_ok t s n ro s' :
  vm_ok (kernel s) -> 0 < n -> StronglySorted node_before t -> Forall old_ok t ->
  recycle cfg t s n = Ok (ro, s') ->
  keeps (kernel s) (kernel s') /\ huge s' = huge s /\
  StronglySorted node_before (old_chunks s') /\ Forall old_ok (old_chunks s') /\
  match ro with
  | Some r => grants (kernel s) r n (kernel s') /\ r mod chunksize cfg = 0
  | None => True
  end.
Proof.
  intros Hv Hn. revert s Hv. induction t as [|x t IH]; intros s Hv Hs Hf; cbn [recycle].
  { intros [= <- <-]. cbn. split; [by apply keeps_refl|]. by repeat constructor. }
  apply StronglySorted_inv in Hs as [Hs _]. apply Forall_cons in Hf as [[Hx1 Hx2] Hf].
  cbn. destruct (pages_map cfg (kernel s) (chunk x) n) as [[[r|] v]| |] eqn:E; try done;
    apply pages_map_ok in E as [Hk Hg]; try done.
  - intros [= <- <-]. cbn. destruct Hg as (Hg & _ & Hr).
    assert (r = chunk x) as -> by (apply Hr; lia).
    do 5 (split; [done|]). done.
  - intros E'. apply IH in E'; [|apply Hk|done|done].
    destruct E' as (Hk' & Hh & Hs' & Hf' & Hm). cbn in *.
    split; [by eapply keeps_trans|]. do 3 (split; [done|]).
    destruct ro; [|done]. destruct Hm as [Hg' ?]. split; [by eapply keeps_grants|done].
Qed.

(** Cutting the sub-range [[r, r + n)] out of a fresh mapping of [[r0, r0 + n0)]. *)
Lemma chunk_overalloc_ok s n ro s' :
  vm_ok (kernel s) -> 0 < n < 2 ^ 64 -> n mod chunksize cfg = 0 ->
  chunk_overalloc cfg s n = Ok (ro, s') ->
  keeps (kernel s) (kernel s') /\ huge s' = huge s /\ old_chunks s' = old_chunks s /\
  base_chunk_nodes s' = base_chunk_nodes s /\
  match ro with
  | Some r => grants (kernel s) r n (kernel s') /\ r mod chunksize cfg = 0
  | None => True
  end.
Proof.
  intros Hv Hn Hmod. destruct chunksize_bounds as [Hcs Hpg].
  change (2 ^ 13) with 8192 in Hcs. change (2 ^ 32) with 4294967296 in Hcs.
  set (cs := chunksize cfg) in *. unfold chunk_overalloc. fold cs.
  destruct (n <? u64 (n + cs)) eqn:Eg; b2p.
  2:{ intros [= <- <-]. split; [by apply keeps_refl|done]. }
  assert (Hsum : u64 (n + cs) = n + cs).
  { apply u64_small. split; [lia|]. destruct (Z.lt_ge_cases (n + cs) (2 ^ 64)); [done|].
    assert (u64 (n + cs) = n + cs - 2 ^ 64); [|lia].
    unfold u64. symmetry. apply Z.mod_unique with 1; lia. }
  rewrite Hsum. destruct (pages_map cfg (kernel s) 0 (n + cs)) as [[[r0|] v1]| |] eqn:E; try done;
    apply pages_map_ok in E as [Hk Hg]; try done; try lia.
  2:{ intros [= <- <-]. by cbn. }
  destruct Hg as (Hg & _ & _). pose proof Hg as (_ & Hr0 & Hend & Hfresh & Hnew).
  rewrite chunk_offset by lia. fold cs.
  pose proof (Z.div_mod r0 cs ltac:(lia)) as Hdm. pose proof (Z.mod_pos_bound r0 cs ltac:(lia)) as Hmb.
  set (off := r0 mod cs) in *.
  assert (Hcut : forall r v', keeps (kernel s) v' -> (forall x, in_range r n x -> mapped v' x /\ vm_read v' x = 0) ->
    r0 <= r -> r + n <= r0 + (n + cs) -> r mod cs = 0 ->
    grants (kernel s) r n v' /\ r mod cs = 0).
  { intros r v' Hkv Hin Hr1 Hr2 Hal. split; [|done]. split; [done|]. split; [lia|]. split; [lia|].
    split; [|done]. intros x Hx. apply Hfresh. unfold in_range in *. lia. }
  destruct (off =? 0) eqn:Eo; b2p; cbn [negb].
  - rewrite (u64_small (r0 + n)) by lia.
    destruct (pages_unmap cfg v1 (r0 + n) cs) as [v2| |] eqn:Eu; try done. intros [= <- <-]. cbn.
    assert (Hk2 : keeps (kernel s) v2).
    { eapply unmap_fresh; [exact Hk| |exact Eu]. intros x Hx. apply Hfresh. unfold in_range in *. lia. }
    split; [done|]. do 3 (split; [done|]). apply Hcut; try lia; auto.
    apply pages_unmap_ok in Eu as (_ & Hkb & _); [|apply Hk]. intros x Hx.
    destruct (Hnew x) as [Hm Hz]; [unfold in_range in *; lia|].
    destruct (Hkb x Hm) as [? Hz']; [unfold in_range in *; lia|]. split; [done|congruence].
  - rewrite (u64_small (cs - off)), (u64_small (r0 + (cs - off))),
      (u64_small (r0 + (cs - off) + n)) by lia.
    set (r := r0 + (cs - off)).
    destruct (pages_unmap cfg v1 r0 (cs - off)) as [v2| |] eqn:Eu; try done.
    destruct (pages_unmap cfg v2 (r + n) off) as [v3| |] eqn:Eu2; try done. intros [= <- <-]. cbn.
    assert (Hk2 : keeps (kernel s) v2).
    { eapply unmap_fresh; [exact Hk| |exact Eu]. intros x Hx. apply Hfresh. unfold in_range in *. lia. }
    assert (Hk3 : keeps (kernel s) v3).
    { eapply unmap_fresh; [exact Hk2| |exact Eu2]. intros x Hx. apply Hfresh. unfold in_range in *. lia. }
    split; [done|]. do 3 (split; [done|]). apply Hcut; try lia; auto.
    2:{ replace r with ((r0 / cs + 1) * cs) by lia. apply Z.mod_mul. lia. }
    apply pages_unmap_ok in Eu as (_ & Hkb & _); [|apply Hk].
    apply pages_unmap_ok in Eu2 as (_ & Hkb2 & _); [|apply Hk2]. intros x Hx.
    destruct (Hnew x) as [Hm Hz]; [unfold in_range in *; lia|].
    destruct (Hkb x Hm) as [Hm2 Hz2]; [unfold in_range in *; lia|].
    destruct (Hkb2 x Hm2) as [? Hz3]; [unfold in_range in *; lia|]. split; [done|congruence].
Qed.

Lemma chunk_alloc_ok s n ro s' :
  chunks_inv s -> 0 < n < 2 ^ 64 -> n mod chunksize cfg = 0 ->
  chunk_alloc cfg s n = Ok (ro, s') ->
  keeps (kernel s) (kernel s') /\ huge s' = huge s /\ chunks_inv s' /\
  match ro with
  | Some r =>
      grants (kernel s) r n (kernel s') /\ r mod chunksize cfg = 0 /\
      Forall (fun x => ~ in_range r n (chunk x)) (old_chunks s')
  | None => True
  end.
Proof.
  intros [Hv Hos Hof Hhs Hhf] Hn Hmod. unfold chunk_alloc.
  assert (Hfirst : forall ro1 s1,
    (if n =? chunksize cfg then recycle cfg (old_chunks s) s n else Ok (None, s)) = Ok (ro1, s1) ->
    keeps (kernel s) (kernel s1) /\ huge s1 = huge s /\
    StronglySorted node_before (old_chunks s1) /\ Forall old_ok (old_chunks s1) /\
    match ro1 with
    | Some r => grants (kernel s) r n (kernel s1) /\ r mod chunksize cfg = 0
    | None => True
    end).
  { intros ro1 s1. case_match; [apply recycle_ok; auto; lia|].
    intros [= <- <-]. split; [by apply keeps_refl|done]. }
  destruct (if n =? chunksize cfg then recycle cfg (old_chunks s) s n else Ok (None, s))
    as [[ro1 s1]| |] eqn:E1; try done.
  destruct (Hfirst _ _ eq_refl) as (Hk1 & Hh1 & Hs1 & Hf1 & Hg1). clear Hfirst.
  assert (Hsecond : forall ro2 s2,
    (match ro1 with Some r => Ok (Some r, s1) | None => chunk_overalloc cfg s1 n end) = Ok (ro2, s2) ->
    keeps (kernel s) (kernel s2) /\ huge s2 = huge s /\
    StronglySorted node_before (old_chunks s2) /\ Forall old_ok (old_chunks s2) /\
    match ro2 with
    | Some r => grants (kernel s) r n (kernel s2) /\ r mod chunksize cfg = 0
    | None => True
    end).
  { intros ro2 s2. destruct ro1 as [r|]; [intros [= <- <-]; done|].
    intros E. apply chunk_overalloc_ok in E as (Hk2 & Hh2 & Ho2 & _ & Hg2); [|apply Hk1|lia|done].
    rewrite Ho2, Hh2. split; [by eapply keeps_trans|]. do 3 (split; [done|]).
    destruct ro2; [|done]. destruct Hg2. split; [by eapply keeps_grants|done]. }
  destruct (match ro1 with Some r => Ok (Some r, s1) | None => chunk_overalloc cfg s1 n end)
    as [[ro2 s2]| |] eqn:E2; try done.
  destruct (Hsecond _ _ eq_refl) as (Hk2 & Hh2 & Hs2 & Hf2 & Hg2). clear Hsecond.
  pose proof (huge_keeps _ _ _ Hk2 Hhf) as Hhf2.
  destruct ro2 as [r|].
  - destruct (clean_old (old_chunks s2) r n (base_chunk_nodes s2)) as [t nodes] eqn:Ec.
    intros [= <- <-]. cbn. destruct Hg2 as [Hg2 Hal].
    pose proof Hg2 as (_ & Hr & Hov & _).
    apply clean_old_spec in Ec as (Hst & HP & Hout); [|done|lia|lia|lia].
    do 2 (split; [done|]). split; [|done].
    split; cbn; rewrite ?Hh2; try done; [apply Hk2|by apply HP].
  - intros [= <- <-]. do 2 (split; [done|]). split; [|done].
    split; rewrite ?Hh2; try done. apply Hk2.
Qed.

(** *** [chunk_dealloc]: only the bytes of the chunk are given up *)

Lemma chunk_dealloc_ok s c n s' :
  chunks_inv s -> 0 < c -> c mod chunksize cfg = 0 ->
  Forall (fun x => forall y, in_range (chunk x) (size x) y -> ~ in_range c n y) (huge s) ->
  chunk_dealloc cfg s c n = Ok s' ->
  chunks_inv s' /\ huge s' = huge s /\
  (forall x, mapped (kernel s) x -> ~ in_range c n x ->
     mapped (kernel s') x /\ vm_read (kernel s') x = vm_read (kernel s) x).
Proof.
  intros [Hv Hos Hof Hhs Hhf] Hc Hal Hdisj. unfold chunk_dealloc.
  destruct (pages_unmap cfg (kernel s) c n) as [v| |] eqn:Eu; try done.
  apply pages_unmap_ok in Eu as (Hv1 & Hkb & _); [|done].
  assert (Hhf1 : Forall (huge_ok v) (huge s)).
  { rewrite Forall_forall in Hhf, Hdisj |- *. intros x Hx.
    destruct (Hhf x Hx) as (H1 & H2 & H3 & H4 & H5). do 4 (split; [done|]).
    intros y Hy. apply Hkb; [by apply H5|]. by apply (Hdisj x Hx). }
  destruct (n =? chunksize cfg).
  - destruct (base_chunk_node_alloc cfg (set_kernel s v)) as [[node s1]| |] eqn:En; try done.
    apply node_alloc_ok in En as (Hk1 & Ho1 & Hh1); [|done]. cbn in Hk1, Ho1, Hh1.
    assert (Hkeep : forall x, mapped (kernel s) x -> ~ in_range c n x ->
      mapped (kernel s1) x /\ vm_read (kernel s1) x = vm_read (kernel s) x).
    { intros x Hx Hnx. destruct (Hkb x Hx Hnx) as [Hm Hr]. apply Hk1 in Hm as [Hm Hr'].
      split; [done|congruence]. }
    pose proof (huge_keeps _ _ _ Hk1 Hhf1) as Hhf2.
    destruct node as [a|]; intros [= <-]; cbn; rewrite ?Ho1, ?Hh1; (split; [|done]);
      split; cbn; rewrite ?Hh1, ?Ho1; try done; try apply Hk1.
    + by apply tree_insert_sorted.
    + by apply tree_insert_Forall.
  - intros [= <-]. cbn. split; [|done]. by split.
Qed.

(** *** Huge objects *)

Lemma fill_new_ok v a n :
  vm_ok v -> vm_ok (fill_new cfg v a n) /\
  (forall x, mapped (fill_new cfg v a n) x <-> mapped v x) /\
  (forall x, ~ in_range a n x -> vm_read (fill_new cfg v a n) x = vm_read v x).
Proof.
  intros Hv. unfold fill_new, fill.
  repeat case_match; (split; [by try apply vm_write_ok|]); (split; [|by intros; rewrite ?vm_write_out]);
    intros; rewrite ?vm_write_mapped; done.
Qed.

Lemma fill_new_keeps v a n v0 :
  keeps v0 v -> (forall x, in_range a n x -> ~ mapped v0 x) -> keeps v0 (fill_new cfg v a n).
Proof.
  intros [Hv Hk] Hf. destruct (fill_new_ok v a n Hv) as (H1 & H2 & H3).
  split; [done|]. intros x Hx. destruct (Hk x Hx) as [Hm Hr]. split; [by apply H2|].
  rewrite H3; [done|]. intros Hi. by apply (Hf x Hi).
Qed.

(** Recording a fresh, mapped range as a huge object. *)
Lemma huge_insert_ok s n :
  chunks_inv s -> huge_ok (kernel s) n -> Forall (apart n) (huge s) ->
  chunks_inv (set_kernel (set_huge s (tree_insert n (huge s)))
                (fill_new cfg (kernel s) (chunk n) (size n))).
Proof.
  intros [Hv Hos Hof Hhs Hhf] Hn Hap.
  destruct (fill_new_ok (kernel s) (chunk n) (size n) Hv) as (H1 & H2 & H3).
  assert (Hmono : forall m, huge_ok (kernel s) m -> huge_ok (fill_new cfg (kernel s) (chunk n) (size n)) m).
  { intros m (A & B & C & D & E). do 4 (split; [done|]). intros x Hx. by apply H2, E. }
  split; cbn; try done.
  - apply tree_insert_ranges; try done; [apply Hn|].
    eapply Forall_impl; [exact Hhf|]. intros m (_ & ? & _). done.
  - apply tree_insert_Forall; [by apply Hmono|]. eapply Forall_impl; [exact Hhf|]. done.
Qed.

(** A range the kernel has just granted is apart from every live huge object. *)
Lemma granted_apart s t a r n :
  Forall (huge_ok (kernel s)) t -> 0 < n ->
  (forall x, in_range r n x -> ~ mapped (kernel s) x) -> Forall (apart (mk_node a r n)) t.
Proof.
  intros Hf Hn Hfresh. eapply Forall_impl; [exact Hf|]. intros m (_ & Hm & _ & _ & Hmap).
  apply disjoint_apart; cbn; [done|done|]. intros x Hx Hi. apply (Hfresh x Hx). by apply Hmap.
Qed.

(** What every successful huge allocation of [n] bytes at [r] guarantees. *)
Definition huge_placed s (r n : Z) s' : Prop :=
  chunks_inv s' /\ keeps (kernel s) (kernel s') /\
  0 < r /\ r mod chunksize cfg = 0 /\ r + n < 2 ^ 64 /\
  (forall x, in_range r n x -> ~ mapped (kernel s) x) /\
  (forall x, in_range r n x -> mapped (kernel s') x /\
     vm_read (kernel s') x = if opt_junk (opts cfg) then 165 else 0) /\
  exists a, huge s' = tree_insert (mk_node a r n) (huge s) /\
    Forall (apart (mk_node a r n)) (huge s).

Lemma fill_new_read v a n x :
  in_range a n x -> vm_read v x = 0 ->
  vm_read (fill_new cfg v a n) x = if opt_junk (opts cfg) then 165 else 0.
Proof.
  intros Hx Hz. unfold fill_new, fill. repeat case_match; rewrite ?vm_write_in by done; done.
Qed.

(** The common end of [huge_malloc] and [huge_palloc]: a granted range is
    recorded and filled. *)
Lemma huge_record s s1 a r n :
  chunks_inv s -> chunks_inv s1 -> keeps (kernel s) (kernel s1) -> huge s1 = huge s ->
  0 < r -> 0 < n -> r mod chunksize cfg = 0 -> n mod chunksize cfg = 0 -> r + n < 2 ^ 64 ->
  (forall x, in_range r n x -> ~ mapped (kernel s) x) ->
  (forall x, in_range r n x -> mapped (kernel s1) x /\ vm_read (kernel s1) x = 0) ->
  huge_placed s r n
    (set_kernel (set_huge s1 (tree_insert (mk_node a r n) (huge s1)))
       (fill_new cfg (kernel s1) r n)).
Proof.
  intros Hi Hi1 Hk Hh Hr Hn Hal Hal2 Hov Hfresh Hnew.
  assert (Hap : Forall (apart (mk_node a r n)) (huge s)).
  { apply granted_apart with s; [apply Hi|done|done]. }
  split; [|split; [by apply fill_new_keeps|]].
  - apply (huge_insert_ok s1 (mk_node a r n)); [done| |by rewrite Hh].
    unfold huge_ok; cbn [chunk size]; split; [lia|]; do 3 (split; [done|]). intros x Hx. by apply Hnew.
  - do 4 (split; [done|]). split; [|exists a; split; [cbn; by rewrite Hh|done]].
    cbn. intros x Hx. destruct (Hnew x Hx) as [Hm Hz].
    destruct (fill_new_ok (kernel s1) r n (cs_vm _ Hi1)) as (_ & Hmap & _).
    split; [by apply Hmap|by apply fill_new_read].
Qed.

Lemma huge_malloc_ok s n ro s' :
  chunks_inv s -> 0 < n < 2 ^ 64 -> huge_malloc cfg s n = Ok (ro, s') ->
  match ro with
  | Some r => n <= CHUNK_CEILING cfg n /\ huge_placed s r (CHUNK_CEILING cfg n) s'
  | None => chunks_inv s' /\ keeps (kernel s) (kernel s') /\ huge s' = huge s
  end.
Proof.
  intros Hinv Hn. unfold huge_malloc. cbv zeta.
  destruct chunksize_bounds as [Hcs _]. change (2 ^ 13) with 8192 in Hcs.
  destruct (CHUNK_CEILING cfg n =? 0) eqn:E0; b2p.
  { intros [= <- <-]. split; [done|]. split; [apply keeps_refl, Hinv|done]. }
  assert (Hnov : n + chunksize cfg <= 2 ^ 64).
  { destruct (Z.le_gt_cases (n + chunksize cfg) (2 ^ 64)) as [|Hgt]; [done|].
    destruct E0. unfold CHUNK_CEILING. rewrite ok_chunksize_mask. rewrite ok_chunksize in Hgt.
    pose proof ok_k as Hk. pose proof ok_p as Hp. apply ceil_pow2_overflow; lia. }
  destruct (chunk_ceiling n ltac:(lia) Hnov) as [Hc Hal].
  set (c := CHUNK_CEILING cfg n) in *.
  destruct (base_chunk_node_alloc cfg s) as [[[a|] s1]| |] eqn:En; try done;
    apply node_alloc_ok in En as (Hk1 & Ho1 & Hh1); try apply Hinv.
  - assert (Hinv1 : chunks_inv s1).
    { destruct Hinv. split; rewrite ?Ho1, ?Hh1; try done; [apply Hk1|by eapply huge_keeps]. }
    destruct (chunk_alloc cfg s1 c) as [[[r|] s2]| |] eqn:Ec; try done;
      apply chunk_alloc_ok in Ec as (Hk2 & Hh2 & Hinv2 & Hg); try done; try lia.
    + intros [= <- <-]. split; [lia|]. destruct Hg as (Hg & Hral & _).
      apply (keeps_grants _ _ _ _ _ Hk1) in Hg. destruct Hg as (Hk & Hr & Hov & Hfresh & Hnew).
      apply huge_record; auto; try lia. by rewrite Hh2.
    + intros [= <- <-]. split; [by destruct Hinv2; split|].
      split; [by eapply keeps_trans|]. cbn. by rewrite Hh2.
  - intros [= <- <-]. split; [|done].
    destruct Hinv. split; rewrite ?Ho1, ?Hh1; try done; [apply Hk1|by eapply huge_keeps].
Qed.

(** The live objects other than [m] do not meet its range. *)
Lemma huge_disjoint t k m :
  StronglySorted range_before t -> Forall (fun x => 0 < size x) t -> tree_find k t = Some m ->
  Forall (fun x => forall y, in_range (chunk x) (size x) y -> ~ in_range (chunk m) (size m) y)
    (tree_remove k t).
Proof.
  intros Hs Hp. induction Hs as [|x t Hs IH Hx]; cbn; [done|].
  apply Forall_cons in Hp as [Hpx Hp]. destruct (k =? chunk x) eqn:E; b2p.
  - intros [= <-]. eapply Forall_impl; [exact Hx|]. unfold range_before, in_range. cbn. intros; lia.
  - intros Hf. constructor; [|by apply IH]. apply tree_find_Some in Hf as [Hin _].
    rewrite Forall_forall in Hx. specialize (Hx m Hin). unfold range_before, in_range in *. lia.
Qed.

Lemma huge_sizes s : chunks_inv s -> Forall (fun x => 0 < size x) (huge s).
Proof. intros Hi. eapply Forall_impl; [apply (cs_huge _ Hi)|]. by intros m (_ & ? & _). Qed.

Lemma huge_dalloc_ok s p m s' :
  chunks_inv s -> tree_find p (huge s) = Some m -> huge_dalloc cfg s p = Ok s' ->
  chunks_inv s' /\ huge s' = tree_remove p (huge s) /\
  (forall x, mapped (kernel s) x -> ~ in_range p (size m) x ->
     mapped (kernel s') x /\ vm_read (kernel s') x = vm_read (kernel s) x).
Proof.
  intros Hinv Hf. unfold huge_dalloc. rewrite Hf.
  pose proof (huge_disjoint _ _ _ (cs_huge_sorted _ Hinv) (huge_sizes _ Hinv) Hf) as Hd.
  pose proof (tree_find_Some _ _ _ Hf) as [Hin <-].
  pose proof (cs_huge _ Hinv) as Hh. rewrite Forall_forall in Hh.
  destruct (Hh m Hin) as ([Hm1 _] & _ & Hm2 & _).
  assert (Hinv1 : chunks_inv (set_huge s (tree_remove (chunk m) (huge s)))).
  { destruct Hinv. split; cbn; try done; [by apply tree_remove_sorted|by apply tree_remove_Forall]. }
  destruct (chunk_dealloc cfg (set_huge s (tree_remove (chunk m) (huge s))) (chunk m) (size m))
    as [s1| |] eqn:Ed; try done.
  apply chunk_dealloc_ok in Ed as (Hi1 & Hh1 & Hk1); try done.
  intros [= <-]. cbn in *. split; [by destruct Hi1; split|done].
Qed.

(** Giving back a part [[c, c + n)] of a range granted since [s0], none of which
    belongs to a huge object. *)
Lemma dealloc_granted s0 s c n s' :
  chunks_inv s0 -> chunks_inv s -> keeps (kernel s0) (kernel s) -> huge s = huge s0 ->
  0 < c -> c mod chunksize cfg = 0 ->
  (forall x, in_range c n x -> ~ mapped (kernel s0) x) ->
  chunk_dealloc cfg s c n = Ok s' ->
  chunks_inv s' /\ huge s' = huge s0 /\ keeps (kernel s0) (kernel s') /\
  (forall x, mapped (kernel s) x -> ~ in_range c n x ->
     mapped (kernel s') x /\ vm_read (kernel s') x = vm_read (kernel s) x).
Proof.
  intros Hi0 Hi [Hv Hk] Hh Hc Hal Hfresh E.
  apply chunk_dealloc_ok in E as (Hi' & Hh' & Hk'); try done.
  - split; [done|]. split; [congruence|]. split; [|done].
    split; [apply Hi'|]. intros x Hx. destruct (Hk x Hx) as [Hm Hr].
    destruct (Hk' x Hm) as [? ?]; [intros Hx'; by apply (Hfresh x Hx')|].
    split; [done|congruence].
  - rewrite Hh. pose proof (cs_huge _ Hi0) as Hhf. eapply Forall_impl; [exact Hhf|].
    intros m (_ & _ & _ & _ & Hm) y Hy Hy'. apply (Hfresh y Hy'). by apply Hm.
Qed.

(** The arithmetic of over-aligned allocation: the over-size block holds an
    aligned block of [c] bytes, whatever its own offset. *)
Lemma palloc_fits al n c r :
  0 < chunksize cfg -> al mod chunksize cfg = 0 -> r mod chunksize cfg = 0 ->
  c mod chunksize cfg = 0 -> chunksize cfg < al -> 0 < n <= c -> c < n + chunksize cfg ->
  let total := if al <=? n then c + al - chunksize cfg else 2 * al - chunksize cfg in
  let off := r mod al in
  (off = 0 -> c < total) /\ (off <> 0 -> 0 < al - off /\ al - off + c <= total) /\
  (al - off) mod chunksize cfg = 0 /\ total mod chunksize cfg = 0.
Proof.
  intros Hcs Hal Hr Hc Hlt Hn Hcn total off.
  apply Z.mod_divide in Hal as [ka Ha]; [|lia]. apply Z.mod_divide in Hr as [kr Hr]; [|lia].
  apply Z.mod_divide in Hc as [kc Hc]; [|lia]. set (cs := chunksize cfg) in *.
  pose proof (Z.div_mod r al ltac:(lia)) as Hdm. pose proof (Z.mod_pos_bound r al ltac:(lia)) as Hmb.
  fold off in Hdm, Hmb. set (q := r / al) in *.
  assert (Hoff : off = (kr - ka * q) * cs) by nia.
  assert (Ha2 : 2 <= ka) by nia.
  assert (Htot : total = (if al <=? n then kc + ka - 1 else 2 * ka - 1) * cs).
  { unfold total. case_match; nia. }
  assert (Hkc : al <=? n = false -> kc <= ka) by (intros; b2p; nia).
  split; [|split; [|split]].
  - intros _. rewrite Htot. case_match; nia.
  - intros Hne. rewrite Htot. assert (1 <= kr - ka * q) by nia. split; [lia|].
    case_match; nia.
  - rewrite Ha, Hoff. replace (ka * cs - (kr - ka * q) * cs) with ((ka - (kr - ka * q)) * cs) by lia.
    apply Z.mod_mul. lia.
  - rewrite Htot. apply Z.mod_mul. lia.
Qed.

Lemma palloc_cut_ok s0 s k c total r r' s' :
  let al := 2 ^ k in
  chunks_inv s0 -> chunks_inv s -> huge s = huge s0 -> grants (kernel s0) r total (kernel s) ->
  0 <= k < 64 -> 0 < c -> c mod chunksize cfg = 0 -> r mod chunksize cfg = 0 ->
  (r mod al = 0 -> c < total) -> (r mod al <> 0 -> 0 < al - r mod al /\ al - r mod al + c <= total) ->
  (al - r mod al) mod chunksize cfg = 0 ->
  palloc_cut cfg s al c total r = Ok (r', s') ->
  chunks_inv s' /\ huge s' = huge s0 /\ keeps (kernel s0) (kernel s') /\
  r' mod al = 0 /\ r' mod chunksize cfg = 0 /\ r <= r' /\ r' + c <= r + total /\
  (forall x, in_range r' c x -> mapped (kernel s') x /\ vm_read (kernel s') x = 0).
Proof.
  intros al Hi0 Hi Hh (Hk & Hr & Hov & Hfresh & Hnew) Hk64 Hc Hcal Hral H0 H1 Hlead.
  destruct chunksize_bounds as [Hcs _]. change (2 ^ 13) with 8192 in Hcs.
  pose proof (pow2_pos k ltac:(lia)) as Hal. pose proof (pow2_lt_mono k 64 ltac:(lia)) as Hal64.
  fold al in Hal, Hal64.
  assert (Hland : Z.land r (al - 1) = r mod al) by (apply land_mask; lia).
  unfold palloc_cut. rewrite (u64_small (al - 1)), Hland by lia. pose proof (Z.mod_pos_bound r al ltac:(lia)) as Hmb.
  assert (Hadd : forall a b, a mod chunksize cfg = 0 -> b mod chunksize cfg = 0 -> (a + b) mod chunksize cfg = 0).
  { intros a b Ha Hb. by rewrite Z.add_mod, Ha, Hb by lia. }
  destruct (r mod al =? 0) eqn:E; b2p.
  - specialize (H0 E). rewrite (u64_small (r + c)), (u64_small (total - c)) by lia.
    destruct (chunk_dealloc cfg s (r + c) (total - c)) as [s1| |] eqn:Ed; try done.
    intros [= <- <-]. apply (dealloc_granted s0) in Ed as (Hi1 & Hh1 & Hk1 & Hkeep); auto; try lia.
    2:{ intros x Hx. apply Hfresh. unfold in_range in *. lia. }
    do 5 (split; [done|]). split; [lia|]. split; [lia|]. intros x Hx.
    destruct (Hnew x) as [Hm Hz]; [unfold in_range in *; lia|].
    destruct (Hkeep x Hm) as [? ?]; [unfold in_range in *; lia|]. split; [done|congruence].
  - specialize (H1 E) as [H1 H2].
    rewrite (u64_small (al - r mod al)), (u64_small (r + (al - r mod al))),
      (u64_small (total - (al - r mod al) - c)) by lia.
    set (lead := al - r mod al) in *. rewrite (u64_small (r + lead + c)) by lia.
    destruct (chunk_dealloc cfg s r lead) as [s1| |] eqn:Ed; try done.
    apply (dealloc_granted s0) in Ed as (Hi1 & Hh1 & Hk1 & Hkeep); auto.
    2:{ intros x Hx. apply Hfresh. unfold in_range in *. lia. }
    assert (Htail : forall s2,
      (if negb (total - lead - c =? 0) then chunk_dealloc cfg s1 (r + lead + c) (total - lead - c)
       else Ok s1) = Ok s2 ->
      chunks_inv s2 /\ huge s2 = huge s0 /\ keeps (kernel s0) (kernel s2) /\
      (forall x, mapped (kernel s1) x -> in_range (r + lead) c x ->
         mapped (kernel s2) x /\ vm_read (kernel s2) x = vm_read (kernel s1) x)).
    { intros s2. destruct (total - lead - c =? 0) eqn:E2; b2p; cbn [negb].
      - intros [= <-]. done.
      - intros Ed. apply (dealloc_granted s0) in Ed as (Hi2 & Hh2 & Hk2 & Hkeep2); auto; try lia.
        + do 3 (split; [done|]). intros x Hx Hin. apply Hkeep2; [done|]. unfold in_range in *. lia.
        + intros x Hx. apply Hfresh. unfold in_range in *. lia. }
    destruct (if negb _ then _ else _) as [s2| |]; try done.
    intros [= <- <-]. destruct (Htail _ eq_refl) as (Hi2 & Hh2 & Hk2 & Hkeep2).
    do 3 (split; [done|]). split; [|split; [by apply Hadd|]].
    + unfold lead. pose proof (Z.div_mod r al ltac:(lia)).
      replace (r + (al - r mod al)) with ((r / al + 1) * al) by lia. apply Z.mod_mul. lia.
    + split; [lia|]. split; [lia|]. intros x Hx.
      destruct (Hnew x) as [Hm Hz]; [unfold in_range in *; lia|].
      destruct (Hkeep x Hm) as [Hm1 Hz1]; [unfold in_range in *; lia|].
      destruct (Hkeep2 x Hm1 Hx) as [? ?]. split; [done|congruence].
Qed.

Lemma huge_palloc_ok s k n ro s' :
  chunks_inv s -> opt_chunk_2pow (opts cfg) < k <= 63 -> 0 < n -> n + 2 ^ k < 2 ^ 64 ->
  huge_palloc cfg s (2 ^ k) n = Ok (ro, s') ->
  match ro with
  | Some r =>
      r mod 2 ^ k = 0 /\ n <= CHUNK_CEILING cfg n /\ huge_placed s r (CHUNK_CEILING cfg n) s'
  | None => chunks_inv s' /\ keeps (kernel s) (kernel s') /\ huge s' = huge s
  end.
Proof.
  intros Hinv Hk Hn Hov. unfold huge_palloc. cbv zeta.
  destruct chunksize_bounds as [Hcs _]. change (2 ^ 13) with 8192 in Hcs.
  pose proof ok_k as Hkk. pose proof ok_p as Hpp.
  assert (Hlt : chunksize cfg < 2 ^ k) by (rewrite ok_chunksize; apply pow2_lt_mono; lia).
  assert (Hk63 : 2 ^ k <= 2 ^ 63) by (apply pow2_le_mono; lia).
  assert (Halcs : 2 ^ k mod chunksize cfg = 0).
  { rewrite ok_chunksize, (pow2_split (opt_chunk_2pow (opts cfg)) k), Z.mul_comm by lia.
    apply Z.mod_mul. pose proof (pow2_pos (opt_chunk_2pow (opts cfg))). lia. }
  destruct (chunk_ceiling n ltac:(lia) ltac:(lia)) as [Hc Hal].
  set (c := CHUNK_CEILING cfg n) in *. set (al := 2 ^ k) in *.
  assert (Htot : (if al <=? n then u64 (c + al - chunksize cfg)
                  else u64 (u64 (Z.shiftl al 1) - chunksize cfg))
                 = if al <=? n then c + al - chunksize cfg else 2 * al - chunksize cfg).
  { rewrite Z.shiftl_mul_pow2 by lia. change (2 ^ 1) with 2.
    rewrite u64_sub_l. case_match; b2p; rewrite u64_small by lia; lia. }
  rewrite Htot. clear Htot.
  set (total := if al <=? n then c + al - chunksize cfg else 2 * al - chunksize cfg) in *.
  assert (Htb : 0 < total < 2 ^ 64) by (unfold total; case_match; b2p; lia).
  pose proof (fun r Hr =>
    palloc_fits al n c r ltac:(lia) Halcs Hr Hal Hlt ltac:(lia) ltac:(lia)) as Hfits.
  cbv zeta in Hfits. fold total in Hfits.
  destruct (base_chunk_node_alloc cfg s) as [[[a|] s1]| |] eqn:En; try done;
    apply node_alloc_ok in En as (Hk1 & Ho1 & Hh1); try apply Hinv.
  2:{ intros [= <- <-]. split; [|done].
      destruct Hinv. split; rewrite ?Ho1, ?Hh1; try done; [apply Hk1|by eapply huge_keeps]. }
  assert (Hinv1 : chunks_inv s1).
  { destruct Hinv. split; rewrite ?Ho1, ?Hh1; try done; [apply Hk1|by eapply huge_keeps]. }
  destruct (chunk_alloc cfg s1 total) as [[ro2 s2]| |] eqn:Ec; [|done|done].
  apply chunk_alloc_ok in Ec as (Hk2 & Hh2 & Hinv2 & Hg); [|done|done|by apply (Hfits 0), Z.mod_0_l; lia].
  destruct ro2 as [r|].
  2:{ intros [= <- <-]. split; [by destruct Hinv2; split|].
      split; [by eapply keeps_trans|]. cbn. by rewrite Hh2. }
  destruct Hg as (Hg & Hral & _). apply (keeps_grants _ _ _ _ _ Hk1) in Hg.
  destruct (Hfits r Hral) as (F0 & F1 & F2 & _).
  destruct (palloc_cut cfg s2 al c total r) as [[r' s3]| |] eqn:Ecut; try done.
  eapply (palloc_cut_ok s) in Ecut; try done; try lia; [|by rewrite Hh2].
  destruct Ecut as (Hi3 & Hh3 & Hk3 & R1 & R2 & R3 & R4 & R5).
  destruct Hg as (_ & Hr0 & Hov0 & Hfresh & _).
  intros [= <- <-]. split; [done|]. split; [lia|].
  apply huge_record; auto; try lia. intros x Hx. apply Hfresh. unfold in_range in *. lia.
Qed.
End chunk_layer.

(** ** Lemmas: the chunk layer never reaches undefined behaviour

    It stops only when a failed [munmap] meets [opt_abort]. *)

Section chunk_safe.
Context {V : VM} (cfg : config).
Local Notation ab := (opt_abort (opts cfg)).

Lemma pages_unmap_safe v a n : safe ab (pages_unmap cfg v a n).
Proof. unfold pages_unmap. destruct (munmap v a n) as [[] ?]; [done|]. by destruct ab eqn:?. Qed.

Lemma pages_map_safe v a n : safe ab (pages_map cfg v a n).
Proof.
  unfold pages_map. destruct (mmap v a n) as [[r|] v1]; [|done].
  destruct (_ && _); [|done]. apply safe_bind; [apply pages_unmap_safe|done].
Qed.

Lemma base_alloc_safe s n : safe ab (base_alloc cfg s n).
Proof.
  unfold base_alloc. apply safe_bind; [|by intros [[] ?] _].
  destruct (_ <? _); [|done]. unfold base_pages_alloc.
  apply safe_bind; [apply pages_map_safe|]. by intros [[r|] v] _.
Qed.

Lemma node_alloc_safe s : safe ab (base_chunk_node_alloc cfg s).
Proof. unfold base_chunk_node_alloc. case_match; [apply base_alloc_safe|done]. Qed.

Lemma recycle_safe t s n : safe ab (recycle cfg t s n).
Proof.
  revert s. induction t as [|x t IH]; intros s; cbn [recycle]; [done|].
  apply safe_bind; [apply pages_map_safe|]. intros [[r|] v] _; [done|apply IH].
Qed.

Lemma chunk_overalloc_safe s n : safe ab (chunk_overalloc cfg s n).
Proof.
  unfold chunk_overalloc. case_match; [|done].
  apply safe_bind; [apply pages_map_safe|]. intros [[r|] v] _; [|done].
  case_match; repeat (apply safe_bind; [apply pages_unmap_safe|intros ? _]); done.
Qed.

Lemma chunk_alloc_safe s n : safe ab (chunk_alloc cfg s n).
Proof.
  unfold chunk_alloc. apply safe_bind; [case_match; [apply recycle_safe|done]|].
  intros [ret s1] _. apply safe_bind; [case_match; [done|apply chunk_overalloc_safe]|].
  intros [[r|] s2] _; [|done]. by destruct (clean_old _ _ _ _).
Qed.

Lemma chunk_dealloc_safe s c n : safe ab (chunk_dealloc cfg s c n).
Proof.
  unfold chunk_dealloc. apply safe_bind; [apply pages_unmap_safe|]. intros v _.
  case_match; [|done]. apply safe_bind; [apply node_alloc_safe|]. by intros [[r|] s2] _.
Qed.

Lemma huge_malloc_safe s n : safe ab (huge_malloc cfg s n).
Proof.
  unfold huge_malloc. case_match; [done|]. apply safe_bind; [apply node_alloc_safe|].
  intros [[a|] s1] _; [|done]. apply safe_bind; [apply chunk_alloc_safe|]. by intros [[r|] s2] _.
Qed.

Lemma palloc_cut_safe s al c t r : safe ab (palloc_cut cfg s al c t r).
Proof.
  unfold palloc_cut. case_match; (apply safe_bind; [apply chunk_dealloc_safe|intros ? _]); [done|].
  apply safe_bind; [|done]. case_match; [apply chunk_dealloc_safe|done].
Qed.

Lemma huge_palloc_safe s al n : safe ab (huge_palloc cfg s al n).
Proof.
  unfold huge_palloc. apply safe_bind; [apply node_alloc_safe|].
  intros [[a|] s1] _; [|done]. apply safe_bind; [apply chunk_alloc_safe|].
  intros [[r|] s2] _; [|done]. apply safe_bind; [apply palloc_cut_safe|]. by intros [r' s3] _.
Qed.

Lemma huge_dalloc_safe s p m : tree_find p (huge s) = Some m -> safe ab (huge_dalloc cfg s p).
Proof.
  intros Hf. unfold huge_dalloc. rewrite Hf.
  apply safe_bind; [apply chunk_dealloc_safe|done].
Qed.
End chunk_safe.
