(* ===== verification/JArena.v ===== *)
(** * jalloc: arenas

    Models the arena operations of [src/util/private/jalloc/malloc.c] on the
    whole allocator state: [arena_run_split], [arena_chunk_alloc],
    [arena_chunk_dealloc], [arena_run_alloc], [arena_run_dalloc],
    [arena_bin_nonfull_run_get], [arena_bin_malloc_hard], [arena_malloc],
    [arena_palloc_trim], [arena_palloc], [arena_salloc], [arena_dalloc],
    [arenas_extend] and [choose_arena].

    The headers that the code keeps inside chunks and runs are two maps from
    addresses: a header that is not in its map is memory the program must not
    touch, and reading it is undefined behaviour. *)

From Stdlib Require Import ZArith Lia Bool Sorted.
From stdpp Require Import base numbers gmap list.
From S2P Require Import Prelude JConfig JRun JBin JMap JChunk.

(** ** Address-ordered trees of chunks and of runs, as sorted lists *)

Fixpoint addr_insert (a : Z) (t : list Z) : list Z :=
  match t with
  | [] => [a]
  | x :: t' => if a <? x then a :: t else if a =? x then t else x :: addr_insert a t'
  end.

Fixpoint addr_remove (a : Z) (t : list Z) : list Z :=
  match t with
  | [] => []
  | x :: t => if a =? x then t else x :: addr_remove a t
  end.

(** ** The state of the allocator *)

Section arena_ops.
Context `{V : VM} (cfg : config).

(** [arenas] is the array of arena pointers; an arena is named by its index. *)
Record heap := mk_heap {
  lower : state;
  arenas : list (option arena);
  chunk_hdrs : gmap Z arena_chunk;
  run_hdrs : gmap Z arena_run }.

Definition set_lower (h : heap) (s : state) : heap :=
  mk_heap s (arenas h) (chunk_hdrs h) (run_hdrs h).
Definition put_chunk (h : heap) (c : Z) (ch : arena_chunk) : heap :=
  mk_heap (lower h) (arenas h) (<[c := ch]> (chunk_hdrs h)) (run_hdrs h).
Definition drop_chunk (h : heap) (c : Z) : heap :=
  mk_heap (lower h) (arenas h) (delete c (chunk_hdrs h)) (run_hdrs h).
Definition put_run (h : heap) (r : Z) (rh : arena_run) : heap :=
  mk_heap (lower h) (arenas h) (chunk_hdrs h) (<[r := rh]> (run_hdrs h)).
Definition write_vm (h : heap) (f : vm -> vm) : heap :=
  set_lower h (set_kernel (lower h) (f (kernel (lower h)))).

Definition get_arena (h : heap) (a : Z) : option arena :=
  let* o := zget (arenas h) a in o.
Definition put_arena (h : heap) (a : Z) (ar : arena) : option heap :=
  let* l := zset (arenas h) a (Some ar) in
  Some (mk_heap (lower h) l (chunk_hdrs h) (run_hdrs h)).

Definition get_bin (h : heap) (a bi : Z) : option arena_bin :=
  let* ar := get_arena h a in zget (bins ar) bi.
Definition put_bin (h : heap) (a bi : Z) (b : arena_bin) : option heap :=
  let* ar := get_arena h a in
  let* l := zset (bins ar) bi b in
  put_arena h a (mk_arena (chunks ar) (spare ar) l).

Definition set_runcur (b : arena_bin) (r : option Z) : arena_bin :=
  mk_bin r (runs b) (reg_size b) (run_size b) (nregs b) (regs_mask_nelms b) (reg0_offset b).
Definition set_runs (b : arena_bin) (l : list Z) : arena_bin :=
  mk_bin (runcur b) l (reg_size b) (run_size b) (nregs b) (regs_mask_nelms b) (reg0_offset b).

(** The page index of an address in the chunk at [c], and the address of a page:
    the index is an [unsigned], and so is the shifted offset. *)
Definition page_index (c p : Z) : Z := u32 (Z.shiftr (u64 (p - c)) (pagesize_2pow cfg)).
Definition page_addr (c i : Z) : Z := u64 (c + u32 (Z.shiftl i (pagesize_2pow cfg))).

(** ** Runs *)

Definition arena_run_split (h : heap) (run size : Z) : option heap :=
  let c := CHUNK_ADDR2BASE cfg run in
  let* ch := chunk_hdrs h !! c in
  let* ch := run_split ch (page_index c run) (u32 (Z.shiftr size (pagesize_2pow cfg))) in
  Some (put_chunk h c ch).

Definition arena_chunk_alloc (h : heap) (a : Z) : outcome (option Z * heap) :=
  let! ar := lift (get_arena h a) in
  match spare ar with
  | Some c =>
      let! h := lift (put_arena h a (mk_arena (addr_insert c (chunks ar)) None (bins ar))) in
      Ok (Some c, h)
  | None =>
      let! (ret, s) := chunk_alloc cfg (lower h) (chunksize cfg) in
      let h := set_lower h s in
      match ret with
      | None => Ok (None, h)
      | Some c =>
          let! ch := lift (chunk_init cfg a) in
          let! h := lift (put_arena h a (mk_arena (addr_insert c (chunks ar)) None (bins ar))) in
          Ok (Some c, put_chunk h c ch)
      end
  end.

Definition arena_chunk_dealloc (h : heap) (a c : Z) : outcome heap :=
  let! ch := lift (chunk_hdrs h !! c) in
  let! owner := lift (get_arena h (chunk_arena ch)) in
  let! h := lift (put_arena h (chunk_arena ch)
                    (mk_arena (addr_remove c (chunks owner)) (spare owner) (bins owner))) in
  if negb (opt_hint (opts cfg)) then
    let! ar := lift (get_arena h a) in
    let! h :=
      match spare ar with
      | Some sp =>
          let! s := chunk_dealloc cfg (lower h) sp (chunksize cfg) in
          Ok (drop_chunk (set_lower h s) sp)
      | None => Ok h
      end in
    lift (put_arena h a (mk_arena (chunks ar) (Some c) (bins ar)))
  else
    let! s := chunk_dealloc cfg (lower h) c (chunksize cfg) in
    Ok (drop_chunk (set_lower h s) c).

(** The search of [arena_run_alloc] through the arena's chunks. *)
Fixpoint search_chunks (cs : list Z) (h : heap) (size need : Z) : outcome (option Z * heap) :=
  match cs with
  | [] => Ok (None, h)
  | c :: cs =>
      let! ch := lift (chunk_hdrs h !! c) in
      if may_fit cfg ch need then
        let! (found, ch) := lift (search_chunk cfg ch need) in
        let h := put_chunk h c ch in
        match found with
        | Some i =>
            let run := page_addr c i in
            let! h := lift (arena_run_split h run size) in
            Ok (Some run, h)
        | None => search_chunks cs h size need
        end
      else search_chunks cs h size need
  end.

Definition arena_run_alloc (h : heap) (a size : Z) : outcome (option Z * heap) :=
  let need := u32 (Z.shiftr size (pagesize_2pow cfg)) in
  let! ar := lift (get_arena h a) in
  let! (found, h) := search_chunks (chunks ar) h size need in
  match found with
  | Some run => Ok (Some run, h)
  | None =>
      let! (ret, h) := arena_chunk_alloc h a in
      match ret with
      | None => Ok (None, h)
      | Some c =>
          let run := page_addr c (arena_chunk_header_npages cfg) in
          let! h := lift (arena_run_split h run size) in
          Ok (Some run, h)
      end
  end.

Definition arena_run_dalloc (h : heap) (a run size : Z) : outcome heap :=
  let c := CHUNK_ADDR2BASE cfg run in
  let! ch := lift (chunk_hdrs h !! c) in
  let h := if opt_hint (opts cfg) then write_vm h (fun v => madvise v run size) else h in
  let! ch := lift (run_dalloc cfg ch (page_index c run) (u32 (Z.shiftr size (pagesize_2pow cfg)))) in
  let h := put_chunk h c ch in
  if pages_used ch =? 0 then arena_chunk_dealloc h a c else Ok h.

(** ** Bins *)

Definition arena_bin_nonfull_run_get (h : heap) (a bi : Z) : outcome (option Z * heap) :=
  let! b := lift (get_bin h a bi) in
  match runs b with
  | r :: l =>
      let! h := lift (put_bin h a bi (set_runs b l)) in
      Ok (Some r, h)
  | [] =>
      let! (ret, h) := arena_run_alloc h a (run_size b) in
      match ret with
      | None => Ok (None, h)
      | Some r => Ok (Some r, put_run h r (arena_run_init bi b))
      end
  end.

(** [arena_bin_malloc_easy] on the run at [r]. *)
Definition bin_malloc_easy (h : heap) (b : arena_bin) (r : Z) : option (option Z * heap) :=
  let* rh := run_hdrs h !! r in
  let* (ret, rh) := arena_bin_malloc_easy r rh b in
  Some (ret, put_run h r rh).

Definition arena_bin_malloc_hard (h : heap) (a bi : Z) : outcome (option Z * heap) :=
  let! (ret, h) := arena_bin_nonfull_run_get h a bi in
  let! b := lift (get_bin h a bi) in
  let! h := lift (put_bin h a bi (set_runcur b ret)) in
  match ret with
  | None => Ok (None, h)
  | Some r => lift (bin_malloc_easy h b r)
  end.

(** The small branch of [arena_malloc], on a bin. *)
Definition bin_malloc (h : heap) (a bi : Z) : outcome (option Z * heap) :=
  let! b := lift (get_bin h a bi) in
  let! avail :=
    match runcur b with
    | Some r => let! rh := lift (run_hdrs h !! r) in
                Ok (if 0 <? nfree rh then Some r else None)
    | None => Ok None
    end in
  match avail with
  | Some r => lift (bin_malloc_easy h b r)
  | None => arena_bin_malloc_hard h a bi
  end.

Definition arena_malloc (h : heap) (a size : Z) : outcome (option Z * heap) :=
  let! (ret, h, size) :=
    if size <=? bin_maxclass cfg then
      let '(bi, size) := size2bin cfg size in
      let! (ret, h) := bin_malloc h a bi in
      Ok (ret, h, size)
    else
      let size := PAGE_CEILING cfg size in
      let! (ret, h) := arena_run_alloc h a size in
      Ok (ret, h, size) in
  match ret with
  | None => Ok (None, h)
  | Some p => Ok (Some p, write_vm h (fun v => fill_new cfg v p size))
  end.

(** ** Over-aligned large objects *)

Definition arena_palloc_trim (h : heap) (a c pageind np : Z) : outcome heap :=
  let! ch := lift (chunk_hdrs h !! c) in
  let! m := lift (fill_run (Z.to_nat np) (chunk_map ch) pageind 0 np) in
  let h := put_chunk h c (set_map ch m) in
  arena_run_dalloc h a (page_addr c pageind) (u32 (Z.shiftl np (pagesize_2pow cfg))).

Definition arena_palloc (h : heap) (a alignment size alloc_size : Z)
    : outcome (option Z * heap) :=
  let np := u32 (Z.shiftr size (pagesize_2pow cfg)) in
  let! (ret, h) := arena_run_alloc h a alloc_size in
  match ret with
  | None => Ok (None, h)
  | Some ret =>
      let c := CHUNK_ADDR2BASE cfg ret in
      let! ch := lift (chunk_hdrs h !! c) in
      let offset := Z.land ret (u64 (alignment - 1)) in
      let! (ret, h) :=
        if offset =? 0 then
          let pageind := page_index c ret in
          let! m := lift (fill_npages (Z.to_nat np) (chunk_map ch) pageind 0 np) in
          let h := put_chunk h c (set_map ch m) in
          let! h := arena_palloc_trim h a c (u32 (pageind + np))
                      (u32 (Z.shiftr (u64 (alloc_size - size)) (pagesize_2pow cfg))) in
          Ok (ret, h)
        else
          let leadsize := u64 (alignment - offset) in
          let ret := u64 (ret + leadsize) in
          let pageind := page_index c ret in
          let! m := lift (fill_run (Z.to_nat np) (chunk_map ch) pageind 0 np) in
          let h := put_chunk h c (set_map ch m) in
          let leadpages := Z.shiftr leadsize (pagesize_2pow cfg) in
          let! h := arena_palloc_trim h a c (u32 (pageind - leadpages)) (u32 leadpages) in
          let trailsize := u64 (alloc_size - leadsize - size) in
          let! h :=
            if negb (trailsize =? 0)
            then arena_palloc_trim h a c (u32 (pageind + np))
                   (u32 (Z.shiftr trailsize (pagesize_2pow cfg)))
            else Ok h in
          Ok (ret, h) in
      Ok (Some ret, write_vm h (fun v => fill_new cfg v ret size))
  end.

(** ** Looking up and freeing *)

(** The test shared by [arena_salloc] and [arena_dalloc]: whether [ptr] is a
    region of a small run; if so the address of that run. *)
Definition small_run (ch : arena_chunk) (c ptr : Z) : option (option Z * arena_chunk_map) :=
  let pageind := page_index c ptr in
  let* mapelm := zget (chunk_map ch) pageind in
  if negb (pos mapelm =? 0) || negb (ptr =? page_addr c pageind)
  then Some (Some (page_addr c (u32 (pageind - pos mapelm))), mapelm)
  else Some (None, mapelm).

Definition arena_salloc (h : heap) (ptr : Z) : option Z :=
  let c := CHUNK_ADDR2BASE cfg ptr in
  let* ch := chunk_hdrs h !! c in
  let* (small, mapelm) := small_run ch c ptr in
  match small with
  | Some run =>
      let* rh := run_hdrs h !! run in
      let* b := get_bin h (chunk_arena ch) (bin rh) in
      Some (reg_size b)
  | None => Some (u32 (Z.shiftl (npages mapelm) (pagesize_2pow cfg)))
  end.

(** Junk filling of a freed object. *)
Definition fill_old (v : vm) (p n : Z) : vm :=
  if opt_junk (opts cfg) then fill v p n 90 else v.

(** The bookkeeping of [arena_dalloc] after a region of the run at [run] has been
    released: an empty run is given back, a run that was full becomes available. *)
Definition bin_update (h : heap) (a : Z) (run : Z) (rh : arena_run) (b : arena_bin)
    : outcome heap :=
  let is_cur := match runcur b with Some r => run =? r | None => false end in
  if nfree rh =? nregs b then
    let b' :=
      if is_cur then set_runcur b None
      else if negb (nregs b =? 1) then set_runs b (addr_remove run (runs b))
      else b in
    let! h := lift (put_bin h a (bin rh) b') in
    arena_run_dalloc h a run (run_size b)
  else if (nfree rh =? 1) && negb is_cur then
    match runcur b with
    | None => lift (put_bin h a (bin rh) (set_runcur b (Some run)))
    | Some cur =>
        if run <? cur then
          let! cur_hdr := lift (run_hdrs h !! cur) in
          let b := if 0 <? nfree cur_hdr then set_runs b (addr_insert cur (runs b)) else b in
          lift (put_bin h a (bin rh) (set_runcur b (Some run)))
        else lift (put_bin h a (bin rh) (set_runs b (addr_insert run (runs b))))
    end
  else Ok h.

Definition arena_dalloc (h : heap) (a c ptr : Z) : outcome heap :=
  let! ch := lift (chunk_hdrs h !! c) in
  let! (small, mapelm) := lift (small_run ch c ptr) in
  match small with
  | Some run =>
      let! rh := lift (run_hdrs h !! run) in
      let! b := lift (get_bin h (chunk_arena ch) (bin rh)) in
      let size := reg_size b in
      let h := write_vm h (fun v => fill_old v ptr size) in
      let! rh := lift (arena_run_reg_dalloc run rh b ptr size) in
      let rh := set_nfree rh (u32 (nfree rh + 1)) in
      bin_update (put_run h run rh) a run rh b
  | None =>
      let size := u32 (Z.shiftl (npages mapelm) (pagesize_2pow cfg)) in
      let h := write_vm h (fun v => fill_old v ptr size) in
      arena_run_dalloc h a ptr size
  end.

(** ** Choosing an arena *)

(** [sizeof(arena_t)] and [sizeof(arena_bin_t)] of an LP64 build. *)
Definition sizeof_arena_t : Z := 72.
Definition sizeof_arena_bin_t : Z := 48.

(** Returns the index of the arena to use. *)
Definition arenas_extend (h : heap) (ind : Z) : outcome (Z * heap) :=
  let! (ret, s) := base_alloc cfg (lower h)
                     (u64 (sizeof_arena_t + sizeof_arena_bin_t * u32 (nbins cfg - 1))) in
  let h := set_lower h s in
  match ret with
  | Some _ =>
      let! ar := lift (arena_new cfg) in
      let! h := lift (put_arena h ind ar) in
      Ok (ind, h)
  | None => if opt_abort (opts cfg) then Abort else Ok (0, h)
  end.

(** The [NO_TLS] version; [tid] is [MyThreadId()]. *)
Definition choose_arena (h : heap) (tid : Z) : outcome (Z * heap) :=
  let ind := tid mod zlen (arenas h) in
  let! o := lift (zget (arenas h) ind) in
  match o with
  | Some _ => Ok (ind, h)
  | None => arenas_extend h ind
  end.
End arena_ops.
Arguments heap : clear implicits.
Arguments heap {V}.
