(* ===== verification/JPages.v ===== *)
(** * jalloc: the page runs of all arenas

    The invariant that ties the chunk headers of [JMap] to the arenas of [JArena]
    and to the kernel's mappings, and its preservation by [arena_chunk_alloc],
    [arena_chunk_dealloc], [arena_run_alloc] and [arena_run_dalloc] of
    [src/util/private/jalloc/malloc.c].  The abstract state is a finite map from
    the addresses of the allocated runs to their lengths in pages. *)

From Stdlib Require Import ZArith Lia Bool Sorted.
From stdpp Require Import base numbers gmap list.
From S2P Require Import Prelude JConfig JRun JBin JMap JChunk JArena.

(** ** Sorted address lists *)

Lemma addr_insert_elem a t x : x ∈ addr_insert a t <-> x = a \/ x ∈ t.
Proof.
  induction t as [|y t IH]; cbn; [rewrite list_elem_of_singleton; set_solver|].
  destruct (a <? y); [set_solver|]. destruct (a =? y) eqn:E; b2p; set_solver.
Qed.

Lemma addr_insert_sorted a t : StronglySorted Z.lt t -> StronglySorted Z.lt (addr_insert a t).
Proof.
  induction 1 as [|y t Hs IH Hy]; cbn; [by repeat constructor|].
  destruct (a <? y) eqn:E1; b2p.
  - constructor; [by constructor|]. constructor; [done|].
    eapply Forall_impl; [exact Hy|]. cbn. lia.
  - destruct (a =? y) eqn:E2; b2p; [by constructor|]. constructor; [done|].
    rewrite Forall_forall in *. intros x Hx. apply addr_insert_elem in Hx as [->|?]; [lia|auto].
Qed.

Lemma addr_remove_elem a t x :
  StronglySorted Z.lt t -> x ∈ addr_remove a t <-> x ∈ t /\ x <> a.
Proof.
  induction 1 as [|y t Hs IH Hy]; cbn; [set_solver|].
  rewrite Forall_forall in Hy. destruct (a =? y) eqn:E; b2p.
  - subst. split; [|set_solver]. intros Hx. specialize (Hy x Hx). split; [set_solver|lia].
  - set_solver.
Qed.

Lemma addr_remove_sorted a t : StronglySorted Z.lt t -> StronglySorted Z.lt (addr_remove a t).
Proof.
  intros Hs. induction Hs as [|y t Hs IH Hy]; cbn; [constructor|].
  destruct (a =? y); [done|]. constructor; [done|].
  rewrite Forall_forall in *. intros x Hx. apply Hy. by apply addr_remove_elem in Hx as [? _].
Qed.

(** ** The runs a list of segments allocates *)

(** Page index and length of every used run, the first segment being at page [i]. *)
Fixpoint used_list (i : Z) (l : list seg) : list (Z * Z) :=
  match l with
  | [] => []
  | Free n :: l => used_list (i + n) l
  | Used n :: l => (i, n) :: used_list (i + n) l
  end.

Lemma used_list_app i l1 l2 :
  used_list i (l1 ++ l2) = used_list i l1 ++ used_list (i + total l1) l2.
Proof.
  revert i. induction l1 as [|[n|n] l1 IH]; intros i; cbn.
  - f_equal. lia.
  - rewrite IH. do 2 f_equal. lia.
  - rewrite IH. do 3 f_equal. lia.
Qed.

Lemma used_list_bounds i l j n :
  Forall (fun s => 1 <= seg_len s) l -> (j, n) ∈ used_list i l ->
  i <= j /\ 1 <= n /\ j + n <= i + total l.
Proof.
  intros Hl. revert i. induction Hl as [|[m|m] l Hm Hl IH]; intros i; cbn in *.
  - intros Hx. inv Hx.
  - intros Hx. specialize (IH _ Hx). lia.
  - intros Hx. pose proof (total_nonneg l Hl).
    apply elem_of_cons in Hx as [[= <- <-]|Hx]; [lia|]. specialize (IH _ Hx). lia.
Qed.

(** Two allocated runs of a chunk are equal or disjoint. *)
Lemma used_list_disjoint i l j1 n1 j2 n2 :
  Forall (fun s => 1 <= seg_len s) l ->
  (j1, n1) ∈ used_list i l -> (j2, n2) ∈ used_list i l ->
  (j1 = j2 /\ n1 = n2) \/ j1 + n1 <= j2 \/ j2 + n2 <= j1.
Proof.
  intros Hl. revert i. induction Hl as [|[m|m] l Hm Hl IH]; intros i; cbn in *.
  - intros Hx. inv Hx.
  - apply IH.
  - intros H1 H2. apply elem_of_cons in H1 as [[= -> ->]|H1]; apply elem_of_cons in H2 as [[= -> ->]|H2].
    + by left.
    + apply used_list_bounds in H2; [lia|done].
    + apply used_list_bounds in H1; [lia|done].
    + eauto.
Qed.

(** An entry splits the list of segments at its run. *)
Lemma used_list_split i l j n :
  (j, n) ∈ used_list i l -> exists pre post, l = pre ++ Used n :: post /\ j = i + total pre.
Proof.
  revert i. induction l as [|[m|m] l IH]; intros i; cbn.
  - intros Hx. inv Hx.
  - intros (pre & post & -> & ->)%IH. exists (Free m :: pre), post. split; [done|]. cbn. lia.
  - intros Hx. apply elem_of_cons in Hx as [[= -> ->]|Hx].
    + exists [], l. split; [done|]. cbn. lia.
    + apply IH in Hx as (pre & post & -> & ->). exists (Used m :: pre), post. split; [done|]. cbn. lia.
Qed.

(** ** Addresses inside a chunk *)

Section pages.
Context (cfg : config) {Hok : config_ok cfg}.
Local Notation PG := (pagesize cfg).
Local Notation CS := (chunksize cfg).
Local Notation N := (chunk_npages cfg).
Local Notation HD := (arena_chunk_header_npages cfg).

Lemma chunk_geometry :
  CS = N * PG /\ 1 <= HD < N /\ 4096 <= PG <= 32768 /\ 8192 <= CS <= 2 ^ 32 /\ N <= 2 ^ 20.
Proof.
  pose proof ok_p as Hp. pose proof ok_k as Hk. pose proof (npages_bounds cfg) as [Hh HN].
  pose proof (pagesize_bounds cfg) as [Hpg _].
  assert (Hcs : CS = N * PG).
  { rewrite ok_chunksize, ok_chunk_npages, ok_pagesize, <- Z.pow_add_r by lia. f_equal. lia. }
  split; [done|]. split; [done|]. split; [done|]. split; [|done].
  rewrite ok_chunksize. change 8192 with (2 ^ 13). split; apply pow2_le_mono; lia.
Qed.

Lemma addr2base c x :
  0 <= c -> c mod CS = 0 -> c + CS <= 2 ^ 64 -> in_range c CS x -> CHUNK_ADDR2BASE cfg x = c.
Proof.
  intros Hc Hal Hend Hx. unfold CHUNK_ADDR2BASE, in_range in *. pose proof ok_k as Hk. pose proof ok_p as Hp.
  rewrite ok_chunksize_mask, land_not64_mask by lia. rewrite ok_chunksize in *.
  set (cs := 2 ^ _) in *. assert (0 < cs) by (apply pow2_pos; lia).
  apply Z.mod_divide in Hal as [q ->]; [|lia]. rewrite Z.mul_comm. f_equal.
  symmetry. apply Z.div_unique with (x - q * cs); lia.
Qed.

Lemma page_index_ok c i o :
  0 <= i < N -> 0 <= o < PG -> page_index cfg c (c + i * PG + o) = i.
Proof.
  intros Hi Ho. unfold page_index. pose proof ok_p as Hp.
  destruct chunk_geometry as (HCS & HH & HPG & HC & HN).
  replace (c + i * PG + o - c) with (i * PG + o) by lia.
  rewrite u64_small by nia. rewrite Z.shiftr_div_pow2, <- ok_pagesize by lia.
  rewrite Z.div_add_l, Z.div_small, Z.add_0_r by lia. apply u32_small. lia.
Qed.

Lemma page_addr_ok c i :
  0 <= c -> c + CS < 2 ^ 64 -> 0 <= i < N -> page_addr cfg c i = c + i * PG.
Proof.
  intros Hc Hend Hi. unfold page_addr. pose proof ok_p as Hp.
  destruct chunk_geometry as (HCS & HH & HPG & HC & HN).
  rewrite Z.shiftl_mul_pow2, <- ok_pagesize by lia.
  rewrite (u32_small (i * PG)), u64_small by nia. done.
Qed.

Lemma pages_shiftr n : 0 <= n <= N -> u32 (Z.shiftr (n * PG) (pagesize_2pow cfg)) = n.
Proof.
  intros Hn. pose proof ok_p as Hp. destruct chunk_geometry as (HCS & HH & HPG & HC & HN).
  rewrite Z.shiftr_div_pow2, <- ok_pagesize, Z.div_mul by lia. apply u32_small. lia.
Qed.

(** Distinct chunks do not overlap. *)
Lemma chunks_apart c c' x :
  c mod CS = 0 -> c' mod CS = 0 -> in_range c CS x -> in_range c' CS x -> c = c'.
Proof.
  destruct chunk_geometry as (_ & _ & _ & HC & _). unfold in_range.
  intros Hc Hc' Hx Hx'. apply Z.mod_divide in Hc as [q ->]; [|lia].
  apply Z.mod_divide in Hc' as [q' ->]; [|lia]. f_equal. nia.
Qed.

(** ** Runs of a chunk and the abstract map *)

(** In the chunk at [c], the map [U] holds exactly the used runs of [l]. *)
Definition runs_in (c : Z) (l : list seg) (U : gmap Z Z) : Prop :=
  forall r m, in_range c CS r ->
    U !! r = Some m <-> exists j, r = c + j * PG /\ (j, m) ∈ used_list HD l.

Lemma runs_in_frame c l U U' :
  runs_in c l U -> (forall r, in_range c CS r -> U' !! r = U !! r) -> runs_in c l U'.
Proof. intros HU Heq r m Hr. rewrite Heq by done. by apply HU. Qed.

Lemma used_list_carve i need n post :
  1 <= need <= n -> used_list i (carve need n ++ post) = (i, need) :: used_list (i + n) post.
Proof.
  intros Hn. unfold carve. cbn. f_equal. destruct (need <? n) eqn:E; b2p; cbn; f_equal; lia.
Qed.

Lemma used_list_opt_free i a l : 0 <= a -> used_list i (opt_free a ++ l) = used_list (i + a) l.
Proof. intros Ha. unfold opt_free. destruct (0 <? a) eqn:E; b2p; cbn; f_equal; lia. Qed.

Lemma page_addr_inj c i j : c + i * PG = c + j * PG -> i = j.
Proof. destruct chunk_geometry as (_ & _ & HPG & _). nia. Qed.

(** Allocating the front of a free run adds one run to the map. *)
Lemma runs_in_carve c ch pre n post need U :
  chunk_inv cfg ch (pre ++ Free n :: post) -> runs_in c (pre ++ Free n :: post) U ->
  1 <= need <= n ->
  let r := c + (HD + total pre) * PG in
  U !! r = None /\ runs_in c (pre ++ carve need n ++ post) (<[r := need]> U).
Proof.
  intros Hi HU Hn r. destruct (inv_split cfg _ _ _ Hi) as (_ & _ & Htot & Hpre & Hpost & F1 & F2).
  apply Forall_cons in F2 as [_ F2]. cbn in Htot, Hpost. pose proof (total_nonneg post F2).
  destruct chunk_geometry as (HCS & HH & HPG & HC & HN).
  assert (Hold : forall j m, (j, m) ∈ used_list HD (pre ++ Free n :: post) -> j <> HD + total pre).
  { intros j m. rewrite used_list_app. cbn. intros [Hx|Hx]%elem_of_app;
      apply used_list_bounds in Hx; auto; lia. }
  assert (Hr : in_range c CS r) by (unfold in_range, r; nia).
  assert (Hnone : U !! r = None).
  { apply eq_None_not_Some. intros [m Hm]. apply HU in Hm as (j & Ej & Hj); [|done].
    apply page_addr_inj in Ej. by apply (Hold j m Hj). }
  split; [done|]. intros r' m Hr'. specialize (HU r' m Hr').
  rewrite used_list_app, used_list_carve by done. rewrite used_list_app in HU. cbn in HU.
  destruct (decide (r' = r)) as [->|Hne].
  - rewrite lookup_insert_eq. split.
    + intros [= <-]. exists (HD + total pre). split; [done|]. set_solver.
    + intros (j & Ej & [Hj|[[= -> ->]|Hj]%elem_of_cons]%elem_of_app); [|done|];
        apply page_addr_inj in Ej; subst j; apply used_list_bounds in Hj; auto; lia.
  - rewrite lookup_insert_ne, HU by done. split; intros (j & -> & Hj); exists j; (split; [done|]).
    + set_solver.
    + apply elem_of_app in Hj as [Hj|[[= -> ->]|Hj]%elem_of_cons]; [set_solver|done|set_solver].
Qed.

(** Freeing a used run, merged with its free neighbours, removes it. *)
Lemma runs_in_free c ch pre a n b post U :
  chunk_inv cfg ch ((pre ++ opt_free a) ++ Used n :: (opt_free b ++ post)) ->
  runs_in c ((pre ++ opt_free a) ++ Used n :: (opt_free b ++ post)) U ->
  0 <= a -> 0 <= b ->
  let r := c + (HD + total (pre ++ opt_free a)) * PG in
  U !! r = Some n /\ runs_in c (pre ++ Free (n + a + b) :: post) (delete r U).
Proof.
  intros Hi HU Ha Hb r. destruct (inv_split cfg _ _ _ Hi) as (_ & _ & Htot & Hpre & Hpost & F1 & F2).
  apply Forall_cons in F2 as [Hn1 F2]. apply Forall_app in F1 as [F1 _]. apply Forall_app in F2 as [_ F2].
  cbn in Hn1. pose proof (total_nonneg post F2).
  destruct chunk_geometry as (HCS & HH & HPG & HC & HN).
  assert (Hr : in_range c CS r).
  { cbn in Htot. rewrite (total_app (opt_free b)), (total_opt_free b) in Htot by done.
    unfold in_range, r. nia. }
  assert (Heq : used_list HD ((pre ++ opt_free a) ++ Used n :: opt_free b ++ post)
                = used_list HD pre ++ (HD + total pre + a, n) :: used_list (HD + total pre + a + n + b) post).
  { rewrite !used_list_app. cbn. rewrite used_list_opt_free by done.
    rewrite <- (app_nil_r (opt_free a)) at 1. rewrite used_list_opt_free, total_app, total_opt_free by done.
    cbn. rewrite app_nil_r. do 3 f_equal; [|f_equal]; lia. }
  assert (Er : r = c + (HD + total pre + a) * PG).
  { unfold r. rewrite total_app, total_opt_free by done. lia. }
  split.
  { apply HU; [done|]. rewrite Heq. eexists. split; [exact Er|]. set_solver. }
  intros r' m Hr'. specialize (HU r' m Hr'). rewrite Heq in HU.
  rewrite used_list_app. cbn. replace (HD + total pre + (n + a + b)) with (HD + total pre + a + n + b) by lia.
  destruct (decide (r' = r)) as [->|Hne].
  - rewrite lookup_delete_eq. split; [done|]. intros (j & Ej & Hj). rewrite Er in Ej.
    apply page_addr_inj in Ej. subst j.
    apply elem_of_app in Hj as [Hj|Hj]; apply used_list_bounds in Hj; auto; lia.
  - rewrite lookup_delete_ne, HU by done. split; intros (j & -> & Hj); exists j; (split; [done|]).
    + apply elem_of_app in Hj as [Hj|[[= -> ->]|Hj]%elem_of_cons]; [set_solver| |set_solver].
      by rewrite Er in Hne.
    + set_solver.
Qed.
End pages.

(** ** The invariant of the page-run layer *)

Section run_layer.
Context (cfg : config) {Hok : config_ok cfg}.
Context {V : VM} {VS : VMSpec V (pagesize cfg)}.
Local Notation PG := (pagesize cfg).
Local Notation CS := (chunksize cfg).
Local Notation N := (chunk_npages cfg).
Local Notation HD := (arena_chunk_header_npages cfg).
Local Notation ab := (opt_abort (opts cfg)).

(** The address range of a chunk: aligned, mapped, apart from huge objects. *)
Record chunk_placed (s : state) (c : Z) : Prop := mk_chunk_placed {
  cp_pos : 0 < c;
  cp_align : c mod CS = 0;
  cp_end : c + CS < 2 ^ 64;
  cp_mapped : forall x, in_range c CS x -> mapped (kernel s) x;
  cp_huge : Forall (fun m => forall x, in_range (chunk m) (size m) x -> ~ in_range c CS x) (huge s) }.

(** A chunk belongs to an arena that uses it or keeps it as its empty spare. *)
Definition chunk_used (h : heap) (c : Z) (ch : arena_chunk) (l : list seg) : Prop :=
  exists ar, get_arena h (chunk_arena ch) = Some ar /\
    (c ∈ chunks ar \/ (spare ar = Some c /\ l = [Free (N - HD)])).

Definition chunk_ok (h : heap) (U : gmap Z Z) (c : Z) (ch : arena_chunk) : Prop :=
  chunk_placed (lower h) c /\
  exists l, chunk_inv cfg ch l /\ runs_in cfg c l U /\ chunk_used h c ch l.

Record runs_inv (h : heap) (U : gmap Z Z) : Prop := mk_runs_inv {
  ri_lower : chunks_inv cfg (lower h);
  ri_chunk : forall c ch, chunk_hdrs h !! c = Some ch -> chunk_ok h U c ch;
  ri_listed : forall a ar c, get_arena h a = Some ar -> c ∈ chunks ar \/ spare ar = Some c ->
    exists ch, chunk_hdrs h !! c = Some ch /\ chunk_arena ch = a;
  ri_sorted : forall a ar, get_arena h a = Some ar -> StronglySorted Z.lt (chunks ar);
  ri_spare : forall a ar c, get_arena h a = Some ar -> spare ar = Some c -> c ∉ chunks ar;
  ri_run : forall r n, U !! r = Some n -> exists c ch, chunk_hdrs h !! c = Some ch /\ in_range c CS r }.

(** What an allocation step leaves alone. *)
Record grows (h h' : heap) : Prop := mk_grows {
  gr_keeps : keeps (kernel (lower h)) (kernel (lower h'));
  gr_bins : forall a, bins <$> get_arena h' a = bins <$> get_arena h a;
  gr_runs : run_hdrs h' = run_hdrs h;
  gr_huge : huge (lower h') = huge (lower h);
  gr_chunks : forall c ch, chunk_hdrs h !! c = Some ch ->
    exists ch', chunk_hdrs h' !! c = Some ch' /\ chunk_arena ch' = chunk_arena ch }.

Lemma grows_refl h : chunks_inv cfg (lower h) -> grows h h.
Proof. intros Hi. split; eauto. apply keeps_refl, Hi. Qed.

Lemma grows_trans h1 h2 h3 : grows h1 h2 -> grows h2 h3 -> grows h1 h3.
Proof.
  intros [A1 A2 A3 A4 A5] [B1 B2 B3 B4 B5]. split; [by eapply keeps_trans| | | |]; try congruence.
  intros c ch Hc. destruct (A5 c ch Hc) as (ch' & Hc' & E). destruct (B5 c ch' Hc') as (ch2 & ? & ?).
  exists ch2. split; [done|congruence].
Qed.

(** Replacing one chunk header, and the part of the map inside that chunk. *)
Lemma runs_inv_put h U c ch ch' l' U' :
  runs_inv h U -> chunk_hdrs h !! c = Some ch ->
  chunk_inv cfg ch' l' -> chunk_arena ch' = chunk_arena ch -> runs_in cfg c l' U' ->
  (forall r, ~ in_range c CS r -> U' !! r = U !! r) -> chunk_used h c ch' l' ->
  runs_inv (put_chunk h c ch') U' /\ grows h (put_chunk h c ch').
Proof.
  intros Hi Hc Hci Har Hri Hout Hus. pose proof Hi as [I1 I2 I3 I4 I5 I6].
  assert (Hlk : forall c2 ch2, chunk_hdrs h !! c2 = Some ch2 ->
    exists ch3, <[c := ch']> (chunk_hdrs h) !! c2 = Some ch3 /\ chunk_arena ch3 = chunk_arena ch2).
  { intros c2 ch2 Hc2. destruct (decide (c2 = c)) as [->|Hne].
    - exists ch'. rewrite lookup_insert_eq. split; [done|]. congruence.
    - exists ch2. by rewrite lookup_insert_ne. }
  split.
  - split; cbn; try done.
    + intros c2 ch2 Hc2. destruct (decide (c2 = c)) as [->|Hne].
      * rewrite lookup_insert_eq in Hc2. injection Hc2 as <-.
        split; [apply (I2 c ch Hc)|]. eauto.
      * rewrite lookup_insert_ne in Hc2 by done. destruct (I2 c2 ch2 Hc2) as (Hp & l & Hl1 & Hl2 & Hl3).
        split; [done|]. exists l. split; [done|]. split; [|done].
        eapply runs_in_frame; [exact Hl2|]. intros r Hr. apply Hout. intros Hr'.
        apply Hne. eapply chunks_apart; eauto; [apply Hp|apply (I2 c ch Hc)].
    + intros a ar c2 Ha Hl. destruct (I3 a ar c2 Ha Hl) as (ch2 & Hc2 & <-). eauto.
    + intros r n Hr. destruct (decide (in_range c CS r)) as [Hin|Hin].
      * exists c, ch'. by rewrite lookup_insert_eq.
      * rewrite Hout in Hr by done. destruct (I6 r n Hr) as (c2 & ch2 & Hc2 & Hr2).
        destruct (Hlk c2 ch2 Hc2) as (ch3 & ? & _). eauto.
  - split; cbn; try done. apply keeps_refl, I1.
Qed.

(** *** [arena_run_split] *)

Lemma arena_run_split_ok h U c ch pre n post need :
  runs_inv h U -> chunk_hdrs h !! c = Some ch ->
  chunk_inv cfg ch (pre ++ Free n :: post) -> runs_in cfg c (pre ++ Free n :: post) U ->
  (exists ar, get_arena h (chunk_arena ch) = Some ar /\ c ∈ chunks ar) -> 1 <= need <= n ->
  let r := c + (HD + total pre) * PG in
  exists h', arena_run_split cfg h r (need * PG) = Some h' /\
    U !! r = None /\ runs_inv h' (<[r := need]> U) /\ grows h h' /\ in_range c CS r.
Proof.
  intros Hi Hc Hci Hri Hus Hn r. destruct (chunk_geometry cfg) as (HCS & HH & HPG & HC & HN).
  destruct (ri_chunk _ _ Hi c ch Hc) as [Hp _].
  destruct (inv_split cfg _ _ _ Hci) as (_ & _ & Htot & Hpre & Hpost & F1 & F2).
  apply Forall_cons in F2 as [_ F2]. cbn in Htot, Hpost. pose proof (total_nonneg post F2).
  assert (Hr : in_range c CS r) by (unfold in_range, r; nia).
  destruct (run_split_ok cfg ch pre n post need Hci Hn) as (ch' & Es & Hci' & Har & _).
  destruct (runs_in_carve cfg c ch pre n post need U Hci Hri Hn) as [Hnone Hri'].
  exists (put_chunk h c ch'). unfold arena_run_split.
  rewrite (addr2base cfg c r) by (try apply Hp; try done; destruct Hp; lia).
  rewrite Hc, (pages_shiftr cfg) by lia. replace r with (c + (HD + total pre) * PG + 0) at 1 by (unfold r; lia).
  rewrite (page_index_ok cfg), Es by lia. split; [done|]. split; [done|].
  destruct (runs_inv_put h U c ch ch' (pre ++ carve need n ++ post) (<[r := need]> U)) as [Hi' Hg]; auto.
  - intros r' Hr'. rewrite lookup_insert_ne; [done|]. intros ->. done.
  - destruct Hus as (ar & Ha & Hin). exists ar. rewrite Har. eauto.
Qed.
(** *** Changing an arena or the lower layer *)

Lemma put_arena_ok h a ar ar' :
  get_arena h a = Some ar ->
  exists h', put_arena h a ar' = Some h' /\ lower h' = lower h /\
    chunk_hdrs h' = chunk_hdrs h /\ run_hdrs h' = run_hdrs h /\
    get_arena h' a = Some ar' /\ (forall b, b <> a -> get_arena h' b = get_arena h b) /\
    zlen (arenas h') = zlen (arenas h).
Proof.
  unfold get_arena, put_arena. intros Ha. destruct (zget (arenas h) a) as [o|] eqn:E; [|done].
  destruct (zset_is_Some (arenas h) a (Some ar')) as [l Hl]; [by eapply zget_Some_bound|].
  rewrite Hl. eexists. split; [done|]. cbn. do 3 (split; [done|]).
  split; [by rewrite (zget_zset_eq _ _ _ _ Hl)|]. split.
  - intros b Hb. by rewrite (zget_zset_ne _ _ _ _ _ Hl) by done.
  - by apply zlen_zset in Hl.
Qed.

Lemma chunk_placed_keeps s s' c :
  chunk_placed s c -> keeps (kernel s) (kernel s') -> huge s' = huge s -> chunk_placed s' c.
Proof.
  intros [P1 P2 P3 P4 P5] [_ Hk] Hh. split; auto; [|by rewrite Hh].
  intros x Hx. by apply Hk, P4.
Qed.

Lemma runs_inv_lower h U s' :
  runs_inv h U -> chunks_inv cfg s' -> keeps (kernel (lower h)) (kernel s') ->
  huge s' = huge (lower h) -> runs_inv (set_lower h s') U /\ grows h (set_lower h s').
Proof.
  intros [I1 I2 I3 I4 I5 I6] Hi' Hk Hh. split; [|split; cbn; eauto].
  split; cbn; try done. intros c ch Hc. destruct (I2 c ch Hc) as [Hp Hl].
  split; [|done]. by eapply chunk_placed_keeps.
Qed.

(** [ar'] takes the place of [ar]: its chunks and its spare. *)
Definition arena_chunks_ok (h : heap) (a : Z) (ar ar' : arena) : Prop :=
  StronglySorted Z.lt (chunks ar') /\
  (forall c, spare ar' = Some c -> c ∉ chunks ar') /\
  (forall c, c ∈ chunks ar' \/ spare ar' = Some c ->
     exists ch, chunk_hdrs h !! c = Some ch /\ chunk_arena ch = a) /\
  (forall c ch l, chunk_hdrs h !! c = Some ch -> chunk_arena ch = a -> chunk_inv cfg ch l ->
     c ∈ chunks ar \/ (spare ar = Some c /\ l = [Free (N - HD)]) ->
     c ∈ chunks ar' \/ (spare ar' = Some c /\ l = [Free (N - HD)])).

Lemma runs_inv_arena h U a ar ar' :
  runs_inv h U -> get_arena h a = Some ar -> bins ar' = bins ar -> arena_chunks_ok h a ar ar' ->
  exists h', put_arena h a ar' = Some h' /\ runs_inv h' U /\ grows h h' /\
    get_arena h' a = Some ar' /\ chunk_hdrs h' = chunk_hdrs h /\ lower h' = lower h.
Proof.
  intros [I1 I2 I3 I4 I5 I6] Ha Hb (S1 & S2 & S3 & S4).
  destruct (put_arena_ok h a ar ar' Ha) as (h' & -> & El & Ec & Er & Ea & Eo & _).
  exists h'. split; [done|].
  assert (Hget : forall b ar2, get_arena h' b = Some ar2 ->
            (b = a /\ ar2 = ar') \/ (b <> a /\ get_arena h b = Some ar2)).
  { intros b ar2 Hb2. destruct (decide (b = a)) as [->|Hne]; [left; split; congruence|].
    right. by rewrite <- Eo. }
  split; [|split; [|done]].
  - split; rewrite ?El, ?Ec; try done.
    + intros c ch Hc. destruct (I2 c ch Hc) as (Hp & l & Hl1 & Hl2 & ar2 & Har2 & Hin).
      split; [by rewrite El|]. exists l. do 2 (split; [done|]).
      destruct (decide (chunk_arena ch = a)) as [E|Hne].
      * exists ar'. rewrite E in *. split; [done|]. assert (ar2 = ar) as -> by congruence. by eapply S4.
      * exists ar2. by rewrite Eo.
    + intros b ar2 c Hb2 Hin. apply Hget in Hb2 as [[-> ->]|[_ Hb2]]; eauto.
    + intros b ar2 Hb2. apply Hget in Hb2 as [[-> ->]|[_ Hb2]]; eauto.
    + intros b ar2 c Hb2 Hs. apply Hget in Hb2 as [[-> ->]|[_ Hb2]]; eauto.
  - split; rewrite ?El, ?Ec, ?Er; eauto; [apply keeps_refl, I1|].
    intros b. destruct (decide (b = a)) as [->|Hne]; [|by rewrite Eo].
    rewrite Ea, Ha. cbn. by rewrite Hb.
Qed.

(** *** [arena_chunk_alloc] *)

(** A chunk of arena [a] with no run in it. *)
Definition empty_chunk_of (h : heap) (U : gmap Z Z) (a c : Z) : Prop :=
  exists ch ar, chunk_hdrs h !! c = Some ch /\ chunk_arena ch = a /\
    chunk_inv cfg ch [Free (N - HD)] /\ runs_in cfg c [Free (N - HD)] U /\
    get_arena h a = Some ar /\ c ∈ chunks ar.

Lemma spare_is_empty h U a ar c :
  runs_inv h U -> get_arena h a = Some ar -> spare ar = Some c ->
  exists ch, chunk_hdrs h !! c = Some ch /\ chunk_arena ch = a /\
    chunk_inv cfg ch [Free (N - HD)] /\ runs_in cfg c [Free (N - HD)] U.
Proof.
  intros Hi Ha Hs. destruct (ri_listed _ _ Hi a ar c Ha (or_intror Hs)) as (ch & Hc & Hca).
  exists ch. do 2 (split; [done|]).
  destruct (ri_chunk _ _ Hi c ch Hc) as (_ & l & Hl1 & Hl2 & ar2 & Har2 & Hin).
  assert (ar2 = ar) as -> by congruence.
  destruct Hin as [Hin|[_ ->]]; [|done]. by destruct (ri_spare _ _ Hi a ar c Ha Hs).
Qed.

Lemma take_spare h U a ar c :
  runs_inv h U -> get_arena h a = Some ar -> spare ar = Some c ->
  exists h', put_arena h a (mk_arena (addr_insert c (chunks ar)) None (bins ar)) = Some h' /\
    runs_inv h' U /\ grows h h' /\ empty_chunk_of h' U a c.
Proof.
  intros Hi Ha Hs. destruct (spare_is_empty h U a ar c Hi Ha Hs) as (ch & Hc & Hca & Hci & Hri).
  destruct (runs_inv_arena h U a ar (mk_arena (addr_insert c (chunks ar)) None (bins ar)))
    as (h' & E & Hi' & Hg & Ha' & Ec & _); auto.
  - split; [apply addr_insert_sorted; by eapply ri_sorted|]. split; [done|]. cbn. split.
    + intros c2 [Hin|?]; [|done]. apply addr_insert_elem in Hin as [->|Hin]; [eauto|].
      eapply ri_listed; eauto.
    + intros c2 ch2 l Hc2 Ha2 Hl [Hin|[Hs2 ->]]; left; apply addr_insert_elem; [by right|left; congruence].
  - exists h'. do 3 (split; [done|]). exists ch. eexists. rewrite Ec. do 4 (split; [done|]).
    split; [done|]. apply addr_insert_elem. by left.
Qed.
(** The headers written at a chunk that the kernel has just granted. *)
Lemma new_chunk h U a ar c s' ch :
  runs_inv h U -> get_arena h a = Some ar -> spare ar = None ->
  chunks_inv cfg s' -> huge s' = huge (lower h) ->
  grants (kernel (lower h)) c CS (kernel s') -> c mod CS = 0 ->
  chunk_init cfg a = Some ch ->
  exists h', put_arena (set_lower h s') a (mk_arena (addr_insert c (chunks ar)) None (bins ar)) = Some h' /\
    runs_inv (put_chunk h' c ch) U /\ grows h (put_chunk h' c ch) /\
    empty_chunk_of (put_chunk h' c ch) U a c.
Proof.
  intros Hi Ha Hs Hi' Hh (Hk & Hc0 & Hce & Hfresh & Hnew) Hal Einit.
  destruct (chunk_init_ok cfg a) as (ch0 & E0 & Hci & Hca & _).
  assert (ch0 = ch) as -> by congruence. clear E0 Einit.
  pose proof Hi as [I1 I2 I3 I4 I5 I6]. destruct (chunk_geometry cfg) as (_ & _ & _ & HC & _).
  assert (Hdis : forall c2 ch2 x, chunk_hdrs h !! c2 = Some ch2 -> in_range c2 CS x -> ~ in_range c CS x).
  { intros c2 ch2 x Hc2 Hx Hx'. apply (Hfresh x Hx'). by apply (I2 c2 ch2 Hc2). }
  assert (Hnone : chunk_hdrs h !! c = None).
  { apply eq_None_not_Some. intros [ch2 Hc2]. apply (Hdis c ch2 c Hc2); unfold in_range; lia. }
  assert (HU : runs_in cfg c [Free (N - HD)] U).
  { intros r m Hr. split; [|by intros (? & _ & ?%elem_of_nil)]. intros HUr.
    destruct (I6 r m HUr) as (c2 & ch2 & Hc2 & Hr2). by destruct (Hdis c2 ch2 r Hc2 Hr2). }
  set (ar' := mk_arena (addr_insert c (chunks ar)) None (bins ar)).
  destruct (put_arena_ok (set_lower h s') a ar ar' Ha) as (h' & -> & El & Ec & Er & Ea & Eo & _).
  exists h'. split; [done|].
  assert (Hin : c ∈ chunks ar') by (apply addr_insert_elem; by left).
  assert (Hget : forall b ar2, get_arena h' b = Some ar2 ->
            (b = a /\ ar2 = ar') \/ (b <> a /\ get_arena h b = Some ar2)).
  { intros b ar2 Hb2. destruct (decide (b = a)) as [->|Hne]; [left; split; congruence|].
    right. by rewrite Eo in Hb2. }
  split; [|split].
  - split; cbn; rewrite ?El, ?Ec; cbn; try done.
    + intros c2 ch2 Hc2. destruct (decide (c2 = c)) as [->|Hne].
      * rewrite lookup_insert_eq in Hc2. injection Hc2 as <-. split.
        -- cbn. rewrite El. split; auto; [intros x Hx; by apply Hnew|]. cbn. rewrite Hh.
           eapply Forall_impl; [apply (cs_huge _ _ I1)|]. intros m (_ & _ & _ & _ & Hm) x Hx Hx'.
           apply (Hfresh x Hx'). by apply Hm.
        -- exists [Free (N - HD)]. do 2 (split; [done|]). exists ar'. rewrite Hca. by eauto.
      * rewrite lookup_insert_ne in Hc2 by done. destruct (I2 c2 ch2 Hc2) as (Hp & l & Hl1 & Hl2 & ar2 & Har2 & Hin2).
        split; [cbn; rewrite El; by eapply chunk_placed_keeps|]. exists l. do 2 (split; [done|]).
        destruct (decide (chunk_arena ch2 = a)) as [E|Hne2].
        -- exists ar'. rewrite E in *. split; [done|]. assert (ar2 = ar) as -> by congruence.
           left. apply addr_insert_elem. destruct Hin2 as [?|[? _]]; [by right|congruence].
        -- exists ar2. split; [rewrite <- Har2; by apply Eo|done].
    + intros b ar2 c2 Hb2 Hl. apply Hget in Hb2 as [[-> ->]|[Hne Hb2]].
      * destruct Hl as [Hl|?]; [|done]. apply addr_insert_elem in Hl as [->|Hl].
        -- exists ch. by rewrite lookup_insert_eq.
        -- destruct (I3 a ar c2 Ha (or_introl Hl)) as (ch2 & Hc2 & E).
           exists ch2. rewrite lookup_insert_ne; [done|]. congruence.
      * destruct (I3 b ar2 c2 Hb2 Hl) as (ch2 & Hc2 & E).
        exists ch2. rewrite lookup_insert_ne; [done|]. congruence.
    + intros b ar2 Hb2. apply Hget in Hb2 as [[-> ->]|[_ Hb2]]; [|eauto].
      apply addr_insert_sorted; eauto.
    + intros b ar2 c2 Hb2 Hs2. apply Hget in Hb2 as [[-> ->]|[_ Hb2]]; [done|eauto].
    + intros r n HUr. destruct (I6 r n HUr) as (c2 & ch2 & Hc2 & Hr2). exists c2, ch2.
      rewrite lookup_insert_ne; [done|]. congruence.
  - split; cbn; rewrite ?El, ?Ec, ?Er; cbn; try done.
    + intros b. change (bins <$> get_arena h' b = bins <$> get_arena h b).
      destruct (decide (b = a)) as [->|Hne]; [by rewrite Ea, Ha|by rewrite Eo].
    + intros c2 ch2 Hc2. exists ch2. rewrite lookup_insert_ne; [done|]. congruence.
  - exists ch, ar'. cbn. rewrite lookup_insert_eq. do 4 (split; [done|]). done.
Qed.
Lemma arena_chunk_alloc_ok h U a ar :
  runs_inv h U -> get_arena h a = Some ar ->
  wp ab (arena_chunk_alloc cfg h a) (fun '(ro, h') =>
    runs_inv h' U /\ grows h h' /\
    match ro with Some c => empty_chunk_of h' U a c | None => True end).
Proof.
  intros Hi Ha. unfold arena_chunk_alloc. rewrite Ha. cbn [lift].
  destruct (spare ar) as [c|] eqn:Es.
  - destruct (take_spare h U a ar c Hi Ha Es) as (h' & -> & Hi' & Hg & He). cbn. done.
  - destruct (chunk_geometry cfg) as (_ & _ & _ & HC & _).
    apply wp_bind. apply wp_of_safe; [apply chunk_alloc_safe|]. intros [ro s'] E.
    apply (chunk_alloc_ok cfg) in E as (Hk & Hh & Hi' & Hg); [|apply Hi|lia|apply Z.mod_same; lia].
    destruct ro as [c|]; [|cbn; by destruct (runs_inv_lower h U s' Hi Hi' Hk Hh)].
    destruct (chunk_init_ok cfg a) as (ch & Einit & _). rewrite Einit. cbn [lift].
    destruct (new_chunk h U a ar c s' ch) as (h' & -> & Hi2 & Hg2 & He); auto; try apply Hg. done.
Qed.

(** *** [arena_run_alloc] *)

Lemma search_chunks_ok cs h U a ar need :
  runs_inv h U -> get_arena h a = Some ar -> (forall c, c ∈ cs -> c ∈ chunks ar) ->
  1 <= need <= N - HD ->
  wp ab (search_chunks cfg cs h (need * PG) need) (fun '(ro, h') =>
    grows h h' /\
    match ro with
    | Some r => U !! r = None /\ runs_inv h' (<[r := need]> U) /\
        exists c ch, c ∈ cs /\ in_range c CS r /\ chunk_hdrs h' !! c = Some ch /\ chunk_arena ch = a
    | None => runs_inv h' U /\ get_arena h' a = Some ar
    end).
Proof.
  intros Hi Ha Hcs Hn. destruct (chunk_geometry cfg) as (_ & HH & _).
  revert h Hi Ha. induction cs as [|c cs IH]; intros h Hi Ha; cbn [search_chunks].
  { split; [apply grows_refl, Hi|done]. }
  specialize (IH (fun c Hc => Hcs c (list_elem_of_further _ _ _ Hc))).
  assert (Hin : c ∈ chunks ar) by (apply Hcs; set_solver).
  destruct (ri_listed _ _ Hi a ar c Ha (or_introl Hin)) as (ch & Hc & Hca).
  rewrite Hc. cbn [lift].
  assert (Hnext : forall h1, grows h h1 -> runs_inv h1 U -> get_arena h1 a = Some ar ->
    wp ab (search_chunks cfg cs h1 (need * PG) need) (fun '(ro, h') =>
    grows h h' /\
    match ro with
    | Some r => U !! r = None /\ runs_inv h' (<[r := need]> U) /\
        exists c0 ch, c0 ∈ c :: cs /\ in_range c0 CS r /\ chunk_hdrs h' !! c0 = Some ch /\ chunk_arena ch = a
    | None => runs_inv h' U /\ get_arena h' a = Some ar
    end)).
  { intros h1 Hg Hi1 Ha1. eapply wp_mono; [by apply IH|]. intros [[r|] h2] _ [Hg2 Hr]; cbn in *;
      (split; [by eapply grows_trans|]); [|done]. destruct Hr as (Hn1 & Hi2 & c2 & ch2 & Hc2 & ?).
    do 2 (split; [done|]). exists c2, ch2. split; [set_solver|done]. }
  destruct (may_fit cfg ch need); [|by apply Hnext; [apply grows_refl, Hi| |]].
  destruct (ri_chunk _ _ Hi c ch Hc) as (Hp & l & Hl1 & Hl2 & Hus).
  rewrite (search_chunk_ok cfg ch l need Hl1). cbn [lift].
  destruct (first_fit need HD l) as [j|] eqn:Ef.
  - apply (first_fit_Some cfg) in Ef as (pre & n & post & -> & -> & Hle & _).
    destruct (inv_split cfg _ _ _ Hl1) as (_ & _ & Htot & Hpre & _ & F1 & F2).
    apply Forall_cons in F2 as [Hn1 F2]. cbn in Htot, Hn1. pose proof (total_nonneg post F2).
    rewrite (page_addr_ok cfg) by (destruct Hp; lia).
    destruct (runs_inv_put h U c ch ch (pre ++ Free n :: post) U) as [Hi1 Hg1]; auto.
    destruct (arena_run_split_ok (put_chunk h c ch) U c ch pre n post need)
      as (h' & -> & Hnone & Hi' & Hg' & Hr); auto; [cbn; by rewrite lookup_insert_eq|rewrite Hca; eauto|lia|].
    cbn. split; [by eapply grows_trans|]. do 2 (split; [done|]).
    destruct (gr_chunks _ _ Hg' c ch) as (ch' & Hc' & E'); [cbn; by rewrite lookup_insert_eq|].
    exists c, ch'. split; [set_solver|]. split; [done|]. split; [done|]. congruence.
  - apply (first_fit_None cfg) in Ef; [|lia].
    destruct (runs_inv_put h U c ch (set_max_frun ch (max_free l)) l U) as [Hi1 Hg1]; auto.
    by apply set_max_frun_inv.
Qed.

Lemma arena_run_alloc_ok h U a ar need :
  runs_inv h U -> get_arena h a = Some ar -> 1 <= need <= N - HD ->
  wp ab (arena_run_alloc cfg h a (need * PG)) (fun '(ro, h') =>
    grows h h' /\
    match ro with
    | Some r => U !! r = None /\ runs_inv h' (<[r := need]> U) /\
        exists c ch, in_range c CS r /\ chunk_hdrs h' !! c = Some ch /\ chunk_arena ch = a
    | None => runs_inv h' U
    end).
Proof.
  intros Hi Ha Hn. destruct (chunk_geometry cfg) as (_ & HH & _).
  unfold arena_run_alloc. rewrite Ha, (pages_shiftr cfg) by lia. cbn [lift].
  apply wp_bind. eapply wp_mono; [by apply (search_chunks_ok _ h U a ar)|].
  intros [[r|] h1] _ [Hg1 Hr]; cbn in Hr.
  { destruct Hr as (Hnone & Hi1 & c & ch & _ & Hr & Hc & Hca). cbn. split; [done|].
    split; [done|]. split; [done|]. by exists c, ch. }
  destruct Hr as [Hi1 Ha1]. apply wp_bind. eapply wp_mono; [by eapply arena_chunk_alloc_ok|].
  intros [[c|] h2] _ (Hi2 & Hg2 & He); [|cbn; split; [by eapply grows_trans|done]].
  destruct He as (ch & ar2 & Hc & Hca & Hci & Hri & Ha2 & Hin).
  destruct (ri_chunk _ _ Hi2 c ch Hc) as (Hp & _).
  rewrite (page_addr_ok cfg) by (destruct Hp; lia).
  destruct (arena_run_split_ok h2 U c ch [] (N - HD) [] need)
    as (h' & E & Hnone & Hi' & Hg' & Hr); auto; [rewrite Hca; eauto|].
  cbn [total] in *. rewrite Z.add_0_r in *. rewrite E. cbn.
  split; [eapply grows_trans; [exact Hg1|by eapply grows_trans]|].
  do 2 (split; [done|]). destruct (gr_chunks _ _ Hg' c ch Hc) as (ch' & Hc' & E').
  exists c, ch'. split; [done|]. split; [done|congruence].
Qed.
(** *** [arena_chunk_dealloc] *)

(** What a release step leaves alone: contents outside [[p, p + n)] of every byte
    that still belongs to a chunk or to a huge object. *)
Record shrinks (p n : Z) (h h' : heap) : Prop := mk_shrinks {
  sh_vm : forall x, mapped (kernel (lower h)) x -> ~ in_range p n x ->
    (exists c ch, chunk_hdrs h' !! c = Some ch /\ in_range c CS x) \/
    (exists m, m ∈ huge (lower h) /\ in_range (chunk m) (size m) x) ->
    vm_read (kernel (lower h')) x = vm_read (kernel (lower h)) x;
  sh_bins : forall a, bins <$> get_arena h' a = bins <$> get_arena h a;
  sh_runs : run_hdrs h' = run_hdrs h;
  sh_huge : huge (lower h') = huge (lower h);
  sh_chunks : forall c ch', chunk_hdrs h' !! c = Some ch' ->
    exists ch, chunk_hdrs h !! c = Some ch /\ chunk_arena ch' = chunk_arena ch }.

(** Arena [a] gives up some of its empty chunks. *)
Lemma runs_inv_release h U a ar h' ar' :
  runs_inv h U -> get_arena h a = Some ar ->
  chunks_inv cfg (lower h') ->
  get_arena h' a = Some ar' -> (forall b, b <> a -> get_arena h' b = get_arena h b) ->
  (forall c ch, chunk_hdrs h' !! c = Some ch -> chunk_hdrs h !! c = Some ch /\ chunk_placed (lower h') c) ->
  (forall c ch, chunk_hdrs h !! c = Some ch -> chunk_hdrs h' !! c = None ->
     chunk_arena ch = a /\ (forall r, in_range c CS r -> U !! r = None)) ->
  arena_chunks_ok h' a ar ar' ->
  runs_inv h' U.
Proof.
  intros [I1 I2 I3 I4 I5 I6] Ha Hl Ea Eo Hsub Hdrop (S1 & S2 & S3 & S4).
  assert (Hget : forall b ar2, get_arena h' b = Some ar2 ->
            (b = a /\ ar2 = ar') \/ (b <> a /\ get_arena h b = Some ar2)).
  { intros b ar2 Hb2. destruct (decide (b = a)) as [->|Hne]; [left; split; congruence|].
    right. by rewrite Eo in Hb2. }
  split; [done| | | | |].
  - intros c ch Hc'. destruct (Hsub c ch Hc') as [Hc Hp].
    destruct (I2 c ch Hc) as (_ & l & Hl1 & Hl2 & ar2 & Har2 & Hin). split; [done|].
    exists l. do 2 (split; [done|]). destruct (decide (chunk_arena ch = a)) as [E|Hne].
    + exists ar'. rewrite E in *. split; [done|]. assert (ar2 = ar) as -> by congruence. by eapply S4.
    + exists ar2. by rewrite Eo.
  - intros b ar2 c Hb2 Hin. apply Hget in Hb2 as [[-> ->]|[Hne Hb2]]; [by apply S3|].
    destruct (I3 b ar2 c Hb2 Hin) as (ch & Hc & Hca). exists ch. split; [|done].
    destruct (chunk_hdrs h' !! c) as [ch'|] eqn:Hc'; [destruct (Hsub c ch' Hc'); congruence|].
    destruct (Hdrop c ch Hc Hc'); congruence.
  - intros b ar2 Hb2. apply Hget in Hb2 as [[-> ->]|[_ Hb2]]; eauto.
  - intros b ar2 c Hb2 Hs. apply Hget in Hb2 as [[-> ->]|[_ Hb2]]; eauto.
  - intros r n HUr. destruct (I6 r n HUr) as (c & ch & Hc & Hr). exists c, ch. split; [|done].
    destruct (chunk_hdrs h' !! c) as [ch'|] eqn:Hc'; [destruct (Hsub c ch' Hc'); congruence|].
    destruct (Hdrop c ch Hc Hc') as [_ Hn]. by rewrite Hn in HUr.
Qed.

Lemma runs_in_empty c U r :
  runs_in cfg c [Free (N - HD)] U -> in_range c CS r -> U !! r = None.
Proof.
  intros HU Hr. apply eq_None_not_Some. intros [m Hm].
  by apply HU in Hm as (j & _ & ?%elem_of_nil).
Qed.

(** Unmapping a chunk leaves the other chunks and the huge objects alone. *)
Lemma dealloc_placed s c s' :
  chunks_inv cfg s -> chunk_placed s c -> chunk_dealloc cfg s c CS = Ok s' ->
  chunks_inv cfg s' /\ huge s' = huge s /\
  (forall x, mapped (kernel s) x -> ~ in_range c CS x ->
     mapped (kernel s') x /\ vm_read (kernel s') x = vm_read (kernel s) x) /\
  (forall c', chunk_placed s c' -> c' <> c -> chunk_placed s' c').
Proof.
  intros Hi [P1 P2 P3 P4 P5] E. destruct (chunk_dealloc_ok cfg s c CS s') as (Hi' & Hh & Hk); auto.
  do 3 (split; [done|]). intros c' [Q1 Q2 Q3 Q4 Q5] Hne. split; auto; [|by rewrite Hh].
  intros x Hx. apply Hk; [by apply Q4|]. intros Hx'. apply Hne. by eapply chunks_apart.
Qed.

Lemma bins_same h h' a ar ar' :
  get_arena h a = Some ar -> get_arena h' a = Some ar' -> bins ar' = bins ar ->
  (forall b, b <> a -> get_arena h' b = get_arena h b) ->
  forall b, bins <$> get_arena h' b = bins <$> get_arena h b.
Proof.
  intros Ha Ha' Hb Ho b. destruct (decide (b = a)) as [->|?]; [|by rewrite Ho].
  rewrite Ha, Ha'. cbn. by rewrite Hb.
Qed.

(** Unmapping the empty chunk [d] of arena [a] and forgetting its header. *)
Lemma drop_empty h U a ar d chd s' h' ar' :
  runs_inv h U -> get_arena h a = Some ar ->
  chunk_hdrs h !! d = Some chd -> chunk_arena chd = a -> runs_in cfg d [Free (N - HD)] U ->
  chunk_dealloc cfg (lower h) d CS = Ok s' ->
  lower h' = s' -> chunk_hdrs h' = delete d (chunk_hdrs h) -> run_hdrs h' = run_hdrs h ->
  get_arena h' a = Some ar' -> (forall b, b <> a -> get_arena h' b = get_arena h b) ->
  bins ar' = bins ar -> arena_chunks_ok h' a ar ar' ->
  runs_inv h' U /\ shrinks 0 0 h h'.
Proof.
  intros Hi Ha Hd Hda Hri Ed El Ec Er Ea Eo Eb Hok'. pose proof Hi as [I1 I2 I3 I4 I5 I6].
  assert (Hplaced : forall c2 ch2, chunk_hdrs h !! c2 = Some ch2 -> chunk_placed (lower h) c2)
    by (intros c2 ch2 Hc2; apply (I2 c2 ch2 Hc2)).
  destruct (dealloc_placed (lower h) d s') as (Hi' & Hh & Hk & Hpl); eauto. subst s'.
  assert (Hsub : forall c2 ch2, chunk_hdrs h' !! c2 = Some ch2 ->
            chunk_hdrs h !! c2 = Some ch2 /\ c2 <> d).
  { rewrite Ec. intros c2 ch2 [Hne Hc2]%lookup_delete_Some. done. }
  split; [eapply runs_inv_release; eauto|].
  - intros c2 ch2 Hc2. destruct (Hsub c2 ch2 Hc2). eauto.
  - rewrite Ec. intros c2 ch2 Hc2 [<-|Hn]%lookup_delete_None; [|congruence].
    split; [congruence|]. intros r Hr. by eapply runs_in_empty.
  - split; auto; [|by eapply bins_same|intros c2 ch2 Hc2; destruct (Hsub c2 ch2 Hc2); eauto].
    intros x Hx _ Hl. apply Hk; [done|]. intros Hxd. destruct Hl as [(c2 & ch2 & Hc2 & Hx2)|(m & Hm & Hx2)].
    + destruct (Hsub c2 ch2 Hc2) as [Hc2' Hne]. apply Hne. destruct (Hplaced c2 ch2 Hc2'), (Hplaced d chd Hd).
      by eapply chunks_apart.
    + pose proof (cp_huge _ _ (Hplaced d chd Hd)) as Hhu. rewrite Forall_forall in Hhu. by apply (Hhu m Hm x).
Qed.

Lemma arena_chunk_dealloc_ok h U a c :
  runs_inv h U -> empty_chunk_of h U a c ->
  wp ab (arena_chunk_dealloc cfg h a c) (fun h' => runs_inv h' U /\ shrinks 0 0 h h').
Proof.
  intros Hi (ch & ar & Hc & Hca & Hci & Hri & Ha & Hin). pose proof Hi as [I1 I2 I3 I4 I5 I6].
  unfold arena_chunk_dealloc. rewrite Hc. cbn [lift]. rewrite Hca, Ha. cbn [lift].
  destruct (put_arena_ok h a ar (mk_arena (addr_remove c (chunks ar)) (spare ar) (bins ar)) Ha)
    as (h1 & -> & El1 & Ec1 & Er1 & Ea1 & Eo1 & _). cbn [lift].
  pose proof (I4 a ar Ha) as Hsort. pose proof (addr_remove_sorted c _ Hsort) as Hsort'.
  assert (Hrem : forall x, x ∈ addr_remove c (chunks ar) <-> x ∈ chunks ar /\ x <> c)
    by (intros x; by apply addr_remove_elem).
  assert (Hnew : forall l, chunk_inv cfg ch l -> l = [Free (N - HD)]).
  { intros l Hl. apply (empty_chunk cfg ch l Hl). by apply (empty_chunk cfg ch _ Hci). }
  set (ar1 := mk_arena (addr_remove c (chunks ar)) (Some c) (bins ar)).
  assert (Hspare : forall h', (forall c2, c2 ∈ chunks ar -> chunk_hdrs h' !! c2 = chunk_hdrs h !! c2) ->
    (forall c2 ch2, chunk_hdrs h' !! c2 = Some ch2 -> chunk_hdrs h !! c2 = Some ch2 /\ spare ar <> Some c2) ->
    arena_chunks_ok h' a ar ar1).
  { intros h' Hkeep Hsub. split; [done|]. cbn. split; [intros c2 [= <-] [_ ?]%Hrem; done|]. split.
    - intros c2 Hl. assert (Hc2 : c2 ∈ chunks ar) by (destruct Hl as [[? _]%Hrem|[= <-]]; done).
      destruct (I3 a ar c2 Ha (or_introl Hc2)) as (ch2 & ? & ?). exists ch2. by rewrite Hkeep.
    - intros c2 ch2 l Hc2 _ Hl [Hl2|[Hs _]]; [|by destruct (Hsub c2 ch2 Hc2)].
      destruct (decide (c2 = c)) as [->|Hne]; [right|left; by apply Hrem].
      split; [done|]. apply Hnew. destruct (Hsub c ch2 Hc2). congruence. }
  destruct (opt_hint (opts cfg)); cbn [negb].
  - apply wp_bind. apply wp_of_safe; [apply chunk_dealloc_safe|]. intros s' Es. rewrite El1 in Es. cbn [wp].
    eapply drop_empty; [exact Hi|exact Ha|exact Hc|..]; try done; [cbn; by rewrite Ec1|].
    split; [done|]. cbn. rewrite Ec1. split; [intros c2 Hs2 [? _]%Hrem; by eapply I5|]. split.
    + intros c2 Hl. assert (Hne : c2 <> c).
      { destruct Hl as [[_ ?]%Hrem|Hl]; [done|]. intros ->. by eapply I5. }
      destruct (I3 a ar c2 Ha) as (ch2 & Hc2 & ?).
      { destruct Hl as [[? _]%Hrem|Hl]; [by left|by right]. }
      exists ch2. by rewrite lookup_delete_ne by done.
    + intros c2 ch2 l [Hne _]%lookup_delete_Some _ Hl [Hl2|?]; [left; by apply Hrem|by right].
  - rewrite Ea1. cbn [lift chunks spare bins]. fold ar1. destruct (spare ar) as [sp|] eqn:Esp.
    + destruct (spare_is_empty h U a ar sp Hi Ha Esp) as (chs & Hsp & Hspa & _ & Hsri).
      apply wp_bind. apply wp_bind. apply wp_of_safe; [apply chunk_dealloc_safe|].
      intros s' Es. rewrite El1 in Es. cbn [wp].
      destruct (put_arena_ok (drop_chunk (set_lower h1 s') sp) a _ ar1 Ea1)
        as (h2 & -> & El2 & Ec2 & Er2 & Ea2 & Eo2 & _). cbn [lift wp].
      assert (Hsub : chunk_hdrs h2 = delete sp (chunk_hdrs h)) by (rewrite Ec2; cbn; by rewrite Ec1).
      eapply drop_empty; [exact Hi|exact Ha|exact Hsp|..]; try done.
      * rewrite Er2. done.
      * intros b Hb. rewrite Eo2 by done. by apply Eo1.
      * apply Hspare; rewrite Hsub.
        -- intros c2 Hc2. rewrite lookup_delete_ne; [done|]. intros ->. by eapply I5.
        -- intros c2 ch2 [Hne Hc2]%lookup_delete_Some. split; [done|congruence].
    + cbn [wp].
      destruct (put_arena_ok h1 a _ ar1 Ea1) as (h2 & E2 & El2 & Ec2 & Er2 & Ea2 & Eo2 & _).
      cbn. rewrite E2. cbn [lift wp].
      assert (Hsub : chunk_hdrs h2 = chunk_hdrs h) by congruence.
      assert (Ell : lower h2 = lower h) by congruence.
      assert (Eoo : forall b, b <> a -> get_arena h2 b = get_arena h b)
        by (intros b Hb; rewrite Eo2 by done; by apply Eo1).
      split; [eapply runs_inv_release; [exact Hi|exact Ha|by rewrite Ell|exact Ea2|done|..]|].
      * rewrite Hsub, Ell. intros c2 ch2 Hc2. split; [done|]. apply (I2 c2 ch2 Hc2).
      * rewrite Hsub. congruence.
      * apply Hspare; rewrite Hsub; [done|]. intros c2 ch2 Hc2. split; [done|congruence].
      * split; rewrite ?Ell, ?Hsub; eauto; [by eapply bins_same|congruence].
Qed.
(** *** [arena_run_dalloc] *)

Lemma shrinks_trans p n q m h1 h2 h3 :
  (forall x, mapped (kernel (lower h1)) x -> mapped (kernel (lower h2)) x) ->
  (forall x, in_range q m x -> in_range p n x) ->
  shrinks p n h1 h2 -> shrinks q m h2 h3 -> shrinks p n h1 h3.
Proof.
  intros Hm Hq [A1 A2 A3 A4 A5] [B1 B2 B3 B4 B5].
  assert (H5 : forall c ch', chunk_hdrs h3 !! c = Some ch' ->
    exists ch, chunk_hdrs h1 !! c = Some ch /\ chunk_arena ch' = chunk_arena ch).
  { intros c ch3 Hc3. destruct (B5 c ch3 Hc3) as (ch2 & Hc2 & E2). destruct (A5 c ch2 Hc2) as (ch1 & ? & ?).
    exists ch1. split; [done|congruence]. }
  split; [|congruence|congruence|congruence|done].
  intros x Hx Hn Hl. rewrite B1, A1; auto.
  - destruct Hl as [(c & ch3 & Hc3 & Hxc)|?]; [left|by right].
    destruct (B5 c ch3 Hc3) as (ch2 & ? & _). eauto.
  - by rewrite A4.
Qed.

(** Writing to memory, or dropping the contents of a range. *)
Lemma chunks_inv_write s f :
  chunks_inv cfg s -> vm_ok (f (kernel s)) ->
  (forall x, mapped (f (kernel s)) x <-> mapped (kernel s) x) ->
  chunks_inv cfg (set_kernel s (f (kernel s))).
Proof.
  intros [C1 C2 C3 C4 C5] Hok' Hm. split; cbn; auto. eapply Forall_impl; [exact C5|].
  intros m (M1 & M2 & M3 & M4 & M5). do 4 (split; [done|]). intros x Hx. by apply Hm, M5.
Qed.

Lemma runs_inv_write h U f :
  runs_inv h U -> vm_ok (f (kernel (lower h))) ->
  (forall x, mapped (f (kernel (lower h))) x <-> mapped (kernel (lower h)) x) ->
  runs_inv (write_vm h f) U.
Proof.
  intros [I1 I2 I3 I4 I5 I6] Hok' Hm. split; cbn; try done; [by apply chunks_inv_write|].
  intros c ch Hc. destruct (I2 c ch Hc) as [[P1 P2 P3 P4 P5] Hl]. split; [|done].
  split; cbn; auto. intros x Hx. by apply Hm, P4.
Qed.

(** The chunk a run lies in, and where. *)
Lemma run_chunk h U r n :
  runs_inv h U -> U !! r = Some n ->
  exists c ch pre post ar, chunk_hdrs h !! c = Some ch /\ chunk_placed (lower h) c /\
    CHUNK_ADDR2BASE cfg r = c /\ in_range c CS r /\
    chunk_inv cfg ch (pre ++ Used n :: post) /\ runs_in cfg c (pre ++ Used n :: post) U /\
    r = c + (HD + total pre) * PG /\ 1 <= n /\ 0 <= total pre /\ HD + total pre + n <= N /\
    get_arena h (chunk_arena ch) = Some ar /\ c ∈ chunks ar.
Proof.
  intros Hi HUr. destruct (ri_run _ _ Hi r n HUr) as (c & ch & Hc & Hr).
  destruct (ri_chunk _ _ Hi c ch Hc) as (Hp & l & Hl1 & Hl2 & ar & Har & Hin).
  pose proof HUr as HUr'. apply Hl2 in HUr' as (j & Ej & Hj); [|done].
  apply used_list_split in Hj as Hsp. destruct Hsp as (pre & post & -> & ->).
  destruct (inv_split cfg _ _ _ Hl1) as (_ & _ & Htot & Hpre & _ & F1 & F2).
  apply Forall_cons in F2 as [Hn1 F2]. cbn in Htot, Hn1. pose proof (total_nonneg post F2).
  exists c, ch, pre, post, ar. do 2 (split; [done|]).
  split; [apply addr2base; try done; destruct Hp; auto; lia|].
  do 4 (split; [done|]). split; [lia|]. split; [lia|]. split; [lia|]. split; [done|].
  destruct Hin as [Hin|[_ Hl]]; [done|]. by destruct pre as [|? [|]].
Qed.

(** The [opt_hint] advice only affects the released pages. *)
Lemma hint_ok h U r n :
  runs_inv h U ->
  let h0 := if opt_hint (opts cfg) then write_vm h (fun v => madvise v r n) else h in
  runs_inv h0 U /\ chunk_hdrs h0 = chunk_hdrs h /\ arenas h0 = arenas h /\
  run_hdrs h0 = run_hdrs h /\ huge (lower h0) = huge (lower h) /\
  (forall x, mapped (kernel (lower h0)) x <-> mapped (kernel (lower h)) x) /\
  (forall x, ~ in_range r n x -> vm_read (kernel (lower h0)) x = vm_read (kernel (lower h)) x).
Proof.
  intros Hi. cbv zeta. destruct (opt_hint _); [|done]. cbn.
  split; [apply runs_inv_write; [done|apply madvise_ok, (ri_lower _ _ Hi)|intros; apply madvise_mapped]|].
  do 4 (split; [done|]). split; [intros; apply madvise_mapped|]. intros x Hx. by apply madvise_out.
Qed.

Lemma arena_run_dalloc_ok h U a r n :
  runs_inv h U -> U !! r = Some n ->
  chunk_arena <$> chunk_hdrs h !! CHUNK_ADDR2BASE cfg r = Some a ->
  wp ab (arena_run_dalloc cfg h a r (n * PG)) (fun h' =>
    runs_inv h' (delete r U) /\ shrinks r (n * PG) h h').
Proof.
  intros Hi HUr Hown. destruct (chunk_geometry cfg) as (HCS & HH & HPG & HC & HN).
  destruct (run_chunk h U r n Hi HUr)
    as (c & ch & pre & post & ar & Hc & Hp & Eb & Hr & Hci & Hri & Er & Hn & Hpre & Hend & Ha & Hin).
  rewrite Eb, Hc in Hown. injection Hown as Hca. rewrite Hca in Ha.
  unfold arena_run_dalloc. rewrite Eb, Hc. cbn [lift].
  set (h0 := if opt_hint (opts cfg) then _ else h).
  pose proof (hint_ok h U r (n * PG) Hi) as H0. cbv zeta in H0. fold h0 in H0.
  destruct H0 as (Hi0 & Ec0 & Ea0 & Er0 & Eh0 & Em0 & Ev0). clearbody h0.
  assert (Eg0 : forall b, get_arena h0 b = get_arena h b) by (intros b; unfold get_arena; by rewrite Ea0).
  rewrite (pages_shiftr cfg) by lia. replace (page_index cfg c r) with (HD + total pre).
  2:{ rewrite Er. replace (c + _) with (c + (HD + total pre) * PG + 0) by lia.
      by rewrite (page_index_ok cfg) by lia. }
  destruct (run_dalloc_any cfg ch pre n post Hci)
    as (ch' & pre' & x & y & post' & Hx & Hy & -> & -> & -> & Hci' & Hca'). cbn [lift].
  destruct (runs_in_free cfg c ch pre' x n y post' U Hci Hri Hx Hy) as [_ Hri']. rewrite <- Er in Hri'.
  destruct (runs_inv_put h0 U c ch ch' (pre' ++ Free (n + x + y) :: post') (delete r U)) as [Hi1 Hg1]; auto.
  - by rewrite Ec0.
  - intros r' Hr'. rewrite lookup_delete_ne; [done|]. congruence.
  - exists ar. rewrite Hca', Hca, Eg0. eauto.
  - assert (Hs1 : shrinks r (n * PG) h (put_chunk h0 c ch')).
    { split; cbn; auto.
      - intros b. exact (f_equal (fmap bins) (Eg0 b)).
      - rewrite Ec0. intros c2 ch2 [[<- <-]|[Hne Hc2]]%lookup_insert_Some; eauto. }
    destruct (pages_used ch' =? 0) eqn:Eu; b2p; [|done].
    apply (empty_chunk cfg ch' _ Hci') in Eu. rewrite Eu in *.
    eapply wp_mono; [apply (arena_chunk_dealloc_ok _ (delete r U)); [done|]|].
    + exists ch', ar. cbn. rewrite lookup_insert_eq, Hca', Hca.
      do 4 (split; [done|]). split; [|done]. rewrite <- Ha. exact (Eg0 a).
    + intros h' _ [Hi' Hs']. split; [done|]. eapply shrinks_trans; [| |done|done].
      * intros z Hz. cbn. by apply Em0.
      * unfold in_range. lia.
Qed.
(** *** Where the runs are *)

Lemma run_placed h U r n x :
  runs_inv h U -> U !! r = Some n -> in_range r (n * PG) x ->
  0 < r /\ r + n * PG < 2 ^ 64 /\ mapped (kernel (lower h)) x /\
  CHUNK_ADDR2BASE cfg x = CHUNK_ADDR2BASE cfg r /\
  (exists ch, chunk_hdrs h !! CHUNK_ADDR2BASE cfg r = Some ch /\ in_range (CHUNK_ADDR2BASE cfg r) CS x) /\
  (forall m, m ∈ huge (lower h) -> ~ in_range (chunk m) (size m) x).
Proof.
  intros Hi HUr Hx. destruct (chunk_geometry cfg) as (HCS & HH & HPG & HC & HN).
  destruct (run_chunk h U r n Hi HUr)
    as (c & ch & pre & post & ar & Hc & Hp & Eb & Hr & _ & _ & Er & Hn & Hpre & Hend & _).
  set (k := HD + total pre) in *. assert (Hk : 0 <= k * PG) by nia.
  assert (Hk2 : k * PG + n * PG <= CS) by (rewrite HCS, <- Z.mul_add_distr_r; nia).
  assert (Hxc : in_range c CS x) by (unfold in_range in *; lia). rewrite Eb. pose proof Hp as [P1 P2 P3 P4 P5].
  split; [lia|]. split; [lia|]. split; [by apply P4|]. split; [apply addr2base; auto; lia|].
  split; [eauto|]. rewrite Forall_forall in P5. intros m Hm Hxm. by apply (P5 m Hm x).
Qed.

Lemma runs_disjoint h U r n r' n' x :
  runs_inv h U -> U !! r = Some n -> U !! r' = Some n' ->
  in_range r (n * PG) x -> in_range r' (n' * PG) x -> r = r'.
Proof.
  intros Hi HU HU' Hx Hx'. destruct (chunk_geometry cfg) as (HCS & HH & HPG & HC & HN).
  destruct (run_placed h U r n x Hi HU Hx) as (_ & _ & _ & Eb & _).
  destruct (run_placed h U r' n' x Hi HU' Hx') as (_ & _ & _ & Eb' & _).
  destruct (run_chunk h U r n Hi HU)
    as (c & ch & pre & post & ar & Hc & Hp & Ec & Hr & Hci & Hri & Er & Hn & Hpre & Hend & _).
  destruct (run_chunk h U r' n' Hi HU') as (c' & ch' & _ & _ & _ & _ & _ & Ec' & Hr' & _).
  assert (c' = c) as -> by congruence. apply Hri in HU as (j & Ej & Hj); [|done].
  apply Hri in HU' as (j' & Ej' & Hj'); [|done].
  destruct (inv_split cfg ch [] _ Hci) as (_ & _ & _ & _ & _ & _ & F).
  destruct (used_list_disjoint HD _ j n j' n' F Hj Hj') as [[-> _]|Hd]; [congruence|].
  assert (j * PG + n * PG <= j' * PG \/ j' * PG + n' * PG <= j * PG).
  { clear -Hd HPG. destruct Hd; [left|right]; rewrite <- Z.mul_add_distr_r; apply Z.mul_le_mono_nonneg_r; lia. }
  unfold in_range in Hx, Hx'. lia.
Qed.
End run_layer.
