(* ===== verification/JHeap.v ===== *)
(** * jalloc: the blocks of the arenas

    The invariant of bins and small runs on top of the page-run layer of [JPages],
    and the abstract view of the whole allocator: a finite map from the addresses
    of the allocated blocks (regions of small runs, large runs, huge objects) to
    their usable sizes.  [arena_malloc], [arena_dalloc] and [arena_salloc] of
    [src/util/private/jalloc/malloc.c] are shown to refine insertion, deletion
    and lookup in this map. *)

From Stdlib Require Import ZArith Lia Bool Sorted.
From stdpp Require Import base numbers gmap list.
From S2P Require Import Prelude JConfig JRun JBin JMap JChunk JArena JPages.

Section heap_layer.
Context (cfg : config) {Hok : config_ok cfg}.
Context {V : VM} {VS : VMSpec V (pagesize cfg)}.
Local Notation PG := (pagesize cfg).
Local Notation CS := (chunksize cfg).
Local Notation N := (chunk_npages cfg).
Local Notation HD := (arena_chunk_header_npages cfg).
Local Notation ab := (opt_abort (opts cfg)).

(** ** The invariant of the bins *)

(** The arena whose chunk holds the address. *)
Definition owner (h : heap) (r : Z) : option Z :=
  chunk_arena <$> chunk_hdrs h !! CHUNK_ADDR2BASE cfg r.

(** Two states of the same bin. *)
Definition same_geom (b b' : arena_bin) : Prop :=
  reg_size b' = reg_size b /\ run_size b' = run_size b /\ nregs b' = nregs b /\
  regs_mask_nelms b' = regs_mask_nelms b /\ reg0_offset b' = reg0_offset b.

(** A run that is not the current one is in the tree of its bin exactly when it
    has a free region. *)
Definition run_listed (b : arena_bin) (r : Z) (rh : arena_run) : Prop :=
  runcur b <> Some r -> (r ∈ runs b <-> 0 < nfree rh).

(** The run at [r] serves bin [bi]. *)
Definition small_ok (h : heap) (U : gmap Z Z) (r bi : Z) : Prop :=
  exists a b rh, owner h r = Some a /\ get_bin h a bi = Some b /\
    U !! r = Some (run_size b / PG) /\ run_hdrs h !! r = Some rh /\ bin rh = bi /\
    run_inv b rh /\ run_listed b r rh.

(** [K] maps the address of every small run to its bin. *)
Record bins_inv (h : heap) (U K : gmap Z Z) : Prop := mk_bins_inv {
  bi_main : exists ar, get_arena h 0 = Some ar;
  bi_geom : forall a ar, get_arena h a = Some ar ->
    zlen (bins ar) = nbins cfg /\ forall i b, zget (bins ar) i = Some b -> bin_for cfg i b;
  bi_small : forall r bi, K !! r = Some bi -> small_ok h U r bi;
  bi_listed : forall a bi b r, get_bin h a bi = Some b -> runcur b = Some r \/ r ∈ runs b ->
    K !! r = Some bi /\ owner h r = Some a;
  bi_sorted : forall a bi b, get_bin h a bi = Some b -> StronglySorted Z.lt (runs b);
  bi_cur : forall a bi b r, get_bin h a bi = Some b -> runcur b = Some r -> r ∉ runs b }.

(** The same arenas exist, with the same number of bins. *)
Definition arenas_like (h h' : heap) : Prop :=
  forall a, option_Forall2 (fun x y => zlen (bins x) = zlen (bins y)) (get_arena h a) (get_arena h' a).

Lemma arenas_like_refl h : arenas_like h h.
Proof. intros a. destruct (get_arena h a); by constructor. Qed.

Lemma arenas_like_trans h1 h2 h3 : arenas_like h1 h2 -> arenas_like h2 h3 -> arenas_like h1 h3.
Proof.
  intros H1 H2 a. specialize (H1 a). specialize (H2 a).
  destruct H1 as [x y E|]; inversion H2; subst; constructor; congruence.
Qed.

Lemma arenas_like_bins h h' :
  (forall a, bins <$> get_arena h' a = bins <$> get_arena h a) -> arenas_like h h'.
Proof.
  intros He a. specialize (He a).
  destruct (get_arena h' a), (get_arena h a); cbn in He; try done; constructor; congruence.
Qed.

Lemma arenas_like_back h h' a ar' :
  arenas_like h h' -> get_arena h' a = Some ar' ->
  exists ar, get_arena h a = Some ar /\ zlen (bins ar') = zlen (bins ar).
Proof.
  intros Hl Ha. specialize (Hl a). rewrite Ha in Hl. inversion Hl; subst. eauto.
Qed.

Lemma arenas_like_forth h h' a ar :
  arenas_like h h' -> get_arena h a = Some ar -> exists ar', get_arena h' a = Some ar'.
Proof. intros Hl Ha. specialize (Hl a). rewrite Ha in Hl. inversion Hl; subst. eauto. Qed.

Lemma same_geom_refl b : same_geom b b.
Proof. done. Qed.

Lemma bin_for_geom i b b' : same_geom b b' -> bin_for cfg i b -> bin_for cfg i b'.
Proof. intros (E1 & E2 & E3 & E4 & E5). unfold bin_for. by rewrite E1, E2, E3, E4, E5. Qed.

Lemma run_inv_geom b b' rh : same_geom b b' -> run_inv b rh -> run_inv b' rh.
Proof.
  intros (_ & _ & E3 & E4 & _) [H1 H2 H3 H4]. split; rewrite ?E3, ?E4; auto.
Qed.

Lemma get_bin_Some h a bi b :
  get_bin h a bi = Some b <-> exists ar, get_arena h a = Some ar /\ zget (bins ar) bi = Some b.
Proof.
  unfold get_bin. destruct (get_arena h a) as [ar|] eqn:E.
  - split; [eauto|]. intros (ar' & [= ->] & ?). done.
  - split; [done|]. by intros (ar' & ? & _).
Qed.

(** The geometry of a bin that belongs to an arena. *)
Lemma bin_facts h U K a bi b :
  bins_inv h U K -> get_bin h a bi = Some b ->
  bin_for cfg bi b /\ bin_geom b /\ 0 <= bi < nbins cfg /\
  1 <= run_size b / PG <= N - HD /\ run_size b = run_size b / PG * PG.
Proof.
  intros Hb Hg. apply get_bin_Some in Hg as (ar & Ha & Hz).
  destruct (bi_geom _ _ _ Hb a ar Ha) as [Hl Hf]. pose proof (Hf bi b Hz) as Hbf.
  apply zget_Some_bound in Hz as Hbd. rewrite Hl in Hbd.
  pose proof Hbf as [Hs Hrs].
  destruct (bin_reg_size_half_page cfg bi Hbd) as [Hr1 Hr2].
  assert (Hgeom : bin_geom b).
  { destruct b as [rc rl rs rz nr nm off]. cbn in *. apply (run_settings_geom cfg); [|done]. lia. }
  split; [done|]. split; [done|]. split; [done|].
  destruct Hrs as (Hm & Hmax & _ & [Hn Hfit] & _).
  destruct (chunk_geometry cfg) as (HCS & HH & HPG & HC & HN).
  apply Z.mod_divide in Hm as [q Hq]; [|lia]. rewrite Hq, Z.div_mul by lia.
  split; [|done]. rewrite ok_maxclass, <- ok_pagesize in Hmax.
  destruct Hgeom as [G1 G2 G3 G4 G5 G6]. unfold sizeof_arena_run_t, sizeof_unsigned in *.
  assert (1 <= regs_mask_nelms b).
  { rewrite G3. apply Z.div_le_lower_bound; lia. }
  split; nia.
Qed.
(** ** Steps that leave the bins alone *)

Lemma get_bin_same h h' a bi :
  (forall a, bins <$> get_arena h' a = bins <$> get_arena h a) ->
  get_bin h' a bi = get_bin h a bi.
Proof.
  intros He. specialize (He a). unfold get_bin.
  destruct (get_arena h' a) as [ar'|], (get_arena h a) as [ar|]; cbn in *; simplify_eq/=; congruence.
Qed.

Lemma bins_inv_frame h U K h' U' :
  bins_inv h U K ->
  (forall a, bins <$> get_arena h' a = bins <$> get_arena h a) ->
  run_hdrs h' = run_hdrs h ->
  (forall r bi, K !! r = Some bi -> owner h' r = owner h r /\ U' !! r = U !! r) ->
  bins_inv h' U' K.
Proof.
  intros [[ar0 B0] B1 B2 B3 B4 B5] Hbins Hrun Hown.
  pose proof (fun a bi => get_bin_same h h' a bi Hbins) as Hget.
  split.
  - by apply (arenas_like_forth h h' 0 ar0); [apply arenas_like_bins|].
  - intros a ar' Ha'. specialize (Hbins a). rewrite Ha' in Hbins.
    destruct (get_arena h a) as [ar|] eqn:Ea; [|done]. cbn in Hbins. simplify_eq/=.
    replace (bins ar') with (bins ar) by congruence. eauto.
  - intros r bi Hr. destruct (B2 r bi Hr) as (a & b & rh & ?). destruct (Hown r bi Hr) as [Eo Eu].
    exists a, b, rh. by rewrite Eo, Eu, Hget, Hrun.
  - intros a bi b r Hb Hl. rewrite Hget in Hb. destruct (B3 a bi b r Hb Hl) as [Hk Ho].
    split; [done|]. by rewrite (proj1 (Hown r bi Hk)).
  - intros a bi b Hb. rewrite Hget in Hb. eauto.
  - intros a bi b r Hb. rewrite Hget in Hb. eauto.
Qed.

Lemma owner_grows h h' r a : grows cfg h h' -> owner h r = Some a -> owner h' r = Some a.
Proof.
  intros Hg. unfold owner. destruct (chunk_hdrs h !! _) as [ch|] eqn:E; [|done].
  destruct (gr_chunks _ _ _ Hg _ _ E) as (ch' & -> & Ec). cbn. congruence.
Qed.

Lemma bins_inv_grows h U K h' U' :
  bins_inv h U K -> grows cfg h h' -> (forall r n, U !! r = Some n -> U' !! r = Some n) ->
  bins_inv h' U' K.
Proof.
  intros Hb Hg HU. apply (bins_inv_frame h U); auto; [apply Hg|apply Hg|].
  intros r bi Hr. destruct (bi_small _ _ _ Hb r bi Hr) as (a & b & rh & Ho & _ & Hu & _).
  rewrite Ho, Hu. split; [by eapply owner_grows|by apply HU].
Qed.

Lemma owner_run h U r n : runs_inv cfg h U -> U !! r = Some n -> exists a, owner h r = Some a.
Proof.
  intros Hi Hr. destruct (run_chunk cfg h U r n Hi Hr) as (c & ch & _ & _ & _ & Hc & _ & Eb & _).
  unfold owner. rewrite Eb, Hc. by eexists.
Qed.

Lemma owner_shrinks h h' U' p n r m a :
  shrinks cfg p n h h' -> runs_inv cfg h' U' -> U' !! r = Some m -> owner h r = Some a ->
  owner h' r = Some a.
Proof.
  intros Hs Hi Hr. destruct (owner_run h' U' r m Hi Hr) as [a' Ha']. rewrite Ha'. unfold owner in *.
  destruct (chunk_hdrs h' !! _) as [ch'|] eqn:E'; [|done].
  destruct (sh_chunks _ _ _ _ _ Hs _ _ E') as (ch & -> & Ec). cbn in *. congruence.
Qed.

Lemma bins_inv_shrinks h U K h' U' p n :
  bins_inv h U K -> shrinks cfg p n h h' -> runs_inv cfg h' U' ->
  (forall r bi, K !! r = Some bi -> U' !! r = U !! r) -> bins_inv h' U' K.
Proof.
  intros Hb Hs Hi HU. apply (bins_inv_frame h U); auto; [apply Hs|apply Hs|].
  intros r bi Hr. destruct (bi_small _ _ _ Hb r bi Hr) as (a & b & rh & Ho & _ & Hu & _).
  split; [|eauto]. rewrite Ho. eapply owner_shrinks; eauto. by rewrite (HU r bi Hr).
Qed.

(** ** Steps that change one bin and one of its runs *)

Lemma put_bin_ok h U a bi b b' :
  runs_inv cfg h U -> get_bin h a bi = Some b ->
  exists h', put_bin h a bi b' = Some h' /\ runs_inv cfg h' U /\
    get_bin h' a bi = Some b' /\
    (forall a2 bi2, (a2, bi2) <> (a, bi) -> get_bin h' a2 bi2 = get_bin h a2 bi2) /\
    arenas_like h h' /\
    lower h' = lower h /\ chunk_hdrs h' = chunk_hdrs h /\ run_hdrs h' = run_hdrs h.
Proof.
  intros Hi Hb. apply get_bin_Some in Hb as (ar & Ha & Hz).
  destruct (zset_is_Some (bins ar) bi b') as [l Hl]; [by eapply zget_Some_bound|].
  destruct (put_arena_ok h a ar (mk_arena (chunks ar) (spare ar) l) Ha)
    as (h' & E & El & Ec & Er & Ea & Eo & _).
  exists h'. unfold put_bin. rewrite Ha, Hl. split; [done|]. split.
  - eapply (runs_inv_release cfg h U a ar h'); eauto.
    + rewrite El. apply Hi.
    + rewrite Ec, El. intros c ch Hc. split; [done|]. apply (ri_chunk _ _ _ Hi c ch Hc).
    + rewrite Ec. congruence.
    + split; [exact (ri_sorted _ _ _ Hi a ar Ha)|]. rewrite Ec. cbn.
      split; [intros c Hc; exact (ri_spare _ _ _ Hi a ar c Ha Hc)|]. split; [|done].
      intros c Hc. exact (ri_listed _ _ _ Hi a ar c Ha Hc).
  - split; [apply get_bin_Some; eexists; split; [exact Ea|exact (zget_zset_eq _ _ _ _ Hl)]|].
    split; [|split; [|done]].
    + intros a2 bi2 Hne. unfold get_bin. destruct (decide (a2 = a)) as [->|Hna]; [|by rewrite Eo].
      rewrite Ea, Ha. cbn. apply (zget_zset_ne _ _ _ _ _ Hl). congruence.
    + intros a2. destruct (decide (a2 = a)) as [->|Hna].
      * rewrite Ha, Ea. constructor. cbn. apply zlen_zset in Hl. congruence.
      * rewrite Eo by done. apply arenas_like_refl.
Qed.

(** Bin [bi] of arena [a] goes from [b] to [b'], and at most run [r0] of it changes. *)
Lemma bins_inv_update h U K h' U' K' a bi b b' r0 :
  bins_inv h U K -> get_bin h a bi = Some b -> same_geom b b' ->
  get_bin h' a bi = Some b' ->
  (forall a2 bi2, (a2, bi2) <> (a, bi) -> get_bin h' a2 bi2 = get_bin h a2 bi2) ->
  arenas_like h h' ->
  (forall r, r <> r0 -> K' !! r = K !! r) ->
  (forall r bi, r <> r0 -> K !! r = Some bi ->
     owner h' r = owner h r /\ U' !! r = U !! r /\ run_hdrs h' !! r = run_hdrs h !! r) ->
  K !! r0 = None \/ (K !! r0 = Some bi /\ owner h r0 = Some a) ->
  (forall x, K' !! r0 = Some x -> small_ok h' U' r0 x) ->
  StronglySorted Z.lt (runs b') -> (forall r, runcur b' = Some r -> r ∉ runs b') ->
  (forall r, runcur b' = Some r \/ r ∈ runs b' ->
     (r = r0 /\ K' !! r0 = Some bi /\ owner h' r0 = Some a) \/
     (r <> r0 /\ (runcur b = Some r \/ r ∈ runs b))) ->
  (forall r rh, r <> r0 -> K !! r = Some bi -> owner h r = Some a -> run_hdrs h !! r = Some rh ->
     run_listed b r rh -> run_listed b' r rh) ->
  bins_inv h' U' K'.
Proof.
  intros [[ar0 B0] B1 B2 B3 B4 B5] Hb Hgeo Hb' Hoth Hlen HK Hfr Hr0 Hs0 Hsort Hcur Hlist Hrl.
  assert (Hcase : forall a2 bi2 b2, get_bin h' a2 bi2 = Some b2 ->
            (a2 = a /\ bi2 = bi /\ b2 = b') \/ ((a2, bi2) <> (a, bi) /\ get_bin h a2 bi2 = Some b2)).
  { intros a2 bi2 b2 Hb2. destruct (decide ((a2, bi2) = (a, bi))) as [[= -> ->]|Hne].
    - left. repeat split. congruence.
    - right. by rewrite <- Hoth. }
  split.
  - by apply (arenas_like_forth h h' 0 ar0).
  - intros a2 ar2 Ha2. destruct (arenas_like_back h h' a2 ar2 Hlen Ha2) as (ar1 & Ha1 & El). destruct (B1 a2 ar1 Ha1) as [Hl Hf].
    split; [congruence|]. intros i b2 Hz.
    destruct (Hcase a2 i b2) as [(-> & -> & ->)|[_ Hg]]; [by apply get_bin_Some; eauto| |].
    + apply (bin_for_geom _ b); [done|]. apply get_bin_Some in Hb as (ar & Har & ?).
      by apply (proj2 (B1 a ar Har)).
    + apply get_bin_Some in Hg as (ar & Har & ?). by apply (proj2 (B1 a2 ar Har)).
  - intros r bi2 Hr. destruct (decide (r = r0)) as [->|Hne]; [by apply Hs0|].
    rewrite HK in Hr by done. destruct (Hfr r bi2 Hne Hr) as (Eo & Eu & Er).
    destruct (B2 r bi2 Hr) as (a2 & b2 & rh & Ho & Hg & Hu & Hh & Hbin & Hri & Hl).
    destruct (decide ((a2, bi2) = (a, bi))) as [[= -> ->]|Hne2].
    + assert (b2 = b) as -> by congruence. exists a, b', rh. rewrite Eo, Eu, Er.
      destruct Hgeo as (G1 & G2 & G3 & G4 & G5). rewrite G2.
      do 5 (split; [done|]). split; [by eapply run_inv_geom|]. by apply Hrl.
    + exists a2, b2, rh. rewrite Eo, Eu, Er, Hoth by done. done.
  - intros a2 bi2 b2 r Hg Hl. destruct (Hcase a2 bi2 b2 Hg) as [(-> & -> & ->)|[Hne Hg2]].
    + destruct (Hlist r Hl) as [(-> & ? & ?)|[Hne Hl2]]; [done|].
      destruct (B3 a bi b r Hb Hl2) as [Hk Ho]. destruct (Hfr r bi Hne Hk) as (Eo & _).
      rewrite HK, Eo by done. done.
    + destruct (B3 a2 bi2 b2 r Hg2 Hl) as [Hk Ho]. assert (r <> r0) as Hr.
      { intros ->. destruct Hr0 as [Hr0|[Hr0 Ho0]]; congruence. }
      destruct (Hfr r bi2 Hr Hk) as (Eo & _). rewrite HK, Eo by done. done.
  - intros a2 bi2 b2 Hg. destruct (Hcase a2 bi2 b2 Hg) as [(-> & -> & ->)|[_ Hg2]]; eauto.
  - intros a2 bi2 b2 r Hg Hl. destruct (Hcase a2 bi2 b2 Hg) as [(-> & -> & ->)|[_ Hg2]]; eauto.
Qed.
(** ** Blocks *)

(** Region [reg] of the small run at [r], allocated. *)
Definition run_block (h : heap) (K : gmap Z Z) (r p n : Z) : Prop :=
  exists bi a b rh reg, K !! r = Some bi /\ owner h r = Some a /\ get_bin h a bi = Some b /\
    run_hdrs h !! r = Some rh /\ 0 <= reg < nregs b /\ reg_free rh reg = false /\
    p = r + reg0_offset b + reg_size b * reg /\ n = reg_size b.

Definition small_block (h : heap) (K : gmap Z Z) (p n : Z) : Prop :=
  exists r, run_block h K r p n.

Definition large_block (U K : gmap Z Z) (p n : Z) : Prop :=
  exists m, U !! p = Some m /\ K !! p = None /\ n = m * PG.

Definition huge_block (h : heap) (p n : Z) : Prop :=
  exists m, m ∈ huge (lower h) /\ chunk m = p /\ size m = n.

(** The allocated blocks. *)
Definition block (h : heap) (U K : gmap Z Z) (p n : Z) : Prop :=
  small_block h K p n \/ large_block U K p n \/ huge_block h p n.

(** A small block lies inside its run, after the header. *)
Lemma run_block_bounds h U K r p n :
  bins_inv h U K -> run_block h K r p n ->
  exists m, U !! r = Some m /\ r + 56 <= p /\ p + n <= r + m * PG /\ 2 <= n.
Proof.
  intros Hb (bi & a & b & rh & reg & Hk & Ho & Hg & Hh & Hreg & Hf & -> & ->).
  destruct (bi_small _ _ _ Hb r bi Hk) as (a' & b' & rh' & Ho' & Hg' & HU & _).
  assert (a' = a) as -> by congruence. assert (b' = b) as -> by congruence.
  destruct (bin_facts h U K a bi b Hb Hg) as (_ & Hgeo & _ & _ & Hrs).
  destruct (geom_bounds b Hgeo) as (G1 & G2 & G3 & G4 & G5). pose proof (geom_fill _ Hgeo).
  exists (run_size b / PG). split; [done|]. rewrite <- Hrs. nia.
Qed.

(** Two allocated regions of one run are equal or disjoint. *)
Lemma run_block_disjoint h U K r p n p' n' x :
  bins_inv h U K -> run_block h K r p n -> run_block h K r p' n' ->
  in_range p n x -> in_range p' n' x -> p = p' /\ n = n'.
Proof.
  intros Hb (bi & a & b & rh & reg & Hk & Ho & Hg & Hh & Hreg & Hf & -> & ->)
    (bi' & a' & b' & rh' & reg' & Hk' & Ho' & Hg' & Hh' & Hreg' & Hf' & -> & ->) Hx Hx'.
  assert (bi' = bi) as -> by congruence. assert (a' = a) as -> by congruence.
  assert (b' = b) as -> by congruence.
  destruct (bin_facts h U K a bi b Hb Hg) as (_ & Hgeo & _).
  destruct (geom_bounds b Hgeo) as (_ & _ & _ & _ & G5). unfold in_range in *.
  assert (reg = reg') as -> by nia. done.
Qed.

Lemma large_bounds h U K p n :
  runs_inv cfg h U -> large_block U K p n -> exists m, U !! p = Some m /\ n = m * PG /\ PG <= n.
Proof.
  intros Hi (m & Hm & _ & ->). exists m. do 2 (split; [done|]).
  destruct (run_chunk cfg h U p m Hi Hm) as (c & ch & pre & post & ar & _ & _ & _ & _ & _ & _ & _ & Hn & _).
  destruct (chunk_geometry cfg) as (_ & _ & HPG & _). nia.
Qed.

Lemma huge_ranges_disjoint t m m' x :
  StronglySorted range_before t -> m ∈ t -> m' ∈ t ->
  in_range (chunk m) (size m) x -> in_range (chunk m') (size m') x -> m = m'.
Proof.
  intros Hs Hm Hm' Hx Hx'. induction Hs as [|y t Hs IH Hy]; [by apply elem_of_nil in Hm|].
  rewrite Forall_forall in Hy. unfold range_before, in_range in *.
  apply elem_of_cons in Hm as [->|Hm]; apply elem_of_cons in Hm' as [->|Hm']; auto.
  - specialize (Hy m' Hm'). lia.
  - specialize (Hy m Hm). lia.
Qed.

(** Every allocated block is non-empty, mapped, and inside an arena chunk or a
    huge object. *)
Lemma block_mapped h U K p n x :
  runs_inv cfg h U -> bins_inv h U K -> block h U K p n -> in_range p n x ->
  mapped (kernel (lower h)) x /\
  ((exists c ch, chunk_hdrs h !! c = Some ch /\ in_range c CS x) \/
   (exists m, m ∈ huge (lower h) /\ in_range (chunk m) (size m) x)).
Proof.
  intros Hi Hb [[r Hs]|[Hl|(m & Hm & <- & <-)]] Hx.
  - destruct (run_block_bounds h U K r p n Hb Hs) as (m & HU & ? & ? & ?).
    destruct (run_placed cfg h U r m x Hi HU) as (_ & _ & Hmap & _ & (ch & Hc & Hxc) & _);
      [unfold in_range in *; lia|]. split; [done|]. left. eauto.
  - destruct (large_bounds h U K p n Hi Hl) as (m & HU & -> & _).
    destruct (run_placed cfg h U p m x Hi HU Hx) as (_ & _ & Hmap & _ & (ch & Hc & Hxc) & _).
    split; [done|]. left. eauto.
  - pose proof (cs_huge _ _ (ri_lower _ _ _ Hi)) as Hh. rewrite Forall_forall in Hh.
    destruct (Hh m Hm) as (_ & _ & _ & _ & Hmap). split; [by apply Hmap|]. right. eauto.
Qed.

Lemma block_pos h U K p n :
  runs_inv cfg h U -> bins_inv h U K -> block h U K p n -> 0 < n.
Proof.
  intros Hi Hb [[r Hr]|[Hl|(o & Ho & _ & <-)]].
  - destruct (run_block_bounds h U K r p n Hb Hr) as (? & _ & _ & _ & ?). lia.
  - destruct (large_bounds h U K p n Hi Hl) as (k & _ & _ & Hk).
    destruct (chunk_geometry cfg) as (_ & _ & HPG & _). lia.
  - pose proof (cs_huge _ _ (ri_lower _ _ _ Hi)) as Hh. rewrite Forall_forall in Hh.
    destruct (Hh o Ho) as (_ & ? & _). lia.
Qed.

(** Distinct blocks do not overlap. *)
Lemma block_disjoint h U K p n p' n' x :
  runs_inv cfg h U -> bins_inv h U K -> block h U K p n -> block h U K p' n' ->
  in_range p n x -> in_range p' n' x -> p = p' /\ n = n'.
Proof.
  intros Hi Hb.
  assert (Hrun : forall q m, small_block h K q m \/ large_block U K q m -> in_range q m x ->
    exists r k, U !! r = Some k /\ in_range r (k * PG) x /\
      ((K !! r <> None /\ run_block h K r q m) \/ (K !! r = None /\ q = r /\ m = k * PG))).
  { intros q m [[r Hs]|Hl] Hx.
    - destruct (run_block_bounds h U K r q m Hb Hs) as (k & HU & ? & ? & ?). exists r, k.
      split; [done|]. split; [unfold in_range in *; lia|]. left. split; [|done].
      destruct Hs as (bi & ? & ? & ? & ? & Hk & _). by rewrite Hk.
    - destruct Hl as (k & HU & Hk & ->). exists q, k. do 2 (split; [done|]). by right. }
  assert (Hhuge : forall q m, small_block h K q m \/ large_block U K q m -> in_range q m x ->
    forall m', m' ∈ huge (lower h) -> ~ in_range (chunk m') (size m') x).
  { intros q m Hq Hx. destruct (Hrun q m Hq Hx) as (r & k & HU & Hxr & _).
    by destruct (run_placed cfg h U r k x Hi HU Hxr) as (_ & _ & _ & _ & _ & ?). }
  assert (Hboth : forall q m q' m', small_block h K q m \/ large_block U K q m ->
    small_block h K q' m' \/ large_block U K q' m' -> in_range q m x -> in_range q' m' x -> q = q' /\ m = m').
  { intros q m q' m' Hq Hq' Hx Hx'.
    destruct (Hrun q m Hq Hx) as (r & k & HU & Hxr & Hc), (Hrun q' m' Hq' Hx') as (r' & k' & HU' & Hxr' & Hc').
    assert (r' = r) as -> by (symmetry; by eapply (runs_disjoint cfg)).
    assert (k' = k) as -> by congruence.
    destruct Hc as [[Hk Hc]|(Hk & -> & ->)], Hc' as [[Hk' Hc']|(Hk' & -> & ->)]; try done.
    by eapply run_block_disjoint. }
  assert (Hsplit : forall q m, block h U K q m ->
    (small_block h K q m \/ large_block U K q m) \/ huge_block h q m) by (unfold block; tauto).
  intros [H1|H1]%Hsplit [H2|H2]%Hsplit Hx Hx'.
  - by apply Hboth.
  - destruct H2 as (m & Hm & <- & <-). by destruct (Hhuge p n H1 Hx m Hm).
  - destruct H1 as (m & Hm & <- & <-). by destruct (Hhuge p' n' H2 Hx' m Hm).
  - destruct H1 as (m & Hm & <- & <-), H2 as (m' & Hm' & <- & <-).
    pose proof (cs_huge_sorted _ _ (ri_lower _ _ _ Hi)) as Hsort.
    by rewrite (huge_ranges_disjoint _ m m' x Hsort).
Qed.
(** ** How blocks change *)

(** Bins keep their geometry. *)
Definition bins_like (h h' : heap) : Prop :=
  forall a bi, option_Forall2 same_geom (get_bin h a bi) (get_bin h' a bi).

Lemma bins_like_same h h' :
  (forall a, bins <$> get_arena h' a = bins <$> get_arena h a) -> bins_like h h'.
Proof.
  intros He a bi. rewrite (get_bin_same h h' a bi He). destruct (get_bin h a bi); by constructor.
Qed.

Lemma bins_like_put h h' a bi b b' :
  get_bin h a bi = Some b -> get_bin h' a bi = Some b' -> same_geom b b' ->
  (forall a2 bi2, (a2, bi2) <> (a, bi) -> get_bin h' a2 bi2 = get_bin h a2 bi2) -> bins_like h h'.
Proof.
  intros Hb Hb' Hg Ho a2 bi2. destruct (decide ((a2, bi2) = (a, bi))) as [[= -> ->]|Hne].
  - rewrite Hb, Hb'. by constructor.
  - rewrite Ho by done. destruct (get_bin h a2 bi2); by constructor.
Qed.

Lemma bins_like_trans h1 h2 h3 : bins_like h1 h2 -> bins_like h2 h3 -> bins_like h1 h3.
Proof.
  intros H1 H2 a bi. specialize (H1 a bi). specialize (H2 a bi).
  destruct H1 as [b1 b2 (A1 & A2 & A3 & A4 & A5)|].
  - inversion H2 as [x b3 (C1 & C2 & C3 & C4 & C5) E1 E2|]; subst. constructor.
    unfold same_geom. repeat split; congruence.
  - inversion H2. constructor.
Qed.

Lemma bins_like_sym h h' : bins_like h h' -> bins_like h' h.
Proof.
  intros Hl a bi. destruct (Hl a bi) as [b b' (G1 & G2 & G3 & G4 & G5)|]; constructor. done.
Qed.

Lemma run_block_frame h K h' K' r p n :
  bins_like h h' -> K' !! r = K !! r -> owner h' r = owner h r -> run_hdrs h' !! r = run_hdrs h !! r ->
  run_block h K r p n -> run_block h' K' r p n.
Proof.
  intros Hl EK Eo Er (bi & a & b & rh & reg & Hk & Ho & Hg & Hh & Hreg & Hf & -> & ->).
  pose proof (Hl a bi) as Hb. rewrite Hg in Hb. inversion Hb as [x y (G1 & G2 & G3 & G4 & G5) E1 E2|]; subst.
  exists bi, a, y, rh, reg. rewrite EK, Eo, Er, G1, G3, G5. done.
Qed.

Lemma run_block_iff h K h' K' r p n :
  bins_like h h' -> K' !! r = K !! r -> owner h' r = owner h r -> run_hdrs h' !! r = run_hdrs h !! r ->
  run_block h' K' r p n <-> run_block h K r p n.
Proof.
  intros Hl EK Eo Er. split; [|by apply run_block_frame].
  apply run_block_frame; auto. by apply bins_like_sym.
Qed.

(** The blocks of a run whose header is known. *)
Lemma run_block_at h K r p n bi a b rh :
  K !! r = Some bi -> owner h r = Some a -> get_bin h a bi = Some b -> run_hdrs h !! r = Some rh ->
  run_block h K r p n <->
  exists reg, 0 <= reg < nregs b /\ reg_free rh reg = false /\
    p = r + reg0_offset b + reg_size b * reg /\ n = reg_size b.
Proof.
  intros Hk Ho Hg Hh. split.
  - intros (bi' & a' & b' & rh' & reg & Hk' & Ho' & Hg' & Hh' & Hrest).
    assert (bi' = bi) as -> by congruence. assert (a' = a) as -> by congruence.
    assert (b' = b) as -> by congruence. assert (rh' = rh) as -> by congruence. eauto.
  - intros (reg & Hrest). exists bi, a, b, rh, reg. done.
Qed.

(** The blocks of [h'] are those of [h] and [[p, p + n)]. *)
Definition adds (h : heap) (U K : gmap Z Z) (p n : Z) (h' : heap) (U' K' : gmap Z Z) : Prop :=
  (forall m, ~ block h U K p m) /\
  forall q m, block h' U' K' q m <-> block h U K q m \/ (q = p /\ m = n).

Definition same_blocks (h : heap) (U K : gmap Z Z) (h' : heap) (U' K' : gmap Z Z) : Prop :=
  forall q m, block h' U' K' q m <-> block h U K q m.

Lemma small_block_grows h U K h' q m :
  bins_inv h U K -> grows cfg h h' -> small_block h' K q m <-> small_block h K q m.
Proof.
  intros Hb Hg.
  assert (Hr : forall r, run_block h' K r q m <-> run_block h K r q m).
  { intros r. destruct (K !! r) as [bi|] eqn:Ek.
    - destruct (bi_small _ _ _ Hb r bi Ek) as (a & b & rh & Ho & _).
      apply run_block_iff; [apply bins_like_same, Hg|done| |by rewrite (gr_runs _ _ _ Hg)].
      rewrite Ho. by eapply owner_grows.
    - split; intros (? & ? & ? & ? & ? & Hk & _); congruence. }
  unfold small_block. split; intros [r Hb']; exists r; by apply Hr.
Qed.

Lemma block_grows h U K h' :
  bins_inv h U K -> grows cfg h h' -> same_blocks h U K h' U K.
Proof.
  intros Hb Hg q m. unfold block. rewrite (small_block_grows h U K h' q m Hb Hg).
  unfold huge_block. by rewrite (gr_huge _ _ _ Hg).
Qed.

(** ** Allocation of a small region *)

Lemma adds_run h U K h' U' K' r k p n :
  runs_inv cfg h' U' -> bins_inv h' U' K' -> bins_inv h U K ->
  (forall x m, U !! x = Some m -> U' !! x = Some m) -> U' !! r = Some k ->
  (forall q m, large_block U' K' q m <-> large_block U K q m) ->
  huge (lower h') = huge (lower h) ->
  (forall x q m, x <> r -> run_block h' K' x q m <-> run_block h K x q m) ->
  (forall q m, run_block h' K' r q m <-> run_block h K r q m \/ (q = p /\ m = n)) ->
  (forall m, ~ run_block h K r p m) -> r + 56 <= p -> p < r + k * PG ->
  adds h U K p n h' U' K'.
Proof.
  intros Hi' Hb' Hb HU Hr HL Hh Hoth Hself Hnew Hp1 Hp2.
  assert (Hin : in_range r (k * PG) p) by (unfold in_range; lia). split.
  - intros m [[x Hx]|[Hl|(y & Hy & Ey & _)]].
    + destruct (decide (x = r)) as [->|Hne]; [by apply (Hnew m)|].
      destruct (run_block_bounds h U K x p m Hb Hx) as (k' & HU' & ? & ? & ?).
      apply Hne. eapply (runs_disjoint cfg h' U'); eauto. unfold in_range. lia.
    + destruct Hl as (k' & HU' & _ & _).
      destruct (run_chunk cfg h' U' p k' Hi' (HU _ _ HU'))
        as (c & ch & pre & post & ar & _ & _ & _ & _ & _ & _ & _ & Hn & _).
      destruct (chunk_geometry cfg) as (_ & _ & HPG & _).
      enough (p = r) by lia. eapply (runs_disjoint cfg h' U'); eauto. unfold in_range. nia.
    + destruct (run_placed cfg h' U' r k p Hi' Hr Hin) as (_ & _ & _ & _ & _ & Hn). rewrite Hh in Hn.
      apply (Hn y Hy). rewrite Ey. unfold in_range.
      pose proof (cs_huge _ _ (ri_lower _ _ _ Hi')) as Hho. rewrite Hh, Forall_forall in Hho.
      destruct (Hho y Hy) as (_ & ? & _). lia.
  - intros q m. unfold block. rewrite HL. unfold huge_block. rewrite Hh.
    assert (Hs : small_block h' K' q m <-> small_block h K q m \/ (q = p /\ m = n)).
    { unfold small_block. split.
      - intros [x Hx]. destruct (decide (x = r)) as [->|Hne].
        + apply Hself in Hx as [Hx|?]; [left; eauto|by right].
        + apply Hoth in Hx; [|done]. left. eauto.
      - intros [[x Hx]|Hx].
        + destruct (decide (x = r)) as [->|Hne]; [exists r; apply Hself; by left|].
          exists x. by apply Hoth.
        + exists r. apply Hself. by right. }
    rewrite Hs. tauto.
Qed.

(** What an allocation of a block of [n] bytes promises, before it is filled. *)
Definition alloc_post (h : heap) (U K : gmap Z Z) (n : Z) (r : option Z * heap) : Prop :=
  let '(ro, h') := r in
  exists U' K', runs_inv cfg h' U' /\ bins_inv h' U' K' /\
    keeps (kernel (lower h)) (kernel (lower h')) /\
    match ro with
    | Some p => adds h U K p n h' U' K'
    | None => same_blocks h U K h' U' K'
    end.

Lemma easy_step h b r rh :
  bin_geom b -> run_inv b rh -> 0 < nfree rh -> run_hdrs h !! r = Some rh ->
  0 <= r -> r + run_size b < 2 ^ 64 ->
  exists reg rh', bin_malloc_easy h b r
      = Some (Some (r + reg0_offset b + reg_size b * reg), put_run h r rh') /\
    0 <= reg < nregs b /\ reg_free rh reg = true /\
    (forall reg', 0 <= reg' < nregs b ->
       reg_free rh' reg' = if decide (reg' = reg) then false else reg_free rh reg') /\
    run_inv b rh' /\ bin rh' = bin rh.
Proof.
  intros Hg Hi Hn Hh H0 H1. unfold bin_malloc_easy. rewrite Hh.
  destruct (arena_bin_malloc_easy_ok b Hg r rh Hi Hn)
    as (reg & rh' & -> & Hreg & Hf & _ & Hf' & Hi' & _ & Hbin & _).
  rewrite (reg_addr_eq b Hg) by done. exists reg, rh'. done.
Qed.

(** The region search reads only the geometry of the bin. *)
Lemma malloc_easy_geom b b0 r rh :
  same_geom b b0 -> arena_bin_malloc_easy r rh b0 = arena_bin_malloc_easy r rh b.
Proof.
  intros (E1 & E2 & E3 & E4 & E5).
  assert (Ht : forall i m e, reg_take r rh b0 i m e = reg_take r rh b i m e).
  { intros. unfold reg_take, reg_addr. by rewrite E1, E5. }
  assert (Hl : forall fuel i, reg_alloc_loop fuel r rh b0 i = reg_alloc_loop fuel r rh b i).
  { induction fuel as [|fuel IH]; intros i; cbn [reg_alloc_loop]; [done|]. rewrite E4.
    case_match; [|done]. case_match; [|done]. case_match; [apply Ht|apply IH]. }
  unfold arena_bin_malloc_easy, arena_run_reg_alloc. rewrite E4.
  destruct (zget (regs_mask rh) (regs_minelm rh)) as [mask|]; [|done].
  destruct (negb (mask =? 0)); [by rewrite Ht|by rewrite Hl].
Qed.

Lemma finish_malloc h U K h2 U2 a bi b b0 b2 r rh :
  bins_inv h U K -> get_bin h a bi = Some b -> same_geom b b0 ->
  runs_inv cfg h2 U2 -> get_bin h2 a bi = Some b2 -> same_geom b b2 ->
  (forall a2 bi2, (a2, bi2) <> (a, bi) -> get_bin h2 a2 bi2 = get_bin h a2 bi2) ->
  arenas_like h h2 ->
  (forall x y, K !! x = Some y -> owner h2 x = owner h x) ->
  owner h2 r = Some a -> U2 !! r = Some (run_size b / PG) ->
  run_hdrs h2 !! r = Some rh -> (forall x, x <> r -> run_hdrs h2 !! x = run_hdrs h !! x) ->
  bin rh = bi -> run_inv b rh -> 0 < nfree rh ->
  runcur b2 = Some r -> r ∉ runs b2 -> StronglySorted Z.lt (runs b2) ->
  (forall x, x ∈ runs b2 -> x ∈ runs b) ->
  (forall x xh, x <> r -> K !! x = Some bi -> owner h x = Some a -> run_hdrs h !! x = Some xh ->
     run_listed b x xh -> run_listed b2 x xh) ->
  (K !! r = Some bi /\ owner h r = Some a /\ run_hdrs h !! r = Some rh /\ U2 = U) \/
  (K !! r = None /\ U !! r = None /\ U2 = <[r := run_size b / PG]> U /\
   forall reg, 0 <= reg < nregs b -> reg_free rh reg = true) ->
  keeps (kernel (lower h)) (kernel (lower h2)) -> huge (lower h2) = huge (lower h) ->
  wp ab (lift (bin_malloc_easy h2 b0 r)) (alloc_post h U K (reg_size b)).
Proof.
  intros Hb Hg Hgeo0 Hi2 Hg2 Hgeo2 Hoth Hlen Hown Ho2 Hu2 Hh2 Hrun Hbin Hri Hnf Hcur Hnot Hsort Hsub Hrl Hcase Hk Hhu.
  destruct (bin_facts h U K a bi b Hb Hg) as (_ & Hgeo & _ & Hpg & Hrs).
  destruct (geom_bounds b Hgeo) as (G1 & _ & _ & G4 & G5). pose proof (geom_fill _ Hgeo) as Hfill.
  destruct (chunk_geometry cfg) as (_ & _ & HPG & _).
  destruct (run_placed cfg h2 U2 r _ r Hi2 Hu2) as (Hr0 & Hrend & _); [unfold in_range; nia|].
  rewrite <- Hrs in Hrend.
  destruct (easy_step h2 b r rh) as (reg & rh' & E & Hreg & Hf & Hf' & Hri' & Hbin'); auto; [lia|].
  assert (E0 : bin_malloc_easy h2 b0 r = bin_malloc_easy h2 b r).
  { unfold bin_malloc_easy. rewrite Hh2. by rewrite (malloc_easy_geom b b0). }
  rewrite E0, E. cbn [lift wp]. set (p := r + reg0_offset b + reg_size b * reg).
  set (K' := <[r := bi]> K). exists U2, K'.
  assert (Hi' : runs_inv cfg (put_run h2 r rh') U2) by (destruct Hi2; by split).
  assert (HU : forall x m, U !! x = Some m -> U2 !! x = Some m).
  { destruct Hcase as [(_ & _ & _ & ->)|(_ & Hu & -> & _)]; [done|].
    intros x m Hx. rewrite lookup_insert_ne; [done|]. congruence. }
  assert (Hb' : bins_inv (put_run h2 r rh') U2 K').
  { eapply (bins_inv_update h U K) with (a := a) (bi := bi) (b := b) (b' := b2) (r0 := r); eauto.
    - intros x Hx. unfold K'. by rewrite lookup_insert_ne.
    - intros x y Hx Hkx. split; [exact (Hown x y Hkx)|]. split.
      + destruct (bi_small _ _ _ Hb x y Hkx) as (? & ? & ? & _ & _ & Hux & _). rewrite Hux. auto.
      + cbn. rewrite lookup_insert_ne by done. auto.
    - destruct Hcase as [(? & ? & _)|(? & _)]; [by right|by left].
    - intros y Hy. unfold K' in Hy. rewrite lookup_insert_eq in Hy. injection Hy as <-.
      destruct Hgeo2 as (Q1 & Q2 & Q3 & Q4 & Q5).
      exists a, b2, rh'. split; [exact Ho2|]. split; [exact Hg2|]. split; [by rewrite Q2|].
      split; [cbn; by rewrite lookup_insert_eq|]. split; [congruence|].
      split; [apply (run_inv_geom b); [by repeat split|done]|]. intros Hne. congruence.
    - intros x Hx. congruence.
    - intros x [Hx|Hx].
      + left. split; [congruence|]. unfold K'. rewrite lookup_insert_eq. done.
      + right. split; [congruence|]. right. auto. }
  do 3 (split; [done|]).
  eapply (adds_run _ _ _ _ _ _ r (run_size b / PG)); eauto.
  - intros q m. unfold large_block, K'. split; intros (k & Hk1 & Hk2 & ->); exists k.
    + apply lookup_insert_None in Hk2 as [Hk2 Hne]. split; [|done].
      destruct Hcase as [(_ & _ & _ & ->)|(_ & _ & -> & _)]; [done|]. by rewrite lookup_insert_ne in Hk1.
    + split; [by apply HU|]. split; [|done]. rewrite lookup_insert_ne; [done|].
      intros <-. destruct Hcase as [(? & _)|(_ & ? & _)]; congruence.
  - intros x q m Hx.
    assert (Hlike : bins_like h (put_run h2 r rh')) by (eapply bins_like_put; [exact Hg|exact Hg2|done|exact Hoth]).
    destruct (K !! x) as [y|] eqn:Ek.
    + apply run_block_iff; [done|unfold K'; by rewrite lookup_insert_ne|exact (Hown x y Ek)|].
      cbn. rewrite lookup_insert_ne by done. auto.
    + assert (Ek' : K' !! x = None) by (unfold K'; by rewrite lookup_insert_ne).
      split; intros (? & ? & ? & ? & ? & Hkx & _); congruence.
  - intros q m. destruct Hgeo2 as (Q1 & Q2 & Q3 & Q4 & Q5).
    rewrite (run_block_at (put_run h2 r rh') K' r q m bi a b2 rh');
      [|unfold K'; by rewrite lookup_insert_eq|exact Ho2|exact Hg2|cbn; by rewrite lookup_insert_eq].
    rewrite Q1, Q3, Q5.
    assert (Hold : run_block h K r q m <-> exists reg0, 0 <= reg0 < nregs b /\ reg_free rh reg0 = false /\
              q = r + reg0_offset b + reg_size b * reg0 /\ m = reg_size b).
    { destruct Hcase as [(Hk1 & Hk2 & Hk3 & _)|(Hk1 & _ & _ & Hall)]; [by eapply run_block_at|].
      split; [intros (? & ? & ? & ? & ? & Hk' & _); congruence|].
      intros (reg0 & Hr & Hfr & _). rewrite Hall in Hfr by done. done. }
    rewrite Hold. split.
    + intros (x & Hx & Hfx & -> & ->). rewrite Hf' in Hfx by done. case_decide as Hd.
      * right. subst x. done.
      * left. eauto.
    + intros [(x & Hx & Hfx & -> & ->)|[-> ->]].
      * exists x. rewrite Hf' by done. by case_decide.
      * exists reg. rewrite Hf' by done. by rewrite decide_True.
  - intros m Hm. destruct Hcase as [(Hk1 & Hk2 & Hk3 & _)|(Hk1 & _)].
    + apply (run_block_at h K r p m bi a b rh) in Hm; auto. destruct Hm as (x & Hx & Hfx & Hp & _).
      assert (x = reg) as -> by (unfold p in Hp; nia). congruence.
    + destruct Hm as (? & ? & ? & ? & ? & Hk' & _). congruence.
  - unfold p. nia.
  - unfold p. rewrite <- Hrs. nia.
Qed.
(** The current run of a bin, when there is one. *)
Lemma runcur_ok h U K a bi b r :
  bins_inv h U K -> get_bin h a bi = Some b -> runcur b = Some r \/ r ∈ runs b ->
  exists rh, K !! r = Some bi /\ owner h r = Some a /\ U !! r = Some (run_size b / PG) /\
    run_hdrs h !! r = Some rh /\ bin rh = bi /\ run_inv b rh /\ run_listed b r rh.
Proof.
  intros Hb Hg Hl. destruct (bi_listed _ _ _ Hb a bi b r Hg Hl) as [Hk Ho].
  destruct (bi_small _ _ _ Hb r bi Hk) as (a' & b' & rh & Ho' & Hg' & Hrest).
  assert (a' = a) as -> by congruence. assert (b' = b) as -> by congruence. eauto.
Qed.

Lemma owner_pos h U K r bi : runs_inv cfg h U -> bins_inv h U K -> K !! r = Some bi -> r <> 0.
Proof.
  intros Hi Hb Hk ->. destruct (bi_small _ _ _ Hb 0 bi Hk) as (a & b & rh & _ & Hg & HU & _).
  destruct (bin_facts h U K a bi b Hb Hg) as (_ & _ & _ & Hn & _).
  destruct (chunk_geometry cfg) as (_ & _ & HPG & _).
  destruct (run_placed cfg h U 0 _ 0 Hi HU) as (? & _); [unfold in_range; nia|lia].
Qed.

(** [arena_bin_malloc_hard] without a run to refill from: [runcur] becomes [NULL]. *)
Lemma hard_failed h U K h1 a bi b :
  runs_inv cfg h U -> bins_inv h U K -> get_bin h a bi = Some b -> runs b = [] ->
  (forall x xh, runcur b = Some x -> run_hdrs h !! x = Some xh -> nfree xh <= 0) ->
  grows cfg h h1 -> runs_inv cfg h1 U ->
  exists h2, put_bin h1 a bi (set_runcur b None) = Some h2 /\
    alloc_post h U K (reg_size b) (None, h2).
Proof.
  intros Hi Hb Hg Hruns Hfull Hgr Hi1.
  pose proof (get_bin_same h h1 a bi (gr_bins _ _ _ Hgr)) as Eg. rewrite Hg in Eg.
  destruct (put_bin_ok h1 U a bi b (set_runcur b None) Hi1 Eg)
    as (h2 & E & Hi2 & Hg2 & Ho2 & Hl2 & El2 & Ec2 & Er2).
  exists h2. split; [done|]. exists U, K. split; [done|].
  assert (Hb1 : bins_inv h1 U K) by (by eapply bins_inv_grows).
  assert (Eo : forall r, owner h2 r = owner h1 r) by (intros r; unfold owner; by rewrite Ec2).
  assert (Hb2 : bins_inv h2 U K).
  { eapply (bins_inv_update h1 U K) with (r0 := 0); [exact Hb1|exact Eg| |exact Hg2|done|done|..]; try done.
    - intros r y _ _. by rewrite Eo, Er2.
    - left. destruct (K !! 0) eqn:E0; [|done]. by apply (owner_pos h U K) in E0.
    - intros x Hx. by apply (owner_pos h U K) in Hx.
    - cbn. by eapply bi_sorted.
    - cbn. intros r [?|Hr]; [done|]. rewrite Hruns in Hr. by apply elem_of_nil in Hr.
    - intros r rh _ Hk Ho Hh Hl _. cbn. rewrite Hruns. split; [intros Hx; by apply elem_of_nil in Hx|].
      intros Hn. destruct (decide (runcur b = Some r)) as [Hc|Hc].
      + rewrite (gr_runs _ _ _ Hgr) in Hh. specialize (Hfull r rh Hc Hh). lia.
      + apply Hl in Hn; [|done]. by rewrite Hruns in Hn. }
  split; [done|]. split; [rewrite El2; apply Hgr|].
  intros q m. rewrite <- (block_grows h U K h1 Hb Hgr q m).
  unfold block, huge_block. rewrite El2.
  assert (Hlike : bins_like h1 h2) by (eapply bins_like_put; [exact Eg|exact Hg2|done|done]).
  assert (Hs : forall r, run_block h2 K r q m <-> run_block h1 K r q m)
    by (intros r; apply run_block_iff; [done|done|apply Eo|by rewrite Er2]).
  unfold small_block. setoid_rewrite Hs. done.
Qed.

(** A full or absent current run is no longer listed once it is replaced. *)
Lemma relist h b b2 r x xh :
  (forall x xh, runcur b = Some x -> run_hdrs h !! x = Some xh -> nfree xh <= 0) ->
  (forall y, runcur b = Some y -> y ∉ runs b) ->
  runcur b2 = Some r -> x <> r -> run_hdrs h !! x = Some xh ->
  (forall y, y <> r -> y ∈ runs b2 <-> y ∈ runs b) ->
  run_listed b x xh -> run_listed b2 x xh.
Proof.
  intros Hfull Hcur Hc2 Hne Hh Heq Hl _. rewrite Heq by done.
  destruct (decide (runcur b = Some x)) as [Hc|Hc]; [|by apply Hl].
  specialize (Hfull x xh Hc Hh). specialize (Hcur x Hc). split; [done|lia].
Qed.

Lemma hard_ok h U K a bi b :
  runs_inv cfg h U -> bins_inv h U K -> get_bin h a bi = Some b ->
  (forall x xh, runcur b = Some x -> run_hdrs h !! x = Some xh -> nfree xh <= 0) ->
  wp ab (arena_bin_malloc_hard cfg h a bi) (alloc_post h U K (reg_size b)).
Proof.
  intros Hi Hb Hg Hfull. unfold arena_bin_malloc_hard, arena_bin_nonfull_run_get.
  rewrite Hg. cbn [lift]. pose proof (bi_sorted _ _ _ Hb a bi b Hg) as Hsort.
  pose proof (fun r => bi_cur _ _ _ Hb a bi b r Hg) as Hcur.
  destruct (runs b) as [|r l] eqn:Hruns.
  - destruct (bin_facts h U K a bi b Hb Hg) as (_ & Hgeo & _ & Hpg & Hrs).
    pose proof Hg as (ar & Ha & _)%get_bin_Some. rewrite Hrs.
    apply wp_bind. apply wp_bind. eapply wp_mono; [by apply (arena_run_alloc_ok cfg h U a ar)|].
    intros [[r|] h1] _ [Hgr Hr]; cbn [wp].
    2:{ pose proof (get_bin_same h h1 a bi (gr_bins _ _ _ Hgr)) as Eg. rewrite Hg in Eg. rewrite Eg. cbn [lift].
        by destruct (hard_failed h U K h1 a bi b) as (h2 & -> & Hp). }
    destruct Hr as (Hnone & Hi1 & c & ch & Hrc & Hc & Hca).
    set (rh := arena_run_init bi b). set (h2 := put_run h1 r rh).
    assert (Hi2 : runs_inv cfg h2 (<[r := run_size b / PG]> U)) by (destruct Hi1; by split).
    assert (Eg : get_bin h2 a bi = Some b) by (rewrite <- Hg; apply (get_bin_same h h1), Hgr).
    rewrite Eg. cbn [lift].
    destruct (put_bin_ok h2 _ a bi b (set_runcur b (Some r)) Hi2 Eg)
      as (h3 & -> & Hi3 & Hg3 & Ho3 & Hl3 & El3 & Ec3 & Er3). cbn [lift].
    destruct (arena_run_init_ok b Hgeo bi) as [Hri Hnf]. fold rh in Hri, Hnf.
    destruct (geom_bounds b Hgeo) as (G1 & _).
    assert (HK : K !! r = None).
    { destruct (K !! r) as [y|] eqn:Ek; [|done].
      destruct (bi_small _ _ _ Hb r y Ek) as (? & ? & ? & _ & _ & Hu & _). congruence. }
    apply (finish_malloc h U K h3 (<[r := run_size b / PG]> U) a bi b b (set_runcur b (Some r)) r rh); auto; try done.
    + intros a2 bi2 Hne. rewrite Ho3 by done. apply (get_bin_same h h1), Hgr.
    + apply (arenas_like_trans h h2); [apply arenas_like_bins, Hgr|done].
    + intros x y Hk. destruct (bi_small _ _ _ Hb x y Hk) as (a' & ? & ? & Ho & _). rewrite Ho.
      unfold owner. rewrite Ec3. by apply (owner_grows h h1).
    + unfold owner. rewrite Ec3. cbn. destruct (ri_chunk _ _ _ Hi1 c ch Hc) as [[P1 P2 P3 _ _] _].
      rewrite (addr2base cfg c r) by (auto; lia). rewrite Hc. cbn. congruence.
    + by rewrite lookup_insert_eq.
    + rewrite Er3. cbn. by rewrite lookup_insert_eq.
    + intros x Hx. rewrite Er3. cbn. rewrite lookup_insert_ne by done. by rewrite (gr_runs _ _ _ Hgr).
    + lia.
    + cbn. rewrite Hruns. apply not_elem_of_nil.
    + cbn. by rewrite Hruns.
    + intros x xh Hx Hk Ho Hh Hl. eapply (relist h b _ r); eauto. rewrite Hruns. exact Hcur.
    + right. do 3 (split; [done|]). intros reg Hreg. by apply arena_run_init_free.
    + rewrite El3. apply Hgr.
    + rewrite El3. apply Hgr.
  - destruct (runcur_ok h U K a bi b r Hb Hg) as (rh & Hk & Ho & Hu & Hh & Hbin & Hri & Hl).
    { right. rewrite Hruns. set_solver. }
    destruct (put_bin_ok h U a bi b (set_runs b l) Hi Hg)
      as (h1 & -> & Hi1 & Hg1 & Ho1 & Hl1 & El1 & Ec1 & Er1). cbn [lift]. rewrite Hg1. cbn [lift].
    destruct (put_bin_ok h1 U a bi _ (set_runcur (set_runs b l) (Some r)) Hi1 Hg1)
      as (h2 & -> & Hi2 & Hg2 & Ho2 & Hl2 & El2 & Ec2 & Er2). cbn [lift].
    inversion Hsort as [|? ? Hsl Hall]; subst. rewrite Forall_forall in Hall.
    assert (Hnf : 0 < nfree rh).
    { apply Hl; [|rewrite Hruns; set_solver]. intros Hc. apply (Hcur r Hc). set_solver. }
    assert (Hrl : r ∉ l) by (intros Hin; specialize (Hall r Hin); lia).
    apply (finish_malloc h U K h2 U a (bin rh) b (set_runs b l) (set_runcur (set_runs b l) (Some r)) r rh);
      auto; try done.
    + intros a2 bi2 Hne. rewrite Ho2, Ho1 by done. done.
    + by apply (arenas_like_trans h h1).
    + intros x y _. unfold owner. by rewrite Ec2, Ec1.
    + unfold owner. rewrite Ec2, Ec1. done.
    + by rewrite Er2, Er1.
    + intros x _. by rewrite Er2, Er1.
    + cbn. rewrite Hruns. set_solver.
    + intros x xh Hx Hkx Hox Hhx Hlx. eapply (relist h b _ r); eauto.
      * rewrite Hruns. intros y. apply Hcur.
      * cbn. rewrite Hruns. intros y Hy. set_solver.
    + rewrite El2, El1. apply keeps_refl, (ri_lower _ _ _ Hi).
    + by rewrite El2, El1.
Qed.

Lemma bin_malloc_ok h U K a bi b :
  runs_inv cfg h U -> bins_inv h U K -> get_bin h a bi = Some b ->
  wp ab (bin_malloc cfg h a bi) (alloc_post h U K (reg_size b)).
Proof.
  intros Hi Hb Hg. unfold bin_malloc. rewrite Hg. cbn [lift].
  destruct (runcur b) as [r|] eqn:Hc.
  - destruct (runcur_ok h U K a bi b r Hb Hg (or_introl Hc)) as (rh & Hk & Ho & Hu & Hh & Hbin & Hri & Hl).
    rewrite Hh. cbn [lift]. destruct (0 <? nfree rh) eqn:En; b2p; cbn [lift].
    + apply (finish_malloc h U K h U a bi b b b r rh); auto; try done.
      * apply arenas_like_refl.
      * by eapply bi_cur.
      * by eapply bi_sorted.
      * apply keeps_refl, (ri_lower _ _ _ Hi).
    + apply hard_ok; auto. intros x xh Hx Hhx. rewrite Hc in Hx. injection Hx as <-.
      assert (xh = rh) as -> by congruence. done.
  - apply hard_ok; auto. intros x xh Hx. congruence.
Qed.
(** ** The allocator as a map from block addresses to usable sizes *)

Definition heap_inv (h : heap) (B : gmap Z Z) : Prop :=
  exists U K, runs_inv cfg h U /\ bins_inv h U K /\
    forall p n, B !! p = Some n <-> block h U K p n.

(** The contents of the blocks of [B] are the same in both states. *)
Definition same_data (B : gmap Z Z) (h h' : heap) : Prop :=
  forall p n x, B !! p = Some n -> in_range p n x ->
    vm_read (kernel (lower h')) x = vm_read (kernel (lower h)) x.

(** The size of the block a request is served with. *)
Definition usable_size (sz : Z) : Z :=
  if sz <=? bin_maxclass cfg then bin_reg_size cfg (fst (size2bin cfg sz))
  else if sz <=? arena_maxclass cfg then PAGE_CEILING cfg sz
  else CHUNK_CEILING cfg sz.

(** An allocation that returns [NULL] changes no block; one that succeeds adds a
    block of [n] bytes at a new address. *)
Definition alloc_spec (h : heap) (B : gmap Z Z) (n : Z) (r : option Z * heap) : Prop :=
  let '(ro, h') := r in
  same_data B h h' /\
  match ro with
  | Some p => B !! p = None /\ heap_inv h' (<[p := n]> B)
  | None => heap_inv h' B
  end.

(** Writing inside the block [[p, p + n)]. *)
Definition writes_in (p n : Z) (f : vm -> vm) : Prop :=
  forall v, vm_ok v -> vm_ok (f v) /\ (forall x, mapped (f v) x <-> mapped v x) /\
    (forall x, ~ in_range p n x -> vm_read (f v) x = vm_read v x).

Lemma writes_in_sub p n p' n' f :
  p <= p' -> p' + n' <= p + n -> writes_in p' n' f -> writes_in p n f.
Proof.
  intros Hp Hn Hf v Hv. destruct (Hf v Hv) as (H1 & H2 & H3). do 2 (split; [done|]).
  intros x Hx. apply H3. unfold in_range in *. lia.
Qed.

Lemma fill_new_writes p n : writes_in p n (fun v => fill_new cfg v p n).
Proof. intros v Hv. by apply (fill_new_ok cfg). Qed.

Lemma vm_write_writes p n g : writes_in p n (fun v => vm_write v p n (g v)).
Proof.
  intros v Hv. split; [by apply vm_write_ok|]. split; [intros; apply vm_write_mapped|].
  intros x Hx. by apply vm_write_out.
Qed.

Lemma write_inv h U K f p n :
  runs_inv cfg h U -> bins_inv h U K -> writes_in p n f ->
  runs_inv cfg (write_vm h f) U /\ bins_inv (write_vm h f) U K /\
  same_blocks h U K (write_vm h f) U K.
Proof.
  intros Hi Hb Hf. destruct (Hf (kernel (lower h)) (cs_vm _ _ (ri_lower _ _ _ Hi))) as (F1 & F2 & F3).
  split; [by apply runs_inv_write|]. split; [|done]. by eapply (bins_inv_frame h U).
Qed.

Lemma heap_inv_write h B f p n : heap_inv h B -> writes_in p n f -> heap_inv (write_vm h f) B.
Proof.
  intros (U & K & Hi & Hb & HB) Hf. destruct (write_inv h U K f p n Hi Hb Hf) as (Hi' & Hb' & Hs).
  exists U, K. do 2 (split; [done|]). intros q m. rewrite HB. symmetry. apply Hs.
Qed.

(** Blocks of the map do not overlap. *)
Lemma heap_disjoint h B p n p' n' x :
  heap_inv h B -> B !! p = Some n -> B !! p' = Some n' -> in_range p n x -> in_range p' n' x -> p = p'.
Proof.
  intros (U & K & Hi & Hb & HB) Hp Hp' Hx Hx'. apply HB in Hp, Hp'.
  by destruct (block_disjoint h U K p n p' n' x Hi Hb Hp Hp' Hx Hx').
Qed.

Lemma adds_inv h U K p n h' U' K' B :
  (forall q m, B !! q = Some m <-> block h U K q m) ->
  runs_inv cfg h' U' -> bins_inv h' U' K' -> adds h U K p n h' U' K' ->
  B !! p = None /\ heap_inv h' (<[p := n]> B).
Proof.
  intros HB Hi' Hb' [Hnew Hadd].
  assert (Hnone : B !! p = None).
  { destruct (B !! p) as [m|] eqn:E; [|done]. apply HB in E. by destruct (Hnew m). }
  split; [done|]. exists U', K'. do 2 (split; [done|]). intros q m.
  rewrite Hadd, lookup_insert_Some, HB. split; [intros [[<- <-]|[_ ?]]; tauto|].
  intros [Hq|[-> ->]]; [|tauto]. destruct (decide (p = q)) as [->|?]; [|tauto]. by destruct (Hnew m).
Qed.

(** The block just added, filled by a write inside it. *)
Lemma alloc_fill h B U K n h' p f :
  (forall q m, B !! q = Some m <-> block h U K q m) -> runs_inv cfg h U -> bins_inv h U K ->
  alloc_post h U K n (Some p, h') -> writes_in p n f ->
  alloc_spec h B n (Some p, write_vm h' f).
Proof.
  intros HB Hi Hb (U' & K' & Hi' & Hb' & Hk & Hadd) Hf.
  destruct (adds_inv h U K p n h' U' K' B HB Hi' Hb' Hadd) as [Hnone Hinv].
  destruct (Hf (kernel (lower h')) (cs_vm _ _ (ri_lower _ _ _ Hi'))) as (_ & _ & F3).
  split; [|split; [done|by eapply heap_inv_write]].
  intros q m x Hq Hx. cbn. rewrite F3.
  - apply Hk. apply HB in Hq. by apply (block_mapped h U K q m x Hi Hb Hq Hx).
  - intros Hxp. assert (Hne : p <> q) by congruence. apply Hne.
    apply (heap_disjoint h' (<[p := n]> B) p n q m x); auto; [by rewrite lookup_insert_eq|].
    by rewrite lookup_insert_ne.
Qed.

Lemma alloc_none h B U K n h' :
  (forall q m, B !! q = Some m <-> block h U K q m) -> runs_inv cfg h U -> bins_inv h U K ->
  alloc_post h U K n (None, h') -> alloc_spec h B n (None, h').
Proof.
  intros HB Hi Hb (U' & K' & Hi' & Hb' & Hk & Hs). split.
  - intros q m x Hq Hx. apply Hk. apply HB in Hq. by apply (block_mapped h U K q m x Hi Hb Hq Hx).
  - exists U', K'. do 2 (split; [done|]). intros q m. rewrite HB. symmetry. apply Hs.
Qed.

(** ** [arena_malloc] *)

Lemma size2bin_fits sz :
  1 <= sz <= bin_maxclass cfg ->
  best_fit cfg sz (fst (size2bin cfg sz)) /\
  snd (size2bin cfg sz) <= bin_reg_size cfg (fst (size2bin cfg sz)).
Proof.
  intros Hsz. split; [by apply size2bin_best_fit|].
  destruct (Z.lt_ge_cases sz (small_min cfg)).
  - destruct (decide (sz = 1)) as [->|]; [|destruct (size2bin_tiny cfg sz) as [_ ->]; lia].
    destruct (size2bin_tiny cfg 1) as [(_ & H1 & _) _]; [lia|].
    revert H1. unfold size2bin. rewrite (proj2 (Z.ltb_lt 1 (small_min cfg))) by lia. by cbn.
  - destruct (Z.le_gt_cases sz (small_max cfg)).
    + destruct (size2bin_quantum cfg sz) as [_ ->]; lia.
    + destruct (size2bin_subpage cfg sz) as [_ ->]; lia.
Qed.

Lemma large_alloc h U K a ar need :
  runs_inv cfg h U -> bins_inv h U K -> get_arena h a = Some ar -> 1 <= need <= N - HD ->
  wp ab (arena_run_alloc cfg h a (need * PG)) (alloc_post h U K (need * PG)).
Proof.
  intros Hi Hb Ha Hn. eapply wp_mono; [by apply (arena_run_alloc_ok cfg h U a ar)|].
  intros [[r|] h'] _ [Hg Hr].
  - destruct Hr as (Hnone & Hi' & _). exists (<[r := need]> U), K. split; [done|].
    assert (HU : forall x m, U !! x = Some m -> <[r := need]> U !! x = Some m).
    { intros x m Hx. rewrite lookup_insert_ne; [done|]. congruence. }
    assert (HK : K !! r = None).
    { destruct (K !! r) as [y|] eqn:Ek; [|done].
      destruct (bi_small _ _ _ Hb r y Ek) as (? & ? & ? & _ & _ & Hu & _). congruence. }
    assert (Hb' : bins_inv h' (<[r := need]> U) K) by (by eapply bins_inv_grows).
    do 2 (split; [done || apply Hg|]).
    pose proof (fun q m => small_block_grows h U K h' q m Hb Hg) as Hs.
    assert (Hl : forall q m, large_block (<[r := need]> U) K q m <-> large_block U K q m \/ (q = r /\ m = need * PG)).
    { intros q m. unfold large_block. split.
      - intros (k & [[-> ->]|[Hne Hk]]%lookup_insert_Some & Hkk & ->); [by right|left; eauto].
      - intros [(k & Hk & Hkk & ->)|[-> ->]]; [exists k; auto|].
        exists need. by rewrite lookup_insert_eq. }
    split.
    + intros m [[x Hx]|[(k & Hk & _)|(y & Hy & Ey & _)]]; [| congruence |].
      * destruct (run_block_bounds h U K x r m Hb Hx) as (k & Hk & ? & ? & ?).
        destruct (chunk_geometry cfg) as (_ & _ & HPG & _).
        assert (x = r) as ->; [|lia]. eapply (runs_disjoint cfg h' (<[r := need]> U)) with (x := r); eauto.
        -- by rewrite lookup_insert_eq.
        -- unfold in_range. lia.
        -- unfold in_range. nia.
      * destruct (chunk_geometry cfg) as (_ & _ & HPG & _).
        destruct (run_placed cfg h' (<[r := need]> U) r need r Hi') as (_ & _ & _ & _ & _ & Hnh);
          [by rewrite lookup_insert_eq|unfold in_range; nia|]. rewrite (gr_huge _ _ _ Hg) in Hnh.
        apply (Hnh y Hy). rewrite Ey. unfold in_range.
        pose proof (cs_huge _ _ (ri_lower _ _ _ Hi)) as Hho. rewrite Forall_forall in Hho.
        destruct (Hho y Hy) as (_ & ? & _). lia.
    + intros q m. unfold block. rewrite Hs, Hl. unfold huge_block. rewrite (gr_huge _ _ _ Hg). tauto.
  - exists U, K. split; [done|]. split; [by eapply bins_inv_grows|]. split; [apply Hg|].
    by apply block_grows.
Qed.

(** The common end of both branches: the block found is filled. *)
Lemma filled_ok h B U K n f (o : outcome (option Z * heap)) :
  (forall q m, B !! q = Some m <-> block h U K q m) -> runs_inv cfg h U -> bins_inv h U K ->
  (forall p, writes_in p n (fun v => f v p)) -> wp ab o (alloc_post h U K n) ->
  wp ab (let! (ret, h') := o in
         match ret with
         | None => Ok (None, h')
         | Some p => Ok (Some p, write_vm h' (fun v => f v p))
         end) (alloc_spec h B n).
Proof.
  intros HB Hi Hb Hf Ho. apply wp_bind. eapply wp_mono; [exact Ho|]. intros [[p|] h'] _ Hp; cbn [wp].
  - by eapply alloc_fill.
  - by eapply alloc_none.
Qed.

(** The small branch, for any size it sends to an existing bin. *)
Lemma arena_malloc_small h B a ar sz :
  heap_inv h B -> get_arena h a = Some ar -> sz <= bin_maxclass cfg ->
  0 <= fst (size2bin cfg sz) < nbins cfg ->
  snd (size2bin cfg sz) <= bin_reg_size cfg (fst (size2bin cfg sz)) ->
  wp ab (arena_malloc cfg h a sz) (alloc_spec h B (bin_reg_size cfg (fst (size2bin cfg sz)))).
Proof.
  intros (U & K & Hi & Hb & HB) Ha Hsz Hbi Hsnd. unfold arena_malloc. rewrite (proj2 (Z.leb_le _ _) Hsz).
  destruct (size2bin cfg sz) as [bi n]. cbn [fst snd] in *.
  destruct (bi_geom _ _ _ Hb a ar Ha) as [Hlen Hfor].
  destruct (zget_is_Some (bins ar) bi) as [b Hz]; [lia|].
  pose proof (Hfor bi b Hz) as [Hrs _].
  assert (Hg : get_bin h a bi = Some b) by (apply get_bin_Some; eauto).
  pose proof (filled_ok h B U K (reg_size b) (fun v p => fill_new cfg v p n) (bin_malloc cfg h a bi) HB Hi Hb) as Hf.
  pose proof (bin_malloc_ok h U K a bi b Hi Hb Hg) as Hl. rewrite Hrs in *.
  destruct (bin_malloc cfg h a bi) as [[ro h']| |] eqn:Em; cbn in *;
    (apply Hf; [intros p; eapply writes_in_sub; [| |apply fill_new_writes]; lia|done]).
Qed.

Lemma arena_malloc_ok h B a ar sz :
  heap_inv h B -> get_arena h a = Some ar -> 1 <= sz <= arena_maxclass cfg ->
  wp ab (arena_malloc cfg h a sz) (alloc_spec h B (usable_size sz)).
Proof.
  intros Hinv Ha Hsz. unfold usable_size. destruct (sz <=? bin_maxclass cfg) eqn:Es; b2p.
  - destruct (size2bin_fits sz) as [(Hbi & _) Hsnd]; [lia|]. by eapply arena_malloc_small.
  - destruct Hinv as (U & K & Hi & Hb & HB). unfold arena_malloc.
    rewrite (proj2 (Z.leb_gt sz (bin_maxclass cfg))), (proj2 (Z.leb_le sz (arena_maxclass cfg))) by lia.
    destruct (chunk_geometry cfg) as (HCS & HH & HPG & HC & HN). destruct (pagesize_bounds cfg) as [_ Hmx].
    destruct (page_ceiling cfg sz) as [Hpc Hmod]; [lia|lia|].
    apply Z.mod_divide in Hmod as [k Hk]; [|lia]. rewrite Hk in *.
    assert (Hkb : 1 <= k <= N - HD).
    { rewrite ok_maxclass, <- ok_pagesize in Hsz. split; nia. }
    pose proof (large_alloc h U K a ar k Hi Hb Ha Hkb) as Hl.
    pose proof (filled_ok h B U K (k * PG) (fun v p => fill_new cfg v p (k * PG)) (arena_run_alloc cfg h a (k * PG)) HB Hi Hb) as Hf.
    destruct (arena_run_alloc cfg h a (k * PG)) as [[ro h']| |] eqn:Em; cbn in *;
      (apply Hf; [intros p; apply fill_new_writes|done]).
Qed.

(** A size of 0, which only [ipalloc] can pass down, is served as 1: by the bin
    of the smallest class. *)
Lemma size2bin_zero : size2bin cfg 0 = (0, 0) /\ fst (size2bin cfg 1) = 0.
Proof.
  destruct (exponents cfg) as (Hq & _). pose proof ok_small_min as Em.
  pose proof (pow2_le_mono 1 (opt_quantum_2pow (opts cfg) - 1) ltac:(lia)) as H2. change (2 ^ 1) with 2 in H2.
  unfold size2bin. rewrite !(proj2 (Z.ltb_lt _ (small_min cfg))) by lia. split; reflexivity.
Qed.

Lemma arena_malloc_zero h B a ar :
  heap_inv h B -> get_arena h a = Some ar ->
  wp ab (arena_malloc cfg h a 0) (alloc_spec h B (usable_size 1)).
Proof.
  intros Hinv Ha. destruct size2bin_zero as [E0 E1]. pose proof ok_bin_maxclass as Em. pose proof (pow2_pos (pagesize_2pow cfg - 1) ltac:(pose proof ok_p; lia)) as Hp.
  destruct (size2bin_fits 1) as [(Hbi & Hle & _) _]; [lia|]. rewrite E1 in *.
  unfold usable_size. rewrite (proj2 (Z.leb_le 1 _)), E1 by lia.
  pose proof (arena_malloc_small h B a ar 0) as Hs. rewrite E0 in Hs. cbn [fst snd] in Hs. apply Hs; try done; lia.
Qed.

(** ** Looking a pointer up *)

Lemma map_used ch pre n post k :
  chunk_inv cfg ch (pre ++ Used n :: post) -> 0 <= k < n ->
  zget (chunk_map ch) (HD + total pre + k) = Some (mk_mapelm n k).
Proof.
  intros Hci Hk. destruct (inv_split cfg _ _ _ Hci) as (_ & Hrep & _).
  cbn [map_rep] in Hrep. destruct Hrep as (_ & Hrep & _). by apply Hrep.
Qed.

(** Any address of a run leads to the first page of the run. *)
Lemma small_run_ok h U r n p :
  runs_inv cfg h U -> U !! r = Some n -> in_range r (n * PG) p ->
  exists ch k, chunk_hdrs h !! CHUNK_ADDR2BASE cfg p = Some ch /\ owner h r = Some (chunk_arena ch) /\
    small_run cfg ch (CHUNK_ADDR2BASE cfg p) p
    = Some (if decide (p = r) then None else Some r, mk_mapelm n k).
Proof.
  intros Hi HU Hp. destruct (chunk_geometry cfg) as (HCS & HH & HPG & HC & HN).
  destruct (run_placed cfg h U r n p Hi HU Hp) as (_ & _ & _ & Eb' & _).
  destruct (run_chunk cfg h U r n Hi HU)
    as (c & ch & pre & post & ar & Hc & [P1 P2 P3 _ _] & Eb & Hr & Hci & _ & Er & Hn & Hpre & Hend & _).
  exists ch. pose proof (Z.div_mod (p - r) PG ltac:(lia)) as Hdm.
  pose proof (Z.mod_pos_bound (p - r) PG ltac:(lia)) as Hmb.
  set (k := (p - r) / PG) in *. set (o := (p - r) mod PG) in *. unfold in_range in Hp.
  assert (Hk : 0 <= k < n).
  { split; [apply Z.div_pos; lia|]. apply Z.div_lt_upper_bound; lia. }
  assert (Ep : p = c + (HD + total pre + k) * PG + o) by lia.
  exists k. rewrite Eb', Eb. split; [done|]. split; [unfold owner; by rewrite Eb, Hc|].
  assert (Hpi : page_index cfg c p = HD + total pre + k) by (rewrite Ep; apply (page_index_ok cfg); lia).
  unfold small_run. rewrite Hpi.
  rewrite (map_used ch pre n post k Hci Hk). cbn [pos].
  assert (Hu : u32 (HD + total pre + k - k) = HD + total pre).
  { replace (HD + total pre + k - k) with (HD + total pre) by lia. apply u32_small. lia. }
  rewrite Hu, (page_addr_ok cfg c (HD + total pre)), <- Er by lia.
  rewrite (page_addr_ok cfg c (HD + total pre + k)) by lia.
  case_decide as Hd.
  - assert (k = 0) by nia. assert (o = 0) by nia.
    rewrite (proj2 (Z.eqb_eq k 0)), (proj2 (Z.eqb_eq p _)) by lia. done.
  - replace (negb (k =? 0) || negb (p =? c + (HD + total pre + k) * PG)) with true; [done|].
    symmetry. apply orb_true_iff. rewrite !negb_true_iff, !Z.eqb_neq.
    destruct (decide (k = 0)) as [->|]; [right; lia|by left].
Qed.
(** A small block, found from its pointer. *)
Lemma small_lookup h U K r p n :
  runs_inv cfg h U -> bins_inv h U K -> run_block h K r p n ->
  exists ch k m bi b rh reg, chunk_hdrs h !! CHUNK_ADDR2BASE cfg p = Some ch /\
    small_run cfg ch (CHUNK_ADDR2BASE cfg p) p = Some (Some r, mk_mapelm m k) /\
    U !! r = Some (run_size b / PG) /\
    K !! r = Some bi /\ owner h r = Some (chunk_arena ch) /\ get_bin h (chunk_arena ch) bi = Some b /\
    run_hdrs h !! r = Some rh /\ bin rh = bi /\ run_inv b rh /\ run_listed b r rh /\
    0 <= reg < nregs b /\ reg_free rh reg = false /\
    p = reg_addr r b reg /\ p = r + reg0_offset b + reg_size b * reg /\ n = reg_size b /\
    0 <= r /\ r + run_size b < 2 ^ 64.
Proof.
  intros Hi Hb Hr. destruct (run_block_bounds h U K r p n Hb Hr) as (m & HU & Hlo & Hhi & H2).
  destruct (small_run_ok h U r m p Hi HU) as (ch & k & Hc & Hoc & Hs); [unfold in_range; lia|].
  rewrite decide_False in Hs by lia.
  destruct Hr as (bi & a & b & rh & reg & Hk & Ho & Hg & Hh & Hreg & Hf & -> & ->).
  assert (a = chunk_arena ch) as -> by congruence.
  destruct (bi_small _ _ _ Hb r bi Hk) as (a' & b' & rh' & Ho' & Hg' & HU' & Hh' & Hbin & Hri & Hl).
  assert (a' = chunk_arena ch) as -> by congruence. assert (b' = b) as -> by congruence.
  assert (rh' = rh) as -> by congruence. assert (m = run_size b / PG) as -> by congruence.
  destruct (bin_facts h U K _ bi b Hb Hg) as (_ & Hgeo & _ & Hpg & Hrs).
  destruct (chunk_geometry cfg) as (_ & _ & HPG & _).
  destruct (run_placed cfg h U r _ r Hi HU) as (Hr0 & Hrend & _); [unfold in_range; nia|].
  rewrite <- Hrs in Hrend. exists ch, k, (run_size b / PG), bi, b, rh, reg.
  do 11 (split; [done|]). split; [done|]. split; [by rewrite (reg_addr_eq b Hgeo) by lia|].
  do 2 (split; [done|]). lia.
Qed.

Lemma arena_salloc_ok h U K p n :
  runs_inv cfg h U -> bins_inv h U K -> small_block h K p n \/ large_block U K p n ->
  arena_salloc cfg h p = Some n.
Proof.
  intros Hi Hb [[r Hs]|Hl]; unfold arena_salloc.
  - destruct (small_lookup h U K r p n Hi Hb Hs)
      as (ch & k & m & bi & b & rh & reg & -> & -> & _ & _ & _ & Hg & -> & -> & _ & _ & _ & _ & _ & _ & -> & _).
    by rewrite Hg.
  - destruct (large_bounds h U K p n Hi Hl) as (m & HU & -> & Hn).
    destruct (chunk_geometry cfg) as (HCS & HH & HPG & HC & HN).
    destruct (small_run_ok h U p m p Hi HU) as (ch & k & -> & _ & ->); [unfold in_range; lia|].
    rewrite decide_True by done. cbn [npages]. pose proof ok_p as Hp.
    destruct (run_chunk cfg h U p m Hi HU)
      as (c & ch' & pre & post & ar & _ & _ & _ & _ & _ & _ & _ & Hm & Hpre & Hend & _).
    rewrite Z.shiftl_mul_pow2, <- ok_pagesize by lia. rewrite u32_small; [done|nia].
Qed.

(** Every block is off the chunk boundaries, unless it is huge. *)
Lemma block_base h U K p n :
  runs_inv cfg h U -> bins_inv h U K ->
  (small_block h K p n \/ large_block U K p n -> CHUNK_ADDR2BASE cfg p <> p) /\
  (huge_block h p n -> CHUNK_ADDR2BASE cfg p = p).
Proof.
  intros Hi Hb. destruct (chunk_geometry cfg) as (HCS & HH & HPG & HC & HN). split.
  - assert (Hrun : forall r m, U !! r = Some m -> in_range r (m * PG) p -> CHUNK_ADDR2BASE cfg p <> p).
    { intros r m HU Hp. destruct (run_placed cfg h U r m p Hi HU Hp) as (_ & _ & _ & -> & _).
      destruct (run_chunk cfg h U r m Hi HU)
        as (c & ch' & pre & post & ar & _ & _ & -> & _ & _ & _ & Er & Hm & Hpre & _).
      unfold in_range in Hp. nia. }
    intros [[r Hs]|Hl].
    + destruct (run_block_bounds h U K r p n Hb Hs) as (m & HU & Hlo & Hhi & H2).
      apply (Hrun r m HU). unfold in_range. lia.
    + destruct (large_bounds h U K p n Hi Hl) as (m & HU & -> & Hn).
      apply (Hrun p m HU). unfold in_range. lia.
  - intros (m & Hm & <- & <-). pose proof (cs_huge _ _ (ri_lower _ _ _ Hi)) as Hh.
    rewrite Forall_forall in Hh. destruct (Hh m Hm) as (M1 & M2 & M3 & M4 & M5).
    unfold CHUNK_ADDR2BASE. pose proof ok_k as Hk. pose proof ok_p as Hp. rewrite ok_chunksize_mask.
    rewrite land_not64_mask by lia. rewrite ok_chunksize in M3.
    symmetry. apply Z.div_exact; [|done]. pose proof (pow2_pos (opt_chunk_2pow (opts cfg))). lia.
Qed.
(** ** Releasing a block *)

(** The blocks of [h'] are those of [h] but the one at [p], with their contents. *)
Definition free_post (h : heap) (U K : gmap Z Z) (p : Z) (h' : heap) : Prop :=
  exists U' K', runs_inv cfg h' U' /\ bins_inv h' U' K' /\
    (forall q m, block h' U' K' q m <-> block h U K q m /\ q <> p) /\
    (forall q m x, block h' U' K' q m -> in_range q m x ->
       vm_read (kernel (lower h')) x = vm_read (kernel (lower h)) x).

(** A block lies in an allocated run or is a huge object. *)
Lemma block_where h U K q m x :
  bins_inv h U K -> block h U K q m -> in_range q m x ->
  (exists r k, U !! r = Some k /\ in_range r (k * PG) x) \/
  (exists o, o ∈ huge (lower h) /\ in_range (chunk o) (size o) x).
Proof.
  intros Hb [[r Hs]|[(k & HU & _ & ->)|(o & Ho & <- & <-)]] Hx; [left|left; eauto|right; eauto].
  destruct (run_block_bounds h U K r q m Hb Hs) as (k & HU & ? & ? & ?).
  exists r, k. split; [done|]. unfold in_range in *. lia.
Qed.

(** No small or huge block starts where a run does. *)
Lemma block_not_run h U K r k q m :
  runs_inv cfg h U -> bins_inv h U K -> U !! r = Some k ->
  small_block h K q m \/ huge_block h q m -> q <> r.
Proof.
  intros Hi Hb HU Hq ->.
  destruct (run_chunk cfg h U r k Hi HU) as (c & ch & pre & post & ar & _ & _ & _ & _ & _ & _ & _ & Hn & _).
  destruct (chunk_geometry cfg) as (_ & _ & HPG & _). destruct Hq as [[x Hx]|(o & Ho & E & <-)].
  - destruct (run_block_bounds h U K x r m Hb Hx) as (j & Hj & ? & ? & ?).
    enough (x = r) by lia. eapply (runs_disjoint cfg h U) with (x := r); eauto; unfold in_range; nia.
  - destruct (run_placed cfg h U r k r Hi HU) as (_ & _ & _ & _ & _ & Hnh); [unfold in_range; nia|].
    apply (Hnh o Ho). pose proof (cs_huge _ _ (ri_lower _ _ _ Hi)) as Hho. rewrite Forall_forall in Hho.
    destruct (Hho o Ho) as (_ & ? & _). unfold in_range. lia.
Qed.

Lemma small_block_shrinks h U K h' U' p n q m :
  bins_inv h U K -> shrinks cfg p n h h' -> runs_inv cfg h' U' ->
  (forall r bi, K !! r = Some bi -> U' !! r = U !! r) ->
  small_block h' K q m <-> small_block h K q m.
Proof.
  intros Hb Hs Hi' HU.
  assert (Hr : forall x, run_block h' K x q m <-> run_block h K x q m).
  { intros x. destruct (K !! x) as [y|] eqn:Ek.
    - destruct (bi_small _ _ _ Hb x y Ek) as (a & b & rh & Ho & _ & Hu & _).
      apply run_block_iff; [apply bins_like_same, Hs|done| |by rewrite (sh_runs _ _ _ _ _ Hs)].
      rewrite Ho. eapply owner_shrinks; eauto. by rewrite (HU x y Ek).
    - split; intros (? & ? & ? & ? & ? & Hk & _); congruence. }
  unfold small_block. split; intros [x Hx]; exists x; by apply Hr.
Qed.

(** The run at [r] is given back: what is left keeps its contents. *)
Lemma run_release h U K r k h' :
  runs_inv cfg h U -> bins_inv h U K -> U !! r = Some k -> K !! r = None ->
  runs_inv cfg h' (delete r U) -> shrinks cfg r (k * PG) h h' ->
  bins_inv h' (delete r U) K /\
  (forall q m, block h' (delete r U) K q m <-> block h U K q m /\ q <> r) /\
  (forall q m x, block h' (delete r U) K q m -> in_range q m x ->
     vm_read (kernel (lower h')) x = vm_read (kernel (lower h)) x).
Proof.
  intros Hi Hb HU HK Hi' Hs.
  assert (HKr : forall x y, K !! x = Some y -> x <> r) by (intros x y Hx ->; congruence).
  assert (HUx : forall x y, K !! x = Some y -> delete r U !! x = U !! x)
    by (intros x y Hx; rewrite lookup_delete_ne; [done|]; symmetry; by eapply HKr).
  assert (Hb' : bins_inv h' (delete r U) K) by (by eapply bins_inv_shrinks).
  assert (Hblk : forall q m, block h' (delete r U) K q m <-> block h U K q m /\ q <> r).
  { intros q m. unfold block, huge_block. rewrite (sh_huge _ _ _ _ _ Hs).
    pose proof (small_block_shrinks h U K h' (delete r U) r (k * PG) q m Hb Hs Hi' HUx) as Hsm.
    assert (Hlb : large_block (delete r U) K q m <-> large_block U K q m /\ q <> r).
    { unfold large_block. split.
      - intros (j & [Hne Hj]%lookup_delete_Some & Hjk & ->). split; [eauto|done].
      - intros [(j & Hj & Hjk & ->) Hne]. exists j. by rewrite lookup_delete_ne. }
    pose proof (block_not_run h U K r k q m Hi Hb HU) as Hnr. unfold huge_block in Hnr.
    rewrite Hsm, Hlb. tauto. }
  split; [done|]. split; [done|]. intros q m x Hq Hx.
  pose proof (proj1 (Hblk q m) Hq) as [Hq0 _].
  destruct (block_mapped h U K q m x Hi Hb Hq0 Hx) as [Hmap _].
  destruct (block_mapped h' _ K q m x Hi' Hb' Hq Hx) as [_ Hin]. rewrite (sh_huge _ _ _ _ _ Hs) in Hin.
  apply (sh_vm _ _ _ _ _ Hs); auto. intros Hxr.
  destruct (block_where h' _ K q m x Hb' Hq Hx) as [(y & j & Hj & Hxy)|(o & Ho & Hxo)].
  - apply lookup_delete_Some in Hj as [Hne Hj]. apply Hne. by eapply (runs_disjoint cfg h U).
  - rewrite (sh_huge _ _ _ _ _ Hs) in Ho.
    destruct (run_placed cfg h U r k x Hi HU Hxr) as (_ & _ & _ & _ & _ & Hnh). by apply (Hnh o Ho).
Qed.

(** *** Large blocks *)

Lemma large_dalloc h U K p k a :
  runs_inv cfg h U -> bins_inv h U K -> U !! p = Some k -> K !! p = None -> owner h p = Some a ->
  wp ab (arena_run_dalloc cfg h a p (k * PG)) (free_post h U K p).
Proof.
  intros Hi Hb HU HK Ho. eapply wp_mono; [by apply (arena_run_dalloc_ok cfg h U)|].
  intros h' _ [Hi' Hs]. destruct (run_release h U K p k h') as (Hb' & Hblk & Hvm); auto.
  by exists (delete p U), K.
Qed.
(** *** Small blocks *)

Section region.
Context (h : heap) (U K : gmap Z Z) (a bi r : Z) (b : arena_bin) (rh rh' : arena_run) (reg : Z).
Context (Hi : runs_inv cfg h U) (Hb : bins_inv h U K).
Context (Hk : K !! r = Some bi) (Ho : owner h r = Some a) (Hg : get_bin h a bi = Some b).
Context (Hh : run_hdrs h !! r = Some rh) (HU : U !! r = Some (run_size b / PG)).
Context (Hri : run_inv b rh) (Hl : run_listed b r rh).
Context (Hreg : 0 <= reg < nregs b) (Hf : reg_free rh reg = false).
Context (Hri' : run_inv b rh') (Hbin' : bin rh' = bi) (Hnf : nfree rh' = nfree rh + 1).
Context (Hf' : forall reg', 0 <= reg' < nregs b ->
  reg_free rh' reg' = if decide (reg' = reg) then true else reg_free rh reg').
Let p := r + reg0_offset b + reg_size b * reg.

(** Inside the run, the released region is the only change. *)
Lemma region_gone h2 b2 q m :
  owner h2 r = Some a -> get_bin h2 a bi = Some b2 -> same_geom b b2 ->
  run_hdrs h2 !! r = Some rh' ->
  run_block h2 K r q m <-> run_block h K r q m /\ q <> p.
Proof.
  intros Ho2 Hg2 (Q1 & Q2 & Q3 & Q4 & Q5) Hh2.
  destruct (bin_facts h U K a bi b Hb Hg) as (_ & Hgeo & _).
  destruct (geom_bounds b Hgeo) as (_ & _ & _ & _ & G5).
  rewrite (run_block_at h2 K r q m bi a b2 rh'), (run_block_at h K r q m bi a b rh) by done.
  rewrite Q1, Q3, Q5. split.
  - intros (x & Hx & Hfx & -> & ->). rewrite Hf' in Hfx by done. case_decide; [done|].
    split; [by exists x|]. unfold p. nia.
  - intros [(x & Hx & Hfx & -> & ->) Hne]. exists x. rewrite Hf' by done.
    rewrite decide_False; [done|]. intros ->. done.
Qed.

Lemma not_block_elsewhere q m x :
  q = p -> x <> r -> ~ run_block h K x q m.
Proof.
  intros -> Hne Hx. destruct (run_block_bounds h U K x p m Hb Hx) as (j & Hj & ? & ? & ?).
  destruct (run_block_bounds h U K r p (reg_size b) Hb) as (j' & Hj' & ? & ? & ?).
  { exists bi, a, b, rh, reg. done. }
  apply Hne. eapply (runs_disjoint cfg h U) with (x := p); eauto; unfold in_range; lia.
Qed.

Lemma not_other_block q m : large_block U K q m \/ huge_block h q m -> q <> p.
Proof.
  destruct (run_block_bounds h U K r p (reg_size b) Hb) as (j' & Hj' & ? & ? & ?).
  { exists bi, a, b, rh, reg. done. }
  intros [Hlb|Hhb] ->.
  - destruct (large_bounds h U K p m Hi Hlb) as (j & Hj & -> & Hn).
    destruct (chunk_geometry cfg) as (_ & _ & HPG & _).
    enough (p = r) by lia. eapply (runs_disjoint cfg h U) with (x := p); eauto; unfold in_range; lia.
  - destruct Hhb as (o & Hoo & Ec & <-).
    destruct (run_placed cfg h U r j' p Hi Hj') as (_ & _ & _ & _ & _ & Hn); [unfold in_range; lia|].
    apply (Hn o Hoo). rewrite Ec. pose proof (cs_huge _ _ (ri_lower _ _ _ Hi)) as Hho.
    rewrite Forall_forall in Hho. destruct (Hho o Hoo) as (_ & ? & _). unfold in_range. lia.
Qed.

(** The run stays: only its header and its bin change. *)
Lemma region_freed h2 b2 :
  runs_inv cfg h2 U -> get_bin h2 a bi = Some b2 -> same_geom b b2 ->
  (forall a2 bi2, (a2, bi2) <> (a, bi) -> get_bin h2 a2 bi2 = get_bin h a2 bi2) ->
  arenas_like h h2 ->
  lower h2 = lower h -> chunk_hdrs h2 = chunk_hdrs h -> run_hdrs h2 = <[r := rh']> (run_hdrs h) ->
  run_listed b2 r rh' -> StronglySorted Z.lt (runs b2) ->
  (forall x, runcur b2 = Some x -> x ∉ runs b2) ->
  (forall x, runcur b2 = Some x \/ x ∈ runs b2 -> x = r \/ runcur b = Some x \/ x ∈ runs b) ->
  (forall x xh, x <> r -> run_hdrs h !! x = Some xh -> run_listed b x xh -> run_listed b2 x xh) ->
  free_post h U K p h2.
Proof.
  intros Hi2 Hg2 Hgeo Hoth Hlen El Ec Er Hl2 Hsort Hcur Hlist Hrl. exists U, K. split; [done|].
  assert (Eo : forall x, owner h2 x = owner h x) by (intros x; unfold owner; by rewrite Ec).
  assert (Hr2 : run_hdrs h2 !! r = Some rh') by (by rewrite Er, lookup_insert_eq).
  assert (Hb2 : bins_inv h2 U K).
  { eapply (bins_inv_update h U K) with (r0 := r); [exact Hb|exact Hg|exact Hgeo|exact Hg2|done|done|..]; auto.
    - intros x y Hne _. by rewrite Eo, Er, lookup_insert_ne.
    - intros y Hy. assert (y = bi) as -> by congruence.
      exists a, b2, rh'. rewrite Eo. destruct Hgeo as (Q1 & Q2 & Q3 & Q4 & Q5). rewrite Q2.
      do 5 (split; [done|]). split; [|done]. apply (run_inv_geom b); [by repeat split|done].
    - intros x Hx. destruct (decide (x = r)) as [->|Hne]; [left; by rewrite Eo|right].
      destruct (Hlist x Hx) as [?|?]; done. }
  split; [done|]. split; [|by rewrite El].
  assert (Hlike : bins_like h h2) by (by eapply bins_like_put).
  intros q m. unfold block, huge_block. rewrite El.
  assert (Hs : small_block h2 K q m <-> small_block h K q m /\ q <> p).
  { unfold small_block. split.
    - intros [x Hx]. destruct (decide (x = r)) as [->|Hne].
      + apply (region_gone h2 b2) in Hx as [Hx ?]; [|by rewrite Eo|done|done|done]. split; [eauto|done].
      + apply (run_block_iff h K) in Hx; [|done|done|done|by rewrite Er, lookup_insert_ne].
        split; [eauto|]. intros Hq. by apply (not_block_elsewhere q m x).
    - intros [[x Hx] Hne]. exists x. destruct (decide (x = r)) as [->|Hxr].
      + apply (region_gone h2 b2); [by rewrite Eo|done|done|done|done].
      + apply (run_block_iff h K); auto. by rewrite Er, lookup_insert_ne. }
  pose proof (not_other_block q m) as Hn. unfold huge_block in Hn. rewrite Hs. tauto.
Qed.

(** The run is empty and leaves its bin: the header goes with it. *)
Lemma region_last h2 b2 :
  nfree rh' = nregs b ->
  runs_inv cfg h2 U -> get_bin h2 a bi = Some b2 -> same_geom b b2 ->
  (forall a2 bi2, (a2, bi2) <> (a, bi) -> get_bin h2 a2 bi2 = get_bin h a2 bi2) ->
  arenas_like h h2 ->
  lower h2 = lower h -> chunk_hdrs h2 = chunk_hdrs h -> run_hdrs h2 = <[r := rh']> (run_hdrs h) ->
  StronglySorted Z.lt (runs b2) -> (forall x, runcur b2 = Some x -> x ∉ runs b2) ->
  (forall x, runcur b2 = Some x \/ x ∈ runs b2 -> x <> r /\ (runcur b = Some x \/ x ∈ runs b)) ->
  (forall x xh, x <> r -> run_hdrs h !! x = Some xh -> run_listed b x xh -> run_listed b2 x xh) ->
  wp ab (arena_run_dalloc cfg h2 a r (run_size b)) (free_post h U K p).
Proof.
  intros Hfull Hi2 Hg2 Hgeo Hoth Hlen El Ec Er Hsort Hcur Hlist Hrl.
  assert (Eo : forall x, owner h2 x = owner h x) by (intros x; unfold owner; by rewrite Ec).
  set (K' := delete r K).
  assert (Hb2 : bins_inv h2 U K').
  { eapply (bins_inv_update h U K) with (r0 := r); [exact Hb|exact Hg|exact Hgeo|exact Hg2|done|done|..]; auto.
    - intros x Hne. unfold K'. by rewrite lookup_delete_ne.
    - intros x y Hne _. by rewrite Eo, Er, lookup_insert_ne.
    - intros y Hy. unfold K' in Hy. by rewrite lookup_delete_eq in Hy. }
  destruct (bin_facts h U K a bi b Hb Hg) as (_ & Hgeom & _ & Hpg & Hrs).
  destruct (geom_bounds b Hgeom) as (G1 & _ & _ & G4 & G5).
  assert (HKr : K' !! r = None) by (unfold K'; by rewrite lookup_delete_eq).
  rewrite Hrs. eapply wp_mono; [apply (arena_run_dalloc_ok cfg h2 U a r (run_size b / PG)); auto|].
  { rewrite <- Ho. apply Eo. }
  intros h' _ [Hi' Hs'].
  destruct (run_release h2 U K' r (run_size b / PG) h') as (Hb' & Hblk & Hvm); auto.
  exists (delete r U), K'. do 2 (split; [done|]). split; [|by rewrite <- El].
  assert (Hall : forall x, 0 <= x < nregs b -> reg_free rh' x = true).
  { apply zcount_full; [lia|]. by rewrite <- (inv_nfree _ _ Hri'). }
  assert (Honly : forall q m, run_block h K r q m -> q = p).
  { intros q m (x & Hx & Hfx & -> & _)%(run_block_at h K r q m bi a b rh); try done.
    specialize (Hall x Hx). rewrite Hf' in Hall by done. case_decide; [by subst|congruence]. }
  assert (Hlike : bins_like h h2) by (by eapply bins_like_put).
  intros q m. rewrite Hblk. unfold block, huge_block. rewrite El.
  assert (Hs : small_block h2 K' q m <-> small_block h K q m /\ q <> p).
  { unfold small_block. split.
    - intros [x Hx]. assert (Hxr : x <> r).
      { intros ->. destruct Hx as (? & ? & ? & ? & ? & Hkx & _). congruence. }
      apply (run_block_iff h K) in Hx; auto.
      + split; [eauto|]. intros Hq. by apply (not_block_elsewhere q m x).
      + unfold K'. by rewrite lookup_delete_ne.
      + by rewrite Er, lookup_insert_ne.
    - intros [[x Hx] Hne]. exists x. destruct (decide (x = r)) as [->|Hxr]; [by apply Honly in Hx|].
      apply (run_block_iff h K); auto; [unfold K'; by rewrite lookup_delete_ne|by rewrite Er, lookup_insert_ne]. }
  assert (Hlb : large_block U K' q m /\ q <> r <-> large_block U K q m).
  { unfold large_block, K'. split.
    - intros [(j & Hj & Hjk & ->) Hne]. rewrite lookup_delete_ne in Hjk by done. eauto.
    - intros (j & Hj & Hjk & ->). assert (q <> r) by congruence. split; [|done].
      exists j. by rewrite lookup_delete_ne. }
  pose proof (block_not_run h U K r _ q m Hi Hb HU) as Hq.
  pose proof (not_other_block q m) as Hn. unfold huge_block in *. rewrite Hs. tauto.
Qed.
Lemma addr_insert_keep x l y : y <> x -> y ∈ addr_insert x l <-> y ∈ l.
Proof. intros Hne. rewrite addr_insert_elem. set_solver. Qed.

Lemma bin_update_ok :
  wp ab (bin_update cfg (put_run h r rh') a r rh' b) (free_post h U K p).
Proof.
  pose proof (bi_sorted _ _ _ Hb a bi b Hg) as Hsort.
  pose proof (fun x => bi_cur _ _ _ Hb a bi b x Hg) as Hcurn.
  pose proof (zcount_bounds (reg_free rh) (nregs b) ltac:(lia)) as Hzb.
  rewrite <- (inv_nfree _ _ Hri) in Hzb.
  assert (Hi1 : runs_inv cfg (put_run h r rh') U) by (destruct Hi; by split).
  assert (Hput : forall b2, exists h2, put_bin (put_run h r rh') a bi b2 = Some h2 /\
    runs_inv cfg h2 U /\ get_bin h2 a bi = Some b2 /\
    (forall a2 bi2, (a2, bi2) <> (a, bi) -> get_bin h2 a2 bi2 = get_bin h a2 bi2) /\
    arenas_like h h2 /\
    lower h2 = lower h /\ chunk_hdrs h2 = chunk_hdrs h /\ run_hdrs h2 = <[r := rh']> (run_hdrs h))
    by (intros b2; exact (put_bin_ok (put_run h r rh') U a bi b b2 Hi1 Hg)).
  unfold bin_update. rewrite Hbin'.
  set (is_cur := match runcur b with Some x => r =? x | None => false end).
  assert (Hcur : if is_cur then runcur b = Some r else runcur b <> Some r).
  { unfold is_cur. destruct (runcur b) as [x|]; [|done]. destruct (r =? x) eqn:E; b2p; congruence. }
  clearbody is_cur. destruct (nfree rh' =? nregs b) eqn:Efull; b2p.
  - set (b2 := if is_cur then set_runcur b None
               else if negb (nregs b =? 1) then set_runs b (addr_remove r (runs b)) else b).
    destruct (Hput b2) as (h2 & -> & Hi2 & Hg2 & Ho2 & Hl2 & El2 & Ec2 & Er2). cbn [lift].
    assert (Hin : is_cur = false -> r ∈ runs b <-> nregs b <> 1).
    { intros ->. rewrite (Hl Hcur). lia. }
    destruct is_cur; [|destruct (nregs b =? 1) eqn:E1; cbn [negb] in b2; b2p].
    + apply (region_last h2 b2); auto; try done.
      * intros x [?|Hx]; [done|]. split; [|by right]. intros ->. by apply (Hcurn r).
      * intros x xh Hne Hxh Hlx _. cbn. apply Hlx. congruence.
    + apply (region_last h2 b2); auto; try done.
      intros x Hx. split; [|done]. intros ->. destruct Hx as [?|Hx]; [done|]. by apply Hin in Hx.
    + apply (region_last h2 b2); auto; try done; [by apply addr_remove_sorted|..].
      * cbn. intros x Hx [? _]%addr_remove_elem; [|done]. by apply (Hcurn x).
      * intros x [Hx|[Hx Hne]%addr_remove_elem]; [|split; [done|by right]|done].
        cbn in Hx. split; [congruence|by left].
      * intros x xh Hne Hxh Hlx Hc. cbn in *.
        rewrite addr_remove_elem by done. rewrite (Hlx Hc). tauto.
  - destruct ((nfree rh' =? 1) && negb is_cur) eqn:E1.
    + apply andb_true_iff in E1 as [E1 E2]. b2p. destruct is_cur; [done|].
      assert (Hrn : r ∉ runs b) by (rewrite (Hl Hcur); lia).
      destruct (runcur b) as [cur|] eqn:Ecur.
      * destruct (runcur_ok h U K a bi b cur Hb Hg (or_introl Ecur))
          as (ch & Hck & Hco & _ & Hch & _ & _ & _).
        assert (Hnc : cur <> r) by congruence. pose proof (Hcurn cur eq_refl) as Hcn.
        destruct (r <? cur) eqn:Elt; b2p.
        -- cbn. rewrite lookup_insert_ne, Hch by done. cbn [lift].
           set (b2 := if 0 <? nfree ch then set_runs b (addr_insert cur (runs b)) else b).
           destruct (Hput (set_runcur b2 (Some r))) as (h2 & -> & Hi2 & Hg2 & Ho2 & Hl2 & El2 & Ec2 & Er2).
           cbn [lift wp]. apply (region_freed h2 (set_runcur b2 (Some r))); auto; unfold b2.
           ++ by destruct (0 <? nfree ch).
           ++ intros Hne. by destruct Hne.
           ++ destruct (0 <? nfree ch); cbn; [by apply addr_insert_sorted|done].
           ++ intros x [= <-]. destruct (0 <? nfree ch); cbn; [|done].
              rewrite addr_insert_keep by done. done.
           ++ intros x [[= <-]|Hx]; [by left|]. destruct (0 <? nfree ch); cbn in Hx; [|tauto].
              apply addr_insert_elem in Hx as [->|?]; tauto.
           ++ intros x xh Hne Hxh Hlx _. destruct (decide (x = cur)) as [->|Hxc].
              ** assert (xh = ch) as -> by congruence. destruct (0 <? nfree ch) eqn:En; cbn; b2p.
                 { rewrite addr_insert_elem. tauto. }
                 split; [done|lia].
              ** destruct (0 <? nfree ch); cbn; rewrite ?addr_insert_keep by done; apply Hlx; congruence.
        -- destruct (Hput (set_runs b (addr_insert r (runs b))))
             as (h2 & -> & Hi2 & Hg2 & Ho2 & Hl2 & El2 & Ec2 & Er2).
           cbn [lift wp]. apply (region_freed h2 (set_runs b (addr_insert r (runs b)))); auto; try done; cbn.
           ++ intros _. cbn. rewrite addr_insert_elem. lia.
           ++ by apply addr_insert_sorted.
           ++ intros x Hx. rewrite addr_insert_keep by congruence. apply Hcurn. congruence.
           ++ intros x [Hx|Hx]; [right; left; congruence|]. apply addr_insert_elem in Hx as [->|?]; tauto.
           ++ intros x xh Hne Hxh Hlx Hc. cbn in *. rewrite addr_insert_keep by done. by apply Hlx.
      * destruct (Hput (set_runcur b (Some r))) as (h2 & -> & Hi2 & Hg2 & Ho2 & Hl2 & El2 & Ec2 & Er2).
        cbn [lift wp]. apply (region_freed h2 (set_runcur b (Some r))); auto; try done; cbn.
        -- intros x [= <-]. done.
        -- intros x [[= <-]|Hx]; tauto.
        -- intros x xh Hne Hxh Hlx _. cbn. apply Hlx. congruence.
    + cbn [wp]. apply (region_freed (put_run h r rh') b); auto; try done.
      * exact (arenas_like_refl h).
      * intros Hc. destruct is_cur; [done|]. rewrite (Hl Hc). apply andb_false_iff in E1 as [E1|E1]; [b2p; lia|done].
Qed.
End region.
(** *** [arena_dalloc] *)

Lemma fill_old_writes p n : writes_in p n (fun v => fill_old cfg v p n).
Proof.
  intros v Hv. unfold fill_old. destruct (opt_junk (opts cfg)); [|done].
  by apply (vm_write_writes p n (fun _ _ => 90)).
Qed.

(** A write inside the block to be released does not count. *)
Lemma free_after_write h U K p n f h' :
  runs_inv cfg h U -> bins_inv h U K -> block h U K p n -> writes_in p n f ->
  free_post (write_vm h f) U K p h' -> free_post h U K p h'.
Proof.
  intros Hi Hb Hp Hf (U' & K' & Hi' & Hb' & Hblk & Hvm). exists U', K'. do 2 (split; [done|]).
  split; [done|]. intros q m x Hq Hx. rewrite (Hvm q m x Hq Hx). cbn.
  destruct (Hf (kernel (lower h)) (cs_vm _ _ (ri_lower _ _ _ Hi))) as (_ & _ & F3).
  apply F3. intros Hxp. apply Hblk in Hq as [Hq Hne]. apply Hne.
  change (block (write_vm h f) U K q m) with (block h U K q m) in Hq.
  by destruct (block_disjoint h U K q m p n x Hi Hb Hq Hp Hx Hxp).
Qed.

Lemma arena_dalloc_ok h U K p n ch :
  runs_inv cfg h U -> bins_inv h U K -> small_block h K p n \/ large_block U K p n ->
  chunk_hdrs h !! CHUNK_ADDR2BASE cfg p = Some ch ->
  wp ab (arena_dalloc cfg h (chunk_arena ch) (CHUNK_ADDR2BASE cfg p) p) (free_post h U K p).
Proof.
  intros Hi Hb Hsl Hc. assert (Hp : block h U K p n) by (unfold block; tauto).
  unfold arena_dalloc. rewrite Hc. cbn [lift]. destruct Hsl as [[r Hs]|Hl].
  - destruct (small_lookup h U K r p n Hi Hb Hs) as (ch' & k & m & bi & b & rh & reg & Hc' & Esr & HU & Hk & Ho
      & Hg & Hh & Hbin & Hri & Hl & Hreg & Hf & Ea & Ep & -> & Hr0 & Hrend).
    assert (ch' = ch) as -> by congruence. rewrite Esr. cbn [lift]. rewrite Hh. cbn [lift].
    rewrite Hbin, Hg. cbn [lift].
    destruct (bin_facts h U K _ bi b Hb Hg) as ([Ers _] & Hgeo & Hbi & _).
    destruct (geom_bounds b Hgeo) as (G1 & _). change (2 ^ 14) with 16384 in G1.
    assert (Hclass : class_size (reg_size b)) by (rewrite Ers; by apply (bin_reg_size_class cfg)).
    destruct (arena_run_reg_dalloc_ok b Hgeo Hclass r rh reg) as (r1 & E1 & Hf1 & Hbin1 & Hnf1 & _ & Hri1); auto.
    rewrite <- Ea in E1. rewrite E1. cbn [lift].
    pose proof (zcount_bounds (reg_free rh) (nregs b) ltac:(lia)) as Hzb.
    rewrite <- (inv_nfree _ _ Hri) in Hzb.
    rewrite Hnf1, u32_small by lia.
    destruct (write_inv h U K (fun v => fill_old cfg v p (reg_size b)) p (reg_size b) Hi Hb)
      as (Hi0 & Hb0 & _); [apply fill_old_writes|].
    eapply wp_mono; [|intros h' _ Hfp; eapply free_after_write; eauto; apply fill_old_writes].
    set (h0 := write_vm h _) in *.
    pose proof (bin_update_ok h0 U K (chunk_arena ch) bi r b rh (set_nfree r1 (nfree rh + 1)) reg) as Hbu.
    cbv zeta in Hbu. rewrite <- Ep in Hbu. apply Hbu; auto. cbn. congruence.
  - destruct (large_bounds h U K p n Hi Hl) as (m & HU & -> & Hn).
    destruct (chunk_geometry cfg) as (HCS & HH & HPG & HC & HN). pose proof ok_p as Hpp.
    destruct (run_chunk cfg h U p m Hi HU)
      as (c & ch' & pre & post & ar & _ & _ & _ & _ & _ & _ & _ & Hm & Hpre & Hend & _).
    destruct (small_run_ok h U p m p Hi HU) as (ch2 & k & Hc2 & Hoc & Esr); [unfold in_range; lia|].
    assert (ch2 = ch) as -> by congruence. rewrite Esr, decide_True by done. cbn [lift npages].
    assert (Esz : u32 (Z.shiftl m (pagesize_2pow cfg)) = m * PG).
    { rewrite Z.shiftl_mul_pow2, <- ok_pagesize by lia. apply u32_small. nia. }
    rewrite Esz. destruct Hl as (m' & HU' & HK & _).
    destruct (write_inv h U K (fun v => fill_old cfg v p (m * PG)) p (m * PG) Hi Hb)
      as (Hi0 & Hb0 & _); [apply fill_old_writes|].
    eapply wp_mono; [apply (large_dalloc _ U K p m); auto|].
    intros h' _ Hfp. eapply free_after_write; eauto; apply fill_old_writes.
Qed.

(** ** The abstract operations *)

Definition free_spec (h : heap) (B : gmap Z Z) (p : Z) (h' : heap) : Prop :=
  heap_inv h' (delete p B) /\ same_data (delete p B) h h'.

Lemma free_post_spec h U K B p h' :
  (forall q m, B !! q = Some m <-> block h U K q m) ->
  free_post h U K p h' -> free_spec h B p h'.
Proof.
  intros HB (U' & K' & Hi' & Hb' & Hblk & Hvm).
  assert (HB' : forall q m, delete p B !! q = Some m <-> block h' U' K' q m).
  { intros q m. rewrite lookup_delete_Some, Hblk, HB. split; [intros [? ?]|intros [? ?]]; split; congruence || done. }
  split; [by exists U', K'|]. intros q m x Hq Hx. apply HB' in Hq. by eapply Hvm.
Qed.
End heap_layer.
