(* ===== verification/JApi.v ===== *)
(** * jalloc: the malloc(3) interface

    Models the entry points of [src/util/private/jalloc/malloc.c]: [imalloc],
    [ipalloc], [icalloc], [isalloc], [iralloc], [idalloc] with the reallocation
    code of arenas and huge objects, [malloc_init_hard] as the composition of its
    parts, and [malloc], [calloc], [realloc], [free], [posix_memalign] and
    [malloc_usable_size].

    A result [None] is a [NULL] return.  [errno], the trace and the allocation
    hooks are not modelled.  [tid] is [MyThreadId()] of the calling thread. *)

From Stdlib Require Import ZArith Lia Bool String Sorted.
From stdpp Require Import base numbers gmap list.
From S2P Require Import Prelude JConfig JRun JBin JMap JChunk JArena JPages JHeap.

(** ** Operations on an initialised allocator *)

Section internal.
Context `{V : VM} (cfg : config).

(** The huge-object operations, on the whole heap. *)
Definition heap_huge_malloc (h : heap) (size : Z) : outcome (option Z * heap) :=
  let! (ret, s) := huge_malloc cfg (lower h) size in Ok (ret, set_lower h s).
Definition heap_huge_palloc (h : heap) (alignment size : Z) : outcome (option Z * heap) :=
  let! (ret, s) := huge_palloc cfg (lower h) alignment size in Ok (ret, set_lower h s).

(** [memset] and [memcpy]. *)
Definition memset (h : heap) (p byte n : Z) : heap :=
  write_vm h (fun v => fill v p n byte).
Definition memcpy (h : heap) (dst src n : Z) : heap :=
  write_vm h (fun v => vm_write v dst n (fun i => vm_read v (src + i))).

Definition idalloc (h : heap) (ptr : Z) : outcome heap :=
  let c := CHUNK_ADDR2BASE cfg ptr in
  if negb (c =? ptr) then
    let! ch := lift (chunk_hdrs h !! c) in
    arena_dalloc cfg h (chunk_arena ch) c ptr
  else
    let! s := huge_dalloc cfg (lower h) ptr in Ok (set_lower h s).

Definition isalloc (h : heap) (ptr : Z) : outcome Z :=
  let c := CHUNK_ADDR2BASE cfg ptr in
  if negb (c =? ptr) then lift (arena_salloc cfg h ptr)
  else huge_salloc (lower h) ptr.

Definition imalloc (h : heap) (tid size : Z) : outcome (option Z * heap) :=
  if size <=? arena_maxclass cfg then
    let! (a, h) := choose_arena cfg h tid in
    arena_malloc cfg h a size
  else heap_huge_malloc h size.

Definition ipalloc (h : heap) (tid alignment size : Z) : outcome (option Z * heap) :=
  let ceil_size := Z.land (u64 (size + u64 (alignment - 1))) (u64 (- alignment)) in
  if ceil_size <? size then Ok (None, h)
  else if (ceil_size <=? pagesize cfg)
          || ((alignment <=? pagesize cfg) && (ceil_size <=? arena_maxclass cfg)) then
    let! (a, h) := choose_arena cfg h tid in
    arena_malloc cfg h a ceil_size
  else
    let alignment := PAGE_CEILING cfg alignment in
    let ceil_size := PAGE_CEILING cfg size in
    if (ceil_size <? size) || (u64 (ceil_size + alignment) <? ceil_size) then Ok (None, h)
    else
      let run_size :=
        if alignment <=? ceil_size then u64 (ceil_size + alignment - pagesize cfg)
        else u64 (u64 (Z.shiftl alignment 1) - pagesize cfg) in
      if run_size <=? arena_maxclass cfg then
        let! (a, h) := choose_arena cfg h tid in
        arena_palloc cfg h a alignment ceil_size run_size
      else if alignment <=? chunksize cfg then heap_huge_malloc h ceil_size
      else heap_huge_palloc h alignment ceil_size.

Definition icalloc (h : heap) (tid size : Z) : outcome (option Z * heap) :=
  if size <=? arena_maxclass cfg then
    let! (a, h) := choose_arena cfg h tid in
    let! (ret, h) := arena_malloc cfg h a size in
    match ret with
    | None => Ok (None, h)
    | Some p => Ok (Some p, memset h p 0 size)
    end
  else
    let! (ret, h) := heap_huge_malloc h size in
    match ret with
    | None => Ok (None, h)
    | Some p => Ok (Some p, if opt_junk (opts cfg) then memset h p 0 size else h)
    end.

(** ** Reallocation *)

(** The filling done when an object is resized in place. *)
Definition refill (h : heap) (ptr size oldsize : Z) : heap :=
  if opt_junk (opts cfg) && (size <? oldsize)
  then memset h (u64 (ptr + size)) 90 (u64 (oldsize - size))
  else if opt_zero (opts cfg) && (oldsize <? size)
  then memset h (u64 (ptr + oldsize)) 0 (u64 (size - oldsize))
  else h.

(** Whether the size class of an arena object would not change. *)
Definition same_class (size oldsize : Z) : bool :=
  if size <? small_min cfg then
    (oldsize <? small_min cfg)
    && (ffs (Z.shiftr (pow2_ceil size) (TINY_MIN_2POW + 1))
        =? ffs (Z.shiftr (pow2_ceil oldsize) (TINY_MIN_2POW + 1)))
  else if size <=? small_max cfg then
    (small_min cfg <=? oldsize) && (oldsize <=? small_max cfg)
    && (Z.shiftr (QUANTUM_CEILING cfg size) (opt_quantum_2pow (opts cfg))
        =? Z.shiftr (QUANTUM_CEILING cfg oldsize) (opt_quantum_2pow (opts cfg)))
  else (small_max cfg <? oldsize) && (PAGE_CEILING cfg size =? oldsize).

Definition arena_ralloc (h : heap) (tid ptr size oldsize : Z) : outcome (option Z * heap) :=
  if same_class size oldsize then Ok (Some ptr, refill h ptr size oldsize)
  else
    let! (a, h) := choose_arena cfg h tid in
    let! (ret, h) := arena_malloc cfg h a size in
    match ret with
    | None => Ok (None, h)
    | Some r =>
        let h := memcpy h r ptr (if size <? oldsize then size else oldsize) in
        let! h := idalloc h ptr in
        Ok (Some r, h)
    end.

Definition huge_ralloc (h : heap) (ptr size oldsize : Z) : outcome (option Z * heap) :=
  if (arena_maxclass cfg <? oldsize) && (CHUNK_CEILING cfg size =? CHUNK_CEILING cfg oldsize)
  then Ok (Some ptr, refill h ptr size oldsize)
  else
    let! (ret, h) := heap_huge_malloc h size in
    match ret with
    | None => Ok (None, h)
    | Some r =>
        let n :=
          if CHUNK_ADDR2BASE cfg ptr =? ptr then (if size <? oldsize then size else oldsize)
          else oldsize in
        let h := memcpy h r ptr n in
        let! h := idalloc h ptr in
        Ok (Some r, h)
    end.

Definition iralloc (h : heap) (tid ptr size : Z) : outcome (option Z * heap) :=
  let! oldsize := isalloc h ptr in
  if size <=? arena_maxclass cfg then arena_ralloc h tid ptr size oldsize
  else huge_ralloc h ptr size oldsize.
End internal.

(** ** Initialisation *)

(** What [malloc_init_hard] reads from the system. *)
Record environ := mk_environ {
  ncpus : Z;                       (* AllocNumberOfCpus() *)
  sysconf_pagesize : Z;            (* sysconf(_SC_PAGESIZE) *)
  malloc_conf : option string;     (* the target of /etc/malloc.conf *)
  malloc_options : option string;  (* the MALLOC_OPTIONS variable *)
  compiled_in : option string }.   (* _malloc_options *)

Section api.
Context `{V : VM}.

(** [malloc_initialized], with the globals that are meaningful in each case. *)
Inductive mstate :=
  | Uninit (o : options) (s : state)
  | Ready (c : config) (h : heap).

(** [true] is failure.  The options are the globals: a failed attempt leaves them
    changed. *)
Definition malloc_init_hard (e : environ) (o : options) (s : state) : outcome (bool * mstate) :=
  let p := ffs (sysconf_pagesize e) - 1 in
  let o := parse_sources p o (malloc_conf e) (malloc_options e) (compiled_in e) in
  let cfg := init_settings (sysconf_pagesize e) o in
  let s := mk_state (kernel s) (base_next_addr s) (base_past_addr s) [] [] [] in
  let lshift := opt_narenas_lshift o in
  let o := set_lshift (opts cfg) (if 1 <? ncpus e then lshift + 2 else lshift) in
  let! narenas := lift (init_narenas (ncpus e) lshift (chunksize cfg)) in
  let! (ret, s) := base_alloc cfg s (u64 (SIZEOF_PTR * narenas)) in
  match ret with
  | None => Ok (true, Uninit o s)
  | Some p =>
      let s := set_kernel s (fill (kernel s) p (u64 (SIZEOF_PTR * narenas)) 0) in
      let h := mk_heap s (replicate (Z.to_nat narenas) None) ∅ ∅ in
      let! (_, h) := arenas_extend cfg h 0 in
      match get_arena h 0 with
      | None => Ok (true, Uninit o (lower h))
      | Some _ => Ok (false, Ready cfg h)
      end
  end.

Definition malloc_init (e : environ) (m : mstate) : outcome (bool * mstate) :=
  match m with
  | Uninit o s => malloc_init_hard e o s
  | Ready _ _ => Ok (false, m)
  end.

Definition cur_opts (m : mstate) : options :=
  match m with Uninit o _ => o | Ready c _ => opts c end.

(** Running an operation on the initialised heap. *)
Definition with_heap (m : mstate) (f : config -> heap -> outcome (option Z * heap))
    : outcome (option Z * mstate) :=
  match m with
  | Uninit _ _ => Undef
  | Ready c h => let! (ret, h) := f c h in Ok (ret, Ready c h)
  end.

(** The [opt_xmalloc] check before a [NULL] return. *)
Definition check_oom (r : option Z * mstate) : outcome (option Z * mstate) :=
  match fst r with
  | None => if opt_xmalloc (cur_opts (snd r)) then Abort else Ok r
  | Some _ => Ok r
  end.

(** ** The malloc(3) functions *)

Definition malloc (e : environ) (m : mstate) (tid size : Z) : outcome (option Z * mstate) :=
  let! (failed, m) := malloc_init e m in
  let! r :=
    if failed : bool then Ok (None, m)
    else if (size =? 0) && opt_sysv (cur_opts m) then Ok (None, m)
    else
      let size := if size =? 0 then 1 else size in
      with_heap m (fun c h => imalloc c h tid size) in
  check_oom r.

Definition EINVAL : Z := 22.
Definition ENOMEM : Z := 12.

(** The return code, and the value stored through [memptr] if any. *)
Definition posix_memalign (e : environ) (m : mstate) (tid alignment size : Z)
    : outcome (Z * option Z * mstate) :=
  let! (failed, m) := malloc_init e m in
  if negb failed
     && (negb (Z.land (u64 (alignment - 1)) alignment =? 0) || (alignment <? SIZEOF_PTR)) then
    if opt_xmalloc (cur_opts m) then Abort else Ok (EINVAL, None, m)
  else
    let! r :=
      if failed : bool then Ok (None, m)
      else with_heap m (fun c h => ipalloc c h tid alignment size) in
    let! (result, m) := check_oom r in
    match result with
    | None => Ok (ENOMEM, None, m)
    | Some p => Ok (0, Some p, m)
    end.

(** The size [calloc] asks for, or [None]. *)
Definition calloc_size (opt_sysv : bool) (num size : Z) : option Z :=
  let num_size := u64 (num * size) in
  if num_size =? 0 then
    if negb opt_sysv && ((num =? 0) || (size =? 0)) then Some 1 else None
  else if negb (Z.land (Z.lor num size) (u64 (Z.shiftl SIZE_T_MAX (Z.shiftl 8 2))) =? 0)
          && negb (num_size / size =? num) then None
  else Some num_size.

Definition calloc (e : environ) (m : mstate) (tid num size : Z) : outcome (option Z * mstate) :=
  let! (failed, m) := malloc_init e m in
  let! r :=
    if failed : bool then Ok (None, m)
    else
      match calloc_size (opt_sysv (cur_opts m)) num size with
      | None => Ok (None, m)
      | Some num_size => with_heap m (fun c h => icalloc c h tid num_size)
      end in
  check_oom r.

(** [ptr = None] is [NULL]. *)
Definition realloc (e : environ) (m : mstate) (tid : Z) (ptr : option Z) (size : Z)
    : outcome (option Z * mstate) :=
  if (size =? 0) && opt_sysv (cur_opts m) then
    match ptr with
    | Some p => with_heap m (fun c h => let! h := idalloc c h p in Ok (None, h))
    | None => Ok (None, m)
    end
  else
    let size := if size =? 0 then 1 else size in
    match ptr with
    | Some p =>
        let! r := with_heap m (fun c h => iralloc c h tid p size) in
        check_oom r
    | None =>
        let! (failed, m) := malloc_init e m in
        let! r :=
          if failed : bool then Ok (None, m)
          else with_heap m (fun c h => imalloc c h tid size) in
        check_oom r
    end.

Definition free (m : mstate) (ptr : option Z) : outcome mstate :=
  match ptr with
  | None => Ok m
  | Some p =>
      let! (_, m) := with_heap m (fun c h => let! h := idalloc c h p in Ok (None, h)) in
      Ok m
  end.

Definition malloc_usable_size (m : mstate) (ptr : Z) : outcome Z :=
  match m with
  | Uninit _ _ => Undef
  | Ready c h => isalloc c h ptr
  end.
End api.
Arguments mstate : clear implicits.
Arguments mstate {V}.

(** ** Lemmas: choosing an arena *)

Section choose.
Context (cfg : config) {Hok : config_ok cfg}.
Context {V : VM} {VS : VMSpec V (pagesize cfg)}.
Local Notation ab := (opt_abort (opts cfg)).

(** A fresh arena has no chunk and no run. *)
Lemma new_arena_inv h U K ind ar h' :
  runs_inv cfg h U -> bins_inv cfg h U K -> get_arena h ind = None ->
  arena_new cfg = Some ar -> put_arena h ind ar = Some h' ->
  runs_inv cfg h' U /\ bins_inv cfg h' U K /\ same_blocks cfg h U K h' U K /\
  lower h' = lower h /\ get_arena h' ind = Some ar.
Proof.
  intros Hi Hb Hn Hnew Hput. destruct (arena_new_spec cfg) as (ar' & E & Hc & Hs & Hl & Hbins).
  assert (ar' = ar) as -> by congruence. clear E Hnew.
  unfold put_arena in Hput. destruct (zset (arenas h) ind (Some ar)) as [l|] eqn:Ez; [|done].
  injection Hput as <-. set (h' := mk_heap _ _ _ _).
  assert (Ea : get_arena h' ind = Some ar) by (unfold get_arena; cbn; by rewrite (zget_zset_eq _ _ _ _ Ez)).
  assert (Eo : forall b, b <> ind -> get_arena h' b = get_arena h b)
    by (intros b Hne; unfold get_arena; cbn; by rewrite (zget_zset_ne _ _ _ _ _ Ez) by done).
  assert (Hold : forall b ar2, get_arena h b = Some ar2 -> get_arena h' b = Some ar2)
    by (intros b ar2 Hb2; rewrite Eo; [done|]; congruence).
  assert (Hcase : forall b ar2, get_arena h' b = Some ar2 -> (b = ind /\ ar2 = ar) \/ get_arena h b = Some ar2).
  { intros b ar2 Hb2. destruct (decide (b = ind)) as [->|Hne]; [left; split; congruence|].
    right. by rewrite <- Eo. }
  assert (Hbin : forall a bi b, get_bin h a bi = Some b -> get_bin h' a bi = Some b).
  { intros a bi b (ar2 & ? & ?)%get_bin_Some. apply get_bin_Some. eauto. }
  assert (Hbin' : forall a bi b, get_bin h' a bi = Some b ->
            (runcur b = None /\ runs b = [] /\ a = ind) \/ get_bin h a bi = Some b).
  { intros a bi b (ar2 & Ha2 & Hz)%get_bin_Some. apply Hcase in Ha2 as [[-> ->]|Ha2].
    - left. apply zget_Some_bound in Hz as Hbd. rewrite Hl in Hbd.
      destruct (Hbins bi Hbd) as (b' & Hb' & _ & ? & ?). assert (b' = b) as -> by congruence. done.
    - right. apply get_bin_Some. eauto. }
  split; [|split; [|split; [|done]]].
  - destruct Hi as [I1 I2 I3 I4 I5 I6]. split; auto.
    + intros c ch Hch. destruct (I2 c ch Hch) as (Hp & seg & ? & ? & ar2 & ? & ?).
      split; [done|]. exists seg. do 2 (split; [done|]). exists ar2. auto.
    + intros b ar2 c Hb2 Hin. apply Hcase in Hb2 as [[-> ->]|Hb2]; [|eauto].
      rewrite Hc, Hs in Hin. destruct Hin as [Hin|?]; [by apply elem_of_nil in Hin|done].
    + intros b ar2 Hb2. apply Hcase in Hb2 as [[-> ->]|Hb2]; [rewrite Hc; constructor|eauto].
    + intros b ar2 c Hb2 Hsp. apply Hcase in Hb2 as [[-> ->]|Hb2]; [congruence|eauto].
  - destruct Hb as [[ar0 B0] B1 B2 B3 B4 B5]. split.
    + eauto.
    + intros a ar2 Ha2. apply Hcase in Ha2 as [[-> ->]|Ha2]; [|eauto]. split; [done|].
      intros i b Hz. apply zget_Some_bound in Hz as Hbd. rewrite Hl in Hbd.
      destruct (Hbins i Hbd) as (b' & Hb' & Hf & _). assert (b' = b) as -> by congruence. done.
    + intros r bi Hr. destruct (B2 r bi Hr) as (a & b & rh & Ho & Hg & Hrest). exists a, b, rh. auto.
    + intros a bi b r Hg Hin. apply Hbin' in Hg as [(Hn1 & Hn2 & _)|Hg]; [|eauto].
      rewrite Hn1, Hn2 in Hin. destruct Hin as [?|Hin]; [done|by apply elem_of_nil in Hin].
    + intros a bi b Hg. apply Hbin' in Hg as [(_ & -> & _)|Hg]; [constructor|eauto].
    + intros a bi b r Hg Hin. apply Hbin' in Hg as [(? & _)|Hg]; [congruence|eauto].
  - intros q m. unfold block.
    assert (Hs' : small_block cfg h' K q m <-> small_block cfg h K q m); [|by rewrite Hs'].
    unfold small_block, run_block. split; intros (r & bi & a & b & rh & reg & Hk & Ho & Hg & Hrest);
      exists r, bi, a, b, rh, reg; (split; [done|]; split; [done|]; split; [|done]); auto.
    apply Hbin' in Hg as [(_ & _ & ->)|Hg]; [|done].
    destruct (bi_small _ _ _ _ Hb r bi Hk) as (a' & b' & ? & Ho' & Hg' & _).
    change (owner cfg h r = Some ind) in Ho. assert (a' = ind) as -> by congruence.
    apply get_bin_Some in Hg' as (? & ? & _). congruence.
Qed.

Lemma keeps_data h B h' :
  heap_inv cfg h B -> keeps (kernel (lower h)) (kernel (lower h')) -> same_data B h h'.
Proof.
  intros (U & K & Hi & Hb & HB) [_ Hk] p n x Hp Hx. apply Hk. apply HB in Hp.
  by apply (block_mapped cfg h U K p n x Hi Hb Hp Hx).
Qed.

Lemma choose_arena_ok h B tid :
  heap_inv cfg h B ->
  wp ab (choose_arena cfg h tid) (fun '(a, h') =>
    heap_inv cfg h' B /\ same_data B h h' /\ exists ar, get_arena h' a = Some ar).
Proof.
  intros Hinv. pose proof Hinv as (U & K & Hi & Hb & HB). destruct (bi_main _ _ _ _ Hb) as [ar0 Ha0].
  assert (Hlen : 0 < zlen (arenas h)).
  { unfold get_arena in Ha0. destruct (zget (arenas h) 0) eqn:E; [|done]. apply zget_Some_bound in E. lia. }
  unfold choose_arena. set (ind := tid mod zlen (arenas h)).
  destruct (zget_is_Some (arenas h) ind) as [o Ho]; [apply Z.mod_pos_bound; lia|].
  rewrite Ho. cbn [lift]. destruct o as [ar|].
  { cbn. split; [done|]. split; [done|]. exists ar. unfold get_arena. by rewrite Ho. }
  assert (Hnone : get_arena h ind = None) by (unfold get_arena; by rewrite Ho).
  unfold arenas_extend. pose proof (u32_bound (nbins cfg - 1)) as Hub.
  apply wp_bind. apply wp_of_safe; [apply base_alloc_safe|]. intros [ro s'] Es.
  apply (base_alloc_ok cfg) in Es as (Hk & Eo & Eh);
    [|apply (ri_lower _ _ _ Hi)|unfold sizeof_arena_t, sizeof_arena_bin_t; rewrite u64_small by lia; lia].
  destruct (runs_inv_lower cfg h U s') as [Hi1 Hg1]; auto.
  { destruct (ri_lower _ _ _ Hi) as [C1 C2 C3 C4 C5]. split; rewrite ?Eo, ?Eh; auto; [apply Hk|].
    by eapply (huge_keeps cfg). }
  assert (Hb1 : bins_inv cfg (set_lower h s') U K) by (by eapply bins_inv_grows).
  assert (Hinv1 : heap_inv cfg (set_lower h s') B).
  { exists U, K. do 2 (split; [done|]). intros q m. rewrite HB. symmetry. exact (block_grows cfg h U K _ Hb Hg1 q m). }
  destruct ro as [p|].
  - destruct (arena_new_spec cfg) as (ar & En & _). rewrite En. cbn [lift].
    destruct (zset_is_Some (arenas h) ind (Some ar)) as [l Hl]; [apply Z.mod_pos_bound; lia|].
    assert (Ep : put_arena (set_lower h s') ind ar
                 = Some (mk_heap s' l (chunk_hdrs h) (run_hdrs h))) by (unfold put_arena; cbn; by rewrite Hl).
    rewrite Ep. cbn [lift wp].
    destruct (new_arena_inv _ U K ind ar _ Hi1 Hb1 Hnone En Ep) as (Hi2 & Hb2 & Hs2 & El2 & Ha2).
    split; [|split; [by apply (keeps_data h B)|eauto]].
    exists U, K. do 2 (split; [done|]). intros q m. rewrite HB. symmetry. rewrite (Hs2 q m).
    exact (block_grows cfg h U K _ Hb Hg1 q m).
  - destruct ab eqn:Eab; cbn [wp]; [done|]. split; [done|]. split; [by apply (keeps_data h B)|].
    exists ar0. done.
Qed.
End choose.

(** ** Lemmas: huge objects as blocks *)

Section huge_blocks.
Context (cfg : config) {Hok : config_ok cfg}.
Context {V : VM} {VS : VMSpec V (pagesize cfg)}.
Local Notation ab := (opt_abort (opts cfg)).
Local Notation CS := (chunksize cfg).

Lemma huge_nodes_sorted s : chunks_inv cfg s -> StronglySorted node_before (huge s).
Proof.
  intros [_ _ _ Hs Hh]. revert Hh. induction Hs as [|x t Hs IH Hx]; intros Hh; [constructor|].
  apply Forall_cons in Hh as [(_ & Hpos & _) Hh]. constructor; [by apply IH|].
  eapply Forall_impl; [exact Hx|]. unfold range_before, node_before. intros; lia.
Qed.

(** Memory keeps its contents and the huge objects change: the arenas do not see it. *)
Lemma runs_inv_huge h U s' :
  runs_inv cfg h U -> chunks_inv cfg s' ->
  (forall c ch x, chunk_hdrs h !! c = Some ch -> in_range c CS x -> mapped (kernel s') x) ->
  (forall c ch m x, chunk_hdrs h !! c = Some ch -> m ∈ huge s' -> in_range (chunk m) (size m) x ->
     ~ in_range c CS x) ->
  runs_inv cfg (set_lower h s') U.
Proof.
  intros [I1 I2 I3 I4 I5 I6] Hi' Hmap Hdis. split; cbn; try done.
  intros c ch Hc. destruct (I2 c ch Hc) as [[P1 P2 P3 P4 P5] Hl]. split; [|done].
  split; cbn; auto; [eauto|]. apply Forall_forall. eauto.
Qed.

Lemma chunk_mapped h U c ch x :
  runs_inv cfg h U -> chunk_hdrs h !! c = Some ch -> in_range c CS x ->
  mapped (kernel (lower h)) x /\ forall m, m ∈ huge (lower h) -> ~ in_range (chunk m) (size m) x.
Proof.
  intros Hi Hc Hx. destruct (ri_chunk _ _ _ Hi c ch Hc) as [[_ _ _ P4 P5] _].
  split; [by apply P4|]. rewrite Forall_forall in P5. intros m Hm Hxm. by apply (P5 m Hm x).
Qed.

(** A huge object has been placed. *)
Lemma huge_placed_adds h B p n s' :
  heap_inv cfg h B -> 0 < n -> huge_placed cfg (lower h) p n s' ->
  alloc_spec cfg h B n (Some p, set_lower h s').
Proof.
  intros Hinv Hn (Hi' & Hk & Hp & Hal & Hov & Hfresh & Hnew & a & Eh & Hap).
  pose proof Hinv as (U & K & Hi & Hb & HB).
  assert (Hne : Forall (fun x => chunk x <> chunk (mk_node a p n)) (huge (lower h))).
  { pose proof (cs_huge _ _ (ri_lower _ _ _ Hi)) as Hh. rewrite Forall_forall in *. cbn.
    intros x Hx E. destruct (Hh x Hx) as (_ & Hs & _ & _ & Hm). apply (Hfresh p); [unfold in_range; lia|].
    apply Hm. unfold in_range. lia. }
  pose proof (fun m => tree_insert_elem (mk_node a p n) (huge (lower h)) m Hne) as Hel. rewrite <- Eh in Hel.
  assert (Hi1 : runs_inv cfg (set_lower h s') U).
  { apply runs_inv_huge; auto.
    - intros c ch x Hc Hx. apply Hk. by apply (chunk_mapped h U c ch x Hi Hc Hx).
    - intros c ch m x Hc Hm Hxm Hx. destruct (chunk_mapped h U c ch x Hi Hc Hx) as [Hmap Hno].
      apply Hel in Hm as [->|Hm]; [by apply (Hfresh x)|by apply (Hno m Hm)]. }
  assert (Hb1 : bins_inv cfg (set_lower h s') U K) by (by eapply (bins_inv_frame cfg h U)).
  split; [by apply (keeps_data cfg h B)|].
  apply (adds_inv cfg h U K p n (set_lower h s') U K B HB Hi1 Hb1). split.
  - intros m Hm. pose proof (block_pos cfg h U K p m Hi Hb Hm).
    apply (Hfresh p); [unfold in_range; lia|].
    apply (block_mapped cfg h U K p m p Hi Hb Hm). unfold in_range. lia.
  - intros q m. unfold block.
    assert (Hh : huge_block (set_lower h s') q m <-> huge_block h q m \/ (q = p /\ m = n)).
    { unfold huge_block. cbn. split.
      - intros (o & [->|Ho]%Hel & <- & <-); [by right|left; eauto].
      - intros [(o & Ho & <- & <-)|[-> ->]]; [exists o|exists (mk_node a p n)]; (split; [apply Hel|done]); tauto. }
    rewrite Hh. tauto.
Qed.

Lemma heap_huge_malloc_ok h B sz :
  heap_inv cfg h B -> 0 < sz < 2 ^ 64 ->
  wp ab (heap_huge_malloc cfg h sz) (alloc_spec cfg h B (CHUNK_CEILING cfg sz)).
Proof.
  intros Hinv Hsz. pose proof Hinv as (U & K & Hi & Hb & HB). unfold heap_huge_malloc.
  apply wp_bind. apply wp_of_safe; [apply huge_malloc_safe|]. intros [ro s'] E.
  apply (huge_malloc_ok cfg) in E; [|apply Hi|done]. destruct ro as [p|]; cbn [wp].
  - destruct E as [Hle Hpl]. apply huge_placed_adds; [done|lia|done].
  - destruct E as (Hi' & Hk & Eh).
    destruct (runs_inv_lower cfg h U s' Hi Hi' Hk Eh) as [Hi1 Hg1].
    split; [by apply (keeps_data cfg h B)|]. exists U, K. split; [done|].
    split; [by eapply bins_inv_grows|]. intros q m. rewrite HB. symmetry.
    exact (block_grows cfg h U K _ Hb Hg1 q m).
Qed.

Lemma heap_huge_palloc_ok h B k sz :
  heap_inv cfg h B -> opt_chunk_2pow (opts cfg) < k <= 63 -> 0 < sz -> sz + 2 ^ k < 2 ^ 64 ->
  wp ab (heap_huge_palloc cfg h (2 ^ k) sz) (fun '(ro, h') =>
    alloc_spec cfg h B (CHUNK_CEILING cfg sz) (ro, h') /\
    match ro with Some p => p mod 2 ^ k = 0 | None => True end).
Proof.
  intros Hinv Hk Hsz Hov. pose proof Hinv as (U & K & Hi & Hb & HB). unfold heap_huge_palloc.
  apply wp_bind. apply wp_of_safe; [apply huge_palloc_safe|]. intros [ro s'] E.
  apply (huge_palloc_ok cfg) in E; [|apply Hi|done|done|done]. destruct ro as [p|]; cbn [wp].
  - destruct E as (Hal & Hle & Hpl). split; [|done]. apply huge_placed_adds; [done|lia|done].
  - destruct E as (Hi' & Hkk & Eh). split; [|done].
    destruct (runs_inv_lower cfg h U s' Hi Hi' Hkk Eh) as [Hi1 Hg1].
    split; [by apply (keeps_data cfg h B)|]. exists U, K. split; [done|].
    split; [by eapply bins_inv_grows|]. intros q m. rewrite HB. symmetry.
    exact (block_grows cfg h U K _ Hb Hg1 q m).
Qed.

Lemma heap_huge_dalloc_ok h U K p n :
  runs_inv cfg h U -> bins_inv cfg h U K -> huge_block h p n ->
  wp ab (let! s := huge_dalloc cfg (lower h) p in Ok (set_lower h s)) (free_post cfg h U K p).
Proof.
  intros Hi Hb (m & Hm & <- & <-). pose proof (huge_nodes_sorted _ (ri_lower _ _ _ Hi)) as Hso.
  pose proof (tree_find_elem _ m Hso Hm) as Hf.
  apply wp_bind. apply wp_of_safe; [by eapply huge_dalloc_safe|]. intros s' E. cbn [wp].
  apply (huge_dalloc_ok cfg) with (m := m) in E as (Hi' & Eh & Hk); [|apply Hi|done].
  pose proof (fun o => tree_remove_elem (chunk m) (huge (lower h)) o Hso) as Hel. rewrite <- Eh in Hel.
  assert (Hi1 : runs_inv cfg (set_lower h s') U).
  { apply runs_inv_huge; auto.
    - intros c ch x Hc Hx. destruct (chunk_mapped h U c ch x Hi Hc Hx) as [Hmap Hno].
      apply Hk; [done|by apply Hno].
    - intros c ch o x Hc Ho Hxo Hx. destruct (chunk_mapped h U c ch x Hi Hc Hx) as [Hmap Hno].
      apply Hel in Ho as [Ho _]. by apply (Hno o Ho). }
  assert (Hb1 : bins_inv cfg (set_lower h s') U K) by (by eapply (bins_inv_frame cfg h U)).
  assert (Hblk : forall q k, block cfg (set_lower h s') U K q k <-> block cfg h U K q k /\ q <> chunk m).
  { intros q k. unfold block.
    assert (Hh : huge_block (set_lower h s') q k <-> huge_block h q k /\ q <> chunk m).
    { unfold huge_block. cbn. split.
      - intros (o & [Ho Hne]%Hel & <- & <-). split; [eauto|done].
      - intros [(o & Ho & <- & <-) Hne]. exists o. split; [by apply Hel|done]. }
    assert (Hoth : small_block cfg h K q k \/ large_block cfg U K q k -> q <> chunk m).
    { intros Hq ->. assert (Hq' : block cfg h U K (chunk m) k) by (unfold block; tauto).
      destruct (block_base cfg h U K (chunk m) k Hi Hb) as [Hn _]. apply (Hn Hq).
      apply (block_base cfg h U K (chunk m) (size m) Hi Hb). by exists m. }
    rewrite Hh. tauto. }
  exists U, K. do 3 (split; [done|]). intros q k x Hq Hx. apply Hblk in Hq as [Hq Hne].
  apply Hk; [by apply (block_mapped cfg h U K q k x Hi Hb Hq Hx)|]. intros Hxm. apply Hne.
  assert (Hm' : block cfg h U K (chunk m) (size m)) by (right; right; by exists m).
  by destruct (block_disjoint cfg h U K q k (chunk m) (size m) x Hi Hb Hq Hm' Hx Hxm).
Qed.
End huge_blocks.

(** ** Lemmas: the internal entry points *)

Section entry.
Context (cfg : config) {Hok : config_ok cfg}.
Context {V : VM} {VS : VMSpec V (pagesize cfg)}.
Local Notation ab := (opt_abort (opts cfg)).
Local Notation CS := (chunksize cfg).

Lemma same_data_trans B h1 h2 h3 : same_data B h1 h2 -> same_data B h2 h3 -> same_data B h1 h3.
Proof. intros H1 H2 p n x Hp Hx. rewrite (H2 p n x Hp Hx). by apply (H1 p n x). Qed.

Lemma alloc_spec_trans B h1 h2 n r :
  same_data B h1 h2 -> alloc_spec cfg h2 B n r -> alloc_spec cfg h1 B n r.
Proof.
  destruct r as [ro h3]. intros Hs [Hd Hr]. split; [by eapply same_data_trans|done].
Qed.

Lemma maxclass_bounds : bin_maxclass cfg < arena_maxclass cfg /\ arena_maxclass cfg < CS.
Proof.
  destruct (chunk_geometry cfg) as (HCS & HH & HPG & _). pose proof (page_le_maxclass cfg).
  rewrite ok_maxclass, ok_bin_maxclass, <- ok_pagesize in *. pose proof ok_p as Hp.
  pose proof (pow2_lt_mono (pagesize_2pow cfg - 1) (pagesize_2pow cfg) ltac:(lia)) as Hlt.
  rewrite <- ok_pagesize in Hlt. split; nia.
Qed.

Lemma imalloc_ok h B tid sz :
  heap_inv cfg h B -> 1 <= sz < 2 ^ 64 ->
  wp ab (imalloc cfg h tid sz) (alloc_spec cfg h B (usable_size cfg sz)).
Proof.
  intros Hinv Hsz. pose proof maxclass_bounds as [Hmc _]. unfold imalloc.
  destruct (sz <=? arena_maxclass cfg) eqn:E; b2p.
  - apply wp_bind. eapply wp_mono; [by apply choose_arena_ok|]. intros [a h1] _ (Hinv1 & Hs & ar & Ha).
    eapply wp_mono; [eapply arena_malloc_ok; eauto; lia|]. intros r _ Hr. by eapply alloc_spec_trans.
  - unfold usable_size. rewrite (proj2 (Z.leb_gt sz (bin_maxclass cfg))) by lia.
    rewrite (proj2 (Z.leb_gt sz (arena_maxclass cfg))) by lia. apply (heap_huge_malloc_ok cfg); [done|lia].
Qed.

Lemma idalloc_ok h B p n :
  heap_inv cfg h B -> B !! p = Some n -> wp ab (idalloc cfg h p) (free_spec cfg h B p).
Proof.
  intros (U & K & Hi & Hb & HB) Hp. apply HB in Hp.
  destruct (block_base cfg h U K p n Hi Hb) as [Hsl Hhu].
  eapply wp_mono; [|intros h' _; by apply free_post_spec]. unfold idalloc.
  assert (Hsmall : small_block cfg h K p n \/ large_block cfg U K p n ->
    wp ab (let! ch := lift (chunk_hdrs h !! CHUNK_ADDR2BASE cfg p) in
           arena_dalloc cfg h (chunk_arena ch) (CHUNK_ADDR2BASE cfg p) p) (free_post cfg h U K p)).
  { intros Hq. assert (Hc : exists ch, chunk_hdrs h !! CHUNK_ADDR2BASE cfg p = Some ch).
    { destruct Hq as [[r Hs]|Hl].
      - destruct (small_lookup cfg h U K r p n Hi Hb Hs) as (ch & ? & ? & ? & ? & ? & ? & Hc & _). eauto.
      - destruct (large_bounds cfg h U K p n Hi Hl) as (m & HU & _).
        destruct (run_chunk cfg h U p m Hi HU) as (c & ch & _ & _ & _ & Hc & _ & -> & _). eauto. }
    destruct Hc as [ch Hc]. rewrite Hc. cbn [lift]. by eapply arena_dalloc_ok. }
  destruct Hp as [Hs|[Hl|Hh]].
  - rewrite (proj2 (Z.eqb_neq _ _)) by tauto. cbn [negb]. tauto.
  - rewrite (proj2 (Z.eqb_neq _ _)) by tauto. cbn [negb]. tauto.
  - rewrite (proj2 (Z.eqb_eq _ _)) by tauto. cbn [negb]. by eapply heap_huge_dalloc_ok.
Qed.

Lemma isalloc_ok h B p n : heap_inv cfg h B -> B !! p = Some n -> isalloc cfg h p = Ok n.
Proof.
  intros (U & K & Hi & Hb & HB) Hp. apply HB in Hp.
  destruct (block_base cfg h U K p n Hi Hb) as [Hsl Hhu]. unfold isalloc.
  destruct Hp as [Hs|[Hl|Hh]].
  - rewrite (proj2 (Z.eqb_neq _ _)) by tauto. cbn [negb].
    rewrite (arena_salloc_ok cfg h U K p n) by tauto. done.
  - rewrite (proj2 (Z.eqb_neq _ _)) by tauto. cbn [negb].
    rewrite (arena_salloc_ok cfg h U K p n) by tauto. done.
  - rewrite (proj2 (Z.eqb_eq _ _)) by tauto. cbn [negb]. unfold huge_salloc.
    destruct Hh as (m & Hm & <- & <-).
    by rewrite (tree_find_elem _ m (huge_nodes_sorted cfg _ (ri_lower _ _ _ Hi)) Hm).
Qed.
(** *** Sizes *)

Lemma usable_size_ge sz : 1 <= sz <= arena_maxclass cfg -> sz <= usable_size cfg sz.
Proof.
  intros Hsz. unfold usable_size. destruct (sz <=? bin_maxclass cfg) eqn:E; b2p.
  - destruct (size2bin_fits cfg sz ltac:(lia)) as [(_ & ? & _) _]. done.
  - rewrite (proj2 (Z.leb_le sz (arena_maxclass cfg))) by lia.
    destruct (chunk_geometry cfg) as (HCS & HH & HPG & HC & HN). destruct (pagesize_bounds cfg) as [_ Hmx].
    destruct (page_ceiling cfg sz) as [Hpc _]; lia.
Qed.

Lemma quantum_ceiling n :
  0 < n <= small_max cfg ->
  n <= QUANTUM_CEILING cfg n /\ QUANTUM_CEILING cfg n mod quantum cfg = 0 /\
  (n mod quantum cfg = 0 -> QUANTUM_CEILING cfg n = n).
Proof.
  intros Hn. destruct (exponents cfg) as (Hq & Hs & Hp).
  assert (Hqs : 0 < quantum cfg <= 2 ^ 15 /\ small_max cfg <= 2 ^ 15).
  { rewrite ok_quantum, ok_small_max. split; [split; [apply pow2_pos; lia|]|]; apply pow2_le_mono; lia. }
  change (2 ^ 15) with 32768 in Hqs. unfold QUANTUM_CEILING.
  rewrite ok_quantum_mask, ceil_pow2 by (rewrite <- ?ok_quantum; lia). rewrite <- ok_quantum.
  destruct (div_ceil_spec n (quantum cfg)) as [H1 H2]; [lia|]. split; [done|].
  split; [rewrite Z.mul_comm; apply Z.mod_mul; lia|].
  intros Hm. apply Z.mod_divide in Hm as [k ->]; [|lia].
  set (d := (k * quantum cfg + (quantum cfg - 1)) / quantum cfg) in *. clearbody d.
  assert (d = k) as ->; [|lia]. clear - H1 H2 Hqs. generalize dependent (quantum cfg). intros Q H1 H2 HQ.
  assert (~ d <= k - 1) by nia. assert (~ k + 1 <= d) by nia. lia.
Qed.

Lemma tiny_index sz :
  sz < small_min cfg ->
  fst (size2bin cfg sz) = ffs (Z.shiftr (pow2_ceil sz) (TINY_MIN_2POW + 1)).
Proof. intros Hsz. unfold size2bin. by rewrite (proj2 (Z.ltb_lt _ _)) by done. Qed.

(** A tiny request of the same bin as a class fits that class. *)
Lemma tiny_class_le sz i :
  1 <= sz < small_min cfg -> 0 <= i < nbins cfg -> bin_reg_size cfg i < small_min cfg ->
  fst (size2bin cfg sz) = fst (size2bin cfg (bin_reg_size cfg i)) -> sz <= bin_reg_size cfg i.
Proof.
  intros Hsz Hbi Ht He. destruct (exponents cfg) as (Hq & Hs & Hp).
  destruct (bin_reg_size_class cfg i Hbi) as [[H2 _] _].
  destruct (size2bin_tiny cfg sz Hsz) as [(Hj & Hle & _) _].
  destruct (size2bin_tiny cfg (bin_reg_size cfg i)) as [(_ & _ & Hlt) _]; [lia|].
  rewrite <- He in Hlt. generalize dependent (fst (size2bin cfg sz)). intros j _ Hj Hle Hlt.
  rewrite ok_small_min in Ht.
  pose proof (pow2_lt_mono (opt_quantum_2pow (opts cfg) - 1) (opt_quantum_2pow (opts cfg)) ltac:(lia)).
  pose proof (pow2_le_mono (opt_quantum_2pow (opts cfg)) (opt_small_max_2pow (opts cfg)) ltac:(lia)).
  destruct (bin_class_cases cfg i Hbi) as [[Hit Ei]|[(_ & Ei & _)|(_ & Ei)]];
    [|lia|rewrite ok_small_max in Ei; lia].
  rewrite Ei in *. destruct (Z.eq_dec j 0) as [Ej|Ej].
  { rewrite Ej, (bin_reg_size_tiny cfg 0) in Hle by lia.
    pose proof (pow2_le_mono (0 + 1) (i + 1) ltac:(lia)). lia. }
  specialize (Hlt ltac:(lia)).
  destruct (bin_class_cases cfg (j - 1)) as [[Hjt Ej1]|[(_ & Ej1 & _)|(_ & Ej1)]];
    [lia| |lia|rewrite ok_small_max in Ej1; lia].
  rewrite Ej1 in Hlt. apply pow2_lt_exp in Hlt; [|lia|lia].
  rewrite (bin_reg_size_tiny cfg j) in Hle by lia.
  pose proof (pow2_le_mono (j + 1) (i + 1) ltac:(lia)). lia.
Qed.

(** Resizing in place never grows past the block. *)
Lemma same_class_fits h U K sz p n :
  runs_inv cfg h U -> bins_inv cfg h U K -> small_block cfg h K p n \/ large_block cfg U K p n ->
  1 <= sz <= arena_maxclass cfg -> same_class cfg sz n = true -> sz <= n.
Proof.
  intros Hi Hb Hblk Hsz. destruct (exponents cfg) as (Hq & Hs & Hp).
  destruct (chunk_geometry cfg) as (HCS & HH & HPG & HC & HN). destruct (pagesize_bounds cfg) as [_ Hmx].
  assert (Hmin : small_min cfg <= small_max cfg).
  { rewrite ok_small_min, ok_small_max.
    pose proof (pow2_lt_mono (opt_quantum_2pow (opts cfg) - 1) (opt_small_max_2pow (opts cfg)) ltac:(lia)). lia. }
  assert (Hpgsm : small_max cfg < pagesize cfg).
  { rewrite ok_small_max, ok_pagesize. apply pow2_lt_mono. lia. }
  assert (Hclass : n <= small_max cfg -> exists i, 0 <= i < nbins cfg /\ n = bin_reg_size cfg i).
  { intros Hn. destruct Hblk as [(r & bi & a & b & rh & reg & _ & _ & Hg & _ & _ & _ & _ & ->)|Hl].
    - destruct (bin_facts cfg h U K a bi b Hb Hg) as ([E _] & _ & Hbi & _). eauto.
    - destruct (large_bounds cfg h U K p n Hi Hl) as (m & _ & _ & ?). lia. }
  unfold same_class. destruct (sz <? small_min cfg) eqn:E1; [|destruct (sz <=? small_max cfg) eqn:E2]; b2p.
  - intros [Ht He]%andb_true_iff. b2p. destruct Hclass as (i & Hbi & ->); [lia|].
    rewrite <- !tiny_index in He by lia. apply (tiny_class_le sz i); [lia|done|done|done].
  - intros [[Ha Hc]%andb_true_iff He]%andb_true_iff. b2p.
    destruct Hclass as (i & Hbi & En); [lia|].
    destruct (quantum_ceiling sz) as (Q1 & Q2 & _); [lia|].
    assert (Hnm : n mod quantum cfg = 0).
    { destruct (bin_class_cases cfg i Hbi) as [[Hit Ei]|[(_ & _ & Ei)|(_ & Ei)]]; [|by rewrite En|lia].
      rewrite ok_small_min, En, Ei in Ha.
      pose proof (pow2_le_mono (i + 1) (opt_quantum_2pow (opts cfg) - 1) ltac:(lia)). lia. }
    destruct (bin_reg_size_class cfg i Hbi) as [[H2 _] _].
    destruct (quantum_ceiling n) as (_ & _ & Q3); [lia|]. rewrite (Q3 Hnm) in He.
    rewrite !Z.shiftr_div_pow2, <- !ok_quantum in He by lia.
    assert (0 < quantum cfg) by (rewrite ok_quantum; apply pow2_pos; lia).
    pose proof (Z.div_mod n (quantum cfg) ltac:(lia)).
    pose proof (Z.div_mod (QUANTUM_CEILING cfg sz) (quantum cfg) ltac:(lia)). lia.
  - intros [_ He]%andb_true_iff. b2p. destruct (page_ceiling cfg sz) as [Hpc _]; lia.
Qed.
(** *** [imalloc] with its size, [icalloc] *)

(** A successful request of [sz] bytes gets a block that holds them. *)
Definition malloc_spec (h : heap) (B : gmap Z Z) (sz : Z) (r : option Z * heap) : Prop :=
  alloc_spec cfg h B (usable_size cfg sz) r /\ (fst r <> None -> sz <= usable_size cfg sz).

Lemma huge_request sz :
  arena_maxclass cfg < sz -> usable_size cfg sz = CHUNK_CEILING cfg sz.
Proof.
  intros Hsz. pose proof maxclass_bounds as [Hmc _]. unfold usable_size.
  rewrite (proj2 (Z.leb_gt sz (bin_maxclass cfg))) by lia.
  by rewrite (proj2 (Z.leb_gt sz (arena_maxclass cfg))) by lia.
Qed.

Lemma huge_fits h sz p h' :
  chunks_inv cfg (lower h) -> 0 < sz < 2 ^ 64 ->
  heap_huge_malloc cfg h sz = Ok (Some p, h') -> sz <= CHUNK_CEILING cfg sz.
Proof.
  intros Hi Hsz. unfold heap_huge_malloc. destruct (huge_malloc cfg (lower h) sz) as [[ro s']| |] eqn:E; try done.
  intros [= -> <-]. apply (huge_malloc_ok cfg) in E; [|done|done]. by destruct E.
Qed.

Lemma imalloc_spec h B tid sz :
  heap_inv cfg h B -> 1 <= sz < 2 ^ 64 -> wp ab (imalloc cfg h tid sz) (malloc_spec h B sz).
Proof.
  intros Hinv Hsz. eapply wp_mono; [by apply imalloc_ok|]. intros [ro h'] E Hr. split; [done|].
  destruct ro as [p|]; [|done]. intros _. unfold imalloc in E.
  destruct (sz <=? arena_maxclass cfg) eqn:El; b2p; [apply usable_size_ge; lia|].
  rewrite huge_request by lia. destruct Hinv as (U & K & Hi & _). eapply huge_fits; [apply Hi|lia|done].
Qed.

Lemma heap_memset h B p n byte m :
  heap_inv cfg h B -> B !! p = Some n -> m <= n ->
  heap_inv cfg (memset h p byte m) B /\ same_data (delete p B) h (memset h p byte m) /\
  (forall x, in_range p m x -> vm_read (kernel (lower (memset h p byte m))) x = byte).
Proof.
  intros Hinv Hp Hm.
  assert (Hw : writes_in cfg p n (fun v => fill v p m byte)).
  { eapply writes_in_sub; [| |apply (vm_write_writes cfg p m (fun _ _ => byte))]; lia. }
  split; [by eapply heap_inv_write|]. split; [|intros x Hx; cbn; by apply vm_write_in].
  intros q k x [Hne Hq]%lookup_delete_Some Hx. cbn. apply vm_write_out. intros Hxp. apply Hne.
  eapply (heap_disjoint cfg h B); eauto. unfold in_range in *. lia.
Qed.

(** Writing all over a block just allocated. *)
Lemma alloc_then_memset h B n p h' byte m :
  alloc_spec cfg h B n (Some p, h') -> m <= n ->
  alloc_spec cfg h B n (Some p, memset h' p byte m) /\
  (forall x, in_range p m x -> vm_read (kernel (lower (memset h' p byte m))) x = byte).
Proof.
  intros (Hs & Hnone & Hinv) Hm.
  destruct (heap_memset h' (<[p := n]> B) p n byte m Hinv) as (Hinv' & Hd & Hz); [by rewrite lookup_insert_eq|done|].
  split; [|done]. split; [|done]. eapply same_data_trans; [exact Hs|].
  rewrite delete_insert_id in Hd by done. done.
Qed.

(** [icalloc] returns zeroed memory. *)
Lemma icalloc_ok h B tid sz :
  heap_inv cfg h B -> 1 <= sz < 2 ^ 64 ->
  wp ab (icalloc cfg h tid sz) (fun '(ro, h') =>
    malloc_spec h B sz (ro, h') /\
    match ro with
    | Some p => forall x, in_range p sz x -> vm_read (kernel (lower h')) x = 0
    | None => True
    end).
Proof.
  intros Hinv Hsz. pose proof Hinv as (U & K & Hi & _). pose proof maxclass_bounds as [Hmc _]. unfold icalloc.
  destruct (sz <=? arena_maxclass cfg) eqn:E; b2p.
  - apply wp_bind. eapply wp_mono; [by apply choose_arena_ok|]. intros [a h1] _ (Hinv1 & Hs & ar & Ha).
    apply wp_bind. eapply wp_mono; [eapply arena_malloc_ok; eauto; lia|]. intros [[p|] h2] _ Hr; cbn [wp].
    + assert (Hle : sz <= usable_size cfg sz) by (apply usable_size_ge; lia).
      eapply alloc_spec_trans in Hr; [|exact Hs].
      destruct (alloc_then_memset h B (usable_size cfg sz) p h2 0 sz Hr Hle). split; [split|]; done.
    + split; [|done]. split; [by eapply alloc_spec_trans|done].
  - unfold malloc_spec. rewrite huge_request by lia. apply wp_bind.
    eapply wp_mono; [apply (heap_huge_malloc_ok cfg); [done|lia]|].
    intros [[p|] h2] Eh Hr; cbn [wp]; [|done].
    pose proof (huge_fits h sz p h2 (ri_lower _ _ _ Hi) ltac:(lia) Eh) as Hle.
    destruct (opt_junk (opts cfg)) eqn:Ej.
    + destruct (alloc_then_memset h B _ p h2 0 sz Hr Hle). done.
    + split; [done|]. unfold heap_huge_malloc in Eh.
      destruct (huge_malloc cfg (lower h) sz) as [[ro s']| |] eqn:Em; try done. injection Eh as -> <-.
      apply (huge_malloc_ok cfg) in Em; [|apply Hi|lia].
      destruct Em as (_ & _ & _ & _ & _ & _ & _ & Hnew & _). rewrite Ej in Hnew.
      intros x Hx. apply Hnew. unfold in_range in *. lia.
Qed.
(** *** [iralloc] *)

(** The first [k] bytes at [p] in [h] are those at [q] in [h']. *)
Definition copied (h : heap) (p : Z) (h' : heap) (q k : Z) : Prop :=
  forall i, 0 <= i < k -> vm_read (kernel (lower h')) (q + i) = vm_read (kernel (lower h)) (p + i).

(** Resizing the block of [n] bytes at [p] to [sz] bytes: it stays where it is, or
    moves to a new block; either way the common prefix is kept and no other
    block changes. *)
Definition realloc_spec (h : heap) (B : gmap Z Z) (p n sz : Z) (r : option Z * heap) : Prop :=
  let '(ro, h') := r in
  match ro with
  | None => heap_inv cfg h' B /\ same_data B h h'
  | Some q =>
      same_data (delete p B) h h' /\ copied h p h' q (Z.min sz n) /\
      ((q = p /\ sz <= n /\ heap_inv cfg h' B) \/
       (B !! q = None /\ sz <= usable_size cfg sz /\
        heap_inv cfg h' (<[q := usable_size cfg sz]> (delete p B))))
  end.

Lemma block_extent h B p n :
  heap_inv cfg h B -> B !! p = Some n -> 0 < n /\ 0 < p /\ p + n < 2 ^ 64.
Proof.
  intros (U & K & Hi & Hb & HB) Hp. apply HB in Hp as Hblk.
  pose proof (block_pos cfg h U K p n Hi Hb Hblk) as Hn. split; [done|].
  destruct (chunk_geometry cfg) as (_ & _ & HPG & _).
  destruct Hblk as [[r Hr]|[Hl|(o & Ho & <- & <-)]].
  - destruct (run_block_bounds cfg h U K r p n Hb Hr) as (m & HU & H1 & H2 & _).
    destruct (run_placed cfg h U r m p Hi HU) as (Hr0 & Hr1 & _); [unfold in_range; lia|]. lia.
  - destruct (large_bounds cfg h U K p n Hi Hl) as (m & HU & -> & _).
    destruct (run_placed cfg h U p m p Hi HU) as (Hr0 & Hr1 & _); [unfold in_range; lia|]. lia.
  - pose proof (cs_huge _ _ (ri_lower _ _ _ Hi)) as Hh. rewrite Forall_forall in Hh.
    destruct (Hh o Ho) as (? & _). lia.
Qed.

(** In place. *)
Lemma refill_ok h B p n sz :
  heap_inv cfg h B -> B !! p = Some n -> 1 <= sz <= n ->
  realloc_spec h B p n sz (Some p, refill cfg h p sz n).
Proof.
  intros Hinv Hp Hsz. destruct (block_extent h B p n Hinv Hp) as (_ & Hp0 & Hpn).
  unfold realloc_spec, refill. rewrite (proj2 (Z.ltb_ge n sz)), andb_false_r by lia. rewrite Z.min_l by lia.
  destruct (opt_junk (opts cfg) && (sz <? n)) eqn:E.
  - apply andb_true_iff in E as [_ E]. b2p. rewrite !u64_small by lia.
    assert (Hw : writes_in cfg p n (fun v => fill v (p + sz) (n - sz) 90)).
    { eapply writes_in_sub; [| |apply (vm_write_writes cfg (p + sz) (n - sz) (fun _ _ => 90))]; lia. }
    split; [|split; [|left; split; [done|]; split; [lia|by eapply heap_inv_write]]].
    + intros q k x [Hne Hq]%lookup_delete_Some Hx. cbn. apply vm_write_out. intros Hxp. apply Hne.
      eapply (heap_disjoint cfg h B); eauto. unfold in_range in *. lia.
    + intros i Hi. cbn. apply vm_write_out. unfold in_range. lia.
  - split; [done|]. split; [done|]. left. split; [done|]. split; [lia|done].
Qed.

(** Copying into a new block and releasing the old one. *)
Lemma move_ok h B p n sz q h1 :
  heap_inv cfg h B -> B !! p = Some n -> malloc_spec h B sz (Some q, h1) -> 1 <= sz ->
  wp ab (let! h := idalloc cfg (memcpy h1 q p (Z.min sz n)) p in Ok (Some q, h))
    (realloc_spec h B p n sz).
Proof.
  intros Hinv Hp [(Hs & Hnone & Hinv1) Hle] Hsz. specialize (Hle ltac:(done)).
  destruct (block_extent h B p n Hinv Hp) as (Hn & _). set (u := usable_size cfg sz) in *.
  set (f := fun v => vm_write v q (Z.min sz n) (fun i => vm_read v (p + i))).
  change (memcpy h1 q p (Z.min sz n)) with (write_vm h1 f).
  assert (Hw : writes_in cfg q u f).
  { eapply writes_in_sub; [| |apply (vm_write_writes cfg q (Z.min sz n) (fun v i => vm_read v (p + i)))]; lia. }
  assert (Hqp : q <> p) by congruence.
  assert (Hp1 : <[q := u]> B !! p = Some n) by (by rewrite lookup_insert_ne).
  pose proof (heap_inv_write cfg h1 _ f q u Hinv1 Hw) as Hinv2.
  apply wp_bind. eapply wp_mono; [by apply (idalloc_ok _ (<[q := u]> B) p n)|].
  intros h3 _ [Hinv3 Hd3]. cbn [wp].
  assert (Hother : forall k m x, B !! k = Some m -> k <> q -> in_range k m x ->
            vm_read (kernel (lower (write_vm h1 f))) x = vm_read (kernel (lower h)) x).
  { intros k m x Hk Hkq Hx. cbn. unfold f. rewrite vm_write_out; [by apply (Hs k m x)|].
    intros Hxq. apply Hkq. apply (heap_disjoint cfg h1 (<[q := u]> B) k m q u x Hinv1); auto.
    - by rewrite lookup_insert_ne by congruence.
    - by rewrite lookup_insert_eq.
    - unfold in_range in *. lia. }
  rewrite delete_insert_ne in Hinv3, Hd3 by done. split; [|split].
  - intros k m x Hk Hx. apply lookup_delete_Some in Hk as Hk'. destruct Hk' as [Hkp HkB].
    assert (Hkq : k <> q) by congruence.
    rewrite (Hd3 k m x); [by eapply Hother|by rewrite lookup_insert_ne|done].
  - intros i Hi. assert (Hqi : in_range q u (q + i)) by (unfold in_range; lia).
    rewrite (Hd3 q u (q + i)); [|by rewrite lookup_insert_eq|done].
    cbn. unfold f. rewrite vm_write_in by (unfold in_range; lia).
    replace (p + (q + i - q)) with (p + i) by lia. apply (Hs p n); [done|]. unfold in_range. lia.
  - right. done.
Qed.

Lemma min_ltb a b : (if a <? b then a else b) = Z.min a b.
Proof. destruct (a <? b) eqn:E; b2p; lia. Qed.

Lemma arena_ralloc_ok h B tid p n sz :
  heap_inv cfg h B -> B !! p = Some n -> 1 <= sz <= arena_maxclass cfg ->
  wp ab (arena_ralloc cfg h tid p sz n) (realloc_spec h B p n sz).
Proof.
  intros Hinv Hp Hsz. unfold arena_ralloc. destruct (same_class cfg sz n) eqn:E.
  - cbn [wp]. apply refill_ok; [done|done|]. split; [lia|].
    pose proof Hinv as (U & K & Hi & Hb & HB). apply HB in Hp as [Hs|[Hl|Hh]].
    + eapply same_class_fits; eauto.
    + eapply same_class_fits; eauto.
    + destruct Hh as (o & Ho & _ & <-). pose proof (cs_huge _ _ (ri_lower _ _ _ Hi)) as Hhu.
      rewrite Forall_forall in Hhu. destruct (Hhu o Ho) as (_ & Hpos & _ & Hm & _).
      pose proof maxclass_bounds as [_ Hmc]. apply Z.mod_divide in Hm as [k Hk]; [|lia].
      assert (1 <= k) by nia. nia.
  - apply wp_bind. eapply wp_mono; [by apply choose_arena_ok|]. intros [a h1] _ (Hinv1 & Hs & ar & Ha).
    apply wp_bind. eapply wp_mono; [eapply arena_malloc_ok; eauto; lia|]. intros [[q|] h2] _ Hr.
    + rewrite min_ltb. apply move_ok; auto; [|lia]. split; [by eapply alloc_spec_trans|].
      intros _. apply usable_size_ge. lia.
    + eapply alloc_spec_trans in Hr; [|exact Hs]. destruct Hr. cbn. done.
Qed.

Lemma chunk_ceiling_le sz n :
  0 < sz < 2 ^ 64 -> CHUNK_CEILING cfg sz = n /\ 0 < n -> sz <= n.
Proof.
  intros Hsz [<- Hn]. destruct (Z.le_gt_cases (sz + CS) (2 ^ 64)) as [Hle|Hgt].
  - by destruct (chunk_ceiling cfg sz) as [[? _] _]; [lia|lia|].
  - revert Hn. unfold CHUNK_CEILING. rewrite ok_chunksize_mask. rewrite ok_chunksize in Hgt.
    pose proof ok_k as Hk. pose proof ok_p as Hp. rewrite ceil_pow2_overflow by lia. lia.
Qed.

Lemma huge_ralloc_ok h B p n sz :
  heap_inv cfg h B -> B !! p = Some n -> arena_maxclass cfg < sz < 2 ^ 64 ->
  wp ab (huge_ralloc cfg h p sz n) (realloc_spec h B p n sz).
Proof.
  intros Hinv Hp Hsz. pose proof Hinv as (U & K & Hi & Hb & HB). pose proof maxclass_bounds as [Hbm Hmc].
  pose proof (HB p n) as [Hblk _]. specialize (Hblk Hp). unfold huge_ralloc.
  destruct (block_base cfg h U K p n Hi Hb) as [Hsl Hhu].
  (* an arena block is smaller than any huge request *)
  assert (Hcase : (huge_block h p n /\ arena_maxclass cfg < n /\ n mod CS = 0) \/
            (CHUNK_ADDR2BASE cfg p <> p /\ n <= arena_maxclass cfg)).
  { destruct (chunk_geometry cfg) as (HCS & HH & HPG & HC & _). destruct Hblk as [Hs|[Hl|Hh]].
    - right. split; [tauto|]. destruct Hs as (r & bi & a & b & rh & reg & _ & _ & Hg & _ & _ & _ & _ & ->).
      destruct (bin_facts cfg h U K a bi b Hb Hg) as ([E _] & _ & Hbi & _).
      destruct (bin_reg_size_half_page cfg bi Hbi) as [_ Hhalf]. pose proof (page_le_maxclass cfg).
      rewrite E. pose proof (Z.div_le_upper_bound (pagesize cfg) 2 (pagesize cfg)). lia.
    - right. split; [tauto|]. destruct (large_bounds cfg h U K p n Hi Hl) as (m & HU & -> & _).
      destruct (run_chunk cfg h U p m Hi HU)
        as (c & ch' & pre & post & ar & _ & _ & _ & _ & _ & _ & _ & Hm & Hpre & Hend & _).
      rewrite ok_maxclass, <- ok_pagesize. nia.
    - left. split; [done|]. destruct Hh as (o & Ho & _ & <-).
      pose proof (cs_huge _ _ (ri_lower _ _ _ Hi)) as Hho. rewrite Forall_forall in Hho.
      destruct (Hho o Ho) as (_ & Hpos & _ & Hm & _). split; [|done].
      apply Z.mod_divide in Hm as [k Hk]; [|lia]. assert (1 <= k) by nia. nia. }
  destruct (chunk_geometry cfg) as (_ & _ & HPG & HC & _). pose proof (page_le_maxclass cfg) as Hpm.
  destruct (_ && _) eqn:E.
  - apply andb_true_iff in E as [E1 E2]. b2p.
    destruct Hcase as [(Hh & Hn & Hm)|[_ Hn]]; [|lia]. cbn [wp]. apply refill_ok; [done|done|].
    destruct (block_extent h B p n Hinv Hp) as (Hn0 & Hp0 & Hpn). split; [lia|].
    destruct Hh as (o & Ho & <- & <-). pose proof (cs_huge _ _ (ri_lower _ _ _ Hi)) as Hho.
    rewrite Forall_forall in Hho. destruct (Hho o Ho) as (_ & _ & Hal & _).
    apply chunk_ceiling_le; [lia|]. rewrite E2. split; [|done].
    apply Z.mod_divide in Hal as [k Hk]; [|lia]. assert (1 <= k) by nia. assert (CS <= chunk o) by nia.
    destruct (chunk_ceiling cfg (size o)) as [Hc Hcm]; [lia|lia|].
    apply Z.mod_divide in Hm as [j Hj]; [|lia]. apply Z.mod_divide in Hcm as [j' Hj']; [|lia].
    rewrite Hj', Hj in *. clear - Hc HC. assert (~ j' <= j - 1) by nia. assert (~ j + 1 <= j') by nia.
    f_equal. lia.
  - apply wp_bind. eapply wp_mono; [apply (heap_huge_malloc_ok cfg); [done|lia]|]. intros [[q|] h2] Eh Hr.
    + assert (Hms : malloc_spec h B sz (Some q, h2)).
      { split; [by rewrite huge_request by lia|]. intros _. rewrite huge_request by lia.
        eapply huge_fits; [apply Hi|lia|done]. }
      rewrite min_ltb.
      replace (if CHUNK_ADDR2BASE cfg p =? p then Z.min sz n else n) with (Z.min sz n).
      { apply move_ok; auto. lia. }
      destruct Hcase as [(Hh & _)|[Hne Hn]].
      * rewrite (proj2 (Z.eqb_eq _ _)); [done|by apply Hhu].
      * rewrite (proj2 (Z.eqb_neq _ _)) by done. lia.
    + destruct Hr. cbn. done.
Qed.
Lemma iralloc_ok h B tid p n sz :
  heap_inv cfg h B -> B !! p = Some n -> 1 <= sz < 2 ^ 64 ->
  wp ab (iralloc cfg h tid p sz) (realloc_spec h B p n sz).
Proof.
  intros Hinv Hp Hsz. unfold iralloc. rewrite (isalloc_ok h B p n Hinv Hp).
  destruct (sz <=? arena_maxclass cfg) eqn:E; b2p; [apply arena_ralloc_ok|apply huge_ralloc_ok]; auto; lia.
Qed.
End entry.

(** ** Lemmas: initialisation *)

Section init.
Context {V : VM}.

(** The settings a fresh process computes. *)
Definition config_of (e : environ) : config :=
  init_settings (sysconf_pagesize e)
    (parse_sources (ffs (sysconf_pagesize e) - 1) default_options
       (malloc_conf e) (malloc_options e) (compiled_in e)).

(** What is assumed of the system: a power-of-two page of 4 to 32 kB, options
    that keep chunks at 4 GB or less, and a number of arenas that the shift
    computes. *)
Record environ_ok (e : environ) : Prop := mk_environ_ok {
  eo_page : exists p, 12 <= p <= 15 /\ sysconf_pagesize e = 2 ^ p;
  eo_chunk : opt_chunk_2pow (parse_sources (ffs (sysconf_pagesize e) - 1) default_options
               (malloc_conf e) (malloc_options e) (compiled_in e)) <= 32;
  eo_ncpus : 1 <= ncpus e < 2 ^ 32;
  eo_narenas : exists n, init_narenas (ncpus e) (opt_narenas_lshift
               (parse_sources (ffs (sysconf_pagesize e) - 1) default_options
                 (malloc_conf e) (malloc_options e) (compiled_in e))) (chunksize (config_of e)) = Some n }.

Lemma config_of_ok e : environ_ok e -> config_ok (config_of e).
Proof.
  intros [(p & Hp & Ep) Hk _ _]. unfold config_of. rewrite Ep in *.
  assert (Ef : ffs (2 ^ p) - 1 = p) by (rewrite ffs_pow2 by lia; lia). rewrite Ef in *.
  apply init_settings_ok_aux; [done|apply parse_sources_ok; [done|by apply default_options_ok]|done].
Qed.

Context (e : environ) (He : environ_ok e).
Local Notation cfg := (config_of e).
Context {VS : VMSpec V (pagesize cfg)}.
#[local] Instance cfg_ok : config_ok cfg := config_of_ok e He.

(** No arena yet. *)
Lemma empty_heap_inv s n ar h' :
  vm_ok (kernel s) -> old_chunks s = [] -> huge s = [] -> 1 <= n ->
  arena_new cfg = Some ar ->
  put_arena (mk_heap s (replicate (Z.to_nat n) None) ∅ ∅) 0 ar = Some h' ->
  heap_inv cfg h' ∅.
Proof.
  intros Hv Ho Hh Hn Hnew Hput. destruct (arena_new_spec cfg) as (ar' & E & Hc & Hs & Hl & Hbins).
  assert (ar' = ar) as -> by congruence. unfold put_arena in Hput. cbn in Hput.
  destruct (zset _ 0 (Some ar)) as [l|] eqn:Ez; [|done]. injection Hput as <-. set (h := mk_heap _ _ _ _).
  assert (Har0 : get_arena h 0 = Some ar) by (unfold get_arena, h; cbn [arenas]; by rewrite (zget_zset_eq _ _ _ _ Ez)).
  assert (Hga : forall a ar2, get_arena h a = Some ar2 -> a = 0 /\ ar2 = ar).
  { intros a ar2. destruct (decide (a = 0)) as [->|Hne].
    - rewrite Har0. intros [= ->]. done.
    - unfold get_arena, h. cbn [arenas]. rewrite (zget_zset_ne _ _ _ _ _ Ez) by done. destruct (zget _ a) as [o|] eqn:Eg; [|done].
      unfold zget in Eg. destruct (0 <=? a); [|done]. apply lookup_replicate in Eg as [-> _]. done. }
  assert (Hgb : forall a bi b, get_bin h a bi = Some b -> bin_for cfg bi b /\ runcur b = None /\ runs b = []).
  { intros a bi b (ar2 & [-> ->]%Hga & Hz)%get_bin_Some. apply zget_Some_bound in Hz as Hbd. rewrite Hl in Hbd.
    destruct (Hbins bi Hbd) as (b' & Hb' & ? & ? & ?). assert (b' = b) as -> by congruence. done. }
  exists ∅, ∅. split; [|split].
  - split; cbn; try done.
    + split; rewrite ?Ho, ?Hh; try done; constructor.
    + intros a ar2 c [-> ->]%Hga [Hin|Hin]; rewrite ?Hc, ?Hs in Hin; [by apply elem_of_nil in Hin|done].
    + intros a ar2 [-> ->]%Hga. rewrite Hc. constructor.
    + intros a ar2 c [-> ->]%Hga. by rewrite Hs.
  - split; try done.
    + by exists ar.
    + intros a ar2 [-> ->]%Hga. split; [done|]. intros i b Hz.
      apply (Hgb 0). apply get_bin_Some. exists ar. done.
    + intros a bi b r (_ & -> & ->)%Hgb [?|Hin]; [done|by apply elem_of_nil in Hin].
    + intros a bi b (_ & _ & ->)%Hgb. constructor.
    + intros a bi b r (_ & -> & _)%Hgb. done.
  - intros p m. split; [done|]. intros [(r & bi & ? & ? & ? & ? & Hk & _)|[(k & Hk & _)|(o & Hin & _)]];
      try done. cbn in Hin. rewrite Hh in Hin. by apply elem_of_nil in Hin.
Qed.

Lemma malloc_init_hard_ok s :
  vm_ok (kernel s) ->
  wp (opt_abort (opts cfg)) (malloc_init_hard e default_options s) (fun '(failed, m) =>
    if failed : bool then exists o' s', m = Uninit o' s'
    else exists h, m = Ready cfg h /\ heap_inv cfg h ∅).
Proof.
  intros Hv. pose proof He as [_ _ Hcpu [n Hn]]. unfold malloc_init_hard. fold (config_of e). cbv zeta.
  rewrite Hn. cbn [lift]. destruct (chunk_geometry cfg) as (_ & _ & _ & HC & _).
  assert (Hcs : 2 ^ 13 <= chunksize cfg <= 2 ^ 32) by (change (2 ^ 13) with 8192; lia).
  destruct (init_narenas_bounds _ _ _ _ Hcpu Hcs Hn) as [Hnb _].
  set (s0 := mk_state _ _ _ [] [] []).
  assert (Hsz : u64 (SIZEOF_PTR * n) = 8 * n) by (unfold SIZEOF_PTR; apply u64_small; lia).
  rewrite Hsz. apply wp_bind. apply wp_of_safe; [apply base_alloc_safe|]. intros [ro s1] Es.
  apply (base_alloc_ok cfg) in Es as (Hk & Eo & Eh); [|done|lia]. cbn in Eo, Eh.
  destruct ro as [p|]; [|cbn; eauto]. set (s2 := set_kernel s1 _).
  assert (Hv2 : vm_ok (kernel s2)) by (apply vm_write_ok, Hk).
  unfold arenas_extend. cbn [lower]. apply wp_bind. apply wp_bind.
  apply wp_of_safe; [apply base_alloc_safe|]. intros [ro2 s3] Es3.
  pose proof (u32_bound (nbins cfg - 1)) as Hub.
  apply (base_alloc_ok cfg) in Es3 as (Hk3 & Eo3 & Eh3);
    [|done|unfold sizeof_arena_t, sizeof_arena_bin_t; rewrite u64_small by lia; lia].
  destruct ro2 as [p2|].
  - destruct (arena_new_spec cfg) as (ar & Ear & _). rewrite Ear. cbn [lift].
    destruct (put_arena (set_lower _ s3) 0 ar) as [h'|] eqn:Ep.
    2:{ exfalso. unfold put_arena in Ep. cbn in Ep. rewrite zset_Some in Ep; [done|].
        unfold zlen. rewrite length_replicate. lia. }
    cbn [lift wp]. assert (Ha : exists ar', get_arena h' 0 = Some ar').
    { unfold put_arena in Ep. destruct (zset _ 0 _) as [l|] eqn:Ez; [|done]. injection Ep as <-.
      exists ar. unfold get_arena. cbn [arenas]. by rewrite (zget_zset_eq _ _ _ _ Ez). }
    destruct Ha as [ar' ->]. cbn [wp]. exists h'. split; [done|].
    eapply (empty_heap_inv s3 n ar); eauto; [apply Hk3|by rewrite Eo3|by rewrite Eh3|lia].
  - destruct (opt_abort (opts cfg)); cbn [wp]; [done|].
    replace (get_arena _ 0) with (@None arena); [cbn; eauto|].
    unfold get_arena. cbn [arenas set_lower]. rewrite zget_replicate by lia. done.
Qed.
End init.
