(* ===== verification/JSpec.v ===== *)
(** * jalloc: correctness of the public functions

    The malloc(3) functions of [src/util/private/jalloc/malloc.c] on an
    initialised allocator: each refines the abstract operation on the map of the
    live blocks.  The overflow test of [calloc] is exact. *)

From Stdlib Require Import ZArith Lia Bool String.
From stdpp Require Import base numbers gmap list.
From S2P Require Import Prelude JConfig JRun JBin JMap JChunk JArena JPages JHeap JApi.

Lemma wp_weaken {A} (a b : bool) (o : outcome A) Q : (a = true -> b = true) -> wp a o Q -> wp b o Q.
Proof. destruct o; cbn; auto. Qed.

Section public.
Context (cfg : config) {Hok : config_ok cfg}.
Context {V : VM} {VS : VMSpec V (pagesize cfg)}.
Context (e : environ).

(** The process stops only if an option asks for it. *)
Local Notation stop := (opt_abort (opts cfg) || opt_xmalloc (opts cfg)).

(** The zero-size convention: one byte, or [NULL] with the ['V'] option. *)
Definition request (sz : Z) : Z := if sz =? 0 then 1 else sz.

Lemma request_bounds sz : 0 <= sz < 2 ^ 64 -> 1 <= request sz < 2 ^ 64.
Proof. intros Hsz. unfold request. destruct (sz =? 0) eqn:E; b2p; lia. Qed.

Lemma check_oom_ok ro h (Q : option Z * mstate -> Prop) :
  Q (ro, Ready cfg h) -> wp stop (check_oom (ro, Ready cfg h)) Q.
Proof.
  intros HQ. unfold check_oom. cbn [fst snd cur_opts]. destruct ro; [done|].
  destruct (opt_xmalloc (opts cfg)); cbn; [apply orb_true_r|done].
Qed.

(** Running an internal operation, then the out-of-memory check. *)
Lemma with_heap_ok h (f : config -> heap -> outcome (option Z * heap)) (P : option Z * heap -> Prop) :
  wp (opt_abort (opts cfg)) (f cfg h) P ->
  wp stop (let! r := with_heap (Ready cfg h) f in check_oom r) (fun '(ro, m) =>
    exists h', m = Ready cfg h' /\ P (ro, h')).
Proof.
  intros Hf. apply wp_bind. cbn [with_heap]. apply wp_bind.
  eapply wp_weaken; [|eapply wp_mono; [exact Hf|]]; [by intros ->|].
  intros [ro h'] _ HP. cbn [wp]. apply check_oom_ok. eauto.
Qed.

Lemma alloc_nothing h B n : heap_inv cfg h B -> alloc_spec cfg h B n (None, h).
Proof. done. Qed.

Lemma malloc_ok h B tid sz :
  heap_inv cfg h B -> 0 <= sz < 2 ^ 64 ->
  wp stop (malloc e (Ready cfg h) tid sz) (fun '(ro, m) =>
    exists h', m = Ready cfg h' /\ malloc_spec cfg h B (request sz) (ro, h')).
Proof.
  intros Hinv Hsz. unfold malloc. cbn [malloc_init cur_opts]. fold (request sz).
  destruct ((sz =? 0) && opt_sysv (opts cfg)).
  - apply check_oom_ok. exists h. split; [done|]. split; [by apply alloc_nothing|done].
  - apply (with_heap_ok h (fun c h => imalloc c h tid (request sz))).
    apply (imalloc_spec cfg); [done|by apply request_bounds].
Qed.

Lemma free_ok h B p n :
  heap_inv cfg h B -> B !! p = Some n ->
  wp stop (free (Ready cfg h) (Some p)) (fun m =>
    exists h', m = Ready cfg h' /\ free_spec cfg h B p h').
Proof.
  intros Hinv Hp. unfold free. cbn [with_heap]. do 3 apply wp_bind.
  eapply wp_weaken; [|eapply wp_mono; [by apply (idalloc_ok cfg h B p n)|]]; [by intros ->|].
  intros h' _ Hf. cbn. eauto.
Qed.

Lemma realloc_ok h B tid p n sz :
  heap_inv cfg h B -> B !! p = Some n -> 0 <= sz < 2 ^ 64 ->
  opt_sysv (opts cfg) = false \/ 0 < sz ->
  wp stop (realloc e (Ready cfg h) tid (Some p) sz) (fun '(ro, m) =>
    exists h', m = Ready cfg h' /\ realloc_spec cfg h B p n (request sz) (ro, h')).
Proof.
  intros Hinv Hp Hsz Hsys. unfold realloc. cbn [cur_opts]. fold (request sz).
  replace ((sz =? 0) && opt_sysv (opts cfg)) with false.
  - apply (with_heap_ok h (fun c h => iralloc c h tid p (request sz))).
    apply (iralloc_ok cfg); [done|done|by apply request_bounds].
  - symmetry. apply andb_false_iff. destruct Hsys as [->|Hpos]; [by right|left]. apply Z.eqb_neq. lia.
Qed.

(** *** [calloc] *)

Lemma high_half_zero a b :
  0 <= a < 2 ^ 64 -> 0 <= b < 2 ^ 64 ->
  Z.land (Z.lor a b) (Z.shiftl (Z.ones 32) 32) = 0 -> a < 2 ^ 32 /\ b < 2 ^ 32.
Proof.
  intros Ha Hb Hz.
  assert (Hbit : forall i, 32 <= i -> Z.testbit a i = false /\ Z.testbit b i = false).
  { intros i Hi. destruct (Z.lt_ge_cases i 64) as [Hlt|Hge].
    - apply (f_equal (fun x => Z.testbit x i)) in Hz.
      rewrite Z.land_spec, Z.lor_spec, Z.shiftl_spec, Z.ones_spec_low, andb_true_r, Z.bits_0 in Hz by lia.
      by apply orb_false_iff in Hz.
    - split; apply (testbit_high _ 64); lia. }
  split; apply bits_lt_pow2; try lia; intros i Hi; apply Hbit; lia.
Qed.

(** Products that do not fit [size_t] are refused; the half-word test is exact. *)
Lemma calloc_size_ok sysv num sz :
  0 <= num < 2 ^ 64 -> 0 <= sz < 2 ^ 64 ->
  calloc_size sysv num sz =
  if num * sz =? 0 then (if sysv then None else Some 1)
  else if num * sz <? 2 ^ 64 then Some (num * sz) else None.
Proof.
  intros Hnum Hsz. unfold calloc_size.
  change (u64 (Z.shiftl SIZE_T_MAX (Z.shiftl 8 2))) with (Z.shiftl (Z.ones 32) 32).
  destruct (Z.eq_dec (num * sz) 0) as [E0|E0].
  { rewrite E0. change (u64 0) with 0. cbn [Z.eqb].
    assert (Hz : (num =? 0) || (sz =? 0) = true).
    { apply orb_true_iff. rewrite !Z.eqb_eq. apply Z.mul_eq_0 in E0. done. }
    rewrite Hz, andb_true_r. by destruct sysv. }
  rewrite (proj2 (Z.eqb_neq (num * sz) 0)) by done.
  assert (Hn0 : num <> 0) by nia. assert (Hs0 : sz <> 0) by nia.
  destruct (Z.ltb_spec (num * sz) (2 ^ 64)) as [Hlt|Hge].
  - rewrite u64_small by nia. rewrite (proj2 (Z.eqb_neq (num * sz) 0)) by done.
    rewrite Z.div_mul, Z.eqb_refl by done. cbn [negb]. by rewrite andb_false_r.
  - assert (Hov : u64 (num * sz) / sz <> num).
    { unfold u64. pose proof (Z.mod_pos_bound (num * sz) (2 ^ 64) ltac:(lia)) as Hm.
      intros E. pose proof (Z.mul_div_le ((num * sz) mod 2 ^ 64) sz ltac:(lia)). rewrite E in *. nia. }
    assert (Hhigh : Z.land (Z.lor num sz) (Z.shiftl (Z.ones 32) 32) <> 0).
    { intros Hz. destruct (high_half_zero num sz Hnum Hsz Hz). nia. }
    rewrite (proj2 (Z.eqb_neq _ 0) Hhigh), (proj2 (Z.eqb_neq _ num) Hov). cbn [negb andb].
    destruct (u64 (num * sz) =? 0) eqn:Ez; [|done].
    rewrite (proj2 (Z.eqb_neq num 0)), (proj2 (Z.eqb_neq sz 0)) by done. by rewrite andb_false_r.
Qed.
Lemma calloc_ok h B tid num sz :
  heap_inv cfg h B -> 0 <= num < 2 ^ 64 -> 0 <= sz < 2 ^ 64 ->
  wp stop (calloc e (Ready cfg h) tid num sz) (fun '(ro, m) =>
    exists h', m = Ready cfg h' /\ malloc_spec cfg h B (request (num * sz)) (ro, h') /\
      match ro with
      | Some p => num * sz < 2 ^ 64 /\
          forall x, in_range p (request (num * sz)) x -> vm_read (kernel (lower h')) x = 0
      | None => True
      end).
Proof.
  intros Hinv Hnum Hsz. unfold calloc. cbn [malloc_init cur_opts]. rewrite calloc_size_ok by done.
  assert (Hnone : wp stop (check_oom (None, Ready cfg h)) (fun '(ro, m) =>
    exists h', m = Ready cfg h' /\ malloc_spec cfg h B (request (num * sz)) (ro, h') /\
      match ro with
      | Some p => num * sz < 2 ^ 64 /\
          forall x, in_range p (request (num * sz)) x -> vm_read (kernel (lower h')) x = 0
      | None => True
      end)).
  { apply check_oom_ok. exists h. split; [done|]. split; [|done]. split; [by apply alloc_nothing|done]. }
  assert (Hsome : forall n, request (num * sz) = n -> 1 <= n < 2 ^ 64 -> num * sz < 2 ^ 64 ->
    wp stop (let! r := with_heap (Ready cfg h) (fun c h => icalloc c h tid n) in check_oom r) (fun '(ro, m) =>
    exists h', m = Ready cfg h' /\ malloc_spec cfg h B (request (num * sz)) (ro, h') /\
      match ro with
      | Some p => num * sz < 2 ^ 64 /\
          forall x, in_range p (request (num * sz)) x -> vm_read (kernel (lower h')) x = 0
      | None => True
      end)).
  { intros n -> Hn Hlt. eapply wp_mono; [by apply (with_heap_ok h _ _ (icalloc_ok cfg h B tid n Hinv Hn))|].
    intros [ro m] _ (h' & -> & Hs & Hz). exists h'. do 2 (split; [done|]). by destruct ro. }
  unfold request in *. destruct (num * sz =? 0) eqn:E0; b2p.
  - destruct (opt_sysv (opts cfg)); [done|]. apply Hsome; lia.
  - destruct (num * sz <? 2 ^ 64) eqn:E1; b2p; [|done]. apply Hsome; nia.
Qed.
End public.
