(* ===== verification/JAlign.v ===== *)
(** * jalloc: aligned allocation

    Correctness of [arena_palloc], [ipalloc] and [posix_memalign] of
    [src/util/private/jalloc/malloc.c]: the run that [arena_palloc] allocates is
    cut into a leading part, the object and a trailing part in the page map, and
    the parts that are not needed are given back, the leading one while the map
    of the trailing one is still the old one. *)

From Stdlib Require Import ZArith Lia Bool.
From stdpp Require Import base numbers gmap list.
From S2P Require Import Prelude JConfig JRun JBin JMap JChunk JArena JPages JHeap JApi JSpec.

(** ** Cutting a used run of a chunk *)

Lemma fill_npages_spec fuel m off i v :
  0 <= off -> 0 <= i -> off + i + Z.of_nat fuel <= zlen m -> zlen m <= 2 ^ 32 ->
  exists m', fill_npages fuel m off i v = Some m' /\ zlen m' = zlen m /\
    (forall k e, i <= k < i + Z.of_nat fuel -> zget m (off + k) = Some e ->
       zget m' (off + k) = Some (mk_mapelm v (pos e))) /\
    (forall k, k < off + i \/ off + i + Z.of_nat fuel <= k -> zget m' k = zget m k).
Proof.
  revert m i. induction fuel as [|fuel IH]; intros m i Ho Hi Hl Hb; cbn [fill_npages].
  - exists m. do 2 (split; [done|]). split; [lia|done].
  - rewrite u32_small by lia. destruct (zget_is_Some m (off + i)) as [e He]; [lia|].
    destruct (put_npages_spec m (off + i) e v He) as (m1 & -> & Hl1 & Hg1 & Ho1).
    destruct (IH m1 (i + 1)) as (m' & -> & Hl' & Hin & Hout); [lia..|].
    exists m'. split; [done|]. split; [lia|]. split.
    + intros k e' Hk He'. destruct (decide (k = i)) as [->|].
      * rewrite Hout by lia. rewrite Hg1. congruence.
      * apply Hin; [lia|]. by rewrite Ho1 by lia.
    + intros k Hk. rewrite Hout, Ho1 by lia. done.
Qed.

Section cut.
Context (cfg : config) {Hok : config_ok cfg}.
Local Notation HD := (arena_chunk_header_npages cfg).
Local Notation N := (chunk_npages cfg).

(** The bounds of a used run of a chunk. *)
Lemma used_run_at ch pre n post :
  chunk_inv cfg ch (pre ++ Used n :: post) ->
  let i := HD + total pre in
  1 <= HD /\ 0 <= total pre /\ 1 <= n /\ i + n <= N /\ N <= 1048576 /\ zlen (chunk_map ch) = N /\
  0 <= used_pages pre <= total pre /\ 0 <= used_pages post <= total post /\
  N = i + n + total post /\
  map_rep (chunk_map ch) HD pre i /\ map_rep (chunk_map ch) i [Used n] (i + n) /\
  map_rep (chunk_map ch) (i + n) post N.
Proof.
  intros Hinv i. destruct (npages_bounds cfg) as [HN HN20]. change (2 ^ 20) with 1048576 in *.
  destruct (inv_split cfg _ _ _ Hinv) as (Hpre & Hpost & Hend & Htp & _ & Hp1 & Hp2).
  pose proof (used_pages_bounds _ Hp1). apply Forall_cons in Hp2 as [Hn Hp2].
  pose proof (used_pages_bounds _ Hp2). pose proof (total_nonneg _ Hp2).
  change (Used n :: post) with ([Used n] ++ post) in Hpost. apply map_rep_app in Hpost as [Hr Hpost].
  cbn [total seg_len] in *. rewrite Z.add_0_r in *. fold i in Hr, Hpost.
  split_and!; try lia; try done. apply Hinv.
Qed.

(** Two runs in the place of one. *)
Lemma recut ch m pre n a b post :
  chunk_inv cfg ch (pre ++ Used n :: post) -> n = a + b -> zlen m = N ->
  let i := HD + total pre in
  (forall k, k < i \/ i + n <= k -> zget m k = zget (chunk_map ch) k) ->
  map_rep m i [Used a; Used b] (i + n) ->
  chunk_inv cfg (set_map ch m) (pre ++ Used a :: Used b :: post).
Proof.
  intros Hinv -> Hm i Hout Hmid. pose proof Hinv as [Hlen Hrep Hco Hused Hmax Hmin].
  destruct (used_run_at _ _ _ _ Hinv) as (B1 & B2 & B3 & B4 & B5 & B6 & B7 & B8 & B9 & R1 & R2 & R3).
  fold i in B4, B9, R1, R2, R3.
  split; cbn [chunk_map pages_used max_frun_npages min_frun_ind set_map].
  - done.
  - apply map_rep_app. split.
    + eapply map_rep_frame; [exact R1|]. intros k Hk. apply Hout. lia.
    + change (Used a :: Used b :: post) with ([Used a; Used b] ++ post). apply map_rep_app.
      cbn [total seg_len]. fold i. replace (i + (a + (b + 0))) with (i + (a + b)) by lia. split; [done|].
      eapply map_rep_frame; [exact R3|]. intros k Hk. apply Hout. lia.
  - apply coalesced_used in Hco as [Hc1 Hc2]. apply coalesced_used. split; [done|].
    by apply (coalesced_used [] b).
  - rewrite Hused, !used_pages_app. cbn [used_pages]. lia.
  - rewrite !max_free_app in *. cbn [max_free] in *. lia.
  - done.
Qed.

(** [offset == 0]: the front is kept. *)
Lemma cut_tail ch pre n np t post :
  chunk_inv cfg ch (pre ++ Used n :: post) -> n = np + t -> 1 <= np -> 1 <= t ->
  let i := HD + total pre in
  exists m1 m2, fill_npages (Z.to_nat np) (chunk_map ch) i 0 np = Some m1 /\
    fill_run (Z.to_nat t) m1 (i + np) 0 t = Some m2 /\
    chunk_inv cfg (set_map ch m2) (pre ++ Used np :: Used t :: post).
Proof.
  intros Hinv -> Hnp Ht i.
  destruct (used_run_at _ _ _ _ Hinv) as (B1 & B2 & B3 & B4 & B5 & B6 & B7 & B8 & B9 & R1 & R2 & R3).
  fold i in B4, B9, R1, R2, R3. change (2 ^ 32) with 4294967296 in *.
  destruct (fill_npages_spec (Z.to_nat np) (chunk_map ch) i 0 np) as (m1 & E1 & L1 & I1 & O1); [lia..|].
  destruct (fill_run_used m1 (i + np) t) as (m2 & E2 & L2 & U2 & O2); [lia..|].
  exists m1, m2. do 2 (split; [done|]). eapply recut; [done|done|lia| |].
  - fold i. intros k Hk. rewrite O2, O1 by lia. done.
  - fold i. apply (map_rep_app m2 i [Used np] [Used t]). cbn [total seg_len].
    rewrite Z.add_0_r, Z.add_assoc. split; [|done]. cbn [map_rep]. split; [lia|]. split; [|lia].
    intros k Hk. rewrite O2 by lia. destruct R2 as (_ & R2 & _).
    apply (I1 k (mk_mapelm (np + t) k)); [lia|]. apply R2. lia.
Qed.

(** Releasing the leading run while the pages after its successor's first page
    hold anything. *)
Lemma dalloc_lead ch pre a lead e :
  zlen (chunk_map ch) = N -> 0 <= a -> ends_free pre = false -> 1 <= lead ->
  let i := HD + total pre + a in
  i + lead < N -> map_rep (chunk_map ch) HD (pre ++ opt_free a) i ->
  map_rep (chunk_map ch) i [Used lead] (i + lead) ->
  zget (chunk_map ch) (i + lead) = Some e -> pos e <> POS_FREE -> min_frun_ind ch = HD ->
  exists m, run_dalloc cfg ch i lead =
      Some (set_max_frun (set_pages_used (set_map ch m) (u32 (pages_used ch - lead)))
              (Z.max (max_frun_npages ch) (lead + a))) /\
    zlen m = N /\ map_rep m HD pre (i - a) /\ map_rep m (i - a) [Free (lead + a)] (i + lead) /\
    (forall k, i + lead <= k -> zget m k = zget (chunk_map ch) k).
Proof.
  intros Hlen Ha Hends Hlead i. assert (Ei : i = HD + total pre + a) by done. clearbody i.
  intros Hi Hpre Hrun He Hpos Hmin.
  destruct (npages_bounds cfg) as [HN HN20]. change (2 ^ 20) with 1048576 in *.
  pose proof (map_rep_total _ _ _ _ Hpre) as [_ Hf]. apply Forall_app in Hf as [Hf _].
  pose proof (total_nonneg _ Hf).
  destruct (mark_free cfg (chunk_map ch) i lead) as (m1 & m2 & E1 & E2 & L2 & R2 & O2); [lia..|done|].
  destruct (coalesce_prev_ok cfg m2 i lead pre a) as (m3 & E3 & L3 & P3 & R3 & O3);
    [lia|done| |done|done|lia|].
  { eapply map_rep_frame; [exact Hpre|]. intros k Hk. apply O2. lia. }
  assert (E4 : coalesce_next cfg m3 (i - a) (lead + a) = Some (m3, lead + a)).
  { unfold coalesce_next. replace (i - a + (lead + a)) with (i + lead) by lia.
    rewrite u32_small by lia. rewrite (proj2 (Z.ltb_lt (i + lead) N)) by lia.
    rewrite O3, O2, He by lia. by rewrite (proj2 (Z.eqb_neq _ _) Hpos). }
  exists m3. unfold run_dalloc. cbv zeta. rewrite E1, E2, E3, E4.
  pose proof R3 as (_ & Hhd & _). rewrite Hhd. cbn [npages].
  rewrite (bump_cached cfg) by (cbn [min_frun_ind set_pages_used set_map]; lia). split; [done|]. do 3 (split; [done|]).
  intros k Hk. rewrite O3, O2 by lia. done.
Qed.

(** [offset != 0]: the object is in the middle; [t] pages remain after it. *)
Lemma cut_lead ch pre n lead np t post :
  chunk_inv cfg ch (pre ++ Used n :: post) -> n = lead + np + t -> 1 <= lead -> 1 <= np -> 0 <= t ->
  let i := HD + total pre in
  exists m1 m2 ch1 pre' a,
    fill_run (Z.to_nat np) (chunk_map ch) (i + lead) 0 np = Some m1 /\
    fill_run (Z.to_nat lead) m1 i 0 lead = Some m2 /\
    run_dalloc cfg (set_map ch m2) i lead = Some ch1 /\
    chunk_arena ch1 = chunk_arena ch /\ pages_used ch1 <> 0 /\
    0 <= a /\ pre = pre' ++ opt_free a /\
    (t = 0 -> chunk_inv cfg ch1 (pre' ++ Free (lead + a) :: Used np :: post)) /\
    (1 <= t -> exists m3, fill_run (Z.to_nat t) (chunk_map ch1) (i + lead + np) 0 t = Some m3 /\
       chunk_inv cfg (set_map ch1 m3) (pre' ++ Free (lead + a) :: Used np :: Used t :: post)).
Proof.
  intros Hinv -> Hlead Hnp Ht i. pose proof Hinv as [Hlen Hrep Hco Hused Hmax Hmin].
  destruct (used_run_at _ _ _ _ Hinv) as (B1 & B2 & B3 & B4 & B5 & B6 & B7 & B8 & B9 & R1 & R2 & R3).
  fold i in B4, B9, R1, R2, R3. change (2 ^ 32) with 4294967296 in *.
  apply coalesced_used in Hco as [Hc1 Hc2].
  pose proof (map_rep_total _ _ _ _ R1) as [_ Hf1].
  destruct (split_last_free pre Hc1 Hf1) as (pre' & a & Ha & -> & He & Hc1').
  destruct (fill_run_used (chunk_map ch) (i + lead) np) as (m1 & E1 & L1 & U1 & O1); [lia..|].
  destruct (fill_run_used m1 i lead) as (m2 & E2 & L2 & U2 & O2); [lia..|].
  assert (Etot : i = HD + total pre' + a) by (unfold i; rewrite total_app, total_opt_free by lia; lia).
  assert (Hmid : forall k, 0 <= k < np -> zget m2 (i + lead + k) = Some (mk_mapelm np k)).
  { intros k Hk. rewrite O2 by lia. apply U1. lia. }
  pose proof (Hmid 0 ltac:(lia)) as He0. rewrite Z.add_0_r in He0.
  destruct (dalloc_lead (set_map ch m2) pre' a lead (mk_mapelm np 0)) as (m & Ed & L & P & F & O);
    rewrite <- ?Etot; cbn [chunk_map set_map]; try done; try lia.
  { eapply map_rep_frame; [exact R1|]. intros k Hk. rewrite O2, O1 by lia. done. }
  rewrite <- Etot in Ed, P, F, O. cbn [chunk_map set_map] in O.
  set (ch1 := set_max_frun _ _) in Ed. exists m1, m2, ch1, pre', a. do 4 (split; [done|]).
  rewrite used_pages_app, used_pages_opt_free in *. cbn [used_pages] in Hused.
  assert (Eu : pages_used ch1 = used_pages pre' + (np + t + used_pages post)).
  { unfold ch1. cbn. rewrite Hused, used_pages_app, used_pages_opt_free. cbn [used_pages].
    rewrite u32_small by lia. lia. }
  split; [lia|]. do 2 (split; [done|]).
  assert (Hfin : forall m3 tail, zlen m3 = N -> (forall k, k < i + lead + np -> zget m3 k = zget m k) ->
    map_rep m3 (i + lead + np) tail N -> used_pages tail = t + used_pages post ->
    max_free tail = max_free post -> coalesced tail ->
    chunk_inv cfg (set_map ch1 m3) (pre' ++ Free (lead + a) :: Used np :: tail)).
  { intros m3 tail L3 O3 R4 Ut Mt Ct. rewrite !max_free_app in Hmax. cbn [max_free] in Hmax.
    split; cbn [chunk_map pages_used max_frun_npages min_frun_ind set_map ch1 set_max_frun set_pages_used].
    - done.
    - apply map_rep_app. replace (HD + total pre') with (i - a) by lia. split.
      + eapply map_rep_frame; [exact P|]. intros k Hk. apply O3. lia.
      + apply (map_rep_app m3 (i - a) [Free (lead + a); Used np] tail). cbn [total seg_len].
        replace (i - a + (lead + a + (np + 0))) with (i + lead + np) by lia. split; [|done].
        apply (map_rep_app m3 (i - a) [Free (lead + a)] [Used np]). cbn [total seg_len].
        replace (i - a + (lead + a + 0)) with (i + lead) by lia. split.
        * eapply map_rep_frame; [exact F|]. intros k Hk. apply O3. lia.
        * cbn [map_rep]. split; [lia|]. split; [|lia]. intros k Hk. rewrite O3, O by lia. by apply Hmid.
    - apply coalesced_free. do 3 (split; [done || by apply (coalesced_used [] np)|]). done.
    - change (pages_used ch1 = used_pages (pre' ++ Free (lead + a) :: Used np :: tail)).
      rewrite Eu, used_pages_app. cbn [used_pages]. lia.
    - rewrite max_free_app. cbn [max_free]. rewrite Mt. lia.
    - done. }
  split.
  - intros ->. replace ch1 with (set_map ch1 m) by done. apply Hfin; try done; try lia.
    eapply map_rep_frame; [by replace (i + lead + np) with (i + (lead + np + 0)) by lia|].
    intros k Hk. rewrite O, O2, O1 by lia. done.
  - intros Ht1. destruct (fill_run_used m (i + lead + np) t) as (m3 & E3 & L3 & U3 & O3); [lia..|].
    exists m3. split; [done|]. apply Hfin; try done; try lia; [intros k Hk; apply O3; lia|].
    apply (map_rep_app m3 _ [Used t] post). cbn [total seg_len]. rewrite Z.add_0_r. split; [done|].
    eapply map_rep_frame; [by replace (i + lead + np + t) with (i + (lead + np + t)) by lia|].
    intros k Hk. rewrite O3, O, O2, O1 by lia. done.
Qed.
End cut.

(** ** The cut in the map of allocated runs *)

Section recarve.
Context (cfg : config) {Hok : config_ok cfg}.
Context {V : VM} {VS : VMSpec V (pagesize cfg)}.
Local Notation PG := (pagesize cfg).
Local Notation CS := (chunksize cfg).
Local Notation N := (chunk_npages cfg).
Local Notation HD := (arena_chunk_header_npages cfg).
Local Notation ab := (opt_abort (opts cfg)).

(** The runs [X] of the chunk at [c], added to a map. *)
Definition put_runs (c : Z) (X : list (Z * Z)) (U : gmap Z Z) : gmap Z Z :=
  foldr (fun x U => <[c + fst x * PG := snd x]> U) U X.

Lemma put_runs_lookup c X U r m :
  NoDup X.*1 -> (forall j k, (j, k) ∈ X -> U !! (c + j * PG) = None) ->
  put_runs c X U !! r = Some m <->
  U !! r = Some m \/ exists j, r = c + j * PG /\ (j, m) ∈ X.
Proof.
  induction X as [|[j k] X IH]; cbn; intros Hd HX.
  { split; [by left|]. intros [?|(j & _ & ?%elem_of_nil)]; done. }
  apply NoDup_cons in Hd as [Hj Hd].
  assert (HX' : forall j k, (j, k) ∈ X -> U !! (c + j * PG) = None).
  { intros j' k' Hjk. apply (HX j' k'). set_solver. }
  pose proof (HX j k ltac:(set_solver)) as Hnone.
  rewrite lookup_insert_Some, IH by done. split.
  - intros [[<- <-]|(_ & [?|(j' & -> & ?)])]; [right; exists j; set_solver|by left|right; exists j'; set_solver].
  - intros [Hr|(j' & -> & [[= <- <-]|Hjk]%elem_of_cons)]; [right|by left|right].
    + split; [congruence|by left].
    + split; [|right; eauto]. intros E. apply (page_addr_inj cfg) in E. subst j'.
      apply Hj. apply list_elem_of_fmap. by exists (j, m).
Qed.

(** The runs [X] take the place of the run at page [i]. *)
Lemma runs_in_recarve c ch pre n post U l X :
  chunk_inv cfg ch (pre ++ Used n :: post) -> runs_in cfg c (pre ++ Used n :: post) U ->
  let i := HD + total pre in let r := c + i * PG in
  used_list HD l = used_list HD pre ++ X ++ used_list (i + n) post ->
  NoDup X.*1 -> (forall j k, (j, k) ∈ X -> i <= j < i + n) ->
  runs_in cfg c l (put_runs c X (delete r U)) /\
  (forall x, ~ in_range c CS x -> put_runs c X (delete r U) !! x = U !! x) /\
  (forall j k, (j, k) ∈ X -> delete r U !! (c + j * PG) = None).
Proof.
  intros Hci HU i r Hl Hd HX. destruct (chunk_geometry cfg) as (HCS & HH & HPG & HC & HN).
  destruct (used_run_at cfg _ _ _ _ Hci) as (B1 & B2 & B3 & B4 & B5 & B6 & B7 & B8 & B9 & _). fold i in B4, B9.
  destruct (inv_split cfg _ _ _ Hci) as (_ & _ & _ & _ & _ & F1 & F2). apply Forall_cons in F2 as [_ F2].
  assert (Hin : forall j, 0 <= j < N -> in_range c CS (c + j * PG)) by (unfold in_range; intros j Hj; nia).
  assert (Hulist : forall j m, (j, m) ∈ used_list HD (pre ++ Used n :: post) <->
    (j, m) ∈ used_list HD pre \/ (j = i /\ m = n) \/ (j, m) ∈ used_list (i + n) post).
  { intros j m. rewrite used_list_app. cbn. fold i. rewrite elem_of_app, elem_of_cons.
    split; [intros [?|[[= -> ->]|?]]; auto|]. intros [?|[[-> ->]|?]]; auto. }
  assert (Hnone : forall j k, (j, k) ∈ X -> delete r U !! (c + j * PG) = None).
  { intros j k Hjk. specialize (HX j k Hjk). destruct (delete r U !! _) as [m|] eqn:E; [|done].
    apply lookup_delete_Some in E as [Hne E]. apply HU in E as (j' & Ej & Hj'); [|apply Hin; lia].
    apply (page_addr_inj cfg) in Ej. subst j'. apply Hulist in Hj' as [Hj'|[[-> _]|Hj']].
    - apply used_list_bounds in Hj'; [lia|done].
    - by destruct Hne.
    - apply used_list_bounds in Hj'; [lia|done]. }
  split; [|split; [|done]].
  - intros x m Hx. rewrite put_runs_lookup by done. rewrite Hl. setoid_rewrite elem_of_app. setoid_rewrite elem_of_app.
    rewrite lookup_delete_Some, (HU x m Hx). setoid_rewrite Hulist. split.
    + intros [(Hne & j & -> & Hj)|(j & -> & Hj)]; exists j; (split; [done|]); [|tauto].
      destruct Hj as [?|[[-> ->]|?]]; [tauto|done|tauto].
    + intros (j & -> & [Hj|[Hj|Hj]]); [left|right; eauto|left]; apply used_list_bounds in Hj as Hb; try done;
        (split; [|exists j; tauto]); intros E; apply (page_addr_inj cfg) in E; lia.
  - intros x Hx. apply option_eq. intros m. rewrite put_runs_lookup by done. rewrite lookup_delete_Some. split.
    + intros [[_ ?]|(j & -> & Hj)]; [done|]. destruct Hx. apply Hin. specialize (HX j m Hj). lia.
    + intros Hm. left. split; [|done]. intros <-. apply Hx, Hin. lia.
Qed.

Lemma put_chunk_put h c x y : put_chunk (put_chunk h c x) c y = put_chunk h c y.
Proof. unfold put_chunk. cbn. by rewrite insert_insert_eq. Qed.

(** A chunk whose map was cut, in the heap. *)
Lemma recarve_chunk h U c ch ch' pre n post l X :
  runs_inv cfg h U -> chunk_hdrs h !! c = Some ch ->
  chunk_inv cfg ch (pre ++ Used n :: post) -> runs_in cfg c (pre ++ Used n :: post) U ->
  (exists ar, get_arena h (chunk_arena ch) = Some ar /\ c ∈ chunks ar) ->
  chunk_arena ch' = chunk_arena ch -> chunk_inv cfg ch' l ->
  let i := HD + total pre in let r := c + i * PG in
  used_list HD l = used_list HD pre ++ X ++ used_list (i + n) post ->
  NoDup X.*1 -> (forall j k, (j, k) ∈ X -> i <= j < i + n) ->
  runs_inv cfg (put_chunk h c ch') (put_runs c X (delete r U)) /\
  (forall j k, (j, k) ∈ X -> delete r U !! (c + j * PG) = None).
Proof.
  intros Hi Hc Hci Hri (ar & Har & Hin) Hca Hci' i r Hl Hd HX.
  destruct (runs_in_recarve c ch pre n post U l X Hci Hri Hl Hd HX) as (Hri' & Hout & Hnone).
  split; [|done]. eapply runs_inv_put; eauto. exists ar. rewrite Hca. eauto.
Qed.

(** *** Giving the trailing pages back *)

(** The map was cut at page [j]: the run of [t] pages there is released. *)
Lemma trim_ok h U c a j t m ch :
  runs_inv cfg (put_chunk h c (set_map ch m)) (<[c + j * PG := t]> U) -> U !! (c + j * PG) = None ->
  chunk_hdrs h !! c = Some ch -> chunk_arena ch = a -> chunk_placed cfg (lower h) c ->
  1 <= j -> 1 <= t -> j + t <= N -> fill_run (Z.to_nat t) (chunk_map ch) j 0 t = Some m ->
  wp ab (arena_palloc_trim cfg h a c j t) (fun h' =>
    runs_inv cfg h' U /\ shrinks cfg (c + j * PG) (t * PG) (put_chunk h c (set_map ch m)) h').
Proof.
  intros Hi Hnone Hc Hca Hp Hj Ht Hend Hm. destruct (chunk_geometry cfg) as (HCS & HH & HPG & HC & HN).
  destruct Hp as [P1 P2 P3 P4 P5]. pose proof (ok_p) as Hpp.
  unfold arena_palloc_trim. rewrite Hc. cbn [lift]. rewrite Hm. cbn [lift].
  rewrite (page_addr_ok cfg), Z.shiftl_mul_pow2, <- ok_pagesize by lia. rewrite (u32_small (t * PG)).
  2:{ change (2 ^ 32) with 4294967296 in *. nia. }
  eapply wp_mono; [apply (arena_run_dalloc_ok cfg _ (<[c + j * PG := t]> U)); [done|by rewrite lookup_insert_eq|]|].
  - rewrite (addr2base cfg c) by (try done; try lia; unfold in_range; nia). cbn. by rewrite lookup_insert_eq, <- Hca.
  - intros h' _ [Hi' Hs]. rewrite delete_insert_id in Hi' by done. done.
Qed.

(** [offset == 0] *)
Lemma palloc_tail h U a r n np t :
  runs_inv cfg h U -> U !! r = Some n -> n = np + t -> 1 <= np -> 1 <= t ->
  chunk_arena <$> chunk_hdrs h !! CHUNK_ADDR2BASE cfg r = Some a ->
  let c := CHUNK_ADDR2BASE cfg r in let i := page_index cfg c r in
  exists ch m, chunk_hdrs h !! c = Some ch /\
    fill_npages (Z.to_nat np) (chunk_map ch) i 0 np = Some m /\
    wp ab (arena_palloc_trim cfg (put_chunk h c (set_map ch m)) a c (u32 (i + np)) t) (fun h' =>
      runs_inv cfg h' (<[r := np]> U) /\ shrinks cfg r (n * PG) h h').
Proof.
  intros Hi HUr En Hnp Ht Hown. cbv zeta. destruct (chunk_geometry cfg) as (HCS & HH & HPG & HC & HN).
  destruct (run_chunk cfg h U r n Hi HUr)
    as (c & ch & pre & post & ar & Hc & Hp & Eb & Hr & Hci & Hri & Er & Hn & Hpre & Hend & Ha & Hin).
  rewrite Eb in *. rewrite Hc in Hown. injection Hown as Hca.
  assert (Ei : page_index cfg c r = HD + total pre).
  { rewrite Er. replace (c + _) with (c + (HD + total pre) * PG + 0) by lia.
    by rewrite (page_index_ok cfg) by lia. }
  rewrite Ei. rewrite u32_small by (change (2 ^ 32) with 4294967296; change (2 ^ 20) with 1048576 in *; lia).
  destruct (cut_tail cfg ch pre n np t post Hci En Hnp Ht) as (m1 & m2 & E1 & E2 & Hci2).
  exists ch, m1. do 2 (split; [done|]).
  set (i := HD + total pre) in *. set (X := [(i, np); (i + np, t)]).
  destruct (recarve_chunk h U c ch (set_map ch m2) pre n post
              (pre ++ Used np :: Used t :: post) X Hi Hc Hci Hri) as [Hi2 Hnone]; eauto.
  { rewrite used_list_app. cbn. fold i. unfold X. cbn. do 4 f_equal. lia. }
  { unfold X. cbn. apply NoDup_cons. split; [|apply NoDup_singleton]. rewrite list_elem_of_singleton. lia. }
  { intros j k. unfold X. rewrite !elem_of_cons. intros [[= -> ->]|[[= -> ->]|?%elem_of_nil]]; [lia|lia|done]. }
  fold i in Hi2, Hnone. rewrite <- Er in Hi2, Hnone. cbn [put_runs foldr X fst snd] in Hi2.
  pose proof (Hnone (i + np) t ltac:(set_solver)) as Hn2.
  rewrite <- Er in Hi2. assert (Hne : r <> c + (i + np) * PG) by nia.
  rewrite insert_insert_ne, insert_delete_eq in Hi2 by done.
  assert (Hnu : <[r := np]> U !! (c + (i + np) * PG) = None).
  { rewrite lookup_insert_ne by done. by rewrite lookup_delete_ne in Hn2 by done. }
  eapply wp_mono; [apply (trim_ok _ (<[r := np]> U) c a (i + np) t m2 (set_map ch m1)); try done; try lia|].
  - by rewrite put_chunk_put.
  - cbn. by rewrite lookup_insert_eq.
  - intros h' _ [Hi' Hs]. split; [done|]. rewrite put_chunk_put in Hs.
    eapply (shrinks_trans cfg); [| | |exact Hs]; [done| |].
    + unfold in_range. intros x Hx. nia.
    + split; cbn; eauto. intros c2 ch2 [[<- <-]|[Hne2 Hc2]]%lookup_insert_Some; eauto.
Qed.

(** *** Giving the leading pages back *)

Lemma used_list_pre i pre a : 0 <= a -> used_list i (pre ++ opt_free a) = used_list i pre.
Proof.
  intros Ha. rewrite used_list_app, <- (app_nil_r (opt_free a)), used_list_opt_free by done.
  cbn. by rewrite app_nil_r.
Qed.

(** The heap after the advice about the pages of a released run. *)
Definition hinted (h : heap) (r n : Z) : heap :=
  if opt_hint (opts cfg) then write_vm h (fun v => madvise v r n) else h.

(** The release of the leading part never empties the chunk. *)
Lemma trim_lead h c a i lead m1 m2 ch ch1 :
  chunk_placed cfg (lower h) c -> chunk_hdrs h !! c = Some ch ->
  1 <= i -> 1 <= lead -> i + lead <= N ->
  fill_run (Z.to_nat lead) m1 i 0 lead = Some m2 ->
  run_dalloc cfg (set_map ch m2) i lead = Some ch1 -> pages_used ch1 <> 0 ->
  arena_palloc_trim cfg (put_chunk h c (set_map ch m1)) a c i lead
  = Ok (put_chunk (hinted h (c + i * PG) (lead * PG)) c ch1).
Proof.
  intros [P1 P2 P3 P4 P5] Hc Hi Hlead Hend Hm Hd Hu.
  destruct (chunk_geometry cfg) as (HCS & HH & HPG & HC & HN). pose proof (ok_p) as Hpp.
  unfold arena_palloc_trim. cbn. rewrite lookup_insert_eq. cbn. rewrite Hm. cbn [lift].
  rewrite (page_addr_ok cfg), Z.shiftl_mul_pow2, <- ok_pagesize by lia. rewrite (u32_small (lead * PG)).
  2:{ change (2 ^ 32) with 4294967296 in *. nia. }
  unfold arena_run_dalloc. rewrite (addr2base cfg c) by (try done; try lia; unfold in_range; nia).
  cbn. rewrite lookup_insert_eq. cbn [lift]. rewrite (pages_shiftr cfg) by lia.
  replace (page_index cfg c (c + i * PG)) with i.
  2:{ replace (c + i * PG) with (c + i * PG + 0) by lia. by rewrite (page_index_ok cfg) by lia. }
  change (set_map (set_map ch m1) m2) with (set_map ch m2). rewrite Hd. cbn [lift].
  rewrite (proj2 (Z.eqb_neq _ _) Hu). unfold hinted, put_chunk. f_equal.
  destruct (opt_hint (opts cfg)); cbn; by rewrite !insert_insert_eq.
Qed.

(** [offset != 0] *)
Lemma palloc_lead h U a r n lead np t :
  runs_inv cfg h U -> U !! r = Some n -> n = lead + np + t -> 1 <= lead -> 1 <= np -> 0 <= t ->
  chunk_arena <$> chunk_hdrs h !! CHUNK_ADDR2BASE cfg r = Some a ->
  let c := CHUNK_ADDR2BASE cfg r in let i := page_index cfg c r in
  exists ch m h1, chunk_hdrs h !! c = Some ch /\
    fill_run (Z.to_nat np) (chunk_map ch) (i + lead) 0 np = Some m /\
    arena_palloc_trim cfg (put_chunk h c (set_map ch m)) a c i lead = Ok h1 /\
    wp ab (if t =? 0 then Ok h1 else arena_palloc_trim cfg h1 a c (i + lead + np) t) (fun h' =>
      runs_inv cfg h' (<[r + lead * PG := np]> (delete r U)) /\ shrinks cfg r (n * PG) h h').
Proof.
  intros Hi HUr En Hlead Hnp Ht Hown. cbv zeta. destruct (chunk_geometry cfg) as (HCS & HH & HPG & HC & HN).
  destruct (run_chunk cfg h U r n Hi HUr)
    as (c & ch & pre & post & ar & Hc & Hp & Eb & Hr & Hci & Hri & Er & Hn & Hpre & Hend & Ha & Hin).
  rewrite Eb in *. rewrite Hc in Hown. injection Hown as Hca.
  assert (Ei : page_index cfg c r = HD + total pre).
  { rewrite Er. replace (c + _) with (c + (HD + total pre) * PG + 0) by lia.
    by rewrite (page_index_ok cfg) by lia. }
  rewrite Ei. destruct (cut_lead cfg ch pre n lead np t post Hci En Hlead Hnp Ht)
    as (m1 & m2 & ch1 & pre' & b & E1 & E2 & Ed & Ear & Hu & Hb & Epre & Hzero & Hpos).
  set (i := HD + total pre) in *. exists ch, m1, (put_chunk (hinted h r (lead * PG)) c ch1).
  do 2 (split; [done|]). split; [rewrite Er; eapply trim_lead; eauto; lia|].
  destruct (hint_ok cfg h U r (lead * PG) Hi) as (Hi0 & Ec0 & Ea0 & Er0 & Eh0 & Em0 & Ev0).
  fold (hinted h r (lead * PG)) in *. set (h0 := hinted h r (lead * PG)) in *. clearbody h0.
  assert (Har0 : exists ar, get_arena h0 (chunk_arena ch) = Some ar /\ c ∈ chunks ar).
  { exists ar. split; [|done]. unfold get_arena in *. by rewrite Ea0. }
  assert (Hs0 : forall ch2, chunk_arena ch2 = chunk_arena ch -> shrinks cfg r (n * PG) h (put_chunk h0 c ch2)).
  { intros ch2 Hc2. split; cbn; auto.
    - intros x _ Hx _. apply Ev0. unfold in_range in *. nia.
    - intros b2. unfold get_arena. cbn. by rewrite Ea0.
    - rewrite Ec0. intros c2 ch3 [[<- <-]|[Hne Hc3]]%lookup_insert_Some; eauto. }
  assert (Hul : forall X l, l = pre' ++ Free (lead + b) :: X -> used_list HD l
            = used_list HD pre ++ used_list (i + lead) X).
  { intros X l ->. rewrite Epre, used_list_pre, used_list_app by done. cbn. f_equal. f_equal.
    unfold i. rewrite Epre, total_app, total_opt_free by done. lia. }
  destruct (t =? 0) eqn:Et; b2p.
  - subst t. cbn [wp]. split; [|by apply Hs0].
    destruct (recarve_chunk h0 U c ch ch1 pre n post (pre' ++ Free (lead + b) :: Used np :: post)
                [(i + lead, np)]) as [Hi2 _]; auto.
    + by rewrite Ec0.
    + rewrite (Hul (Used np :: post)) by done. cbn. do 3 f_equal. fold i. lia.
    + cbn. apply NoDup_singleton.
    + intros j k [= -> ->]%list_elem_of_singleton. fold i. lia.
    + cbn in Hi2. fold i in Hi2. rewrite <- Er in Hi2.
      by replace (r + lead * PG) with (c + (i + lead) * PG) by (rewrite Er; ring).
  - destruct (Hpos ltac:(lia)) as (m3 & E3 & Hci3).
    destruct (recarve_chunk h0 U c ch (set_map ch1 m3) pre n post
                (pre' ++ Free (lead + b) :: Used np :: Used t :: post)
                [(i + lead, np); (i + lead + np, t)]) as [Hi2 Hnone]; auto.
    + by rewrite Ec0.
    + rewrite (Hul (Used np :: Used t :: post)) by done. cbn. do 4 f_equal. fold i. lia.
    + cbn. apply NoDup_cons. split; [|apply NoDup_singleton]. rewrite list_elem_of_singleton. lia.
    + fold i. intros j k. rewrite !elem_of_cons. intros [[= -> ->]|[[= -> ->]|?%elem_of_nil]]; [lia|lia|done].
    + fold i in Hi2, Hnone. rewrite <- Er in Hi2, Hnone. cbn [put_runs foldr fst snd] in Hi2.
      assert (Em : r + lead * PG = c + (i + lead) * PG) by (rewrite Er; ring). rewrite Em.
      assert (Hne : c + (i + lead) * PG <> c + (i + lead + np) * PG) by nia.
      rewrite insert_insert_ne in Hi2 by done.
      pose proof (Hnone (i + lead + np) t ltac:(set_solver)) as Hn2.
      eapply wp_mono; [apply (trim_ok (put_chunk h0 c ch1) (<[c + (i + lead) * PG := np]> (delete r U))
                                c a (i + lead + np) t m3 ch1); try done; try lia|].
      * by rewrite put_chunk_put.
      * by rewrite lookup_insert_ne.
      * cbn. by rewrite lookup_insert_eq.
      * by apply (ri_chunk _ _ _ Hi0 c ch); rewrite Ec0.
      * intros h' _ [Hi' Hs]. split; [done|]. rewrite put_chunk_put in Hs.
        eapply (shrinks_trans cfg); [| |apply (Hs0 (set_map ch1 m3)); done|exact Hs].
        -- intros x Hx. cbn. by apply Em0.
        -- unfold in_range. rewrite Er. intros x Hx. nia.
Qed.
End recarve.

(** ** [arena_palloc] *)

Section palloc.
Context (cfg : config) {Hok : config_ok cfg}.
Context {V : VM} {VS : VMSpec V (pagesize cfg)}.
Local Notation PG := (pagesize cfg).
Local Notation CS := (chunksize cfg).
Local Notation N := (chunk_npages cfg).
Local Notation HD := (arena_chunk_header_npages cfg).
Local Notation ab := (opt_abort (opts cfg)).

Lemma alloc_spec_fill h B n p h' f :
  alloc_spec cfg h B n (Some p, h') -> writes_in cfg p n f ->
  alloc_spec cfg h B n (Some p, write_vm h' f).
Proof.
  intros (Hd & Hnone & Hinv) Hf. split; [|split; [done|by eapply heap_inv_write]].
  assert (Hv : vm_ok (kernel (lower h'))) by (destruct Hinv as (U & K & Hi & _); apply Hi).
  destruct (Hf _ Hv) as (_ & _ & F3). intros q m x Hq Hx. cbn. rewrite F3; [by eapply Hd|].
  intros Hxp. assert (Hne : p <> q) by congruence. apply Hne.
  apply (heap_disjoint cfg h' (<[p := n]> B) p n q m x); auto; [by rewrite lookup_insert_eq|].
  by rewrite lookup_insert_ne.
Qed.

(** A run of [n] pages was allocated and reduced to the [np] pages at [p]. *)
Lemma reduce_run h B U K h1 r n h2 p np :
  (forall q m, B !! q = Some m <-> block cfg h U K q m) -> runs_inv cfg h U -> bins_inv cfg h U K ->
  grows cfg h h1 -> U !! r = None -> runs_inv cfg h1 (<[r := n]> U) ->
  r <= p -> 1 <= np -> p + np * PG <= r + n * PG ->
  shrinks cfg r (n * PG) h1 h2 -> runs_inv cfg h2 (<[p := np]> U) ->
  alloc_spec cfg h B (np * PG) (Some p, h2).
Proof.
  intros HB Hi Hb Hg Hr Hi1 Hrp Hnp Hend Hs Hi2. destruct (chunk_geometry cfg) as (_ & _ & HPG & _).
  assert (Hr1 : <[r := n]> U !! r = Some n) by (by rewrite lookup_insert_eq).
  assert (HU1 : forall x k, U !! x = Some k -> <[r := n]> U !! x = Some k).
  { intros x k Hx. rewrite lookup_insert_ne; [done|congruence]. }
  assert (Hp : U !! p = None).
  { destruct (U !! p) as [k|] eqn:E; [|done]. exfalso. enough (r = p) by congruence.
    destruct (run_chunk cfg h U p k Hi E) as (c & ch & pre & post & ar & _ & _ & _ & _ & _ & _ & _ & Hk & _).
    apply (runs_disjoint cfg h1 _ r n p k p Hi1 Hr1 (HU1 p k E)); unfold in_range; nia. }
  assert (HK : forall x y, K !! x = Some y -> <[p := np]> U !! x = <[r := n]> U !! x).
  { intros x y Hx. destruct (bi_small _ _ _ _ Hb x y Hx) as (? & ? & ? & _ & _ & Hu & _).
    rewrite !lookup_insert_ne by congruence. done. }
  assert (Hkp : K !! p = None).
  { destruct (K !! p) as [y|] eqn:E; [|done].
    destruct (bi_small _ _ _ _ Hb p y E) as (? & ? & ? & _ & _ & Hu & _). congruence. }
  assert (Hb1 : bins_inv cfg h1 (<[r := n]> U) K) by (by eapply bins_inv_grows).
  assert (Hb2 : bins_inv cfg h2 (<[p := np]> U) K) by (by eapply bins_inv_shrinks).
  assert (Hsm : forall q m, small_block cfg h2 K q m <-> small_block cfg h K q m).
  { intros q m. rewrite (small_block_shrinks cfg h1 (<[r := n]> U) K h2 _ r (n * PG) q m Hb1 Hs Hi2 HK).
    by apply (small_block_grows cfg h U). }
  assert (Hhu : huge (lower h2) = huge (lower h)) by (by rewrite (sh_huge _ _ _ _ _ Hs), (gr_huge _ _ _ Hg)).
  assert (Hadd : adds cfg h U K p (np * PG) h2 (<[p := np]> U) K).
  { split.
    - intros m [Hx|[(k & Hk & _)|Hx]]; [|congruence|].
      + eapply (block_not_run cfg h2 (<[p := np]> U) K p np p m); auto;
          [by rewrite lookup_insert_eq|left; by apply Hsm].
      + eapply (block_not_run cfg h2 (<[p := np]> U) K p np p m); auto;
          [by rewrite lookup_insert_eq|right]. unfold huge_block. by rewrite Hhu.
    - intros q m. unfold block, huge_block. rewrite Hsm, Hhu.
      assert (Hl : large_block cfg (<[p := np]> U) K q m <-> large_block cfg U K q m \/ (q = p /\ m = np * PG)).
      { unfold large_block. split.
        - intros (k & [[-> ->]|[Hne Hk]]%lookup_insert_Some & Hkk & ->); [by right|left; eauto].
        - intros [(k & Hk & Hkk & ->)|[-> ->]]; [exists k; rewrite lookup_insert_ne by congruence; done|].
          exists np. by rewrite lookup_insert_eq. }
      rewrite Hl. tauto. }
  destruct (adds_inv cfg h U K p (np * PG) h2 _ K B HB Hi2 Hb2 Hadd) as [Hnone Hinv].
  split; [|done]. intros q m x Hq Hx. apply HB in Hq.
  destruct (block_mapped cfg h U K q m x Hi Hb Hq Hx) as [Hmap _].
  destruct (gr_keeps _ _ _ Hg) as [_ Hk]. destruct (Hk x Hmap) as [Hmap1 Hread1]. rewrite <- Hread1.
  pose proof (proj2 (proj2 Hadd q m) (or_introl Hq)) as Hq2.
  destruct (block_mapped cfg h2 _ K q m x Hi2 Hb2 Hq2 Hx) as [_ Hin].
  rewrite Hhu, <- (gr_huge _ _ _ Hg) in Hin. apply (sh_vm _ _ _ _ _ Hs); auto. intros Hxr.
  destruct (block_where cfg h U K q m x Hb Hq Hx) as [(y & j & Hj & Hxy)|(o & Ho & Hxo)].
  - enough (r = y) by congruence. by apply (runs_disjoint cfg h1 _ r n y j x Hi1 Hr1 (HU1 y j Hj)).
  - destruct (run_placed cfg h1 _ r n x Hi1 Hr1 Hxr) as (_ & _ & _ & _ & _ & Hnh).
    rewrite (gr_huge _ _ _ Hg) in Hnh. by apply (Hnh o Ho).
Qed.

(** The pages before the aligned address: [A] is the alignment in pages. *)
Lemma lead_pages r A : 0 < A -> r mod PG = 0 ->
  let off := r mod (A * PG) in
  exists lead, A * PG - off = lead * PG /\ 1 <= lead <= A /\ (off <> 0 -> lead < A).
Proof.
  intros HA Hr off. destruct (chunk_geometry cfg) as (_ & _ & HPG & _).
  apply Z.mod_divide in Hr as [q ->]; [|lia].
  assert (Eo : off = q mod A * PG) by (unfold off; rewrite Z.mul_mod_distr_r; lia).
  pose proof (Z.mod_pos_bound q A HA). exists (A - q mod A). rewrite Eo. split; [ring|].
  split; [lia|]. nia.
Qed.

Lemma arena_palloc_ok h B a ar k np n :
  heap_inv cfg h B -> get_arena h a = Some ar ->
  pagesize_2pow cfg < k < 64 -> 1 <= np -> np + 2 ^ k / PG - 1 <= n <= N - HD ->
  wp ab (arena_palloc cfg h a (2 ^ k) (np * PG) (n * PG)) (fun '(ro, h') =>
    alloc_spec cfg h B (np * PG) (ro, h') /\
    match ro with Some p => p mod 2 ^ k = 0 | None => True end).
Proof.
  intros (U & K & Hi & Hb & HB) Ha Hk Hnp Hn. destruct (chunk_geometry cfg) as (HCS & HH & HPG & HC & HN).
  pose proof (ok_p) as Hp.
  assert (EA : 2 ^ k = 2 ^ (k - pagesize_2pow cfg) * PG).
  { rewrite ok_pagesize, <- Z.pow_add_r by lia. f_equal. lia. }
  assert (HA2 : 2 <= 2 ^ (k - pagesize_2pow cfg)) by (apply (pow2_le_mono 1); lia).
  rewrite EA in Hn. rewrite Z.div_mul in Hn by lia. set (A := 2 ^ (k - pagesize_2pow cfg)) in *.
  unfold arena_palloc. rewrite (pages_shiftr cfg) by lia.
  apply wp_bind. eapply wp_mono; [by apply (arena_run_alloc_ok cfg h U a ar n); auto; lia|].
  intros [[r|] h1] _ [Hg Hr]; cbn [wp].
  2:{ split; [|done]. eapply (alloc_none cfg); eauto. exists U, K. split; [done|].
      split; [by eapply bins_inv_grows|]. split; [apply Hg|]. by apply (block_grows cfg). }
  destruct Hr as (Hnone & Hi1 & c & ch & Hrc & Hc & Hca).
  assert (Hr1 : <[r := n]> U !! r = Some n) by (by rewrite lookup_insert_eq).
  destruct (run_chunk cfg h1 _ r n Hi1 Hr1)
    as (c' & ch' & pre & post & ar' & Hc' & Hpl & Eb & Hr & _ & _ & Er & _ & Hpre & Hend & _).
  assert (c' = c) as -> by (destruct Hpl, (ri_chunk cfg h1 _ Hi1 c ch Hc) as [[] _]; by eapply (chunks_apart cfg) with (x := r)).
  assert (ch' = ch) as -> by congruence. clear Hc'. rewrite Eb, Hc. cbn [lift].
  assert (Hown : chunk_arena <$> chunk_hdrs h1 !! CHUNK_ADDR2BASE cfg r = Some a)
    by (rewrite Eb, Hc; cbn; by rewrite Hca).
  assert (Hrm : r mod PG = 0).
  { pose proof (cp_align _ _ _ Hpl) as Hcm. rewrite Er, Z.mod_add by lia.
    apply Z.mod_divide in Hcm as [q ->]; [|lia]. rewrite HCS, Z.mul_assoc. apply Z.mod_mul. lia. }
  destruct (lead_pages r A ltac:(lia) Hrm) as (lead & El & Hl1 & Hl2).
  pose proof (pow2_lt_mono k 64 ltac:(lia)) as Hk64. pose proof (cp_end _ _ _ Hpl) as Hce.
  pose proof (cp_pos _ _ _ Hpl) as Hcp.
  rewrite (u64_small (2 ^ k - 1)), land_mask by lia. rewrite EA in *.
  pose proof (Z.mod_pos_bound r (A * PG) ltac:(lia)) as Hoff.
  assert (Hfin : forall p h2, runs_inv cfg h2 (<[p := np]> U) -> shrinks cfg r (n * PG) h1 h2 ->
    r <= p -> p + np * PG <= r + n * PG -> p mod (A * PG) = 0 ->
    wp ab (Ok (Some p, write_vm h2 (fun v => fill_new cfg v p (np * PG)))) (fun '(ro, h') =>
      alloc_spec cfg h B (np * PG) (ro, h') /\
      match ro with Some p => p mod (A * PG) = 0 | None => True end)).
  { intros p h2 Hi2 Hs Hrp Hpe Hpa. split; [|done]. apply alloc_spec_fill; [|apply fill_new_writes].
    eapply reduce_run; eauto. }
  apply wp_bind. destruct (r mod (A * PG) =? 0) eqn:Eoff; b2p.
  - destruct (palloc_tail cfg h1 _ a r n np (n - np) Hi1 Hr1 ltac:(lia) Hnp ltac:(lia) Hown)
      as (ch2 & m & Hc2 & Em & Hw). rewrite Eb in Hc2, Em, Hw. assert (ch2 = ch) as -> by congruence.
    rewrite Em. cbn [lift]. apply wp_bind. rewrite u64_small, <- Z.mul_sub_distr_r by nia.
    rewrite (pages_shiftr cfg) by lia. eapply wp_mono; [exact Hw|]. intros h2 _ [Hi2 Hs]. cbn [wp].
    rewrite insert_insert_eq in Hi2. apply Hfin; auto; nia.
  - specialize (Hl2 Eoff).
    destruct (palloc_lead cfg h1 _ a r n lead np (n - lead - np) Hi1 Hr1) as (ch2 & m & h3 & Hc2 & Em & E3 & Hw);
      try done; try lia. rewrite Eb in Hc2, Em, E3, Hw. assert (ch2 = ch) as -> by congruence.
    rewrite delete_insert_id in Hw by done.
    assert (Ei : page_index cfg c r = HD + total pre).
    { rewrite Er. replace (c + _) with (c + (HD + total pre) * PG + 0) by lia.
      by rewrite (page_index_ok cfg) by lia. }
    rewrite Ei in *. rewrite (u64_small (A * PG - _)) by lia. rewrite El.
    rewrite (u64_small (r + lead * PG)) by nia.
    replace (page_index cfg c (r + lead * PG)) with (HD + total pre + lead).
    2:{ rewrite Er. replace (c + _ + _) with (c + (HD + total pre + lead) * PG + 0) by lia.
        by rewrite (page_index_ok cfg) by lia. }
    rewrite Em. cbn [lift].
    assert (Esh : Z.shiftr (lead * PG) (pagesize_2pow cfg) = lead)
      by (rewrite Z.shiftr_div_pow2, <- ok_pagesize, Z.div_mul by lia; done).
    rewrite Esh. change (2 ^ 20) with 1048576 in *. rewrite (u32_small lead), (u32_small (_ + _ - lead)),
      (u32_small (_ + lead + np)) by (change (2 ^ 32) with 4294967296; lia).
    replace (HD + total pre + lead - lead) with (HD + total pre) by lia. rewrite E3.
    replace (n * PG - lead * PG - np * PG) with ((n - lead - np) * PG) by ring.
    assert (Ht : 0 <= n - lead - np <= 1048576) by lia. set (t := n - lead - np) in *.
    assert (0 <= t * PG <= 1048576 * 32768) by nia. rewrite u64_small by lia.
    rewrite (pages_shiftr cfg) by lia.
    replace (t * PG =? 0) with (t =? 0)
      by (destruct (t =? 0) eqn:E; symmetry; b2p; [apply Z.eqb_eq|apply Z.eqb_neq]; nia).
    apply wp_bind. eapply wp_mono; [destruct (t =? 0); exact Hw|].
    intros h2 _ [Hi2 Hs]. cbn [wp]. apply Hfin; auto; [lia|unfold t in *; nia|].
    rewrite <- El. replace (r + (A * PG - r mod (A * PG))) with ((r - r mod (A * PG)) + 1 * (A * PG)) by lia.
    rewrite Z.mod_add, Zminus_mod_idemp_r, Z.sub_diag by lia. done.
Qed.
End palloc.

(** ** Natural alignment *)

Section natural.
Context (cfg : config) {Hok : config_ok cfg}.
Context {V : VM} {VS : VMSpec V (pagesize cfg)}.
Local Notation PG := (pagesize cfg).
Local Notation CS := (chunksize cfg).
Local Notation ab := (opt_abort (opts cfg)).

Lemma pow2_divide a b : 0 <= a <= b -> (2 ^ a | 2 ^ b).
Proof. intros Hab. exists (2 ^ (b - a)). rewrite <- Z.pow_add_r by lia. f_equal. lia. Qed.

Lemma run_page_aligned h U r n : runs_inv cfg h U -> U !! r = Some n -> (PG | r).
Proof.
  intros Hi HU. destruct (chunk_geometry cfg) as (HCS & HH & HPG & HC & HN).
  destruct (run_chunk cfg h U r n Hi HU)
    as (c & ch & pre & post & ar & _ & Hpl & _ & _ & _ & _ & -> & _).
  pose proof (cp_align _ _ _ Hpl) as Hcm. apply Z.mod_divide in Hcm as [q ->]; [|lia].
  apply Z.divide_add_r; [|apply Z.divide_factor_r]. rewrite HCS, Z.mul_assoc. apply Z.divide_factor_r.
Qed.

(** A block is aligned at every power of two, up to the page size, that divides
    its size. *)
Lemma block_aligned h B p n k :
  heap_inv cfg h B -> B !! p = Some n -> 0 <= k <= pagesize_2pow cfg -> (2 ^ k | n) -> (2 ^ k | p).
Proof.
  intros (U & K & Hi & Hb & HB) Hp Hk Hn. apply HB in Hp. pose proof ok_pagesize as Epg. pose proof ok_k as Hkc.
  pose proof ok_p as Hpp.
  assert (Hpage : (2 ^ k | PG)) by (rewrite Epg; by apply pow2_divide).
  destruct Hp as [[r Hs]|[(m & HU & _)|(m & Hm & <- & _)]].
  - destruct Hs as (bi & a & b & rh & reg & Hkr & Ho & Hg & Hh & Hreg & Hf & -> & ->).
    destruct (bi_small _ _ _ _ Hb r bi Hkr) as (a' & b' & rh' & _ & _ & HU & _).
    destruct (bin_facts cfg h U K a bi b Hb Hg) as (_ & Hgeo & _ & _ & Hrs).
    pose proof (geom_fill _ Hgeo) as Hfill.
    replace (r + reg0_offset b + reg_size b * reg)
      with (r + run_size b / PG * PG - (nregs b - reg) * reg_size b) by lia.
    apply Z.divide_sub_r; [apply Z.divide_add_r|].
    + by etransitivity; [|eapply run_page_aligned].
    + by apply Z.divide_mul_r.
    + by apply Z.divide_mul_r.
  - by etransitivity; [|eapply run_page_aligned].
  - pose proof (cs_huge _ _ (ri_lower _ _ _ Hi)) as Hh. rewrite Forall_forall in Hh.
    destruct (Hh m Hm) as (_ & _ & Hc & _). rewrite ok_chunksize in Hc.
    apply Z.mod_divide in Hc; [|pose proof (pow2_pos (opt_chunk_2pow (opts cfg))); lia].
    etransitivity; [|exact Hc]. apply pow2_divide. lia.
Qed.

(** Rounding up to a small size class keeps a power-of-two divisor. *)
Lemma class_aligned sz k :
  1 <= sz <= bin_maxclass cfg -> 0 <= k -> (2 ^ k | sz) -> (2 ^ k | bin_reg_size cfg (fst (size2bin cfg sz))).
Proof.
  intros Hsz Hk Hdiv. destruct (size2bin_best_fit cfg sz Hsz) as (Hi & Hle & Hprev).
  set (i := fst (size2bin cfg sz)) in *. destruct (exponents cfg) as (Hq & Hs & Hp).
  set (q := opt_quantum_2pow (opts cfg)) in *. set (s := opt_small_max_2pow (opts cfg)) in *.
  assert (Hksz : 2 ^ k <= sz) by (apply Z.divide_pos_le; [lia|done]).
  destruct (Z.lt_ge_cases i (q - 1)) as [Ht|Ht].
  { rewrite (bin_reg_size_tiny cfg i) in * by (fold q; lia). apply pow2_divide. split; [done|].
    apply (pow2_exp_le cfg); [lia|]. lia. }
  destruct (Z.lt_ge_cases (i - (q - 1)) (2 ^ (s - q))) as [Hm|Hm].
  - pose proof (bin_reg_size_quantum cfg (i - (q - 1) + 1) ltac:(fold q s; lia)) as Er.
    fold q in Er. replace (q - 1 + (i - (q - 1) + 1 - 1)) with i in Er by lia. rewrite Er in *.
    destruct (Z.le_gt_cases k q) as [Hkq|Hkq].
    { apply Z.divide_mul_l. by apply pow2_divide. }
    assert (Hqs : (2 ^ q | sz)) by (etransitivity; [|exact Hdiv]; apply pow2_divide; lia).
    destruct Hqs as [w ->]. pose proof (pow2_pos q ltac:(lia)).
    enough (w = i - (q - 1) + 1) as <- by (by rewrite Z.mul_comm).
    destruct (decide (i = q - 1)) as [->|Hne]; [nia|]. specialize (Hprev ltac:(lia)).
    pose proof (bin_reg_size_quantum cfg (i - (q - 1)) ltac:(fold q s; lia)) as Er2.
    fold q in Er2. replace (q - 1 + (i - (q - 1) - 1)) with (i - 1) in Er2 by lia. rewrite Er2 in Hprev. nia.
  - pose proof (bin_reg_size_subpage cfg (i - (q - 1) - 2 ^ (s - q)) ltac:(lia)) as Er.
    fold q s in Er. replace (q - 1 + 2 ^ (s - q) + (i - (q - 1) - 2 ^ (s - q))) with i in Er by lia.
    rewrite Er in *. apply pow2_divide. split; [done|]. apply (pow2_exp_le cfg); lia.
Qed.

Lemma usable_aligned sz k :
  1 <= sz <= arena_maxclass cfg -> 0 <= k <= pagesize_2pow cfg -> (2 ^ k | sz) -> (2 ^ k | usable_size cfg sz).
Proof.
  intros Hsz Hk Hdiv. unfold usable_size. destruct (sz <=? bin_maxclass cfg) eqn:E; b2p.
  - apply class_aligned; [lia|lia|done].
  - rewrite (proj2 (Z.leb_le sz (arena_maxclass cfg))) by lia.
    destruct (pagesize_bounds cfg) as [Hpg Hmx].
    destruct (page_ceiling cfg sz) as [_ Hmod]; [lia|lia|]. apply Z.mod_divide in Hmod; [|lia].
    etransitivity; [|exact Hmod]. rewrite ok_pagesize. by apply pow2_divide.
Qed.

(** *** Huge objects *)

Lemma heap_huge_malloc_aligned h B sz :
  heap_inv cfg h B -> 0 < sz < 2 ^ 64 ->
  wp ab (heap_huge_malloc cfg h sz) (fun '(ro, h') =>
    alloc_spec cfg h B (CHUNK_CEILING cfg sz) (ro, h') /\
    match ro with Some p => p mod CS = 0 /\ sz <= CHUNK_CEILING cfg sz | None => True end).
Proof.
  intros Hinv Hsz. eapply wp_mono; [by apply (heap_huge_malloc_ok cfg)|]. intros [[p|] h'] E Hs; [|done].
  split; [done|]. destruct Hinv as (U & K & Hi & _). unfold heap_huge_malloc in E.
  destruct (huge_malloc cfg (lower h) sz) as [[ro s']| |] eqn:Em; [|done|done]. cbn in E. injection E as -> _.
  apply (huge_malloc_ok cfg) in Em as (Hle & _ & _ & _ & Hal & _); [done|apply Hi|done].
Qed.

Lemma heap_huge_palloc_fits h B k sz :
  heap_inv cfg h B -> opt_chunk_2pow (opts cfg) < k <= 63 -> 0 < sz -> sz + 2 ^ k < 2 ^ 64 ->
  wp ab (heap_huge_palloc cfg h (2 ^ k) sz) (fun '(ro, h') =>
    alloc_spec cfg h B (CHUNK_CEILING cfg sz) (ro, h') /\
    match ro with Some p => p mod 2 ^ k = 0 /\ sz <= CHUNK_CEILING cfg sz | None => True end).
Proof.
  intros Hinv Hk Hsz Hov. eapply wp_mono; [by apply (heap_huge_palloc_ok cfg)|].
  intros [[p|] h'] E [Hs Hal]; [|done].
  do 2 (split; [done|]). destruct Hinv as (U & K & Hi & _). unfold heap_huge_palloc in E.
  destruct (huge_palloc cfg (lower h) (2 ^ k) sz) as [[ro s']| |] eqn:Em; [|done|done].
  cbn in E. injection E as -> _. apply (huge_palloc_ok cfg) in Em as (_ & Hle & _); [done|apply Hi|done..].
Qed.
End natural.

(** ** [ipalloc] and [posix_memalign] *)

Section aligned.
Context (cfg : config) {Hok : config_ok cfg}.
Context {V : VM} {VS : VMSpec V (pagesize cfg)}.
Context (e : environ).
Local Notation PG := (pagesize cfg).
Local Notation CS := (chunksize cfg).
Local Notation N := (chunk_npages cfg).
Local Notation HD := (arena_chunk_header_npages cfg).
Local Notation ab := (opt_abort (opts cfg)).

(** An aligned block large enough for the request, or no change. *)
Definition palloc_spec (h : heap) (B : gmap Z Z) (alignment sz : Z) (r : option Z * heap) : Prop :=
  exists n, alloc_spec cfg h B n r /\
    match fst r with Some p => p mod alignment = 0 /\ sz <= n | None => True end.

Lemma palloc_nothing h B al sz : heap_inv cfg h B -> palloc_spec h B al sz (None, h).
Proof. intros Hinv. by exists 0. Qed.

(** Rounding the size up to the alignment: the overflow check is exact. *)
Lemma align_ceiling sz k :
  0 <= k <= 63 -> 0 < sz < 2 ^ 64 ->
  let c := Z.land (u64 (sz + u64 (2 ^ k - 1))) (u64 (- 2 ^ k)) in
  (c < sz /\ 2 ^ 64 - 2 ^ k < sz) \/ (sz <= c < sz + 2 ^ k /\ (2 ^ k | c) /\ c < 2 ^ 64).
Proof.
  intros Hk Hsz. pose proof (pow2_pos k ltac:(lia)) as Hp. pose proof (pow2_lt_mono k 64 ltac:(lia)) as Hlt.
  rewrite (u64_small (2 ^ k - 1)) by lia.
  replace (u64 (- 2 ^ k)) with (not64 (2 ^ k - 1)) by (unfold not64, Z.lnot; f_equal; lia).
  cbv zeta. destruct (Z.lt_ge_cases (2 ^ 64 - 2 ^ k) sz) as [Hov|Hov].
  - left. rewrite ceil_pow2_overflow by lia. lia.
  - right. rewrite ceil_pow2 by lia. pose proof (div_ceil_spec sz (2 ^ k) Hp) as Hd.
    split; [done|]. split; [apply Z.divide_factor_l|].
    pose proof (Z.mul_div_le (sz + (2 ^ k - 1)) (2 ^ k) Hp). lia.
Qed.

(** The path through [arena_malloc]. *)
Lemma small_aligned h B tid sz c k :
  heap_inv cfg h B -> 1 <= c <= arena_maxclass cfg -> 0 <= k <= pagesize_2pow cfg ->
  (2 ^ k | c) -> sz <= c ->
  wp ab (let! (a, h) := choose_arena cfg h tid in arena_malloc cfg h a c) (palloc_spec h B (2 ^ k) sz).
Proof.
  intros Hinv Hc Hk Hdiv Hsz. apply wp_bind. eapply wp_mono; [by apply (choose_arena_ok cfg)|].
  intros [a h1] _ (Hinv1 & Hs & ar & Ha).
  eapply wp_mono; [by eapply (arena_malloc_ok cfg)|]. intros [ro h2] _ Hr.
  pose proof (alloc_spec_trans cfg B h h1 _ _ Hs Hr) as Hr2. exists (usable_size cfg c). split; [done|].
  destruct ro as [p|]; [|done]. cbn [fst]. pose proof (usable_size_ge cfg c Hc). split; [|lia].
  apply Z.mod_divide; [pose proof (pow2_pos k); lia|]. destruct Hr as (_ & _ & Hinv2).
  eapply (block_aligned cfg); [exact Hinv2|by rewrite lookup_insert_eq|done|].
  by apply (usable_aligned cfg).
Qed.

Lemma page_ceiling_pow2 k :
  0 <= k <= 63 -> PAGE_CEILING cfg (2 ^ k) = 2 ^ Z.max k (pagesize_2pow cfg).
Proof.
  intros Hk. pose proof ok_p as Hp. pose proof ok_pagesize as Epg. destruct (pagesize_bounds cfg) as [Hpg _].
  pose proof (pow2_pos k ltac:(lia)) as Hk0. pose proof (pow2_le_mono k 63 ltac:(lia)) as Hlt.
  change (2 ^ 63) with 9223372036854775808 in Hlt.
  destruct (page_ceiling cfg (2 ^ k)) as [Hb Hm]; [lia|change (2 ^ 64) with 18446744073709551616; lia|]. apply Z.mod_divide in Hm as [q Hq]; [|lia].
  rewrite Hq in *. destruct (Z.le_gt_cases (pagesize_2pow cfg) k) as [Hle|Hgt].
  - rewrite Z.max_l by lia. assert (Hd : (PG | 2 ^ k)) by (rewrite Epg; apply pow2_divide; lia).
    destruct Hd as [w Hw]. rewrite Hw in *. f_equal. clear - Hb Hpg. nia.
  - rewrite Z.max_r, <- Epg by lia. assert (2 ^ k < PG) by (rewrite Epg; apply pow2_lt_mono; lia).
    replace q with 1; [lia|]. clear - Hb Hpg Hk0 H. nia.
Qed.

Lemma page_ceiling_cases sz :
  0 < sz < 2 ^ 64 ->
  (PAGE_CEILING cfg sz < sz) \/
  (sz <= PAGE_CEILING cfg sz < sz + PG /\ (PG | PAGE_CEILING cfg sz) /\ sz + PG <= 2 ^ 64).
Proof.
  intros Hsz. pose proof ok_p as Hp. destruct (pagesize_bounds cfg) as [Hpg _].
  destruct (Z.lt_ge_cases (2 ^ 64 - PG) sz) as [Hov|Hov].
  - left. unfold PAGE_CEILING. rewrite ok_pagesize_mask, ceil_pow2_overflow; [lia|lia|].
    rewrite <- ok_pagesize. lia.
  - right. destruct (page_ceiling cfg sz) as [Hb Hm]; [lia|lia|]. split; [done|]. split; [|lia].
    by apply Z.mod_divide in Hm; [|lia].
Qed.

(** The three ways to serve an alignment of [2 ^ k], a page or more, with [c]
    bytes. *)
Lemma large_aligned h B tid k c run_size :
  heap_inv cfg h B -> pagesize_2pow cfg <= k <= 63 -> 0 < c -> (PG | c) -> c + 2 ^ k < 2 ^ 64 ->
  (k = pagesize_2pow cfg -> arena_maxclass cfg < c) ->
  run_size = (if 2 ^ k <=? c then u64 (c + 2 ^ k - PG) else u64 (u64 (Z.shiftl (2 ^ k) 1) - PG)) ->
  wp ab
    (if run_size <=? arena_maxclass cfg then
       let! (a, h) := choose_arena cfg h tid in arena_palloc cfg h a (2 ^ k) c run_size
     else if 2 ^ k <=? CS then heap_huge_malloc cfg h c
     else heap_huge_palloc cfg h (2 ^ k) c)
    (palloc_spec h B (2 ^ k) c).
Proof.
  intros Hinv Hk Hc [np ->] Hov Hkp Hrs. pose proof ok_p as Hp. pose proof ok_pagesize as Epg.
  destruct (chunk_geometry cfg) as (HCS & HH & HPG & HC & HN). pose proof ok_k as Hkc.
  assert (EA : 2 ^ k = 2 ^ (k - pagesize_2pow cfg) * PG).
  { rewrite Epg, <- Z.pow_add_r by lia. f_equal. lia. }
  pose proof (pow2_pos (k - pagesize_2pow cfg) ltac:(lia)) as HA. set (A := 2 ^ (k - pagesize_2pow cfg)) in *.
  pose proof (pow2_le_mono k 63 ltac:(lia)) as Hk63. change (2 ^ 63) with 9223372036854775808 in Hk63.
  rewrite Z.shiftl_mul_pow2 in Hrs by lia. change (2 ^ 1) with 2 in Hrs.
  rewrite u64_sub_l in Hrs.
  assert (Hrs2 : run_size = (if A <=? np then np + A - 1 else A + A - 1) * PG).
  { assert (E : (2 ^ k <=? np * PG) = (A <=? np)).
    { rewrite EA. apply eq_iff_eq_true. rewrite !Z.leb_le. symmetry. apply Z.mul_le_mono_pos_r. lia. }
    assert (PG <= A * PG) by (clear - HA HPG; nia).
    rewrite Hrs, E, EA in *. destruct (A <=? np); rewrite u64_small by lia; ring. }
  clear Hrs. set (n := if A <=? np then np + A - 1 else A + A - 1) in *.
  assert (Hn : np + A - 1 <= n) by (unfold n; destruct (A <=? np) eqn:E; b2p; lia).
  destruct (run_size <=? arena_maxclass cfg) eqn:Er; b2p.
  - rewrite Hrs2, ok_maxclass, <- Epg in Er. assert (n <= N - HD) by nia.
    apply wp_bind. eapply wp_mono; [by apply (choose_arena_ok cfg)|].
    intros [a h1] _ (Hinv1 & Hs & ar & Ha).
    assert (Hk2 : pagesize_2pow cfg < k).
    { destruct (decide (k = pagesize_2pow cfg)) as [->|]; [|lia]. specialize (Hkp eq_refl).
      rewrite ok_maxclass, <- Epg in Hkp. unfold A in *. rewrite Z.sub_diag in *. cbn in *. nia. }
    rewrite Hrs2. eapply wp_mono.
    + apply (arena_palloc_ok cfg h1 B a ar k np n); try done; try lia.
      rewrite EA, Z.div_mul by lia. lia.
    + intros [ro h2] _ [Hr Hal]. exists (np * PG). split; [by eapply (alloc_spec_trans cfg)|].
      destruct ro; [|done]. cbn. split; [done|lia].
  - destruct (2 ^ k <=? CS) eqn:Ec; b2p.
    + eapply wp_mono; [apply (heap_huge_malloc_aligned cfg h B); [done|lia]|].
      intros [ro h2] _ [Hr Hal]. eexists. split; [done|]. destruct ro as [p|]; [|done]. cbn.
      destruct Hal as [Hal Hle]. split; [|done]. rewrite ok_chunksize in Hal, Ec.
      apply Z.mod_divide in Hal; [|pose proof (pow2_pos (opt_chunk_2pow (opts cfg))); lia].
      apply Z.mod_divide; [lia|]. etransitivity; [|exact Hal]. apply pow2_divide. split; [lia|].
      apply (pow2_exp_le cfg); lia.
    + eapply wp_mono; [apply (heap_huge_palloc_fits cfg h B k (np * PG)); try done|].
      * split; [|lia]. rewrite ok_chunksize in Ec. apply pow2_lt_exp; lia.
      * intros [ro h2] _ [Hr Hal]. eexists. split; [done|]. destruct ro as [p|]; [|done]. cbn. done.
Qed.

Lemma palloc_spec_weaken h B al al' sz sz' r :
  (al | al') -> al <> 0 -> al' <> 0 -> sz <= sz' -> palloc_spec h B al' sz' r -> palloc_spec h B al sz r.
Proof.
  intros Hd H1 H2 Hsz (n & Hs & Hr). exists n. split; [done|]. destruct r as [[p|] h']; cbn in *; [|done].
  destruct Hr as [Hal Hle]. split; [|lia]. apply Z.mod_divide; [done|]. etransitivity; [exact Hd|].
  by apply Z.mod_divide.
Qed.

(** A size of 0: the rounded size is 0 too, and the smallest bin serves it,
    whatever the alignment. *)
Lemma ipalloc_zero h B tid k :
  heap_inv cfg h B -> 0 <= k <= 63 ->
  wp ab (ipalloc cfg h tid (2 ^ k) 0) (alloc_spec cfg h B (usable_size cfg 1)).
Proof.
  intros Hinv Hk. unfold ipalloc. pose proof (pow2_pos k ltac:(lia)). pose proof (pow2_lt_mono k 64 ltac:(lia)).
  destruct (chunk_geometry cfg) as (_ & _ & HPG & _).
  assert (E : Z.land (u64 (0 + u64 (2 ^ k - 1))) (u64 (- 2 ^ k)) = 0).
  { rewrite (u64_small (2 ^ k - 1)) by lia.
    replace (u64 (- 2 ^ k)) with (not64 (2 ^ k - 1)) by (unfold not64, Z.lnot; f_equal; lia).
    rewrite ceil_pow2, Z.div_small by lia. lia. }
  rewrite E, (proj2 (Z.ltb_ge 0 0)), (proj2 (Z.leb_le 0 PG)) by lia. cbn [orb].
  apply wp_bind. eapply wp_mono; [by apply (choose_arena_ok cfg)|]. intros [a h1] _ (Hinv1 & Hs & ar & Ha).
  eapply wp_mono; [by eapply (arena_malloc_zero cfg)|]. intros r _ Hr. by apply (alloc_spec_trans cfg B h h1).
Qed.

Lemma ipalloc_ok h B tid k sz :
  heap_inv cfg h B -> 0 <= k <= 63 -> 0 < sz < 2 ^ 64 ->
  wp ab (ipalloc cfg h tid (2 ^ k) sz) (palloc_spec h B (2 ^ k) sz).
Proof.
  intros Hinv Hk Hsz. unfold ipalloc. pose proof ok_p as Hp. pose proof ok_pagesize as Epg.
  destruct (chunk_geometry cfg) as (HCS & HH & HPG & HC & HN).
  pose proof (pow2_pos k ltac:(lia)) as Hk0.
  destruct (align_ceiling sz k ltac:(lia) Hsz) as [[Hc _]|(Hc & Hdiv & Hc64)].
  { rewrite (proj2 (Z.ltb_lt _ _) Hc). by apply palloc_nothing. }
  set (c := Z.land _ _) in *. rewrite (proj2 (Z.ltb_ge c sz)) by lia.
  pose proof (page_le_maxclass cfg) as Hpm.
  assert (Hkle : 2 ^ k <= PG -> k <= pagesize_2pow cfg).
  { rewrite Epg. intros Hle. apply (pow2_exp_le cfg); lia. }
  destruct ((c <=? PG) || ((2 ^ k <=? PG) && (c <=? arena_maxclass cfg))) eqn:Ecase.
  - assert (Hcc : c <= arena_maxclass cfg /\ 2 ^ k <= PG).
    { assert (2 ^ k <= c) by (apply Z.divide_pos_le; [lia|done]). apply orb_true_iff in Ecase as [E|[E1 E2]%andb_true_iff]; b2p; lia. }
    destruct Hcc as [Hcm Hkp]. specialize (Hkle Hkp). apply small_aligned; try done; lia.
  - apply orb_false_iff in Ecase as [E1 E2]. b2p.
    destruct (page_ceiling_cases sz Hsz) as [Hpc|(Hpc & Hpd & Hp64)].
    { rewrite (proj2 (Z.ltb_lt _ _) Hpc). cbn [orb]. by apply palloc_nothing. }
    rewrite (proj2 (Z.ltb_ge (PAGE_CEILING cfg sz) sz)) by lia. cbn [orb]. rewrite page_ceiling_pow2 by done.
    set (k' := Z.max k (pagesize_2pow cfg)). set (pc := PAGE_CEILING cfg sz) in *.
    pose proof (pow2_le_mono k' 63 ltac:(lia)) as Hk63. pose proof (pow2_pos k' ltac:(lia)).
    destruct (u64 (pc + 2 ^ k') <? pc) eqn:Eov; [by apply palloc_nothing|]. b2p.
    assert (Hov : pc + 2 ^ k' < 2 ^ 64).
    { destruct (Z.lt_ge_cases (pc + 2 ^ k') (2 ^ 64)) as [|Hge]; [done|]. exfalso. revert Eov.
      assert (pc < 2 ^ 64 + PG) by lia. unfold u64.
      replace ((pc + 2 ^ k') mod 2 ^ 64) with (pc + 2 ^ k' - 2 ^ 64); [lia|].
      apply Z.mod_unique with 1; [|lia]. change (2 ^ 63) with 9223372036854775808 in Hk63. lia. }
    assert (Hdk : (2 ^ k | 2 ^ k')) by (apply pow2_divide; lia).
    eapply wp_mono; [apply (large_aligned h B tid k' pc); try done; try lia|].
    + intros Ek'. assert (Hle : 2 ^ k <= PG) by (rewrite Epg; apply pow2_le_mono; lia).
      apply andb_false_iff in E2 as [E2|E2]; b2p; [lia|]. destruct Hpd as [w Hw], Hdiv as [u Hu].
      assert (Hd : (2 ^ k | pc)) by (rewrite Hw, Epg; apply Z.divide_mul_r, pow2_divide; lia).
      destruct Hd as [v Hv]. assert (Huv : u * 2 ^ k < (v + 1) * 2 ^ k) by lia.
      apply Z.mul_lt_mono_pos_r in Huv; [|done].
      pose proof (Z.mul_le_mono_nonneg_r u v (2 ^ k) ltac:(lia) ltac:(lia)). lia.
    + intros r _ Hr. eapply palloc_spec_weaken; [..|exact Hr]; try done; lia.
Qed.

(** *** [posix_memalign] *)

Local Notation stop := (opt_abort (opts cfg) || opt_xmalloc (opts cfg)).

(** The alignments that are accepted: powers of two, a pointer or more. *)
Definition valid_alignment (al : Z) : Prop := exists k, 3 <= k < 64 /\ al = 2 ^ k.

Lemma alignment_test al :
  0 <= al < 2 ^ 64 ->
  (negb (Z.land (u64 (al - 1)) al =? 0) || (al <? SIZEOF_PTR)) = false <-> valid_alignment al.
Proof.
  intros Hal. rewrite orb_false_iff, negb_false_iff, Z.eqb_eq, Z.ltb_ge, Z.land_comm. change SIZEOF_PTR with (2 ^ 3).
  split.
  - intros [Hl Hp]. exists (Z.log2 al). pose proof (land_pred_0 al ltac:(lia) Hl) as E. split; [|done]. split.
    + pose proof (Z.log2_le_mono _ _ Hp). by rewrite Z.log2_pow2 in * by lia.
    + apply Z.log2_lt_pow2; lia.
  - intros (k & Hk & ->). split; [apply land_pred_pow2; lia|]. apply pow2_le_mono. lia.
Qed.

Lemma posix_memalign_rejects h tid al sz :
  0 <= al < 2 ^ 64 -> ~ valid_alignment al ->
  posix_memalign e (Ready cfg h) tid al sz =
  (if opt_xmalloc (opts cfg) then Abort else Ok (EINVAL, None, Ready cfg h)).
Proof.
  intros Hal Hv. unfold posix_memalign. cbn [malloc_init].
  destruct (negb (Z.land (u64 (al - 1)) al =? 0) || (al <? SIZEOF_PTR)) eqn:E; [done|].
  by apply alignment_test in E.
Qed.

(** What [ipalloc] promises about its result is what [posix_memalign] promises. *)
Lemma memalign_ok h tid k sz (P : option Z * heap -> Prop) :
  3 <= k <= 63 -> wp ab (ipalloc cfg h tid (2 ^ k) sz) P ->
  wp stop (posix_memalign e (Ready cfg h) tid (2 ^ k) sz) (fun '(rc, ro, m) =>
    exists h', m = Ready cfg h' /\ P (ro, h') /\ rc = match ro with Some _ => 0 | None => ENOMEM end).
Proof.
  intros Hk HP. unfold posix_memalign. cbn [malloc_init].
  pose proof (pow2_pos k ltac:(lia)). pose proof (pow2_lt_mono k 64 ltac:(lia)).
  rewrite (proj2 (alignment_test (2 ^ k) ltac:(lia))) by (exists k; split; [lia|done]). cbn [negb andb].
  set (f := fun (c : config) (h : heap) => ipalloc c h tid (2 ^ k) sz).
  pose proof (with_heap_ok cfg h f P HP) as Hw. apply wp_bind.
  destruct (with_heap (Ready cfg h) f) as [r| |] eqn:Er; [|done|done].
  cbn [wp]. apply wp_bind. eapply wp_mono; [exact Hw|].
  intros [ro m] _ (h' & -> & Hs). destruct ro; cbn; eauto.
Qed.

Lemma posix_memalign_ok h B tid k sz :
  heap_inv cfg h B -> 3 <= k <= 63 -> 0 < sz < 2 ^ 64 ->
  wp stop (posix_memalign e (Ready cfg h) tid (2 ^ k) sz) (fun '(rc, ro, m) =>
    exists h', m = Ready cfg h' /\ palloc_spec h B (2 ^ k) sz (ro, h') /\
      rc = match ro with Some _ => 0 | None => ENOMEM end).
Proof. intros Hinv Hk Hsz. apply memalign_ok; [done|]. apply ipalloc_ok; [done|lia|done]. Qed.

(** Any size: a new block of some size, or no change. *)
Lemma posix_memalign_block h B tid k sz :
  heap_inv cfg h B -> 3 <= k <= 63 -> 0 <= sz < 2 ^ 64 ->
  wp stop (posix_memalign e (Ready cfg h) tid (2 ^ k) sz) (fun '(rc, ro, m) =>
    exists h' n, m = Ready cfg h' /\ alloc_spec cfg h B n (ro, h')).
Proof.
  intros Hinv Hk Hsz. destruct (decide (sz = 0)) as [->|Hne].
  - eapply wp_mono; [apply memalign_ok, (ipalloc_zero h B); [done|done|lia]|].
    intros [[rc ro] m] _ (h' & -> & Hs & _). eauto.
  - eapply wp_mono; [apply (posix_memalign_ok h B tid k sz); [done|done|lia]|].
    intros [[rc ro] m] _ (h' & -> & (n & Hs & _) & _). eauto.
Qed.
End aligned.
