(* ===== verification/JClient.v ===== *)
(** * jalloc: a program that uses the allocator

    A client allocates, releases, resizes and writes to its blocks, in any order,
    from any thread (one call at a time).  It may make every call of malloc(3) whose
    pointer is [NULL] or one of its blocks: any size, 0 included, and any alignment,
    the invalid ones included.  Its steps are an inductive relation over the
    allocator's state and the map of the live blocks with their usable sizes; every
    such call is defined and keeps the invariant of the heap. *)

From Stdlib Require Import ZArith Lia Bool.
From stdpp Require Import base numbers gmap relations list.
From S2P Require Import Prelude JConfig JRun JBin JMap JChunk JArena JPages JHeap JApi JSpec JAlign.

Section client.
Context (cfg : config) {Hok : config_ok cfg}.
Context {V : VM} {VS : VMSpec V (pagesize cfg)}.
Context (e : environ).

(** The process stops only if an option asks for it. *)
Local Notation stop := (opt_abort (opts cfg) || opt_xmalloc (opts cfg)).

(** The calls of a client; [None] is [NULL]. *)
Inductive call :=
  | CMalloc (sz : Z)
  | CCalloc (num sz : Z)
  | CRealloc (ptr : option Z) (sz : Z)
  | CMemalign (alignment sz : Z)
  | CFree (ptr : option Z).

(** A [size_t]. *)
Definition size_t (x : Z) : Prop := 0 <= x < 2 ^ 64.

(** A pointer the client may pass: [NULL], or a live block. *)
Definition owned (B : gmap Z Z) (ptr : option Z) : Prop :=
  match ptr with Some p => is_Some (B !! p) | None => True end.

Definition permitted (B : gmap Z Z) (cl : call) : Prop :=
  match cl with
  | CMalloc sz => size_t sz
  | CCalloc num sz => size_t num /\ size_t sz
  | CRealloc ptr sz => owned B ptr /\ size_t sz
  | CMemalign alignment sz => size_t alignment /\ size_t sz
  | CFree ptr => owned B ptr
  end.

(** The pointer the call gives back, if any, and the state it leaves. *)
Definition perform (m : mstate) (tid : Z) (cl : call) : outcome (option Z * mstate) :=
  match cl with
  | CMalloc sz => malloc e m tid sz
  | CCalloc num sz => calloc e m tid num sz
  | CRealloc ptr sz => realloc e m tid ptr sz
  | CMemalign alignment sz => let! (_, ro, m) := posix_memalign e m tid alignment sz in Ok (ro, m)
  | CFree ptr => let! m := free m ptr in Ok (None, m)
  end.

(** The live blocks after a call that gave [ro] back and left the heap [h']. *)
Definition after (h' : heap) (B : gmap Z Z) (cl : call) (ro : option Z) : gmap Z Z :=
  match cl, ro with
  | CMalloc sz, Some p | CRealloc None sz, Some p => <[p := usable_size cfg (request sz)]> B
  | CCalloc num sz, Some p => <[p := usable_size cfg (request (num * sz))]> B
  | CRealloc (Some p) sz, Some q =>
      if decide (q = p) then B else <[q := usable_size cfg (request sz)]> (delete p B)
  | CRealloc (Some p) sz, None => if (sz =? 0) && opt_sysv (opts cfg) then delete p B else B
  | CMemalign _ _, Some p =>
      match malloc_usable_size (Ready cfg h') p with Ok n => <[p := n]> B | _ => B end
  | CFree (Some p), _ => delete p B
  | _, _ => B
  end.

(** The state of the allocator and the live blocks with their usable sizes. *)
Inductive step : heap * gmap Z Z -> heap * gmap Z Z -> Prop :=
  | step_call h B tid cl ro h' :
      permitted B cl -> perform (Ready cfg h) tid cl = Ok (ro, Ready cfg h') ->
      step (h, B) (h', after h' B cl ro)
  | step_write h B p n a m f :
      B !! p = Some n -> p <= a -> a + m <= p + n ->
      step (h, B) (write_vm h (fun v => vm_write v a m f), B).

(** What a call leaves: an initialised allocator whose live blocks are those the
    call should leave. *)
Definition call_spec (B : gmap Z Z) (cl : call) (r : option Z * mstate) : Prop :=
  exists h', snd r = Ready cfg h' /\ heap_inv cfg h' (after h' B cl (fst r)).

Lemma realloc_null_ok h B tid sz :
  heap_inv cfg h B -> size_t sz -> wp stop (realloc e (Ready cfg h) tid None sz) (call_spec B (CRealloc None sz)).
Proof.
  intros Hinv Hsz. unfold realloc. cbn [malloc_init cur_opts]. fold (request sz).
  destruct ((sz =? 0) && opt_sysv (opts cfg)); [cbn; by exists h|]. cbn [wp].
  eapply wp_mono; [apply (with_heap_ok cfg h (fun c h => imalloc c h tid (request sz)));
    apply (imalloc_spec cfg h B); [done|by apply request_bounds]|].
  intros [ro m] _ (h' & -> & [_ Hs] & _). exists h'. split; [done|]. destruct ro; cbn; tauto.
Qed.

Lemma realloc_live_ok h B tid p sz :
  heap_inv cfg h B -> is_Some (B !! p) -> size_t sz ->
  wp stop (realloc e (Ready cfg h) tid (Some p) sz) (call_spec B (CRealloc (Some p) sz)).
Proof.
  intros Hinv [n Hp] Hsz. destruct ((sz =? 0) && opt_sysv (opts cfg)) eqn:Esv.
  - unfold realloc. cbn [cur_opts with_heap]. rewrite Esv. do 2 apply wp_bind.
    eapply wp_weaken; [|eapply wp_mono; [by apply (idalloc_ok cfg h B p n)|]]; [by intros ->|].
    intros h' _ [Hf _]. cbn [wp]. exists h'. split; [done|]. cbn [fst after]. by rewrite Esv.
  - eapply wp_mono; [apply (realloc_ok cfg e h B tid p n sz); [done|done|done|]|].
    + apply andb_false_iff in Esv as [E|E]; [right; b2p; unfold size_t in *; lia|by left].
    + intros [ro m] _ (h' & -> & Hs). exists h'. split; [done|]. cbn [fst after]. rewrite Esv.
      destruct ro as [q|]; [|by destruct Hs]. destruct Hs as (_ & _ & [(-> & _ & Hr)|(Hq & _ & Hr)]).
      * by rewrite decide_True.
      * rewrite decide_False by congruence. done.
Qed.

Lemma memalign_call_ok h B tid al sz :
  heap_inv cfg h B -> size_t al -> size_t sz ->
  wp stop (perform (Ready cfg h) tid (CMemalign al sz)) (call_spec B (CMemalign al sz)).
Proof.
  intros Hinv Hal Hsz. cbn [perform].
  destruct (negb (Z.land (u64 (al - 1)) al =? 0) || (al <? SIZEOF_PTR)) eqn:E.
  - assert (Hv : ~ valid_alignment al).
    { intros Hv. apply alignment_test in Hv; [|done]. congruence. }
    rewrite (posix_memalign_rejects cfg e h tid al sz Hal Hv).
    destruct (opt_xmalloc (opts cfg)); cbn; [apply orb_true_r|by exists h].
  - apply alignment_test in E as (k & Hk & ->); [|done]. apply wp_bind.
    eapply wp_mono; [apply (posix_memalign_block cfg e h B tid k sz); [done|lia|done]|].
    intros [[rc ro] m] _ (h' & n & -> & _ & Hs). cbn [wp]. exists h'. split; [done|].
    cbn [fst after]. destruct ro as [p|]; [|done]. destruct Hs as [_ Hs].
    cbn [malloc_usable_size]. by rewrite (isalloc_ok cfg h' _ p n Hs) by (by rewrite lookup_insert_eq).
Qed.

(** Every call the client may make is defined and leaves the blocks it should. *)
Lemma call_ok h B tid cl :
  heap_inv cfg h B -> permitted B cl -> wp stop (perform (Ready cfg h) tid cl) (call_spec B cl).
Proof.
  intros Hinv Hp. destruct cl as [sz|num sz|ptr sz|al sz|ptr].
  - eapply wp_mono; [by apply (malloc_ok cfg e h B)|]. intros [ro m] _ (h' & -> & [_ Hs] & _).
    exists h'. split; [done|]. destruct ro; cbn; tauto.
  - destruct Hp. eapply wp_mono; [by apply (calloc_ok cfg e h B)|].
    intros [ro m] _ (h' & -> & ([_ Hs] & _) & _). exists h'. split; [done|]. destruct ro; cbn; tauto.
  - destruct Hp, ptr; [by apply realloc_live_ok|by apply realloc_null_ok].
  - destruct Hp. by apply memalign_call_ok.
  - destruct ptr as [p|]; [|cbn; by exists h]. destruct Hp as [n Hp]. cbn [perform]. apply wp_bind.
    eapply wp_mono; [by apply (free_ok cfg h B p n)|]. intros m _ (h' & -> & Hf & _). by exists h'.
Qed.

Lemma step_inv h B h' B' : heap_inv cfg h B -> step (h, B) (h', B') -> heap_inv cfg h' B'.
Proof.
  intros Hinv Hs. inversion Hs as [? ? tid cl ro ? Hp E|? ? p n a m f Hp Ha Hm]; subst.
  - by destruct (wp_ok _ _ _ _ (call_ok h B tid cl Hinv Hp) E) as (h2 & [= <-] & ?).
  - eapply (heap_inv_write cfg h B' _ p n); [done|].
    eapply writes_in_sub; [| |apply (vm_write_writes cfg a m (fun _ => f))]; lia.
Qed.

(** The invariant holds in every state the client reaches. *)
Lemma reachable_inv st st' :
  rtc step st st' -> heap_inv cfg (fst st) (snd st) -> heap_inv cfg (fst st') (snd st').
Proof.
  induction 1 as [|[h1 B1] [h2 B2] st3 Hs _ IH]; [done|]. intros Hinv. apply IH. by eapply step_inv.
Qed.
End client.
