(* ===== verification/JVm.v ===== *)
(** * An executable virtual memory

    A kernel that satisfies [VMSpec]: [mmap] hands out increasing addresses and
    ignores the hint, [munmap] always succeeds.  It shows that the hypotheses the
    allocator relies on can hold, and it makes the allocator's definitions run. *)

From Stdlib Require Import ZArith Lia Bool.
From stdpp Require Import base numbers gmap list.
From S2P Require Import Prelude JChunk.

Record bump_state := mk_bump { top : Z; live : Z -> bool; cell : Z -> Z }.

Section bump.
Context (page : Z).

Definition within (a n x : Z) : bool := (a <=? x) && (x <? a + n).

Definition bump_mmap (v : bump_state) (hint n : Z) : option Z * bump_state :=
  let r := top v in
  if (0 <? n) && (r + n <? 2 ^ 47) then
    (Some r, mk_bump (r + page * ((n + page - 1) / page))
                     (fun x => within r n x || live v x)
                     (fun x => if within r n x then 0 else cell v x))
  else (None, v).

Definition bump_munmap (v : bump_state) (a n : Z) : bool * bump_state :=
  (true, mk_bump (top v) (fun x => negb (within a n x) && live v x) (cell v)).

Definition bump_write (v : bump_state) (a n : Z) (f : Z -> Z) : bump_state :=
  mk_bump (top v) (live v) (fun x => if within a n x then f (x - a) else cell v x).

#[export] Instance bump_vm : VM := {
  vm := bump_state;
  mmap := bump_mmap;
  munmap := bump_munmap;
  vm_read := cell;
  vm_write := bump_write;
  madvise v _ _ := v }.

Definition bump_init : bump_state := mk_bump page (fun _ => false) (fun _ => 0).

Definition bump_ok (v : bump_state) : Prop :=
  0 < top v /\ top v mod page = 0 /\ forall x, live v x = true -> x < top v.

Lemma within_spec a n x : within a n x = true <-> in_range a n x.
Proof. unfold within, in_range. rewrite andb_true_iff, Z.leb_le, Z.ltb_lt. lia. Qed.

Lemma within_not a n x : ~ in_range a n x -> within a n x = false.
Proof. rewrite <- within_spec. by destruct (within a n x). Qed.

Context (Hpage : 0 < page).

Lemma pages_cover n : 0 < n -> n <= page * ((n + page - 1) / page).
Proof.
  intros Hn. pose proof (Z.div_mod (n + page - 1) page ltac:(lia)).
  pose proof (Z.mod_pos_bound (n + page - 1) page Hpage). lia.
Qed.

Lemma bump_mmap_inv v a n r v' :
  mmap v a n = (r, v') ->
  (r = None /\ v' = v) \/
  (r = Some (top v) /\ 0 < n /\ top v + n < 2 ^ 47 /\
   v' = mk_bump (top v + page * ((n + page - 1) / page)) (fun x => within (top v) n x || live v x)
          (fun x => if within (top v) n x then 0 else cell v x)).
Proof.
  cbn [mmap bump_vm]. unfold bump_mmap.
  destruct (0 <? n) eqn:E1, (top v + n <? 2 ^ 47) eqn:E2; cbn [andb]; intros [= <- <-]; b2p; auto.
Qed.

#[export] Program Instance bump_spec : VMSpec bump_vm page := {
  vm_ok := bump_ok;
  mapped v x := live v x = true }.
Next Obligation.
  intros v a n r v' (Ht & Hm & Hl) Hn E.
  destruct (bump_mmap_inv _ _ _ _ _ E) as [[-> ->]|(_ & _ & _ & ->)]; [done|].
  pose proof (pages_cover n Hn). split; cbn [top live]; [lia|]. split.
  - by rewrite Z.mul_comm, Z.mod_add by lia.
  - intros x [Hx%within_spec|Hx]%orb_true_iff; [unfold in_range in Hx; lia|]. apply Hl in Hx. lia.
Qed.
Next Obligation.
  intros v a n v' E. by destruct (bump_mmap_inv _ _ _ _ _ E) as [[_ ->]|[? _]].
Qed.
Next Obligation.
  intros v a n r v' (Ht & Hm & Hl) Hn E.
  destruct (bump_mmap_inv _ _ _ _ _ E) as [[? _]|([= ->] & _ & Hlt & ->)]; [done|].
  cbn [live vm_read bump_vm cell]. split_and!; try lia; try done.
  - intros x Hx Hlv. apply Hl in Hlv. unfold in_range in Hx. lia.
  - intros x. rewrite orb_true_iff, within_spec. tauto.
  - intros x Hx. by rewrite (proj2 (within_spec _ _ _) Hx).
  - intros x Hx. by rewrite within_not.
Qed.
Next Obligation.
  intros v a n b v' (Ht & Hm & Hl) [= _ <-]. split_and!; [done..|].
  cbn [live top]. intros x [_ Hx]%andb_true_iff. auto.
Qed.
Next Obligation. done. Qed.
Next Obligation.
  intros v a n v' [= <-]. cbn [live vm_read bump_vm cell]. split; [|done].
  intros x. rewrite andb_true_iff, negb_true_iff, <- within_spec. destruct (within a n x); intuition congruence.
Qed.
Next Obligation. done. Qed.
Next Obligation. done. Qed.
Next Obligation.
  intros v a n f x Hx. cbn [vm_read vm_write bump_vm cell bump_write].
  by rewrite (proj2 (within_spec _ _ _) Hx).
Qed.
Next Obligation.
  intros v a n f x Hx. cbn [vm_read vm_write bump_vm cell bump_write]. by rewrite within_not.
Qed.
Next Obligation. done. Qed.
Next Obligation. done. Qed.
Next Obligation. done. Qed.

Lemma bump_init_ok : bump_ok bump_init.
Proof. split; [done|]. split; [by apply Z.mod_same; lia|done]. Qed.
End bump.
