(* ===== verification/JExample.v ===== *)
(** * jalloc: a process

    The allocator running on the executable virtual memory of [JVm]: the default
    options, four processors, 4 KiB pages.  The process initialises the allocator
    and holds one small, one large and one huge block. *)

From Stdlib Require Import ZArith Lia Bool String.
From stdpp Require Import base numbers gmap relations list.
From S2P Require Import Prelude JConfig JRun JBin JMap JChunk JArena JPages JHeap JApi JSpec JAlign JClient JVm.

Definition env : environ := mk_environ 4 4096 None None None.
Definition cfg : config := config_of env.

#[export] Instance machine : VM := bump_vm 4096.

Lemma page_positive : 0 < 4096.
Proof. done. Qed.

#[export] Instance machine_spec : VMSpec machine (pagesize cfg) := bump_spec 4096 page_positive.

Lemma env_ok : environ_ok env.
Proof.
  split; [exists 12; split; [lia|done]|by vm_compute|by vm_compute|].
  eexists. vm_compute. reflexivity.
Qed.

#[export] Instance cfg_is_ok : config_ok cfg := config_of_ok env env_ok.

Definition boot_state : state := mk_state (bump_init 4096) 0 0 [] [] [].

Lemma boot_state_ok : vm_ok (VMSpec := machine_spec) (kernel boot_state).
Proof. exact (bump_init_ok 4096 page_positive). Qed.

Definition no_heap : heap := mk_heap boot_state [] ∅ ∅.

(** The heap of a state, and whether there is one. *)
Definition the_heap (m : mstate) : heap := match m with Ready _ h => h | Uninit _ _ => no_heap end.

Definition booted : outcome (bool * mstate) := malloc_init_hard env default_options boot_state.

Definition h0 : heap := match booted with Ok (_, m) => the_heap m | _ => no_heap end.

Definition succeeds {A} (o : outcome A) (f : A -> bool) : bool :=
  match o with Ok a => f a | _ => false end.

Lemma boot_ok : booted = Ok (false, Ready cfg h0) /\ heap_inv cfg h0 ∅.
Proof.
  assert (Hs : succeeds booted (fun r => negb (fst r)) = true) by (vm_compute; reflexivity).
  pose proof (malloc_init_hard_ok env env_ok boot_state boot_state_ok) as Hw. fold booted in Hw.
  unfold h0. destruct booted as [[failed m]| |] eqn:E; [|done|done].
  destruct failed; [done|]. cbn in Hw. destruct Hw as (h & -> & Hinv). split; [done|exact Hinv].
Qed.

(** One call of [malloc] by the main thread. *)
Definition alloc (h : heap) (n : Z) : heap :=
  match malloc env (Ready cfg h) 0 n with Ok (_, m) => the_heap m | _ => no_heap end.

Definition returns (h : heap) (n p : Z) : bool :=
  match malloc env (Ready cfg h) 0 n with Ok (Some q, Ready _ _) => q =? p | _ => false end.

Lemma alloc_eq h B n p :
  heap_inv cfg h B -> 0 <= n < 2 ^ 64 -> returns h n p = true ->
  malloc env (Ready cfg h) 0 n = Ok (Some p, Ready cfg (alloc h n)) /\
  heap_inv cfg (alloc h n) (<[p := usable_size cfg (request n)]> B).
Proof.
  intros Hinv Hn Hr. pose proof (malloc_ok cfg env h B 0 n Hinv Hn) as Hw. unfold alloc, returns in *.
  destruct (malloc env (Ready cfg h) 0 n) as [[[q|] m]| |] eqn:E; [|done..|done|done].
  destruct Hw as (h' & -> & (_ & _ & Hinv') & _). apply Z.eqb_eq in Hr as ->. done.
Qed.

Definition h1 : heap := alloc h0 100.
Definition h2 : heap := alloc h1 100000.
Definition h3 : heap := alloc h2 3000000.

Definition small_p : Z := 1052800.
Definition large_p : Z := 1060864.
Definition huge_p : Z := 3145728.

Definition blocks : gmap Z Z := <[huge_p := 3145728]> (<[large_p := 102400]> (<[small_p := 112]> ∅)).

Lemma h1_ok :
  malloc env (Ready cfg h0) 0 100 = Ok (Some small_p, Ready cfg h1) /\ heap_inv cfg h1 (<[small_p := 112]> ∅).
Proof. apply (alloc_eq h0 ∅ 100 small_p); [apply boot_ok|done|vm_compute; reflexivity]. Qed.

Lemma h2_ok :
  malloc env (Ready cfg h1) 0 100000 = Ok (Some large_p, Ready cfg h2) /\
  heap_inv cfg h2 (<[large_p := 102400]> (<[small_p := 112]> ∅)).
Proof. apply (alloc_eq h1 _ 100000 large_p); [apply h1_ok|done|vm_compute; reflexivity]. Qed.

Lemma h3_ok :
  malloc env (Ready cfg h2) 0 3000000 = Ok (Some huge_p, Ready cfg h3) /\ heap_inv cfg h3 blocks.
Proof. apply (alloc_eq h2 _ 3000000 huge_p); [apply h2_ok|done|vm_compute; reflexivity]. Qed.

(** The heaps are concrete: computation, not unification, unfolds them. *)
#[global] Opaque h0 h1 h2 h3.
