(* ===== verification/JTheorems.v ===== *)
(** * jalloc: the properties of the allocator

    The theorems of the development about [src/util/private/jalloc/malloc.c], each
    with a witness on the process of [JExample]. *)

From Stdlib Require Import ZArith Lia Bool String.
From stdpp Require Import base numbers gmap relations list.
From S2P Require Import Prelude JConfig JRun JBin JMap JChunk JArena JPages JHeap JApi JSpec JAlign JClient JVm JExample.

(** ** Tactics of the witnesses *)

(** A closed fact decided by computation. *)
Ltac by_compute := vm_compute; repeat split; congruence.

Section theorems.
Context (c : config) {Hok : config_ok c}.
Context {V : VM} {VS : VMSpec V (pagesize c)}.
Context (e : environ).

(** ** The client *)

(** C1: whatever sequence of malloc, calloc, realloc, posix_memalign, free and
    writes inside its blocks a program performs, from a heap that satisfies the
    invariant, the live blocks never overlap, every byte of them is mapped, none
    of them is empty, and each is aligned at every power of two up to a page that
    divides its size. *)
Theorem client_safety h B h' B' :
  heap_inv c h B -> rtc (step c e) (h, B) (h', B') ->
  heap_inv c h' B' /\
  (forall p n x, B' !! p = Some n -> in_range p n x -> mapped (kernel (lower h')) x) /\
  (forall p n, B' !! p = Some n -> 0 < n) /\
  (forall p n q m x, B' !! p = Some n -> B' !! q = Some m -> in_range p n x -> in_range q m x -> p = q) /\
  (forall p n k, B' !! p = Some n -> 0 <= k <= pagesize_2pow c -> (2 ^ k | n) -> (2 ^ k | p)).
Proof.
  intros Hinv Hs. pose proof (reachable_inv c e _ _ Hs Hinv) as Hinv'. cbn in Hinv'.
  split; [done|]. pose proof Hinv' as (U & K & Hi & Hb & HB).
  split; [intros p n x Hp Hx; apply HB in Hp; by eapply (block_mapped c)|].
  split; [intros p n Hp; apply HB in Hp; by eapply (block_pos c)|].
  split; [intros; by eapply (heap_disjoint c)|]. intros. by eapply (block_aligned c).
Qed.

(** C2: in every state the program reaches, no call it may make reads memory the
    allocator does not own or runs out of loop bounds, and the process is stopped
    only if an option asks for it.  It may make any call of malloc, calloc, realloc,
    posix_memalign and free whose pointer is NULL or a live block, with any sizes
    and any alignment that a size_t holds, 0 and the invalid alignments included,
    whether or not a block is live.  A call that returns leaves the heap in order,
    with the live blocks that [after] names, and malloc_usable_size gives the size of
    each live block. *)
Theorem client_calls_defined h B h' B' :
  heap_inv c h B -> rtc (step c e) (h, B) (h', B') ->
  (forall tid cl, permitted B' cl ->
     wp (opt_abort (opts c) || opt_xmalloc (opts c)) (perform e (Ready c h') tid cl)
        (fun '(ro, m) => exists h2, m = Ready c h2 /\ heap_inv c h2 (after c h2 B' cl ro))) /\
  (forall p n, B' !! p = Some n -> malloc_usable_size (Ready c h') p = Ok n).
Proof.
  intros Hinv Hs. pose proof (reachable_inv c e _ _ Hs Hinv) as Hinv'. cbn in Hinv'. split.
  - intros tid cl Hp. eapply wp_mono; [by apply (call_ok c e h' B' tid cl)|].
    intros [ro m] _ (h2 & E & Hi). by exists h2.
  - intros p n. by apply (isalloc_ok c h' B').
Qed.

(** C3: malloc of [sz] bytes (one byte for 0) returns NULL and leaves every block
    as it was, or returns a block that did not exist, of the usable size of its
    class, at least [sz] bytes, and every other block keeps its place and contents. *)
Theorem malloc_refines h B tid sz ro m :
  heap_inv c h B -> 0 <= sz < 2 ^ 64 -> malloc e (Ready c h) tid sz = Ok (ro, m) ->
  exists h', m = Ready c h' /\ same_data B h h' /\
    match ro with
    | Some p => B !! p = None /\ heap_inv c h' (<[p := usable_size c (request sz)]> B) /\
                request sz <= usable_size c (request sz)
    | None => heap_inv c h' B
    end.
Proof.
  intros Hinv Hsz E. destruct (wp_ok _ _ _ _ (malloc_ok c e h B tid sz Hinv Hsz) E) as (h' & -> & [Hd Hs] & Hf).
  exists h'. split; [done|]. split; [done|]. destruct ro; [|done]. destruct Hs. split_and!; [done|done|by apply Hf].
Qed.

(** C4: free of a live block succeeds, removes exactly that block, and leaves the
    contents of the others. *)
Theorem free_refines h B p n :
  heap_inv c h B -> B !! p = Some n -> opt_abort (opts c) || opt_xmalloc (opts c) = false ->
  exists h', free (Ready c h) (Some p) = Ok (Ready c h') /\
    heap_inv c h' (delete p B) /\ same_data (delete p B) h h'.
Proof.
  intros Hinv Hp Hstop. pose proof (free_ok c h B p n Hinv Hp) as Hw. rewrite Hstop in Hw.
  destruct (free (Ready c h) (Some p)) as [m| |]; [|done|done]. destruct Hw as (h' & -> & ? & ?). eauto.
Qed.

(** C5: realloc of a live block either fails and changes nothing, or returns a
    block that holds the first [min sz n] bytes of the old one: the same block
    when its size class fits the request, or a new block with the old one gone.
    The other blocks keep their contents. *)
Theorem realloc_refines h B tid p n sz ro m :
  heap_inv c h B -> B !! p = Some n -> 0 < sz < 2 ^ 64 ->
  realloc e (Ready c h) tid (Some p) sz = Ok (ro, m) ->
  exists h', m = Ready c h' /\ realloc_spec c h B p n sz (ro, h').
Proof.
  intros Hinv Hp Hsz E. destruct (wp_ok _ _ _ _ (realloc_ok c e h B tid p n sz Hinv Hp ltac:(lia) ltac:(lia)) E)
    as (h' & -> & Hs). exists h'. split; [done|]. unfold request in Hs. by rewrite (proj2 (Z.eqb_neq sz 0)) in Hs by lia.
Qed.

(** C6: calloc returns a block only if the product fits a [size_t]; all its
    requested bytes are zero; otherwise it behaves as malloc of the product. *)
Theorem calloc_refines h B tid num sz ro m :
  heap_inv c h B -> 0 <= num < 2 ^ 64 -> 0 <= sz < 2 ^ 64 ->
  calloc e (Ready c h) tid num sz = Ok (ro, m) ->
  exists h', m = Ready c h' /\ malloc_spec c h B (request (num * sz)) (ro, h') /\
    match ro with
    | Some p => num * sz < 2 ^ 64 /\
        forall x, in_range p (request (num * sz)) x -> vm_read (kernel (lower h')) x = 0
    | None => True
    end.
Proof.
  intros Hinv Hn Hsz E. exact (wp_ok _ _ _ _ (calloc_ok c e h B tid num sz Hinv Hn Hsz) E).
Qed.

(** C7: posix_memalign with a power of two from a pointer to 2^63 bytes and a
    non-zero size returns 0 and a new block of at least the requested size at a
    multiple of the alignment, or ENOMEM and no change. *)
Theorem posix_memalign_refines h B tid k sz rc ro m :
  heap_inv c h B -> 3 <= k <= 63 -> 0 < sz < 2 ^ 64 ->
  posix_memalign e (Ready c h) tid (2 ^ k) sz = Ok (rc, ro, m) ->
  exists h', m = Ready c h' /\ same_data B h h' /\
    match ro with
    | Some p => rc = 0 /\ p mod 2 ^ k = 0 /\
        exists n, sz <= n /\ B !! p = None /\ heap_inv c h' (<[p := n]> B)
    | None => rc = ENOMEM /\ heap_inv c h' B
    end.
Proof.
  intros Hinv Hk Hsz E.
  destruct (wp_ok _ _ _ _ (posix_memalign_ok c e h B tid k sz Hinv Hk Hsz) E) as (h' & -> & (n & [Hd Hs] & Hr) & ->).
  exists h'. do 2 (split; [done|]). destruct ro; cbn in *; [|done]. destruct Hr, Hs.
  do 2 (split; [done|]). by exists n.
Qed.

(** posix_memalign answers EINVAL (or stops the process under opt_xmalloc)
    for exactly the alignments that are not a power of two of at least a pointer,
    and then it touches nothing. *)
Theorem posix_memalign_invalid h tid al sz :
  0 <= al < 2 ^ 64 ->
  (~ valid_alignment al ->
   posix_memalign e (Ready c h) tid al sz =
   if opt_xmalloc (opts c) then Abort else Ok (EINVAL, None, Ready c h)) /\
  (valid_alignment al -> forall ro m, posix_memalign e (Ready c h) tid al sz <> Ok (EINVAL, ro, m)).
Proof.
  intros Hal. split; [by apply (posix_memalign_rejects c)|]. intros Hv ro m. unfold posix_memalign.
  cbn [malloc_init]. rewrite (proj2 (alignment_test al Hal) Hv). cbn [negb andb].
  destruct (with_heap _ _) as [[[q|] m']| |]; cbn; [| |done|done].
  - unfold check_oom. cbn. by intros [= ].
  - unfold check_oom. cbn. destruct (opt_xmalloc _); by intros [= ].
Qed.

(** malloc_usable_size returns the size of the block for every live block. *)
Theorem usable_size_correct h B p n :
  heap_inv c h B -> B !! p = Some n -> malloc_usable_size (Ready c h) p = Ok n.
Proof. apply (isalloc_ok c). Qed.
End theorems.

(** ** Witnesses: the process of [JExample] *)

(** One step of the client from the initial heap, to the state [h1]. *)
Lemma first_step : rtc (step cfg env) (h0, ∅) (h1, <[small_p := 112]> ∅).
Proof.
  eapply rtc_l; [|apply rtc_refl]. change 112 with (usable_size cfg (request 100)).
  eapply (step_call cfg env h0 ∅ 0 (CMalloc 100) (Some small_p)); [done|apply h1_ok].
Qed.

Lemma client_safety_witness : exists p n, <[small_p := 112]> (∅ : gmap Z Z) !! p = Some n /\ 0 < n.
Proof.
  exists small_p, 112. split; [reflexivity|].
  destruct (client_safety cfg env h0 ∅ h1 (<[small_p := 112]> ∅) (proj2 boot_ok) first_step) as (_ & _ & Hpos & _).
  apply (Hpos small_p). reflexivity.
Defined.

(** After one allocation: a release of the block, an aligned request of size 0 at
    2^63 and, from the first state, a realloc of NULL to size 0. *)
Lemma client_calls_defined_witness :
  let stop := opt_abort (opts cfg) || opt_xmalloc (opts cfg) in
  stop = false /\
  safe stop (perform env (Ready cfg h1) 0 (CFree (Some small_p))) /\
  safe stop (perform env (Ready cfg h1) 0 (CMemalign (2 ^ 63) 0)) /\
  safe stop (perform env (Ready cfg h0) 0 (CRealloc None 0)).
Proof.
  cbv zeta. split; [reflexivity|].
  destruct (client_calls_defined cfg env h0 ∅ h1 (<[small_p := 112]> ∅) (proj2 boot_ok) first_step) as [H1 _].
  destruct (client_calls_defined cfg env h0 ∅ h0 ∅ (proj2 boot_ok) (rtc_refl _ _)) as [H0 _].
  split; [|split].
  - refine (wp_safe _ _ _ (H1 0 (CFree (Some small_p)) _)). exists 112. reflexivity.
  - refine (wp_safe _ _ _ (H1 0 (CMemalign (2 ^ 63) 0) _)). split; split; [lia|reflexivity|lia|reflexivity].
  - refine (wp_safe _ _ _ (H0 0 (CRealloc None 0) _)). split; [exact I|split; [lia|reflexivity]].
Defined.

Lemma malloc_refines_witness :
  exists h', Ready cfg h1 = Ready cfg h' /\ same_data ∅ h0 h' /\
    (∅ : gmap Z Z) !! small_p = None /\ heap_inv cfg h' (<[small_p := usable_size cfg 100]> ∅) /\
    100 <= usable_size cfg 100.
Proof.
  apply (malloc_refines cfg env h0 ∅ 0 100 (Some small_p) (Ready cfg h1) (proj2 boot_ok)); [lia|apply h1_ok].
Defined.

Lemma free_refines_witness :
  exists h', free (Ready cfg h3) (Some large_p) = Ok (Ready cfg h') /\ heap_inv cfg h' (delete large_p blocks).
Proof.
  destruct (free_refines cfg h3 blocks large_p 102400 (proj2 h3_ok)) as (h' & E & Hinv & _);
    [reflexivity|reflexivity|]. exists h'. split; [exact E|exact Hinv].
Defined.

(** The result of a call, if it returned. *)
Definition result {A B} (o : outcome (A * B)) (d : A) : A := match o with Ok (a, _) => a | _ => d end.
Definition final {A} (o : outcome (A * mstate)) : heap :=
  match o with Ok (_, m) => the_heap m | _ => no_heap end.

(** A call that returns leaves the allocator ready. *)
Definition returned {A} (o : outcome (A * mstate)) : bool :=
  match o with Ok (_, Ready _ _) => true | _ => false end.

Lemma returned_eq {A} (o : outcome (A * mstate)) (d : A) :
  returned o = true -> exists m, o = Ok (result o d, m).
Proof. destruct o as [[a m]| |]; cbn; [|done|done]. by exists m. Qed.

Lemma realloc_refines_witness :
  exists m, realloc env (Ready cfg h3) 0 (Some small_p) 5000 = Ok (Some 1163264, m) /\
  exists h', m = Ready cfg h' /\ realloc_spec cfg h3 blocks small_p 112 5000 (Some 1163264, h').
Proof.
  destruct (returned_eq (realloc env (Ready cfg h3) 0 (Some small_p) 5000) None) as [m E]; [vm_compute; reflexivity|].
  assert (E1 : result (realloc env (Ready cfg h3) 0 (Some small_p) 5000) None = Some 1163264) by (vm_compute; reflexivity).
  rewrite E1 in E. exists m. split; [exact E|].
  apply (realloc_refines cfg env h3 blocks 0 small_p 112 5000 (Some 1163264) m (proj2 h3_ok));
    [reflexivity|lia|exact E].
Defined.

Lemma calloc_refines_witness :
  exists m, calloc env (Ready cfg h3) 0 10 50 = Ok (Some 1163776, m) /\
  exists h', m = Ready cfg h' /\ malloc_spec cfg h3 blocks 500 (Some 1163776, h') /\
    10 * 50 < 2 ^ 64 /\ forall x, in_range 1163776 500 x -> vm_read (kernel (lower h')) x = 0.
Proof.
  destruct (returned_eq (calloc env (Ready cfg h3) 0 10 50) None) as [m E]; [vm_compute; reflexivity|].
  assert (E1 : result (calloc env (Ready cfg h3) 0 10 50) None = Some 1163776) by (vm_compute; reflexivity).
  rewrite E1 in E. exists m. split; [exact E|].
  apply (calloc_refines cfg env h3 blocks 0 10 50 (Some 1163776) m (proj2 h3_ok)); [lia|lia|exact E].
Defined.

(** An aligned allocation that [arena_palloc] serves: 8 KiB at a 16 KiB boundary. *)
Lemma posix_memalign_refines_witness :
  exists m, posix_memalign env (Ready cfg h3) 0 (2 ^ 14) 8192 = Ok (0, Some 1163264, m) /\
  exists h', m = Ready cfg h' /\ same_data blocks h3 h' /\
    0 = 0 /\ 1163264 mod 2 ^ 14 = 0 /\
    exists n, 8192 <= n /\ blocks !! 1163264 = None /\ heap_inv cfg h' (<[1163264 := n]> blocks).
Proof.
  destruct (returned_eq (posix_memalign env (Ready cfg h3) 0 (2 ^ 14) 8192) (0, None)) as [m E]; [vm_compute; reflexivity|].
  assert (E1 : result (posix_memalign env (Ready cfg h3) 0 (2 ^ 14) 8192) (0, None) = (0, Some 1163264)) by (vm_compute; reflexivity).
  rewrite E1 in E. exists m. split; [exact E|].
  apply (posix_memalign_refines cfg env h3 blocks 0 14 8192 0 (Some 1163264) m (proj2 h3_ok)); [lia|lia|exact E].
Defined.

Lemma posix_memalign_invalid_witness :
  posix_memalign env (Ready cfg h3) 0 24 100 = Ok (EINVAL, None, Ready cfg h3).
Proof.
  apply (posix_memalign_invalid cfg env h3 0 24 100); [lia|].
  intros (k & Hk & E). assert (k <= 5) by (apply (pow2_exp_le cfg); [lia|rewrite <- E; lia]).
  assert (k = 3 \/ k = 4 \/ k = 5) as [-> | [-> | ->]] by lia; discriminate E.
Defined.

Lemma usable_size_correct_witness : malloc_usable_size (Ready cfg h3) huge_p = Ok 3145728.
Proof. apply (usable_size_correct cfg h3 blocks); [apply h3_ok|reflexivity]. Defined.
