(* ===== verification/JParts.v ===== *)
(** * jalloc: the properties of the parts

    Settings, size classes, runs, page maps, chunks and huge objects of
    [src/util/private/jalloc/malloc.c], one theorem per contract, with witnesses. *)

From Stdlib Require Import ZArith Lia Bool String.
From stdpp Require Import base numbers gmap relations list.
From S2P Require Import Prelude JConfig JRun JBin JMap JChunk JArena JPages JHeap JApi JSpec JAlign JClient JVm JExample.

(** ** Initialisation *)

(** from an empty process, with any readable page size of 4 to 32 KiB, any
    option strings that keep the chunk within 4 GiB and do not shift the arena
    count by a negative amount, [malloc_init_hard] has no undefined behaviour,
    and when it succeeds the settings are well formed and the heap satisfies its
    invariant with no block. *)
Theorem init_establishes {V : VM} (e : environ) {VS : VMSpec V (pagesize (config_of e))} s :
  environ_ok e -> vm_ok (kernel s) ->
  safe (opt_abort (opts (config_of e))) (malloc_init_hard e default_options s) /\
  forall m, malloc_init_hard e default_options s = Ok (false, m) ->
    config_ok (config_of e) /\ exists h, m = Ready (config_of e) h /\ heap_inv (config_of e) h ∅.
Proof.
  intros He Hv. pose proof (malloc_init_hard_ok e He s Hv) as Hw. split; [by eapply wp_safe|].
  intros m E. split; [by apply config_of_ok|]. exact (wp_ok _ _ _ _ Hw E).
Qed.

Lemma init_establishes_witness : config_ok cfg /\ exists h, Ready cfg h0 = Ready cfg h /\ heap_inv cfg h ∅.
Proof. apply (init_establishes env boot_state env_ok boot_state_ok), boot_ok. Defined.

(** Whatever characters the option sources hold, the exponents of the quantum,
    of the largest quantum-spaced class and of the chunk stay in range, and the
    settings computed from them are consistent (bins counted, masks one less than
    powers of two, the chunk header within the chunk) when the chunk is at most
    4 GiB. *)
Theorem options_keep_settings p a b d :
  12 <= p <= 15 ->
  let o := parse_sources p default_options a b d in
  opts_ok p o /\ (opt_chunk_2pow o <= 32 -> config_ok (init_settings (2 ^ p) o)).
Proof.
  intros Hp. cbv zeta. pose proof (parse_sources_ok p default_options a b d Hp (default_options_ok p Hp)) as Ho.
  split; [done|]. by apply init_settings_ok_aux.
Qed.

Lemma options_keep_settings_witness :
  opts_ok 12 (parse_sources 12 default_options None (Some "AjkKQqSsssnN<>"%string) None).
Proof. apply (options_keep_settings 12); lia. Defined.

(** ** Size classes *)

(** [pow2_ceil] returns the least power of two that is not less than its
    argument, for every argument up to 2^63. *)
Theorem pow2_ceil_least x :
  1 <= x <= 2 ^ 63 ->
  exists n, pow2_ceil x = 2 ^ n /\ 0 <= n /\ x <= 2 ^ n /\ forall m, 0 <= m -> x <= 2 ^ m -> 2 ^ n <= 2 ^ m.
Proof.
  intros Hx. destruct (pow2_ceil_bounds x Hx) as (n & Hn & E & Hle & Hlt). exists n. do 3 (split; [done || lia|]).
  intros m Hm Hxm. apply pow2_le_mono. split; [lia|]. destruct (Z.le_gt_cases n m) as [|Hgt]; [done|].
  specialize (Hlt ltac:(lia)). pose proof (pow2_le_mono m (n - 1) ltac:(lia)). lia.
Qed.

(** Every small request is mapped to the smallest size class that holds it. *)
Theorem size2bin_smallest_class c {Hok : config_ok c} sz :
  1 <= sz <= bin_maxclass c ->
  let i := fst (size2bin c sz) in
  0 <= i < nbins c /\ sz <= bin_reg_size c i /\ (0 < i -> bin_reg_size c (i - 1) < sz).
Proof. apply (size2bin_best_fit c). Qed.

Lemma size2bin_smallest_class_witness : bin_reg_size cfg (fst (size2bin cfg 100) - 1) < 100.
Proof. apply (size2bin_smallest_class cfg 100); [vm_compute; split; discriminate|reflexivity]. Defined.

(** [calloc] refuses exactly the products that do not fit a [size_t]: the test
    on the halves of the operands and the division give the exact answer. *)
Theorem calloc_overflow_exact sysv num sz :
  0 <= num < 2 ^ 64 -> 0 <= sz < 2 ^ 64 ->
  calloc_size sysv num sz =
  if num * sz =? 0 then (if sysv then None else Some 1)
  else if num * sz <? 2 ^ 64 then Some (num * sz) else None.
Proof. apply calloc_size_ok. Qed.

Lemma calloc_overflow_exact_witness : calloc_size false (2 ^ 33) (2 ^ 31) = None.
Proof. rewrite (calloc_overflow_exact false (2 ^ 33) (2 ^ 31)); [reflexivity|lia|lia]. Defined.

(** ** Small runs *)

(** the run geometry chosen for a bin holds as many regions as any header and
    region count can in the run, the regions fill the run to its end, the run is
    a whole number of pages, at most 32 KiB and at most the largest arena object;
    the expansion loop terminates. *)
Theorem run_size_calc_optimal c {Hok : config_ok c} b min_run :
  2 <= reg_size b <= pagesize c / 2 -> pagesize c <= min_run -> min_run mod pagesize c = 0 ->
  min_run <= arena_maxclass c -> min_run <= RUN_MAX_SMALL ->
  exists b', arena_bin_run_size_calc c b min_run = Some b' /\
    reg_size b' = reg_size b /\ min_run <= run_size b' <= arena_maxclass c /\ run_size b' <= RUN_MAX_SMALL /\
    run_size b' mod pagesize c = 0 /\ reg0_offset b' + nregs b' * reg_size b = run_size b' /\
    fits (run_size b') (reg_size b) (nregs b') /\
    forall m, fits (run_size b') (reg_size b) m -> m <= nregs b'.
Proof.
  intros H1 H2 H3 H4 H5. destruct (arena_bin_run_size_calc_spec c b min_run H1 H2 H3 H4 H5)
    as (b' & E & _ & _ & Er & Hle & R1 & R2 & R3 & R4 & R5 & _ & R7).
  exists b'. split_and!; try done. lia.
Qed.

Lemma run_size_calc_optimal_witness :
  exists b', arena_bin_run_size_calc cfg (mk_bin None [] 16 0 0 0 0) 4096 = Some b' /\ 4096 <= run_size b'.
Proof.
  destruct (run_size_calc_optimal cfg (mk_bin None [] 16 0 0 0 0) 4096) as (b' & E & _ & Hle & _);
    try (vm_compute; repeat split; congruence). exists b'. split; [exact E|apply Hle].
Defined.

(** The 16-byte bin of the default settings. *)
Definition bin16 : arena_bin := mk_bin None [] 16 8192 504 16 128.

Lemma bin16_geom : bin_geom bin16.
Proof. split; vm_compute; try reflexivity; discriminate. Qed.

Lemma class16 : class_size (reg_size bin16).
Proof. split; [cbn; lia|]. right. by exists 1. Qed.

(** allocating from a run that has a free region succeeds, returns the lowest
    free region and marks only that one; freeing the address it returned finds
    the same region by multiplication with the inverse of the size and restores
    the set of free regions and the invariant. *)
Theorem region_roundtrip b run r :
  bin_geom b -> class_size (reg_size b) -> run_inv b r -> 0 < nfree r ->
  0 <= run -> run + run_size b < 2 ^ 64 ->
  exists reg r1 r2,
    arena_bin_malloc_easy run r b = Some (Some (reg_addr run b reg), r1) /\
    0 <= reg < nregs b /\ reg_free r reg = true /\
    (forall x, 0 <= x < reg -> reg_free r x = false) /\
    (forall x, 0 <= x < nregs b -> reg_free r1 x = if decide (x = reg) then false else reg_free r x) /\
    nfree r1 = nfree r - 1 /\ run_inv b r1 /\
    arena_run_reg_dalloc run r1 b (reg_addr run b reg) (reg_size b) = Some r2 /\
    (forall x, 0 <= x < nregs b -> reg_free r2 x = reg_free r x) /\
    run_inv b (set_nfree r2 (nfree r1 + 1)).
Proof.
  intros Hg Hc Hinv Hn Hr Hend.
  destruct (arena_bin_malloc_easy_ok b Hg run r Hinv Hn)
    as (reg & r1 & E1 & Hreg & Hfree & Hlow & Hupd & Hinv1 & Hn1 & _).
  assert (Hbusy : reg_free r1 reg = false) by (rewrite Hupd by done; by rewrite decide_True).
  destruct (arena_run_reg_dalloc_ok b Hg Hc run r1 reg Hinv1 Hr Hend Hreg Hbusy)
    as (r2 & E2 & Hupd2 & _ & _ & _ & Hinv2).
  exists reg, r1, r2. split_and!; try done; try lia.
  intros x Hx. rewrite Hupd2 by done. case_decide as Ex; [by subst x|]. rewrite Hupd by done. by rewrite decide_False.
Qed.

Lemma region_roundtrip_witness :
  exists reg r1 r2, arena_bin_malloc_easy 4096 (arena_run_init 3 bin16) bin16 = Some (Some (reg_addr 4096 bin16 reg), r1) /\
    arena_run_reg_dalloc 4096 r1 bin16 (reg_addr 4096 bin16 reg) 16 = Some r2.
Proof.
  destruct (region_roundtrip bin16 4096 (arena_run_init 3 bin16) bin16_geom class16)
    as (reg & r1 & r2 & E1 & _ & _ & _ & _ & _ & _ & E2 & _).
  - apply (arena_run_init_ok bin16 bin16_geom).
  - reflexivity.
  - lia.
  - reflexivity.
  - exists reg, r1, r2. split; [exact E1|exact E2].
Defined.

(** the region index that [arena_run_reg_dalloc] computes with a shift or a
    table of rounded-up inverses is the exact quotient, for every size class and
    every offset inside a run. *)
Theorem region_index_is_division size k :
  class_size size -> 0 <= k -> k * size < 2 ^ 15 -> reg_index size (k * size) = Some k.
Proof. apply reg_index_exact. Qed.

Lemma region_index_is_division_witness : reg_index 48 (100 * 48) = Some 100.
Proof. apply (region_index_is_division 48 100); [|lia|reflexivity]. split; [lia|]. right. exists 3. reflexivity. Defined.

(** A new run has all its regions free and satisfies the run invariant, and
    its mask array, with the word that the code writes one element past the last
    used one, stays before the first region. *)
Theorem new_run_ready b bin_ind :
  bin_geom b ->
  run_inv b (arena_run_init bin_ind b) /\ nfree (arena_run_init bin_ind b) = nregs b /\
  (forall x, 0 <= x < nregs b -> reg_free (arena_run_init bin_ind b) x = true) /\
  offsetof_regs_mask + sizeof_unsigned * zlen (regs_mask (arena_run_init bin_ind b)) <= reg0_offset b.
Proof.
  intros Hg. destruct (arena_run_init_ok b Hg bin_ind) as [Hi Hn]. do 2 (split; [done|]).
  split; [intros; by apply arena_run_init_free|]. by apply arena_run_init_extent.
Qed.

Lemma new_run_ready_witness : nfree (arena_run_init 3 bin16) = 504.
Proof. apply (new_run_ready bin16 3 bin16_geom). Defined.

(** ** Page maps *)

Section maps.
Context (c : config) {Hok : config_ok c}.
Local Notation HD := (arena_chunk_header_npages c).

(** Searching a chunk terminates and finds the first free run of at least
    [need] pages; when there is none the cached maximum becomes exact; a chunk
    that the guard skips has no such run, so skipping it loses nothing. *)
Theorem chunk_search_first_fit ch l need :
  chunk_inv c ch l -> 1 <= need <= chunk_npages c - HD ->
  (may_fit c ch need = false -> first_fit need HD l = None) /\
  search_chunk c ch need =
  Some (match first_fit need HD l with
        | Some j => (Some j, ch)
        | None => (None, set_max_frun ch (max_free l))
        end) /\
  (forall j, first_fit need HD l = Some j ->
     exists pre n post, l = pre ++ Free n :: post /\ j = HD + total pre /\ need <= n /\
       Forall (fun s => is_free s = true -> seg_len s < need) pre).
Proof.
  intros Hinv Hn. split; [|split; [by apply (search_chunk_ok c)|apply (first_fit_Some c)]].
  intros E. apply (first_fit_None c); [lia|]. by eapply (may_fit_false c).
Qed.

(** cutting [need] pages off the first free run and releasing a run are
    inverse up to coalescing: the split marks exactly the requested pages as used,
    the release merges the run with both free neighbours, and the chunk invariant
    (map encoding, page count, no two adjacent free runs) holds after each. *)
Theorem run_split_dalloc ch pre n post need :
  chunk_inv c ch (pre ++ Free n :: post) -> 1 <= need <= n ->
  exists ch1 ch2,
    run_split ch (HD + total pre) need = Some ch1 /\
    chunk_inv c ch1 (pre ++ carve need n ++ post) /\ pages_used ch1 = pages_used ch + need /\
    run_dalloc c ch1 (HD + total pre) need = Some ch2 /\
    chunk_inv c ch2 (pre ++ Free n :: post) /\ pages_used ch2 = pages_used ch.
Proof.
  intros Hinv Hneed. destruct (run_split_ok c ch pre n post need Hinv Hneed) as (ch1 & E1 & Hinv1 & _ & _).
  pose proof (ci_coalesced _ _ _ Hinv) as Hco. apply coalesced_free in Hco as (_ & _ & He & Hs).
  assert (Ec : carve need n ++ post = Used need :: opt_free (n - need) ++ post).
  { unfold carve, opt_free. destruct (need <? n) eqn:E1', (0 <? n - need) eqn:E2'; b2p; try lia; done. }
  pose proof Hinv1 as Hinv1'. rewrite Ec in Hinv1'.
  destruct (run_dalloc_ok c ch1 pre 0 need (n - need) post) as (ch2 & E2 & Hinv2 & _); try done; try lia.
  rewrite Z.add_0_r in E2. replace (need + 0 + (n - need)) with n in Hinv2 by lia.
  exists ch1, ch2. split_and!; try done.
  - rewrite (ci_used _ _ _ Hinv), (ci_used _ _ _ Hinv1), !used_pages_app.
    destruct (carve_facts c need n post Hneed) as (_ & -> & _). cbn [used_pages]. lia.
  - by rewrite (ci_used _ _ _ Hinv), (ci_used _ _ _ Hinv2).
Qed.

(** releasing any used run yields a chunk in which it and its free neighbours
    are one free run, and the chunk is recognised as empty ([pages_used] is 0)
    exactly when that run covers all its pages. *)
Theorem run_dalloc_coalesces ch pre n post :
  chunk_inv c ch (pre ++ Used n :: post) ->
  exists ch' pre' a b post',
    0 <= a /\ 0 <= b /\ pre = pre' ++ opt_free a /\ post = opt_free b ++ post' /\
    run_dalloc c ch (HD + total pre) n = Some ch' /\
    chunk_inv c ch' (pre' ++ Free (n + a + b) :: post') /\
    (pages_used ch' = 0 <-> pre' ++ Free (n + a + b) :: post' = [Free (chunk_npages c - HD)]).
Proof.
  intros Hinv. destruct (run_dalloc_any c ch pre n post Hinv)
    as (ch' & pre' & a & b & post' & Ha & Hb & E1 & E2 & E & Hinv' & _).
  exists ch', pre', a, b, post'. split_and!; try done. by apply (empty_chunk c).
Qed.
End maps.

(** The header of a fresh chunk of arena 0. *)
Definition fresh_chunk : arena_chunk :=
  match chunk_init cfg 0 with Some ch => ch | None => mk_chunk 0 0 0 0 [] end.

Definition fresh_pages : Z := chunk_npages cfg - arena_chunk_header_npages cfg.

Lemma fresh_chunk_inv : chunk_inv cfg fresh_chunk ([] ++ Free fresh_pages :: []).
Proof.
  destruct (chunk_init_ok cfg 0) as (ch & E & Hinv & _). unfold fresh_chunk. rewrite E. exact Hinv.
Qed.

Lemma fresh_pages_eq : fresh_pages = 255.
Proof. vm_compute. reflexivity. Qed.

Lemma chunk_search_first_fit_witness :
  search_chunk cfg fresh_chunk 10 = Some (Some 1, fresh_chunk).
Proof.
  destruct (chunk_search_first_fit cfg fresh_chunk [Free fresh_pages] 10) as (_ & E & _).
  - apply fresh_chunk_inv.
  - vm_compute. split; discriminate.
  - rewrite E. vm_compute. reflexivity.
Defined.

Lemma run_split_dalloc_witness :
  exists ch1 ch2, run_split fresh_chunk 1 10 = Some ch1 /\ run_dalloc cfg ch1 1 10 = Some ch2 /\ pages_used ch2 = 0.
Proof.
  destruct (run_split_dalloc cfg fresh_chunk [] fresh_pages [] 10 fresh_chunk_inv) as (ch1 & ch2 & E1 & _ & _ & E2 & _ & Hu).
  - rewrite fresh_pages_eq. lia.
  - exists ch1, ch2. split; [exact E1|]. split; [exact E2|]. rewrite Hu. vm_compute. reflexivity.
Defined.

(** A chunk with one run of ten pages. *)
Lemma used_chunk_inv : exists ch, chunk_inv cfg ch ([] ++ Used 10 :: [Free 245]).
Proof.
  destruct (run_split_ok cfg fresh_chunk [] fresh_pages [] 10 fresh_chunk_inv) as (ch & _ & Hinv & _).
  - rewrite fresh_pages_eq. lia.
  - exists ch. rewrite fresh_pages_eq in Hinv. exact Hinv.
Qed.

Lemma run_dalloc_coalesces_witness : exists ch ch', run_dalloc cfg ch 1 10 = Some ch'.
Proof.
  destruct used_chunk_inv as [ch Hinv].
  destruct (run_dalloc_coalesces cfg ch [] 10 [Free 245] Hinv) as (ch' & pre' & a & b & post' & _ & _ & _ & _ & E & _).
  exists ch, ch'. exact E.
Defined.

(** ** Chunks and huge objects *)

Section chunks.
Context (c : config) {Hok : config_ok c}.
Context {V : VM} {VS : VMSpec V (pagesize c)}.

(** a chunk that [chunk_alloc] returns was not mapped before, is mapped and
    zero now, is aligned to the chunk size, and no remembered old chunk starts
    inside it; what was mapped keeps its contents, and failure changes nothing
    that the program can see. *)
Theorem chunk_alloc_fresh s n ro s' :
  chunks_inv c s -> 0 < n < 2 ^ 64 -> n mod chunksize c = 0 -> chunk_alloc c s n = Ok (ro, s') ->
  keeps (kernel s) (kernel s') /\ huge s' = huge s /\ chunks_inv c s' /\
  match ro with
  | Some r => grants (kernel s) r n (kernel s') /\ r mod chunksize c = 0 /\
              Forall (fun x => ~ in_range r n (chunk x)) (old_chunks s')
  | None => True
  end.
Proof. apply (chunk_alloc_ok c). Qed.

(** Over-aligned huge objects: for every alignment from two chunks to 2^63
    the object is aligned, fresh, and covers the request, whatever part of the
    over-sized mapping had to be returned. *)
Theorem huge_palloc_aligned s k n ro s' :
  chunks_inv c s -> opt_chunk_2pow (opts c) < k <= 63 -> 0 < n -> n + 2 ^ k < 2 ^ 64 ->
  huge_palloc c s (2 ^ k) n = Ok (ro, s') ->
  match ro with
  | Some r => r mod 2 ^ k = 0 /\ n <= CHUNK_CEILING c n /\ huge_placed c s r (CHUNK_CEILING c n) s'
  | None => chunks_inv c s' /\ keeps (kernel s) (kernel s') /\ huge s' = huge s
  end.
Proof. apply (huge_palloc_ok c). Qed.
End chunks.

Lemma boot_chunks : chunks_inv cfg (lower h0).
Proof. destruct boot_ok as [_ (U & K & Hi & _)]. apply Hi. Qed.

Lemma chunk_alloc_fresh_witness :
  exists r s', chunk_alloc cfg (lower h0) (2 ^ 20) = Ok (Some r, s') /\ r mod chunksize cfg = 0.
Proof.
  assert (E : match chunk_alloc cfg (lower h0) (2 ^ 20) with Ok (Some _, _) => true | _ => false end = true)
    by (vm_compute; reflexivity).
  destruct (chunk_alloc cfg (lower h0) (2 ^ 20)) as [[[r|] s']| |] eqn:E1; try discriminate E.
  exists r, s'. split; [reflexivity|].
  apply (chunk_alloc_fresh cfg (lower h0) (2 ^ 20) (Some r) s' boot_chunks); [lia|reflexivity|exact E1].
Defined.

Lemma huge_palloc_aligned_witness :
  exists r s', huge_palloc cfg (lower h0) (2 ^ 22) 5000 = Ok (Some r, s') /\ r mod 2 ^ 22 = 0.
Proof.
  assert (E : match huge_palloc cfg (lower h0) (2 ^ 22) 5000 with Ok (Some _, _) => true | _ => false end = true)
    by (vm_compute; reflexivity).
  destruct (huge_palloc cfg (lower h0) (2 ^ 22) 5000) as [[[r|] s']| |] eqn:E1; try discriminate E.
  exists r, s'. split; [reflexivity|].
  apply (huge_palloc_aligned cfg (lower h0) 22 5000 (Some r) s' boot_chunks); [split; reflexivity || discriminate|lia|lia|exact E1].
Defined.

(** ** What the code does not do *)

(** The run of the 16-byte bin has more header overhead than the maximum the
    code states (0.015), although the settings one page larger are within it: the
    expansion loop stops at the first settings that meet the limit and then keeps
    the ones before them. *)
Theorem overhead_above_maximum :
  exists b n nelms off, (let* a := arena_new cfg in zget (bins a) 3) = Some b /\
    reg_size b = 16 /\ run_size b = 8192 /\ reg0_offset b * 1000 > 15 * run_size b /\
    try_settings (run_size b + pagesize cfg) 16 = Some (n, nelms, off) /\
    off * 1000 <= 15 * (run_size b + pagesize cfg).
Proof.
  exists bin16, 758, 24, 160. split; [vm_compute; reflexivity|].
  split_and!; vm_compute; reflexivity || discriminate.
Qed.

(** [posix_memalign] with size 0 does not honour the alignment: the request
    reaches [arena_malloc] as 0 bytes and is served from the 2-byte bin, so the
    second such block is at an odd multiple of 2. *)
Theorem memalign_zero_misaligned :
  exists p q m1 m2, posix_memalign env (Ready cfg h0) 0 8 0 = Ok (0, Some p, m1) /\
    posix_memalign env m1 0 8 0 = Ok (0, Some q, m2) /\ q mod 8 <> 0.
Proof.
  set (o1 := posix_memalign env (Ready cfg h0) 0 8 0).
  assert (E : match o1 with
              | Ok (0, Some _, m1) =>
                  match posix_memalign env m1 0 8 0 with
                  | Ok (0, Some q, _) => negb (q mod 8 =? 0)
                  | _ => false
                  end
              | _ => false
              end = true) by (vm_compute; reflexivity).
  clearbody o1. destruct o1 as [[[[| |] [p|]] m1]| |]; try discriminate E.
  destruct (posix_memalign env m1 0 8 0) as [[[[| |] [q|]] m2]| |] eqn:E2; try discriminate E.
  exists p, q, m1, m2. split_and!; try done. by apply negb_true_iff, Z.eqb_neq in E.
Qed.
