(* ===== verification/AvlTree.v ===== *)
(** * util: the AVL tree

    Models [TAvlTree] of [src/util/generic/avltree.h], the ordered container of the
    round-robin policies.  The items are intrusive: an item carries its links.  A
    pointer to an item inside the tree is a subtree with the path to the root (the
    [Parent_] links), so that following [Left_], [Right_] and [Parent_], attaching,
    removing and rotating are operations on such locations.  The identity of an item
    is its address.  The owner of an item ([Tree_]) is this tree for the items that
    are linked and for those of [Stale_]: the items that [Insert] has claimed and then
    refused. *)

From Stdlib Require Import ZArith Lia Bool Sorted.
From stdpp Require Import base numbers list.
From S2P Require Import Prelude.

(** ** Data *)

(** [TAvlTreeItem]: the links of an item; a null link is [Leaf]. *)
Inductive tree (A : Type) :=
  | Leaf
  | Node (Left_ : tree A) (item : A) (Height_ : Z) (Right_ : tree A).
Arguments Leaf {A}.
Arguments Node {A} _ _ _ _.

(** One step of [Parent_]: the parent and the other child. *)
Inductive frame (A : Type) :=
  | InLeft (x : A) (h : Z) (Right_ : tree A)
  | InRight (Left_ : tree A) (x : A) (h : Z).
Arguments InLeft {A} _ _ _.
Arguments InRight {A} _ _ _.

(** The members, and the addresses of the items whose [Tree_] is this tree although
    they are not linked. *)
Record TAvlTree (A : Type) := mk_avl { Root_ : tree A; Head_ : option A; Tail_ : option A; Stale_ : list Z }.
Arguments mk_avl {A} _ _ _ _.
Arguments Root_ {A} _.
Arguments Head_ {A} _.
Arguments Tail_ {A} _.
Arguments Stale_ {A} _.

Definition empty_avl {A} : TAvlTree A := mk_avl Leaf None None [].

Section avl.
Context {A : Type} (Compare : A -> A -> bool) (addr : A -> Z).

(** [el ? el->Height_ : 0]. *)
Definition height (t : tree A) : Z := match t with Leaf => 0 | Node _ _ h _ => h end.

Definition new_height (lheight rheight : Z) : Z := (if rheight <? lheight then lheight else rheight) + 1.

Definition unbalanced (lheight rheight : Z) : bool :=
  let balanceProp := lheight - rheight in (balanceProp <? -1) || (1 <? balanceProp).

Definition up1 (t : tree A) (f : frame A) : tree A :=
  match f with InLeft x h r => Node t x h r | InRight l x h => Node l x h t end.

Definition up (t : tree A) (p : list (frame A)) : tree A := fold_left up1 p t.

(** Heights of the two children of the parent, of which one is [h] high. *)
Definition sides (h : Z) (f : frame A) : Z * Z :=
  match f with InLeft _ _ r => (h, height r) | InRight l _ _ => (height l, h) end.

Definition frame_height (f : frame A) : Z := match f with InLeft _ h _ => h | InRight _ _ h => h end.

Definition set_height (f : frame A) (h : Z) : frame A :=
  match f with InLeft x _ r => InLeft x h r | InRight l x _ => InRight l x h end.

Definition frame_item (f : frame A) : A := match f with InLeft x _ _ => x | InRight _ x _ => x end.

(** [RecalcHeights] of the parent of a child that is [h] high. *)
Fixpoint RecalcHeights (h : Z) (p : list (frame A)) : list (frame A) :=
  match p with
  | [] => []
  | f :: p' =>
      let '(lheight, rheight) := sides h f in
      let nh := new_height lheight rheight in
      if nh =? frame_height f then p else set_height f nh :: RecalcHeights nh p'
  end.

(** The first item, from [t] up, whose grandparent is out of balance. *)
Fixpoint FindFirstUnbalGP (t : tree A) (p : list (frame A)) : option (tree A * list (frame A)) :=
  match p with
  | [] => None
  | f1 :: p' =>
      match p' with
      | [] => None
      | f2 :: _ =>
          let par := up1 t f1 in
          let '(lheight, rheight) := sides (height par) f2 in
          if unbalanced lheight rheight then Some (t, p) else FindFirstUnbalGP par p'
      end
  end.

(** A node whose height is computed from its children. *)
Definition node (l : tree A) (x : A) (r : tree A) : tree A := Node l x (new_height (height l) (height r)) r.

(** [Rebalance(n)]: [n], its parent and its grandparent become [b] with the children
    [a] and [c]; the result is the new subtree with the path above it.  Following a
    null link has no defined result. *)
Definition Rebalance (n : tree A) (p : list (frame A)) : option (tree A * list (frame A)) :=
  match n, p with
  | Node nl nx _ nr, f1 :: f2 :: ggp =>
      let b :=
        match f2, f1 with
        | InRight t1 gx _, InRight t2 px _ => node (node t1 gx t2) px (node nl nx nr)
        | InRight t1 gx _, InLeft px _ t4 => node (node t1 gx nl) nx (node nr px t4)
        | InLeft gx _ t4, InRight t1 px _ => node (node t1 px nl) nx (node nr gx t4)
        | InLeft gx _ t4, InLeft px _ t3 => node (node nl nx nr) px (node t3 gx t4)
        end in
      Some (b, RecalcHeights (height b) ggp)
  | _, _ => None
  end.

(** ** Insertion *)

(** The search of [Insert]: the path to the null link where [el] belongs, or
    [None] when an equal item is met. *)
Fixpoint descend (el : A) (t : tree A) (p : list (frame A)) : option (list (frame A)) :=
  match t with
  | Leaf => Some p
  | Node l x h r =>
      if Compare el x then descend el l (InLeft x h r :: p)
      else if Compare x el then descend el r (InRight l x h :: p)
      else None
  end.

Definition is_item (o : option A) (x : A) : bool :=
  match o with Some y => addr y =? addr x | None => false end.

Definition AttachRebal (el : A) (p : list (frame A)) (t : TAvlTree A) : option (TAvlTree A) :=
  let n := Node Leaf el 1 Leaf in
  let head := match p with
              | [] => Some el
              | InLeft x _ _ :: _ => if is_item (Head_ t) x then Some el else Head_ t
              | InRight _ _ _ :: _ => Head_ t
              end in
  let tail := match p with
              | [] => Some el
              | InRight _ x _ :: _ => if is_item (Tail_ t) x then Some el else Tail_ t
              | InLeft _ _ _ :: _ => Tail_ t
              end in
  let p := RecalcHeights 1 p in
  let* root := match FindFirstUnbalGP n p with
               | Some (ub, q) => let* (b, q) := Rebalance ub q in Some (up b q)
               | None => Some (up n p)
               end in
  Some (mk_avl root head tail (Stale_ t)).

(** ** Removal *)

(** Follow [Left_] (or [Right_]) to the end: the item met there, its other child
    and the path to it. *)
Fixpoint leftmost (t : tree A) (p : list (frame A)) : option (A * tree A * list (frame A)) :=
  match t with
  | Leaf => None
  | Node Leaf x _ r => Some (x, r, p)
  | Node l x h r => leftmost l (InLeft x h r :: p)
  end.

Fixpoint rightmost (t : tree A) (p : list (frame A)) : option (A * tree A * list (frame A)) :=
  match t with
  | Leaf => None
  | Node l x _ Leaf => Some (x, l, p)
  | Node l x h r => rightmost r (InRight l x h :: p)
  end.

(** The grandchild of an item out of balance to rotate around. *)
Definition grandchild (ub : tree A) : option (tree A * list (frame A)) :=
  match ub with
  | Leaf => None
  | Node l x h r =>
      if height l <? height r then
        match r with
        | Leaf => None
        | Node rl y hy rr =>
            if height rl <? height rr then Some (rr, [InRight rl y hy; InRight l x h])
            else if height rr <? height rl then Some (rl, [InLeft y hy rr; InRight l x h])
            else Some (rr, [InRight rl y hy; InRight l x h])
        end
      else
        match l with
        | Leaf => None
        | Node ll y hy lr =>
            if height ll <? height lr then Some (lr, [InRight ll y hy; InLeft x h r])
            else if height lr <? height ll then Some (ll, [InLeft y hy lr; InLeft x h r])
            else Some (ll, [InLeft y hy lr; InLeft x h r])
        end
  end.

(** The loop of [EraseImpl] with [FindFirstUnbalEl], from the item [t] up: the new root. *)
Fixpoint fix_unbal (fuel : nat) (t : tree A) (p : list (frame A)) : option (tree A) :=
  match fuel with
  | O => None
  | S fuel =>
      match t with
      | Leaf => None
      | Node l _ _ r =>
          if unbalanced (height l) (height r) then
            let* (n, q) := grandchild t in
            let* (b, ggp) := Rebalance n (q ++ p) in
            match ggp with
            | [] => Some b
            | f :: ggp' => fix_unbal fuel (up1 b f) ggp'
            end
          else
            match p with
            | [] => Some t
            | f :: p' => fix_unbal fuel (up1 t f) p'
            end
      end
  end.

(** Heights and balance after a subtree was replaced by [filler] at [p]. *)
Definition repair (filler : tree A) (p : list (frame A)) : option (tree A) :=
  match RecalcHeights (height filler) p with
  | [] => Some filler
  | f :: p' => fix_unbal (S (length p')) (up1 filler f) p'
  end.

(** [EraseImpl] of the item [x] with the children [l] and [r] at the location [p]. *)
Definition EraseImpl (l : tree A) (x : A) (h : Z) (r : tree A) (p : list (frame A)) (t : TAvlTree A)
  : option (TAvlTree A) :=
  match r, l with
  | Node _ _ _ _, _ =>
      let* (replacement, filler, q) := leftmost r [] in
      let head := if is_item (Head_ t) x then Some replacement else Head_ t in
      let* root := repair filler (q ++ InRight l replacement h :: p) in
      Some (mk_avl root head (Tail_ t) (Stale_ t))
  | Leaf, Node _ _ _ _ =>
      let* (replacement, filler, q) := rightmost l [] in
      let tail := if is_item (Tail_ t) x then Some replacement else Tail_ t in
      let* root := repair filler (q ++ InLeft replacement h r :: p) in
      Some (mk_avl root (Head_ t) tail (Stale_ t))
  | Leaf, Leaf =>
      let parent := match p with [] => None | f :: _ => Some (frame_item f) end in
      let head := if is_item (Head_ t) x then parent else Head_ t in
      let tail := if is_item (Tail_ t) x then parent else Tail_ t in
      let* root := repair Leaf p in
      Some (mk_avl root head tail (Stale_ t))
  end.

(** The item with the address of [el], where its links are. *)
Fixpoint locate (el : A) (t : tree A) (p : list (frame A)) : option (tree A * A * Z * tree A * list (frame A)) :=
  match t with
  | Leaf => None
  | Node l x h r =>
      if addr el =? addr x then Some (l, x, h, r, p)
      else match locate el l (InLeft x h r :: p) with
           | Some z => Some z
           | None => locate el r (InRight l x h :: p)
           end
  end.

(** [Erase]: an item whose [Tree_] is another stays out of it.  For an item that is
    not linked although its [Tree_] is this one the code runs [EraseImpl] on links that
    are null or left from an earlier place; that has no result here. *)
Definition Erase (el : A) (t : TAvlTree A) : option (TAvlTree A) :=
  match locate el (Root_ t) [] with
  | Some (l, x, h, r, p) => EraseImpl l x h r p t
  | None => if existsb (Z.eqb (addr el)) (Stale_ t) then None else Some t
  end.

(** [Insert]: unlinks the item and sets its [Tree_] first, then attaches it; the
    boolean tells whether it was attached.  [Tree_] stays set when it was not. *)
Definition Insert (el : A) (t : TAvlTree A) : option (bool * TAvlTree A) :=
  let* t := Erase el t in
  match descend el (Root_ t) [] with
  | Some p => let* t := AttachRebal el p t in Some (true, t)
  | None => Some (false, mk_avl (Root_ t) (Head_ t) (Tail_ t) (addr el :: Stale_ t))
  end.

(** [Begin]. *)
Definition Begin (t : TAvlTree A) : option A := Head_ t.

(** [Find] and [LowerBound]: the loops from the root; [lowerBound] is the last item
    that [el] is below. *)
Fixpoint find_loop (el : A) (t : tree A) : option A :=
  match t with
  | Leaf => None
  | Node l x _ r => if Compare el x then find_loop el l else if Compare x el then find_loop el r else Some x
  end.

Definition Find (el : A) (t : TAvlTree A) : option A := find_loop el (Root_ t).

Fixpoint lower_loop (el : A) (t : tree A) (lowerBound : option A) : option A :=
  match t with
  | Leaf => lowerBound
  | Node l x _ r =>
      if Compare el x then lower_loop el l (Some x)
      else if Compare x el then lower_loop el r lowerBound
      else Some x
  end.

Definition LowerBound (el : A) (t : TAvlTree A) : option A := lower_loop el (Root_ t) None.

(** ** Invariant *)

(** Every stored height is right and the children differ by at most one. *)
Fixpoint balanced (t : tree A) : Prop :=
  match t with
  | Leaf => True
  | Node l _ h r => balanced l /\ balanced r /\ h = Z.max (height l) (height r) + 1 /\
                    -1 <= height l - height r <= 1
  end.

(** The part of a balanced tree above a subtree of height [h]. *)
Fixpoint path_ok (h : Z) (p : list (frame A)) : Prop :=
  match p with
  | [] => True
  | InLeft _ hx r :: p' => balanced r /\ hx = Z.max h (height r) + 1 /\ -1 <= h - height r <= 1 /\ path_ok hx p'
  | InRight l _ hx :: p' => balanced l /\ hx = Z.max (height l) h + 1 /\ -1 <= height l - h <= 1 /\ path_ok hx p'
  end.

(** The items in order. *)
Fixpoint elements (t : tree A) : list A :=
  match t with Leaf => [] | Node l x _ r => elements l ++ x :: elements r end.

Fixpoint before (p : list (frame A)) : list A :=
  match p with
  | [] => []
  | InLeft _ _ _ :: p' => before p'
  | InRight l x _ :: p' => before p' ++ elements l ++ [x]
  end.

Fixpoint after (p : list (frame A)) : list A :=
  match p with
  | [] => []
  | InLeft x _ r :: p' => x :: elements r ++ after p'
  | InRight _ _ _ :: p' => after p'
  end.

Lemma new_height_max a b : new_height a b = Z.max a b + 1.
Proof. unfold new_height. destruct (b <? a) eqn:E; b2p; lia. Qed.

Lemma unbalanced_iff a b : unbalanced a b = false <-> -1 <= a - b <= 1.
Proof. unfold unbalanced. destruct (a - b <? -1) eqn:E1, (1 <? a - b) eqn:E2; cbn; b2p; split; intros; try lia; congruence. Qed.

Lemma height_nonneg t : balanced t -> 0 <= height t.
Proof. induction t as [|l IHl x h r IHr]; cbn; [lia|]. intros (Hl & Hr & -> & _). specialize (IHl Hl). lia. Qed.

Lemma up_cons t f p : up t (f :: p) = up (up1 t f) p.
Proof. done. Qed.

Lemma up_balanced p t : balanced (up t p) <-> balanced t /\ path_ok (height t) p.
Proof.
  revert t. induction p as [|f p IH]; intros t; [cbn; tauto|]. rewrite up_cons, IH.
  destruct f as [x h r|l x h]; cbn; tauto.
Qed.

Lemma elements_up p t : elements (up t p) = before p ++ elements t ++ after p.
Proof.
  revert t. induction p as [|f p IH]; intros t; [cbn; by rewrite app_nil_r|]. rewrite up_cons, IH.
  destruct f as [x h r|l x h]; cbn; by rewrite <- ?app_assoc.
Qed.

(** ** Heights along a path *)

(** Forgetting the heights. *)
Fixpoint shape (p : list (frame A)) : list (frame A) :=
  match p with [] => [] | f :: p' => set_height f 0 :: shape p' end.

Lemma before_shape p : before (shape p) = before p.
Proof. induction p as [|[x h r|l x h] p IH]; cbn; by rewrite ?IH. Qed.

Lemma after_shape p : after (shape p) = after p.
Proof. induction p as [|[x h r|l x h] p IH]; cbn; by rewrite ?IH. Qed.

Lemma RecalcHeights_shape p : forall h, shape (RecalcHeights h p) = shape p.
Proof.
  induction p as [|f p IH]; intros h; [done|]. cbn. destruct (sides h f) as [a b].
  destruct (_ =? _); [done|]. cbn. rewrite IH. by destruct f.
Qed.

Lemma RecalcHeights_items h p :
  before (RecalcHeights h p) = before p /\ after (RecalcHeights h p) = after p.
Proof.
  rewrite <- (before_shape (RecalcHeights h p)), <- (after_shape (RecalcHeights h p)), RecalcHeights_shape.
  by rewrite before_shape, after_shape.
Qed.

Lemma RecalcHeights_id h p : path_ok h p -> RecalcHeights h p = p.
Proof.
  destruct p as [|[x hx r|l x hx] p]; cbn; [done| |]; intros (_ & -> & _); rewrite new_height_max; by rewrite Z.eqb_refl.
Qed.

(** The stored height of the first frame may be stale, those above it follow it. *)
Lemma RecalcHeights_cons h f p :
  path_ok (frame_height f) p ->
  let nh := new_height (fst (sides h f)) (snd (sides h f)) in
  RecalcHeights h (f :: p) = set_height f nh :: RecalcHeights nh p.
Proof.
  intros Hp. cbn. destruct (sides h f) as [a b]. cbn. destruct (_ =? _) eqn:E; [|done]. b2p. rewrite E.
  rewrite RecalcHeights_id by done. by destruct f.
Qed.

(** Recomputing the heights again, for the old height of the subtree, restores them. *)
Lemma RecalcHeights_undo p : forall h h', path_ok h p -> RecalcHeights h (RecalcHeights h' p) = p.
Proof.
  induction p as [|f p IH]; intros h h' Hp; [done|].
  assert (Hf : path_ok (frame_height f) p /\ frame_height f = new_height (fst (sides h f)) (snd (sides h f))).
  { destruct f; cbn in *; rewrite new_height_max; tauto. }
  destruct Hf as [Hf E]. rewrite (RecalcHeights_cons h' f p Hf). set (nh' := new_height _ _).
  cbn [RecalcHeights]. replace (sides h (set_height f nh')) with (sides h f) by by destruct f.
  destruct (sides h f) as [a b]. cbn in E. rewrite <- E.
  replace (frame_height (set_height f nh')) with nh' by by destruct f.
  destruct (_ =? _) eqn:E1; b2p.
  - rewrite <- E1, RecalcHeights_id by done. by destruct f.
  - rewrite IH by done. by destruct f.
Qed.

(** ** Rotations *)

Ltac heights := cbn in *; rewrite ?new_height_max in *; split_and?; try done; try lia; try tauto.

Lemma Rebalance_elements n p b q : Rebalance n p = Some (b, q) -> elements (up b q) = elements (up n p).
Proof.
  destruct n as [|nl nx nh nr], p as [|f1 [|f2 g]]; try done. cbn [Rebalance].
  destruct f2 as [gx gh t4|t1 gx gh], f1 as [px ph t|t px ph]; intros [= <- <-];
    rewrite !up_cons, !elements_up, !(proj1 (RecalcHeights_items _ _)), !(proj2 (RecalcHeights_items _ _));
    f_equal; cbn; by repeat (rewrite <- ?app_assoc; cbn).
Qed.

Lemma FindFirstUnbalGP_up p : forall t ub q, FindFirstUnbalGP t p = Some (ub, q) -> up ub q = up t p.
Proof.
  induction p as [|f1 p IH]; intros t ub q; [done|]. destruct p as [|f2 p]; [done|]. cbn -[up].
  destruct (sides _ f2) as [a b]. destruct (unbalanced a b); [by intros [= <- <-]|]. intros E.
  by rewrite (up_cons t), <- (IH _ _ _ E).
Qed.

Lemma FindFirstUnbalGP_none p : forall t, balanced (up t p) -> FindFirstUnbalGP t p = None.
Proof.
  induction p as [|f1 p IH]; intros t H; [done|]. destruct p as [|f2 p]; [done|].
  rewrite up_cons in H. specialize (IH _ H). cbn -[up] in *.
  apply up_balanced in H as [_ H].
  assert (E : let '(a, b) := sides (height (up1 t f1)) f2 in unbalanced a b = false).
  { destruct f2; cbn [sides path_ok] in *; apply unbalanced_iff; tauto. }
  destruct (sides _ f2) as [a b]. by rewrite E.
Qed.

Definition other (f : frame A) : tree A := match f with InLeft _ _ r => r | InRight l _ _ => l end.

(** A rotation around a grandchild restores the height that the subtree had before
    it grew. *)
Lemma Rebalance_grown n f1 f2 h p :
  balanced (up1 n f1) -> height (up1 n f1) = h + 1 -> height n = h -> height (other f1) = h - 1 ->
  balanced (other f2) -> height (other f2) = h - 1 -> 1 <= h ->
  exists b, Rebalance n (f1 :: f2 :: p) = Some (b, RecalcHeights (h + 1) p) /\ balanced b /\ height b = h + 1.
Proof.
  intros Hb Hh Hn Ho Hb2 Ho2 Hpos. destruct n as [|nl nx nh nr]; [cbn in *; lia|].
  enough (exists b, Rebalance (Node nl nx nh nr) (f1 :: f2 :: p) = Some (b, RecalcHeights (height b) p) /\
            balanced b /\ height b = h + 1) as (b & E & Hb' & E') by (exists b; by rewrite <- E').
  destruct f1 as [px ph t|t px ph], f2 as [gx gh t'|t' gx gh]; cbn in Hb, Hh, Hn, Ho, Hb2, Ho2;
    destruct Hb as (Hb & Hb' & E & Hr); try destruct Hb as (? & ? & ? & ?); try destruct Hb' as (? & ? & ? & ?);
    (eexists; split; [reflexivity|]; heights).
Qed.

Lemma grow_up p : forall n f1 h,
  balanced (up1 n f1) -> height (up1 n f1) = h + 1 -> height n = h -> height (other f1) = h - 1 -> 1 <= h ->
  path_ok h p ->
  match FindFirstUnbalGP n (f1 :: RecalcHeights (h + 1) p) with
  | Some (ub, q) => exists b q', Rebalance ub q = Some (b, q') /\ balanced (up b q')
  | None => balanced (up n (f1 :: RecalcHeights (h + 1) p))
  end.
Proof.
  induction p as [|f2 p IH]; intros n f1 h Hb Hh Hn Ho Hpos Hp; [done|].
  assert (Hf : balanced (other f2) /\ frame_height f2 = Z.max h (height (other f2)) + 1 /\
               -1 <= h - height (other f2) <= 1 /\ path_ok (frame_height f2) p).
  { destruct f2; cbn in *; intuition lia. }
  destruct Hf as (Hb2 & Eh & Hd & Hp2). rewrite RecalcHeights_cons by done.
  assert (En : new_height (fst (sides (h + 1) f2)) (snd (sides (h + 1) f2)) = Z.max (h + 1) (height (other f2)) + 1).
  { rewrite new_height_max. destruct f2; cbn; lia. }
  rewrite En. set (nh := Z.max (h + 1) _ + 1). set (f2' := set_height f2 nh).
  assert (Hs : sides (height (up1 n f1)) f2' = sides (h + 1) f2) by (rewrite Hh; by destruct f2).
  destruct (decide (height (other f2) = h - 1)) as [El|Hne].
  - cbn [FindFirstUnbalGP]. rewrite Hs.
    assert (Hu : let '(a, b) := sides (h + 1) f2 in unbalanced a b = true).
    { destruct f2; cbn in *; unfold unbalanced; apply orb_true_iff; [right|left]; apply Z.ltb_lt; lia. }
    destruct (sides (h + 1) f2) as [a b]. rewrite Hu.
    destruct (Rebalance_grown n f1 f2' h (RecalcHeights nh p)) as (b' & E & Hb' & Hhb); try done; try by destruct f2.
    rewrite E. eexists _, _. split; [done|]. rewrite RecalcHeights_undo by (by replace (h + 1) with (frame_height f2) by lia).
    apply up_balanced. split; [done|]. by replace (height b') with (frame_height f2) by lia.
  - assert (Hup : balanced (up1 (up1 n f1) f2')).
    { subst f2' nh. destruct f2; cbn in *; intuition lia. }
    destruct (decide (height (other f2) = h)) as [Ee|Hne2].
    + assert (Hd2 : FindFirstUnbalGP n (f1 :: f2' :: RecalcHeights nh p) = FindFirstUnbalGP (up1 n f1) (f2' :: RecalcHeights nh p)).
      { cbn [FindFirstUnbalGP]. rewrite Hs.
        assert (Hu : let '(a, b) := sides (h + 1) f2 in unbalanced a b = false) by (destruct f2; cbn in *; apply unbalanced_iff; lia).
        destruct (sides (h + 1) f2) as [a b]. by rewrite Hu. }
      rewrite Hd2, (up_cons n). replace nh with (h + 1 + 1) by lia.
      apply IH; try done; try lia; try (subst f2' nh; destruct f2; cbn in *; lia).
      by replace (h + 1) with (frame_height f2) by lia.
    + assert (Hall : balanced (up n (f1 :: f2' :: RecalcHeights nh p))).
      { rewrite 2!up_cons. apply up_balanced. split; [done|].
        replace (height (up1 (up1 n f1) f2')) with (frame_height f2) by (subst f2' nh; destruct f2; cbn in *; lia).
        replace nh with (frame_height f2) by lia. by rewrite RecalcHeights_id. }
      by rewrite FindFirstUnbalGP_none.
Qed.
(** An item whose children are balanced, in a tree that was [h0] high there before
    one child lost at most one level. *)
Definition nearly (h0 : Z) (t : tree A) : Prop :=
  match t with
  | Leaf => False
  | Node l _ h r =>
      balanced l /\ balanced r /\ h = Z.max (height l) (height r) + 1 /\ h0 - 1 <= h <= h0 /\
      -2 <= height l - height r <= 2 /\ (~ -1 <= height l - height r <= 1 -> h = h0)
  end.

Lemma nearly_up h0 s f p :
  balanced s -> h0 - 1 <= height s <= h0 -> path_ok h0 (f :: p) ->
  exists f', RecalcHeights (height s) (f :: p) = f' :: RecalcHeights (height (up1 s f')) p /\
    nearly (frame_height f) (up1 s f') /\ path_ok (frame_height f) p.
Proof.
  intros Hs Hh Hp. assert (Hp' : path_ok (frame_height f) p) by (destruct f; cbn in Hp; tauto).
  exists (set_height f (new_height (fst (sides (height s) f)) (snd (sides (height s) f)))).
  rewrite RecalcHeights_cons by done. split; [by destruct f|]. split; [|done].
  destruct f as [x hx r|l x hx]; cbn in Hp |- *; destruct Hp as (Hr & -> & Hd & _); heights.
Qed.

Lemma rotate_ok h0 t p :
  nearly h0 t -> (match t with Leaf => True | Node l _ _ r => unbalanced (height l) (height r) = true end) ->
  exists n q b, grandchild t = Some (n, q) /\ Rebalance n (q ++ p) = Some (b, RecalcHeights (height b) p) /\
    balanced b /\ h0 - 1 <= height b <= h0 /\ height t = h0.
Proof.
  destruct t as [|l x h r]; [done|]. intros (Hl & Hr & Eh & Hh & Hd & Hx) Hu.
  assert (Hn : ~ -1 <= height l - height r <= 1) by (intros H; apply unbalanced_iff in H; congruence).
  specialize (Hx Hn). pose proof (height_nonneg l Hl). pose proof (height_nonneg r Hr). cbn [grandchild].
  destruct (height l <? height r) eqn:E; b2p.
  - destruct r as [|rl y hy rr]; [cbn in *; lia|]. destruct Hr as (Hrl & Hrr & -> & Hdr). cbn [height] in *.
    pose proof (height_nonneg rl Hrl). pose proof (height_nonneg rr Hrr).
    destruct (height rl <? height rr) eqn:E1; [|destruct (height rr <? height rl) eqn:E2]; b2p;
      (destruct rr as [|a z hz c]; [try (cbn in *; lia)|]); try (destruct rl as [|a' z' hz' c']; [cbn in *; lia|]);
      cbn [balanced] in *; do 3 eexists; (split; [reflexivity|]; split; [reflexivity|]); heights.
  - destruct l as [|ll y hy lr]; [cbn in *; lia|]. destruct Hl as (Hll & Hlr & -> & Hdl). cbn [height] in *.
    pose proof (height_nonneg ll Hll). pose proof (height_nonneg lr Hlr).
    destruct (height ll <? height lr) eqn:E1; [|destruct (height lr <? height ll) eqn:E2]; b2p;
      (destruct ll as [|a z hz c]; [try (cbn in *; lia)|]); try (destruct lr as [|a' z' hz' c']; [cbn in *; lia|]);
      cbn [balanced] in *; do 3 eexists; (split; [reflexivity|]; split; [reflexivity|]); heights.
Qed.

Lemma fix_unbal_ok fuel : forall p t h0,
  nearly h0 t -> path_ok h0 p -> (length p < fuel)%nat ->
  exists t', fix_unbal fuel t (RecalcHeights (height t) p) = Some t' /\ balanced t'.
Proof.
  induction fuel as [|fuel IH]; intros p t h0 Hn Hp Hf; [lia|].
  (* The rest of the loop, above a subtree that is balanced now. *)
  assert (Hgo : forall s, balanced s -> h0 - 1 <= height s <= h0 ->
            exists t', match RecalcHeights (height s) p with
                       | [] => Some s
                       | f :: p' => fix_unbal fuel (up1 s f) p'
                       end = Some t' /\ balanced t').
  { intros s Hs Hhs. destruct p as [|f p]; [by exists s|].
    destruct (nearly_up h0 s f p Hs Hhs Hp) as (f' & -> & Hn' & Hp'). apply (IH _ _ _ Hn' Hp'). cbn in Hf. lia. }
  destruct t as [|l x h r]; [done|]. cbn [fix_unbal].
  destruct (unbalanced (height l) (height r)) eqn:Eu.
  - destruct (rotate_ok h0 (Node l x h r) p Hn Eu) as (n & q & b & -> & E & Hb & Hhb & Eh).
    rewrite Eh, RecalcHeights_id by done. rewrite E. by apply Hgo.
  - apply unbalanced_iff in Eu. apply (Hgo (Node l x h r)); cbn in *; intuition lia.
Qed.

(** A balanced subtree at most one level lower than the one that was there. *)
Lemma repair_ok p s h0 :
  balanced s -> h0 - 1 <= height s <= h0 -> path_ok h0 p -> exists t, repair s p = Some t /\ balanced t.
Proof.
  intros Hs Hh Hp. unfold repair. destruct p as [|f p]; [by exists s|].
  destruct (nearly_up h0 s f p Hs Hh Hp) as (f' & -> & Hn' & Hp').
  apply (fix_unbal_ok _ _ _ _ Hn' Hp'). apply Nat.lt_succ_r.
  replace (length (RecalcHeights (height (up1 s f')) p)) with (length p); [done|].
  assert (Hlen : forall q : list (frame A), length (shape q) = length q) by (intros q; induction q; cbn; congruence).
  by rewrite <- (Hlen (RecalcHeights _ p)), RecalcHeights_shape, Hlen.
Qed.

Lemma grandchild_up t n q : grandchild t = Some (n, q) -> up n q = t.
Proof.
  destruct t as [|l x h r]; [done|]. cbn. destruct (_ <? _).
  - destruct r; [done|]. repeat destruct (_ <? _); by intros [= <- <-].
  - destruct l; [done|]. repeat destruct (_ <? _); by intros [= <- <-].
Qed.

Lemma up_app t p q : up t (p ++ q) = up (up t p) q.
Proof. unfold up. by rewrite fold_left_app. Qed.

Lemma fix_unbal_elements fuel : forall t p t', fix_unbal fuel t p = Some t' -> elements t' = elements (up t p).
Proof.
  induction fuel as [|fuel IH]; intros t p t'; [done|]. destruct t as [|l x h r]; [done|].
  cbn [fix_unbal]. destruct (unbalanced _ _).
  - destruct (grandchild _) as [[n q]|] eqn:Eg; [|done]. apply grandchild_up in Eg.
    destruct (Rebalance _ _) as [[b g]|] eqn:E; [|done]. apply Rebalance_elements in E. rewrite up_app, Eg in E.
    rewrite <- E. destruct g as [|f g]; [by intros [= ->]|]. intros H. by rewrite (IH _ _ _ H).
  - destruct p as [|f p]; [by intros [= ->]|]. intros H. by rewrite (IH _ _ _ H).
Qed.

Lemma repair_elements s p t : repair s p = Some t -> elements t = before p ++ elements s ++ after p.
Proof.
  unfold repair. destruct (RecalcHeights_items (height s) p) as [E1 E2]. revert E1 E2.
  destruct (RecalcHeights (height s) p) as [|f q]; intros <- <-.
  - intros [= ->]. cbn. by rewrite app_nil_r.
  - intros E. apply fix_unbal_elements in E. by rewrite E, <- up_cons, elements_up.
Qed.

(** ** Locations *)

Lemma locate_Some el t : forall p l x h r q,
  locate el t p = Some (l, x, h, r, q) -> up (Node l x h r) q = up t p /\ addr x = addr el.
Proof.
  induction t as [|l0 IHl x0 h0 r0 IHr]; intros p l x h r q; [done|]. cbn.
  destruct (addr el =? addr x0) eqn:E; [by intros [= <- <- <- <- <-]; b2p|].
  destruct (locate el l0 _) as [z|] eqn:El; [intros [= ->]; by apply IHl in El|]. intros Er. by apply IHr in Er.
Qed.

Lemma locate_None el t : forall p, locate el t p = None -> Forall (fun x => addr x <> addr el) (elements t).
Proof.
  induction t as [|l IHl x h r IHr]; intros p; [by constructor|]. cbn.
  destruct (addr el =? addr x) eqn:E; [done|]. destruct (locate el l _) eqn:El; [done|]. intros Er. b2p.
  apply Forall_app. split; [by eapply IHl|]. constructor; [congruence|by eapply IHr].
Qed.

Lemma leftmost_spec t : forall p, t <> Leaf ->
  exists y f q hy, leftmost t p = Some (y, f, q) /\ up (Node Leaf y hy f) q = up t p /\ before q = before p.
Proof.
  induction t as [|l IHl x h r IHr]; intros p Ht; [done|]. destruct l as [|ll lx lh lr]; [by exists x, r, p, h|].
  destruct (IHl (InLeft x h r :: p)) as (y & f & q & hy & E & Eu & Eb); [done|]. by exists y, f, q, hy.
Qed.

Lemma rightmost_spec t : forall p, t <> Leaf ->
  exists y f q hy, rightmost t p = Some (y, f, q) /\ up (Node f y hy Leaf) q = up t p /\ after q = after p.
Proof.
  induction t as [|l IHl x h r IHr]; intros p Ht; [done|]. destruct r as [|rl rx rh rr]; [by exists x, l, p, h|].
  destruct (IHr (InRight l x h :: p)) as (y & f & q & hy & E & Eu & Eb); [done|]. by exists y, f, q, hy.
Qed.

Lemma path_ok_item q f g p h :
  frame_height f = frame_height g -> (match f, g with InLeft _ _ r, InLeft _ _ r' => r = r'
                                     | InRight l _ _, InRight l' _ _ => l = l' | _, _ => False end) ->
  path_ok h (q ++ f :: p) -> path_ok h (q ++ g :: p).
Proof.
  intros E1 E2. revert h. induction q as [|[x hx r|l x hx] q IH]; intros h; cbn [app path_ok].
  - destruct f, g; cbn in *; try done; by subst.
  - intros (? & ? & ? & ?). split_and!; try done; try lia. by apply IH.
  - intros (? & ? & ? & ?). split_and!; try done; try lia. by apply IH.
Qed.

Lemma before_app q p : before (q ++ p) = before p ++ before q.
Proof. induction q as [|[x h r|l x h] q IH]; cbn; rewrite ?IH, ?app_nil_r; by rewrite <- ?app_assoc. Qed.

Lemma after_app q p : after (q ++ p) = after q ++ after p.
Proof. induction q as [|[x h r|l x h] q IH]; cbn; rewrite ?IH; by rewrite <- ?app_assoc. Qed.

(** ** The container *)

Section order.
Context (good : A -> Prop).

(** What the comparison promises on the items that are put into the tree. *)
Class CompareOrder := {
  compare_irrefl x : good x -> Compare x x = false;
  compare_trans x y z : good x -> good y -> good z -> Compare x y = true -> Compare y z = true -> Compare x z = true;
  compare_total x y : good x -> good y -> addr x <> addr y -> Compare x y = true \/ Compare y x = true
}.

Record avl_inv (t : TAvlTree A) : Prop := {
  av_balanced : balanced (Root_ t);
  av_sorted : StronglySorted (fun x y => Compare x y = true) (elements (Root_ t));
  av_good : Forall good (elements (Root_ t));
  av_nodup : NoDup (map addr (elements (Root_ t)));
  av_head : Head_ t = head (elements (Root_ t));
  av_tail : Tail_ t = last (elements (Root_ t));
  av_stale : Stale_ t = []
}.

Lemma sorted_app l1 l2 :
  StronglySorted (fun x y => Compare x y = true) (l1 ++ l2) <->
  StronglySorted (fun x y => Compare x y = true) l1 /\ StronglySorted (fun x y => Compare x y = true) l2 /\
  forall x y, x ∈ l1 -> y ∈ l2 -> Compare x y = true.
Proof.
  induction l1 as [|a l1 IH]; cbn.
  - split; [|tauto]. intros H. split_and!; [constructor|done|]. intros x y Hx. by apply elem_of_nil in Hx.
  - split.
    + intros H. apply StronglySorted_inv in H as [H Ha]. apply IH in H as (H1 & H2 & H12).
      apply Forall_app in Ha as [Ha1 Ha2]. split_and!; [by constructor|done|].
      intros x y [->|Hx]%elem_of_cons Hy; [|by apply H12]. rewrite Forall_forall in Ha2. by apply Ha2.
    + intros (H1 & H2 & H12). apply StronglySorted_inv in H1 as [H1 Ha]. constructor.
      * apply IH. split_and!; try done. intros. apply H12; [by apply elem_of_cons; right|done].
      * apply Forall_app. split; [done|]. apply Forall_forall. intros y Hy. apply H12; [by left|done].
Qed.

Lemma in_addr x l : x ∈ l -> addr x ∈ map addr l.
Proof. intros Hx. apply list_elem_of_In, in_map. by apply list_elem_of_In. Qed.

(** The items but the one at the address of [el]. *)
Definition without (el : A) (l : list A) : list A := filter (fun x => addr x <> addr el) l.

Lemma without_none el l : Forall (fun x => addr x <> addr el) l -> without el l = l.
Proof. unfold without. induction 1; [done|]. rewrite filter_cons_True by done. by f_equal. Qed.

Lemma without_app el l1 x l2 :
  addr x = addr el -> NoDup (map addr (l1 ++ x :: l2)) -> without el (l1 ++ x :: l2) = l1 ++ l2.
Proof.
  intros E Hnd. unfold without. rewrite filter_app, filter_cons_False by (rewrite E; tauto).
  rewrite map_app in Hnd. apply NoDup_app in Hnd as (_ & Hd & Hnd). cbn in Hnd. apply NoDup_cons in Hnd as [Hx _].
  f_equal; apply without_none, Forall_forall; intros y Hy Ey; rewrite <- E in Ey.
  - apply (Hd (addr x)); [rewrite <- Ey; by apply in_addr|by left].
  - apply Hx. rewrite <- Ey. by apply in_addr.
Qed.

Lemma sublist_inv l1 x l2 :
  (StronglySorted (fun x y => Compare x y = true) (l1 ++ x :: l2) -> StronglySorted (fun x y => Compare x y = true) (l1 ++ l2)) /\
  (Forall good (l1 ++ x :: l2) -> Forall good (l1 ++ l2)) /\
  (NoDup (map addr (l1 ++ x :: l2)) -> NoDup (map addr (l1 ++ l2))).
Proof.
  split_and!.
  - rewrite !sorted_app. intros (H1 & H2 & H12). apply StronglySorted_inv in H2 as [H2 _]. split_and!; try done.
    intros a b Ha Hb. apply H12; [done|by right].
  - rewrite !Forall_app, Forall_cons. tauto.
  - rewrite !map_app, !NoDup_app. cbn. intros (H1 & Hd & Hnd). apply NoDup_cons in Hnd as [_ Hnd]. split_and!; try done.
    intros a Ha Hb. apply (Hd a Ha). by right.
Qed.

(** The first (last) item of a list without duplicates. *)
Lemma is_item_head l1 x l2 :
  NoDup (map addr (l1 ++ x :: l2)) -> is_item (head (l1 ++ x :: l2)) x = bool_decide (l1 = []).
Proof.
  intros Hnd. destruct l1 as [|a l1]; cbn in *; [apply Z.eqb_refl|]. apply Z.eqb_neq. intros E.
  apply NoDup_cons in Hnd as [Ha _]. apply Ha. rewrite E, map_app. apply elem_of_app. right. by left.
Qed.

Lemma is_item_last l1 x l2 :
  NoDup (map addr (l1 ++ x :: l2)) -> is_item (last (l1 ++ x :: l2)) x = bool_decide (l2 = []).
Proof.
  intros Hnd. destruct l2 as [|a l2 _] using rev_ind; [rewrite last_snoc; apply Z.eqb_refl|].
  rewrite app_comm_cons, app_assoc, last_snoc. cbn. rewrite bool_decide_false by by destruct l2.
  apply Z.eqb_neq. intros E. rewrite map_app in Hnd. apply NoDup_app in Hnd as (_ & _ & Hnd). cbn in Hnd.
  apply NoDup_cons in Hnd as [Ha _]. apply Ha. rewrite <- E, map_app. apply elem_of_app. right. by left.
Qed.

(** The links above an item whose subtrees are known. *)
Lemma path_ends p : 
  (before p = [] -> head (after p) = match p with [] => None | f :: _ => Some (frame_item f) end) /\
  (after p = [] -> last (before p) = match p with [] => None | f :: _ => Some (frame_item f) end).
Proof.
  split; destruct p as [|[x h r|l x h] p]; cbn; try done.
  - by destruct (before p), (elements l).
  - intros _. by rewrite app_assoc, last_snoc.
Qed.

Lemma head_remove (l1 : list A) x l2 :
  head (l1 ++ l2) = if bool_decide (l1 = []) then head l2 else head (l1 ++ x :: l2).
Proof. by destruct l1. Qed.

Lemma last_remove (l1 : list A) x l2 :
  last (l1 ++ l2) = if bool_decide (l2 = []) then last l1 else last (l1 ++ x :: l2).
Proof.
  destruct l2 as [|y l2 _] using rev_ind; [by rewrite app_nil_r|].
  rewrite bool_decide_false by by destruct l2. rewrite app_comm_cons, !app_assoc. by rewrite !last_snoc.
Qed.

(** [t] with [x] between the items [l1] and [l2], and the tests of [EraseImpl] on it. *)
Definition splits (t : TAvlTree A) (l1 : list A) (x : A) (l2 : list A) : Prop :=
  Head_ t = head (l1 ++ x :: l2) /\ Tail_ t = last (l1 ++ x :: l2) /\
  is_item (Head_ t) x = bool_decide (l1 = []) /\ is_item (Tail_ t) x = bool_decide (l2 = []).

Lemma splits_intro t p l x h r :
  avl_inv t -> Root_ t = up (Node l x h r) p -> splits t (before p ++ elements l) x (elements r ++ after p).
Proof.
  intros Hinv Et. pose proof (av_nodup _ Hinv) as Hnd.
  assert (Ee : elements (Root_ t) = (before p ++ elements l) ++ x :: elements r ++ after p)
    by (rewrite Et, elements_up; cbn; by rewrite <- !app_assoc).
  unfold splits. rewrite (av_head _ Hinv), (av_tail _ Hinv). rewrite Ee in *. split_and!; try done.
  - by apply is_item_head.
  - by apply is_item_last.
Qed.

(** The item is removed from between [l1] and [l2]. *)
Definition removed (t' : TAvlTree A) (l1 l2 : list A) : Prop :=
  balanced (Root_ t') /\ elements (Root_ t') = l1 ++ l2 /\
  Head_ t' = head (elements (Root_ t')) /\ Tail_ t' = last (elements (Root_ t')) /\ Stale_ t' = [].

Lemma EraseImpl_leaf x h p t :
  avl_inv t -> Root_ t = up (Node Leaf x h Leaf) p ->
  exists t', EraseImpl Leaf x h Leaf p t = Some t' /\ removed t' (before p) (after p).
Proof.
  intros Hinv Et. pose proof (splits_intro _ _ _ _ _ _ Hinv Et) as (Hh & Hl & Ih & Il).
  cbn [elements] in *. rewrite app_nil_r in *. cbn [app] in *. pose proof (av_balanced _ Hinv) as Hb. rewrite Et in Hb.
  apply up_balanced in Hb as [Hx Hp]. destruct (repair_ok p Leaf (height (Node Leaf x h Leaf))) as (root & E & Hb'); try done.
  { cbn in *. lia. }
  cbn [EraseImpl]. rewrite E. eexists. split; [done|]. apply repair_elements in E. cbn in E.
  destruct (path_ends p) as [P1 P2]. unfold removed. cbn. rewrite (av_stale _ Hinv), Ih, Il, E, (head_remove _ x), (last_remove _ x).
  clear Ih Il. split_and!; try done.
  - case_bool_decide; [by rewrite P1|done].
  - case_bool_decide; [by rewrite P2|done].
Qed.

Lemma EraseImpl_right l x h r p t :
  avl_inv t -> r <> Leaf -> Root_ t = up (Node l x h r) p ->
  exists t', EraseImpl l x h r p t = Some t' /\ removed t' (before p ++ elements l) (elements r ++ after p).
Proof.
  intros Hinv Hr Et. pose proof (splits_intro _ _ _ _ _ _ Hinv Et) as (Hh & Hl & Ih & Il).
  pose proof (av_balanced _ Hinv) as Hb. rewrite Et in Hb.
  destruct (leftmost_spec r [] Hr) as (y & f & q & hy & E & Eu & Eb). cbn [up fold_left before] in Eu, Eb.
  assert (Er : elements r = y :: elements f ++ after q) by (rewrite <- Eu, elements_up, Eb; done).
  assert (Hy : balanced (up (Node Leaf y hy f) (q ++ InRight l x h :: p))) by (by rewrite up_app, Eu).
  apply up_balanced in Hy as [Hy Hp]. apply (path_ok_item q _ (InRight l y h)) in Hp; [|done|done].
  destruct (repair_ok _ f (height (Node Leaf y hy f)) ltac:(apply Hy) ltac:(cbn in *; destruct Hy as (_ & Hf & -> & ?); pose proof (height_nonneg f Hf); lia) Hp)
    as (root & E' & Hb'). apply repair_elements in E' as Ee.
  rewrite before_app, after_app, Eb in Ee. cbn [before after] in Ee. rewrite app_nil_r in Ee.
  assert (EE : elements root = (before p ++ elements l) ++ elements r ++ after p)
    by (rewrite Ee, Er; cbn; by rewrite <- !app_assoc).
  destruct r as [|rl rx rh rr]; [done|]. cbn [EraseImpl]. rewrite E, E'. eexists. split; [done|].
  unfold removed. cbn [Root_ Head_ Tail_ Stale_]. rewrite (av_stale _ Hinv), EE, Ih, (head_remove _ x), (last_remove _ x).
  clear Ih Il. split_and!; try done.
  - case_bool_decide; [by rewrite Er|done].
  - rewrite bool_decide_false; [done|]. by rewrite Er.
Qed.

Lemma EraseImpl_left l x h p t :
  avl_inv t -> l <> Leaf -> Root_ t = up (Node l x h Leaf) p ->
  exists t', EraseImpl l x h Leaf p t = Some t' /\ removed t' (before p ++ elements l) (after p).
Proof.
  intros Hinv Hr Et. pose proof (splits_intro _ _ _ _ _ _ Hinv Et) as (Hh & Hl & Ih & Il).
  pose proof (av_balanced _ Hinv) as Hb. rewrite Et in Hb. cbn [elements app] in *.
  destruct (rightmost_spec l [] Hr) as (y & f & q & hy & E & Eu & Eb). cbn [up fold_left after] in Eu, Eb.
  assert (Er : elements l = before q ++ elements f ++ [y])
    by (rewrite <- Eu, elements_up, Eb; cbn; by rewrite app_nil_r).
  assert (Hy : balanced (up (Node f y hy Leaf) (q ++ InLeft x h Leaf :: p))) by (by rewrite up_app, Eu).
  apply up_balanced in Hy as [Hy Hp]. apply (path_ok_item q _ (InLeft y h Leaf)) in Hp; [|done|done].
  destruct (repair_ok _ f (height (Node f y hy Leaf)) ltac:(apply Hy) ltac:(cbn in *; destruct Hy as (Hf & _ & -> & ?); pose proof (height_nonneg f Hf); lia) Hp)
    as (root & E' & Hb'). apply repair_elements in E' as Ee.
  rewrite before_app, after_app, Eb in Ee. cbn [before after elements app] in Ee.
  assert (EE : elements root = (before p ++ elements l) ++ after p)
    by (rewrite Ee, Er; cbn; by rewrite <- !app_assoc).
  destruct l as [|ll lx lh lr]; [done|]. cbn [EraseImpl]. rewrite E, E'. eexists. split; [done|].
  unfold removed. cbn [Root_ Head_ Tail_ Stale_]. rewrite (av_stale _ Hinv), EE, Il, (head_remove _ x), (last_remove _ x).
  clear Ih Il. split_and!; try done.
  - rewrite bool_decide_false; [done|]. rewrite Er. by destruct (before p), (before q), (elements f).
  - case_bool_decide; [|done]. by rewrite Er, !app_assoc, last_snoc.
Qed.

Lemma EraseImpl_ok l x h r p t :
  avl_inv t -> Root_ t = up (Node l x h r) p ->
  exists t', EraseImpl l x h r p t = Some t' /\ removed t' (before p ++ elements l) (elements r ++ after p).
Proof.
  intros Hinv Et. destruct r as [|rl rx rh rr]; [|by apply EraseImpl_right].
  destruct l as [|ll lx lh lr]; [|by apply EraseImpl_left]. cbn [elements]. rewrite app_nil_r. by apply EraseImpl_leaf.
Qed.

(** [Erase] removes the item and nothing else. *)
Lemma Erase_ok el t :
  avl_inv t -> exists t', Erase el t = Some t' /\ avl_inv t' /\ elements (Root_ t') = without el (elements (Root_ t)).
Proof.
  intros Hinv. unfold Erase. destruct (locate el (Root_ t) []) as [[[[[l x] h] r] p]|] eqn:E.
  - apply locate_Some in E as [E Ex]. cbn [up fold_left] in E.
    assert (Ee : elements (Root_ t) = (before p ++ elements l) ++ x :: elements r ++ after p)
      by (rewrite <- E, elements_up; cbn; by rewrite <- !app_assoc).
    destruct (EraseImpl_ok l x h r p t Hinv (eq_sym E)) as (t' & E' & Hb & El & Hh & Ht & Hst).
    exists t'. split; [done|]. pose proof (av_nodup _ Hinv) as Hnd. pose proof (av_sorted _ Hinv) as Hs.
    pose proof (av_good _ Hinv) as Hg. rewrite Ee in *.
    destruct (sublist_inv (before p ++ elements l) x (elements r ++ after p)) as (S1 & S2 & S3).
    split; [split; rewrite ?El; auto; by rewrite <- El|]. by rewrite El, without_app.
  - exists t. rewrite (av_stale _ Hinv). split; [done|]. split; [done|]. by rewrite without_none; [|eapply locate_None].
Qed.

Section insertion.
Context {HO : CompareOrder}.

(** The search goes to the place between the smaller and the greater items. *)
Lemma descend_ok el t : forall p,
  good el -> Forall good (elements t) -> StronglySorted (fun x y => Compare x y = true) (elements t) ->
  Forall (fun x => addr x <> addr el) (elements t) ->
  Forall (fun x => Compare x el = true) (before p) -> Forall (fun x => Compare el x = true) (after p) ->
  exists q, descend el t p = Some q /\ up Leaf q = up t p /\
    Forall (fun x => Compare x el = true) (before q) /\ Forall (fun x => Compare el x = true) (after q).
Proof.
  induction t as [|l IHl x h r IHr]; intros p Hg Hgt Hs Ha Hbf Haf; [by exists p|]. cbn in Hgt, Hs, Ha.
  apply Forall_app in Hgt as [Hgl [Hgx Hgr]%Forall_cons]. apply Forall_app in Ha as [Hal [Hax Har]%Forall_cons].
  apply sorted_app in Hs as (Hsl & Hsr & Hlr). apply StronglySorted_inv in Hsr as [Hsr Hxr].
  rewrite Forall_forall in Hgl, Hgr, Hxr. cbn [descend].
  destruct (Compare el x) eqn:E1; [|destruct (Compare x el) eqn:E2].
  - apply (IHl (InLeft x h r :: p)); try done; [by apply Forall_forall|].
    cbn. apply Forall_cons. split; [done|]. apply Forall_app. split; [|done].
    apply Forall_forall. intros y Hy. apply (compare_trans el x y); auto.
  - apply (IHr (InRight l x h :: p)); try done; [by apply Forall_forall|].
    cbn. apply Forall_app. split; [done|]. apply Forall_app. split; [|by apply Forall_singleton].
    apply Forall_forall. intros y Hy. apply (compare_trans y x el); auto. apply Hlr; [done|by left].
  - exfalso. destruct (compare_total x el Hgx Hg Hax); congruence.
Qed.

(** Attaching at a null link grows the tree by at most one level, and one rotation
    restores the balance. *)
Lemma attach_balanced el p :
  balanced (up Leaf p) ->
  exists root, (let n := Node Leaf el 1 Leaf in let p := RecalcHeights 1 p in
                match FindFirstUnbalGP n p with
                | Some (ub, q) => let* (b, q) := Rebalance ub q in Some (up b q)
                | None => Some (up n p)
                end) = Some root /\ balanced root /\ elements root = before p ++ el :: after p.
Proof.
  intros Hb. apply up_balanced in Hb as [_ Hp]. cbn zeta. set (n := Node Leaf el 1 Leaf).
  assert (Hn : balanced n) by (cbn; lia).
  assert (Hel : elements (up n (RecalcHeights 1 p)) = before p ++ el :: after p).
  { rewrite elements_up. by destruct (RecalcHeights_items 1 p) as [-> ->]. }
  assert (Hdone : balanced (up n (RecalcHeights 1 p)) ->
            FindFirstUnbalGP n (RecalcHeights 1 p) = None) by apply FindFirstUnbalGP_none.
  destruct p as [|f p]; [by exists n|].
  assert (Hf : balanced (other f) /\ frame_height f = Z.max 0 (height (other f)) + 1 /\
               -1 <= height (other f) <= 1 /\ path_ok (frame_height f) p).
  { destruct f; cbn in *; intuition lia. }
  destruct Hf as (Hof & Ef & Hd & Hpf). pose proof (height_nonneg _ Hof).
  rewrite RecalcHeights_cons in * by done. set (nh := new_height _ _) in *.
  assert (En : nh = 2) by (subst nh; rewrite new_height_max; destruct f; cbn in *; lia).
  assert (Hup : balanced (up1 n (set_height f nh)) /\ height (up1 n (set_height f nh)) = 2) by (destruct f; cbn in *; intuition lia).
  destruct (decide (height (other f) = 0)) as [E0|E0].
  - pose proof (grow_up p n (set_height f nh) 1) as Hgrow. replace (1 + 1) with nh in Hgrow by lia.
    specialize (Hgrow (proj1 Hup)). destruct (FindFirstUnbalGP n _) as [[ub q]|] eqn:Eg.
    + destruct Hgrow as (b & q' & E & Hbq); try (destruct f; cbn in *; lia); [by replace 1 with (frame_height f) by lia|].
      rewrite E. exists (up b q'). split; [done|]. split; [done|].
      rewrite (Rebalance_elements _ _ _ _ E), (FindFirstUnbalGP_up _ _ _ _ Eg). done.
    + eexists. split; [done|]. split; [|done]. apply Hgrow; try (destruct f; cbn in *; lia).
      by replace 1 with (frame_height f) by lia.
  - assert (Hall : balanced (up n (set_height f nh :: RecalcHeights nh p))).
    { rewrite up_cons. apply up_balanced. split; [apply Hup|]. rewrite (proj2 Hup), En.
      replace 2 with (frame_height f) by lia. by rewrite RecalcHeights_id. }
    rewrite Hdone by done. by eexists.
Qed.

Lemma head_attach p t el :
  avl_inv t -> Root_ t = up Leaf p ->
  match p with
  | [] => Some el
  | InLeft x _ _ :: _ => if is_item (Head_ t) x then Some el else Head_ t
  | InRight _ _ _ :: _ => Head_ t
  end = head (before p ++ el :: after p).
Proof.
  intros Hinv Et. pose proof (av_nodup _ Hinv) as Hnd. rewrite (av_head _ Hinv). rewrite Et, elements_up in *.
  destruct p as [|[x h r|l x h] p]; cbn in *; [done| |].
  - rewrite is_item_head by done. destruct (before p); by case_bool_decide.
  - by destruct (before p), (elements l).
Qed.

Lemma tail_attach p t el :
  avl_inv t -> Root_ t = up Leaf p ->
  match p with
  | [] => Some el
  | InRight _ x _ :: _ => if is_item (Tail_ t) x then Some el else Tail_ t
  | InLeft _ _ _ :: _ => Tail_ t
  end = last (before p ++ el :: after p).
Proof.
  intros Hinv Et. pose proof (av_nodup _ Hinv) as Hnd. rewrite (av_tail _ Hinv). rewrite Et, elements_up in *.
  destruct p as [|[x h r|l x h] p]; cbn in *; [done| |].
  - rewrite (last_remove _ el). by rewrite bool_decide_false.
  - rewrite <- !app_assoc in *. cbn in *. rewrite !app_assoc in *.
    rewrite is_item_last by done. rewrite !last_app_cons. case_bool_decide as Ea; [by rewrite Ea|]. by destruct (after p).
Qed.

(** [Insert] puts the item into its place in the order. *)
Lemma Insert_ok el t :
  avl_inv t -> good el ->
  exists t' l1 l2, Insert el t = Some (true, t') /\ avl_inv t' /\
    without el (elements (Root_ t)) = l1 ++ l2 /\ elements (Root_ t') = l1 ++ el :: l2.
Proof.
  intros Hinv Hg. unfold Insert. destruct (Erase_ok el t Hinv) as (t1 & -> & Hinv1 & E1). rewrite <- E1.
  assert (Hne : Forall (fun x => addr x <> addr el) (elements (Root_ t1))).
  { rewrite E1. apply Forall_forall. intros x Hx. by apply list_elem_of_filter in Hx as [? _]. }
  destruct (descend_ok el (Root_ t1) [] Hg (av_good _ Hinv1) (av_sorted _ Hinv1) Hne) as (p & -> & Eu & Hbf & Haf);
    [by constructor|by constructor|]. change (up Leaf p = Root_ t1) in Eu.
  unfold AttachRebal. destruct (attach_balanced el p) as (root & E & Hb & Ee); [rewrite Eu; apply Hinv1|].
  cbn zeta in E. rewrite E. eexists _, (before p), (after p). split; [done|].
  assert (E2 : elements (Root_ t1) = before p ++ after p) by (rewrite <- Eu; apply elements_up).
  split; [|done]. pose proof Hinv1 as [B1 B2 B3 B4 B5 B6 B7]. rewrite E2 in *.
  split; cbn [Root_ Head_ Tail_ Stale_]; rewrite ?Ee; [done| | | |exact (head_attach p t1 el Hinv1 (eq_sym Eu))|exact (tail_attach p t1 el Hinv1 (eq_sym Eu))|done].
  - apply sorted_app in B2 as (S1 & S2 & S12). apply sorted_app. split_and!; [done|by constructor|].
    rewrite Forall_forall in Hbf. intros x y Hx [->|Hy]%elem_of_cons; auto.
  - apply Forall_app in B3. apply Forall_app. rewrite Forall_cons. tauto.
  - rewrite map_app in *. cbn. apply NoDup_app in B4 as (N1 & N12 & N2).
    apply Forall_app in Hne as [Hn1 Hn2]. rewrite Forall_forall in Hn1, Hn2.
    assert (Hin : forall l, (forall x, x ∈ l -> addr x <> addr el) -> addr el ∉ map addr l).
    { intros l Hl Hx. apply list_elem_of_In, in_map_iff in Hx as (x & Ex & Hx). apply (Hl x); [by apply list_elem_of_In|done]. }
    apply NoDup_app. split_and!; [done| |constructor; auto].
    intros a Ha [->|Hb']%elem_of_cons; [by apply (Hin _ Hn1)|by apply (N12 a)].
Qed.

(** ** Sequences of operations *)

(** The reference: a list in the order of [Compare]. *)
Fixpoint insert_sorted (el : A) (l : list A) : list A :=
  match l with
  | [] => [el]
  | x :: l' => if Compare x el then x :: insert_sorted el l' else el :: l
  end.

Inductive avl_op := OpInsert (el : A) | OpErase (el : A).

Definition run_op (o : avl_op) (t : TAvlTree A) : option (TAvlTree A) :=
  match o with
  | OpInsert el => let* (_, t) := Insert el t in Some t
  | OpErase el => Erase el t
  end.

Definition spec_op (o : avl_op) (l : list A) : list A :=
  match o with OpInsert el => insert_sorted el (without el l) | OpErase el => without el l end.

Definition op_item (o : avl_op) : A := match o with OpInsert el => el | OpErase el => el end.

Fixpoint run_ops (os : list avl_op) (t : TAvlTree A) : option (TAvlTree A) :=
  match os with [] => Some t | o :: os' => let* t := run_op o t in run_ops os' t end.

Lemma insert_sorted_place el l1 l2 :
  good el -> Forall good l2 -> Forall (fun x => Compare x el = true) l1 -> Forall (fun x => Compare el x = true) l2 ->
  insert_sorted el (l1 ++ l2) = l1 ++ el :: l2.
Proof.
  intros Hg Hg2 H1 H2. induction H1 as [|x l1 Hx _ IH]; cbn.
  - destruct H2 as [|y l2 Hy _]; [done|]. apply Forall_cons in Hg2 as [Hgy _]. cbn.
    destruct (Compare y el) eqn:E; [|done]. pose proof (compare_trans el y el Hg Hgy Hg Hy E) as Hc.
    by rewrite compare_irrefl in Hc.
  - by rewrite Hx, IH.
Qed.

Lemma run_op_ok o t :
  avl_inv t -> good (op_item o) ->
  exists t', run_op o t = Some t' /\ avl_inv t' /\ elements (Root_ t') = spec_op o (elements (Root_ t)).
Proof.
  intros Hinv Hg. destruct o as [el|el]; cbn [run_op spec_op op_item] in *.
  - destruct (Insert_ok el t Hinv Hg) as (t' & l1 & l2 & -> & Hinv' & E1 & E2). exists t'. split; [done|]. split; [done|].
    rewrite E1, E2. pose proof (av_sorted _ Hinv') as Hs. rewrite E2 in Hs. apply sorted_app in Hs as (_ & Hs & H12).
    apply StronglySorted_inv in Hs as [_ Hs]. pose proof (av_good _ Hinv') as Hg'.
    rewrite E2, Forall_app, Forall_cons in Hg'. symmetry. apply insert_sorted_place; try tauto.
    apply Forall_forall. intros x Hx. apply H12; [done|by left].
  - destruct (Erase_ok el t Hinv) as (t' & E & Hinv' & El). by exists t'.
Qed.

Lemma empty_inv : avl_inv empty_avl.
Proof. by repeat constructor. Qed.

Lemma run_ops_ok os : forall t,
  avl_inv t -> Forall (fun o => good (op_item o)) os ->
  exists t', run_ops os t = Some t' /\ avl_inv t' /\
    elements (Root_ t') = fold_left (fun l o => spec_op o l) os (elements (Root_ t)).
Proof.
  induction os as [|o os IH]; intros t Hinv Hg; [by exists t|]. apply Forall_cons in Hg as [Hgo Hg].
  destruct (run_op_ok o t Hinv Hgo) as (t1 & E & Hinv1 & E1). cbn. rewrite E, <- E1. by apply IH.
Qed.

(** ** Searches *)

(** The first item that is not below [el]. *)
Definition first_from (el : A) (l : list A) : option A := head (filter (fun x => Compare x el = false) l).

Lemma first_from_app el l1 l2 : first_from el (l1 ++ l2) = match first_from el l1 with Some x => Some x | None => first_from el l2 end.
Proof. unfold first_from. rewrite filter_app. by destruct (filter _ l1). Qed.

Lemma first_from_below el l : (forall y, y ∈ l -> Compare y el = true) -> first_from el l = None.
Proof.
  unfold first_from. induction l as [|y l IH]; intros Hl; [done|]. rewrite filter_cons_False.
  - apply IH. intros. apply Hl. by right.
  - rewrite Hl by by left. done.
Qed.

Lemma first_from_here el x l : Compare x el = false -> first_from el (x :: l) = Some x.
Proof. intros Hx. unfold first_from. by rewrite filter_cons_True. Qed.

Lemma compare_asym x y : good x -> good y -> Compare x y = true -> Compare y x = false.
Proof.
  intros Hx Hy H. apply not_true_is_false. intros H'. pose proof (compare_trans x y x Hx Hy Hx H H') as Hc.
  by rewrite compare_irrefl in Hc.
Qed.

(** An item before one that is not above [el] is below [el]. *)
Lemma below_before el x y : good el -> good x -> good y -> Compare y x = true -> addr y <> addr el -> Compare el x = false -> Compare y el = true.
Proof.
  intros He Hx Hy Hyx Hne Hex. destruct (compare_total y el Hy He Hne) as [H|H]; [done|].
  pose proof (compare_trans el y x He Hy Hx H Hyx). congruence.
Qed.

Lemma lower_loop_ok el t : forall acc,
  good el -> StronglySorted (fun x y => Compare x y = true) (elements t) -> Forall good (elements t) -> NoDup (map addr (elements t)) ->
  lower_loop el t acc = match first_from el (elements t) with Some x => Some x | None => acc end /\
  find_loop el t = match first_from el (elements t) with Some x => if Compare el x then None else Some x | None => None end.
Proof.
  induction t as [|l IHl x h r IHr]; intros acc He Hs Hg Hn; cbn [lower_loop find_loop elements] in *; [done|].
  apply sorted_app in Hs as (Sl & Sr & Slr). apply StronglySorted_inv in Sr as [Sr _]. rewrite Forall_app, Forall_cons in Hg.
  destruct Hg as (Gl & Gx & Gr). rewrite map_app in Hn. apply NoDup_app in Hn as (Nl & Nlr & Nr). cbn in Nr. apply NoDup_cons in Nr as [_ Nr].
  rewrite first_from_app. assert (Hlg : forall y, y ∈ elements l -> good y) by by apply Forall_forall.
  destruct (Compare el x) eqn:E1; [|destruct (Compare x el) eqn:E2].
  - destruct (IHl (Some x) He Sl Gl Nl) as [-> ->]. rewrite first_from_here by (by apply compare_asym).
    destruct (first_from el (elements l)); [done|]. by rewrite E1.
  - rewrite (first_from_below el (elements l)).
    2:{ intros y Hy. apply (compare_trans y x el); auto. apply Slr; [done|by left]. }
    change (x :: elements r) with ([x] ++ elements r). rewrite first_from_app, (first_from_below el [x]).
    2:{ intros y ->%list_elem_of_singleton. done. }
    by apply IHr.
  - rewrite (first_from_below el (elements l)); [by rewrite first_from_here, E1|].
    intros y Hy. apply (below_before el x y); auto; [apply Slr; [done|by left]|]. intros Ea.
    assert (Hax : addr x = addr el).
    { destruct (decide (addr x = addr el)) as [|Hne]; [done|]. destruct (compare_total x el Gx He Hne); congruence. }
    apply (Nlr (addr y)); [by apply in_addr|]. rewrite Ea, <- Hax. cbn. by left.
Qed.
End insertion.
End order.

(** The height is at most twice the logarithm of the number of items. *)
Lemma height_log t : balanced t -> 2 ^ (height t / 2) <= zlen (elements t) + 1.
Proof.
  induction t as [|l IHl x h r IHr]; intros Hb; [done|]. cbn in Hb |- *. destruct Hb as (Hl & Hr & -> & Hd).
  specialize (IHl Hl). specialize (IHr Hr). pose proof (height_nonneg l Hl). pose proof (height_nonneg r Hr).
  rewrite zlen_app, zlen_cons. remember (Z.max (height l) (height r)) as m eqn:Em.
  destruct (decide (m = 0)) as [E|E].
  { rewrite E. change (2 ^ ((0 + 1) / 2)) with 1.
    pose proof (zlen_nonneg (elements l)). pose proof (zlen_nonneg (elements r)). lia. }
  assert (E2 : (m + 1) / 2 = (m - 1) / 2 + 1).
  { replace (m + 1) with (m - 1 + 1 * 2) by lia. rewrite Z.div_add by lia. done. }
  assert (0 <= (m - 1) / 2) by (apply Z.div_pos; lia). rewrite E2, Z.pow_add_r by lia.
  pose proof (pow2_le_mono ((m - 1) / 2) (height l / 2)).
  pose proof (pow2_le_mono ((m - 1) / 2) (height r / 2)).
  assert ((m - 1) / 2 <= height l / 2) by (apply Z.div_le_mono; lia).
  assert ((m - 1) / 2 <= height r / 2) by (apply Z.div_le_mono; lia). lia.
Qed.
End avl.
