(* ===== verification/AvlIter.v ===== *)
(** * The AVL tree: iterators

    Models [TIterator], [ForEach] and the destructor of
    [src/util/generic/avltree.h] on the trees of [AvlTree].  An iterator points to
    an item or is null; it is moved along the links of the tree as they are at that
    moment, so that an item may be erased once the iterator has left it. *)

From Stdlib Require Import ZArith Lia Bool Sorted.
From stdpp Require Import base numbers list sets.
From S2P Require Import Prelude AvlTree.

Section iter.
Context {A : Type} (addr : A -> Z).

(** [el = el->Parent_] until [el] is null or was left from the left, and the mirror
    image of it. *)
Fixpoint climb_next (p : list (frame A)) : option A :=
  match p with
  | [] => None
  | InLeft x _ _ :: _ => Some x
  | InRight _ _ _ :: p' => climb_next p'
  end.

Fixpoint climb_prev (p : list (frame A)) : option A :=
  match p with
  | [] => None
  | InRight _ x _ :: _ => Some x
  | InLeft _ _ _ :: p' => climb_prev p'
  end.

Definition FindNext (Right_ : tree A) (p : list (frame A)) : option A :=
  match Right_ with
  | Leaf => climb_next p
  | Node _ _ _ _ => let* (x, _, _) := leftmost Right_ [] in Some x
  end.

Definition FindPrev (Left_ : tree A) (p : list (frame A)) : option A :=
  match Left_ with
  | Leaf => climb_prev p
  | Node _ _ _ _ => let* (x, _, _) := rightmost Left_ [] in Some x
  end.

(** [Inc] and [Dec] of an iterator at [el]; at an item outside the tree they are
    undefined. *)
Definition Inc (el : A) (t : TAvlTree A) : option (option A) :=
  let* (_, _, _, r, p) := locate addr el (Root_ t) [] in Some (FindNext r p).

Definition Dec (el : A) (t : TAvlTree A) : option (option A) :=
  let* (l, _, _, _, p) := locate addr el (Root_ t) [] in Some (FindPrev l p).

Definition Last (t : TAvlTree A) : option A := Tail_ t.

(** [ForEach]: the items that the functor is called on, from the iterator [it] on. *)
Fixpoint ForEach (fuel : nat) (it : option A) (t : TAvlTree A) : option (list A) :=
  match it with
  | None => Some []
  | Some el =>
      match fuel with
      | O => None
      | S fuel =>
          let* next := Inc el t in
          let* l := ForEach fuel next t in
          Some (el :: l)
      end
  end.

(** The same backwards, from [Last]. *)
Fixpoint walk_back (fuel : nat) (it : option A) (t : TAvlTree A) : option (list A) :=
  match it with
  | None => Some []
  | Some el =>
      match fuel with
      | O => None
      | S fuel =>
          let* prev := Dec el t in
          let* l := walk_back fuel prev t in
          Some (el :: l)
      end
  end.

(** The destructor: [(it++)->Unlink()] from [Begin] to [End]. *)
Fixpoint destroy (fuel : nat) (it : option A) (t : TAvlTree A) : option (TAvlTree A) :=
  match it with
  | None => Some t
  | Some el =>
      match fuel with
      | O => None
      | S fuel =>
          let* next := Inc el t in
          let* t := Erase addr el t in
          destroy fuel next t
      end
  end.

(** ** Neighbours *)

Lemma climb_next_head p : climb_next p = head (after p).
Proof. induction p as [|[x h r|l x h] p IH]; cbn; done. Qed.

Lemma climb_prev_last p : climb_prev p = last (before p).
Proof.
  induction p as [|[x h r|l x h] p IH]; cbn; [done|done|]. rewrite app_assoc. by rewrite last_snoc.
Qed.

Lemma head_app_ne {B} (l1 l2 : list B) : l1 <> [] -> head (l1 ++ l2) = head l1.
Proof. by destruct l1. Qed.

Lemma FindNext_ok r p : FindNext r p = head (elements r ++ after p).
Proof.
  destruct r as [|rl x h rr]; [apply climb_next_head|]. unfold FindNext.
  destruct (leftmost_spec (Node rl x h rr) []) as (y & f & q & hy & E & Eu & Eb); [done|]. rewrite E.
  apply (f_equal elements) in Eu. rewrite elements_up, Eb in Eu. cbn [before app] in Eu.
  change (up (Node rl x h rr) []) with (Node rl x h rr) in Eu. rewrite <- Eu. done.
Qed.

Lemma last_app_ne {B} (l1 l2 : list B) : l2 <> [] -> last (l1 ++ l2) = last l2.
Proof. intros H. rewrite last_app. destruct (last l2) eqn:E; [done|]. by apply last_None in E. Qed.

Lemma FindPrev_ok l p : FindPrev l p = last (before p ++ elements l).
Proof.
  destruct l as [|ll x h lr]; [rewrite app_nil_r; apply climb_prev_last|]. unfold FindPrev.
  destruct (rightmost_spec (Node ll x h lr) []) as (y & f & q & hy & E & Eu & Eb); [done|]. rewrite E.
  apply (f_equal elements) in Eu. rewrite elements_up, Eb in Eu. cbn [after] in Eu. rewrite app_nil_r in Eu.
  change (up (Node ll x h lr) []) with (Node ll x h lr) in Eu. rewrite <- Eu. cbn [elements].
  rewrite !app_assoc. by rewrite last_snoc.
Qed.

(** A list with distinct addresses splits at an address in one way. *)
Lemma split_unique k1 y k2 l1 x l2 :
  NoDup (map addr (l1 ++ x :: l2)) -> addr y = addr x -> k1 ++ y :: k2 = l1 ++ x :: l2 -> k1 = l1 /\ y = x /\ k2 = l2.
Proof.
  revert k1. induction l1 as [|a l1 IH]; intros [|b k1] Hnd Ea E; cbn in *; injection E as -> E'.
  - done.
  - exfalso. apply NoDup_cons in Hnd as [Hx _]. apply Hx. rewrite <- Ea, <- E'. apply in_addr. set_solver.
  - exfalso. apply NoDup_cons in Hnd as [Hx _]. apply Hx. rewrite Ea. apply in_addr. set_solver.
  - apply NoDup_cons in Hnd as [_ Hnd]. destruct (IH k1 Hnd Ea E') as (-> & -> & ->). done.
Qed.

Context (Compare : A -> A -> bool) (good : A -> Prop).
Local Notation avl_inv := (avl_inv Compare addr good).

(** The location of an item of the tree splits its items. *)
Lemma locate_item t l1 x l2 : avl_inv t -> elements (Root_ t) = l1 ++ x :: l2 ->
  exists l h r p, locate addr x (Root_ t) [] = Some (l, x, h, r, p) /\ before p ++ elements l = l1 /\ elements r ++ after p = l2.
Proof.
  intros Hinv El. pose proof (av_nodup _ _ _ _ Hinv) as Hnd.
  destruct (locate addr x (Root_ t) []) as [[[[[l y] h] r] p]|] eqn:E.
  - pose proof (locate_Some addr x _ _ _ _ _ _ _ E) as [Eu Ea]. apply (f_equal elements) in Eu. rewrite elements_up in Eu. cbn in Eu.
    assert (Es : (before p ++ elements l) ++ y :: elements r ++ after p = l1 ++ x :: l2) by (rewrite <- El, <- Eu, <- !app_assoc; done).
    rewrite El in Hnd.
    assert (Hs : before p ++ elements l = l1 /\ y = x /\ elements r ++ after p = l2) by (apply split_unique; congruence).
    destruct Hs as (<- & -> & <-). by exists l, h, r, p.
  - apply locate_None in E. rewrite El, Forall_app, Forall_cons in E. by destruct E as (_ & E & _).
Qed.

Lemma Inc_ok t l1 x l2 : avl_inv t -> elements (Root_ t) = l1 ++ x :: l2 -> Inc x t = Some (head l2).
Proof.
  intros Hinv El. destruct (locate_item t l1 x l2 Hinv El) as (l & h & r & p & E & _ & E2). unfold Inc. by rewrite E, FindNext_ok, E2.
Qed.

Lemma Dec_ok t l1 x l2 : avl_inv t -> elements (Root_ t) = l1 ++ x :: l2 -> Dec x t = Some (last l1).
Proof.
  intros Hinv El. destruct (locate_item t l1 x l2 Hinv El) as (l & h & r & p & E & E1 & _). unfold Dec. by rewrite E, FindPrev_ok, E1.
Qed.

(** ** Walks *)

Lemma ForEach_from t l2 : forall l1 fuel, avl_inv t -> elements (Root_ t) = l1 ++ l2 -> (length l2 <= fuel)%nat ->
  ForEach fuel (head l2) t = Some l2.
Proof.
  induction l2 as [|x l2 IH]; intros l1 [|fuel] Hinv El Hf; cbn in *; try done; try lia.
  rewrite (Inc_ok t l1 x l2 Hinv El). rewrite (IH (l1 ++ [x]) fuel Hinv); [done|by rewrite <- app_assoc|lia].
Qed.

Lemma walk_back_from t l1 : forall l2 fuel, avl_inv t -> elements (Root_ t) = l1 ++ l2 -> (length l1 <= fuel)%nat ->
  walk_back fuel (last l1) t = Some (rev l1).
Proof.
  induction l1 as [|x l1 IH] using rev_ind; intros l2 fuel Hinv El Hf; [by destruct fuel|].
  rewrite length_app in Hf. cbn in Hf. destruct fuel as [|fuel]; [lia|]. rewrite last_snoc, rev_app_distr. cbn [walk_back rev app].
  rewrite <- app_assoc in El. rewrite (Dec_ok t l1 x l2 Hinv El), (IH (x :: l2) fuel Hinv El) by lia. done.
Qed.

(** The destructor leaves no item linked. *)
Lemma destroy_ok l : forall t fuel, avl_inv t -> elements (Root_ t) = l -> (length l <= fuel)%nat ->
  exists t', destroy fuel (head l) t = Some t' /\ avl_inv t' /\ Root_ t' = Leaf.
Proof.
  induction l as [|x l IH]; intros t fuel Hinv El Hf.
  - exists t. split; [by destruct fuel|]. split; [done|]. destruct (Root_ t) as [|tl y h tr]; [done|].
    cbn in El. by destruct (elements tl).
  - destruct fuel as [|fuel]; [cbn in Hf; lia|]. cbn [destroy head]. rewrite (Inc_ok t [] x l Hinv El).
    destruct (Erase_ok Compare addr good x t Hinv) as (t1 & -> & Hinv1 & El1).
    apply (IH t1 fuel Hinv1); [|cbn in Hf; lia]. rewrite El1, El. pose proof (av_nodup _ _ _ _ Hinv) as Hnd. rewrite El in Hnd.
    by apply (without_app Compare addr good x [] x l).
Qed.
End iter.
