(* ===== verification/Double.v ===== *)
(** * The type [double]

    IEEE 754 binary64 arithmetic as the balancer's code uses it, with the correctly
    rounded operations of the standard library's [SpecFloat].  Four groups of facts
    are proved about it: the comparisons order the values that are not NaN, sums of
    non-negative values are non-negative and never NaN, integers below 2^53 are
    added and compared exactly, and products of numbers of moderate size are positive
    and finite. *)

From Stdlib Require Import ZArith Lia Bool SpecFloat.
From stdpp Require Import base numbers.
From S2P Require Import Prelude.

Definition double := spec_float.

Definition dadd : double -> double -> double := SFadd 53 1024.
Definition dsub : double -> double -> double := SFsub 53 1024.
Definition dmul : double -> double -> double := SFmul 53 1024.
Definition ddiv : double -> double -> double := SFdiv 53 1024.
Definition dlt (x y : double) : bool := SFltb x y.
Definition deq (x y : double) : bool := SFeqb x y.
Definition dle (x y : double) : bool := SFleb x y.

(** Conversion of an integer. *)
Definition of_Z (z : Z) : double := binary_normalize 53 1024 z 0 false.

(** The decimal constant [n / d]; both are exact, so the division rounds once. *)
Definition lit (n d : Z) : double := ddiv (of_Z n) (of_Z d).

(** [(size_t)x]: truncation; undefined for values out of range. *)
Definition trunc_u64 (x : double) : option Z :=
  match x with
  | S754_zero _ => Some 0
  | S754_finite s m e =>
      let v := if e <? 0 then Z.shiftr (Zpos m) (- e) else Z.shiftl (Zpos m) e in
      if s then (if v =? 0 then Some 0 else None)
      else if v <? 2 ^ 64 then Some v else None
  | _ => None
  end.

(** [Min] and [Max] of [util/generic/utility.h]. *)
Definition Min (l r : double) : double := if dlt l r then l else r.
Definition Max (l r : double) : double := if dlt r l then l else r.

Declare Scope double_scope.
Delimit Scope double_scope with double.
Notation "x + y" := (dadd x y) : double_scope.
Notation "x - y" := (dsub x y) : double_scope.
Notation "x * y" := (dmul x y) : double_scope.
Notation "x / y" := (ddiv x y) : double_scope.
Notation "x <? y" := (dlt x y) : double_scope.
Notation "x =? y" := (deq x y) : double_scope.

Create HintDb double.

(** ** Order *)

Definition is_nan (x : double) : bool := match x with S754_nan => true | _ => false end.

(** The comparison of two values is lexicographic on these keys. *)
Definition key (x : double) : Z * Z * Z :=
  match x with
  | S754_nan | S754_zero _ => (0, 0, 0)
  | S754_infinity s => (if s then -2 else 2, 0, 0)
  | S754_finite s m e => if s then (-1, - e, - Zpos m) else (1, e, Zpos m)
  end.

Definition key_lt (a b : Z * Z * Z) : Prop :=
  let '(a1, a2, a3) := a in let '(b1, b2, b3) := b in
  a1 < b1 \/ a1 = b1 /\ (a2 < b2 \/ a2 = b2 /\ a3 < b3).

Lemma compare_key x y : is_nan x = false -> is_nan y = false ->
  match SFcompare x y with
  | Some Lt => key_lt (key x) (key y)
  | Some Eq => key x = key y
  | Some Gt => key_lt (key y) (key x)
  | None => False
  end.
Proof.
  destruct x as [[]|[]| |[] m1 e1], y as [[]|[]| |[] m2 e2]; cbn; try done; intros _ _; try lia;
    destruct (Z.compare_spec e1 e2); try (cbn; lia);
    change (Pos.compare_cont Eq m1 m2) with (Pos.compare m1 m2);
    destruct (Pos.compare_spec m1 m2); cbn; subst; (lia || reflexivity).
Qed.

Lemma key_lt_irrefl a : ~ key_lt a a.
Proof. destruct a as [[] ]. cbn. lia. Qed.

Lemma key_lt_trans a b c : key_lt a b -> key_lt b c -> key_lt a c.
Proof. destruct a as [[] ], b as [[] ], c as [[] ]. cbn. lia. Qed.

Lemma dlt_spec x y : is_nan x = false -> is_nan y = false -> (dlt x y = true <-> key_lt (key x) (key y)).
Proof.
  intros Hx Hy. pose proof (compare_key x y Hx Hy) as H. unfold dlt, SFltb.
  destruct (SFcompare x y) as [[]|]; [| |split; [done|]|done].
  - rewrite H. split; [done|]. intros Hl. by apply key_lt_irrefl in Hl.
  - done.
  - intros Hl. destruct (key_lt_irrefl (key x)). by eapply key_lt_trans.
Qed.

Lemma deq_spec x y : is_nan x = false -> is_nan y = false -> (deq x y = true <-> key x = key y).
Proof.
  intros Hx Hy. pose proof (compare_key x y Hx Hy) as H. unfold deq, SFeqb.
  destruct (SFcompare x y) as [[]|]; [done| | |done]; (split; [done|]);
    intros E; rewrite E in H; by apply key_lt_irrefl in H.
Qed.

Lemma dlt_trichotomy x y : is_nan x = false -> is_nan y = false ->
  dlt x y = true \/ deq x y = true \/ dlt y x = true.
Proof.
  intros Hx Hy. rewrite !dlt_spec, deq_spec by done. destruct (key x) as [[a b] c], (key y) as [[d e] f]. cbn.
  destruct (Z.lt_trichotomy a d) as [|[->|]]; [by left; left| |by right; right; left].
  destruct (Z.lt_trichotomy b e) as [|[->|]]; [lia| |lia]. destruct (Z.lt_trichotomy c f) as [|[->|]]; [lia| |lia].
  by right; left.
Qed.

(** ** Signs *)

(** Zero, a positive number or plus infinity. *)
Definition nonneg (x : double) : bool :=
  match x with S754_zero _ => true | S754_finite s _ _ => negb s | S754_infinity s => negb s | S754_nan => false end.

Lemma nonneg_nan x : nonneg x = true -> is_nan x = false.
Proof. by destruct x. Qed.

Lemma shr_1_nonneg r : 0 <= shr_m r -> 0 <= shr_m (shr_1 r).
Proof. destruct r as [[|[]|[]] ? ?]; cbn; lia. Qed.

Lemma iter_pos_inv {A} (f : A -> A) (P : A -> Prop) n : (forall x, P x -> P (f x)) -> forall x, P x -> P (SpecFloat.iter_pos f n x).
Proof. intros Hf. induction n; cbn; auto. Qed.

Lemma shr_nonneg r e n : 0 <= shr_m r -> 0 <= shr_m (fst (shr r e n)).
Proof.
  intros Hr. destruct n; cbn; try done. by apply (iter_pos_inv shr_1 (fun r => 0 <= shr_m r)); [apply shr_1_nonneg|].
Qed.

(** Rounding keeps the sign and never gives NaN. *)
Lemma round_aux_shape s m e l : 0 <= m ->
  match binary_round_aux 53 1024 s m e l with
  | S754_nan => False
  | S754_zero s' | S754_infinity s' | S754_finite s' _ _ => s' = s
  end.
Proof.
  intros Hm. unfold binary_round_aux.
  pose proof (shr_nonneg (shr_record_of_loc m l) e (fexp 53 1024 (Zdigits2 m + e) - e)) as H1. unfold shr_fexp at 1.
  destruct (shr _ _ _) as [r1 e1]. cbn [fst] in H1. specialize (H1 ltac:(by destruct l as [|[]])).
  set (m2 := round_nearest_even _ _). assert (Hm2 : 0 <= m2).
  { subst m2. unfold round_nearest_even. destruct (loc_of_shr_record r1) as [|[]]; try destruct (Z.even _); lia. }
  pose proof (shr_nonneg (shr_record_of_loc m2 loc_Exact) e1 (fexp 53 1024 (Zdigits2 m2 + e1) - e1) Hm2) as H2.
  unfold shr_fexp. destruct (shr _ _ _) as [r2 e2]. cbn [fst] in H2.
  destruct (shr_m r2); [done| |lia]. by destruct (Z.leb _ _).
Qed.

Lemma round_aux_sign m e l : 0 <= m -> nonneg (binary_round_aux 53 1024 false m e l) = true.
Proof. intros Hm. pose proof (round_aux_shape false m e l Hm) as H. destruct (binary_round_aux _ _ _ _ _ _); cbn; by subst. Qed.

Lemma normalize_nan z e s : is_nan (binary_normalize 53 1024 z e s) = false.
Proof.
  assert (H : forall b m e, is_nan (binary_round 53 1024 b m e) = false).
  { intros b m e0. unfold binary_round. destruct (shl_align _ _ _) as [p e1].
    pose proof (round_aux_shape b (Zpos p) e1 loc_Exact ltac:(lia)). by destruct (binary_round_aux _ _ _ _ _ _). }
  destruct z; cbn; [done|apply H|apply H].
Qed.

Lemma normalize_sign z e : 0 <= z -> nonneg (binary_normalize 53 1024 z e false) = true.
Proof.
  intros Hz. destruct z as [|p|p]; [done| |lia]. cbn [binary_normalize]. unfold binary_round.
  destruct (shl_align _ _ _). by apply round_aux_sign.
Qed.

(** Zero or a number. *)
Definition finite (x : double) : bool := match x with S754_zero _ | S754_finite _ _ _ => true | _ => false end.

Lemma sub_nan x y : nonneg x = true -> finite y = true -> is_nan (dsub x y) = false.
Proof.
  destruct x as [[]|[]| |[] m1 e1], y as [[]|[]| |[] m2 e2]; try done; intros _ _; apply normalize_nan.
Qed.

Lemma nonneg_add x y : nonneg x = true -> nonneg y = true -> nonneg (dadd x y) = true.
Proof.
  destruct x as [[]|[]| |[] m1 e1], y as [[]|[]| |[] m2 e2]; try done. intros _ _. by apply normalize_sign.
Qed.

Lemma nonneg_of_Z z : 0 <= z -> nonneg (of_Z z) = true.
Proof. apply normalize_sign. Qed.

#[export] Hint Resolve nonneg_nan nonneg_add nonneg_of_Z : double.

(** ** Exact integers *)

Lemma digits_bounds m : 2 ^ (Zpos (digits2_pos m) - 1) <= Zpos m < 2 ^ Zpos (digits2_pos m).
Proof.
  induction m as [m IH|m IH|]; cbn [digits2_pos]; [| |lia]; rewrite Pos2Z.inj_succ;
    replace (Z.succ (Zpos (digits2_pos m)) - 1) with (Zpos (digits2_pos m)) by lia;
    rewrite Z.pow_succ_r by lia;
    (assert (2 ^ Zpos (digits2_pos m) = 2 * 2 ^ (Zpos (digits2_pos m) - 1))
       by (rewrite <- Z.pow_succ_r by lia; f_equal; lia)); lia.
Qed.

Lemma digits_unique m d : 1 <= d -> 2 ^ (d - 1) <= Zpos m < 2 ^ d -> Zpos (digits2_pos m) = d.
Proof.
  intros Hd Hm. pose proof (digits_bounds m) as Hb.
  destruct (Z.lt_trichotomy (Zpos (digits2_pos m)) d) as [H|[H|H]]; [|done|].
  - pose proof (pow2_le_mono (Zpos (digits2_pos m)) (d - 1)). lia.
  - pose proof (pow2_le_mono d (Zpos (digits2_pos m) - 1)). lia.
Qed.

(** Shifting out zeros loses nothing. *)
Lemma shr_zeros (n : nat) m : Nat.iter n shr_1 (Build_shr_record (Z.pos m * 2 ^ Z.of_nat n) false false) = Build_shr_record (Zpos m) false false.
Proof.
  revert m. induction n as [|n IH]; intros m; [change (2 ^ Z.of_nat 0) with 1; by rewrite Z.mul_1_r|].
  rewrite Nat2Z.inj_succ, Z.pow_succ_r by lia. replace (Z.pos m * (2 * 2 ^ Z.of_nat n)) with (Z.pos (xO m) * 2 ^ Z.of_nat n) by lia.
  rewrite Nat.iter_succ. by rewrite IH.
Qed.

Lemma iter_pos_nat {A} (f : A -> A) n : forall x, SpecFloat.iter_pos f n x = Nat.iter (Pos.to_nat n) f x.
Proof.
  induction n as [n IH|n IH|]; intros x; cbn [SpecFloat.iter_pos]; [| |done].
  - rewrite !IH, Pos2Nat.inj_xI, Nat.iter_succ_r. rewrite <- Nat.iter_add. f_equal. lia.
  - rewrite !IH, Pos2Nat.inj_xO. rewrite <- Nat.iter_add. f_equal. lia.
Qed.

(** A normal number: 53 digits. *)
Definition normal (m : positive) (e : Z) : Prop := 2 ^ 52 <= Zpos m < 2 ^ 53 /\ -1074 <= e <= 971.

Lemma round_exact m e (k : nat) p :
  normal m e -> Zpos p = Zpos m * 2 ^ Z.of_nat k ->
  binary_round_aux 53 1024 false (Zpos p) (e - Z.of_nat k) loc_Exact = S754_finite false m e.
Proof.
  intros [Hm He] Hp. unfold binary_round_aux.
  assert (Dm : Zpos (digits2_pos m) = 53) by (by apply digits_unique).
  assert (Dp : Zpos (digits2_pos p) = 53 + Z.of_nat k).
  { apply digits_unique; [lia|]. replace (53 + Z.of_nat k - 1) with (52 + Z.of_nat k) by lia. rewrite Hp, !Z.pow_add_r by lia.
    pose proof (pow2_pos (Z.of_nat k) ltac:(lia)). nia. }
  assert (Hs : shr_fexp 53 1024 (Zpos p) (e - Z.of_nat k) loc_Exact = (Build_shr_record (Zpos m) false false, e)).
  { unfold shr_fexp, fexp, emin. cbn [Zdigits2 shr_record_of_loc]. rewrite Dp.
    replace (Z.max _ _ - _) with (Z.of_nat k) by lia. destruct k as [|k].
    - change (2 ^ Z.of_nat 0) with 1 in Hp. rewrite Z.mul_1_r in Hp. cbn [Z.of_nat]. by rewrite Z.sub_0_r, Hp.
    - cbn [Z.of_nat]. unfold shr. f_equal; [|lia]. rewrite iter_pos_nat, SuccNat2Pos.id_succ, Hp. apply shr_zeros. }
  rewrite Hs. cbn [shr_m loc_of_shr_record round_nearest_even].
  assert (Hs2 : shr_fexp 53 1024 (Zpos m) e loc_Exact = (Build_shr_record (Zpos m) false false, e)).
  { unfold shr_fexp, fexp, emin. cbn [Zdigits2 shr_record_of_loc]. rewrite Dm. by replace (Z.max _ _ - _) with 0 by lia. }
  rewrite Hs2. cbn [shr_m]. rewrite (proj2 (Z.leb_le _ _)) by lia. done.
Qed.

(** The normal form of a positive integer below 2^53. *)
Definition norm_exp (z : Z) : Z := Z.log2 z - 52.
Definition norm_man (z : Z) : positive := Z.to_pos (z * 2 ^ (- norm_exp z)).

Lemma norm_spec z : 0 < z < 2 ^ 53 ->
  -52 <= norm_exp z <= 0 /\ Zpos (norm_man z) = z * 2 ^ (- norm_exp z) /\ normal (norm_man z) (norm_exp z).
Proof.
  intros Hz. unfold norm_man, norm_exp. pose proof (Z.log2_spec z ltac:(lia)) as Hl. pose proof (Z.log2_nonneg z).
  assert (Z.log2 z < 53) by (apply Z.log2_lt_pow2; lia). set (d := Z.log2 z) in *.
  pose proof (pow2_pos (- (d - 52)) ltac:(lia)).
  assert (E1 : 2 ^ 52 = 2 ^ d * 2 ^ (- (d - 52))) by (rewrite <- Z.pow_add_r by lia; f_equal; lia).
  assert (E2 : 2 ^ 53 = 2 ^ Z.succ d * 2 ^ (- (d - 52))) by (rewrite <- Z.pow_add_r by lia; f_equal; lia).
  assert (0 < z * 2 ^ (- (d - 52))) by nia. unfold normal. rewrite Z2Pos.id by done.
  split; [lia|]. split; [done|]. rewrite E1, E2. split; [nia|lia].
Qed.

(** Rounding a multiple of 2^e that is an integer below 2^53. *)
Lemma round_integer z e p :
  0 < z < 2 ^ 53 -> -1000 <= e <= norm_exp z -> Zpos p = z * 2 ^ (- e) ->
  binary_normalize 53 1024 (Zpos p) e false = S754_finite false (norm_man z) (norm_exp z).
Proof.
  intros Hz He Hp. destruct (norm_spec z Hz) as (Hr & Em & Hn). cbn [binary_normalize]. unfold binary_round.
  assert (Ep : Zpos p = Zpos (norm_man z) * 2 ^ Z.of_nat (Z.to_nat (norm_exp z - e))).
  { rewrite Hp, Em, Z2Nat.id, <- Z.mul_assoc, <- Z.pow_add_r by lia. do 2 f_equal. lia. }
  assert (Dp : Zpos (digits2_pos p) = 53 + norm_exp z - e).
  { destruct Hn as [Hn _]. apply digits_unique; [lia|]. rewrite Ep, Z2Nat.id by lia.
    replace (53 + norm_exp z - e - 1) with (52 + (norm_exp z - e)) by lia.
    replace (53 + norm_exp z - e) with (53 + (norm_exp z - e)) by lia. rewrite !Z.pow_add_r by lia.
    pose proof (pow2_pos (norm_exp z - e) ltac:(lia)). nia. }
  unfold shl_align, fexp, emin. rewrite Dp. replace (Z.max _ _ - e) with (norm_exp z - e) by lia.
  destruct (norm_exp z - e) eqn:Ed; [| |lia]; rewrite <- Ed in Ep;
    replace e with (norm_exp z - Z.of_nat (Z.to_nat (norm_exp z - e))) at 1 by lia; by apply round_exact.
Qed.

Lemma iter_xO p q : Zpos (Pos.iter xO p q) = Zpos p * 2 ^ Zpos q.
Proof.
  induction q as [|q IH] using Pos.peano_ind; [cbn; lia|].
  rewrite Pos.iter_succ, Pos2Z.inj_succ, Z.pow_succ_r by lia. rewrite Pos2Z.inj_xO, IH. lia.
Qed.

Lemma of_Z_normal z : 0 < z < 2 ^ 53 -> of_Z z = S754_finite false (norm_man z) (norm_exp z).
Proof.
  intros Hz. destruct (norm_spec z Hz) as (Hr & Em & Hn). destruct z as [|p|p]; [lia| |lia]. unfold of_Z.
  destruct (decide (norm_exp (Zpos p) = 0)) as [E0|E0].
  - apply round_integer; [done|lia|]. cbn. lia.
  - (* fewer than 53 digits: the mantissa is first shifted to the left *)
    cbn [binary_normalize]. unfold binary_round.
    assert (Dp : Zpos (digits2_pos p) = norm_exp (Zpos p) + 53).
    { apply digits_unique; [lia|]. pose proof (Z.log2_spec (Zpos p) ltac:(lia)) as Hl. unfold norm_exp.
      replace (Z.log2 (Z.pos p) - 52 + 53 - 1) with (Z.log2 (Z.pos p)) by lia.
      by replace (Z.log2 (Z.pos p) - 52 + 53) with (Z.succ (Z.log2 (Z.pos p))) by lia. }
    unfold shl_align, fexp, emin. rewrite Dp. replace (Z.max _ _ - 0) with (norm_exp (Zpos p)) by lia.
    destruct (norm_exp (Zpos p)) as [|q|q] eqn:Ee; [lia|lia|].
    replace (Z.max _ _) with (Z.neg q) by lia.
    replace (Z.neg q) with (Z.neg q - Z.of_nat 0) at 1 by lia. apply round_exact; [done|].
    rewrite iter_xO. change (2 ^ Z.of_nat 0) with 1. rewrite Em. by rewrite Z.mul_1_r.
Qed.

Lemma of_Z_add a b : 0 < a -> 0 < b -> a + b < 2 ^ 53 -> dadd (of_Z a) (of_Z b) = of_Z (a + b).
Proof.
  intros Ha Hb Hab. rewrite !of_Z_normal by lia.
  destruct (norm_spec a ltac:(lia)) as (Ra & Ea & _), (norm_spec b ltac:(lia)) as (Rb & Eb & _).
  unfold dadd. cbn [SFadd cond_Zopp]. set (ez := Z.min _ _).
  assert (Hle : ez <= norm_exp (a + b)).
  { subst ez. unfold norm_exp. pose proof (Z.log2_le_mono a (a + b)). pose proof (Z.log2_le_mono b (a + b)). lia. }
  assert (Esh : forall z, 0 < z -> ez <= norm_exp z -> Zpos (norm_man z) = z * 2 ^ (- norm_exp z) -> norm_exp z <= 0 ->
            Zpos (fst (shl_align (norm_man z) (norm_exp z) ez)) = z * 2 ^ (- ez)).
  { intros z Hz Hez Em Hr. unfold shl_align. destruct (ez - norm_exp z) as [|q|q] eqn:Ed; cbn [fst]; [|lia|].
    - rewrite Em. do 2 f_equal. lia.
    - replace (- ez) with (- norm_exp z + Zpos q) by lia. rewrite Z.pow_add_r, Z.mul_assoc, <- Em by lia.
      apply iter_xO. }
  rewrite !Esh by (try done; subst ez; lia). rewrite <- Z.mul_add_distr_r.
  pose proof (pow2_pos (- ez) ltac:(lia)). assert (0 < (a + b) * 2 ^ (- ez)) by nia.
  destruct ((a + b) * 2 ^ (- ez)) as [|p|p] eqn:Ep; [lia| |lia]. apply round_integer; lia.
Qed.

Lemma of_Z_key z : 0 < z < 2 ^ 53 -> key (of_Z z) = (1, norm_exp z, Zpos (norm_man z)) /\ is_nan (of_Z z) = false.
Proof. intros Hz. by rewrite of_Z_normal. Qed.

Lemma norm_lt a b : 0 < a < 2 ^ 53 -> 0 < b < 2 ^ 53 -> a < b ->
  key_lt (1, norm_exp a, Zpos (norm_man a)) (1, norm_exp b, Zpos (norm_man b)).
Proof.
  intros Ha Hb Hab. destruct (norm_spec a Ha) as (Ra & Ea & _), (norm_spec b Hb) as (Rb & Eb & _).
  right. split; [done|]. pose proof (Z.log2_le_mono a b ltac:(lia)).
  destruct (decide (norm_exp a = norm_exp b)) as [E|E]; [right; split; [done|]|left; unfold norm_exp in *; lia].
  rewrite Ea, Eb, E. apply Z.mul_lt_mono_pos_r; [apply pow2_pos; lia|done].
Qed.

Lemma of_Z_lt a b : 0 < a < 2 ^ 53 -> 0 < b < 2 ^ 53 -> dlt (of_Z a) (of_Z b) = (a <? b)%Z.
Proof.
  intros Ha Hb. destruct (of_Z_key a Ha) as [Ka Na], (of_Z_key b Hb) as [Kb Nb].
  apply eq_true_iff_eq. rewrite dlt_spec, Ka, Kb, Z.ltb_lt by done. split; [|by apply norm_lt].
  intros Hl. destruct (Z.lt_trichotomy a b) as [|[->|]]; [done| |].
  - by apply key_lt_irrefl in Hl.
  - destruct (key_lt_irrefl (1, norm_exp a, Zpos (norm_man a))). eapply key_lt_trans; [done|by apply norm_lt].
Qed.

Lemma of_Z_eq a b : 0 < a < 2 ^ 53 -> 0 < b < 2 ^ 53 -> deq (of_Z a) (of_Z b) = (a =? b)%Z.
Proof.
  intros Ha Hb. destruct (of_Z_key a Ha) as [Ka Na], (of_Z_key b Hb) as [Kb Nb].
  apply eq_true_iff_eq. rewrite deq_spec, Ka, Kb, Z.eqb_eq by done. split; [|by intros ->].
  intros Hl. destruct (Z.lt_trichotomy a b) as [H|[H|H]]; [|done|]; apply norm_lt in H; try done;
    rewrite Hl in H; by apply key_lt_irrefl in H.
Qed.

(** ** Bounds that exclude NaN, zero and infinity *)

Lemma dlt_irrefl x : dlt x x = false.
Proof.
  destruct (is_nan x) eqn:Hx; [by destruct x|]. apply not_true_is_false. rewrite dlt_spec by done. apply key_lt_irrefl.
Qed.

Lemma dlt_asym x y : dlt x y = true -> dlt y x = false.
Proof.
  intros H. assert (Hx : is_nan x = false) by by destruct x. assert (Hy : is_nan y = false) by (by destruct x, y).
  apply not_true_is_false. intros F. rewrite dlt_spec in H, F by done. by eapply key_lt_irrefl, key_lt_trans.
Qed.

Lemma dle_iff x y : dle x y = true <-> is_nan x = false /\ is_nan y = false /\ dlt y x = false.
Proof.
  assert (H : is_nan x = false -> is_nan y = false -> dle x y = negb (dlt y x)).
  { intros Hx Hy. pose proof (compare_key x y Hx Hy) as H1. pose proof (compare_key y x Hy Hx) as H2. unfold dle, SFleb, dlt, SFltb.
    destruct (SFcompare x y) as [[]|], (SFcompare y x) as [[]|]; try done; exfalso;
      (by eapply key_lt_irrefl, key_lt_trans) || (rewrite ?H1, ?H2 in *; by eapply key_lt_irrefl). }
  split.
  - intros E. assert (Hx : is_nan x = false) by by destruct x. assert (Hy : is_nan y = false) by (by destruct x as [[]|[]| |[]], y).
    rewrite H in E by done. by apply negb_true_iff in E.
  - intros (Hx & Hy & E). by rewrite H, E.
Qed.

Lemma dle_trans x y z : dle x y = true -> dle y z = true -> dle x z = true.
Proof.
  rewrite !dle_iff. intros (Hx & Hy & H1) (_ & Hz & H2). split; [done|]. split; [done|]. apply not_true_is_false. intros H3.
  destruct (dlt_trichotomy x y Hx Hy) as [H|[H|H]]; [| |congruence]; destruct (dlt_trichotomy y z Hy Hz) as [G|[G|G]]; try congruence.
  all: rewrite ?dlt_spec, ?deq_spec in * by done.
  - eapply key_lt_irrefl, key_lt_trans; [exact H|]. eapply key_lt_trans; done.
  - rewrite G in *. eapply key_lt_irrefl, key_lt_trans; done.
  - rewrite H in *. eapply key_lt_irrefl, key_lt_trans; done.
  - rewrite H, G in *. by eapply key_lt_irrefl.
Qed.

Lemma Max_dle x y : is_nan y = false -> dle y (Max x y) = true.
Proof.
  intros Hy. rewrite dle_iff. unfold Max. destruct (dlt y x) eqn:E.
  - split; [done|]. split; [by destruct x, y|]. by apply dlt_asym.
  - split; [done|]. split; [done|]. apply dlt_irrefl.
Qed.

Lemma Min_dle x y : is_nan y = false -> dle (Min x y) y = true.
Proof.
  intros Hy. rewrite dle_iff. unfold Min. destruct (dlt x y) eqn:E.
  - split; [by destruct x|]. split; [done|]. by apply dlt_asym.
  - split; [done|]. split; [done|]. apply dlt_irrefl.
Qed.

(** A positive number, and one of moderate size with at most 53 digits. *)
Definition posfin (x : double) : bool := match x with S754_finite false _ _ => true | _ => false end.

Definition short (x : double) : bool := match x with S754_finite _ m _ => (Zpos (digits2_pos m) <=? 53)%Z | _ => true end.

Definition moderate (x : double) : bool :=
  match x with S754_finite false m e => (Zpos (digits2_pos m) <=? 53)%Z && ((-400 <=? e) && (e <=? 400))%Z | _ => false end.

Lemma posfin_nonneg x : posfin x = true -> nonneg x = true.
Proof. by destruct x as [| | |[]]. Qed.

Lemma moderate_posfin x : moderate x = true -> posfin x = true.
Proof. by destruct x as [| | |[]]. Qed.

Lemma posfin_between lo x hi : posfin lo = true -> posfin hi = true -> dle lo x = true -> dle x hi = true -> posfin x = true.
Proof. destruct lo as [| | |[] ], hi as [| | |[] ], x as [[]|[]| |[] ]; done. Qed.

Lemma moderate_between lo x hi : moderate lo = true -> moderate hi = true -> dle lo x = true -> dle x hi = true -> short x = true -> moderate x = true.
Proof.
  intros Hlo Hhi H1 H2 Hs. assert (Hp : posfin x = true) by (apply (posfin_between lo x hi); auto using moderate_posfin).
  destruct lo as [| | |[] m1 e1], hi as [| | |[] m2 e2], x as [| | |[] m e]; try done. cbn in *.
  apply andb_true_iff in Hlo as [_ Hlo], Hhi as [_ Hhi]. rewrite Hs. unfold dle, SFleb in *. cbn in H1, H2.
  destruct (Z.compare_spec e1 e), (Z.compare_spec e e2); lia || done.
Qed.

(** A shift to the right divides. *)
Lemma shr_1_div r : 0 <= shr_m r -> shr_m (shr_1 r) = shr_m r / 2 /\ 0 <= shr_m (shr_1 r).
Proof.
  intros H. split; [|by apply shr_1_nonneg]. destruct r as [[|[q|q|]|q] r1 s1]; cbn in *; [done| | |done|lia].
  - apply (Z.div_unique _ _ _ 1); lia.
  - apply (Z.div_unique _ _ _ 0); lia.
Qed.

Lemma shr_div r e n : 0 <= shr_m r -> shr_m (fst (shr r e n)) = shr_m r / 2 ^ Z.max 0 n /\ snd (shr r e n) = e + Z.max 0 n.
Proof.
  intros Hr. destruct n as [|p|p]; cbn [shr fst snd]; [rewrite Z.div_1_r; lia| |rewrite Z.div_1_r; lia].
  split; [|lia]. rewrite iter_pos_nat, Z.max_r, <- (positive_nat_Z p) by lia. generalize (Pos.to_nat p). intros k.
  enough (H : shr_m (Nat.iter k shr_1 r) = shr_m r / 2 ^ Z.of_nat k /\ 0 <= shr_m (Nat.iter k shr_1 r)) by apply H.
  induction k as [|k [IH Hk]]; [change (2 ^ Z.of_nat 0) with 1; by rewrite Z.div_1_r|].
  rewrite Nat.iter_succ. destruct (shr_1_div _ Hk) as [-> H]. split; [|done].
  rewrite IH, Z.div_div by (try apply pow2_pos; lia). f_equal. rewrite Nat2Z.inj_succ, Z.pow_succ_r by lia. lia.
Qed.

Lemma shr_fexp_div m e l : 0 <= m ->
  let n := Z.max 0 (Z.max (Zdigits2 m + e - 53) (-1074) - e) in
  shr_m (fst (shr_fexp 53 1024 m e l)) = m / 2 ^ n /\ snd (shr_fexp 53 1024 m e l) = e + n.
Proof.
  intros Hm. unfold shr_fexp, fexp, emin. assert (Hl : shr_m (shr_record_of_loc m l) = m) by (by destruct l as [|[] ]).
  destruct (shr_div (shr_record_of_loc m l) e (Z.max (Zdigits2 m + e - 53) (3 - 1024 - 53) - e)) as [H1 H2]; [lia|]. rewrite H1, H2, Hl. done.
Qed.

Lemma nearest_even_step m l : round_nearest_even m l = m \/ round_nearest_even m l = m + 1.
Proof. unfold round_nearest_even. destruct l as [|[] ]; auto. destruct (Z.even m); auto. Qed.

(** A result of rounding has at most 53 digits. *)
Lemma digits_div p n : 0 <= n -> Zpos (digits2_pos p) - n <= 53 -> forall m, Zpos m = Zpos p / 2 ^ n -> Zpos (digits2_pos m) <= 53.
Proof.
  intros Hn Hd m Em. pose proof (digits_bounds p) as Hp. pose proof (digits_bounds m) as Hm. pose proof (pow2_pos n Hn).
  assert (Zpos m < 2 ^ 53).
  { rewrite Em. apply Z.div_lt_upper_bound; [done|]. rewrite <- Z.pow_add_r by lia. pose proof (pow2_le_mono (Zpos (digits2_pos p)) (n + 53) ltac:(lia)). lia. }
  destruct (Z.le_gt_cases (Zpos (digits2_pos m)) 53) as [|Hg]; [done|]. pose proof (pow2_le_mono 53 (Zpos (digits2_pos m) - 1) ltac:(lia)). lia.
Qed.

Lemma round_aux_short s m e l : 0 <= m -> short (binary_round_aux 53 1024 s m e l) = true.
Proof.
  intros Hm. unfold binary_round_aux. destruct (shr_fexp_div m e l Hm) as [H1 _]. destruct (shr_fexp 53 1024 m e l) as [r1 e1]. cbn [fst] in H1.
  assert (H0 : 0 <= shr_m r1) by (rewrite H1; apply Z.div_pos; [done|apply pow2_pos; lia]).
  assert (H2 : 0 <= round_nearest_even (shr_m r1) (loc_of_shr_record r1)) by (destruct (nearest_even_step (shr_m r1) (loc_of_shr_record r1)); lia).
  set (m2 := round_nearest_even _ _) in *. destruct (shr_fexp_div m2 e1 loc_Exact H2) as [H3 _].
  destruct (shr_fexp 53 1024 m2 e1 loc_Exact) as [r2 e2]. cbn [fst] in H3. destruct (shr_m r2) as [|q|q] eqn:Eq; [done| |done].
  destruct (Z.leb _ _); [|done]. cbn [short]. apply Z.leb_le.
  destruct m2 as [|p|p]; [rewrite Z.div_0_l in H3 by (apply Z.pow_nonzero; lia); done| |lia].
  cbn [Zdigits2] in H3. eapply digits_div; [|idtac|exact H3]; lia.
Qed.

(** Rounding in the middle of the range gives a positive number. *)
Lemma round_aux_posfin m e : -1000 <= Zpos (digits2_pos m) + e <= 1000 -> e <= 900 -> posfin (binary_round_aux 53 1024 false (Zpos m) e loc_Exact) = true.
Proof.
  intros Hd He. unfold binary_round_aux. destruct (shr_fexp_div (Zpos m) e loc_Exact ltac:(lia)) as [H1 E1]. pose proof (digits_bounds m) as Hm. cbn [Zdigits2] in *.
  set (n := Z.max 0 (Z.max (Zpos (digits2_pos m) + e - 53) (-1074) - e)) in *.
  destruct (shr_fexp 53 1024 (Zpos m) e loc_Exact) as [r1 e1]. cbn [fst snd] in *.
  assert (Hn : n = Z.max 0 (Zpos (digits2_pos m) - 53)) by lia. pose proof (pow2_pos n ltac:(lia)).
  assert (Hr : 0 < shr_m r1 < 2 ^ (Zpos (digits2_pos m) - n)).
  { rewrite H1. split; [apply Z.div_str_pos; split; [done|]; pose proof (pow2_le_mono n (Zpos (digits2_pos m) - 1) ltac:(lia)); lia|].
    apply Z.div_lt_upper_bound; [done|]. rewrite <- Z.pow_add_r by lia. replace (n + (Zpos (digits2_pos m) - n)) with (Zpos (digits2_pos m)) by lia. lia. }
  assert (Hm2 : exists p, round_nearest_even (shr_m r1) (loc_of_shr_record r1) = Zpos p /\ Zpos (digits2_pos p) <= Zpos (digits2_pos m) - n + 1).
  { destruct (nearest_even_step (shr_m r1) (loc_of_shr_record r1)) as [->| ->].
    all: match goal with |- exists p, ?k = _ /\ _ => destruct k as [|p|p] eqn:Ek; [lia| |lia]; exists p; split; [done|] end.
    all: pose proof (digits_bounds p); destruct (Z.le_gt_cases (Zpos (digits2_pos p)) (Zpos (digits2_pos m) - n + 1)) as [|Hg]; [done|].
    all: pose proof (pow2_le_mono (Zpos (digits2_pos m) - n + 1) (Zpos (digits2_pos p) - 1) ltac:(lia)).
    all: rewrite (Z.pow_add_r 2 (Zpos (digits2_pos m) - n) 1) in * by lia; lia. }
  destruct Hm2 as (p & -> & Hp). destruct (shr_fexp_div (Zpos p) e1 loc_Exact ltac:(lia)) as [H2 E2]. pose proof (digits_bounds p) as Hb. cbn [Zdigits2] in *.
  set (k := Z.max 0 (Z.max (Zpos (digits2_pos p) + e1 - 53) (-1074) - e1)) in *.
  destruct (shr_fexp 53 1024 (Zpos p) e1 loc_Exact) as [r2 e2]. cbn [fst snd] in *.
  assert (Hk : k = Z.max 0 (Zpos (digits2_pos p) - 53)) by lia.
  assert (H3 : 0 < shr_m r2).
  { rewrite H2. pose proof (pow2_pos k ltac:(lia)). apply Z.div_str_pos. split; [done|]. pose proof (pow2_le_mono k (Zpos (digits2_pos p) - 1) ltac:(lia)). lia. }
  destruct (shr_m r2); [lia| |lia]. rewrite (proj2 (Z.leb_le _ _)) by lia. done.
Qed.

Lemma moderate_mul x y : moderate x = true -> moderate y = true -> posfin (dmul x y) = true.
Proof.
  destruct x as [| | |[] m1 e1], y as [| | |[] m2 e2]; try done. cbn. intros H1 H2. apply andb_true_iff in H1 as [D1 H1], H2 as [D2 H2].
  apply round_aux_posfin; [|lia]. pose proof (digits_bounds m1). pose proof (digits_bounds m2). pose proof (digits_bounds (m1 * m2)) as [Hb _].
  assert (Zpos (digits2_pos (m1 * m2)) <= 106); [|lia].
  destruct (Z.le_gt_cases (Zpos (digits2_pos (m1 * m2))) 106) as [|Hg]; [done|]. pose proof (pow2_le_mono 106 (Zpos (digits2_pos (m1 * m2)) - 1) ltac:(lia)).
  pose proof (pow2_le_mono (Zpos (digits2_pos m1)) 53 ltac:(lia)). pose proof (pow2_le_mono (Zpos (digits2_pos m2)) 53 ltac:(lia)).
  assert (Zpos m1 * Zpos m2 < 2 ^ 53 * 2 ^ 53) by (apply Z.mul_lt_mono_nonneg; lia). rewrite <- Z.pow_add_r in * by lia. change (53 + 53) with 106 in *. lia.
Qed.

Lemma div_core_nonneg m1 e1 m2 e2 q e l : SFdiv_core_binary 53 1024 (Zpos m1) e1 (Zpos m2) e2 = (q, e, l) -> 0 <= q.
Proof.
  unfold SFdiv_core_binary. set (s := (e1 - e2 - _)%Z). set (m' := match s with Z0 => _ | Zpos _ => _ | Zneg _ => _ end).
  assert (Hm : 0 <= m') by (subst m'; destruct s; [lia|apply Z.shiftl_nonneg; lia|lia]).
  pose proof (Z_div_mod m' (Zpos m2) ltac:(lia)) as H. destruct (Z.div_eucl m' (Zpos m2)) as [q1 r1]. intros [= -> _ _]. nia.
Qed.

(** Products and quotients are short, and sums of short numbers. *)
Lemma short_mul x y : short (dmul x y) = true.
Proof. destruct x, y; try done. by apply round_aux_short. Qed.

Lemma short_div x y : short (ddiv x y) = true.
Proof.
  destruct x as [| | |s1 m1 e1], y as [| | |s2 m2 e2]; try done. unfold ddiv, SFdiv.
  destruct (SFdiv_core_binary 53 1024 (Zpos m1) e1 (Zpos m2) e2) as [[q e] l] eqn:E. apply round_aux_short. eapply div_core_nonneg. exact E.
Qed.

Lemma short_normalize z e s : short (binary_normalize 53 1024 z e s) = true.
Proof. destruct z; cbn; [done| |]; unfold binary_round; destruct (shl_align _ _ _); by apply round_aux_short. Qed.

Lemma short_add x y : short x = true -> short y = true -> short (dadd x y) = true.
Proof. destruct x as [[]|[]| |], y as [[]|[]| |]; intros Hx Hy; try done. apply short_normalize. Qed.

(** A positive number divided by what is not negative. *)
Lemma div_nan x y : posfin x = true -> nonneg y = true -> is_nan (ddiv x y) = false.
Proof.
  destruct x as [| | |[] m1 e1], y as [[]|[]| |[] m2 e2]; try done. intros _ _. unfold ddiv, SFdiv.
  destruct (SFdiv_core_binary 53 1024 (Zpos m1) e1 (Zpos m2) e2) as [[q e] l] eqn:E. apply nonneg_nan, round_aux_sign. eapply div_core_nonneg. exact E.
Qed.

Lemma mul_nan x y : posfin x = true -> is_nan y = false -> is_nan (dmul x y) = false.
Proof.
  destruct x as [| | |[] m1 e1], y as [| | |t m2 e2]; try done. intros _ _. cbn [dmul SFmul].
  pose proof (round_aux_shape (xorb false t) (Zpos (m1 * m2)) (e1 + e2) loc_Exact ltac:(lia)) as H. cbn. by destruct (binary_round_aux _ _ _ _ _ _).
Qed.
