(* ===== verification/Random.v ===== *)
(** * util: the random number generator

    Models [src/util/random/mersenne64.h] and [src/util/random/mersenne32.h] (the two
    classes have the same algorithm with different constants), and the conversion of
    a draw to a [double] that [RandomNumber<double>()] of [src/util/random/random.cpp]
    returns.  An access outside the array has no defined result. *)

From Stdlib Require Import ZArith Lia Bool SpecFloat.
From stdpp Require Import base numbers list.
From S2P Require Import Prelude Double.

(** ** Words *)

Definition in_word (w x : Z) : Prop := 0 <= x < 2 ^ w.

Section words.
Context (w : Z) (Hw : 0 < w).
Local Notation in_word := (in_word w).

Lemma log2_word x : in_word x -> 0 < x -> Z.log2 x < w.
Proof. intros Hx Hp. apply Z.log2_lt_pow2; [done|apply Hx]. Qed.

Lemma word_below x : 0 <= x -> (0 < x -> Z.log2 x < w) -> in_word x.
Proof.
  intros Hx Hl. destruct (decide (x = 0)) as [->|Hne]; [split; [lia|apply pow2_pos; lia]|].
  split; [done|]. apply Z.log2_lt_pow2; [lia|]. apply Hl. lia.
Qed.

Lemma lxor_ok x y : in_word x -> in_word y -> in_word (Z.lxor x y).
Proof.
  intros Hx Hy. apply word_below; [apply Z.lxor_nonneg; unfold in_word in *; lia|]. intros _.
  eapply Z.le_lt_trans; [apply Z.log2_lxor; apply Hx || apply Hy|].
  destruct (decide (x = 0)) as [->|], (decide (y = 0)) as [->|]; cbn;
    try pose proof (log2_word x Hx); try pose proof (log2_word y Hy); unfold in_word in *; lia.
Qed.

Lemma lor_ok x y : in_word x -> in_word y -> in_word (Z.lor x y).
Proof.
  intros Hx Hy. apply word_below; [apply Z.lor_nonneg; unfold in_word in *; lia|]. intros _.
  rewrite Z.log2_lor by (apply Hx || apply Hy).
  destruct (decide (x = 0)) as [->|], (decide (y = 0)) as [->|]; cbn;
    try pose proof (log2_word x Hx); try pose proof (log2_word y Hy); unfold in_word in *; lia.
Qed.

Lemma land_ok x y : in_word x -> 0 <= y -> in_word (Z.land x y).
Proof.
  intros Hx Hy. apply word_below; [apply Z.land_nonneg; left; apply Hx|]. intros Hp.
  eapply Z.le_lt_trans; [apply Z.log2_land; [apply Hx|done]|]. eapply Z.le_lt_trans; [apply Z.le_min_l|].
  apply log2_word; [done|]. destruct (decide (x = 0)) as [->|]; [by rewrite Z.land_0_l in Hp|]. unfold in_word in *. lia.
Qed.

Lemma shiftr_ok x n : in_word x -> 0 <= n -> in_word (Z.shiftr x n).
Proof.
  intros Hx Hn. unfold in_word in *. rewrite Z.shiftr_div_pow2 by done. pose proof (pow2_pos n Hn).
  split; [apply Z.div_pos; lia|]. apply Z.div_lt_upper_bound; [done|]. nia.
Qed.
End words.

(** ** Constants *)

(** The word size, the macros of the file and the multipliers of its loops. *)
Record mt_params := mk_params {
  W : Z; NN : Z; MM : Z; MATRIX_A : Z; UM : Z; LM : Z;
  init_mult : Z; init_shift : Z; key_mult1 : Z; key_mult2 : Z;
  temper : Z -> Z
}.

Definition temper64 (x : Z) : Z :=
  let x := Z.lxor x (Z.land (Z.shiftr x 29) 0x5555555555555555) in
  let x := Z.lxor x (Z.land (u64 (Z.shiftl x 17)) 0x71D67FFFEDA60000) in
  let x := Z.lxor x (Z.land (u64 (Z.shiftl x 37)) 0xFFF7EEE000000000) in
  Z.lxor x (Z.shiftr x 43).

Definition params64 : mt_params :=
  mk_params 64 312 156 0xB5026F5AA96619E9 0xFFFFFFFF80000000 0x7FFFFFFF
    6364136223846793005 62 3935559000370003845 2862933555777941757 temper64.

Definition temper32 (y : Z) : Z :=
  let y := Z.lxor y (Z.shiftr y 11) in
  let y := Z.lxor y (Z.land (u32 (Z.shiftl y 7)) 0x9d2c5680) in
  let y := Z.lxor y (Z.land (u32 (Z.shiftl y 15)) 0xefc60000) in
  Z.lxor y (Z.shiftr y 18).

Definition params32 : mt_params :=
  mk_params 32 624 397 0x9908b0df 0x80000000 0x7fffffff 1812433253 30 1664525 1566083941 temper32.

(** ** The generator *)

Record mersenne := mk_mt { mt : list Z; mti : Z }.

Section generator.
Context (P : mt_params).

Definition word (x : Z) : Z := x mod 2 ^ W P.

(** [mt[i] = mt[k] ^ (x >> 1) ^ mag01[x & 1]] with [x] from [mt[i]] and [mt[j]]. *)
Definition twist (i j k : Z) (a : list Z) : option (list Z) :=
  let* ai := zget a i in
  let* aj := zget a j in
  let* ak := zget a k in
  let x := Z.lor (Z.land ai (UM P)) (Z.land aj (LM P)) in
  let mag01 := if Z.land x 1 =? 0 then 0 else MATRIX_A P in
  zset a i (Z.lxor (Z.lxor ak (Z.shiftr x 1)) mag01).

(** [n] iterations from [i], the third index being [i + off]. *)
Fixpoint twist_loop (n : nat) (i off : Z) (a : list Z) : option (list Z) :=
  match n with
  | O => Some a
  | S n => let* a := twist i (i + 1) (i + off) a in twist_loop n (i + 1) off a
  end.

Definition refill (a : list Z) : option (list Z) :=
  let* a := twist_loop (Z.to_nat (NN P - MM P)) 0 (MM P) a in
  let* a := twist_loop (Z.to_nat (MM P - 1)) (NN P - MM P) (MM P - NN P) a in
  twist (NN P - 1) 0 (MM P - 1) a.

Fixpoint init_loop (n : nat) (i : Z) (a : list Z) : option (list Z) :=
  match n with
  | O => Some a
  | S n =>
      let* p := zget a (i - 1) in
      let* a := zset a i (word (init_mult P * Z.lxor p (Z.shiftr p (init_shift P)) + i)) in
      init_loop n (i + 1) a
  end.

(** [InitGenRand]: the loop counter is [mti] itself. *)
Definition InitGenRand (s : Z) (a : list Z) : option mersenne :=
  let* a := zset a 0 s in
  let* a := init_loop (Z.to_nat (NN P - 1)) 1 a in
  Some (mk_mt a (NN P)).

(** The step of both loops of [InitByArray] at [i]: the new array and the next [i]. *)
Definition key_step (mult add i : Z) (a : list Z) : option (list Z * Z) :=
  let* ai := zget a i in
  let* p := zget a (i - 1) in
  let* a := zset a i (word (Z.lxor ai (word (Z.lxor p (Z.shiftr p (init_shift P)) * mult)) + add)) in
  if NN P <=? i + 1 then
    let* l := zget a (NN P - 1) in
    let* a := zset a 0 l in
    Some (a, 1)
  else Some (a, i + 1).

Fixpoint key_loop (n : nat) (key : list Z) (i j : Z) (a : list Z) : option (list Z * Z) :=
  match n with
  | O => Some (a, i)
  | S n =>
      let* k := zget key j in
      let* (a, i) := key_step (key_mult1 P) (k + j) i a in
      key_loop n key i (if zlen key <=? j + 1 then 0 else j + 1) a
  end.

Fixpoint mix_loop (n : nat) (i : Z) (a : list Z) : option (list Z) :=
  match n with
  | O => Some a
  | S n => let* (a, i) := key_step (key_mult2 P) (- i) i a in mix_loop n i a
  end.

Definition InitByArray (key : list Z) (a : list Z) : option mersenne :=
  let* g := InitGenRand 19650218 a in
  let* (a, i) := key_loop (Z.to_nat (Z.max (NN P) (zlen key))) key 1 0 (mt g) in
  let* a := mix_loop (Z.to_nat (NN P - 1)) i a in
  let* a := zset a 0 (2 ^ (W P - 1)) in
  Some (mk_mt a (mti g)).

Definition GenRand (g : mersenne) : option (Z * mersenne) :=
  let* g := if NN P <=? mti g then
              let* g := if mti g =? NN P + 1 then InitGenRand 5489 (mt g) else Some g in
              let* a := refill (mt g) in
              Some (mk_mt a 0)
            else Some g in
  let* x := zget (mt g) (mti g) in
  Some (temper P x, mk_mt (mt g) (mti g + 1)).

(** ** Safety *)

Class mt_params_ok : Prop := {
  W_pos : 0 < W P;
  shift_pos : 0 <= init_shift P;
  sizes : 1 < MM P < NN P /\ NN P - MM P < NN P - 1;
  masks : in_word (W P) (UM P) /\ in_word (W P) (LM P) /\ in_word (W P) (MATRIX_A P);
  temper_range x : in_word (W P) x -> in_word (W P) (temper P x)
}.
Context {HP : mt_params_ok}.

Local Notation word_ok := (in_word (W P)).

Definition state_ok (a : list Z) : Prop := zlen a = NN P /\ Forall word_ok a.

Definition mt_ok (g : mersenne) : Prop := state_ok (mt g) /\ 0 <= mti g <= NN P.

Lemma word_range x : word_ok (word x).
Proof. pose proof W_pos. apply Z.mod_pos_bound, pow2_pos. lia. Qed.

Hint Resolve W_pos word_range lxor_ok lor_ok land_ok shiftr_ok : core.

Lemma zget_ok a i : state_ok a -> 0 <= i < NN P -> exists x, zget a i = Some x /\ word_ok x.
Proof.
  intros [Hl Hw] Hi. destruct (zget_is_Some a i) as [x Hx]; [lia|]. exists x. split; [done|].
  unfold zget in Hx. destruct (0 <=? i); [|done]. rewrite Forall_lookup in Hw. by eapply Hw.
Qed.

Lemma zset_ok a i x : state_ok a -> 0 <= i < NN P -> word_ok x -> exists a', zset a i x = Some a' /\ state_ok a'.
Proof.
  intros [Hl Hw] Hi Hx. destruct (zset_is_Some a i x) as [a' Ha]; [lia|]. exists a'. split; [done|].
  split; [by rewrite (zlen_zset _ _ _ _ Ha)|]. apply zset_inv in Ha as [_ ->]. by apply Forall_insert.
Qed.

(** Reads and writes inside the array, with the words they give. *)
Ltac rd H := match goal with |- context [zget ?a ?i] =>
  let x := fresh "x" in let E := fresh "E" in
  destruct (zget_ok a i H ltac:(lia)) as (x & E & ?); rewrite E; clear E end.
Ltac wr H H' := match goal with |- context [zset ?a ?i ?v] =>
  let E := fresh "E" in let a' := fresh "a" in
  destruct (zset_ok a i v H ltac:(lia)) as (a' & E & H'); [auto 6|rewrite E; clear E] end.

Lemma twist_ok i j k a : state_ok a -> 0 <= i < NN P -> 0 <= j < NN P -> 0 <= k < NN P ->
  exists a', twist i j k a = Some a' /\ state_ok a'.
Proof.
  intros Ha Hi Hj Hk. destruct masks as (Mu & Ml & Mm). unfold twist. rd Ha. rd Ha. rd Ha.
  apply zset_ok; [done|done|]. pose proof W_pos as Hw.
  assert (Hx : word_ok (Z.lor (Z.land x (UM P)) (Z.land x0 (LM P)))).
  { apply (lor_ok _ Hw); apply (land_ok _ Hw); try done; [apply Mu|apply Ml]. }
  apply (lxor_ok _ Hw); [apply (lxor_ok _ Hw); [done|apply shiftr_ok; (done || lia)]|].
  destruct (_ =? 0); [|done]. split; [lia|apply pow2_pos; lia].
Qed.

Lemma twist_loop_ok n : forall i off a, state_ok a -> 0 <= i -> i + Z.of_nat n <= NN P - 1 ->
  0 <= i + off -> i + Z.of_nat n + off <= NN P -> exists a', twist_loop n i off a = Some a' /\ state_ok a'.
Proof.
  induction n as [|n IH]; intros i off a Ha Hi Hn Ho Hno; cbn [twist_loop]; [by exists a|].
  destruct (twist_ok i (i + 1) (i + off) a) as (a' & -> & Ha'); try done; try lia. apply IH; try done; lia.
Qed.

Lemma mt_refill_ok a : state_ok a -> exists a', refill a = Some a' /\ state_ok a'.
Proof.
  intros Ha. pose proof sizes as [Hs Hs']. unfold refill.
  destruct (twist_loop_ok (Z.to_nat (NN P - MM P)) 0 (MM P) a Ha) as (a1 & -> & H1); try lia.
  destruct (twist_loop_ok (Z.to_nat (MM P - 1)) (NN P - MM P) (MM P - NN P) a1 H1) as (a2 & -> & H2); try lia.
  apply twist_ok; try done; lia.
Qed.

Lemma init_loop_ok n : forall i a, state_ok a -> 1 <= i -> i + Z.of_nat n <= NN P ->
  exists a', init_loop n i a = Some a' /\ state_ok a'.
Proof.
  induction n as [|n IH]; intros i a Ha Hi Hn; cbn [init_loop]; [by exists a|]. rd Ha. wr Ha Ha'. apply IH; try done; lia.
Qed.

Lemma InitGenRand_ok s a : word_ok s -> state_ok a -> exists g, InitGenRand s a = Some g /\ mt_ok g /\ mti g = NN P.
Proof.
  intros Hs Ha. pose proof sizes. unfold InitGenRand. wr Ha Ha'.
  destruct (init_loop_ok (Z.to_nat (NN P - 1)) 1 _ Ha') as (a2 & -> & H2); try lia.
  eexists. split; [done|]. split; [|done]. split; [done|cbn; lia].
Qed.

Lemma key_step_ok mult add i a : state_ok a -> 1 <= i < NN P ->
  exists a' i', key_step mult add i a = Some (a', i') /\ state_ok a' /\ 1 <= i' < NN P.
Proof.
  intros Ha Hi. pose proof sizes. unfold key_step. rd Ha. rd Ha. wr Ha Ha'.
  destruct (_ <=? _) eqn:E; b2p.
  - rd Ha'. wr Ha' Ha''. eexists _, _. split; [done|]. split; [done|lia].
  - eexists _, _. split; [done|]. split; [done|lia].
Qed.

Lemma key_loop_ok n : forall key i j a, state_ok a -> 1 <= i < NN P -> 0 <= j < zlen key ->
  exists a' i', key_loop n key i j a = Some (a', i') /\ state_ok a' /\ 1 <= i' < NN P.
Proof.
  induction n as [|n IH]; intros key i j a Ha Hi Hj; cbn [key_loop]; [by exists a, i|].
  destruct (zget_is_Some key j Hj) as [k ->].
  destruct (key_step_ok (key_mult1 P) (k + j) i a Ha Hi) as (a1 & i1 & -> & H1 & H2).
  apply IH; try done. destruct (_ <=? _) eqn:E; b2p; lia.
Qed.

Lemma mix_loop_ok n : forall i a, state_ok a -> 1 <= i < NN P -> exists a', mix_loop n i a = Some a' /\ state_ok a'.
Proof.
  induction n as [|n IH]; intros i a Ha Hi; cbn [mix_loop]; [by exists a|].
  destruct (key_step_ok (key_mult2 P) (- i) i a Ha Hi) as (a1 & i1 & -> & H1 & H2). by apply IH.
Qed.

Lemma InitByArray_ok key a : word_ok 19650218 -> state_ok a -> 0 < zlen key ->
  exists g, InitByArray key a = Some g /\ mt_ok g /\ mti g = NN P.
Proof.
  intros Hs Ha Hk. pose proof sizes. pose proof W_pos. unfold InitByArray.
  destruct (InitGenRand_ok _ a Hs Ha) as (g & -> & [Hg _] & Em).
  destruct (key_loop_ok (Z.to_nat (Z.max (NN P) (zlen key))) key 1 0 (mt g) Hg) as (a1 & i1 & -> & H1 & Hi1); try lia.
  destruct (mix_loop_ok (Z.to_nat (NN P - 1)) i1 a1 H1 Hi1) as (a2 & -> & H2).
  destruct (zset_ok a2 0 (2 ^ (W P - 1)) H2) as (a3 & -> & H3); [lia| |].
  { split; [apply Z.pow_nonneg; lia|apply pow2_lt_mono; lia]. }
  eexists. split; [done|]. split; [|done]. split; [done|cbn; lia].
Qed.

(** A draw is a word, and the array is never left. *)
Lemma GenRand_ok g : mt_ok g -> exists x g', GenRand g = Some (x, g') /\ word_ok x /\ mt_ok g' /\ 0 < mti g'.
Proof.
  intros [Ha Hm]. pose proof sizes. unfold GenRand. destruct (NN P <=? mti g) eqn:E; b2p.
  - rewrite (proj2 (Z.eqb_neq (mti g) (NN P + 1))) by lia. destruct (mt_refill_ok (mt g) Ha) as (a & -> & Ha').
    cbn [mt mti]. rd Ha'. eexists _, _. split; [done|]. split; [by apply temper_range|]. split; [|cbn; lia].
    split; [done|cbn; lia].
  - rd Ha. eexists _, _. split; [done|]. split; [by apply temper_range|]. split; [|cbn; lia]. split; [done|cbn; lia].
Qed.
End generator.

(** ** The two generators *)

Lemma mask_word w x m : 0 < w -> 0 <= x -> in_word w m -> in_word w (Z.land x m).
Proof. intros Hw Hx Hm. rewrite Z.land_comm. by apply land_ok. Qed.

#[export] Instance params64_ok : mt_params_ok params64.
Proof.
  split; cbn; unfold in_word; try lia. intros x Hx. unfold temper64.
  repeat first [apply (lxor_ok 64)|apply (mask_word 64)|apply (shiftr_ok 64)]; try done; try apply u64_bound;
    try (apply Z.shiftr_nonneg, Hx); unfold in_word; lia.
Qed.

#[export] Instance params32_ok : mt_params_ok params32.
Proof.
  split; cbn; unfold in_word; try lia. intros x Hx. unfold temper32.
  repeat first [apply (lxor_ok 32)|apply (mask_word 32)|apply (shiftr_ok 32)]; try done; try apply u32_bound;
    try (apply Z.shiftr_nonneg, Hx); unfold in_word; lia.
Qed.

(** [TMersenne64(s)] and [TMersenne32(s)] with the default seed; the contents of the
    array before are irrelevant. *)
Definition mersenne64 : option mersenne := InitGenRand params64 19650218 (replicate 312 0).
Definition mersenne32 : option mersenne := InitGenRand params32 19650218 (replicate 624 0).

Fixpoint draws (P : mt_params) (n : nat) (g : mersenne) : option (list Z) :=
  match n with
  | O => Some []
  | S n => let* (x, g) := GenRand P g in let* l := draws P n g in Some (x :: l)
  end.

(** ** Doubles *)

(** [ToRes53]: the product with 2^-64 is exact as a [long double], the conversion to
    [double] rounds it. *)
Definition ToRes53 (v : Z) : double := binary_normalize 53 1024 v (-64) false.

Lemma ToRes53_nonneg v : 0 <= v -> nonneg (ToRes53 v) = true.
Proof. apply normalize_sign. Qed.
