(* ===== verification/BTrackers.v ===== *)
(** * Balancer: trackers

    Models [TTimeLimitedAvgTracker], [TAvgTracker] and [TMedianTracker] of
    [src/web/httpd/modules/balancer/average.h] and [TMiddleValueTracker] and
    [TDeviationTracker] of [src/web/httpd/modules/balancer/deviation.h].  The first
    is a ring buffer and is shown to be a queue of bounded length; the third keeps
    the last values it was given.  The time is an argument: the value that [Now()]
    returned in the call. *)

From Stdlib Require Import ZArith Lia Bool Sorted.
From stdpp Require Import base numbers list.
From S2P Require Import Prelude Double.

(** ** [TMiddleValueTracker], [TDeviationTracker] *)

Record middle := mk_middle { S_ : double; Coeff_ : double }.

Definition middle_add (val : double) (t : middle) : middle :=
  mk_middle (Coeff_ t * S_ t + (of_Z 1 - Coeff_ t) * val)%double (Coeff_ t).

Definition middle_m (t : middle) : double := S_ t.

Record deviation := mk_deviation { base_ : middle; D_ : middle }.

Definition deviation_make (initial coeff : double) : deviation :=
  mk_deviation (mk_middle initial coeff) (mk_middle (of_Z 0) coeff).

Definition deviation_add (val : double) (t : deviation) : deviation :=
  let b := middle_add val (base_ t) in
  let x := (middle_m b - val)%double in
  mk_deviation b (middle_add (x * x)%double (D_ t)).

Definition deviation_d (t : deviation) : double := SpecFloat.SFsqrt 53 1024 (middle_m (D_ t)).

Definition gen_max (t : deviation) : double := (middle_m (base_ t) + of_Z 3 * deviation_d t)%double.

(** ** [TAvgTracker] *)

Record avg := mk_avg { avg_v : list double; avg_sum : double; avg_c : Z }.

Definition avg_make (N : Z) (v : double) : avg := mk_avg (replicate (Z.to_nat N) v) (v * of_Z N)%double 0.

Definition avg_get (N : Z) (t : avg) : double := (avg_sum t / of_Z N)%double.

Definition avg_add (N : Z) (v : double) (t : avg) : option avg :=
  let* old := zget (avg_v t) (avg_c t) in
  let* vs := zset (avg_v t) (avg_c t) v in
  Some (mk_avg vs (avg_sum t - old + v)%double ((avg_c t + 1) mod N)).

(** ** [TTimeLimitedAvgTracker] *)

Record limited := mk_limited {
  V_ : list double; T_ : list Z; Cur_ : Z; Total_ : Z; Sum_ : double; Ttl_ : Z
}.

Section limited.
Context (N : Z).

(** The constructor leaves the arrays and [Sum_] as they are in memory. *)
Definition limited_make (v : list double) (t : list Z) (sum : double) (ttl : Z) : limited :=
  mk_limited v t 0 0 sum ttl.

Definition limited_add (now : Z) (v : double) (t : limited) : option limited :=
  if Total_ t =? N then
    let* old := zget (V_ t) (Cur_ t) in
    let* vs := zset (V_ t) (Cur_ t) v in
    let* ts := zset (T_ t) (Cur_ t) now in
    Some (mk_limited vs ts ((Cur_ t + 1) mod N) (Total_ t) (Sum_ t + v - old)%double (Ttl_ t))
  else
    let l := (Cur_ t + Total_ t) mod N in
    let* vs := zset (V_ t) l v in
    let* ts := zset (T_ t) l now in
    Some (mk_limited vs ts (Cur_ t) (Total_ t + 1) (Sum_ t + v)%double (Ttl_ t)).

(** The loop of [Check]. *)
Fixpoint check_loop (fuel : nat) (now : Z) (t : limited) : option limited :=
  match fuel with
  | O => Some t
  | S fuel =>
      if Total_ t =? 0 then Some t
      else
        let* s := zget (T_ t) (Cur_ t) in
        if Ttl_ t <? u64 (now - s) then
          let* v := zget (V_ t) (Cur_ t) in
          check_loop fuel now
            (mk_limited (V_ t) (T_ t) ((Cur_ t + 1) mod N) (Total_ t - 1) (Sum_ t - v)%double (Ttl_ t))
        else Some t
  end.

(** At most [Total_] items can be dropped; the last iteration sees that none is left. *)
Definition limited_check (now : Z) (t : limited) : option limited := check_loop (S (Z.to_nat (Total_ t))) now t.

Definition limited_get (now : Z) (t : limited) : option (double * Z * limited) :=
  let* t := limited_check now t in Some (Sum_ t, Total_ t, t).

(** *** The queue *)

(** The abstract tracker: the values with their times, oldest first, and the sum. *)
Definition expired (now ttl : Z) (x : double * Z) : bool := ttl <? u64 (now - snd x).

Fixpoint drop_expired (now ttl : Z) (q : list (double * Z)) (sum : double) : list (double * Z) * double :=
  match q with
  | x :: q' => if expired now ttl x then drop_expired now ttl q' (sum - fst x)%double else (q, sum)
  | [] => ([], sum)
  end.

Definition enqueue (now : Z) (v : double) (q : list (double * Z)) (sum : double) : list (double * Z) * double :=
  match q with
  | x :: q' => if zlen q =? N then (q' ++ [(v, now)], sum + v - fst x)%double
               else (q ++ [(v, now)], sum + v)%double
  | [] => ([(v, now)], sum + v)%double
  end.

(** The ring buffer holds the queue [q] from [Cur_] on. *)
Record ring (t : limited) (q : list (double * Z)) : Prop := {
  rg_v : zlen (V_ t) = N;
  rg_t : zlen (T_ t) = N;
  rg_cur : 0 <= Cur_ t < N;
  rg_total : Total_ t = zlen q;
  rg_size : zlen q <= N;
  rg_items i v s : zget q i = Some (v, s) ->
    zget (V_ t) ((Cur_ t + i) mod N) = Some v /\ zget (T_ t) ((Cur_ t + i) mod N) = Some s
}.

Lemma mod_next c i : 0 < N -> ((c + 1) mod N + i) mod N = (c + (i + 1)) mod N.
Proof. intros HN. rewrite Z.add_mod_idemp_l by lia. f_equal. lia. Qed.

Lemma mod_ne c i j : 0 <= i < N -> 0 <= j < N -> i <> j -> (c + i) mod N <> (c + j) mod N.
Proof.
  intros Hi Hj Hne E. apply Hne. rewrite <- (Z.mod_small i N), <- (Z.mod_small j N) by lia.
  replace i with (c + i - c) by lia. replace j with (c + j - c) by lia.
  by rewrite Zminus_mod, E, <- Zminus_mod.
Qed.

Lemma mod_range c i : 0 < N -> 0 <= (c + i) mod N < N.
Proof. intros. apply Z.mod_pos_bound. lia. Qed.

(** Dropping the oldest item. *)
Lemma ring_tail t x q sum :
  ring t (x :: q) -> ring (mk_limited (V_ t) (T_ t) ((Cur_ t + 1) mod N) (Total_ t - 1) sum (Ttl_ t)) q.
Proof.
  intros [Hv Ht Hc Htot Hs Hi]. rewrite zlen_cons in *. pose proof (zlen_nonneg q).
  split; cbn; try done; try lia; [apply mod_range; lia|].
  intros i v s E. pose proof (zget_Some_bound _ _ _ E). rewrite mod_next by lia. apply Hi.
  rewrite zget_cons_pos by lia. by replace (i + 1 - 1) with i by lia.
Qed.

Lemma ring_head t x q : ring t (x :: q) -> zget (V_ t) (Cur_ t) = Some (fst x) /\ zget (T_ t) (Cur_ t) = Some (snd x).
Proof.
  intros [_ _ Hc _ _ Hi]. destruct x as [v s]. specialize (Hi 0 v s). rewrite Z.add_0_r, Z.mod_small in Hi by lia.
  by apply Hi.
Qed.

Lemma check_loop_ok q : forall fuel now t,
  ring t q -> (length q < fuel)%nat ->
  exists t', check_loop fuel now t = Some t' /\
    ring t' (fst (drop_expired now (Ttl_ t) q (Sum_ t))) /\ Sum_ t' = snd (drop_expired now (Ttl_ t) q (Sum_ t)) /\
    Ttl_ t' = Ttl_ t.
Proof.
  induction q as [|x q IH]; intros fuel now t Hr Hf; (destruct fuel as [|fuel]; [cbn in Hf; lia|]); cbn [check_loop].
  - rewrite (rg_total _ _ Hr). cbn. by exists t.
  - pose proof (rg_total _ _ Hr) as Et. rewrite zlen_cons in Et. pose proof (zlen_nonneg q).
    rewrite (proj2 (Z.eqb_neq _ _)) by lia. destruct (ring_head _ _ _ Hr) as [Ev Es]. rewrite Es, Ev.
    cbn [drop_expired]. unfold expired. destruct (Ttl_ t <? u64 (now - snd x)) eqn:E; [|by exists t].
    apply (IH fuel now _ (ring_tail _ _ _ _ Hr)). cbn in Hf. lia.
Qed.

(** Writing the item behind the last one. *)
Lemma ring_write t q cur total sum ttl vs ts v now :
  0 < N -> zlen (V_ t) = N -> zlen (T_ t) = N -> 0 <= cur < N -> zlen q < N -> total = zlen q + 1 ->
  (forall i v s, zget q i = Some (v, s) ->
     zget (V_ t) ((cur + i) mod N) = Some v /\ zget (T_ t) ((cur + i) mod N) = Some s) ->
  zset (V_ t) ((cur + zlen q) mod N) v = Some vs -> zset (T_ t) ((cur + zlen q) mod N) now = Some ts ->
  ring (mk_limited vs ts cur total sum ttl) (q ++ [(v, now)]).
Proof.
  intros HN Hv Ht Hc Hq -> Hi Ev Et. pose proof (zlen_nonneg q).
  assert (El : zlen (q ++ [(v, now)]) = zlen q + 1) by by rewrite zlen_app.
  split; cbn [V_ T_ Cur_ Total_]; rewrite ?El, ?(zlen_zset _ _ _ _ Ev), ?(zlen_zset _ _ _ _ Et); try done; try lia.
  intros i w s E. pose proof (zget_Some_bound _ _ _ E) as Hb. rewrite El in Hb.
  destruct (decide (i = zlen q)) as [->|Hne].
  - rewrite zget_app_r in E by lia. rewrite Z.sub_diag in E. cbn in E. injection E as <- <-.
    by rewrite (zget_zset_eq _ _ _ _ Ev), (zget_zset_eq _ _ _ _ Et).
  - rewrite zget_app_l in E by lia. destruct (Hi i w s E) as [E1 E2].
    by rewrite (zget_zset_ne _ _ _ _ _ Ev), (zget_zset_ne _ _ _ _ _ Et) by (apply mod_ne; lia).
Qed.

Lemma limited_add_ok t q now v :
  0 < N -> ring t q ->
  exists t', limited_add now v t = Some t' /\ ring t' (fst (enqueue now v q (Sum_ t))) /\
    Sum_ t' = snd (enqueue now v q (Sum_ t)) /\ Ttl_ t' = Ttl_ t.
Proof.
  intros HN Hr. pose proof Hr as [Hv Ht Hc Htot Hs Hi]. unfold limited_add. rewrite Htot.
  destruct (zlen q =? N) eqn:E; b2p.
  - destruct q as [|x q]; [rewrite zlen_nil in E; lia|]. pose proof (ring_tail t x q (Sum_ t) Hr) as [_ _ _ _ _ Hi'].
    destruct (ring_head _ _ _ Hr) as [-> _]. rewrite zlen_cons in *. cbn [Cur_ V_ T_] in Hi'.
    destruct (zset_is_Some (V_ t) (Cur_ t) v) as [vs Ev]; [lia|]. destruct (zset_is_Some (T_ t) (Cur_ t) now) as [ts Et]; [lia|].
    rewrite Ev, Et. eexists. split; [done|]. cbn [enqueue]. rewrite zlen_cons, (proj2 (Z.eqb_eq _ _)) by lia.
    cbn [fst snd Sum_ Ttl_]. split; [|done]. apply (ring_write t q); try done; try lia; [apply mod_range; lia| |].
    all: rewrite mod_next by lia; replace (Cur_ t + (zlen q + 1)) with (Cur_ t + 1 * N) by lia;
      by rewrite Z.mod_add, Z.mod_small by lia.
  - destruct (zset_is_Some (V_ t) ((Cur_ t + zlen q) mod N) v) as [vs Ev]; [rewrite Hv; apply mod_range; lia|].
    destruct (zset_is_Some (T_ t) ((Cur_ t + zlen q) mod N) now) as [ts Et]; [rewrite Ht; apply mod_range; lia|].
    rewrite Ev, Et. eexists. split; [done|].
    assert (Eq : enqueue now v q (Sum_ t) = (q ++ [(v, now)], Sum_ t + v)%double).
    { unfold enqueue. destruct q; [done|]. by rewrite (proj2 (Z.eqb_neq _ _)). }
    rewrite Eq. split; [|done]. by apply (ring_write t q); try done; try lia.
Qed.
End limited.

(** ** [TMedianTracker] *)

Record median := mk_median { med_v : list double; med_c : Z; med_n : Z }.

(** [QuickSort]: the order of the values is what the code relies on. *)
Fixpoint insert_double (x : double) (l : list double) : list double :=
  match l with
  | [] => [x]
  | y :: l' => if dlt x y then x :: l else y :: insert_double x l'
  end.

Definition sort_doubles (l : list double) : list double := fold_right insert_double [] l.

Lemma tail_drop_S {A} n (l : list A) : tail (drop n l) = drop (S n) l.
Proof. revert l. induction n as [|n IH]; intros [|x l]; cbn; [done..|]. apply IH. Qed.

Section median.
Context (N : Z).

Definition median_make (v : list double) : median := mk_median v 0 0.

Definition median_add (v : double) (t : median) : option median :=
  let* vs := zset (med_v t) (med_c t) v in
  Some (mk_median vs ((med_c t + 1) mod N) (u64 (med_n t + 1))).

(** The bounds [f] and [l] of the values that are averaged. *)
Definition median_window (n filled : Z) : Z * Z :=
  let pos := n * filled / 100 in (Z.max (pos - 2) 0, Z.min (pos + 3) filled).

Definition window_mean (f l : Z) (vc : list double) : option double :=
  let ret := fold_left dadd (take (Z.to_nat (l - f)) (drop (Z.to_nat f) vc)) (of_Z 0) in
  let* r := trunc_u64 (ret / of_Z (l - f))%double in
  Some (of_Z r).

Definition median_get (n : Z) (t : median) : option double :=
  let filled := Z.min (med_n t) N in
  if filled =? 0 then Some (of_Z 0)
  else
    let vc := sort_doubles (take (Z.to_nat filled) (med_v t)) in
    let '(f, l) := median_window n filled in
    window_mean f l vc.

Fixpoint median_adds (xs : list double) (t : median) : option median :=
  match xs with [] => Some t | x :: xs => let* t := median_add x t in median_adds xs t end.

(** *** What it remembers *)

(** The last [N] of the values. *)
Definition last_values (xs : list double) : list double := drop (length xs - Z.to_nat N) xs.

Record remembers (t : median) (xs : list double) : Prop := {
  rm_len : zlen (med_v t) = N;
  rm_n : med_n t = zlen xs;
  rm_c : med_c t = zlen xs mod N;
  rm_part : zlen xs < N -> take (length xs) (med_v t) = xs;
  rm_full : N <= zlen xs ->
    drop (Z.to_nat (med_c t)) (med_v t) ++ take (Z.to_nat (med_c t)) (med_v t) = last_values xs
}.

Lemma last_values_snoc xs x :
  0 < N -> N <= zlen xs -> last_values (xs ++ [x]) = tail (last_values xs) ++ [x].
Proof.
  unfold zlen, last_values. intros HN Hx. rewrite length_app. cbn [length].
  replace (length xs + 1 - Z.to_nat N)%nat with (S (length xs - Z.to_nat N)) by lia.
  rewrite drop_app_le by lia. by rewrite <- tail_drop_S.
Qed.

Lemma last_values_short xs : zlen xs <= N -> last_values xs = xs.
Proof. unfold zlen, last_values. intros Hx. by replace (length xs - Z.to_nat N)%nat with 0%nat by lia. Qed.

(** Writing at the oldest position of a full buffer. *)
Lemma rotate_write (vs : list double) c x :
  0 < N -> length vs = Z.to_nat N -> 0 <= c < N ->
  let c' := (c + 1) mod N in let vs' := <[Z.to_nat c := x]> vs in
  drop (Z.to_nat c') vs' ++ take (Z.to_nat c') vs' = tail (drop (Z.to_nat c) vs ++ take (Z.to_nat c) vs) ++ [x].
Proof.
  intros HN Hl Hc c' vs'. subst c' vs'. rewrite insert_take_drop by lia.
  assert (Et : tail (drop (Z.to_nat c) vs ++ take (Z.to_nat c) vs) = drop (S (Z.to_nat c)) vs ++ take (Z.to_nat c) vs).
  { rewrite <- tail_drop_S. destruct (drop (Z.to_nat c) vs) eqn:E; [|done]. apply (f_equal length) in E.
    rewrite length_drop in E. cbn in E. lia. }
  rewrite Et. assert (Hlt : length (take (Z.to_nat c) vs) = Z.to_nat c) by (rewrite length_take; lia).
  destruct (decide (c + 1 = N)) as [E|E].
  - rewrite E, Z.mod_same by lia. cbn [Z.to_nat drop take]. rewrite drop_0, take_0, app_nil_r.
    rewrite (drop_ge vs) by lia. done.
  - rewrite Z.mod_small by lia. replace (Z.to_nat (c + 1)) with (S (length (take (Z.to_nat c) vs))) by lia.
    rewrite drop_app_ge, take_app_ge by lia. replace (S _ - _)%nat with 1%nat by lia. cbn [drop take].
    by rewrite drop_0, take_0, <- app_assoc.
Qed.

Lemma median_add_ok t xs x :
  0 < N -> zlen xs + 1 < 2 ^ 64 -> remembers t xs ->
  exists t', median_add x t = Some t' /\ remembers t' (xs ++ [x]).
Proof.
  intros HN Hov [Hl Hn Hc Hp Hf]. unfold median_add. pose proof (zlen_nonneg xs).
  pose proof (Z.mod_pos_bound (zlen xs) N HN) as Hcb. rewrite <- Hc in Hcb.
  destruct (zset_is_Some (med_v t) (med_c t) x) as [vs E]; [lia|]. rewrite E. eexists. split; [done|].
  assert (El : zlen (xs ++ [x]) = zlen xs + 1) by by rewrite zlen_app.
  pose proof (zlen_zset _ _ _ _ E) as Hlz. apply zset_inv in E as [_ ->].
  split; cbn [med_v med_c med_n]; rewrite ?El; try lia.
  - by rewrite Hn, u64_small by lia.
  - by rewrite Hc, Z.add_mod_idemp_l by lia.
  - intros Hs. rewrite Hc, Z.mod_small by lia. unfold zlen in *.
    rewrite length_app, Nat.add_1_r, Nat2Z.id.
    rewrite (take_S_r _ _ x), take_insert_ge, Hp by (try apply list_lookup_insert_eq; lia). done.
  - intros Hge. destruct (decide (zlen xs < N)) as [Hlt|Hge'].
    + assert (zlen xs + 1 = N) by lia. rewrite last_values_short by lia. rewrite Hc.
      rewrite (Z.mod_small (zlen xs)) by lia. replace (zlen xs + 1) with N by lia. rewrite Z.mod_same by lia.
      cbn [Z.to_nat]. rewrite drop_0, take_0, app_nil_r, insert_take_drop by (unfold zlen in *; lia).
      unfold zlen in *. rewrite Nat2Z.id, Hp, drop_ge by lia. done.
    + rewrite last_values_snoc, <- Hf by lia. apply rotate_write; unfold zlen in *; lia.
Qed.

Lemma median_adds_ok xs : forall t ys,
  0 < N -> zlen ys + zlen xs < 2 ^ 64 -> remembers t ys ->
  exists t', median_adds xs t = Some t' /\ remembers t' (ys ++ xs).
Proof.
  induction xs as [|x xs IH]; intros t ys HN Hov Hr; [exists t; by rewrite app_nil_r|].
  rewrite zlen_cons in Hov. pose proof (zlen_nonneg xs). destruct (median_add_ok t ys x) as (t1 & E & Hr1); try done; [lia|].
  cbn [median_adds]. rewrite E. destruct (IH t1 (ys ++ [x])) as (t' & E' & Hr'); try done.
  - rewrite zlen_app. change (zlen [x]) with 1. lia.
  - exists t'. split; [done|]. by rewrite <- app_assoc in Hr'.
Qed.

Lemma remembers_perm t xs : 0 < N -> remembers t xs ->
  take (Z.to_nat (Z.min (med_n t) N)) (med_v t) ≡ₚ last_values xs.
Proof.
  intros HN [Hl Hn Hc Hp Hf]. rewrite Hn. destruct (decide (zlen xs < N)) as [Hlt|Hge].
  - rewrite last_values_short by lia. replace (Z.to_nat (Z.min (zlen xs) N)) with (length xs) by (unfold zlen in *; lia). by rewrite Hp.
  - rewrite <- Hf by lia. rewrite Permutation_app_comm, take_drop, take_ge; [done|]. unfold zlen in *. lia.
Qed.

Lemma median_window_bounds n filled :
  0 <= n <= 100 -> 0 < filled ->
  let '(f, l) := median_window n filled in
  0 <= f < l /\ l <= filled /\ f <= n * filled / 100 <= l /\ (n < 100 -> n * filled / 100 < l).
Proof.
  intros Hn Hf. unfold median_window. cbn zeta.
  assert (0 <= n * filled / 100) by (apply Z.div_pos; nia).
  assert (n * filled / 100 <= filled) by (apply Z.div_le_upper_bound; nia).
  split_and!; try lia. intros Hlt. assert (n * filled / 100 < filled) by (apply Z.div_lt_upper_bound; nia). lia.
Qed.
End median.

Lemma insert_double_perm x l : insert_double x l ≡ₚ x :: l.
Proof.
  induction l as [|y l IH]; cbn; [done|]. destruct (dlt x y); [done|]. rewrite IH. apply Permutation_swap.
Qed.

Lemma sort_doubles_perm l : sort_doubles l ≡ₚ l.
Proof. induction l as [|x l IH]; cbn; [done|]. by rewrite insert_double_perm, IH. Qed.

(** No value is below an earlier one. *)
Definition sorted_doubles (l : list double) : Prop := StronglySorted (fun x y => dlt y x = false) l.

Lemma not_dlt_trans x y z : is_nan x = false -> is_nan y = false -> is_nan z = false ->
  dlt y x = false -> dlt z y = false -> dlt z x = false.
Proof.
  intros Hx Hy Hz H1 H2. apply not_true_is_false. intros H. rewrite dlt_spec in H by done.
  assert (N1 : ~ key_lt (key y) (key x)) by (rewrite <- dlt_spec by done; congruence).
  assert (N2 : ~ key_lt (key z) (key y)) by (rewrite <- dlt_spec by done; congruence).
  destruct (key x) as [[] ], (key y) as [[] ], (key z) as [[] ]. cbn in *. lia.
Qed.

Lemma sort_doubles_sorted l : Forall (fun x => is_nan x = false) l -> sorted_doubles (sort_doubles l).
Proof.
  induction 1 as [|x l Hx Hl IH]; [constructor|].
  change (sort_doubles (x :: l)) with (insert_double x (sort_doubles l)).
  assert (Hs : Forall (fun x => is_nan x = false) (sort_doubles l)) by by rewrite sort_doubles_perm.
  revert IH Hs. generalize (sort_doubles l). clear l Hl. intros l. induction l as [|y l IH]; intros Hs Hn; cbn.
  - constructor; [constructor|constructor].
  - apply Forall_cons in Hn as [Hy Hn]. pose proof Hs as Hs0. apply StronglySorted_inv in Hs as [Hs Hyl].
    destruct (dlt x y) eqn:E.
    + assert (Exy : dlt y x = false).
      { apply not_true_is_false. intros H. rewrite dlt_spec in E, H by done.
        destruct (key_lt_irrefl (key x)). by eapply key_lt_trans. }
      constructor; [done|]. apply Forall_cons. split; [done|]. rewrite Forall_forall in *. intros z Hz.
      apply (not_dlt_trans x y z); auto.
    + constructor; [by apply IH|]. rewrite insert_double_perm. apply Forall_cons. done.
Qed.
