(* ===== verification/BConfig.v ===== *)
(** * Balancer: errors, configuration, back end descriptors

    The exceptions the balancer tells apart, configurations as the modules see them
    ([src/web/httpd/kernel/config.h], [src/web/httpd/kernel/luacfg.cpp]) and
    [TBackEndDescriptor] of [src/web/httpd/modules/balancer/backend.cpp].  The
    conversions of strings to numbers and the module loader are parameters. *)

From Stdlib Require Import ZArith Lia Bool String.
From stdpp Require Import base numbers list strings.
From S2P Require Import Prelude Double.

(** ** Exceptions *)

Inductive exn :=
  | TConfigParseError
  | THttpError (code : Z)
  | TSystemError (status : Z)
  | OtherError.

Inductive res (A : Type) :=
  | Ret (a : A)
  | Throw (e : exn).
Arguments Ret {A} a.
Arguments Throw {A} e.

Notation "'let!' x ':=' e 'in' k" :=
  (match e with Ret x => k | Throw err => Throw err end)
  (at level 200, x pattern, e at level 200, k at level 200,
   format "'[v' 'let!'  x  ':='  e  'in' '/' k ']'") : c_scope.

(** ** Configurations *)

(** The entries in the order [DoForEach] visits them. *)
Inductive config :=
  | Config (items : list (string * value))
with value :=
  | VString (s : string)
  | VTable (c : config)
  | VBool (b : bool).

Definition items (c : config) : list (string * value) := let 'Config l := c in l.

(** [luaL_checklstring] raises an error of the Lua library. *)
Definition AsString (v : value) : res string :=
  match v with VString s => Ret s | _ => Throw OtherError end.

Definition AsSubConfig (v : value) : res config :=
  match v with VTable c => Ret c | _ => Throw TConfigParseError end.

(** [Config->ForEach(this)]: [consume] is [DoConsume]. *)
Fixpoint for_each {S} (consume : string -> value -> S -> res S) (l : list (string * value)) (s : S) : res S :=
  match l with
  | [] => Ret s
  | (k, v) :: l' => let! s := consume k v s in for_each consume l' s
  end.

Definition ForEach {S} (consume : string -> value -> S -> res S) (c : config) (s : S) : res S :=
  for_each consume (items c) s.

(** [END_PARSE]. *)
Definition unsupported {S} : res S := Throw TConfigParseError.

(** What the configuration code calls. *)
Class Env (IModule : Type) := {
  parse_double : string -> option double;
  parse_size : string -> option Z;
  (** [TDuration] in microseconds. *)
  parse_duration : string -> option Z;
  (** [Loader->Load]: no module of that name is [None]; the constructor may throw. *)
  load_module : string -> config -> res (option IModule)
}.

Section config.
Context {IModule : Type} {E : Env IModule}.

(** [FromString<T>] throws when the string does not parse. *)
Definition value_double (v : value) : res double :=
  let! s := AsString v in
  match parse_double s with Some x => Ret x | None => Throw OtherError end.

Definition value_size (v : value) : res Z :=
  let! s := AsString v in
  match parse_size s with Some x => Ret x | None => Throw OtherError end.

Definition value_duration (v : value) : res Z :=
  let! s := AsString v in
  match parse_duration s with Some x => Ret x | None => Throw OtherError end.

Definition MustLoad (name : string) (c : config) : res IModule :=
  let! m := load_module name c in
  match m with Some m => Ret m | None => Throw OtherError end.

(** ** [TBackEndDescriptor] *)

Record TBackEndDescriptor := mk_descr { Weight_ : double; Module_ : IModule }.

Definition descr_consume (key : string) (v : value) (s : double * option IModule) : res (double * option IModule) :=
  let '(w, m) := s in
  if String.eqb key "weight" then let! w := value_double v in Ret (w, m)
  else
    let! c := AsSubConfig v in
    let! m := MustLoad key c in
    Ret (w, Some m).

Definition descriptor (c : config) : res TBackEndDescriptor :=
  let! (w, m) := ForEach descr_consume c (of_Z 1, None) in
  match m with Some m => Ret (mk_descr w m) | None => Throw TConfigParseError end.

(** ** Facts *)

(** The entries of a table are consumed one by one: the outcome of the rest does
    not depend on how the state was reached. *)
Lemma for_each_app {S} (consume : string -> value -> S -> res S) l1 l2 s :
  for_each consume (l1 ++ l2) s = (let! s := for_each consume l1 s in for_each consume l2 s).
Proof.
  revert s. induction l1 as [|[k v] l1 IH]; intros s; cbn; [done|]. destruct (consume k v s); [apply IH|done].
Qed.

(** An invariant of [DoConsume] holds when [ForEach] returns. *)
Lemma for_each_inv {S} (consume : string -> value -> S -> res S) (P : S -> Prop) l :
  (forall k v s s', (k, v) ∈ l -> P s -> consume k v s = Ret s' -> P s') ->
  forall s s', P s -> for_each consume l s = Ret s' -> P s'.
Proof.
  induction l as [|[k v] l IH]; intros Hc s s' Hs; cbn; [by intros [= <-]|].
  destruct (consume k v s) as [s1|] eqn:E1; [|done]. apply IH; [intros; eapply Hc; [by right|done|done]|].
  eapply Hc; [by left|done|done].
Qed.
End config.
Arguments TBackEndDescriptor : clear implicits.
Arguments mk_descr {IModule} _ _.
Arguments Weight_ {IModule} _.
Arguments Module_ {IModule} _.
