(* ===== verification/BArbiter.v ===== *)
(** * Balancer: arbiters

    Models [src/web/httpd/modules/balancer/arbiter.cpp]: the three implementations of
    [IReAskArbiter], which decide whether a failed request may be asked again, and
    [ConstructArbiter]. *)

From Stdlib Require Import ZArith Lia Bool String SpecFloat.
From stdpp Require Import base numbers list strings.
From S2P Require Import Prelude Double BConfig BTrackers.

(** ** Data *)

Record additive := mk_additive {
  FailRate_ : double; SuccSummand_ : double; FailSummand_ : double; AlarmValue_ : double
}.

Record watermark := mk_watermark {
  LoWatermark_ : double; HiWatermark_ : double; Rate_ : middle; Enabled_ : bool
}.

Inductive IReAskArbiter :=
  | TFakeArbiter
  | TAdditiveArbiter (a : additive)
  | TWatermarkArbiter (w : watermark).

(** ** Operations *)

Definition additive_succ (a : additive) : additive :=
  mk_additive (Max (of_Z 0) (FailRate_ a - SuccSummand_ a)%double) (SuccSummand_ a) (FailSummand_ a) (AlarmValue_ a).

Definition additive_fail (a : additive) : additive :=
  mk_additive (FailRate_ a + FailSummand_ a)%double (SuccSummand_ a) (FailSummand_ a) (AlarmValue_ a).

Definition watermark_succ (w : watermark) : watermark :=
  let r := middle_add (of_Z 0) (Rate_ w) in
  mk_watermark (LoWatermark_ w) (HiWatermark_ w) r
    (if negb (Enabled_ w) && dlt (middle_m r) (LoWatermark_ w) then true else Enabled_ w).

Definition watermark_fail (w : watermark) : watermark :=
  let r := middle_add (of_Z 1) (Rate_ w) in
  mk_watermark (LoWatermark_ w) (HiWatermark_ w) r
    (if Enabled_ w && dlt (HiWatermark_ w) (middle_m r) then false else Enabled_ w).

Definition RegisterSucc (a : IReAskArbiter) : IReAskArbiter :=
  match a with
  | TFakeArbiter => TFakeArbiter
  | TAdditiveArbiter a => TAdditiveArbiter (additive_succ a)
  | TWatermarkArbiter w => TWatermarkArbiter (watermark_succ w)
  end.

Definition RegisterFail (a : IReAskArbiter) : IReAskArbiter :=
  match a with
  | TFakeArbiter => TFakeArbiter
  | TAdditiveArbiter a => TAdditiveArbiter (additive_fail a)
  | TWatermarkArbiter w => TWatermarkArbiter (watermark_fail w)
  end.

Definition Authorize (a : IReAskArbiter) : bool :=
  match a with
  | TFakeArbiter => true
  | TAdditiveArbiter a => dlt (FailRate_ a) (AlarmValue_ a)
  | TWatermarkArbiter w => Enabled_ w
  end.

(** ** Construction *)

Section construct.
Context {IModule : Type} {E : Env IModule}.

Definition additive_consume (key : string) (v : value) (a : additive) : res additive :=
  if String.eqb key "succinc" then
    let! x := value_double v in Ret (mk_additive (FailRate_ a) x (FailSummand_ a) (AlarmValue_ a))
  else if String.eqb key "failinc" then
    let! x := value_double v in Ret (mk_additive (FailRate_ a) (SuccSummand_ a) x (AlarmValue_ a))
  else unsupported.

Definition make_additive (c : config) : res additive :=
  let! a := ForEach additive_consume c (mk_additive (of_Z 0) (lit 5 100) (of_Z 1) (of_Z 0)) in
  Ret (mk_additive (FailRate_ a) (SuccSummand_ a) (FailSummand_ a) (of_Z 1 / SuccSummand_ a)%double).

Definition watermark_consume (key : string) (v : value) (w : watermark) : res watermark :=
  if String.eqb key "lo" then
    let! x := value_double v in Ret (mk_watermark x (HiWatermark_ w) (Rate_ w) (Enabled_ w))
  else if String.eqb key "hi" then
    let! x := value_double v in Ret (mk_watermark (LoWatermark_ w) x (Rate_ w) (Enabled_ w))
  else unsupported.

Definition make_watermark (c : config) : res watermark :=
  let! w := ForEach watermark_consume c
              (mk_watermark (lit 25 1000) (lit 5 100) (mk_middle (of_Z 0) (lit 99 100)) true) in
  if dlt (HiWatermark_ w) (LoWatermark_ w) then Throw TConfigParseError else Ret w.

Definition ConstructArbiter (name : string) (c : config) : res (option IReAskArbiter) :=
  if String.eqb name "additive" then let! a := make_additive c in Ret (Some (TAdditiveArbiter a))
  else if String.eqb name "watermark" then let! w := make_watermark c in Ret (Some (TWatermarkArbiter w))
  else if String.eqb name "fake" then Ret (Some TFakeArbiter)
  else Ret None.
End construct.

(** ** Runs *)

(** The outcome of a request, [true] for a success. *)
Definition register (ok : bool) (a : IReAskArbiter) : IReAskArbiter :=
  if ok then RegisterSucc a else RegisterFail a.

Definition registers (l : list bool) (a : IReAskArbiter) : IReAskArbiter := fold_left (fun a ok => register ok a) l a.

(** The default arbiters. *)
Definition default_watermark : IReAskArbiter :=
  TWatermarkArbiter (mk_watermark (lit 25 1000) (lit 5 100) (mk_middle (of_Z 0) (lit 99 100)) true).

Definition default_additive : IReAskArbiter :=
  TAdditiveArbiter (mk_additive (of_Z 0) (lit 5 100) (of_Z 1) (of_Z 1 / lit 5 100)%double).

(** ** The watermarks are a hysteresis *)

(** One request switches the arbiter off only by a failure that lifts the rate
    above the high mark, and on only by a success that takes it below the low one. *)
Lemma watermark_step w ok :
  match register ok (TWatermarkArbiter w) with
  | TWatermarkArbiter w' =>
      LoWatermark_ w' = LoWatermark_ w /\ HiWatermark_ w' = HiWatermark_ w /\
      (Enabled_ w = true -> Enabled_ w' = false -> ok = false /\ dlt (HiWatermark_ w) (middle_m (Rate_ w')) = true) /\
      (Enabled_ w = false -> Enabled_ w' = true -> ok = true /\ dlt (middle_m (Rate_ w')) (LoWatermark_ w) = true)
  | _ => False
  end.
Proof.
  destruct ok; cbn; (split; [done|]; split; [done|]); destruct (Enabled_ w) eqn:Ew; cbn;
    (destruct (dlt _ _) eqn:El; cbn); split; intros; try congruence; done.
Qed.

(** ** The additive rate *)

Lemma Max_zero_nonneg x : is_nan x = false -> nonneg (Max (of_Z 0) x) = true.
Proof. unfold Max. destruct x as [[]|[]| |[] m e]; cbn; done. Qed.

Definition additive_inv (a : additive) : Prop :=
  nonneg (FailRate_ a) = true /\ finite (SuccSummand_ a) = true /\ nonneg (FailSummand_ a) = true.

Lemma additive_step a : additive_inv a -> additive_inv (additive_succ a) /\ additive_inv (additive_fail a).
Proof.
  intros (Hr & Hs & Hf). split; split; cbn; try done.
  - apply Max_zero_nonneg. by apply sub_nan.
  - by apply nonneg_add.
Qed.
