(* ===== verification/BPolicy.v ===== *)
(** * Balancer: the interface of the balancing policies

    [IBackEnds] and [TAttempt] of [src/web/httpd/modules/balancer/iterator.h]: what a
    policy offers to the attempt loop, as a class, with the sources of time and
    randomness that the policies read. *)

From Stdlib Require Import ZArith Lia Bool.
From stdpp Require Import base numbers list.
From S2P Require Import Prelude Double Random.

(** ** The outside world *)

(** [RandomNumber<ui64>()] and [Now()], each with the state it leaves. *)
Class World (W : Type) := {
  gen64 : W -> Z * W;
  read_clock : W -> Z * W
}.

Class WorldSpec (W : Type) {HW : World W} : Prop := {
  gen64_range w : 0 <= fst (gen64 w) < 2 ^ 64;
  clock_range w : 0 <= fst (read_clock w) < 2 ^ 64
}.

(** [RandomNumber<double>()]. *)
Definition random_double {W} {HW : World W} (w : W) : double * W :=
  let '(v, w) := gen64 w in (ToRes53 v, w).

(** ** The interface *)

(** The parts of [TAttempt] that a policy reads. *)
Record TAttempt := mk_attempt { Hash : Z; Attempt : Z }.

(** A back end is named by its address.  [None] is [abort()] or undefined
    behaviour; a null pointer is [Some (None, _, _)]. *)
Class IBackEnds (W B : Type) := {
  Size : B -> Z;
  DoNext : TAttempt -> B -> W -> option (option Z * B * W);
  OnCompleteRequest : Z -> Z -> B -> W -> option (B * W);
  OnFailRequest : Z -> Z -> B -> W -> option (B * W)
}.

(** What the attempt loop relies on: an invariant, kept by every call, under which
    [DoNext] returns one of [Size] back ends. *)
Class BackEndsSpec (W B : Type) {HI : IBackEnds W B} := {
  policy_inv : B -> Prop;
  backends : B -> list Z;
  size_ok s : policy_inv s -> Size s = zlen (backends s);
  next_ok a s w : policy_inv s -> exists b s' w', DoNext a s w = Some (Some b, s', w') /\
    b ∈ backends s /\ policy_inv s' /\ backends s' = backends s;
  complete_ok b d s w : policy_inv s -> b ∈ backends s -> exists s' w', OnCompleteRequest b d s w = Some (s', w') /\
    policy_inv s' /\ backends s' = backends s;
  fail_ok b d s w : policy_inv s -> b ∈ backends s -> exists s' w', OnFailRequest b d s w = Some (s', w') /\
    policy_inv s' /\ backends s' = backends s
}.

(** ** A process *)

(** The generator of the thread and a clock that advances one millisecond per read. *)
Record process := mk_process { generator : mersenne; clock : Z }.

Definition process_gen (w : process) : Z * process :=
  match GenRand params64 (generator w) with
  | Some (x, g) => (x, mk_process g (clock w))
  | None => (0, w)
  end.

#[export] Instance process_world : World process := {
  gen64 := process_gen;
  read_clock w := (u64 (clock w), mk_process (generator w) (clock w + 1000))
}.
