(* ===== verification/BRobin.v ===== *)
(** * Balancer: round robin

    Models [src/web/httpd/modules/balancer/rrobin.cpp] and
    [src/web/httpd/modules/balancer/smartrr.cpp].  Both keep their back ends in an
    AVL tree ordered by weight and address, take the first one, add to its weight and
    put it back; they differ in how much is added.  The back ends are objects shared
    by the list and the tree: they live in a store, the containers hold addresses. *)

From Stdlib Require Import ZArith Lia Bool String Sorted.
From stdpp Require Import base numbers list gmap strings.
From S2P Require Import Prelude AvlTree Double Random BConfig BPolicy.

(** ** The common part *)

Section robin.
Context {B : Type} (Weight : B -> double) (IncUsageCount : B -> B).

Record TBackEnds := mk_robin { List_ : list Z; Servers_ : TAvlTree Z; store : gmap Z B }.

(** [TBackEnd::Compare] on the objects at two addresses. *)
Definition Compare (st : gmap Z B) (l r : Z) : bool :=
  match st !! l, st !! r with
  | Some bl, Some br => dlt (Weight bl) (Weight br) || (deq (Weight bl) (Weight br) && (l <? r))
  | _, _ => false
  end.

(** [Add] of a new object at the address [b]. *)
Definition robin_add (b : Z) (x : B) (s : TBackEnds) : option TBackEnds :=
  let st := <[b := x]> (store s) in
  let* (_, t) := Insert (Compare st) id b (Servers_ s) in
  Some (mk_robin (List_ s ++ [b]) t st).

Definition robin_next (s : TBackEnds) : option (Z * TBackEnds) :=
  let* next := Begin (Servers_ s) in
  let* t := Erase id next (Servers_ s) in
  let* x := store s !! next in
  let st := <[next := IncUsageCount x]> (store s) in
  let* (_, t) := Insert (Compare st) id next t in
  Some (next, mk_robin (List_ s) t st).

Definition robin_size (s : TBackEnds) : Z := zlen (List_ s).

(** [OnCompleteRequest] and [OnFailRequest] change counters of the object. *)
Definition robin_update (f : B -> B) (b : Z) (s : TBackEnds) : option TBackEnds :=
  let* x := store s !! b in
  Some (mk_robin (List_ s) (Servers_ s) (<[b := f x]> (store s))).

Definition empty_robin : TBackEnds := mk_robin [] empty_avl ∅.

(** *** Invariant *)

Definition good_in (st : gmap Z B) (b : Z) : Prop := exists x, st !! b = Some x /\ nonneg (Weight x) = true.

#[export] Instance compare_order st : CompareOrder (Compare st) id (good_in st).
Proof.
  split.
  - intros b (x & E & Hx). unfold Compare. rewrite E. apply nonneg_nan in Hx.
    rewrite (proj2 (Z.ltb_ge b b)), andb_false_r, orb_false_r by lia. apply not_true_is_false.
    rewrite dlt_spec by done. apply key_lt_irrefl.
  - intros a b c (x & Ex & Hx) (y & Ey & Hy) (z & Ez & Hz). unfold Compare. rewrite Ex, Ey, Ez.
    apply nonneg_nan in Hx, Hy, Hz. rewrite !orb_true_iff, !andb_true_iff, !dlt_spec, !deq_spec, !Z.ltb_lt by done.
    intros [H1|[H1 H1']] [H2|[H2 H2']].
    + left. by eapply key_lt_trans.
    + left. by rewrite <- H2.
    + left. by rewrite H1.
    + right. split; [congruence|lia].
  - intros a b (x & Ex & Hx) (y & Ey & Hy) Hne. unfold Compare. rewrite Ex, Ey. apply nonneg_nan in Hx, Hy.
    rewrite !orb_true_iff, !andb_true_iff, !deq_spec, !Z.ltb_lt by done. cbn in Hne.
    destruct (dlt_trichotomy (Weight x) (Weight y) Hx Hy) as [H|[H|H]]; [by left; left| |by right; left].
    apply deq_spec in H; [|done|done]. destruct (Z.lt_total a b) as [Hl|[Hl|Hl]]; [left|done|right]; right; auto.
Qed.

Record robin_inv (s : TBackEnds) : Prop := {
  ri_tree : avl_inv (Compare (store s)) id (good_in (store s)) (Servers_ s);
  ri_nodup : NoDup (List_ s);
  ri_list : elements (Root_ (Servers_ s)) ≡ₚ List_ s
}.

Lemma robin_good s b : robin_inv s -> b ∈ List_ s -> good_in (store s) b.
Proof.
  intros [Ht _ Hl] Hb. pose proof (av_good _ _ _ _ Ht) as Hg. rewrite Forall_forall in Hg. apply Hg.
  rewrite list_elem_of_In. apply list_elem_of_In in Hb. by rewrite Hl.
Qed.

(** The tree depends on the store through the objects it holds. *)
Lemma avl_inv_store t st st' :
  avl_inv (Compare st) id (good_in st) t ->
  (forall b, b ∈ elements (Root_ t) -> good_in st' b) ->
  (forall a b, a ∈ elements (Root_ t) -> b ∈ elements (Root_ t) -> Compare st' a b = Compare st a b) ->
  avl_inv (Compare st') id (good_in st') t.
Proof.
  intros [H1 H2 H3 H4 H5 H6 H7] Hg Hc. split; try done; [|by apply Forall_forall].
  clear -H2 Hc. induction H2 as [|x l Hl IH Hx]; constructor.
  - apply IH. intros. apply Hc; by right.
  - rewrite Forall_forall in *. intros y Hy. rewrite Hc by (by left || by right). by apply Hx.
Qed.

Lemma without_perm b l l' : NoDup l -> l ≡ₚ b :: l' -> without id b l ≡ₚ l'.
Proof.
  intros Hnd Hp. rewrite Hp in Hnd. apply NoDup_cons in Hnd as [Hb _]. unfold without. rewrite Hp.
  rewrite filter_cons_False by (cbn; tauto). rewrite <- (without_none id b l') at 2; [done|].
  apply Forall_forall. intros x Hx E. cbn in E. by subst.
Qed.

Lemma Compare_insert st b x a c : a <> b -> c <> b -> Compare (<[b := x]> st) a c = Compare st a c.
Proof. intros. unfold Compare. by rewrite !lookup_insert_ne by done. Qed.

Lemma good_insert st b x a : a <> b -> good_in st a -> good_in (<[b := x]> st) a.
Proof. intros Hne (y & E & Hy). exists y. by rewrite lookup_insert_ne. Qed.

Lemma elements_of s b : robin_inv s -> b ∈ elements (Root_ (Servers_ s)) <-> b ∈ List_ s.
Proof. intros [_ _ Hp]. by rewrite Hp. Qed.

(** Inserting an address that the tree does not hold, with a new object at it. *)
Lemma insert_new t st b x :
  avl_inv (Compare st) id (good_in st) t -> b ∉ elements (Root_ t) -> nonneg (Weight x) = true ->
  exists t', Insert (Compare (<[b := x]> st)) id b t = Some (true, t') /\
    avl_inv (Compare (<[b := x]> st)) id (good_in (<[b := x]> st)) t' /\
    elements (Root_ t') ≡ₚ b :: elements (Root_ t).
Proof.
  intros Ht Hb Hw. set (st' := <[b := x]> st).
  assert (Hne : forall a, a ∈ elements (Root_ t) -> a <> b) by (intros a Ha ->; done).
  assert (Ht' : avl_inv (Compare st') id (good_in st') t).
  { eapply avl_inv_store; [done| |].
    - intros a Ha. apply good_insert; [by apply Hne|]. pose proof (av_good _ _ _ _ Ht) as Hg.
      rewrite Forall_forall in Hg. by apply Hg.
    - intros a c Ha Hc. apply Compare_insert; by apply Hne. }
  assert (Hg : good_in st' b) by (exists x; split; [apply lookup_insert_eq|done]).
  destruct (Insert_ok (Compare st') id (good_in st') b t Ht' Hg) as (t' & l1 & l2 & E & Hinv & E1 & E2).
  exists t'. split; [done|]. split; [done|]. rewrite E2.
  rewrite without_none in E1; [|apply Forall_forall; intros a Ha; by apply Hne]. rewrite E1.
  by rewrite Permutation_middle.
Qed.

Lemma robin_add_ok s b x :
  robin_inv s -> b ∉ List_ s -> nonneg (Weight x) = true ->
  exists s', robin_add b x s = Some s' /\ robin_inv s' /\ List_ s' = List_ s ++ [b] /\ store s' = <[b := x]> (store s).
Proof.
  intros Hinv Hb Hw. pose proof Hinv as [Ht Hnd Hp]. unfold robin_add.
  destruct (insert_new (Servers_ s) (store s) b x Ht) as (t & -> & Hinv' & Hp'); [by rewrite elements_of|done|].
  eexists. split; [done|]. split; [|done]. split; cbn [Servers_ store List_]; [done| |].
  - apply NoDup_app. split_and!; [done| |by apply NoDup_singleton]. intros a Ha Ha'. apply list_elem_of_singleton in Ha'. by subst.
  - rewrite Hp', Hp. by rewrite Permutation_app_comm.
Qed.

(** [DoNext] returns a back end of least weight, the one with the lowest address
    among equals, and changes only this one. *)
Lemma robin_next_ok s :
  robin_inv s -> List_ s <> [] ->
  (forall b x, store s !! b = Some x -> nonneg (Weight x) = true -> nonneg (Weight (IncUsageCount x)) = true) ->
  exists next x s', robin_next s = Some (next, s') /\ robin_inv s' /\ List_ s' = List_ s /\
    next ∈ List_ s /\ store s !! next = Some x /\ store s' = <[next := IncUsageCount x]> (store s) /\
    forall b y, b ∈ List_ s -> b <> next -> store s !! b = Some y ->
      dlt (Weight x) (Weight y) = true \/ (deq (Weight x) (Weight y) = true /\ next < b).
Proof.
  intros Hinv Hne Hinc. pose proof Hinv as [Ht Hnd Hp]. unfold robin_next, Begin. rewrite (av_head _ _ _ _ Ht).
  destruct (elements (Root_ (Servers_ s))) as [|next l] eqn:El.
  { by apply Permutation_nil in Hp. }
  cbn [head]. destruct (Erase_ok (Compare (store s)) id (good_in (store s)) next (Servers_ s) Ht) as (t & -> & Ht1 & E1).
  assert (Hnext : next ∈ List_ s) by (rewrite <- Hp; by left).
  destruct (robin_good s next Hinv Hnext) as (x & Ex & Hx). rewrite Ex.
  assert (Hl : NoDup (next :: l)) by by rewrite Hp.
  rewrite El in E1. pose proof (NoDup_cons_1_1 _ _ Hl) as Hnl.
  assert (E2 : elements (Root_ t) = l).
  { rewrite E1. apply (without_app (Compare (store s)) id (good_in (store s)) next [] next l); [done|]. cbn [app]. by rewrite map_id. }
  destruct (insert_new t (store s) next (IncUsageCount x) Ht1) as (t' & -> & Hinv' & Hp'); [by rewrite E2|by eapply Hinc|].
  exists next, x. eexists. split; [done|]. split; [split; cbn [Servers_ store List_]; [done|done|by rewrite Hp', E2]|].
  do 4 (split; [done|]). intros b y Hb Hbn Ey. pose proof (av_sorted _ _ _ _ Ht) as Hs. rewrite El in Hs.
  apply StronglySorted_inv in Hs as [_ Hs]. rewrite Forall_forall in Hs.
  assert (Hbl : b ∈ l) by (rewrite <- Hp in Hb; apply elem_of_cons in Hb as [->|]; done).
  specialize (Hs b Hbl). unfold Compare in Hs. rewrite Ex, Ey in Hs.
  apply orb_true_iff in Hs as [H|H]; [by left|]. apply andb_true_iff in H as [H1 H2]. b2p. by right.
Qed.

Lemma robin_update_ok f b s :
  robin_inv s -> b ∈ List_ s -> (forall x, Weight (f x) = Weight x) ->
  exists s', robin_update f b s = Some s' /\ robin_inv s' /\ List_ s' = List_ s.
Proof.
  intros Hinv Hb Hf. destruct (robin_good s b Hinv Hb) as (x & Ex & Hx). unfold robin_update. rewrite Ex.
  eexists. split; [done|]. split; [|done]. pose proof Hinv as [Ht Hnd Hp]. split; cbn [Servers_ store List_]; try done.
  assert (Hw : forall a, (Weight <$> (<[b := f x]> (store s) !! a)) = Weight <$> store s !! a).
  { intros a. destruct (decide (a = b)) as [->|]; [by rewrite lookup_insert_eq, Ex; cbn; rewrite Hf|by rewrite lookup_insert_ne]. }
  eapply avl_inv_store; [done| |].
  - intros a Ha. apply elements_of in Ha; [|done]. destruct (robin_good s a Hinv Ha) as (y & Ey & Hy).
    specialize (Hw a). rewrite Ey in Hw. destruct (_ !! a) as [z|] eqn:Ez; [|done]. injection Hw as Hw.
    exists z. split; [done|]. by rewrite Hw.
  - intros a c _ _. unfold Compare. pose proof (Hw a) as H1. pose proof (Hw c) as H2.
    destruct (<[b := f x]> (store s) !! a), (store s !! a); try done.
    destruct (<[b := f x]> (store s) !! c), (store s !! c); try done. injection H1 as ->. by injection H2 as ->.
Qed.
End robin.

(** ** [rrobin.cpp] *)

Section roundrobin.
Context {IModule : Type} {E : Env IModule}.

Record rr_backend := mk_rr { rr_descr : TBackEndDescriptor IModule; rr_weight : double; rr_fail : Z; rr_succ : Z }.

Definition rr_make (d : TBackEndDescriptor IModule) : rr_backend := mk_rr d (Weight_ d) 0 0.

Definition rr_inc (b : rr_backend) : rr_backend :=
  mk_rr (rr_descr b) (rr_weight b + Weight_ (rr_descr b))%double (rr_fail b) (rr_succ b).

Definition rr_complete (b : rr_backend) : rr_backend := mk_rr (rr_descr b) (rr_weight b) (rr_fail b) (u64 (rr_succ b + 1)).

Definition rr_failed (b : rr_backend) : rr_backend := mk_rr (rr_descr b) (rr_weight b) (u64 (rr_fail b + 1)) (rr_succ b).

(** The addresses that allocation from the pool returns. *)
Context (pool : nat -> Z) {Hpool : Inj (=) (=) pool}.

Definition rr_consume (key : string) (v : value) (s : option (nat * TBackEnds (B := rr_backend)))
  : res (option (nat * TBackEnds)) :=
  let! c := AsSubConfig v in
  let! d := descriptor c in
  Ret (let* (n, s) := s in
       let* s := robin_add rr_weight (pool n) (rr_make d) s in
       Some (S n, s)).

Definition CreateRoundRobin (c : config) : res (option TBackEnds) :=
  let! s := ForEach rr_consume c (Some (0%nat, empty_robin)) in
  Ret (let* (_, s) := s in Some s).

#[export] Instance rr_backends {W} : IBackEnds W (TBackEnds (B := rr_backend)) := {
  Size := robin_size;
  DoNext _ s w := let* (b, s) := robin_next rr_weight rr_inc s in Some (Some b, s, w);
  OnCompleteRequest b _ s w := let* s := robin_update rr_complete b s in Some (s, w);
  OnFailRequest b _ s w := let* s := robin_update rr_failed b s in Some (s, w)
}.

(** *** Invariant *)

Definition steps_ok (s : TBackEnds (B := rr_backend)) : Prop :=
  forall b x, store s !! b = Some x -> nonneg (Weight_ (rr_descr x)) = true.

Definition rr_inv (s : TBackEnds (B := rr_backend)) : Prop := robin_inv rr_weight s /\ steps_ok s.

Lemma rr_inc_nonneg s b x :
  steps_ok s -> store s !! b = Some x -> nonneg (rr_weight x) = true -> nonneg (rr_weight (rr_inc x)) = true.
Proof. intros Hs Ex Hx. cbn. apply nonneg_add; [done|by eapply Hs]. Qed.

Lemma steps_ok_insert s s' b x y :
  steps_ok s -> store s !! b = Some x -> rr_descr y = rr_descr x -> store s' = <[b := y]> (store s) -> steps_ok s'.
Proof.
  intros Hs Ex Ed Es a z Ez. rewrite Es in Ez. apply lookup_insert_Some in Ez as [[<- <-]|[_ Ez]]; [|by eapply Hs].
  rewrite Ed. by eapply Hs.
Qed.

Lemma rr_next_ok s : rr_inv s -> List_ s <> [] ->
  exists next x s', robin_next rr_weight rr_inc s = Some (next, s') /\ rr_inv s' /\ List_ s' = List_ s /\
    next ∈ List_ s /\ store s !! next = Some x /\ store s' = <[next := rr_inc x]> (store s) /\
    forall b y, b ∈ List_ s -> b <> next -> store s !! b = Some y ->
      dlt (rr_weight x) (rr_weight y) = true \/ (deq (rr_weight x) (rr_weight y) = true /\ next < b).
Proof.
  intros [Hinv Hs] Hne. destruct (robin_next_ok rr_weight rr_inc s Hinv Hne) as (next & x & s' & H1 & H2 & H3 & H4 & H5 & H6 & H7).
  { intros b x Ex. by eapply rr_inc_nonneg. }
  exists next, x, s'. split; [done|]. split; [|done]. split; [done|]. by apply (steps_ok_insert s s' next x (rr_inc x)).
Qed.

Lemma rr_update_ok f b s : rr_inv s -> b ∈ List_ s -> (forall x, rr_weight (f x) = rr_weight x) ->
  (forall x, rr_descr (f x) = rr_descr x) ->
  exists s', robin_update f b s = Some s' /\ rr_inv s' /\ List_ s' = List_ s.
Proof.
  intros [Hinv Hs] Hb Hw Hd. destruct (robin_update_ok rr_weight f b s Hinv Hb Hw) as (s' & E' & Hinv' & El).
  exists s'. split; [done|]. split; [split; [done|]|done]. unfold robin_update in E'.
  destruct (store s !! b) as [x|] eqn:Ex; [|done]. injection E' as <-. by apply (steps_ok_insert s _ b x (f x)).
Qed.

#[export] Instance rr_spec {W} : BackEndsSpec W (TBackEnds (B := rr_backend)).
Proof.
  refine {| policy_inv s := rr_inv s /\ List_ s <> []; backends s := List_ s |}; [done| | |].
  - intros a s w [Hinv Hne]. destruct (rr_next_ok s Hinv Hne) as (b & x & s' & E' & Hinv' & El & Hb & _).
    exists b, s', w. cbn. rewrite E', El. done.
  - intros b d s w [Hinv Hne] Hb. destruct (rr_update_ok rr_complete b s Hinv Hb) as (s' & E' & Hinv' & El); [done|done|].
    exists s', w. cbn. rewrite E', El. done.
  - intros b d s w [Hinv Hne] Hb. destruct (rr_update_ok rr_failed b s Hinv Hb) as (s' & E' & Hinv' & El); [done|done|].
    exists s', w. cbn. rewrite E', El. done.
Defined.

(** *** Construction *)

Definition built (s : option (nat * TBackEnds (B := rr_backend))) : Prop :=
  match s with
  | None => False
  | Some (n, s) => rr_inv s /\ List_ s = map pool (seq 0 n) /\
      forall b x, store s !! b = Some x -> rr_weight x = Weight_ (rr_descr x)
  end.

Lemma rr_add_ok n s d : built (Some (n, s)) -> nonneg (Weight_ d) = true ->
  exists s', robin_add rr_weight (pool n) (rr_make d) s = Some s' /\ built (Some (S n, s')) /\
    store s' = <[pool n := rr_make d]> (store s).
Proof.
  intros ([Hinv Hs] & El & Hw) Hd. destruct (robin_add_ok rr_weight s (pool n) (rr_make d) Hinv) as (s' & E' & Hinv' & El' & Es'); [|done|].
  { rewrite El. intros Hin. apply list_elem_of_In, in_map_iff in Hin as (m & Em & Hm). apply Hpool in Em. apply in_seq in Hm. lia. }
  exists s'. split; [done|]. split; [|done]. split; [split; [done|]|split].
  - intros b x Ex. rewrite Es' in Ex. apply lookup_insert_Some in Ex as [[_ <-]|[_ Ex]]; [done|by eapply Hs].
  - rewrite El', El, seq_S, map_app. done.
  - intros b x Ex. rewrite Es' in Ex. apply lookup_insert_Some in Ex as [[_ <-]|[_ Ex]]; [done|by eapply Hw].
Qed.

(** The configuration gives non-negative weights. *)
Definition weights_nonneg (c : config) : Prop :=
  forall k v sub d, (k, v) ∈ items c -> AsSubConfig v = Ret sub -> descriptor sub = Ret d -> nonneg (Weight_ d) = true.

Lemma rr_consume_all l : forall st s',
  (forall k v sub d, (k, v) ∈ l -> AsSubConfig v = Ret sub -> descriptor sub = Ret d -> nonneg (Weight_ d) = true) ->
  built st -> for_each rr_consume l st = Ret s' -> built s' /\
  exists n m t t', st = Some (n, t) /\ s' = Some (m, t') /\ m = (n + length l)%nat.
Proof.
  induction l as [|[k v] l IH]; intros st s' Hw Hb; cbn.
  - intros [= <-]. split; [done|]. destruct st as [[n t]|]; [|done]. exists n, n, t, t. split_and!; [done|done|lia].
  - unfold rr_consume at 1. destruct (AsSubConfig v) as [sub|] eqn:Ev; [|done].
    destruct (descriptor sub) as [d|] eqn:Ed; [|done]. destruct st as [[n t]|]; [|done].
    destruct (rr_add_ok n t d Hb) as (t1 & E1 & Hb1 & _); [by apply (Hw k v sub d); [left| |]|].
    rewrite E1. intros E2. destruct (IH _ _ ltac:(intros; eapply Hw; [by right|done|done]) Hb1 E2) as (Hb' & n' & m & t2 & t' & [= <- <-] & -> & ->).
    split; [done|]. exists n, (S n + length l)%nat, t, t'. split_and!; [done|done|lia].
Qed.

Lemma empty_built : built (Some (0%nat, empty_robin)).
Proof.
  split; [split|split; [done|]].
  - split; cbn; [apply empty_inv|constructor|done].
  - intros b x Ex. cbn in Ex. by rewrite lookup_empty in Ex.
  - intros b x Ex. cbn in Ex. by rewrite lookup_empty in Ex.
Qed.

Lemma create_ok c s :
  weights_nonneg c -> CreateRoundRobin c = Ret s ->
  exists t, s = Some t /\ rr_inv t /\ List_ t = map pool (seq 0 (length (items c))) /\
    forall b x, store t !! b = Some x -> rr_weight x = Weight_ (rr_descr x).
Proof.
  intros Hw. unfold CreateRoundRobin, ForEach. destruct (for_each _ _ _) as [o|] eqn:E1; [|done]. intros [= <-].
  destruct (rr_consume_all (items c) _ _ Hw empty_built E1) as (Hb & n & m & t & t' & [= <- <-] & -> & ->).
  destruct Hb as (H1 & H2 & H3). exists t'. cbn in H2. done.
Qed.

(** *** Fairness *)

(** The back ends that [n] calls return. *)
Fixpoint rr_run (n : nat) (s : TBackEnds (B := rr_backend)) : option (list Z * TBackEnds (B := rr_backend)) :=
  match n with
  | O => Some ([], s)
  | S n =>
      let* (b, s) := robin_next rr_weight rr_inc s in
      let* (l, s) := rr_run n s in
      Some (b :: l, s)
  end.

Definition uses (b : Z) (l : list Z) : Z := zlen (filter (fun x => x = b) l).

Lemma uses_cons b x l : uses b (x :: l) = uses b l + (if decide (x = b) then 1 else 0).
Proof. unfold uses. rewrite filter_cons. destruct (decide (x = b)); [by rewrite zlen_cons|lia]. Qed.

(** Integral weights: the back end [b] was used [k b] times and costs [step b]. *)
Record fair_inv (step k : Z -> Z) (s : TBackEnds (B := rr_backend)) : Prop := {
  fi_inv : rr_inv s;
  fi_weight b : b ∈ List_ s -> exists x, store s !! b = Some x /\
    rr_weight x = of_Z ((k b + 1) * step b) /\ Weight_ (rr_descr x) = of_Z (step b);
  fi_pos b : b ∈ List_ s -> 0 < step b /\ 0 <= k b;
  fi_fair i j : i ∈ List_ s -> j ∈ List_ s -> k i * step i <= (k j + 1) * step j
}.

Definition bump (k : Z -> Z) (next : Z) (b : Z) : Z := if decide (next = b) then k b + 1 else k b.

Lemma fair_step step k s :
  fair_inv step k s -> List_ s <> [] -> (forall b, b ∈ List_ s -> (k b + 2) * step b < 2 ^ 53) ->
  exists next s', robin_next rr_weight rr_inc s = Some (next, s') /\ fair_inv step (bump k next) s' /\
    List_ s' = List_ s /\ next ∈ List_ s.
Proof.
  intros [Hinv Hw Hp Hf] Hne Hb. destruct (rr_next_ok s Hinv Hne) as (next & x & s' & E1 & Hinv' & El & Hn & Ex & Es & Hmin).
  exists next, s'. split; [done|]. split; [|done]. destruct (Hw next Hn) as (x' & Ex' & Ew & Ed). rewrite Ex in Ex'. injection Ex' as <-.
  destruct (Hp next Hn) as [Hsn Hkn]. pose proof (Hb next Hn) as Hbn.
  assert (Hleast : forall j, j ∈ List_ s -> (k next + 1) * step next <= (k j + 1) * step j).
  { intros j Hj. destruct (decide (j = next)) as [->|Hjn]; [lia|]. destruct (Hw j Hj) as (y & Ey & Ey' & _).
    destruct (Hp j Hj) as [Hsj Hkj]. pose proof (Hb j Hj).
    assert (0 < (k next + 1) * step next < 2 ^ 53) by nia. assert (0 < (k j + 1) * step j < 2 ^ 53) by nia.
    destruct (Hmin j y Hj Hjn Ey) as [Hc|[Hc _]]; rewrite Ew, Ey' in Hc.
    - rewrite of_Z_lt in Hc by done. b2p. lia.
    - rewrite of_Z_eq in Hc by done. b2p. lia. }
  split; rewrite ?El; try done.
  - intros b Hbb. unfold bump. rewrite Es. destruct (decide (next = b)) as [<-|Hne'].
    + exists (rr_inc x). rewrite lookup_insert_eq. split; [done|]. cbn. split; [|done].
      rewrite Ew, Ed, of_Z_add; [f_equal; lia|nia|done|nia].
    + rewrite lookup_insert_ne by done. by apply Hw.
  - intros b Hbb. unfold bump. destruct (Hp b Hbb). destruct (decide (next = b)); lia.
  - intros i j Hi Hj. unfold bump. specialize (Hf i j Hi Hj). pose proof (Hleast j Hj). pose proof (Hp j Hj). pose proof (Hp i Hi).
    destruct (decide (next = i)) as [<-|], (decide (next = j)) as [<-|]; try nia.
Qed.

Lemma fair_run n : forall step k s,
  fair_inv step k s -> List_ s <> [] -> (forall b, b ∈ List_ s -> (k b + 1 + Z.of_nat n) * step b < 2 ^ 53) ->
  exists l s', rr_run n s = Some (l, s') /\ length l = n /\ Forall (fun b => b ∈ List_ s) l /\
    List_ s' = List_ s /\ fair_inv step (fun b => k b + uses b l) s'.
Proof.
  induction n as [|n IH]; intros step k s Hf Hne Hb; cbn [rr_run].
  - exists [], s. split_and!; try done. destruct Hf as [H1 H2 H3 H4]. split; try done; unfold uses; cbn;
      intros; rewrite ?Z.add_0_r; auto.
  - destruct (fair_step step k s Hf Hne) as (next & s1 & E1 & Hf1 & El1 & Hn).
    { intros b Hbb. specialize (Hb b Hbb). destruct (fi_pos _ _ _ Hf b Hbb). nia. }
    rewrite E1. destruct (IH step (bump k next) s1 Hf1) as (l & s' & E2 & Hlen & Hall & El2 & Hf2); [by rewrite El1| |].
    { rewrite El1. intros b Hbb. specialize (Hb b Hbb). destruct (fi_pos _ _ _ Hf b Hbb). unfold bump. destruct (decide (next = b)); nia. }
    rewrite E2. exists (next :: l), s'. split; [done|]. split; [cbn; lia|]. rewrite El1 in *.
    split; [by apply Forall_cons|]. split; [done|].
    assert (Ek : forall b, k b + uses b (next :: l) = bump k next b + uses b l).
    { intros b. rewrite uses_cons. unfold bump. destruct (decide (next = b)); lia. }
    destruct Hf2 as [H1 H2 H3 H4]. split; [done| | |]; intros; rewrite ?Ek; auto.
Qed.
End roundrobin.

(** ** [smartrr.cpp] *)

Section smart.
Context {IModule : Type} {E : Env IModule}.

Record srr_backend := mk_srr {
  srr_descr : TBackEndDescriptor IModule; srr_weight : double; srr_step : double;
  CntComplete_ : Z; CntFail_ : Z; State_ : Z
}.

(** The constructor does not set [State_]: it keeps what the memory held. *)
Definition srr_make (garbage : Z) (d : TBackEndDescriptor IModule) : srr_backend :=
  mk_srr d (of_Z 1) (of_Z 1) 0 0 garbage.

Definition set_state (b : srr_backend) (state : Z) : srr_backend :=
  mk_srr (srr_descr b) (srr_weight b) (srr_step b) 0 0 state.

Definition UpdateState (b : srr_backend) : srr_backend :=
  let full := 10 <? u32 (CntFail_ b + CntComplete_ b) in
  if State_ b =? 0 then
    if negb (CntFail_ b =? 0) then set_state b 1 else b
  else if State_ b =? 1 then
    if full then
      if CntComplete_ b <? CntFail_ b then set_state b 2
      else if CntFail_ b =? 0 then set_state b 0
      else set_state b 1
    else b
  else if State_ b =? 2 then
    if full then
      if CntComplete_ b =? 0 then set_state b 3
      else if CntFail_ b <? CntComplete_ b then set_state b 1
      else set_state b 2
    else b
  else if State_ b =? 3 then
    if negb (CntComplete_ b =? 0) then set_state b 2 else b
  else b.

Definition state_mul (state : Z) : double :=
  if state =? 1 then of_Z 2 else if state =? 2 then of_Z 8 else if state =? 3 then of_Z 64 else of_Z 1.

Definition srr_inc (b : srr_backend) : srr_backend :=
  let b := UpdateState b in
  mk_srr (srr_descr b) (srr_weight b + srr_step b * state_mul (State_ b))%double (srr_step b)
    (CntComplete_ b) (CntFail_ b) (State_ b).

Definition srr_complete (b : srr_backend) : srr_backend :=
  mk_srr (srr_descr b) (srr_weight b) (srr_step b) (u32 (CntComplete_ b + 1)) (CntFail_ b) (State_ b).

Definition srr_failed (b : srr_backend) : srr_backend :=
  mk_srr (srr_descr b) (srr_weight b) (srr_step b) (CntComplete_ b) (u32 (CntFail_ b + 1)) (State_ b).

Context (pool : nat -> Z) (garbage : nat -> Z).

Definition srr_consume (key : string) (v : value) (s : option (nat * TBackEnds (B := srr_backend)))
  : res (option (nat * TBackEnds)) :=
  let! c := AsSubConfig v in
  let! d := descriptor c in
  Ret (let* (n, s) := s in
       let* s := robin_add srr_weight (pool n) (srr_make (garbage n) d) s in
       Some (S n, s)).

Definition CreateSmartRoundRobin (c : config) : res (option TBackEnds) :=
  let! s := ForEach srr_consume c (Some (0%nat, empty_robin)) in
  Ret (let* (_, s) := s in Some s).

#[export] Instance srr_backends {W} : IBackEnds W (TBackEnds (B := srr_backend)) := {
  Size := robin_size;
  DoNext _ s w := let* (b, s) := robin_next srr_weight srr_inc s in Some (Some b, s, w);
  OnCompleteRequest b _ s w := let* s := robin_update srr_complete b s in Some (s, w);
  OnFailRequest b _ s w := let* s := robin_update srr_failed b s in Some (s, w)
}.

(** *** Invariant *)

(** The step is 1, so that a use costs 1, 2, 8 or 64. *)
Definition srr_inv (s : TBackEnds (B := srr_backend)) : Prop :=
  robin_inv srr_weight s /\ forall b x, store s !! b = Some x -> srr_step x = of_Z 1.

Lemma UpdateState_keeps b :
  srr_weight (UpdateState b) = srr_weight b /\ srr_step (UpdateState b) = srr_step b /\ srr_descr (UpdateState b) = srr_descr b.
Proof. unfold UpdateState. cbn zeta. by repeat case_match. Qed.

Lemma srr_cost b : srr_step b = of_Z 1 ->
  srr_weight (srr_inc b) = dadd (srr_weight b) (state_mul (State_ (UpdateState b))).
Proof.
  intros Es. destruct (UpdateState_keeps b) as (E1 & E2 & _). cbn. rewrite E1, E2, Es. f_equal.
  unfold state_mul. by repeat case_match.
Qed.

Lemma state_mul_nonneg st : nonneg (state_mul st) = true.
Proof. unfold state_mul. by repeat case_match. Qed.

Lemma srr_next_ok s : srr_inv s -> List_ s <> [] ->
  exists next x s', robin_next srr_weight srr_inc s = Some (next, s') /\ srr_inv s' /\ List_ s' = List_ s /\
    next ∈ List_ s /\ store s !! next = Some x /\ store s' = <[next := srr_inc x]> (store s) /\
    forall b y, b ∈ List_ s -> b <> next -> store s !! b = Some y ->
      dlt (srr_weight x) (srr_weight y) = true \/ (deq (srr_weight x) (srr_weight y) = true /\ next < b).
Proof.
  intros [Hinv Hs] Hne. destruct (robin_next_ok srr_weight srr_inc s Hinv Hne) as (next & x & s' & H1 & H2 & H3 & H4 & H5 & H6 & H7).
  { intros b x Ex Hx. rewrite srr_cost by by eapply Hs. apply nonneg_add; [done|apply state_mul_nonneg]. }
  exists next, x, s'. split; [done|]. split; [|done]. split; [done|]. rewrite H6. intros b y Ey.
  apply lookup_insert_Some in Ey as [[_ <-]|[_ Ey]]; [|by eapply Hs]. cbn. destruct (UpdateState_keeps x) as (_ & -> & _). by eapply Hs.
Qed.

Lemma srr_update_ok f b s : srr_inv s -> b ∈ List_ s -> (forall x, srr_weight (f x) = srr_weight x) ->
  (forall x, srr_step (f x) = srr_step x) ->
  exists s', robin_update f b s = Some s' /\ srr_inv s' /\ List_ s' = List_ s.
Proof.
  intros [Hinv Hs] Hb Hw Hd. destruct (robin_update_ok srr_weight f b s Hinv Hb Hw) as (s' & E' & Hinv' & El).
  exists s'. split; [done|]. split; [split; [done|]|done]. unfold robin_update in E'.
  destruct (store s !! b) as [x|] eqn:Ex; [|done]. injection E' as <-. cbn. intros a y Ey.
  apply lookup_insert_Some in Ey as [[_ <-]|[_ Ey]]; [|by eapply Hs]. rewrite Hd. by eapply Hs.
Qed.

#[export] Instance srr_spec {W} : BackEndsSpec W (TBackEnds (B := srr_backend)).
Proof.
  refine {| policy_inv s := srr_inv s /\ List_ s <> []; backends s := List_ s |}; [done| | |].
  - intros a s w [Hinv Hne]. destruct (srr_next_ok s Hinv Hne) as (b & x & s' & E' & Hinv' & El & Hb & _).
    exists b, s', w. cbn. rewrite E', El. done.
  - intros b d s w [Hinv Hne] Hb. destruct (srr_update_ok srr_complete b s Hinv Hb) as (s' & E' & Hinv' & El); [done|done|].
    exists s', w. cbn. rewrite E', El. done.
  - intros b d s w [Hinv Hne] Hb. destruct (srr_update_ok srr_failed b s Hinv Hb) as (s' & E' & Hinv' & El); [done|done|].
    exists s', w. cbn. rewrite E', El. done.
Defined.

(** *** The state machine *)

(** The moves between states that [UpdateState] can make, with their conditions. *)
Inductive srr_move (b : srr_backend) : Z -> Z -> Prop :=
  | move_first : CntFail_ b <> 0 -> srr_move b 0 1
  | move_worse : 10 < u32 (CntFail_ b + CntComplete_ b) -> CntComplete_ b < CntFail_ b -> srr_move b 1 2
  | move_recovered : 10 < u32 (CntFail_ b + CntComplete_ b) -> CntFail_ b = 0 -> srr_move b 1 0
  | move_dead : 10 < u32 (CntFail_ b + CntComplete_ b) -> CntComplete_ b = 0 -> srr_move b 2 3
  | move_better : 10 < u32 (CntFail_ b + CntComplete_ b) -> CntFail_ b < CntComplete_ b -> srr_move b 2 1
  | move_alive : CntComplete_ b <> 0 -> srr_move b 3 2.

Lemma UpdateState_move b : 0 <= CntFail_ b -> 0 <= CntComplete_ b ->
  State_ (UpdateState b) = State_ b \/ srr_move b (State_ b) (State_ (UpdateState b)).
Proof.
  intros H1 H2. unfold UpdateState. cbn zeta.
  repeat (match goal with |- context [if ?c then _ else _] => destruct c eqn:? end); cbn [State_ set_state]; b2p; try (by left);
    try (left; congruence); right; match goal with H : State_ b = _ |- _ => rewrite H end; constructor; lia.
Qed.

Lemma UpdateState_range b : 0 <= State_ b <= 3 -> 0 <= State_ (UpdateState b) <= 3.
Proof.
  intros H. unfold UpdateState. cbn zeta.
  repeat (match goal with |- context [if ?c then _ else _] => destruct c end); cbn; lia.
Qed.

(** A state that is none of the four is never left. *)
Lemma UpdateState_stuck b : 3 < State_ b -> UpdateState b = b.
Proof. intros H. unfold UpdateState. cbn zeta. by rewrite !(proj2 (Z.eqb_neq (State_ b) _)) by lia. Qed.
End smart.
