(* ===== verification/BWeighted.v ===== *)
(** * Balancer: the policies over lists of back ends

    Models [hashing.cpp], [fair.cpp], [robust.cpp], [weighted.cpp] and [pidgroup.cpp]
    of [src/web/httpd/modules/balancer].  A back end is named by its position in the
    list.  The state that a back end reaches through [Parent_] is part of the policy's
    record. *)

From Stdlib Require Import ZArith Lia Bool String SpecFloat.
From stdpp Require Import base numbers list strings.
From S2P Require Import Prelude Double Random BConfig BTrackers BPolicy.

(** ** Sums and choices over the list *)

(** [for (...) sum += w] *)
Definition sum_doubles (l : list double) : double := fold_left dadd l (of_Z 0).

(** [cur += w; if (cur > rnd) return it] *)
Fixpoint choose_above (rnd cur : double) (i : Z) (l : list double) : option Z :=
  match l with
  | [] => None
  | w :: l' =>
      let cur := (cur + w)%double in
      if dlt rnd cur then Some i else choose_above rnd cur (i + 1) l'
  end.

(** The items of a configuration become back ends in order. *)
Definition add_descr {IModule} {E : Env IModule} {B} (make : TBackEndDescriptor IModule -> B)
    (key : string) (v : value) (l : list B) : res (list B) :=
  let! c := AsSubConfig v in
  let! d := descriptor c in
  Ret (l ++ [make d]).

Definition update {B} (i : Z) (f : B -> B) (l : list B) : option (list B) :=
  let* x := zget l i in zset l i (f x).

Section policies.
Context {IModule : Type} {E : Env IModule} {W : Type} {HW : World W}.
Local Notation descr := (TBackEndDescriptor IModule).

(** ** [hashing.cpp] *)

Record hash_backend := mk_hash { hb_descr : descr; hb_fail : Z; hb_succ : Z }.

Definition hash_make (d : descr) : hash_backend := mk_hash d 0 0.

Definition CreateHashing (c : config) : res (list hash_backend) := ForEach (add_descr hash_make) c [].

(** A remainder by zero is undefined. *)
Definition hash_next (a : TAttempt) (s : list hash_backend) (w : W) : option (option Z * list hash_backend * W) :=
  let '(hash, w) := if Attempt a =? 0 then (Hash a, w) else gen64 w in
  if zlen s =? 0 then None
  else
    let i := hash mod zlen s in
    let* _ := zget s i in
    Some (Some i, s, w).

Definition hash_complete (b : hash_backend) : hash_backend := mk_hash (hb_descr b) (hb_fail b) (u64 (hb_succ b + 1)).
Definition hash_failed (b : hash_backend) : hash_backend := mk_hash (hb_descr b) (u64 (hb_fail b + 1)) (hb_succ b).

#[export] Instance hash_backends : IBackEnds W (list hash_backend) := {
  Size := zlen;
  DoNext := hash_next;
  OnCompleteRequest b _ s w := let* s := update b hash_complete s in Some (s, w);
  OnFailRequest b _ s w := let* s := update b hash_failed s in Some (s, w)
}.

(** ** [fair.cpp] *)

Record fair_backend := mk_fair {
  fb_descr : descr; AnswerTime_ : median; Failures_ : middle; fb_weight : double; fb_succ : Z; fb_fail : Z
}.

(** [1000000.0 / (1 + WeightStep() * AnswerTime_.Get(90) * (1 + Failures_.M()))] *)
Definition CalcWeight (d : descr) (t : median) (f : middle) : option double :=
  let* g := median_get 100 90 t in
  Some (of_Z 1000000 / (of_Z 1 + Weight_ d * g * (of_Z 1 + middle_m f)))%double.

(** The array of the tracker is not initialised. *)
Definition fair_make (cells : list double) (d : descr) : option fair_backend :=
  let t := median_make cells in
  let f := mk_middle (of_Z 1) (lit 85 100) in
  let* w := CalcWeight d t f in
  Some (mk_fair d t f w 0 0).

Definition fair_consume (cells : list double) (key : string) (v : value) (l : option (list fair_backend))
  : res (option (list fair_backend)) :=
  let! c := AsSubConfig v in
  let! d := descriptor c in
  Ret (let* l := l in let* b := fair_make cells d in Some (l ++ [b])).

Definition CreateFair (cells : list double) (c : config) : res (option (list fair_backend)) :=
  ForEach (fair_consume cells) c (Some []).

(** [None] is [abort()]. *)
Definition fair_next (s : list fair_backend) (w : W) : option (option Z * list fair_backend * W) :=
  let ws := map fb_weight s in
  let '(r, w) := random_double w in
  let rnd := (r * sum_doubles ws)%double in
  let* i := choose_above rnd (of_Z 0) 0 ws in
  Some (Some i, s, w).

Definition fair_complete (answerTime : Z) (b : fair_backend) : option fair_backend :=
  let* t := median_add 100 (of_Z answerTime) (AnswerTime_ b) in
  let f := middle_add (of_Z 0) (Failures_ b) in
  let* w := CalcWeight (fb_descr b) t f in
  Some (mk_fair (fb_descr b) t f w (u64 (fb_succ b + 1)) (fb_fail b)).

Definition fair_failed (b : fair_backend) : option fair_backend :=
  let f := middle_add (of_Z 10) (Failures_ b) in
  let* w := CalcWeight (fb_descr b) (AnswerTime_ b) f in
  Some (mk_fair (fb_descr b) (AnswerTime_ b) f w (fb_succ b) (u64 (fb_fail b + 1))).

#[export] Instance fair_backends : IBackEnds W (list fair_backend) := {
  Size := zlen;
  DoNext _ := fair_next;
  OnCompleteRequest b d s w :=
    let* x := zget s b in let* x := fair_complete d x in let* s := zset s b x in Some (s, w);
  OnFailRequest b _ s w :=
    let* x := zget s b in let* x := fair_failed x in let* s := zset s b x in Some (s, w)
}.

(** ** [robust.cpp] *)

Record robust_backend := mk_rb {
  rb_descr : descr; rb_weight : double; InitialWeight_ : double; rb_fail : Z; rb_succ : Z
}.

Record robust := mk_robust { rb_list : list robust_backend; Count_ : Z; Tr_ : median; Sr_ : middle }.

(** The constructor of a back end does not set its counters. *)
Definition robust_make (garbage : Z * Z) (d : descr) : robust_backend :=
  mk_rb d (Weight_ d) (Weight_ d) (fst garbage) (snd garbage).

Definition robust_consume (garbage : Z * Z) (key : string) (v : value) (s : robust) : res robust :=
  let! l := add_descr (robust_make garbage) key v (rb_list s) in
  Ret (mk_robust l (Count_ s + 1) (Tr_ s) (Sr_ s)).

Definition CreateRobust (cells : list double) (garbage : Z * Z) (c : config) : res robust :=
  ForEach (robust_consume garbage) c (mk_robust [] 0 (median_make cells) (mk_middle (of_Z 1) (lit 95 100))).

Definition Smooth (b : robust_backend) (x : double) : double :=
  let rc := u64 (rb_fail b + rb_succ b) in
  if 1000 <? rc then x else (of_Z rc * x / of_Z 1000)%double.

Definition set_rb (b : robust_backend) (w : double) : robust_backend :=
  mk_rb (rb_descr b) w (InitialWeight_ b) (rb_fail b) (rb_succ b).

Definition AdjustByError (val : bool) (b : robust_backend) (sr : middle) : robust_backend * middle :=
  let prev := Smooth b (middle_m sr) in
  let sr := middle_add (of_Z (if val then 1 else 0)) sr in
  let next := Smooth b (middle_m sr) in
  let c := ((lit 1 100 + next) / (lit 1 100 + prev))%double in
  let wt := rb_weight b in
  let init := InitialWeight_ b in
  let c := if val
           then (c * (of_Z 1 + lit 1 100 * (init - wt) / (wt + init * lit 1 10000)))%double
           else c in
  (set_rb b (wt * c)%double, sr).

Definition robust_complete (i answerTime : Z) (s : robust) : option robust :=
  let* b := zget (rb_list s) i in
  let* m0 := median_get 300 90 (Tr_ s) in
  let prev := Smooth b m0 in
  let* tr := median_add 300 (of_Z answerTime) (Tr_ s) in
  let* m1 := median_get 300 90 tr in
  let next := Smooth b m1 in
  let b := mk_rb (rb_descr b) (rb_weight b * ((of_Z 1 + prev) / (of_Z 1 + next)))%double (InitialWeight_ b)
             (rb_fail b) (u64 (rb_succ b + 1)) in
  let '(b, sr) := AdjustByError true b (Sr_ s) in
  let* l := zset (rb_list s) i b in
  Some (mk_robust l (Count_ s) tr sr).

Definition robust_failed (i : Z) (s : robust) : option robust :=
  let* b := zget (rb_list s) i in
  let b := mk_rb (rb_descr b) (rb_weight b) (InitialWeight_ b) (u64 (rb_fail b + 1)) (rb_succ b) in
  let '(b, sr) := AdjustByError false b (Sr_ s) in
  let* l := zset (rb_list s) i b in
  Some (mk_robust l (Count_ s) (Tr_ s) sr).

Definition Step (b : robust_backend) : robust_backend :=
  let al := lit 9999 10000 in
  set_rb b (al * rb_weight b + (of_Z 1 - al) * InitialWeight_ b)%double.

Definition robust_next (s : robust) (w : W) : option (option Z * robust * W) :=
  let l := map Step (rb_list s) in
  let c := (of_Z (Count_ s) / sum_doubles (map rb_weight l))%double in
  let l := map (fun b => set_rb b (rb_weight b * c)%double) l in
  let '(r, w) := random_double w in
  let rnd := (r * of_Z (Count_ s))%double in
  let* i := choose_above rnd (of_Z 0) 0 (map rb_weight l) in
  Some (Some i, mk_robust l (Count_ s) (Tr_ s) (Sr_ s), w).

#[export] Instance robust_backends : IBackEnds W robust := {
  Size := Count_;
  DoNext _ := robust_next;
  OnCompleteRequest b d s w := let* s := robust_complete b d s in Some (s, w);
  OnFailRequest b _ s w := let* s := robust_failed b s in Some (s, w)
}.

(** ** [weighted.cpp] *)

Record weighted_backend := mk_wb {
  wb_descr : descr; wb_weight : double; Emergency_ : double; FailRate_ : middle; wb_succ : Z; wb_fail : Z
}.

Record weighted := mk_weighted { wb_list : list weighted_backend; SearchTime_ : middle }.

Definition weighted_make (d : descr) : weighted_backend :=
  mk_wb d (of_Z 1) (of_Z 0) (mk_middle (of_Z 0) (lit 99 100)) 0 0.

Definition CreateWeighted (c : config) : res weighted :=
  let! l := ForEach (add_descr weighted_make) c [] in
  Ret (mk_weighted l (mk_middle (of_Z 1000000) (lit 99 100))).

Definition SetWeight (b : weighted_backend) (x : double) : weighted_backend :=
  mk_wb (wb_descr b) x (Emergency_ b) (FailRate_ b) (wb_succ b) (wb_fail b).

Definition AddEmergency (x : double) (b : weighted_backend) : weighted_backend :=
  mk_wb (wb_descr b) (wb_weight b) (Emergency_ b + x)%double (FailRate_ b) (wb_succ b) (wb_fail b).

Definition GetFailRate (b : weighted_backend) : double := Min (middle_m (FailRate_ b)) (lit 99 100).

Definition weighted_normalize (l : list weighted_backend) : list weighted_backend :=
  let sum := sum_doubles (map wb_weight l) in
  map (fun b => SetWeight b (wb_weight b / sum)%double) l.

(** The back end under [OnCompleteRequest] is one of those that are normalised. *)
Definition weighted_complete (i answerTime : Z) (s : weighted) : option weighted :=
  let* b := zget (wb_list s) i in
  let oldTime := middle_m (SearchTime_ s) in
  let st := middle_add (of_Z answerTime) (SearchTime_ s) in
  let b := mk_wb (wb_descr b) (wb_weight b * ((oldTime + of_Z 1) / (middle_m st + of_Z 1)))%double
             (Emergency_ b) (FailRate_ b) (u64 (wb_succ b + 1)) (wb_fail b) in
  let* l := zset (wb_list s) i b in
  let l := weighted_normalize l in
  let* l := update i (fun b => mk_wb (wb_descr b) (wb_weight b) (Emergency_ b) (middle_add (of_Z 0) (FailRate_ b))
                                 (wb_succ b) (wb_fail b)) l in
  Some (mk_weighted l st).

Definition weighted_failed (i : Z) (s : weighted) : option weighted :=
  let* l := update i (fun b => mk_wb (wb_descr b) (wb_weight b) (Emergency_ b) (middle_add (of_Z 1) (FailRate_ b))
                                 (wb_succ b) (u64 (wb_fail b + 1))) (wb_list s) in
  Some (mk_weighted l (SearchTime_ s)).

(** The loop of [Choose]: the greatest emergency so far and where it was seen. *)
Fixpoint greatest (l : list double) (i : Z) (max : double) (retval : Z) : Z :=
  match l with
  | [] => retval
  | cur :: l' => if dlt max cur then greatest l' (i + 1) cur i else greatest l' (i + 1) max retval
  end.

Definition Choose (l : list weighted_backend) : option (Z * list weighted_backend) :=
  let* first := zget l 0 in
  let max := Emergency_ first in
  let l := map (fun b => AddEmergency (wb_weight b) b) l in
  let retval := greatest (map Emergency_ l) 0 max 0 in
  let* l := update retval (AddEmergency (of_Z (-1))) l in
  Some (retval, l).

(** [while (!retval && --count)]; [count] is the number of iterations left. *)
Fixpoint weighted_loop (count : nat) (l : list weighted_backend) (w : W) : option (option Z * list weighted_backend * W) :=
  match count with
  | O => Some (None, l, w)
  | S count =>
      let* (i, l) := Choose l in
      let* b := zget l i in
      let '(r, w) := random_double w in
      if dlt r (GetFailRate b) then weighted_loop count l w else Some (Some i, l, w)
  end.

Definition weighted_next (s : weighted) (w : W) : option (option Z * weighted * W) :=
  let* _ := zget (wb_list s) 0 in
  let* (retval, l, w) := weighted_loop (Z.to_nat (zlen (wb_list s) - 1)) (wb_list s) w in
  Some (Some (match retval with Some i => i | None => 0 end), mk_weighted l (SearchTime_ s), w).

#[export] Instance weighted_backends : IBackEnds W weighted := {
  Size s := zlen (wb_list s);
  DoNext _ := weighted_next;
  OnCompleteRequest b d s w := let* s := weighted_complete b d s in Some (s, w);
  OnFailRequest b _ s w := let* s := weighted_failed b s in Some (s, w)
}.

(** ** [pidgroup.cpp] *)

Record pid_backend := mk_pid {
  pb_descr : descr; pb_weight : double; BalanceWeight_ : double; Data_ : double; TimeRate_ : middle
}.

Record pidgroup := mk_pidgroup { pb_list : list pid_backend; pb_search : middle }.

Definition pid_make (d : descr) : pid_backend :=
  mk_pid d (Weight_ d) (Weight_ d) (of_Z 1) (mk_middle (of_Z 300000) (lit 9 10)).

Definition CreatePIDGroup (c : config) : res pidgroup :=
  let! l := ForEach (add_descr pid_make) c [] in
  Ret (mk_pidgroup l (mk_middle (of_Z 1000000) (lit 99 100))).

Definition FailAnswerTime (answerTime : double) : double := of_Z 1000000.

Definition Warm (b : pid_backend) : pid_backend :=
  mk_pid (pb_descr b) (pb_weight b) (BalanceWeight_ b) (Data_ b * lit 9999 10000)%double (TimeRate_ b).

Definition pid_share (b : pid_backend) : double := (BalanceWeight_ b / (Data_ b + lit 1 10000))%double.

Definition pid_normalize (l : list pid_backend) : list pid_backend :=
  let sum := sum_doubles (map pid_share l) in
  map (fun b => Warm (mk_pid (pb_descr b) (pid_share b / sum)%double (BalanceWeight_ b) (Data_ b) (TimeRate_ b))) l.

(** [TBackEnd::Normalize]: first order prediction. *)
Definition pid_predict (answerTime search : double) (b : pid_backend) : pid_backend :=
  let oldTime := middle_m (TimeRate_ b) in
  let tr := middle_add answerTime (TimeRate_ b) in
  let newTime := middle_m tr in
  let p := if dlt oldTime (lit 3 2 * newTime)%double then (of_Z 2 * newTime - oldTime)%double else newTime in
  mk_pid (pb_descr b) (pb_weight b) (BalanceWeight_ b) ((p + of_Z 1) / (search + of_Z 1))%double tr.

Definition pid_request (i : Z) (searchTime answerTime : double) (s : pidgroup) : option pidgroup :=
  let st := middle_add searchTime (pb_search s) in
  let* l := update i (pid_predict answerTime (middle_m st)) (pb_list s) in
  Some (mk_pidgroup (pid_normalize l) st).

(** [acc += Weight_; if (acc >= threshold) return it], a null pointer at the end. *)
Fixpoint choose_reaching (threshold acc : double) (i : Z) (l : list double) : option Z :=
  match l with
  | [] => None
  | x :: l' =>
      let acc := (acc + x)%double in
      if dle threshold acc then Some i else choose_reaching threshold acc (i + 1) l'
  end.

Definition pid_next (s : pidgroup) (w : W) : option (option Z * pidgroup * W) :=
  let '(threshold, w) := random_double w in
  Some (choose_reaching threshold (of_Z 0) 0 (map pb_weight (pb_list s)), s, w).

#[export] Instance pid_backends : IBackEnds W pidgroup := {
  Size s := zlen (pb_list s);
  DoNext _ := pid_next;
  OnCompleteRequest b d s w := let* s := pid_request b (of_Z d) (of_Z d) s in Some (s, w);
  OnFailRequest b d s w := let* s := pid_request b (of_Z d) (FailAnswerTime (of_Z d)) s in Some (s, w)
}.

(** ** Facts *)

(** The back ends of a list, by position. *)
Definition indices {B} (l : list B) : list Z := map Z.of_nat (seq 0 (length l)).

Lemma elem_indices {B} (l : list B) i : i ∈ indices l <-> 0 <= i < zlen l.
Proof.
  unfold indices, zlen. rewrite list_elem_of_In, in_map_iff. split.
  - intros (n & <- & Hn). apply in_seq in Hn. lia.
  - intros Hi. exists (Z.to_nat i). split; [lia|]. apply in_seq. lia.
Qed.

Lemma indices_len {B C} (l : list B) (l' : list C) : zlen l' = zlen l -> indices l' = indices l.
Proof. unfold indices, zlen. intros El. by rewrite (Nat2Z.inj _ _ El). Qed.

Lemma zlen_indices {B} (l : list B) : zlen (indices l) = zlen l.
Proof. unfold indices, zlen. by rewrite length_map, length_seq. Qed.

Lemma zlen_map {A B} (f : A -> B) l : zlen (map f l) = zlen l.
Proof. unfold zlen. by rewrite length_map. Qed.

Lemma update_ok {B} i (f : B -> B) l : 0 <= i < zlen l -> exists l', update i f l = Some l' /\ zlen l' = zlen l.
Proof.
  intros Hi. unfold update. destruct (zget_is_Some l i Hi) as [x ->]. destruct (zset_is_Some l i (f x) Hi) as [l' El].
  exists l'. split; [done|]. by rewrite (zlen_zset _ _ _ _ El).
Qed.

(** The running sums. *)
Definition prefix (l : list double) (cur : double) (k : nat) : double := fold_left dadd (take k l) cur.

Lemma choose_above_spec rnd l : forall cur i,
  match choose_above rnd cur i l with
  | Some j => i <= j < i + zlen l /\ dlt rnd (prefix l cur (Z.to_nat (j - i + 1))) = true /\
              forall k, (0 < k <= Z.to_nat (j - i))%nat -> dlt rnd (prefix l cur k) = false
  | None => forall k, (0 < k <= length l)%nat -> dlt rnd (prefix l cur k) = false
  end.
Proof.
  induction l as [|x l IH]; intros cur i; cbn [choose_above]; [cbn; lia|].
  destruct (dlt rnd (cur + x)%double) eqn:El.
  - rewrite zlen_cons. pose proof (zlen_nonneg l). replace (i - i + 1) with 1 by lia. rewrite Z.sub_diag. cbn.
    split; [lia|]. split; [done|]. lia.
  - specialize (IH (cur + x)%double (i + 1)). destruct (choose_above _ _ _ l) as [j|].
    + destruct IH as (Hj & Ht & Hf). rewrite zlen_cons. split; [lia|].
      replace (Z.to_nat (j - i + 1)) with (S (Z.to_nat (j - (i + 1) + 1))) by lia. split; [done|].
      intros [|[|k]] Hk; [lia|done|]. apply (Hf (S k)). lia.
    + intros [|[|k]] Hk; [lia|done|]. apply (IH (S k)). cbn in Hk. lia.
Qed.

Lemma greatest_range l : forall i max r, greatest l i max r = r \/ i <= greatest l i max r < i + zlen l.
Proof.
  induction l as [|x l IH]; intros i max r; cbn [greatest]; [by left|]. rewrite zlen_cons. pose proof (zlen_nonneg l).
  destruct (dlt max x).
  - destruct (IH (i + 1) x i) as [->|?]; lia.
  - destruct (IH (i + 1) max r) as [->|?]; [by left|lia].
Qed.

(** The choice is the first of the greatest values, or the default when no value is
    above the initial maximum. *)
Lemma greatest_max l : forall i max r,
  is_nan max = false -> Forall (fun x => is_nan x = false) l ->
  let j := greatest l i max r in
  (j = r /\ Forall (fun x => dlt max x = false) l) \/
  (exists v, zget l (j - i) = Some v /\ dlt max v = true /\ Forall (fun x => dlt v x = false) l).
Proof.
  induction l as [|x l IH]; intros i max r Hm Hl; cbn [greatest]; [by left|]. apply Forall_cons in Hl as [Hx Hl].
  assert (Hget : forall j v, zget l (j - (i + 1)) = Some v -> zget (x :: l) (j - i) = Some v).
  { intros j v Ej. pose proof (zget_Some_bound _ _ _ Ej). rewrite zget_cons_pos by lia. by replace (j - i - 1) with (j - (i + 1)) by lia. }
  destruct (dlt max x) eqn:Ex.
  - right. destruct (IH (i + 1) x i Hx Hl) as [[-> Hf]|(v & Ev & Hv & Hf)].
    + exists x. rewrite Z.sub_diag, zget_cons_0. split; [done|]. split; [done|]. apply Forall_cons. split; [|done].
      apply not_true_is_false. rewrite dlt_spec by done. apply key_lt_irrefl.
    + exists v. assert (Hvn : is_nan v = false).
      { unfold zget in Ev. destruct (_ <=? _); [|done]. rewrite Forall_lookup in Hl. by eapply Hl. }
      split; [by apply Hget|]. rewrite dlt_spec in Ex, Hv by done.
      split; [rewrite dlt_spec by done; by eapply key_lt_trans|]. apply Forall_cons. split; [|done].
      apply not_true_is_false. rewrite dlt_spec by done. intros Hc. eapply key_lt_irrefl, key_lt_trans; done.
  - destruct (IH (i + 1) max r Hm Hl) as [[-> Hf]|(v & Ev & Hv & Hf)].
    + left. split; [done|]. by apply Forall_cons.
    + right. exists v. split; [by apply Hget|]. split; [done|]. apply Forall_cons. split; [|done].
      assert (Hvn : is_nan v = false).
      { unfold zget in Ev. destruct (_ <=? _); [|done]. rewrite Forall_lookup in Hl. by eapply Hl. }
      apply not_true_is_false. intros Hc. rewrite dlt_spec in Hc, Hv by done.
      assert (dlt max x = true) by (rewrite dlt_spec by done; by eapply key_lt_trans). congruence.
Qed.

(** *** Hashing *)

#[export] Instance hash_spec : BackEndsSpec W (list hash_backend).
Proof.
  refine {| policy_inv s := 0 < zlen s; backends s := indices s |}.
  - intros s _. by rewrite zlen_indices.
  - intros a s w Hs. cbn [DoNext hash_backends]. unfold hash_next. destruct (if _ =? 0 then _ else _) as [h w'].
    rewrite (proj2 (Z.eqb_neq _ _)) by lia. pose proof (Z.mod_pos_bound h (zlen s) Hs) as Hb.
    destruct (zget_is_Some s (h mod zlen s) Hb) as [x ->]. eexists _, _, _. split; [done|]. by rewrite elem_indices.
  - intros b d s w Hs Hb. apply elem_indices in Hb. cbn. destruct (update_ok b hash_complete s Hb) as (s' & -> & El).
    eexists _, _. split; [done|]. rewrite El. split; [done|]. by apply indices_len.
  - intros b d s w Hs Hb. apply elem_indices in Hb. cbn. destruct (update_ok b hash_failed s Hb) as (s' & -> & El).
    eexists _, _. split; [done|]. rewrite El. split; [done|]. by apply indices_len.
Defined.

(** *** Weighted *)

Lemma Choose_ok l : 0 < zlen l -> exists i l', Choose l = Some (i, l') /\ 0 <= i < zlen l /\ zlen l' = zlen l.
Proof.
  intros Hl. unfold Choose. destruct (zget_is_Some l 0) as [x ->]; [lia|]. set (l1 := map _ l). set (i := greatest _ _ _ _).
  assert (Hi : 0 <= i < zlen l).
  { subst i. destruct (greatest_range (map Emergency_ l1) 0 (Emergency_ x) 0) as [->|Hr]; [lia|].
    subst l1. rewrite !zlen_map in Hr. lia. }
  destruct (update_ok i (AddEmergency (of_Z (-1))) l1) as (l' & -> & El); [subst l1; by rewrite zlen_map|].
  exists i, l'. split; [done|]. split; [done|]. rewrite El. subst l1. by rewrite zlen_map.
Qed.

Lemma weighted_loop_ok n : forall l w, 0 < zlen l ->
  exists r l' w', weighted_loop n l w = Some (r, l', w') /\ zlen l' = zlen l /\
    match r with Some i => 0 <= i < zlen l | None => True end.
Proof.
  induction n as [|n IH]; intros l w Hl; cbn [weighted_loop]; [by exists None, l, w|].
  destruct (Choose_ok l Hl) as (i & l1 & -> & Hi & El). destruct (zget_is_Some l1 i) as [b ->]; [lia|].
  destruct (random_double w) as [r w1]. destruct (dlt r _).
  - destruct (IH l1 w1 ltac:(lia)) as (r' & l' & w' & -> & El' & Hr). exists r', l', w'. split; [done|].
    rewrite El' , El. split; [done|]. destruct r'; [lia|done].
  - by exists (Some i), l1, w1.
Qed.

#[export] Instance weighted_spec : BackEndsSpec W weighted.
Proof.
  refine {| policy_inv s := 0 < zlen (wb_list s); backends s := indices (wb_list s) |}.
  - intros s _. by rewrite zlen_indices.
  - intros a s w Hs. cbn [DoNext weighted_backends]. unfold weighted_next. destruct (zget_is_Some (wb_list s) 0) as [x ->]; [lia|].
    destruct (weighted_loop_ok (Z.to_nat (zlen (wb_list s) - 1)) (wb_list s) w Hs) as (r & l & w' & -> & El & Hr).
    eexists _, _, _. split; [done|]. cbn. rewrite El, elem_indices. split; [destruct r; lia|]. split; [done|]. by apply indices_len.
  - intros b d s w Hs Hb. apply elem_indices in Hb. cbn. unfold weighted_complete.
    destruct (zget_is_Some (wb_list s) b Hb) as [x ->]. set (y := mk_wb _ _ _ _ _ _).
    destruct (zset_is_Some (wb_list s) b y Hb) as [l1 E1]. rewrite E1. pose proof (zlen_zset _ _ _ _ E1) as El1.
    unfold weighted_normalize. match goal with |- context [update b ?f ?l] => destruct (update_ok b f l) as (l2 & -> & El2) end.
    { by rewrite zlen_map, El1. }
    eexists _, _. split; [done|]. cbn. rewrite zlen_map, El1 in El2. rewrite El2. split; [done|]. by apply indices_len.
  - intros b d s w Hs Hb. apply elem_indices in Hb. cbn. unfold weighted_failed.
    match goal with |- context [update b ?f ?l] => destruct (update_ok b f l Hb) as (l2 & -> & El2) end.
    eexists _, _. split; [done|]. cbn. rewrite El2. split; [done|]. by apply indices_len.
Defined.
End policies.
