(* ===== verification/BWeighted2.v ===== *)
(** * Balancer: the policy [weighted2]

    Models [src/web/httpd/modules/balancer/weighted2.cpp]: weights that follow the
    quality of the answers, with a bounded rate of change, and a choice by the largest
    accumulated weight.  Every call of [Now()] reads the clock of the world. *)

From Stdlib Require Import ZArith Lia Bool String SpecFloat.
From stdpp Require Import base numbers list strings.
From S2P Require Import Prelude Double Random BConfig BTrackers BPolicy BWeighted.

(** ** Estimators *)

Inductive IEstimator := TAnswerTimeQuality | TSlowAnswerTimeQuality.

Definition estimate_complete (e : IEstimator) (answerTime : Z) : double :=
  match e with
  | TAnswerTimeQuality =>
      if 1000000 <? answerTime then of_Z 0
      else (of_Z 1 / (of_Z 1 + of_Z answerTime / of_Z 1000000))%double
  | TSlowAnswerTimeQuality => if 800000 <? answerTime then of_Z 0 else of_Z 1
  end.

Definition estimate_fail (e : IEstimator) (answerTime : Z) : double := of_Z 0.

(** ** Parameters *)

Record TCorrectionParams := mk_correction {
  MinWeight_ : double; MaxWeight_ : double; PlusDiffWeightPerSec_ : double; MinusDiffWeightPerSec_ : double;
  HistoryTime_ : Z; FeedbackTime_ : Z
}.

Definition default_correction : TCorrectionParams :=
  mk_correction (lit 5 100) (of_Z 5) (lit 5 100) (lit 1 10) 20000000 (1000000 * 100).

(** [TDuration::Seconds()]. *)
Definition seconds (d : Z) : Z := d / 1000 / 1000.

Section weighted2.
Context {IModule : Type} {E : Env IModule} {W : Type} {HW : World W}.
Local Notation descr := (TBackEndDescriptor IModule).

Definition correction_consume (key : string) (v : value) (p : TCorrectionParams) : res TCorrectionParams :=
  if String.eqb key "min_weight" then
    let! x := value_double v in
    Ret (mk_correction x (MaxWeight_ p) (PlusDiffWeightPerSec_ p) (MinusDiffWeightPerSec_ p) (HistoryTime_ p) (FeedbackTime_ p))
  else if String.eqb key "max_weight" then
    let! x := value_double v in
    Ret (mk_correction (MinWeight_ p) x (PlusDiffWeightPerSec_ p) (MinusDiffWeightPerSec_ p) (HistoryTime_ p) (FeedbackTime_ p))
  else if String.eqb key "plus_diff_per_sec" then
    let! x := value_double v in
    Ret (mk_correction (MinWeight_ p) (MaxWeight_ p) x (MinusDiffWeightPerSec_ p) (HistoryTime_ p) (FeedbackTime_ p))
  else if String.eqb key "minus_diff_per_sec" then
    let! x := value_double v in
    Ret (mk_correction (MinWeight_ p) (MaxWeight_ p) (PlusDiffWeightPerSec_ p) x (HistoryTime_ p) (FeedbackTime_ p))
  else if String.eqb key "history_time" then
    let! x := value_duration v in
    Ret (mk_correction (MinWeight_ p) (MaxWeight_ p) (PlusDiffWeightPerSec_ p) (MinusDiffWeightPerSec_ p) x (FeedbackTime_ p))
  else if String.eqb key "feedback_time" then
    let! x := value_duration v in
    Ret (mk_correction (MinWeight_ p) (MaxWeight_ p) (PlusDiffWeightPerSec_ p) (MinusDiffWeightPerSec_ p) (HistoryTime_ p) x)
  else unsupported.

(** ** Data *)

Record w2_backend := mk_w2 {
  w2_descr : descr; w2_weight : double; w2_emergency : double; QualityData_ : limited;
  LastCheckedWeight_ : double; LastCheckedTime_ : Z; w2_fail : Z; w2_succ : Z
}.

Record weighted2 := mk_weighted2 { w2_list : list w2_backend; CorrectionParams_ : TCorrectionParams; Estimator_ : IEstimator }.

Definition set_w2 (b : w2_backend) (x : double) : w2_backend :=
  mk_w2 (w2_descr b) x (w2_emergency b) (QualityData_ b) (LastCheckedWeight_ b) (LastCheckedTime_ b) (w2_fail b) (w2_succ b).

Definition set_quality (b : w2_backend) (q : limited) : w2_backend :=
  mk_w2 (w2_descr b) (w2_weight b) (w2_emergency b) q (LastCheckedWeight_ b) (LastCheckedTime_ b) (w2_fail b) (w2_succ b).

Definition add_emergency (x : double) (b : w2_backend) : w2_backend :=
  mk_w2 (w2_descr b) (w2_weight b) (w2_emergency b + x)%double (QualityData_ b) (LastCheckedWeight_ b) (LastCheckedTime_ b)
    (w2_fail b) (w2_succ b).

(** ** Construction *)

(** What the constructor of a back end leaves unset: the arrays and the sum of the
    tracker, and the two counters. *)
Record garbage := mk_garbage { g_v : list double; g_t : list Z; g_sum : double; g_fail : Z; g_succ : Z }.

Definition w2_make (g : garbage) (history now : Z) (d : descr) : w2_backend :=
  mk_w2 d (of_Z 1) (of_Z 0) (limited_make (g_v g) (g_t g) (g_sum g) history) (of_Z 1) now (g_fail g) (g_succ g).

(** The tracker of a back end takes the history time known when the back end is
    added; the estimator is the default one until a key sets it. *)
Definition w2_consume (g : garbage) (key : string) (v : value) (s : weighted2 * W) : res (weighted2 * W) :=
  let '(s, w) := s in
  if String.eqb key "correction_params" then
    let! c := AsSubConfig v in
    let! p := ForEach correction_consume c (CorrectionParams_ s) in
    Ret (mk_weighted2 (w2_list s) p (Estimator_ s), w)
  else if String.eqb key "quality" then
    let! q := AsString v in
    if String.eqb q "answer_time" then Ret (mk_weighted2 (w2_list s) (CorrectionParams_ s) TAnswerTimeQuality, w)
    else if String.eqb q "slow_answer_time" then Ret (mk_weighted2 (w2_list s) (CorrectionParams_ s) TSlowAnswerTimeQuality, w)
    else Throw TConfigParseError
  else
    let! c := AsSubConfig v in
    let! d := descriptor c in
    let '(now, w) := read_clock w in
    Ret (mk_weighted2 (w2_list s ++ [w2_make g (HistoryTime_ (CorrectionParams_ s)) now d]) (CorrectionParams_ s) (Estimator_ s), w).

Definition CreateWeighted2 (g : garbage) (c : config) (w : W) : res (weighted2 * W) :=
  ForEach (w2_consume g) c (mk_weighted2 [] default_correction TAnswerTimeQuality, w).

(** ** Quality *)

(** [GetAvgQuality] reads, and so trims, every tracker. *)
Fixpoint sum_quality (l : list w2_backend) (sum : double) (total : Z) (w : W) : option (double * Z * list w2_backend * W) :=
  match l with
  | [] => Some (sum, total, [], w)
  | b :: l' =>
      let '(now, w) := read_clock w in
      let* (s, n, q) := limited_get 1000 now (QualityData_ b) in
      let* (sum, total, l', w) := sum_quality l' (sum + s)%double (u64 (total + n)) w in
      Some (sum, total, set_quality b q :: l', w)
  end.

Definition GetAvgQuality (l : list w2_backend) (w : W) : option (double * list w2_backend * W) :=
  let* (sum, total, l, w) := sum_quality l (of_Z 0) 0 w in
  Some (if total =? 0 then of_Z 1 else (Max (Min (of_Z total) sum) (of_Z 0) / of_Z total)%double, l, w).

(** ** Correction *)

(** The new weight before the restrictions. *)
Definition raw_weight (p : TCorrectionParams) (first : double) (second : Z) (avgQuality curWeight : double) : double :=
  let qps := Max (lit 1 10) (of_Z second / of_Z (seconds (HistoryTime_ p)))%double in
  let ratio := (first / of_Z second / Max avgQuality (lit 1 100000))%double in
  let diff := if dlt (of_Z 1) ratio then PlusDiffWeightPerSec_ p else MinusDiffWeightPerSec_ p in
  let newWeight := (curWeight * ((ratio - of_Z 1) * diff / qps + of_Z 1))%double in
  ((of_Z 1 - newWeight) / of_Z (seconds (FeedbackTime_ p)) / qps + newWeight)%double.

Definition upper (p : TCorrectionParams) (last : double) : double :=
  Min (last * (of_Z 1 + PlusDiffWeightPerSec_ p))%double (MaxWeight_ p).

Definition lower (p : TCorrectionParams) (last : double) : double :=
  Max (last * (of_Z 1 - MinusDiffWeightPerSec_ p))%double (MinWeight_ p).

Definition restrict (p : TCorrectionParams) (last newWeight : double) : double :=
  Max (Min newWeight (upper p last)) (lower p last).

Definition Correct (p : TCorrectionParams) (avgQuality curWeight : double) (b : w2_backend) (w : W)
  : option (double * w2_backend * W) :=
  let '(now, w) := read_clock w in
  let* (first, second, q) := limited_get 1000 now (QualityData_ b) in
  let newWeight := restrict p (LastCheckedWeight_ b) (raw_weight p first second avgQuality curWeight) in
  let '(now, w) := read_clock w in
  if 1000000 <? u64 (now - LastCheckedTime_ b) then
    let '(now, w) := read_clock w in
    Some (newWeight, mk_w2 (w2_descr b) (w2_weight b) (w2_emergency b) q newWeight now (w2_fail b) (w2_succ b), w)
  else Some (newWeight, set_quality b q, w).

(** [TBackEnd::Normalize(c)]. *)
Definition clamp (p : TCorrectionParams) (c : double) (b : w2_backend) : w2_backend :=
  let x := (w2_weight b * c)%double in
  let x := Max (MinWeight_ p * Weight_ (w2_descr b))%double x in
  set_w2 b (Min (MaxWeight_ p * Weight_ (w2_descr b))%double x).

Definition w2_normalize (p : TCorrectionParams) (l : list w2_backend) : list w2_backend :=
  let sum := sum_doubles (map w2_weight l) in
  let startSum := sum_doubles (map (fun b => Weight_ (w2_descr b)) l) in
  map (clamp p (startSum / sum)%double) l.

(** ** Operations *)

(** Both handlers: [scale] is the factor that [OnCompleteRequest] takes out of the
    weight before the correction and puts back after it. *)
Definition w2_request (i : Z) (quality : double) (ok : bool) (s : weighted2) (w : W) : option (weighted2 * W) :=
  let '(now, w) := read_clock w in
  let* b := zget (w2_list s) i in
  let* q := limited_add 1000 now quality (QualityData_ b) in
  let* l := zset (w2_list s) i (set_quality b q) in
  let* (avg, l, w) := GetAvgQuality l w in
  let* b := zget l i in
  let scale := Weight_ (w2_descr b) in
  let cur := if ok then (w2_weight b / scale)%double else w2_weight b in
  let* (x, b, w) := Correct (CorrectionParams_ s) avg cur b w in
  let x := if ok then (x * scale)%double else x in
  let* l := zset l i (set_w2 b x) in
  let l := w2_normalize (CorrectionParams_ s) l in
  let* l := update i (fun b => mk_w2 (w2_descr b) (w2_weight b) (w2_emergency b) (QualityData_ b) (LastCheckedWeight_ b)
                                (LastCheckedTime_ b) (if ok then w2_fail b else u64 (w2_fail b + 1))
                                (if ok then u64 (w2_succ b + 1) else w2_succ b)) l in
  Some (mk_weighted2 l (CorrectionParams_ s) (Estimator_ s), w).

Definition w2_complete (i answerTime : Z) (s : weighted2) (w : W) : option (weighted2 * W) :=
  w2_request i (estimate_complete (Estimator_ s) answerTime) true s w.

Definition w2_failed (i answerTime : Z) (s : weighted2) (w : W) : option (weighted2 * W) :=
  w2_request i (estimate_fail (Estimator_ s) answerTime) false s w.

Definition w2_next (s : weighted2) (w : W) : option (option Z * weighted2 * W) :=
  let* first := zget (w2_list s) 0 in
  let max := w2_emergency first in
  let total := sum_doubles (map w2_weight (w2_list s)) in
  let l := map (fun b => add_emergency (w2_weight b) b) (w2_list s) in
  let retval := greatest (map w2_emergency l) 0 max 0 in
  let* l := update retval (add_emergency (SFopp total)) l in
  Some (Some retval, mk_weighted2 l (CorrectionParams_ s) (Estimator_ s), w).

#[export] Instance weighted2_backends : IBackEnds W weighted2 := {
  Size s := zlen (w2_list s);
  DoNext _ := w2_next;
  OnCompleteRequest := w2_complete;
  OnFailRequest := w2_failed
}.

(** ** Facts *)

(** The trackers are ring buffers. *)
Definition quality_ok (b : w2_backend) : Prop := exists q, ring 1000 (QualityData_ b) q.

Definition w2_inv (s : weighted2) : Prop := 0 < zlen (w2_list s) /\ Forall quality_ok (w2_list s).

Lemma get_ok t q now : ring 1000 t q ->
  exists t', limited_get 1000 now t = Some (Sum_ t', Total_ t', t') /\
    ring 1000 t' (fst (drop_expired now (Ttl_ t) q (Sum_ t))).
Proof.
  intros Hr. unfold limited_get, limited_check.
  destruct (check_loop_ok 1000 q (S (Z.to_nat (Total_ t))) now t Hr) as (t' & -> & Hr' & _).
  { rewrite (rg_total _ _ _ Hr). unfold zlen. lia. }
  by exists t'.
Qed.

Lemma zget_Forall {A} (P : A -> Prop) l i x : Forall P l -> zget l i = Some x -> P x.
Proof. unfold zget. destruct (0 <=? i); [|done]. rewrite Forall_lookup. intros H Ex. by eapply H. Qed.

Lemma zset_Forall {A} (P : A -> Prop) l i x l' : Forall P l -> P x -> zset l i x = Some l' -> Forall P l'.
Proof. intros Hl Hx El. apply zset_inv in El as [_ ->]. by apply Forall_insert. Qed.

Lemma sum_quality_ok l : forall sum total w, Forall quality_ok l ->
  exists sum' total' l' w', sum_quality l sum total w = Some (sum', total', l', w') /\ zlen l' = zlen l /\ Forall quality_ok l'.
Proof.
  induction l as [|b l IH]; intros sum total w Hl; cbn [sum_quality]; [by eexists _, _, _, _|].
  apply Forall_cons in Hl as [[q Hq] Hl]. destruct (read_clock w) as [now w1].
  destruct (get_ok _ q now Hq) as (t & -> & Ht).
  destruct (IH (sum + Sum_ t)%double (u64 (total + Total_ t)) w1 Hl) as (s' & n' & l' & w' & -> & El & Hl').
  eexists _, _, _, _. split; [done|]. rewrite !zlen_cons, El. split; [done|]. apply Forall_cons. split; [by eexists|done].
Qed.

Lemma Correct_ok p avg cur b w : quality_ok b ->
  exists x b' w', Correct p avg cur b w = Some (x, b', w') /\ quality_ok b' /\
    exists first second, x = restrict p (LastCheckedWeight_ b) (raw_weight p first second avg cur).
Proof.
  intros [q Hq]. unfold Correct. destruct (read_clock w) as [now w1]. destruct (get_ok _ q now Hq) as (t & -> & Ht).
  destruct (read_clock w1) as [now2 w2]. destruct (_ <? _).
  - destruct (read_clock w2) as [now3 w3]. eexists _, _, _. split; [done|]. split; [by eexists|by eexists _, _].
  - eexists _, _, _. split; [done|]. split; [by eexists|by eexists _, _].
Qed.

Lemma w2_request_ok i x ok s w : w2_inv s -> 0 <= i < zlen (w2_list s) ->
  exists s' w', w2_request i x ok s w = Some (s', w') /\ w2_inv s' /\ zlen (w2_list s') = zlen (w2_list s).
Proof.
  intros [Hs Hq] Hi. unfold w2_request. destruct (read_clock w) as [now w1]. destruct (zget_is_Some _ _ Hi) as [b Eb]. rewrite Eb.
  pose proof (zget_Forall _ _ _ _ Hq Eb) as [q Hring]. destruct (limited_add_ok 1000 _ q now x ltac:(lia) Hring) as (t & -> & Ht & _).
  destruct (zset_is_Some (w2_list s) i (set_quality b t) Hi) as [l1 E1]. rewrite E1. pose proof (zlen_zset _ _ _ _ E1) as L1.
  apply (zset_Forall quality_ok) in E1; [|done|by eexists]. unfold GetAvgQuality.
  destruct (sum_quality_ok l1 (of_Z 0) 0 w1 E1) as (sum & total & l2 & w2 & -> & L2 & Q2).
  destruct (zget_is_Some l2 i) as [b2 Eb2]; [lia|]. rewrite Eb2. pose proof (zget_Forall _ _ _ _ Q2 Eb2) as Hb2.
  match goal with |- context [Correct ?p ?a ?c b2 w2] => destruct (Correct_ok p a c b2 w2 Hb2) as (y & b3 & w3 & -> & Hb3 & _) end.
  match goal with |- context [zset l2 i ?y] => destruct (zset_is_Some l2 i y) as [l3 E3]; [lia|rewrite E3] end.
  pose proof (zlen_zset _ _ _ _ E3) as L3. apply (zset_Forall quality_ok) in E3; [|done|destruct Hb3 as [q3 ?]; by exists q3].
  unfold w2_normalize. match goal with |- context [update i ?f ?l] => set (l4 := l); set (g := f) end.
  assert (Q4 : Forall quality_ok l4) by (subst l4; apply Forall_map; eapply Forall_impl; [exact E3|]; intros z [qz Hz]; by exists qz).
  assert (L4 : zlen l4 = zlen (w2_list s)) by (subst l4; rewrite zlen_map; lia).
  destruct (zget_is_Some l4 i) as [b5 Eb5]; [lia|]. unfold update. rewrite Eb5.
  destruct (zset_is_Some l4 i (g b5)) as [l6 E6]; [lia|]. rewrite E6. pose proof (zlen_zset _ _ _ _ E6) as L6.
  apply (zset_Forall quality_ok) in E6; [|done|]. 2:{ destruct (zget_Forall _ _ _ _ Q4 Eb5) as [q5 H5]. by exists q5. }
  eexists _, _. split; [done|]. cbn. rewrite L6, L4. split; [|done]. split; cbn; [lia|done].
Qed.

Lemma w2_next_ok s w : w2_inv s ->
  exists i s', w2_next s w = Some (Some i, s', w) /\ 0 <= i < zlen (w2_list s) /\ w2_inv s' /\ zlen (w2_list s') = zlen (w2_list s).
Proof.
  intros [Hs Hq]. unfold w2_next. destruct (zget_is_Some (w2_list s) 0) as [x ->]; [lia|]. set (l1 := map _ (w2_list s)).
  set (i := greatest _ _ _ _). set (t := SFopp _).
  assert (L1 : zlen l1 = zlen (w2_list s)) by (subst l1; by rewrite zlen_map).
  assert (Hi : 0 <= i < zlen (w2_list s)).
  { subst i. destruct (greatest_range (map w2_emergency l1) 0 (w2_emergency x) 0) as [->|Hr]; [lia|]. rewrite zlen_map in Hr. lia. }
  assert (Q1 : Forall quality_ok l1) by (subst l1; apply Forall_map; eapply Forall_impl; [exact Hq|]; intros z [qz Hz]; by exists qz).
  unfold update. destruct (zget_is_Some l1 i) as [b Eb]; [lia|]. rewrite Eb.
  destruct (zset_is_Some l1 i (add_emergency t b)) as [l2 E2]; [lia|]. rewrite E2. pose proof (zlen_zset _ _ _ _ E2) as L2.
  apply (zset_Forall quality_ok) in E2; [|done|]. 2:{ destruct (zget_Forall _ _ _ _ Q1 Eb) as [q5 H5]. by exists q5. }
  eexists _, _. split; [done|]. split; [done|]. split; [split; cbn; [lia|done]|cbn; lia].
Qed.

#[export] Instance weighted2_spec : BackEndsSpec W weighted2.
Proof.
  refine {| policy_inv s := w2_inv s; backends s := indices (w2_list s) |}.
  - intros s _. by rewrite zlen_indices.
  - intros a s w Hs. destruct (w2_next_ok s w Hs) as (i & s' & Es & Hi & Hs' & El). exists i, s', w. cbn.
    rewrite Es, elem_indices. split; [done|]. split; [done|]. split; [done|]. by apply indices_len.
  - intros b d s w Hs Hb. apply elem_indices in Hb.
    destruct (w2_request_ok b (estimate_complete (Estimator_ s) d) true s w Hs Hb) as (s' & w' & Es & Hs' & El).
    exists s', w'. split; [done|]. split; [done|]. by apply indices_len.
  - intros b d s w Hs Hb. apply elem_indices in Hb.
    destruct (w2_request_ok b (estimate_fail (Estimator_ s) d) false s w Hs Hb) as (s' & w' & Es & Hs' & El).
    exists s', w'. split; [done|]. split; [done|]. by apply indices_len.
Defined.
End weighted2.
