(* ===== verification/BModule.v ===== *)
(** * Balancer: attempts

    Models [TConnIterator] of [src/web/httpd/modules/balancer/iterator.h],
    [ConstructBackEnds] of [iterator.cpp], the module of [module.cpp] and the streams
    it wraps around a connection, [src/web/httpd/kernel/rewind.h] and
    [src/web/httpd/kernel/countio.h].  The modules behind the back ends are a
    parameter: what one run of a module does to the input, the output and the world. *)

From Stdlib Require Import ZArith Lia Bool String.
From stdpp Require Import base numbers list gmap strings.
From S2P Require Import Prelude AvlTree Double Random BConfig BTrackers BArbiter BPolicy BRobin BWeighted BWeighted2.

(** ** Streams *)

(** A chunk is its bytes; a chunk list is what one [Recv] delivers. *)
Definition chunk := list Z.

Class IIoInput (I : Type) := Recv : I -> list chunk * I.

Record TRewindAbleInput (I : Type) := mk_rewind { Old_ : list chunk; Tmp_ : list chunk; Slave_ : I }.
Arguments mk_rewind {I} _ _ _.
Arguments Old_ {I} _.
Arguments Tmp_ {I} _.
Arguments Slave_ {I} _.

Section rewind.
Context {I : Type} {HI : IIoInput I}.

Definition rewindable (slave : I) : TRewindAbleInput I := mk_rewind [] [] slave.

(** [MoveTo(&Tmp_, &Old_)] *)
Definition Rewind (t : TRewindAbleInput I) : TRewindAbleInput I := mk_rewind (Old_ t ++ Tmp_ t) [] (Slave_ t).

Definition rewind_recv (t : TRewindAbleInput I) : list chunk * TRewindAbleInput I :=
  match Old_ t with
  | [] => let '(tmp, s) := Recv (Slave_ t) in (tmp, mk_rewind [] (Tmp_ t ++ tmp) s)
  | old => (old, mk_rewind [] (Tmp_ t ++ old) (Slave_ t))
  end.

#[export] Instance rewind_input : IIoInput (TRewindAbleInput I) := rewind_recv.

(** [ExtractChunks]. *)
Definition ExtractChunks (t : TRewindAbleInput I) : list chunk * TRewindAbleInput I :=
  let t := Rewind t in (Old_ t, mk_rewind [] [] (Slave_ t)).

(** Everything received from the slave, in order. *)
Definition received (t : TRewindAbleInput I) : list chunk := Tmp_ t ++ Old_ t.

(** Replayed chunks are delivered at once, so the two lists are never both in use. *)
Definition rewind_inv (t : TRewindAbleInput I) : Prop := Old_ t = [] \/ Tmp_ t = [].

Lemma Rewind_ok t : rewind_inv t ->
  rewind_inv (Rewind t) /\ Old_ (Rewind t) = received t /\ received (Rewind t) = received t /\ Slave_ (Rewind t) = Slave_ t.
Proof.
  intros [H|H]; unfold rewind_inv, received; cbn; rewrite H; cbn; rewrite ?app_nil_r; auto.
Qed.

Lemma rewind_recv_ok t : rewind_inv t ->
  let '(got, t') := rewind_recv t in
  rewind_inv t' /\ Tmp_ t' = Tmp_ t ++ got /\
  match Old_ t with
  | [] => let '(tmp, s) := Recv (Slave_ t) in got = tmp /\ received t' = received t ++ tmp /\ Slave_ t' = s
  | old => got = old /\ received t' = received t /\ Slave_ t' = Slave_ t
  end.
Proof.
  intros Hinv. unfold rewind_recv, rewind_inv, received. destruct (Old_ t) as [|c old] eqn:Eo.
  - destruct (Recv (Slave_ t)) as [tmp s]. cbn. rewrite !app_nil_r. auto.
  - cbn. rewrite !app_nil_r. auto.
Qed.
End rewind.

(** ** [TConnIterator] *)

(** The array has 16 elements; a pointer may be null. *)
Definition ATTEMPTS : Z := 16.

Record TConnIterator := mk_iter { Attempts_ : list (option Z); Cur_ : Z; Attempt_ : Z }.

Definition new_iter (garbage : list (option Z)) : TConnIterator := mk_iter garbage 0 0.

Definition tried (it : TConnIterator) : list (option Z) := take (Z.to_nat (Cur_ it)) (Attempts_ it).

Definition AlreadyHave (it : TConnIterator) (b : option Z) : bool := bool_decide (b ∈ tried it).

Section iterator.
Context {W B : Type} {HB : IBackEnds W B}.

(** The [while] loop: the accepted back end and the number of [Attempt_]. *)
Fixpoint next_loop (fuel : nat) (hash : Z) (it : TConnIterator) (s : B) (w : W) : option (option Z * TConnIterator * B * W) :=
  match fuel with
  | O => None
  | S fuel =>
      let* (next, s, w) := DoNext (mk_attempt hash (Attempt_ it)) s w in
      let it := mk_iter (Attempts_ it) (Cur_ it) (u64 (Attempt_ it + 1)) in
      if AlreadyHave it next && (Cur_ it <? Size s) then next_loop fuel hash it s w
      else Some (next, it, s, w)
  end.

Definition iter_next (fuel : nat) (hash : Z) (it : TConnIterator) (s : B) (w : W) : option (option Z * TConnIterator * B * W) :=
  let* (next, it, s, w) := next_loop fuel hash it s w in
  let* a := zset (Attempts_ it) (Cur_ it) next in
  Some (next, mk_iter a (Cur_ it + 1) (Attempt_ it), s, w).

Definition Current (it : TConnIterator) : option (option Z) := zget (Attempts_ it) (Cur_ it - 1).
End iterator.

(** ** The module *)

(** One run of a back end's module: the input it leaves, the bytes it wrote, the
    exception it threw. *)
Record run_result (I W : Type) := mk_run { run_input : TRewindAbleInput I; run_written : Z; run_error : option exn; run_world : W }.
Arguments mk_run {I W} _ _ _ _.
Arguments run_input {I W} _.
Arguments run_written {I W} _.
Arguments run_error {I W} _.
Arguments run_world {I W} _.

Definition EPIPE : Z := 32.

(** The inner handlers let pass the errors that are worth another attempt; an
    exception that none of them names leaves the outer handler too. *)
Definition retryable (e : exn) : bool :=
  match e with
  | THttpError code => code / 100 =? 5
  | TSystemError status => negb (status =? EPIPE)
  | _ => false
  end.

Section module.
Context {I W B : Type} {HI : IIoInput I} {HW : World W} {HB : IBackEnds W B}.
Context (Run : Z -> TRewindAbleInput I -> W -> run_result I W).

Record TModule := mk_module { BackEnds_ : B; Arbiter_ : IReAskArbiter; MaxAttempts_ : Z; Incomplete_ : Z }.

(** What one attempt did, for the statements below. *)
Record attempt_log := mk_log { log_backend : Z; log_error : option exn; log_written : Z }.

(** The loop of [DoRun]; [written] is [clientOutput.Written()]. *)
Fixpoint run_loop (fuel attempts : nat) (hash : Z) (m : TModule) (it : TConnIterator) (input : TRewindAbleInput I)
    (written : Z) (w : W) : option (res unit * list attempt_log * TModule * W) :=
  match attempts with
  | O => Some (Throw (THttpError 503), [], m, w)
  | S attempts =>
      let input := Rewind input in
      let* (conn, it, be, w) := iter_next fuel hash it (BackEnds_ m) w in
      let* conn := conn in
      let '(start, w) := read_clock w in
      let r := Run conn input w in
      let written := u64 (written + run_written r) in
      let log := mk_log conn (run_error r) (run_written r) in
      match run_error r with
      | None =>
          let '(now, w) := read_clock (run_world r) in
          let* (be, w) := OnCompleteRequest conn (u64 (now - start)) be w in
          Some (Ret tt, [log], mk_module be (RegisterSucc (Arbiter_ m)) (MaxAttempts_ m) (Incomplete_ m), w)
      | Some e =>
          if negb (retryable e) then
            Some (Throw e, [log], mk_module be (Arbiter_ m) (MaxAttempts_ m) (Incomplete_ m), run_world r)
          else
            let arb := RegisterFail (Arbiter_ m) in
            let '(now, w) := read_clock (run_world r) in
            let* (be, w) := OnFailRequest conn (u64 (now - start)) be w in
            if negb (written =? 0) then
              Some (Throw e, [log], mk_module be arb (MaxAttempts_ m) (u64 (Incomplete_ m + 1)), w)
            else
              let m := mk_module be arb (MaxAttempts_ m) (Incomplete_ m) in
              if negb (Authorize arb) then Some (Throw e, [log], m, w)
              else
                let* (r', logs, m, w) := run_loop fuel attempts hash m it (run_input r) written w in
                Some (r', log :: logs, m, w)
      end
  end.

Definition DoRun (fuel : nat) (garbage : list (option Z)) (hash : Z) (slave : I) (m : TModule) (w : W)
  : option (res unit * list attempt_log * TModule * W) :=
  run_loop fuel (Z.to_nat (MaxAttempts_ m)) hash m (new_iter garbage) (rewindable slave) 0 w.
End module.
Arguments TModule : clear implicits.
Arguments mk_module {B} _ _ _ _.
Arguments BackEnds_ {B} _.
Arguments Arbiter_ {B} _.
Arguments MaxAttempts_ {B} _.
Arguments Incomplete_ {B} _.

(** ** Any policy *)

Inductive policy (IModule : Type) :=
  | PFair (s : list (fair_backend (IModule := IModule)))
  | PSmart (s : TBackEnds (B := srr_backend (IModule := IModule)))
  | PRobin (s : TBackEnds (B := rr_backend (IModule := IModule)))
  | PWeighted (s : weighted (IModule := IModule))
  | PWeighted2 (s : weighted2 (IModule := IModule))
  | PRobust (s : robust (IModule := IModule))
  | PPid (s : pidgroup (IModule := IModule))
  | PHashing (s : list (hash_backend (IModule := IModule))).
Arguments PFair {IModule} s.
Arguments PSmart {IModule} s.
Arguments PRobin {IModule} s.
Arguments PWeighted {IModule} s.
Arguments PWeighted2 {IModule} s.
Arguments PRobust {IModule} s.
Arguments PPid {IModule} s.
Arguments PHashing {IModule} s.

Section any.
Context {IModule W : Type} {HW : World W}.
Local Notation policy := (policy IModule).

Definition policy_size (p : policy) : Z :=
  match p with
  | PFair s => Size (W := W) s | PSmart s => Size (W := W) s | PRobin s => Size (W := W) s
  | PWeighted s => Size (W := W) s | PWeighted2 s => Size (W := W) s | PRobust s => Size (W := W) s
  | PPid s => Size (W := W) s | PHashing s => Size (W := W) s
  end.

Definition policy_next (a : TAttempt) (p : policy) (w : W) : option (option Z * policy * W) :=
  match p with
  | PFair s => let* (b, s, w) := DoNext a s w in Some (b, PFair s, w)
  | PSmart s => let* (b, s, w) := DoNext a s w in Some (b, PSmart s, w)
  | PRobin s => let* (b, s, w) := DoNext a s w in Some (b, PRobin s, w)
  | PWeighted s => let* (b, s, w) := DoNext a s w in Some (b, PWeighted s, w)
  | PWeighted2 s => let* (b, s, w) := DoNext a s w in Some (b, PWeighted2 s, w)
  | PRobust s => let* (b, s, w) := DoNext a s w in Some (b, PRobust s, w)
  | PPid s => let* (b, s, w) := DoNext a s w in Some (b, PPid s, w)
  | PHashing s => let* (b, s, w) := DoNext a s w in Some (b, PHashing s, w)
  end.

Definition policy_request (ok : bool) (b d : Z) (p : policy) (w : W) : option (policy * W) :=
  let on {S} {HS : IBackEnds W S} (s : S) := if ok then OnCompleteRequest b d s w else OnFailRequest b d s w in
  match p with
  | PFair s => let* (s, w) := on s in Some (PFair s, w)
  | PSmart s => let* (s, w) := on s in Some (PSmart s, w)
  | PRobin s => let* (s, w) := on s in Some (PRobin s, w)
  | PWeighted s => let* (s, w) := on s in Some (PWeighted s, w)
  | PWeighted2 s => let* (s, w) := on s in Some (PWeighted2 s, w)
  | PRobust s => let* (s, w) := on s in Some (PRobust s, w)
  | PPid s => let* (s, w) := on s in Some (PPid s, w)
  | PHashing s => let* (s, w) := on s in Some (PHashing s, w)
  end.

#[export] Instance policy_backends : IBackEnds W policy := {
  Size := policy_size;
  DoNext := policy_next;
  OnCompleteRequest := policy_request true;
  OnFailRequest := policy_request false
}.

(** ** Construction *)

Context {E : Env IModule}.

(** The memory that the constructors take over. *)
Record memory := mk_memory { pool : nat -> Z; mem_cells : list double; mem_state : nat -> Z; mem_counters : Z * Z; mem_w2 : garbage }.

Context (mem : memory).

(** [ConstructBackEnds]: [None] for a name that is no policy. *)
Definition ConstructBackEnds (type : string) (c : config) (w : W) : res (option (option policy) * W) :=
  if String.eqb type "fair" then
    let! s := CreateFair (mem_cells mem) c in Ret (Some (PFair <$> s), w)
  else if String.eqb type "srr" then
    let! s := CreateSmartRoundRobin (pool mem) (mem_state mem) c in Ret (Some (PSmart <$> s), w)
  else if String.eqb type "rr" then
    let! s := CreateRoundRobin (pool mem) c in Ret (Some (PRobin <$> s), w)
  else if String.eqb type "weighted" then
    let! s := CreateWeighted c in Ret (Some (Some (PWeighted s)), w)
  else if String.eqb type "weighted2" then
    let! (s, w) := CreateWeighted2 (mem_w2 mem) c w in Ret (Some (Some (PWeighted2 s)), w)
  else if String.eqb type "robust" then
    let! s := CreateRobust (mem_cells mem) (mem_counters mem) c in Ret (Some (Some (PRobust s)), w)
  else if String.eqb type "pidgroup" then
    let! s := CreatePIDGroup c in Ret (Some (Some (PPid s)), w)
  else if String.eqb type "hashing" || String.eqb type "subnet" then
    let! s := CreateHashing c in Ret (Some (Some (PHashing s)), w)
  else Ret (None, w).

(** The fields of the module while the configuration is read. *)
Record building := mk_building { b_backends : option (option policy); b_arbiter : option IReAskArbiter; b_attempts : Z; b_world : W }.

Definition module_consume (key : string) (v : value) (s : building) : res building :=
  if String.eqb key "attempts" then
    let! n := value_size v in Ret (mk_building (b_backends s) (b_arbiter s) n (b_world s))
  else
    let! c := AsSubConfig v in
    let! (be, w) := ConstructBackEnds key c (b_world s) in
    match be with
    | Some p => Ret (mk_building (Some p) (b_arbiter s) (b_attempts s) w)
    | None =>
        let! a := ConstructArbiter key c in
        match a with
        | Some a => Ret (mk_building (b_backends s) (Some a) (b_attempts s) w)
        | None => unsupported
        end
    end.

Definition make_module (c : config) (w : W) : res (option (TModule policy) * W) :=
  let! s := ForEach module_consume c (mk_building None None 1 w) in
  match b_backends s with
  | None => Throw TConfigParseError
  | Some None => Ret (None, b_world s)
  | Some (Some p) =>
      if policy_size p =? 0 then Throw TConfigParseError
      else
        let a := match b_arbiter s with Some a => a | None => TFakeArbiter end in
        Ret (Some (mk_module p a (b_attempts s) 0), b_world s)
  end.
End any.
