(* ===== verification/BRun.v ===== *)
(** * Balancer: correctness of the attempt loop

    The iterator and [DoRun] of [src/web/httpd/modules/balancer/module.cpp] over any
    policy that keeps its contract: which back ends are tried, which errors are
    retried and what the caller sees.  Under the two round robins, whose costs are
    whole numbers, the loop is shown to terminate. *)

From Stdlib Require Import ZArith Lia Bool String.
From stdpp Require Import base numbers list gmap strings.
From S2P Require Import Prelude AvlTree Double Random BConfig BTrackers BArbiter BPolicy BRobin BWeighted BWeighted2 BModule.

(** ** The iterator *)

Definition iter_ok (it : TConnIterator) : Prop := zlen (Attempts_ it) = ATTEMPTS /\ 0 <= Cur_ it <= ATTEMPTS.

Lemma iter_push it next a :
  iter_ok it -> zset (Attempts_ it) (Cur_ it) next = Some a ->
  iter_ok (mk_iter a (Cur_ it + 1) (Attempt_ it)) /\ tried (mk_iter a (Cur_ it + 1) (Attempt_ it)) = tried it ++ [next].
Proof.
  intros [Hl Hc] Ea. pose proof (zlen_zset _ _ _ _ Ea) as La. apply zset_inv in Ea as [Hb ->]. split.
  - split; cbn; lia.
  - unfold tried. cbn. unfold zlen in *. replace (Z.to_nat (Cur_ it + 1)) with (S (Z.to_nat (Cur_ it))) by lia.
    rewrite (take_S_r _ _ next), take_insert_ge by (try apply list_lookup_insert_eq; lia). done.
Qed.

Lemma tried_len it : iter_ok it -> zlen (tried it) = Cur_ it.
Proof. intros [Hl Hc]. unfold tried, zlen in *. rewrite length_take. lia. Qed.

Section any_policy.
Context {W B : Type} {HB : IBackEnds W B} {HS : BackEndsSpec W B}.

Lemma next_loop_spec fuel : forall hash it s w next it' s' w',
  policy_inv s -> next_loop fuel hash it s w = Some (next, it', s', w') ->
  policy_inv s' /\ backends s' = backends s /\ Attempts_ it' = Attempts_ it /\ Cur_ it' = Cur_ it /\
  (exists b, next = Some b /\ b ∈ backends s) /\ (next ∉ tried it \/ Size s <= Cur_ it).
Proof.
  induction fuel as [|fuel IH]; intros hash it s w next it' s' w' Hs; cbn [next_loop]; [done|].
  destruct (next_ok (mk_attempt hash (Attempt_ it)) s w Hs) as (b & s1 & w1 & -> & Hb & Hs1 & Eb).
  cbn [Attempts_ Cur_ Attempt_]. set (it1 := mk_iter _ _ _).
  assert (Et : tried it1 = tried it) by done.
  destruct (AlreadyHave it1 (Some b) && (Cur_ it <? Size s1)) eqn:E.
  - intros H. destruct (IH _ _ _ _ _ _ _ _ Hs1 H) as (H1 & H2 & H3 & H4 & (b' & H5 & H6) & H7).
    rewrite Eb in H2, H6. rewrite Et in H7. split_and!; try done; [by exists b'|].
    rewrite (size_ok s1 Hs1), Eb, <- (size_ok s Hs) in H7. done.
  - intros [= <- <- <- <-]. split_and!; try done; [by exists b|].
    rewrite (size_ok s Hs), <- Eb, <- (size_ok s1 Hs1). apply andb_false_iff in E as [E|E].
    + left. unfold AlreadyHave in E. by apply bool_decide_eq_false in E.
    + right. b2p. lia.
Qed.

Lemma iter_next_spec fuel hash it s w next it' s' w' :
  policy_inv s -> iter_ok it -> iter_next fuel hash it s w = Some (next, it', s', w') ->
  policy_inv s' /\ backends s' = backends s /\ iter_ok it' /\ tried it' = tried it ++ [next] /\
  (exists b, next = Some b /\ b ∈ backends s) /\ (next ∉ tried it \/ Size s <= zlen (tried it)).
Proof.
  intros Hs Hit. unfold iter_next. destruct (next_loop _ _ _ _ _) as [[[[n it1] s1] w1]|] eqn:E; [|done].
  destruct (next_loop_spec _ _ _ _ _ _ _ _ _ Hs E) as (H1 & H2 & H3 & H4 & H5 & H6).
  destruct (zset _ _ _) as [a|] eqn:Ea; [|done]. intros [= <- <- <- <-].
  assert (Hit1 : iter_ok it1) by (destruct Hit; split; by rewrite ?H3, ?H4).
  destruct (iter_push it1 n a Hit1 Ea) as [H7 H8]. rewrite H4 in H7, H8.
  assert (Et : tried it1 = tried it) by (unfold tried; by rewrite H3, H4).
  rewrite (tried_len it Hit). rewrite H4. rewrite Et in H8. done.
Qed.

(** ** The attempts of a request *)

Context {I : Type} {HI : IIoInput I} {HW : World W}.
Context (Run : Z -> TRewindAbleInput I -> W -> run_result I W).

(** A module writes a number of bytes that fits a [size_t]. *)
Definition run_sane : Prop := forall b i w, 0 <= run_written (Run b i w) < 2 ^ 64.

(** An attempt after which another one is made: it failed with an error that is
    retried, and the client has received nothing. *)
Definition gave_up (l : attempt_log) : Prop :=
  exists e, log_error l = Some e /\ retryable e = true /\ log_written l = 0.

(** What the arbiter is told about an attempt. *)
Definition verdict (l : attempt_log) : list bool :=
  match log_error l with
  | None => [true]
  | Some e => if retryable e then [false] else []
  end.

(** The reasons to stop with the error [e] of the last attempt. *)
Definition stops (e : exn) (last : attempt_log) (m m' : TModule B) : Prop :=
  (retryable e = false /\ Incomplete_ m' = Incomplete_ m) \/
  (retryable e = true /\ log_written last <> 0 /\ Incomplete_ m' = u64 (Incomplete_ m + 1)) \/
  (retryable e = true /\ log_written last = 0 /\ Authorize (Arbiter_ m') = false /\ Incomplete_ m' = Incomplete_ m).

(** What the caller of [DoRun] sees after the attempts [logs] of at most [n]. *)
Definition outcome_ok (n : nat) (r : res unit) (logs : list attempt_log) (m m' : TModule B) : Prop :=
  (length logs <= n)%nat /\
  Arbiter_ m' = registers (flat_map verdict logs) (Arbiter_ m) /\
  ((exists init last, logs = init ++ [last] /\ Forall gave_up init /\
      match log_error last with
      | None => r = Ret tt /\ Incomplete_ m' = Incomplete_ m
      | Some e => r = Throw e /\ stops e last m m'
      end) \/
   (r = Throw (THttpError 503) /\ length logs = n /\ Forall gave_up logs /\ Incomplete_ m' = Incomplete_ m)).

(** While fewer back ends were tried than there are, each attempt goes to another. *)
Definition distinct_from (have : list (option Z)) (size : Z) (logs : list attempt_log) : Prop :=
  forall pre x post, logs = pre ++ x :: post -> zlen have + zlen pre < size ->
    Some (log_backend x) ∉ have ++ map (fun l => Some (log_backend l)) pre.

Lemma distinct_cons have size x logs :
  (Some (log_backend x) ∉ have \/ size <= zlen have) -> distinct_from (have ++ [Some (log_backend x)]) size logs ->
  distinct_from have size (x :: logs).
Proof.
  intros Hx Hl pre y post E Hlt. destruct pre as [|z pre]; cbn in E; injection E as -> ->.
  - rewrite zlen_nil in Hlt. cbn. rewrite app_nil_r. destruct Hx as [|Hx]; [done|lia].
  - specialize (Hl pre y post eq_refl). cbn. rewrite <- app_assoc in Hl. apply Hl.
    rewrite zlen_app. rewrite zlen_cons in Hlt. change (zlen [Some (log_backend z)]) with 1. lia.
Qed.

Lemma distinct_single have size x : (Some (log_backend x) ∉ have \/ size <= zlen have) -> distinct_from have size [x].
Proof. intros Hx. apply distinct_cons; [done|]. intros [|] y post E; done. Qed.

Lemma outcome_single n r lg m m' :
  Arbiter_ m' = registers (verdict lg) (Arbiter_ m) ->
  match log_error lg with
  | None => r = Ret tt /\ Incomplete_ m' = Incomplete_ m
  | Some e => r = Throw e /\ stops e lg m m'
  end -> outcome_ok (S n) r [lg] m m'.
Proof.
  intros Ha Hr. split; [cbn; lia|]. split; [cbn; by rewrite app_nil_r|]. left. exists [], lg. done.
Qed.

(** One more attempt in front, after which the loop went on. *)
Lemma outcome_cons n r lg logs m m1 m' :
  gave_up lg -> Arbiter_ m1 = RegisterFail (Arbiter_ m) -> Incomplete_ m1 = Incomplete_ m ->
  outcome_ok n r logs m1 m' -> outcome_ok (S n) r (lg :: logs) m m'.
Proof.
  intros Hg Ha Hi (H1 & H2 & H3). pose proof Hg as (e & Ee & Er & _). split; [cbn; lia|]. split.
  - rewrite H2, Ha. cbn [flat_map]. unfold verdict at 2. by rewrite Ee, Er.
  - destruct H3 as [(init & last & -> & Hf & Hr)|(-> & Hlen & Hf & Hinc)].
    + left. exists (lg :: init), last. split; [done|]. split; [by apply Forall_cons|].
      destruct (log_error last); [unfold stops in *; by rewrite <- Hi|by rewrite <- Hi].
    + right. split; [done|]. split; [cbn; lia|]. split; [by apply Forall_cons|congruence].
Qed.

Lemma run_loop_spec fuel n : forall hash m it input w r logs m' w',
  run_sane -> policy_inv (BackEnds_ m) -> iter_ok it ->
  run_loop Run fuel n hash m it input 0 w = Some (r, logs, m', w') ->
  policy_inv (BackEnds_ m') /\ backends (BackEnds_ m') = backends (BackEnds_ m) /\ MaxAttempts_ m' = MaxAttempts_ m /\
  outcome_ok n r logs m m' /\ distinct_from (tried it) (Size (BackEnds_ m)) logs /\
  Forall (fun l => log_backend l ∈ backends (BackEnds_ m)) logs.
Proof.
  induction n as [|n IH]; intros hash m it input w r logs m' w' Hrun Hm Hit; cbn [run_loop].
  { intros [= <- <- <- <-]. split_and!; try done; [|by intros [|]]. split; [done|]. split; [done|]. right. done. }
  destruct (iter_next fuel hash it (BackEnds_ m) w) as [[[[next it1] be] w1]|] eqn:En; [|done].
  destruct (iter_next_spec _ _ _ _ _ _ _ _ _ Hm Hit En) as (Hbe & Eb & Hit1 & Et & (b & -> & Hb) & Hd).
  destruct (read_clock w1) as [start w2]. set (rr := Run b (Rewind input) w2).
  pose proof (Hrun b (Rewind input) w2) as Hwr. fold rr in Hwr. rewrite Z.add_0_l, u64_small by done.
  set (lg := mk_log b (run_error rr) (run_written rr)).
  assert (Hdone : distinct_from (tried it) (Size (BackEnds_ m)) [lg] /\ Forall (fun l => log_backend l ∈ backends (BackEnds_ m)) [lg]).
  { split; [by apply distinct_single|]. by apply Forall_singleton. }
  assert (Elg : log_error lg = run_error rr) by done. assert (Blg : log_backend lg = b) by done. assert (Wlg : log_written lg = run_written rr) by done. clearbody lg.
  destruct (run_error rr) as [e|] eqn:Ee.
  - destruct (negb (retryable e)) eqn:Er; [apply negb_true_iff in Er|apply negb_false_iff in Er].
    { intros [= <- <- <- <-]. cbn. split_and!; try done; try tauto. apply outcome_single; rewrite ?Elg.
      - unfold verdict. by rewrite Elg, Er.
      - split; [done|]. by left. }
    destruct (read_clock (run_world rr)) as [now w3].
    destruct (fail_ok b (u64 (now - start)) be w3 Hbe) as (be' & w4 & -> & Hbe' & Eb'); [by rewrite Eb|].
    assert (Hv : verdict lg = [false]) by (unfold verdict; by rewrite Elg, Er).
    destruct (negb (run_written rr =? 0)) eqn:Ew; [apply negb_true_iff in Ew|apply negb_false_iff in Ew]; b2p.
    { intros [= <- <- <- <-]. cbn. rewrite Eb', Eb. split_and!; try done; try tauto. apply outcome_single; rewrite ?Elg, ?Hv; [done|].
      split; [done|]. right. left. by rewrite Wlg. }
    destruct (negb (Authorize _)) eqn:Eau; [apply negb_true_iff in Eau|].
    { intros [= <- <- <- <-]. cbn. rewrite Eb', Eb. split_and!; try done; try tauto. apply outcome_single; rewrite ?Elg, ?Hv; [done|].
      split; [done|]. right. right. by rewrite Wlg. }
    rewrite Ew. match goal with |- context [run_loop Run fuel n hash ?x it1 ?i 0 w4] => set (m1 := x) end.
    destruct (run_loop _ _ _ _ _ _ _ _ _) as [[[[r' logs'] m2] w5]|] eqn:El; [|done]. intros [= <- <- <- <-].
    destruct (IH hash m1 it1 _ _ _ _ _ _ Hrun Hbe' Hit1 El) as (H1 & H2 & H3 & H4 & H5 & H6).
    cbn [m1 BackEnds_ MaxAttempts_] in H2, H3, H5, H6. rewrite Eb', Eb in H2, H6.
    split_and!; try done.
    + apply (outcome_cons n r' lg logs' m m1 m2); try done. exists e. by rewrite Elg, Wlg.
    + apply distinct_cons; [by rewrite Blg|]. rewrite (size_ok _ Hm), <- Eb, <- Eb', <- (size_ok _ Hbe').
      by rewrite Blg, <- Et.
    + apply Forall_cons. by rewrite Blg.
  - destruct (read_clock (run_world rr)) as [now w3].
    destruct (complete_ok b (u64 (now - start)) be w3 Hbe) as (be' & w4 & -> & Hbe' & Eb'); [by rewrite Eb|].
    intros [= <- <- <- <-]. cbn. rewrite Eb', Eb. split_and!; try done; try tauto.
    apply outcome_single; [unfold verdict; by rewrite Elg|by rewrite Elg].
Qed.
End any_policy.

(** ** Requests in a row *)

Section requests.
Context {W B I : Type} {HB : IBackEnds W B} {HW : World W}.
Context (Run : Z -> TRewindAbleInput I -> W -> run_result I W).

Fixpoint serve (fuel : nat) (array : list (option Z)) (requests : list (Z * I)) (m : TModule B) (w : W)
  : option (list (res unit) * TModule B * W) :=
  match requests with
  | [] => Some ([], m, w)
  | (hash, slave) :: requests =>
      let* (r, _, m, w) := DoRun Run fuel array hash slave m w in
      let* (rs, m, w) := serve fuel array requests m w in
      Some (r :: rs, m, w)
  end.
End requests.

(** ** Termination under the round robins *)

(** What is left for a policy over the tree: its operations are the common ones, the
    weights are whole numbers, and a use costs between 1 and [top]. *)
Class WholeCosts {B : Type} (W : Type) (Weight : B -> double) (Inc complete failed : B -> B) (fine : B -> Prop) (top : Z)
    {HB : IBackEnds W (TBackEnds (B := B))} : Prop := {
  wc_size s : Size s = zlen (List_ s);
  wc_next a s w : DoNext a s w = let* (b, s) := robin_next Weight Inc s in Some (Some b, s, w);
  wc_complete b d s w : OnCompleteRequest b d s w = let* s := robin_update complete b s in Some (s, w);
  wc_failed b d s w : OnFailRequest b d s w = let* s := robin_update failed b s in Some (s, w);
  wc_nonneg x : fine x -> nonneg (Weight x) = true -> nonneg (Weight (Inc x)) = true;
  wc_inc x z : fine x -> Weight x = of_Z z -> 0 < z -> z + top < 2 ^ 53 ->
    fine (Inc x) /\ exists c, 1 <= c <= top /\ Weight (Inc x) = of_Z (z + c);
  wc_fine x : fine x -> fine (complete x) /\ fine (failed x);
  wc_keeps x : Weight (complete x) = Weight x /\ Weight (failed x) = Weight x
}.

Section live.
Context {B W : Type} {Weight : B -> double} {Inc complete failed : B -> B} {fine : B -> Prop} {top : Z}.
Context {HB : IBackEnds W (TBackEnds (B := B))} {HC : WholeCosts W Weight Inc complete failed fine top}.
Local Notation robin := (TBackEnds (B := B)).

(** The weights are [wt], no two of them further apart than one use. *)
Record live (wt : Z -> Z) (s : robin) : Prop := {
  lv_inv : robin_inv Weight s;
  lv_some : List_ s <> [];
  lv_fine b x : store s !! b = Some x -> fine x;
  lv_weight b : b ∈ List_ s -> 0 < wt b /\ exists x, store s !! b = Some x /\ Weight x = of_Z (wt b);
  lv_spread i j : i ∈ List_ s -> j ∈ List_ s -> wt i <= wt j + top
}.

Definition add_at (wt : Z -> Z) (next c : Z) (b : Z) : Z := if decide (next = b) then wt b + c else wt b.

Lemma live_step wt s : live wt s -> (forall b, b ∈ List_ s -> wt b + top < 2 ^ 53) ->
  exists next s' c, robin_next Weight Inc s = Some (next, s') /\ next ∈ List_ s /\ 1 <= c <= top /\
    live (add_at wt next c) s' /\ List_ s' = List_ s.
Proof.
  intros [Hinv Hne Hfine Hw Hsp] Hb.
  destruct (robin_next_ok Weight Inc s Hinv Hne) as (next & x & s' & E & Hinv' & El & Hn & Ex & Es & Hmin).
  { intros b x Ex. apply wc_nonneg. by eapply Hfine. }
  destruct (Hw next Hn) as [Hpn (x' & Ex' & Ewn)]. rewrite Ex in Ex'. injection Ex' as <-.
  destruct (wc_inc x (wt next) (Hfine next x Ex) Ewn Hpn (Hb next Hn)) as (Hfx & c & Hc & Ec).
  assert (Hleast : forall j, j ∈ List_ s -> wt next <= wt j).
  { intros j Hj. destruct (decide (j = next)) as [->|Hjn]; [lia|]. destruct (Hw j Hj) as [Hpj (y & Ey & Ewj)].
    pose proof (Hb j Hj). pose proof (Hb next Hn).
    destruct (Hmin j y Hj Hjn Ey) as [Hlt|[Heq _]]; rewrite Ewn, Ewj in *.
    - rewrite of_Z_lt in Hlt by lia. b2p. lia.
    - rewrite of_Z_eq in Heq by lia. b2p. lia. }
  exists next, s', c. split_and!; try done; try lia. split; rewrite ?El; try done.
  - intros b y Ey. rewrite Es in Ey. apply lookup_insert_Some in Ey as [[_ <-]|[_ Ey]]; [done|by eapply Hfine].
  - intros b Hbb. destruct (Hw b Hbb) as [Hpb Hwb]. unfold add_at. rewrite Es. destruct (decide (next = b)) as [<-|Hnb].
    + split; [lia|]. exists (Inc x). by rewrite lookup_insert_eq.
    + by rewrite lookup_insert_ne.
  - intros i j Hi Hj. specialize (Hsp i j Hi Hj). pose proof (Hleast j Hj). unfold add_at.
    destruct (decide (next = i)) as [<-|], (decide (next = j)) as [<-|]; lia.
Qed.

(** Reporting the result of a request moves no back end. *)
Lemma live_update wt (s : robin) f b : live wt s -> b ∈ List_ s ->
  (forall x, fine x -> fine (f x)) -> (forall x, Weight (f x) = Weight x) ->
  exists s', robin_update f b s = Some s' /\ live wt s' /\ List_ s' = List_ s.
Proof.
  intros [Hinv Hne Hfine Hw Hsp] Hb Hf Hfw. destruct (robin_update_ok Weight f b s Hinv Hb Hfw) as (s' & E & Hinv' & El).
  exists s'. split; [done|]. split; [|done]. unfold robin_update in E. destruct (store s !! b) as [x|] eqn:Ex; [|done]. injection E as <-.
  split; try done; cbn [store List_].
  - intros a y Ey. apply lookup_insert_Some in Ey as [[_ <-]|[_ Ey]]; [apply Hf|]; by eapply Hfine.
  - intros a Ha. destruct (Hw a Ha) as [Hpa (y & Ey & Ewa)]. split; [done|]. destruct (decide (b = a)) as [<-|Hba].
    + exists (f x). rewrite lookup_insert_eq, Hfw. by simplify_eq.
    + exists y. by rewrite lookup_insert_ne.
Qed.

(** How far the back ends [l] can still be used before [j] is the next one. *)
Fixpoint potential (wt : Z -> Z) (j : Z) (l : list Z) : Z :=
  match l with
  | [] => 0
  | i :: l => wt j + top - wt i + potential wt j l
  end.

Lemma potential_add wt j next c l : next <> j -> NoDup l ->
  potential (add_at wt next c) j l = potential wt j l - (if decide (next ∈ l) then c else 0).
Proof.
  intros Hne. induction l as [|i l IH]; intros Hnd; cbn [potential]; [by destruct (decide _) as [H|]; [apply elem_of_nil in H|]|].
  apply NoDup_cons in Hnd as [Hi Hnd]. rewrite IH by done. unfold add_at at 1 2. rewrite decide_False by done.
  destruct (decide (next = i)) as [<-|Hni].
  - rewrite (decide_False (P := next ∈ l)), (decide_True (P := next ∈ next :: l)) by (done || by left). lia.
  - destruct (decide (next ∈ l)) as [Hl|Hl].
    + rewrite decide_True by by right. lia.
    + rewrite decide_False; [lia|]. intros [->|]%elem_of_cons; done.
Qed.

Lemma potential_bounds wt j l :
  (forall i, i ∈ l -> 0 <= wt j + top - wt i <= 2 * top) -> 0 <= potential wt j l <= zlen l * (2 * top).
Proof.
  intros Hl. induction l as [|i l IH]; [unfold zlen; cbn [potential length]; lia|]. cbn [potential]. rewrite zlen_cons.
  pose proof (Hl i ltac:(by left)). specialize (IH ltac:(intros; apply Hl; by right)). lia.
Qed.

Lemma live_potential wt s j : live wt s -> j ∈ List_ s -> 0 <= potential wt j (List_ s) <= zlen (List_ s) * (2 * top).
Proof. intros [_ _ _ _ Hsp] Hj. apply potential_bounds. intros i Hi. pose proof (Hsp i j Hi Hj). pose proof (Hsp j i Hj Hi). lia. Qed.

(** The search ends when an untried back end is left, or when there can be none. *)
Definition search_ends (fuel : nat) (wt : Z -> Z) (it : TConnIterator) (s : robin) (j : Z) : Prop :=
  j ∈ List_ s /\ Some j ∉ tried it /\ potential wt j (List_ s) < Z.of_nat fuel \/ zlen (List_ s) <= Cur_ it /\ (0 < fuel)%nat.

Lemma live_loop fuel : forall wt hash it s (w : W) j,
  live wt s -> search_ends fuel wt it s j -> (forall b, b ∈ List_ s -> wt b + Z.of_nat fuel * top < 2 ^ 53) ->
  exists b it' s' wt', next_loop fuel hash it s w = Some (Some b, it', s', w) /\ b ∈ List_ s /\ live wt' s' /\ List_ s' = List_ s /\
    Attempts_ it' = Attempts_ it /\ Cur_ it' = Cur_ it /\ forall b, wt b <= wt' b <= wt b + Z.of_nat fuel * top.
Proof.
  induction fuel as [|fuel IH]; intros wt hash it s w j Hl Hj Hb.
  { exfalso. destruct Hj as [(Hj & _ & Hp)|[_ Hp]]; [pose proof (live_potential wt s j Hl Hj); lia|lia]. }
  assert (exists b0, b0 ∈ List_ s) as [b0 Hb0] by (pose proof (lv_some _ _ Hl); destruct (List_ s) as [|b0 ?]; [done|exists b0; by left]).
  assert (Htop : 0 <= top) by (pose proof (lv_spread _ _ Hl b0 b0 Hb0 Hb0); lia).
  destruct (live_step wt s Hl) as (next & s1 & c & E1 & Hn & Hc & Hl1 & El1).
  { intros b Hbb. specialize (Hb b Hbb). nia. }
  cbn [next_loop]. rewrite wc_next, E1. cbn [Attempts_ Cur_ Attempt_]. set (it1 := mk_iter _ _ _).
  assert (Hadd : forall b, wt b <= add_at wt next c b <= wt b + top) by (intros b; unfold add_at; destruct (decide (next = b)); lia).
  rewrite wc_size. destruct (AlreadyHave it1 (Some next) && (Cur_ it <? zlen (List_ s1))) eqn:Ec.
  - apply andb_true_iff in Ec as [Ec1 Ec2]. unfold AlreadyHave in Ec1. apply bool_decide_eq_true in Ec1. b2p. rewrite El1 in Ec2.
    destruct Hj as [(Hj & Hjt & Hp)|[Hcur _]]; [|lia]. assert (Hnj : next <> j) by (intros ->; by apply Hjt).
    destruct (IH (add_at wt next c) hash it1 s1 w j Hl1) as (b & it' & s' & wt' & E2 & H0 & H1 & H2 & H3 & H4 & H5).
    + left. rewrite El1. split; [done|]. split; [done|]. rewrite potential_add, decide_True by (done || apply (ri_nodup _ _ (lv_inv _ _ Hl))). lia.
    + rewrite El1. intros b Hbb. specialize (Hb b Hbb). specialize (Hadd b). lia.
    + exists b, it', s', wt'. rewrite E2, H2, <- El1. split_and!; try done. intros x. specialize (H5 x). specialize (Hadd x). lia.
  - exists next, it1, s1, (add_at wt next c). split_and!; try done. intros b. specialize (Hadd b). nia.
Qed.

(** A back end that was not tried, if there is one. *)
Lemma untried (l : list Z) (have : list (option Z)) :
  NoDup l -> zlen have < zlen l -> exists j, j ∈ l /\ Some j ∉ have.
Proof.
  intros Hnd Hlen. destruct (decide (Exists (fun j => Some j ∉ have) l)) as [H|H].
  - apply Exists_exists in H as (j & Hj & Hh). by exists j.
  - exfalso. apply not_Exists_Forall in H; [|apply _]. rewrite Forall_forall in H.
    assert (Hsub : Some <$> l ⊆+ have).
    { apply NoDup_submseteq; [by apply NoDup_fmap_2; [apply _|]|]. intros x (j & -> & Hj)%list_elem_of_fmap.
      specialize (H j Hj). cbn in H. by destruct (decide (Some j ∈ have)). }
    apply submseteq_length in Hsub. rewrite length_fmap in Hsub. unfold zlen in Hlen. lia.
Qed.

Lemma live_next fuel wt hash it (s : robin) (w : W) :
  live wt s -> iter_ok it -> Cur_ it < ATTEMPTS -> zlen (List_ s) * (2 * top) < Z.of_nat fuel ->
  (forall b, b ∈ List_ s -> wt b + Z.of_nat fuel * top < 2 ^ 53) ->
  exists b it' s' wt', iter_next fuel hash it s w = Some (Some b, it', s', w) /\ b ∈ List_ s /\ live wt' s' /\
    List_ s' = List_ s /\ iter_ok it' /\ Cur_ it' = Cur_ it + 1 /\ forall b, wt b <= wt' b <= wt b + Z.of_nat fuel * top.
Proof.
  intros Hl Hit Hc Hfuel Hb.
  assert (exists j, search_ends fuel wt it s j) as [j Hj].
  { destruct (decide (zlen (List_ s) <= Cur_ it)) as [Hle|Hgt].
    - exists 0. right. split; [done|]. pose proof (zlen_nonneg (List_ s)).
      assert (exists b0, b0 ∈ List_ s) as [b0 Hb0] by (pose proof (lv_some _ _ Hl); destruct (List_ s) as [|b0 ?]; [done|exists b0; by left]).
      pose proof (lv_spread _ _ Hl b0 b0 Hb0 Hb0). nia.
    - destruct (untried (List_ s) (tried it)) as (j & Hj & Hjt); [apply (ri_nodup _ _ (lv_inv _ _ Hl))|rewrite tried_len by done; lia|].
      exists j. left. split_and!; try done. pose proof (live_potential wt s j Hl Hj). lia. }
  destruct (live_loop fuel wt hash it s w j Hl Hj Hb) as (b & it1 & s' & wt' & E1 & Hbb & Hl' & El & Ea & Ec & Hk).
  unfold iter_next. rewrite E1, Ea, Ec. destruct Hit as [Hla Hcb].
  destruct (zset_is_Some (Attempts_ it) (Cur_ it) (Some b)) as [a Ez]; [lia|]. rewrite Ez.
  exists b, (mk_iter a (Cur_ it + 1) (Attempt_ it1)), s', wt'. split_and!; try done.
  split; cbn; [by rewrite (zlen_zset _ _ _ _ Ez)|lia].
Qed.

Context {I : Type} {HW : World W}.
Context (Run : Z -> TRewindAbleInput I -> W -> run_result I W).

Lemma live_run fuel n : forall wt hash m it input written (w : W),
  live wt (BackEnds_ m) -> iter_ok it -> Cur_ it + Z.of_nat n <= ATTEMPTS ->
  zlen (List_ (BackEnds_ m)) * (2 * top) < Z.of_nat fuel ->
  (forall b, b ∈ List_ (BackEnds_ m) -> wt b + Z.of_nat n * (Z.of_nat fuel * top) < 2 ^ 53) ->
  exists r logs m' w' wt', run_loop (B := robin) Run fuel n hash m it input written w = Some (r, logs, m', w') /\
    live wt' (BackEnds_ m') /\ List_ (BackEnds_ m') = List_ (BackEnds_ m) /\ MaxAttempts_ m' = MaxAttempts_ m /\
    forall b, wt b <= wt' b <= wt b + Z.of_nat n * (Z.of_nat fuel * top).
Proof.
  induction n as [|n IH]; intros wt hash m it input written w Hl Hit Hc Hfuel Hb; cbn [run_loop].
  { eexists _, _, _, _, wt. split; [done|]. split_and!; try done. lia. }
  assert (exists b0, b0 ∈ List_ (BackEnds_ m)) as [b0 Hb0]
    by (pose proof (lv_some _ _ Hl); destruct (List_ (BackEnds_ m)) as [|b0 ?]; [done|exists b0; by left]).
  assert (Htop : 0 <= Z.of_nat fuel * top) by (pose proof (lv_spread _ _ Hl b0 b0 Hb0 Hb0); nia).
  destruct (live_next fuel wt hash it (BackEnds_ m) w Hl Hit) as (b & it1 & s1 & wt1 & -> & Hbb & Hl1 & El1 & Hit1 & Ec1 & Hk1);
    [lia|done| |].
  { intros b Hbb. specialize (Hb b Hbb). nia. }
  assert (Hk : forall b, wt b <= wt1 b <= wt b + Z.of_nat (S n) * (Z.of_nat fuel * top)) by (intros a; specialize (Hk1 a); nia).
  destruct (read_clock w) as [start w1]. set (rr := Run b (Rewind input) w1). destruct (run_error rr) as [e|].
  - destruct (negb (retryable e)); [by eexists _, _, _, _, wt1|].
    destruct (read_clock (run_world rr)) as [now w2]. rewrite wc_failed.
    destruct (live_update wt1 s1 failed b Hl1) as (s2 & -> & Hl2 & El2); [by rewrite El1|intros x Hx; by destruct (wc_fine x Hx)|intros x; by destruct (wc_keeps x)|].
    destruct (negb (_ =? 0)); [eexists _, _, _, _, wt1; split; [done|]; cbn; by rewrite El2, El1|].
    destruct (negb (Authorize _)); [eexists _, _, _, _, wt1; split; [done|]; cbn; by rewrite El2, El1|].
    match goal with |- context [run_loop Run fuel n hash ?m it1 ?i ?wr w2] =>
      destruct (IH wt1 hash m it1 i wr w2) as (r & logs & m' & w' & wt2 & -> & H1 & H2 & H3 & H4) end;
      [done|done|lia|cbn; by rewrite El2, El1| |].
    { cbn. rewrite El2, El1. intros a Ha. specialize (Hb a Ha). specialize (Hk1 a). lia. }
    eexists _, _, _, _, wt2. cbn in H2, H3. rewrite El2, El1 in H2. split; [done|]. split_and!; try done.
    intros a. specialize (Hk1 a). specialize (H4 a). lia.
  - destruct (read_clock (run_world rr)) as [now w2]. rewrite wc_complete.
    destruct (live_update wt1 s1 complete b Hl1) as (s2 & -> & Hl2 & El2); [by rewrite El1|intros x Hx; by destruct (wc_fine x Hx)|intros x; by destruct (wc_keeps x)|].
    eexists _, _, _, _, wt1. split; [done|]. cbn. by rewrite El2, El1.
Qed.

Lemma live_serve fuel array requests : forall wt (m : TModule robin) w,
  live wt (BackEnds_ m) -> zlen array = ATTEMPTS -> 0 <= MaxAttempts_ m <= ATTEMPTS ->
  zlen (List_ (BackEnds_ m)) * (2 * top) < Z.of_nat fuel ->
  (forall b, b ∈ List_ (BackEnds_ m) -> wt b + zlen requests * (ATTEMPTS * (Z.of_nat fuel * top)) < 2 ^ 53) ->
  exists rs m' w', serve Run fuel array requests m w = Some (rs, m', w') /\ length rs = length requests.
Proof.
  induction requests as [|[hash slave] requests IH]; intros wt m w Hl Ha Hm Hf Hb; cbn [serve]; [by eexists _, _, _|].
  rewrite zlen_cons in Hb. pose proof (zlen_nonneg requests). unfold ATTEMPTS in *.
  assert (exists b0, b0 ∈ List_ (BackEnds_ m)) as [b0 Hb0]
    by (pose proof (lv_some _ _ Hl); destruct (List_ (BackEnds_ m)) as [|b0 ?]; [done|exists b0; by left]).
  assert (Htop : 0 <= Z.of_nat fuel * top) by (pose proof (lv_spread _ _ Hl b0 b0 Hb0 Hb0); nia).
  destruct (live_run fuel (Z.to_nat (MaxAttempts_ m)) wt hash m (new_iter array) (rewindable slave) 0 w Hl)
    as (r & logs & m1 & w1 & wt1 & E1 & Hl1 & El1 & Em1 & Hk1); [split; cbn; unfold ATTEMPTS; lia|unfold ATTEMPTS; cbn; lia|done| |].
  { intros b Hbb. specialize (Hb b Hbb). nia. }
  unfold DoRun. rewrite E1. destruct (IH wt1 m1 w1) as (rs & m' & w' & -> & Hlen); rewrite ?El1, ?Em1; try done.
  { intros b Hbb. specialize (Hb b Hbb). specialize (Hk1 b).
    assert (Z.of_nat (Z.to_nat (MaxAttempts_ m)) * (Z.of_nat fuel * top) <= 16 * (Z.of_nat fuel * top)) by nia. lia. }
  eexists _, _, _. split; [done|]. cbn. by rewrite Hlen.
Qed.
End live.

(** *** The two policies *)

Section costs.
Context {IModule W : Type}.

(** Positive whole weights of at most [top]. *)
Definition rr_fine (top : Z) (x : rr_backend (IModule := IModule)) : Prop := exists n, 0 < n <= top /\ Weight_ (rr_descr x) = of_Z n.

#[export] Instance rr_costs top : WholeCosts W rr_weight rr_inc rr_complete rr_failed (rr_fine top) top.
Proof.
  split; try done.
  - intros x (n & Hn & Ew) Hx. cbn. apply nonneg_add; [done|]. rewrite Ew. apply nonneg_of_Z. lia.
  - intros x z (n & Hn & Ew) Ex Hz Hb. split; [by exists n|]. exists n. split; [lia|]. cbn. rewrite Ex, Ew. apply of_Z_add; lia.
Qed.

Definition srr_fine (x : srr_backend (IModule := IModule)) : Prop := srr_step x = of_Z 1.

#[export] Instance srr_costs : WholeCosts W srr_weight srr_inc srr_complete srr_failed srr_fine 64.
Proof.
  split; try done.
  - intros x Hs Hx. rewrite srr_cost by done. apply nonneg_add; [done|apply state_mul_nonneg].
  - intros x z Hs Ex Hz Hb. split; [unfold srr_fine; cbn; destruct (UpdateState_keeps x) as (_ & -> & _); done|].
    rewrite srr_cost, Ex by done. unfold state_mul.
    repeat (match goal with |- context [if ?c then _ else _] => destruct c end);
      [exists 2|exists 8|exists 64|exists 1]; (split; [lia|apply of_Z_add; lia]).
Qed.
End costs.
