(* ===== verification/BConfigured.v ===== *)
(** * Balancer: a module as its configuration builds it

    The five policies that choose among their back ends without [abort()] keep their
    contract inside the sum type of policies, the constructors establish it, and a
    module that the configuration builds serves every request with it. *)

From Stdlib Require Import ZArith Lia Bool String.
From stdpp Require Import base numbers list gmap strings.
From S2P Require Import Prelude AvlTree Double Random BConfig BTrackers BArbiter BPolicy BRobin BWeighted BWeighted2 BModule BRun.

Section configured.
Context {IModule W : Type} {HW : World W} {E : Env IModule}.
Local Notation policy := (policy IModule).

(** ** The contract of the sum *)

Definition choosing (p : policy) : bool :=
  match p with PFair _ | PRobust _ | PPid _ => false | _ => true end.

Definition policy_good (p : policy) : Prop :=
  match p with
  | PSmart s => policy_inv (W := W) s
  | PRobin s => policy_inv (W := W) s
  | PWeighted s => policy_inv (W := W) s
  | PWeighted2 s => policy_inv (W := W) s
  | PHashing s => policy_inv (W := W) s
  | PFair _ | PRobust _ | PPid _ => False
  end.

Definition policy_members (p : policy) : list Z :=
  match p with
  | PSmart s => backends (W := W) s
  | PRobin s => backends (W := W) s
  | PWeighted s => backends (W := W) s
  | PWeighted2 s => backends (W := W) s
  | PHashing s => backends (W := W) s
  | PFair _ | PRobust _ | PPid _ => []
  end.

Lemma policy_request_ok ok b d p w : policy_good p -> b ∈ policy_members p ->
  exists p' w', policy_request ok b d p w = Some (p', w') /\ policy_good p' /\ policy_members p' = policy_members p.
Proof.
  destruct p as [s|s|s|s|s|s|s|s]; try done; intros Hs Hb; cbn [policy_request];
    (destruct ok; [destruct (complete_ok b d s w Hs Hb) as (s' & w' & -> & H1 & H2)|
                   destruct (fail_ok b d s w Hs Hb) as (s' & w' & -> & H1 & H2)]; by eexists _, _).
Qed.

#[export] Instance policy_spec : BackEndsSpec W policy.
Proof.
  refine {| policy_inv := policy_good; backends := policy_members |}.
  - intros [s|s|s|s|s|s|s|s]; try done; intros Hs; exact (size_ok s Hs).
  - intros a [s|s|s|s|s|s|s|s] w; try done; intros Hs; cbn [DoNext policy_backends policy_next];
      destruct (next_ok a s w Hs) as (b & s' & w' & -> & H1 & H2 & H3); by eexists _, _, _.
  - intros b d p w. exact (policy_request_ok true b d p w).
  - intros b d p w. exact (policy_request_ok false b d p w).
Defined.

(** ** The constructors *)

Lemma limited_make_ring N v t sum ttl : 0 < N -> zlen v = N -> zlen t = N -> ring N (limited_make v t sum ttl) [].
Proof.
  intros HN Hv Ht. split; cbn; try done; try (unfold zlen; cbn; lia).
  intros i v' s' [H1 H2]%zget_Some_bound. unfold zlen in H2. cbn in H2. lia.
Qed.

Lemma w2_create_ok g c w s w' :
  zlen (g_v g) = 1000 -> zlen (g_t g) = 1000 -> CreateWeighted2 g c w = Ret (s, w') -> Forall quality_ok (w2_list s).
Proof.
  intros Hv Ht. unfold CreateWeighted2, ForEach.
  apply (for_each_inv (w2_consume g) (fun sw => Forall quality_ok (w2_list (fst sw)))); [|by constructor].
  intros k v [s1 w1] [s2 w2] _ Hs. unfold w2_consume. cbn [fst] in *.
  repeat case_match; try done; intros [= <- _]; cbn; try done.
  apply Forall_app. split; [done|]. apply Forall_singleton. exists []. by apply limited_make_ring.
Qed.

Definition srr_built (pool : nat -> Z) (n : nat) (t : TBackEnds (B := srr_backend (IModule := IModule))) : Prop :=
  srr_inv t /\ (forall b x, store t !! b = Some x -> srr_weight x = of_Z 1) /\ List_ t = map pool (seq 0 n).

Lemma srr_consume_ok pool garbage k v n t s : Inj (=) (=) pool -> srr_built pool n t ->
  srr_consume pool garbage k v (Some (n, t)) = Ret s -> exists t', s = Some (S n, t') /\ srr_built pool (S n) t'.
Proof.
  intros Hpool ([Hinv Hst] & Hw & El). unfold srr_consume. destruct (AsSubConfig v) as [sub|]; [|done].
  destruct (descriptor sub) as [d|]; [|done]. intros [= <-].
  destruct (robin_add_ok srr_weight t (pool n) (srr_make (garbage n) d) Hinv) as (s' & -> & Hinv' & El' & Es'); [|done|].
  { rewrite El. intros Hin. apply list_elem_of_In, in_map_iff in Hin as (m & Em & Hm). apply Hpool in Em. apply in_seq in Hm. lia. }
  exists s'. split; [done|]. split; [split; [done|]|split; [|by rewrite El', El, seq_S, map_app]].
  all: intros b x Ex; rewrite Es' in Ex; apply lookup_insert_Some in Ex as [[_ <-]|[_ Ex]]; [done|]; by eauto.
Qed.

Lemma srr_create_ok pool garbage c s : Inj (=) (=) pool ->
  CreateSmartRoundRobin pool garbage c = Ret s -> exists t, s = Some t /\ srr_built pool (length (items c)) t.
Proof.
  intros Hpool. unfold CreateSmartRoundRobin, ForEach. destruct (for_each _ _ _) as [o|] eqn:E1; [|done]. intros [= <-].
  assert (H0 : srr_built pool 0 empty_robin).
  { split; [split|done]; [split; cbn; [apply empty_inv|constructor|done]|intros b x Ex; cbn in Ex; by rewrite lookup_empty in Ex]. }
  assert (Hall : forall l n t o, srr_built pool n t -> for_each (srr_consume pool garbage) l (Some (n, t)) = Ret o ->
    exists t', o = Some ((n + length l)%nat, t') /\ srr_built pool (n + length l) t').
  { induction l as [|[k v] l IH]; intros n t o' Ht; cbn [for_each length].
    - intros [= <-]. exists t. by rewrite Nat.add_0_r.
    - destruct (srr_consume pool garbage k v (Some (n, t))) as [o1|] eqn:Ec; [|done].
      destruct (srr_consume_ok pool garbage k v n t o1 Hpool Ht Ec) as (t1 & -> & Ht1). intros E2.
      replace (n + S (length l))%nat with (S n + length l)%nat by lia. by apply (IH (S n) t1). }
  destruct (Hall _ _ _ _ H0 E1) as (t & -> & Ht). by exists t.
Qed.

(** What the memory behind the constructors is: distinct addresses and arrays of
    the declared size, with any contents. *)
Record memory_ok (mem : memory) : Prop := {
  mo_pool : Inj (=) (=) (pool mem);
  mo_v : zlen (g_v (mem_w2 mem)) = 1000;
  mo_t : zlen (g_t (mem_w2 mem)) = 1000
}.

(** The weights of back ends under round robin are not negative. *)
Definition robin_weights (c : config) : Prop :=
  forall v sub, ("rr"%string, v) ∈ items c -> AsSubConfig v = Ret sub -> weights_nonneg sub.

(** A constructed policy keeps its contract as soon as it has a back end. *)
Definition fresh_ok (be : option (option policy)) : Prop :=
  match be with
  | Some (Some p) => choosing p = true -> policy_size (W := W) p <> 0 -> policy_good p
  | _ => True
  end.

Lemma robin_nonempty {B} (s : TBackEnds (B := B)) : robin_size s <> 0 -> List_ s <> [].
Proof. intros H Hl. apply H. unfold robin_size. by rewrite Hl. Qed.

Lemma construct_ok mem key c w be w' : memory_ok mem -> (key = "rr"%string -> weights_nonneg c) ->
  ConstructBackEnds mem key c w = Ret (be, w') -> fresh_ok be.
Proof.
  intros [Hp Hv Ht] Hw. unfold ConstructBackEnds.
  destruct (String.eqb key "fair"); [by destruct (CreateFair _ _) as [[|]|]; [intros [= <- _]..|]|].
  destruct (String.eqb key "srr").
  { destruct (CreateSmartRoundRobin _ _ _) as [o|] eqn:E1; [|done]. intros [= <- _].
    destruct (srr_create_ok _ _ _ _ Hp E1) as (t & -> & Ht' & _). intros _ Hs. split; [done|by apply robin_nonempty]. }
  destruct (String.eqb_spec key "rr") as [Hk|_].
  { destruct (CreateRoundRobin _ _) as [o|] eqn:E1; [|done]. intros [= <- _].
    destruct (create_ok (pool mem) c o (Hw Hk) E1) as (t & -> & Ht' & _). intros _ Hs. split; [done|by apply robin_nonempty]. }
  destruct (String.eqb key "weighted").
  { destruct (CreateWeighted c) as [s|]; [|done]. intros [= <- _] _ Hs. cbn in *. pose proof (zlen_nonneg (wb_list s)). lia. }
  destruct (String.eqb key "weighted2").
  { destruct (CreateWeighted2 _ _ _) as [[s w1]|] eqn:E1; [|done]. intros [= <- _] _ Hs. cbn in *.
    split; [pose proof (zlen_nonneg (w2_list s)); lia|by eapply w2_create_ok]. }
  destruct (String.eqb key "robust"); [by destruct (CreateRobust _ _ _); [intros [= <- _]|]|].
  destruct (String.eqb key "pidgroup"); [by destruct (CreatePIDGroup _); [intros [= <- _]|]|].
  destruct (_ || _).
  { destruct (CreateHashing c) as [s|]; [|done]. intros [= <- _] _ Hs. cbn in *. pose proof (zlen_nonneg s). lia. }
  by intros [= <- _].
Qed.

(** ** The module *)

(** A module that was built has a good policy, no incomplete request and the
    configured number of attempts. *)
Lemma make_module_ok mem c w m w' : memory_ok mem -> robin_weights c ->
  make_module mem c w = Ret (Some m, w') -> choosing (BackEnds_ m) = true ->
  policy_inv (W := W) (BackEnds_ m) /\ Incomplete_ m = 0.
Proof.
  intros Hm Hc. unfold make_module, ForEach. destruct (for_each _ _ _) as [s|] eqn:E1; [|done].
  assert (Hs : match b_backends s with Some be => fresh_ok (Some be) | None => True end).
  { revert E1. apply (for_each_inv (module_consume mem) (fun s => match b_backends s with Some be => fresh_ok (Some be) | None => True end)); [|done].
    intros k v s1 s2 Hin H1. unfold module_consume. destruct (String.eqb k "attempts").
    { by destruct (value_size v); [intros [= <-]|]. }
    destruct (AsSubConfig v) as [sub|] eqn:Ev; [|done].
    destruct (ConstructBackEnds _ _ _ _) as [[be w1]|] eqn:E2; [|done].
    assert (Hbe : fresh_ok be) by (eapply construct_ok; [done| |done]; intros ->; by eapply Hc).
    destruct be as [p|]; [by intros [= <-]|]. destruct (ConstructArbiter k sub) as [[a|]|]; try done. by intros [= <-]. }
  destruct (b_backends s) as [[p|]|]; [|done|done]. destruct (Z.eqb_spec (policy_size (W := W) p) 0) as [|Hsz]; [done|].
  intros [= <- _] Hch. split; [by apply Hs|done].
Qed.
End configured.

(** ** A policy in a module *)

Section embedding.
Context {IModule W I B : Type} {HW : World W} {HB : IBackEnds W B}.
Local Notation policy := (policy IModule).
Context (Run : Z -> TRewindAbleInput I -> W -> run_result I W) (inj : B -> policy).

(** A constructor of the sum passes the calls on. *)
Record passes : Prop := {
  ps_size s : Size (W := W) (inj s) = Size (W := W) s;
  ps_next a s w : DoNext a (inj s) w = let* (b, s, w) := DoNext a s w in Some (b, inj s, w);
  ps_complete b d s w : OnCompleteRequest b d (inj s) w = let* (s, w) := OnCompleteRequest b d s w in Some (inj s, w);
  ps_fail b d s w : OnFailRequest b d (inj s) w = let* (s, w) := OnFailRequest b d s w in Some (inj s, w)
}.

Definition embed (m : TModule B) : TModule policy :=
  mk_module (inj (BackEnds_ m)) (Arbiter_ m) (MaxAttempts_ m) (Incomplete_ m).

Context (HP : passes).

Lemma next_loop_embed fuel : forall hash it (s : B) (w : W),
  next_loop fuel hash it (inj s) w = let* (b, it, s, w) := next_loop fuel hash it s w in Some (b, it, inj s, w).
Proof.
  induction fuel as [|fuel IH]; intros hash it s w; cbn [next_loop]; [done|]. rewrite (ps_next HP).
  destruct (DoNext _ s w) as [[[b s1] w1]|]; [|done]. rewrite (ps_size HP). destruct (_ && _); [apply IH|done].
Qed.

Lemma run_loop_embed fuel n : forall hash (m : TModule B) it input written (w : W),
  run_loop Run fuel n hash (embed m) it input written w =
  let* (r, l, m, w) := run_loop Run fuel n hash m it input written w in Some (r, l, embed m, w).
Proof.
  induction n as [|n IH]; intros hash m it input written w; cbn [run_loop]; [done|].
  unfold iter_next. cbn [embed BackEnds_ Arbiter_ MaxAttempts_ Incomplete_]. rewrite next_loop_embed.
  destruct (next_loop _ _ _ _ _) as [[[[b it1] s1] w1]|]; [|done]. destruct (zset _ _ _) as [a|]; [|done].
  destruct b as [b|]; [|done]. destruct (read_clock w1) as [start w2]. destruct (run_error _) as [e|].
  - destruct (negb (retryable e)); [done|]. destruct (read_clock _) as [now w3].
    rewrite (ps_fail HP). destruct (OnFailRequest b _ s1 w3) as [[s2 w4]|]; [|done].
    destruct (negb _); [done|]. destruct (negb _); [done|].
    match goal with |- context [run_loop Run fuel n hash (mk_module s2 ?a ?x ?i) ?it ?inp ?wr w4] =>
      pose proof (IH hash (mk_module s2 a x i) it inp wr w4) as E1 end.
    unfold embed in E1 at 1. cbn [BackEnds_ Arbiter_ MaxAttempts_ Incomplete_] in E1. rewrite E1.
    by match goal with |- context [run_loop Run fuel n hash ?m ?it ?i ?wr w4] =>
      destruct (run_loop Run fuel n hash m it i wr w4) as [[[[? ?] ?] ?]|] end.
  - destruct (read_clock _) as [now w3]. rewrite (ps_complete HP). by destruct (OnCompleteRequest b _ s1 w3) as [[s2 w4]|].
Qed.

Lemma serve_embed fuel array requests : forall (m : TModule B) (w : W),
  serve Run fuel array requests (embed m) w =
  let* (rs, m, w) := serve Run fuel array requests m w in Some (rs, embed m, w).
Proof.
  induction requests as [|[hash slave] requests IH]; intros m w; cbn [serve]; [done|]. unfold DoRun. rewrite run_loop_embed.
  cbn [embed MaxAttempts_]. destruct (run_loop _ _ _ _ _ _ _ _ _) as [[[[r l] m1] w1]|]; [|done]. rewrite IH.
  by destruct (serve _ _ _ _ _ _) as [[[rs m2] w2]|].
Qed.
End embedding.

Lemma robin_passes {IModule W : Type} {HW : World W} : passes (W := W) (@PRobin IModule).
Proof. by split. Qed.

Lemma smart_passes {IModule W : Type} {HW : World W} : passes (W := W) (@PSmart IModule).
Proof. by split. Qed.

(** ** New round robins *)

Section robin_module.
Context {IModule : Type} {E : Env IModule}.

(** *** Integral weights *)

(** Every back end of the table has a positive whole weight of at most [top]. *)
Definition integral_weights (top : Z) (c : config) : Prop :=
  forall k v sub d, (k, v) ∈ items c -> AsSubConfig v = Ret sub -> descriptor sub = Ret d ->
    exists n, 0 < n <= top /\ Weight_ d = of_Z n.

Lemma create_descrs pool (P : TBackEndDescriptor IModule -> Prop) c s :
  (forall k v sub d, (k, v) ∈ items c -> AsSubConfig v = Ret sub -> descriptor sub = Ret d -> P d) ->
  CreateRoundRobin pool c = Ret (Some s) -> forall b x, store s !! b = Some x -> P (rr_descr x).
Proof.
  intros Hc. unfold CreateRoundRobin, ForEach. destruct (for_each _ _ _) as [o|] eqn:E1; [|done]. intros [= E2].
  assert (forall n t, o = Some (n, t) -> forall b x, store t !! b = Some x -> P (rr_descr x)) as H.
  { revert E1. apply (for_each_inv (rr_consume pool) (fun o => forall n t, o = Some (n, t) -> forall b x, store t !! b = Some x -> P (rr_descr x))).
    - intros k v s1 s2 Hin Hs. unfold rr_consume. destruct (AsSubConfig v) as [sub|] eqn:Ev; [|done].
      destruct (descriptor sub) as [d|] eqn:Ed; [|done]. intros [= <-] n t. destruct s1 as [[n1 t1]|]; [|done].
      unfold robin_add. destruct (Insert _ _ _ _) as [[flag t2]|]; [|done]. intros [= <- <-] a x. cbn.
      intros [[_ <-]|[_ Ex]]%lookup_insert_Some; [by eapply Hc|by eapply Hs].
    - intros n t [= <- <-] b x Ex. cbn in Ex. by rewrite lookup_empty in Ex. }
  destruct o as [[n t]|]; [|done]. injection E2 as ->. by apply (H n s).
Qed.

Lemma finite_choice {A} (P : Z -> A -> Prop) (a0 : A) (l : list Z) : (forall b, b ∈ l -> exists a, P b a) -> exists f, forall b, b ∈ l -> P b (f b).
Proof.
  induction l as [|b l IH]; intros H; [exists (fun _ => a0); by intros b Hb%elem_of_nil|].
  destruct (H b ltac:(by left)) as [a Ha]. destruct IH as [f Hf]; [intros; apply H; by right|].
  exists (fun x => if decide (x = b) then a else f x). intros x Hx.
  destruct (decide (x = b)) as [->|Hne]; [done|]. apply Hf. by apply elem_of_cons in Hx as [->|].
Qed.

(** A new round robin has used nobody, and every back end has its step. *)
Lemma create_fair pool top c s : Inj (=) (=) pool -> 0 < top < 2 ^ 53 -> integral_weights top c ->
  CreateRoundRobin pool c = Ret (Some s) ->
  exists step, fair_inv step (fun _ => 0) s /\ (forall b x, store s !! b = Some x -> 0 < step b <= top /\ Weight_ (rr_descr x) = of_Z (step b)) /\
    List_ s = map pool (seq 0 (length (items c))).
Proof.
  intros Hpool Htop Hint E1. destruct (create_ok pool c (Some s)) as (t & [= <-] & Hinv & El & Hw); [|done|].
  { intros k v sub d H1 H2 H3. destruct (Hint k v sub d H1 H2 H3) as (n & Hn & ->). apply nonneg_of_Z. lia. }
  pose proof (create_descrs pool (fun d => exists n, 0 < n <= top /\ Weight_ d = of_Z n) c s Hint E1) as Hd.
  destruct (finite_choice (fun b n => 0 < n <= top /\ forall x, store s !! b = Some x -> Weight_ (rr_descr x) = of_Z n) 0
    (map fst (map_to_list (store s)))) as [step Hstep].
  { intros b Hb. apply list_elem_of_In, in_map_iff in Hb as ([b' x] & <- & Hx). apply list_elem_of_In, elem_of_map_to_list in Hx. cbn.
    destruct (Hd b' x Hx) as (n & Hn & Ew). exists n. split; [done|]. intros y Ey. by simplify_eq. }
  assert (Hst : forall b x, store s !! b = Some x -> 0 < step b <= top /\ Weight_ (rr_descr x) = of_Z (step b)).
  { intros b x Ex. destruct (Hstep b) as [H1 H2]; [|split; [done|by apply H2]]. apply list_elem_of_In, in_map_iff. exists (b, x).
    split; [done|]. by apply list_elem_of_In, elem_of_map_to_list. }
  assert (Hin : forall b, b ∈ List_ s -> exists x, store s !! b = Some x).
  { intros b Hb. destruct (robin_good _ s b (proj1 Hinv) Hb) as (x & Ex & _). by exists x. }
  exists step. split; [|done]. split; [done|..].
  - intros b Hb. destruct (Hin b Hb) as [x Ex]. exists x. destruct (Hst b x Ex) as [_ Hx]. rewrite (Hw b x Ex), Hx.
    split; [done|]. split; [f_equal; lia|done].
  - intros b Hb. destruct (Hin b Hb) as [x Ex]. destruct (Hst b x Ex) as [? _]. lia.
  - intros i j Hi Hj. destruct (Hin j Hj) as [x Ex]. destruct (Hst j x Ex) as [? _]. lia.
Qed.

Lemma list_of_items pool (c : config) : items c <> [] -> map pool (seq 0 (length (items c))) <> ([] : list Z).
Proof. by destruct (items c). Qed.

Lemma create_live pool top c s : Inj (=) (=) pool -> 0 < top < 2 ^ 53 -> items c <> [] -> integral_weights top c ->
  CreateRoundRobin pool c = Ret (Some s) ->
  exists wt, live (Weight := rr_weight) (fine := rr_fine top) (top := top) wt s /\
    (forall b, b ∈ List_ s -> wt b <= top) /\ zlen (List_ s) = zlen (items c).
Proof.
  intros Hpool Htop Hne Hint E1. destruct (create_fair pool top c s Hpool Htop Hint E1) as (step & [Hinv Hw Hp _] & Hst & El).
  assert (Hle : forall b, b ∈ List_ s -> step b <= top) by (intros b Hb; destruct (Hw b Hb) as (x & Ex & _); by apply (Hst b x)).
  exists step. split; [|split; [done|rewrite El; unfold zlen; by rewrite length_map, length_seq]]. split.
  - apply Hinv.
  - rewrite El. by apply list_of_items.
  - intros b x Ex. exists (step b). by apply Hst.
  - intros b Hb. destruct (Hw b Hb) as (x & Ex & Ew & _). split; [apply (Hp b Hb)|]. exists x. split; [done|]. rewrite Ew. f_equal. lia.
  - intros i j Hi Hj. specialize (Hle i Hi). destruct (Hp j Hj). lia.
Qed.

Lemma create_smart_live pool garbage c s : Inj (=) (=) pool -> items c <> [] -> CreateSmartRoundRobin pool garbage c = Ret (Some s) ->
  live (Weight := srr_weight) (fine := srr_fine) (top := 64) (fun _ => 1) s /\ zlen (List_ s) = zlen (items c).
Proof.
  intros Hpool Hne E1. destruct (srr_create_ok pool garbage c (Some s) Hpool E1) as (t & [= <-] & [Hinv Hs] & Hw & El).
  split; [|rewrite El; unfold zlen; by rewrite length_map, length_seq]. split; try done.
  - rewrite El. by apply list_of_items.
  - intros b Hb. split; [lia|]. destruct (robin_good _ s b Hinv Hb) as (x & Ex & _). exists x. split; [done|]. by apply (Hw b).
Qed.
End robin_module.
