(* ===== verification/BParts.v ===== *)
(** * Balancer: the parts as abstract machines

    Sequences of operations on the parts of the balancer with what they compute:
    trackers as queues, arbiters and state machines under any history, the replayed
    input, the chain of requests. *)

From Stdlib Require Import ZArith Lia Bool String.
From stdpp Require Import base numbers list gmap strings.
From S2P Require Import Prelude AvlTree Double Random BConfig BTrackers BArbiter BPolicy BRobin BWeighted BWeighted2 BModule BRun BConfigured.

(** ** The time-limited tracker *)

Inductive tracker_op := TrAdd (now : Z) (v : double) | TrGet (now : Z).

Section tracker.
Context (N : Z).

(** What the reads return. *)
Fixpoint tracker_run (ops : list tracker_op) (t : limited) : option (list (double * Z)) :=
  match ops with
  | [] => Some []
  | TrAdd now v :: ops => let* t := limited_add N now v t in tracker_run ops t
  | TrGet now :: ops =>
      let* (sum, n, t) := limited_get N now t in
      let* l := tracker_run ops t in
      Some ((sum, n) :: l)
  end.

(** The same on a queue of at most [N] values, each with the time it was added. *)
Fixpoint queue_run (ttl : Z) (ops : list tracker_op) (q : list (double * Z)) (sum : double) : list (double * Z) :=
  match ops with
  | [] => []
  | TrAdd now v :: ops => let '(q, sum) := enqueue N now v q sum in queue_run ttl ops q sum
  | TrGet now :: ops => let '(q, sum) := drop_expired now ttl q sum in (sum, zlen q) :: queue_run ttl ops q sum
  end.

Lemma tracker_run_ok ops : forall t q, 0 < N -> ring N t q -> tracker_run ops t = Some (queue_run (Ttl_ t) ops q (Sum_ t)).
Proof.
  induction ops as [|[now v|now] ops IH]; intros t q HN Hr; cbn [tracker_run queue_run]; [done| |].
  - destruct (limited_add_ok N t q now v HN Hr) as (t' & -> & Hr' & Es & Et).
    destruct (enqueue N now v q (Sum_ t)) as [q' sum']. cbn in *. by rewrite (IH t' q'), Es, Et.
  - unfold limited_get, limited_check.
    destruct (check_loop_ok N q (S (Z.to_nat (Total_ t))) now t Hr) as (t' & -> & Hr' & Es & Et).
    { rewrite (rg_total _ _ _ Hr). unfold zlen. lia. }
    destruct (drop_expired now (Ttl_ t) q (Sum_ t)) as [q' sum']. cbn in *.
    by rewrite (IH t' q'), Es, Et, (rg_total _ _ _ Hr').
Qed.
End tracker.

(** ** The replayed input *)

(** What [n] receives deliver, one list of chunks each, and what is left of the input. *)
Fixpoint reads {I : Type} {HI : IIoInput I} (n : nat) (i : I) : list (list chunk) * I :=
  match n with
  | O => ([], i)
  | S n => let '(got, i) := Recv i in let '(outs, i) := reads n i in (got :: outs, i)
  end.

Lemma reads_snoc {I : Type} {HI : IIoInput I} (n : nat) (i : I) :
  reads (S n) i = let '(outs, i) := reads n i in let '(got, i) := Recv i in (outs ++ [got], i).
Proof.
  revert i. induction n as [|n IH]; intros i; [cbn; by destruct (Recv i)|].
  assert (Hu : forall m, reads (S m) i = let '(got, i) := Recv i in let '(outs, i) := reads m i in (got :: outs, i)) by done.
  rewrite !Hu. destruct (Recv i) as [got i1]. rewrite IH. destruct (reads n i1) as [outs i2]. by destruct (Recv i2).
Qed.

Section replay.
Context {I : Type} {HI : IIoInput I}.

Inductive input_op := DoRewind | DoRecv.

Fixpoint input_run (ops : list input_op) (t : TRewindAbleInput I) : TRewindAbleInput I :=
  match ops with
  | [] => t
  | DoRewind :: ops => input_run ops (Rewind t)
  | DoRecv :: ops => input_run ops (snd (rewind_recv t))
  end.

(** How often the connection has been read after [ops], [k] times before: by every receive but
    the first one behind a rewind, and by that one too when nothing has come from the
    connection; [rewound] says that no receive has come since the last rewind. *)
Fixpoint connection_reads (slave : I) (ops : list input_op) (rewound : bool) (k : nat) : nat :=
  match ops with
  | [] => k
  | DoRewind :: ops => connection_reads slave ops true k
  | DoRecv :: ops =>
      connection_reads slave ops false (if rewound && negb (bool_decide (concat (fst (reads k slave)) = [])) then k else S k)
  end.

(** The input has read the connection [k] times; it holds the chunks for the reads of a new
    attempt, or has delivered them. *)
Definition has_read (rewound : bool) (k : nat) (slave : I) (t : TRewindAbleInput I) : Prop :=
  t = let '(outs, s) := reads k slave in if rewound then mk_rewind (concat outs) [] s else mk_rewind [] (concat outs) s.

Lemma rewind_has_read r k slave t : has_read r k slave t -> has_read true k slave (Rewind t).
Proof. unfold has_read. intros ->. destruct (reads k slave) as [outs s]. destruct r; unfold Rewind; cbn; by rewrite ?app_nil_r. Qed.

Lemma recv_has_read r k slave t : has_read r k slave t ->
  has_read false (if r && negb (bool_decide (concat (fst (reads k slave)) = [])) then k else S k) slave (snd (rewind_recv t)).
Proof.
  unfold has_read. intros ->. pose proof (reads_snoc k slave) as Hs. destruct (reads k slave) as [outs s] eqn:Er. cbn [fst].
  assert (Hread : forall tmp, concat outs = tmp -> snd (rewind_recv (mk_rewind [] tmp s)) = let '(outs, s) := reads (S k) slave in mk_rewind [] (concat outs) s).
  { intros tmp <-. rewrite Hs. unfold rewind_recv. cbn [Old_ Tmp_ Slave_]. destruct (Recv s) as [got s']. rewrite concat_app. cbn. by rewrite app_nil_r. }
  destruct r; cbn [andb]; [|by apply Hread]. destruct (bool_decide_reflect (concat outs = [])) as [E|E]; cbn [negb].
  - rewrite E. by apply Hread.
  - rewrite Er. unfold rewind_recv. cbn. by destruct (concat outs).
Qed.

Lemma input_run_ok ops : forall r k slave t, has_read r k slave t -> exists r', has_read r' (connection_reads slave ops r k) slave (input_run ops t).
Proof.
  induction ops as [|[|] ops IH]; intros r k slave t Hk; cbn [input_run connection_reads]; [by exists r| |].
  - eapply IH. by eapply rewind_has_read.
  - eapply IH. by eapply recv_has_read.
Qed.

(** Behind the replay every receive is the next one of the connection. *)
Lemma reads_direct n tmp s : reads n (mk_rewind [] tmp s) = let '(outs, s) := reads n s in (outs, mk_rewind [] (tmp ++ concat outs) s).
Proof.
  revert tmp s. induction n as [|n IH]; intros tmp s; cbn [reads]; [cbn; by rewrite app_nil_r|].
  unfold Recv at 1, rewind_input, rewind_recv. cbn [Old_ Tmp_ Slave_]. destruct (Recv s) as [got s1]. rewrite IH. destruct (reads n s1) as [outs s2].
  cbn. by rewrite <- app_assoc.
Qed.
End replay.

(** ** The smart round robin under a history *)

Inductive srr_event := Used | Completed | Failed.

Section smart.
Context {IModule : Type}.
Local Notation backend := (srr_backend (IModule := IModule)).

Definition srr_event_step (b : backend) (e : srr_event) : backend :=
  match e with Used => srr_inc b | Completed => srr_complete b | Failed => srr_failed b end.

Definition srr_history (l : list srr_event) (b : backend) : backend := fold_left srr_event_step l b.

Definition counters_ok (b : backend) : Prop := 0 <= CntFail_ b < 2 ^ 32 /\ 0 <= CntComplete_ b < 2 ^ 32.

Lemma UpdateState_counters b : counters_ok b -> counters_ok (UpdateState b).
Proof. intros H. unfold UpdateState. cbn zeta. repeat case_match; try done; split; cbn; lia. Qed.

Lemma u32_range x : 0 <= u32 x < 2 ^ 32.
Proof. apply Z.mod_pos_bound. lia. Qed.

Lemma srr_history_ok l : forall b, counters_ok b -> srr_step b = of_Z 1 ->
  counters_ok (srr_history l b) /\ srr_step (srr_history l b) = of_Z 1 /\
  (0 <= State_ b <= 3 -> 0 <= State_ (srr_history l b) <= 3) /\
  (3 < State_ b -> State_ (srr_history l b) = State_ b).
Proof.
  induction l as [|e l IH]; intros b Hb Hs; [done|]. cbn [srr_history fold_left].
  assert (counters_ok (srr_event_step b e) /\ srr_step (srr_event_step b e) = of_Z 1 /\
    (0 <= State_ b <= 3 -> 0 <= State_ (srr_event_step b e) <= 3) /\ (3 < State_ b -> State_ (srr_event_step b e) = State_ b)) as (H1 & H2 & H3 & H4).
  { destruct e; cbn [srr_event_step].
    - destruct (UpdateState_keeps b) as (_ & E2 & _). split; [exact (UpdateState_counters b Hb)|]. cbn. split; [by rewrite E2|].
      split; [apply UpdateState_range|]. intros H. by rewrite UpdateState_stuck.
    - pose proof (u32_range (CntComplete_ b + 1)). destruct Hb. done.
    - pose proof (u32_range (CntFail_ b + 1)). destruct Hb. done. }
  destruct (IH _ H1 H2) as (H5 & H6 & H7 & H8). unfold srr_history in *. split_and!; try done; [by auto|].
  intros H. rewrite H8; [by apply H4|]. by rewrite H4.
Qed.
End smart.

(** ** Arbiters under a history *)

Lemma registers_snoc l ok a : registers (l ++ [ok]) a = register ok (registers l a).
Proof. unfold registers. by rewrite fold_left_app. Qed.

Lemma watermark_history l : forall w, exists w', registers l (TWatermarkArbiter w) = TWatermarkArbiter w' /\
  LoWatermark_ w' = LoWatermark_ w /\ HiWatermark_ w' = HiWatermark_ w.
Proof.
  induction l as [|ok l IH]; intros w; [by exists w|]. cbn [registers fold_left]. pose proof (watermark_step w ok) as H.
  destruct (register ok (TWatermarkArbiter w)) as [| |w1]; try done. destruct H as (H1 & H2 & _).
  destruct (IH w1) as (w' & E1 & E2 & E3). exists w'. by rewrite E2, E3.
Qed.

Lemma additive_history l : forall a, additive_inv a ->
  exists a', registers l (TAdditiveArbiter a) = TAdditiveArbiter a' /\ additive_inv a' /\ AlarmValue_ a' = AlarmValue_ a.
Proof.
  induction l as [|ok l IH]; intros a Ha; [by exists a|]. cbn [registers fold_left].
  destruct (additive_step a Ha) as [H1 H2]. destruct ok; cbn [register RegisterSucc RegisterFail].
  - destruct (IH _ H1) as (a' & E1 & E2 & E3). by exists a'.
  - destruct (IH _ H2) as (a' & E1 & E2 & E3). by exists a'.
Qed.

Section construct.
Context {IModule : Type} {E : Env IModule}.

Lemma make_watermark_ok c w : make_watermark c = Ret w -> Enabled_ w = true /\ dlt (HiWatermark_ w) (LoWatermark_ w) = false.
Proof.
  unfold make_watermark, ForEach. destruct (for_each _ _ _) as [w1|] eqn:E1; [|done].
  destruct (dlt _ _) eqn:Ed; [done|]. intros [= <-]. split; [|done]. revert E1.
  apply (for_each_inv watermark_consume (fun w => Enabled_ w = true)); [|done].
  intros k v s s' _ Hs. unfold watermark_consume. repeat case_match; try done; by intros [= <-].
Qed.
End construct.

(** ** The generator *)

Lemma draws_ok P {HP : mt_params_ok P} n : forall g, mt_ok P g ->
  exists l, draws P n g = Some l /\ length l = n /\ Forall (in_word (Random.W P)) l.
Proof.
  induction n as [|n IH]; intros g Hg; cbn [draws]; [by exists []|].
  destruct (GenRand_ok P g Hg) as (x & g' & -> & Hx & Hg' & _). destruct (IH g' Hg') as (l & -> & Hl & Hf).
  exists (x :: l). split; [done|]. split; [cbn; by rewrite Hl|by apply Forall_cons].
Qed.

(** ** Weights of the weighted2 policy *)

Section w2.
Context {IModule W : Type} {HW : World W}.

(** The two limits of a back end's weight. *)
Definition lowest (p : TCorrectionParams) (b : w2_backend (IModule := IModule)) : double := (MinWeight_ p * Weight_ (w2_descr b))%double.
Definition highest (p : TCorrectionParams) (b : w2_backend (IModule := IModule)) : double := (MaxWeight_ p * Weight_ (w2_descr b))%double.

Definition within (p : TCorrectionParams) (b : w2_backend) : Prop :=
  dle (lowest p b) (w2_weight b) = true /\ dle (w2_weight b) (highest p b) = true.

(** A back end with a configured weight of moderate size, limits in order, and a positive weight. *)
Definition backend_sane (p : TCorrectionParams) (b : w2_backend (IModule := IModule)) : bool :=
  moderate (Weight_ (w2_descr b)) && negb (dlt (highest p b) (lowest p b)) && posfin (w2_weight b).

Definition start_sum (l : list (w2_backend (IModule := IModule))) : double := sum_doubles (map (fun b => Weight_ (w2_descr b)) l).

Definition params_sane (p : TCorrectionParams) : bool := moderate (MinWeight_ p) && moderate (MaxWeight_ p).

Definition w2_sane (s : weighted2 (IModule := IModule)) : bool :=
  let p := CorrectionParams_ s in
  params_sane p && posfin (start_sum (w2_list s)) && forallb (backend_sane p) (w2_list s).

Lemma moderate_number x : moderate x = true -> is_nan x = false /\ short x = true.
Proof. destruct x as [| | |[] m e]; try done. cbn. intros H. apply andb_true_iff in H as [-> _]. done. Qed.

Lemma forallb_Forall {A} (f : A -> bool) l : forallb f l = true <-> Forall (fun x => f x = true) l.
Proof. rewrite forallb_forall, Forall_forall. split; intros H x Hx; apply H; by apply list_elem_of_In. Qed.

Lemma sum_nonneg l a : Forall (fun x => posfin x = true) l -> nonneg a = true -> nonneg (fold_left dadd l a) = true.
Proof. revert a. induction l as [|x l IH]; intros a Hl Ha; [done|]. apply Forall_cons in Hl as [Hx Hl]. cbn. apply IH; [done|]. apply nonneg_add; [done|by apply posfin_nonneg]. Qed.

(** [Normalize] takes no factor that is not a number, and leaves every weight between its limits. *)
Lemma w2_normalize_in_order p l : params_sane p = true -> posfin (start_sum l) = true -> Forall (fun b => backend_sane p b = true) l ->
  Forall (fun b => within p b /\ backend_sane p b = true) (w2_normalize p l) /\ start_sum (w2_normalize p l) = start_sum l.
Proof.
  intros Hp Hs Hl. unfold w2_normalize. fold (start_sum l). set (c := (start_sum l / _)%double).
  assert (Hc : is_nan c = false).
  { apply div_nan; [done|]. apply sum_nonneg; [|done]. apply Forall_map. eapply Forall_impl; [exact Hl|]. intros b Hb. by apply andb_true_iff in Hb as [_ Hb]. }
  split; [|unfold start_sum; by rewrite map_map]. apply Forall_map. eapply Forall_impl; [exact Hl|]. clear Hl Hs. intros b Hb.
  unfold backend_sane in Hb. apply andb_true_iff in Hb as [Hb Hw], Hb as [Hd Ho]. apply andb_true_iff in Hp as [Hmin Hmax].
  pose proof (moderate_mul _ _ Hmin Hd) as Hlo. pose proof (moderate_mul _ _ Hmax Hd) as Hhi. fold (lowest p b) in Hlo. fold (highest p b) in Hhi.
  assert (Hin : within p (clamp p c b)).
  { unfold within, clamp, lowest, highest. cbn [w2_weight w2_descr set_w2]. fold (lowest p b) (highest p b).
    apply negb_true_iff in Ho. pose proof (nonneg_nan _ (posfin_nonneg _ Hlo)) as Nlo. pose proof (nonneg_nan _ (posfin_nonneg _ Hhi)) as Nhi.
    pose proof (mul_nan _ _ Hw Hc) as Nx. set (x := (w2_weight b * c)%double) in *. unfold Max. destruct (dlt x (lowest p b)) eqn:E1; unfold Min.
    - rewrite Ho, !dle_iff, Ho, dlt_irrefl. done.
    - destruct (dlt (highest p b) x) eqn:E2; rewrite !dle_iff, ?Ho, ?E1, ?E2, ?dlt_irrefl; done. }
  split; [done|]. unfold backend_sane. change (w2_descr (clamp p c b)) with (w2_descr b). rewrite Hd.
  change (highest p (clamp p c b)) with (highest p b). change (lowest p (clamp p c b)) with (lowest p b). rewrite Ho.
  destruct Hin as [H1 H2]. by apply (posfin_between (lowest p b) _ (highest p b)).
Qed.

(** The restrictions, when they do not cross. *)
Lemma restrict_in_order p last x : is_nan (MinWeight_ p) = false -> is_nan (MaxWeight_ p) = false -> dlt (upper p last) (lower p last) = false ->
  dle (lower p last) (restrict p last x) = true /\ dle (restrict p last x) (upper p last) = true /\
  dle (MinWeight_ p) (restrict p last x) = true /\ dle (restrict p last x) (MaxWeight_ p) = true.
Proof.
  intros Hmin Hmax Ho. assert (Hl : dle (MinWeight_ p) (lower p last) = true) by (by apply Max_dle). assert (Hu : dle (upper p last) (MaxWeight_ p) = true) by (by apply Min_dle).
  pose proof Hl as (_ & Nl & _)%dle_iff. pose proof Hu as (Nu & _ & _)%dle_iff.
  assert (H1 : dle (lower p last) (restrict p last x) = true) by (by apply Max_dle).
  assert (H2 : dle (restrict p last x) (upper p last) = true) by (unfold restrict, Max; destruct (dlt (lower p last) _); [by apply Min_dle|by rewrite dle_iff]).
  split; [done|]. split; [done|]. split; by eapply dle_trans.
Qed.

Lemma restrict_short p last first second avg cur : params_sane p = true -> short (restrict p last (raw_weight p first second avg cur)) = true.
Proof.
  intros [[_ H1]%moderate_number [_ H2]%moderate_number]%andb_true_iff.
  assert (Hm : forall x y, short x = true -> short y = true -> short (Max x y) = true /\ short (Min x y) = true) by (intros x y; unfold Max, Min; destruct (dlt _ _), (dlt _ _); auto).
  unfold restrict, upper, lower. apply Hm; [apply Hm; [|apply Hm; [apply short_mul|done]]|apply Hm; [apply short_mul|done]].
  unfold raw_weight. apply short_add; [apply short_div|apply short_mul].
Qed.

Lemma Correct_shape p avg cur (b : w2_backend (IModule := IModule)) (w : W) x b' w' : Correct p avg cur b w = Some (x, b', w') ->
  (exists first second, x = restrict p (LastCheckedWeight_ b) (raw_weight p first second avg cur)) /\
  w2_descr b' = w2_descr b /\ w2_weight b' = w2_weight b /\ (LastCheckedWeight_ b' = LastCheckedWeight_ b \/ LastCheckedWeight_ b' = x).
Proof.
  unfold Correct. destruct (read_clock w) as [now w1]. destruct (limited_get _ _ _) as [[[first second] q]|]; [|done].
  destruct (read_clock w1) as [now2 w2]. destruct (_ <? _)%Z; [destruct (read_clock w2) as [now3 w3]|]; intros [= <- <- _]; (split; [by eexists _, _|]; auto).
Qed.

Lemma sum_quality_map {A} (f : w2_backend (IModule := IModule) -> A) : (forall b q, f (set_quality b q) = f b) ->
  forall l sum total (w : W) sum' total' l' w', sum_quality l sum total w = Some (sum', total', l', w') -> map f l' = map f l.
Proof.
  intros Hf. induction l as [|b l IH]; intros sum total w sum' total' l' w' E; cbn [sum_quality] in E; [by injection E as _ _ <- _|].
  destruct (read_clock w) as [now w1]. destruct (limited_get _ _ _) as [[[x n] q]|]; [|done].
  destruct (sum_quality l _ _ w1) as [[[[x1 n1] l1] w2]|] eqn:El; [|done]. injection E as _ _ <- _. cbn. by rewrite Hf, (IH _ _ _ _ _ _ _ El).
Qed.

Lemma zset_map {A B} (f : A -> B) l i x y l' : zget l i = Some x -> zset l i y = Some l' -> f y = f x -> map f l' = map f l.
Proof.
  intros Ex Ey Hf. apply zset_inv in Ey as [_ ->]. unfold zget in Ex. destruct (0 <=? i)%Z; [|done].
  change (map f) with (fmap (M := list) f). rewrite list_fmap_insert, Hf. apply list_insert_id. by rewrite list_lookup_fmap, Ex.
Qed.

Lemma zget_map {A B} (f : A -> B) l i : zget (map f l) i = f <$> zget l i.
Proof. unfold zget. destruct (0 <=? i)%Z; [|done]. apply list_lookup_fmap. Qed.

(** A report in a sane state, for a back end whose restrictions do not cross. *)
Lemma w2_request_in_order i x ok s (w : W) s' w' :
  w2_request i x ok s w = Some (s', w') -> CorrectionParams_ s' = CorrectionParams_ s /\
  (w2_sane s = true -> (forall b, zget (w2_list s) i = Some b -> dlt (upper (CorrectionParams_ s) (LastCheckedWeight_ b)) (lower (CorrectionParams_ s) (LastCheckedWeight_ b)) = false) ->
   w2_sane s' = true /\ Forall (within (CorrectionParams_ s)) (w2_list s')).
Proof.
  unfold w2_request. destruct (read_clock w) as [now w1]. destruct (zget (w2_list s) i) as [b|] eqn:Eb; [|done].
  destruct (limited_add _ _ _ _) as [q|]; [|done]. destruct (zset (w2_list s) _ _) as [l1|] eqn:E1; [|done]. unfold GetAvgQuality.
  destruct (sum_quality l1 _ _ w1) as [[[[sum total] l2] w2]|] eqn:E2; [|done]. destruct (zget l2 i) as [b2|] eqn:Eb2; [|done].
  set (p := CorrectionParams_ s). destruct (Correct p _ _ b2 w2) as [[[y b3] w3]|] eqn:Ec; [|done]. destruct (zset l2 _ _) as [l3|] eqn:E3; [|done].
  destruct (update _ _ _) as [l5|] eqn:E5; [|done]. intros [= <- _]. cbn [CorrectionParams_ w2_list]. split; [done|]. intros Hs Ho. specialize (Ho b eq_refl).
  unfold w2_sane in Hs. fold p in Hs. apply andb_true_iff in Hs as [[Hp Hsum]%andb_true_iff Hl]. apply forallb_Forall in Hl.
  assert (Hm : forall A (f : w2_backend -> A), (forall b q, f (set_quality b q) = f b) -> map f l2 = map f (w2_list s) /\ f b2 = f b).
  { intros A f Hf. assert (E : map f l2 = map f (w2_list s)) by (rewrite (sum_quality_map f Hf _ _ _ _ _ _ _ _ E2); by apply (zset_map f _ _ _ _ _ Eb E1)).
    split; [done|]. pose proof (zget_map f l2 i) as G. rewrite E, zget_map, Eb, Eb2 in G. by injection G. }
  apply Correct_shape in Ec as ((first & second & Ey) & Ed & _ & _).
  destruct (Hm _ (backend_sane p) (fun _ _ => eq_refl)) as [Hl2 Hb2]. destruct (Hm _ LastCheckedWeight_ (fun _ _ => eq_refl)) as [_ Hlast]. rewrite Hlast in Ey.
  destruct (Hm _ (fun b => Weight_ (w2_descr b)) (fun _ _ => eq_refl)) as [Hsum2 _].
  pose proof (zget_Forall _ _ _ _ Hl Eb) as Hb. cbn beta in Hb. rewrite <- Hb2 in Hb. clear Hb2.
  assert (Fl2 : Forall (fun b => backend_sane p b = true) l2) by (apply (Forall_map (backend_sane p) (fun x => x = true)); rewrite Hl2; by apply (Forall_map (backend_sane p) (fun x => x = true))).
  pose proof Hp as [Hmin Hmax]%andb_true_iff. destruct (moderate_number _ Hmin) as [Nmin _], (moderate_number _ Hmax) as [Nmax _].
  match type of Ey with _ = restrict _ _ ?r => destruct (restrict_in_order p (LastCheckedWeight_ b) r Nmin Nmax Ho) as (_ & _ & H1 & H2) end. rewrite <- Ey in H1, H2.
  assert (Hy : moderate y = true) by (apply (moderate_between (MinWeight_ p) y (MaxWeight_ p)); try done; rewrite Ey; by apply restrict_short).
  set (b3' := set_w2 b3 _) in E3. assert (Hb3 : backend_sane p b3' = true).
  { unfold backend_sane, lowest, highest in *. subst b3'. cbn [w2_descr w2_weight set_w2]. rewrite Ed. apply andb_true_iff in Hb as [[Hd ->]%andb_true_iff _]. rewrite Hd. cbn [andb].
    destruct ok; [by apply moderate_mul|by apply moderate_posfin]. }
  pose proof (zset_Forall (fun b => backend_sane p b = true) _ _ _ _ Fl2 Hb3 E3) as Fl3.
  assert (Hsum3 : start_sum l3 = start_sum (w2_list s)).
  { unfold start_sum. rewrite <- Hsum2. f_equal. apply (zset_map (fun b => Weight_ (w2_descr b)) _ _ _ _ _ Eb2 E3). subst b3'. cbn. by rewrite Ed. }
  rewrite <- Hsum3 in Hsum. destruct (w2_normalize_in_order p l3 Hp Hsum Fl3) as [Fl4 Hsum4]. unfold update in E5. destruct (zget (w2_normalize p l3) i) as [b4|] eqn:Eb4; [|done].
  pose proof (zget_Forall _ _ _ _ Fl4 Eb4) as Hb4. assert (Fl5 : Forall (fun b => within p b /\ backend_sane p b = true) l5) by (eapply zset_Forall; [exact Fl4| |exact E5]; exact Hb4). apply Forall_and in Fl5 as [F1 F2]. split; [|done].
  unfold w2_sane. cbn [CorrectionParams_ w2_list]. fold p. rewrite Hp, (proj2 (forallb_Forall _ _) F2), andb_true_r. cbn [andb].
  assert (start_sum l5 = start_sum l3) as ->; [|done]. rewrite <- Hsum4. unfold start_sum. f_equal. exact (zset_map (fun b => Weight_ (w2_descr b)) _ _ _ _ _ Eb4 E5 eq_refl).
Qed.
End w2.

(** ** Requests in a row *)

Section serve.
Context {W B : Type} {HB : IBackEnds W B} {HS : BackEndsSpec W B}.
Context {I : Type} {HI : IIoInput I} {HW : World W}.
Context (Run : Z -> TRewindAbleInput I -> W -> run_result I W).

Lemma new_iter_ok array : zlen array = ATTEMPTS -> iter_ok (new_iter array) /\ tried (new_iter array) = [].
Proof. intros Ha. split; [split; [done|unfold ATTEMPTS; cbn; lia]|by unfold tried]. Qed.

Lemma serve_inv fuel array requests : forall m w rs m' w',
  run_sane Run -> zlen array = ATTEMPTS -> policy_inv (BackEnds_ m) -> serve Run fuel array requests m w = Some (rs, m', w') ->
  policy_inv (BackEnds_ m') /\ backends (BackEnds_ m') = backends (BackEnds_ m) /\ MaxAttempts_ m' = MaxAttempts_ m.
Proof.
  induction requests as [|[hash slave] requests IH]; intros m w rs m' w' Hrun Ha Hm; cbn [serve]; [by intros [= <- <- <-]|].
  destruct (DoRun _ _ _ _ _ _ _) as [[[[r logs] m1] w1]|] eqn:E1; [|done].
  destruct (serve _ _ _ _ _ _) as [[[rs1 m2] w2]|] eqn:E2; [|done]. intros [= <- <- <-].
  destruct (run_loop_spec Run _ _ _ _ _ _ _ _ _ _ _ Hrun Hm (proj1 (new_iter_ok array Ha)) E1) as (H1 & H2 & H3 & _).
  destruct (IH _ _ _ _ _ Hrun Ha H1 E2) as (H4 & H5 & H6). by rewrite H5, H6.
Qed.
End serve.

(** The search for a back end leaves the array as it is. *)
Lemma next_loop_keeps {W B : Type} {HB : IBackEnds W B} fuel hash : forall it (s : B) (w : W) next it' s' w',
  next_loop fuel hash it s w = Some (next, it', s', w') -> Attempts_ it' = Attempts_ it /\ BModule.Cur_ it' = BModule.Cur_ it.
Proof.
  induction fuel as [|fuel IH]; intros it s w next it' s' w'; cbn [next_loop]; [done|].
  destruct (DoNext _ s w) as [[[b s1] w1]|]; [|done]. destruct (_ && _); [intros H; by apply IH in H|by intros [= _ <- _ _]].
Qed.

(** ** A back end that is free *)

(** When the first back end of the order costs nothing, it stays the first: once it
    was tried, the search for another one never ends. *)
Lemma free_backend_stuck {IModule W : Type} (s : TBackEnds (B := rr_backend (IModule := IModule))) b :
  robin_next rr_weight rr_inc s = Some (b, s) ->
  forall fuel hash it (w : W), Some b ∈ tried it -> BModule.Cur_ it < zlen (List_ s) -> next_loop fuel hash it s w = None.
Proof.
  intros Hs. induction fuel as [|fuel IH]; intros hash it w Hb Hc; cbn [next_loop]; [done|].
  cbn [DoNext rr_backends]. rewrite Hs. cbn [Attempts_ BModule.Cur_]. unfold AlreadyHave.
  rewrite bool_decide_eq_true_2 by done. cbn [Size rr_backends]. unfold robin_size.
  rewrite (proj2 (Z.ltb_lt _ _)) by done. by apply IH.
Qed.
