(* ===== verification/BExample.v ===== *)
(** * Balancer: a small installation

    Whole numbers as weights, every module name loads, a clock that advances with
    every reading and a request body in two chunks.  Two modules: the one called
    [broken] answers 502, the others answer. *)

From Stdlib Require Import ZArith Lia Bool String Ascii.
From stdpp Require Import base numbers list gmap strings.
From S2P Require Import Prelude AvlTree Double Random BConfig BTrackers BArbiter BPolicy BRobin BWeighted BWeighted2 BModule BRun BConfigured.
Local Open Scope string_scope.
Local Open Scope Z_scope.

(** Decimal numbers. *)
Fixpoint decimal (s : string) (acc : Z) : option Z :=
  match s with
  | EmptyString => Some acc
  | String c s =>
      let d := Z.of_N (N_of_ascii c) - 48 in
      if (0 <=? d) && (d <=? 9) then decimal s (10 * acc + d) else None
  end.

Definition parse_decimal (s : string) : option Z := if String.eqb s "" then None else decimal s 0.

#[export] Instance example_env : Env string := {
  parse_double s := of_Z <$> parse_decimal s;
  parse_size := parse_decimal;
  parse_duration := parse_decimal;
  load_module name _ := Ret (Some name)
}.

(** The world is its clock; the generator returns a fixed word. *)
#[export] Instance example_world : World Z := {
  gen64 t := (2 ^ 63, t);
  read_clock t := (u64 t, t + 1000)
}.

#[export] Instance example_input : IIoInput (list chunk) := fun l =>
  match l with [] => ([], []) | c :: l => ([c], l) end.

Definition backend (weight module : string) : value :=
  VTable (Config [("weight", VString weight); (module, VTable (Config []))]).

Definition example_memory : memory :=
  mk_memory (fun n => 1000 + 100 * Z.of_nat n) (replicate 100 (of_Z 0)) (fun _ => 0) (0, 0)
    (mk_garbage (replicate 1000 (of_Z 0)) (replicate 1000 0) (of_Z 0) 0 0).

Lemma example_memory_ok : memory_ok example_memory.
Proof. split; [intros a b H; cbn in H; lia|done|done]. Qed.

(** Three back ends under round robin, the first of them broken. *)
Definition rr_table : config := Config [("1", backend "1" "broken"); ("2", backend "2" "proxy"); ("3", backend "3" "proxy")].

Definition rr_config (attempts : string) : config := Config [("attempts", VString attempts); ("rr", VTable rr_table)].

(** The back end at the first address fails before it writes. *)
Definition example_run (b : Z) (input : TRewindAbleInput (list chunk)) (w : Z) : run_result (list chunk) Z :=
  let '(_, input) := rewind_recv input in
  if b =? 1000 then mk_run input 0 (Some (THttpError 502)) (w + 500)
  else mk_run input 1 None (w + 700).

Lemma example_run_sane : run_sane example_run.
Proof. intros b i w. unfold example_run. destruct (rewind_recv i) as [got i']. destruct (b =? 1000); cbn; lia. Qed.

Definition the_module (c : config) : option (TModule (policy string) * Z) :=
  match make_module example_memory c 0 with
  | Ret (Some m, w) => Some (m, w)
  | _ => None
  end.

Definition array : list (option Z) := replicate 16 None.
