(* ===== verification/BTheorems.v ===== *)
(** * Balancer: the theorems

    What the parts of the balancer promise, each with an application to a small
    installation ([BExample]) where it has hypotheses. *)

From Stdlib Require Import ZArith Lia Bool String Sorted.
From stdpp Require Import base numbers list gmap strings.
From S2P Require Import Prelude AvlTree AvlIter Double Random BConfig BTrackers BArbiter BPolicy BRobin BWeighted BWeighted2 BModule BRun BConfigured BParts BExample.

(** ** The tree *)

(** C10: for every comparison that orders the items by their addresses, any
    sequence of [Insert] and [Erase] runs without undefined behaviour and leaves the
    items of the ordered list that the sequence describes; [Begin] is the least of
    them, [LowerBound] the first that is not below its argument, [Find] the one that
    is neither below nor above it; [ForEach] visits them in order and the walk from
    [Last] in the reverse order; the destructor unlinks them all; the height is at
    most twice the binary logarithm of their number plus one. *)
Theorem avl_refines {A : Type} (Compare : A -> A -> bool) (addr : A -> Z) (good : A -> Prop)
    (HO : CompareOrder Compare addr good) (os : list avl_op) :
  Forall (fun o => good (op_item o)) os ->
  exists t, run_ops Compare addr os empty_avl = Some t /\
    elements (Root_ t) = fold_left (fun l o => spec_op Compare addr o l) os [] /\
    StronglySorted (fun x y => Compare x y = true) (elements (Root_ t)) /\
    Begin t = head (elements (Root_ t)) /\
    (forall el, good el -> let from := filter (fun x => Compare x el = false) (elements (Root_ t)) in
      LowerBound Compare el t = head from /\
      Find Compare el t = match from with x :: _ => if Compare el x then None else Some x | [] => None end) /\
    (let n := length (elements (Root_ t)) in
      AvlIter.ForEach addr n (Begin t) t = Some (elements (Root_ t)) /\
      walk_back addr n (Last t) t = Some (rev (elements (Root_ t))) /\
      exists t', destroy addr n (Begin t) t = Some t' /\ Root_ t' = Leaf) /\
    2 ^ (height (Root_ t) / 2) <= zlen (elements (Root_ t)) + 1.
Proof.
  intros Hg. destruct (run_ops_ok Compare addr good os empty_avl (empty_inv Compare addr good) Hg) as (t & Et & Hinv & El).
  pose proof Hinv as [H1 H2 H3 H4 H5 H6 _]. exists t. split_and!; try done; [| |by apply height_log].
  - intros el Hel. cbn zeta. destruct (lower_loop_ok Compare addr good el (Root_ t) None Hel H2 H3 H4) as [E1 E2].
    unfold LowerBound, Find. rewrite E1, E2. unfold first_from. by destruct (filter _ _).
  - cbn zeta. unfold Begin, Last. rewrite H5, H6. split; [by apply (ForEach_from addr Compare good t _ [])|].
    split; [by apply (walk_back_from addr Compare good t _ []); [|rewrite app_nil_r|]|].
    destruct (destroy_ok addr Compare good _ t _ Hinv eq_refl (Nat.le_refl _)) as (t' & E1 & _ & E2). by exists t'.
Qed.

(** Four numbers, one of them inserted twice and one erased. *)
Definition tree_ops : list (avl_op (A := Z)) := [OpInsert 3; OpInsert 1; OpInsert 2; OpInsert 4; OpInsert 1; OpErase 2].

#[export] Instance ltb_order : CompareOrder Z.ltb id (fun _ => True).
Proof.
  split.
  - intros. apply Z.ltb_irrefl.
  - intros x y z _ _ _ H1 H2. b2p. lia.
  - intros x y _ _ H. cbn in H. rewrite !Z.ltb_lt. lia.
Defined.

Lemma avl_refines_witness :
  exists t, run_ops Z.ltb id tree_ops empty_avl = Some t /\
    elements (Root_ t) = [1; 3; 4] /\ Begin t = Some 1 /\ LowerBound Z.ltb 2 t = Some 3.
Proof.
  destruct (avl_refines Z.ltb id (fun _ => True) ltb_order tree_ops) as (t & E1 & E2 & _ & E3 & E4 & _); [by repeat constructor|].
  exists t. split; [exact E1|]. rewrite E3, (proj1 (E4 2 Logic.I)), E2. split; [reflexivity|]. split; reflexivity.
Defined.

(** ** Round robin *)

(** C11: round robin with positive whole weights is fair: after [n] choices from a
    new state, the uses of any two back ends times their weights differ by at most
    the weight of the second.  A larger weight means fewer requests. *)
Theorem round_robin_fair {IModule : Type} {E : Env IModule} (pool : nat -> Z) (top : Z) (c : config)
    (s : TBackEnds (B := rr_backend)) (n : nat) :
  Inj (=) (=) pool -> 0 < top -> items c <> [] -> integral_weights top c -> (1 + Z.of_nat n) * top < 2 ^ 53 ->
  CreateRoundRobin pool c = Ret (Some s) ->
  exists step l s', rr_run n s = Some (l, s') /\ length l = n /\ Forall (fun b => b ∈ List_ s) l /\
    (forall b x, store s !! b = Some x -> Weight_ (rr_descr x) = of_Z (step b)) /\
    forall i j, i ∈ List_ s -> j ∈ List_ s -> uses i l * step i <= (uses j l + 1) * step j.
Proof.
  intros Hp Ht Hne Hi Hb Hs. destruct (create_fair pool top c s Hp ltac:(nia) Hi Hs) as (step & Hf & Hst & El).
  assert (Hle : forall b, b ∈ List_ s -> step b <= top).
  { intros b Hbb. destruct (fi_weight _ _ _ Hf b Hbb) as (x & Ex & _). by apply (Hst b x). }
  destruct (fair_run n step (fun _ => 0) s Hf) as (l & s' & H1 & H2 & H3 & El' & [_ _ _ H4]).
  { rewrite El. by apply list_of_items. }
  { intros b Hbb. specialize (Hle b Hbb). destruct (fi_pos _ _ _ Hf b Hbb). nia. }
  exists step, l, s'. split_and!; try done; [intros b x Ex; by apply (Hst b x)|].
  intros i j Hi' Hj. specialize (H4 i j). rewrite El' in H4. by apply H4.
Qed.

Definition rr_start : option (TBackEnds (B := rr_backend)) :=
  match CreateRoundRobin (pool example_memory) rr_table with Ret s => s | _ => None end.

Definition rr_state : TBackEnds (B := rr_backend) :=
  match rr_start with Some s => s | None => empty_robin end.

Lemma rr_state_eq : CreateRoundRobin (pool example_memory) rr_table = Ret (Some rr_state).
Proof. vm_compute. reflexivity. Qed.

Lemma rr_table_weights : integral_weights 3 rr_table.
Proof.
  intros k v sub d Hin. cbn in Hin. repeat (apply elem_of_cons in Hin as [[= -> ->]|Hin]; [|]); [..|by apply elem_of_nil in Hin].
  all: cbn; intros [= <-]; cbn; intros [= <-]; cbn.
  - by exists 1.
  - by exists 2.
  - by exists 3.
Qed.

Lemma round_robin_fair_witness :
  exists step l s', rr_run 22 rr_state = Some (l, s') /\ length l = 22%nat /\
    (forall i j, i ∈ List_ rr_state -> j ∈ List_ rr_state -> uses i l * step i <= (uses j l + 1) * step j) /\
    map (fun b => uses b l) (List_ rr_state) = [12; 6; 4].
Proof.
  destruct (round_robin_fair (pool example_memory) 3 rr_table rr_state 22) as (step & l & s' & E1 & E2 & _ & _ & E3);
    [exact (mo_pool _ example_memory_ok)|lia|done|exact rr_table_weights|lia|exact rr_state_eq|].
  exists step, l, s'. split; [exact E1|]. split; [exact E2|]. split; [exact E3|]. clear E2 E3.
  assert (E4 : match rr_run 22 rr_state with Some (l, _) => map (fun b => uses b l) (List_ rr_state) | None => [] end = [12; 6; 4])
    by (vm_compute; reflexivity).
  rewrite E1 in E4. exact E4.
Defined.

(** A policy of one of the two round robins as its constructor leaves it, with the
    greatest cost of a use. *)
Inductive new_robin {IModule : Type} {E : Env IModule} (pool : nat -> Z) (c : config) : policy IModule -> Z -> Prop :=
  | new_rr top s : 0 < top -> integral_weights top c -> CreateRoundRobin pool c = Ret (Some s) -> new_robin pool c (PRobin s) top
  | new_srr garbage s : CreateSmartRoundRobin pool garbage c = Ret (Some s) -> new_robin pool c (PSmart s) 64.

(** C9: requests under the two round robins end.  For round robin with positive
    whole weights of at most [top] and for smart round robin ([top] is 64, whatever
    its states), with at most 16 attempts per request and any behaviour of the
    modules, every request of a sequence is answered, whatever the hashes and the
    bodies, as long as the accumulated weights stay exact: [fuel], which bounds the
    search for an untried back end, need only exceed twice the number of back ends
    times [top]. *)
Theorem round_robin_requests_end {IModule W I : Type} {E : Env IModule} {HW : World W}
    (Run : Z -> TRewindAbleInput I -> W -> run_result I W) (pool : nat -> Z) (top : Z) (c : config)
    (p : policy IModule) (fuel : nat) (array : list (option Z)) (requests : list (Z * I))
    (arbiter : IReAskArbiter) (attempts incomplete : Z) (w : W) :
  Inj (=) (=) pool -> items c <> [] -> new_robin pool c p top ->
  zlen array = ATTEMPTS -> 0 <= attempts <= ATTEMPTS ->
  zlen (items c) * (2 * top) < Z.of_nat fuel -> (1 + zlen requests * (ATTEMPTS * Z.of_nat fuel)) * top < 2 ^ 53 ->
  exists rs m' w', serve Run fuel array requests (mk_module p arbiter attempts incomplete) w = Some (rs, m', w') /\
    length rs = length requests.
Proof.
  intros Hp Hne Hnew Ha Hat Hf Hb. pose proof (zlen_nonneg requests). destruct Hnew as [top s Ht Hi Hs|garbage s Hs].
  - assert (0 < top < 2 ^ 53) by (unfold ATTEMPTS in *; nia).
    destruct (create_live pool top c s Hp ltac:(done) Hne Hi Hs) as (wt & Hl & Hle & El).
    destruct (live_serve Run fuel array requests wt (mk_module s arbiter attempts incomplete) w Hl) as (rs & m' & w' & E1 & Hlen);
      [done|done|cbn; by rewrite El|cbn; intros b Hbb; specialize (Hle b Hbb); unfold ATTEMPTS in *; nia|].
    exists rs, (embed PRobin m'), w'. split; [|done].
    exact (eq_trans (serve_embed Run PRobin robin_passes fuel array requests (mk_module s arbiter attempts incomplete) w)
      (f_equal (fun o => let* (rs, m, w) := o in Some (rs, embed PRobin m, w)) E1)).
  - destruct (create_smart_live pool garbage c s Hp Hne Hs) as (Hl & El).
    destruct (live_serve Run fuel array requests (fun _ => 1) (mk_module s arbiter attempts incomplete) w Hl) as (rs & m' & w' & E1 & Hlen);
      [done|done|cbn; by rewrite El|cbn; intros b Hbb; unfold ATTEMPTS in *; nia|].
    exists rs, (embed PSmart m'), w'. split; [|done].
    exact (eq_trans (serve_embed Run PSmart smart_passes fuel array requests (mk_module s arbiter attempts incomplete) w)
      (f_equal (fun o => let* (rs, m, w) := o in Some (rs, embed PSmart m, w)) E1)).
Qed.

Lemma round_robin_requests_end_witness :
  exists rs m' w', serve example_run 20 array [(0, [[1]; [2]]); (5, [])] (mk_module (PRobin rr_state) TFakeArbiter 3 0) 0 = Some (rs, m', w') /\
    length rs = 2%nat.
Proof.
  apply (round_robin_requests_end example_run (pool example_memory) 3 rr_table (PRobin rr_state) 20 array [(0, [[1]; [2]]); (5, [])] TFakeArbiter 3 0 0);
    first [exact (mo_pool _ example_memory_ok)|apply new_rr; [lia|exact rr_table_weights|exact rr_state_eq]|done].
Defined.

(** A back end of weight 0 next to one of weight 1. *)
Definition zero_table : config := Config [("1"%string, backend "0" "broken"); ("2"%string, backend "1" "proxy")].

Definition zero_state : TBackEnds (B := rr_backend) :=
  match CreateRoundRobin (pool example_memory) zero_table with Ret (Some s) => s | _ => empty_robin end.

Definition zero_module : TModule (TBackEnds (B := rr_backend)) := mk_module zero_state TFakeArbiter 2 0.

(** What is left of the module after the first attempt. *)
Definition zero_left : TBackEnds (B := rr_backend) :=
  match iter_next 1 0 (new_iter array) zero_state 0 with
  | Some (Some b, _, s, _) => match robin_update rr_failed b s with Some s => s | None => empty_robin end
  | _ => empty_robin
  end.

Lemma zero_left_stuck : robin_next rr_weight rr_inc zero_left = Some (1000, zero_left).
Proof. vm_compute. reflexivity. Qed.

(** a back end of weight 0 under round robin hangs a request: it is always the
    first, and once it has failed no number of steps of the search for another back
    end is enough, although a second one is there. *)
Theorem zero_weight_hangs (fuel : nat) : DoRun example_run fuel array 0 [[1]; [2]] zero_module 0 = None.
Proof.
  destruct fuel as [|fuel]; [reflexivity|]. unfold DoRun. change (Z.to_nat (MaxAttempts_ zero_module)) with 2%nat. cbn [run_loop].
  assert (E1 : iter_next (S fuel) 0 (new_iter array) zero_state 0 =
    match iter_next 1 0 (new_iter array) zero_state 0 with Some r => Some r | None => None end) by (vm_compute; reflexivity).
  change (BackEnds_ zero_module) with zero_state. rewrite E1. clear E1.
  assert (E2 : exists it s, iter_next 1 0 (new_iter array) zero_state 0 = Some (Some 1000, it, s, 0) /\
    robin_update rr_failed 1000 s = Some zero_left /\ tried it = [Some 1000] /\ BModule.Cur_ it = 1).
  { eexists _, _. split; [vm_compute; reflexivity|]. split; [vm_compute; reflexivity|]. split; reflexivity. }
  destruct E2 as (it & s & -> & Eu & Et & Ec). cbn [read_clock example_world].
  cbn -[next_loop iter_next robin_update]. rewrite Eu. unfold iter_next at 1. cbn [BackEnds_].
  rewrite (free_backend_stuck zero_left 1000 zero_left_stuck); [done|rewrite Et; by left|rewrite Ec; done].
Qed.

(** ** A request *)

(** C8: what a request to a configured module does.  For every configuration that
    builds a module with a policy that chooses without [abort()], after any requests
    it has served, a request that ends makes at most the configured number of
    attempts; no two of them go to one back end until all back ends were tried; only
    attempts that failed with an error worth repeating and wrote nothing are
    followed by another; the caller sees the result of the last attempt, or 503 when
    the attempts are used up; the arbiter hears the verdict of each attempt. *)
Theorem request_outcome {IModule W I : Type} {HW : World W} {E : Env IModule} {HI : IIoInput I}
    (Run : Z -> TRewindAbleInput I -> W -> run_result I W) (mem : memory) (c : config) (w0 w1 w2 w3 : W) (fuel : nat)
    (array : list (option Z)) (earlier : list (Z * I)) (rs : list (res unit)) (m0 m m' : TModule (policy IModule))
    (hash : Z) (slave : I) (r : res unit) (logs : list attempt_log) :
  memory_ok mem -> robin_weights c -> make_module mem c w0 = Ret (Some m0, w1) -> choosing (BackEnds_ m0) = true ->
  run_sane Run -> zlen array = ATTEMPTS -> serve Run fuel array earlier m0 w1 = Some (rs, m, w2) ->
  DoRun Run fuel array hash slave m w2 = Some (r, logs, m', w3) ->
  outcome_ok (Z.to_nat (MaxAttempts_ m0)) r logs m m' /\
  Forall (fun l => log_backend l ∈ policy_members (W := W) (BackEnds_ m0)) logs /\
  forall pre x post, logs = pre ++ x :: post -> zlen pre < zlen (policy_members (W := W) (BackEnds_ m0)) ->
    log_backend x ∉ map log_backend pre.
Proof.
  intros Hmem Hw Hm Hch Hrun Ha Hs Hd. destruct (make_module_ok mem c w0 m0 w1 Hmem Hw Hm Hch) as [Hinv _].
  destruct (serve_inv Run fuel array earlier m0 w1 rs m w2 Hrun Ha Hinv Hs) as (Hinv' & Eb & Em). destruct (new_iter_ok array Ha) as [Hit Et].
  unfold DoRun in Hd. rewrite Em in Hd.
  destruct (run_loop_spec Run _ _ _ _ _ _ _ _ _ _ _ Hrun Hinv' Hit Hd) as (_ & _ & _ & H1 & H2 & H3). rewrite Eb in H3.
  split; [done|]. split; [done|]. intros pre x post El Hlt Hin. rewrite Et in H2.
  apply (H2 pre x post El).
  - rewrite (size_ok _ Hinv'), Eb. exact Hlt.
  - cbn. rewrite <- (map_map log_backend Some). apply list_elem_of_In, in_map, list_elem_of_In. done.
Qed.

Definition rr_module : TModule (policy string) := mk_module (PRobin rr_state) TFakeArbiter 3 0.

Lemma rr_module_eq : make_module example_memory (rr_config "3") 0 = Ret (Some rr_module, 0).
Proof. vm_compute. reflexivity. Qed.

Lemma rr_config_weights a : robin_weights (rr_config a).
Proof.
  intros v sub Hin Hs k v' sub' d H1 H2 H3. cbn in Hin. apply elem_of_cons in Hin as [[=]|Hin].
  apply elem_of_cons in Hin as [[= ->]|Hin]; [|by apply elem_of_nil in Hin]. injection Hs as <-.
  destruct (rr_table_weights k v' sub' d H1 H2 H3) as (n & Hn & ->). apply nonneg_of_Z. lia.
Qed.

(** The first of the attempts fails, the second one succeeds. *)
Lemma request_outcome_witness :
  exists rs m w2 r logs m' w3, serve example_run 20 array [(5, [])] rr_module 0 = Some (rs, m, w2) /\
    DoRun example_run 20 array 0 [[1]; [2]] m w2 = Some (r, logs, m', w3) /\ outcome_ok 3 r logs m m' /\
    r = Ret tt /\ map log_backend logs = [1000; 1200].
Proof.
  destruct (serve example_run 20 array [(5, [])] rr_module 0) as [[[rs m] w2]|] eqn:E1; [|vm_compute in E1; discriminate E1].
  destruct (DoRun example_run 20 array 0 [[1]; [2]] m w2) as [[[[r logs] m'] w3]|] eqn:E2.
  2:{ vm_compute in E1. injection E1 as <- <- <-. vm_compute in E2. discriminate E2. }
  exists rs, m, w2, r, logs, m', w3. split; [done|]. split; [exact E2|].
  pose proof (request_outcome example_run example_memory (rr_config "3") 0 0 w2 w3 20 array [(5, [])] rs rr_module m m' 0 [[1]; [2]] r logs
    example_memory_ok (rr_config_weights "3") rr_module_eq eq_refl example_run_sane eq_refl E1 E2) as [H _].
  split; [exact H|]. clear H. vm_compute in E1. injection E1 as <- <- <-. vm_compute in E2. injection E2 as <- <- _ _.
  split; reflexivity.
Defined.

(** the array of attempts has 16 elements and its index is not checked.  A
    seventeenth attempt writes outside it, for every policy; with [attempts] set to 17
    and modules that all fail a request comes to it, while with 16 it answers 503. *)
Theorem seventeenth_attempt_overruns {W B : Type} {HB : IBackEnds W B} (fuel : nat) (hash : Z) (it : TConnIterator) (s : B) (w : W) :
  iter_ok it -> BModule.Cur_ it = ATTEMPTS ->
  iter_next fuel hash it s w = None /\
  (let broken (b : Z) (i : TRewindAbleInput (list chunk)) (w : Z) := mk_run i 0 (Some (THttpError 502)) w in
   let answers (attempts : string) := let* (m, w) := the_module (rr_config attempts) in
     let* (r, _, _, _) := DoRun broken 20 array 0 [] m w in Some r in
   answers "16"%string = Some (Throw (THttpError 503)) /\ answers "17"%string = None).
Proof.
  intros [Hl _] Hc. split; [|split; vm_compute; reflexivity].
  unfold iter_next. destruct (next_loop fuel hash it s w) as [[[[next it'] s'] w']|] eqn:En; [|done].
  destruct (next_loop_keeps fuel hash it s w _ _ _ _ En) as [-> ->]. destruct (zset _ _ _) as [a|] eqn:Ez; [|done]. apply zset_inv in Ez as [Hb _]. lia.
Qed.

(** An iterator that has tried 16 back ends. *)
Definition full_iter : TConnIterator := mk_iter (replicate 16 (Some 1000)) 16 16.

Lemma seventeenth_attempt_overruns_witness : iter_next 20 0 full_iter rr_module.(BackEnds_) 0 = None.
Proof. apply (seventeenth_attempt_overruns 20 0 full_iter (BackEnds_ rr_module) 0); [split; done|done]. Defined.

(** ** The streams *)

(** C13: the input that the balancer hands to a module replays the connection and then goes
    on.  After any reads and rewinds the connection has been read a known number of times, [k].
    The first receive behind a rewind delivers all that these reads delivered, in order, and
    each further one is exactly the next read of the connection; when they delivered nothing the
    first one is a read of the connection as well.  The chunks that will be replayed to the
    next attempt are again all that came from the connection. *)
Theorem rewound_input_replays {I : Type} {HI : IIoInput I} (slave : I) (ops : list input_op) (n : nat) :
  let k := connection_reads slave ops false 0 in
  let '(before, s) := reads k slave in
  let t := input_run ops (rewindable slave) in
  received t = concat before /\ Slave_ t = s /\
  reads (S n) (Rewind t) =
    match concat before with
    | [] => let '(outs, s') := reads (S n) s in (outs, mk_rewind [] (concat outs) s')
    | past => let '(outs, s') := reads n s in (past :: outs, mk_rewind [] (past ++ concat outs) s')
    end.
Proof.
  cbn zeta. destruct (input_run_ok ops false 0 slave (rewindable slave)) as [r H]; [done|]. pose proof (rewind_has_read _ _ _ _ H) as Hr. unfold has_read in H, Hr.
  destruct (reads (connection_reads slave ops false 0) slave) as [before s]. split; [rewrite H; destruct r; unfold received; cbn; by rewrite ?app_nil_r|].
  split; [rewrite H; by destruct r|]. rewrite Hr. destruct (concat before) as [|c past] eqn:E.
  - by rewrite (reads_direct (S n) [] s).
  - cbn [reads]. unfold Recv at 1, rewind_input at 1, rewind_recv. cbn [Old_ Tmp_ Slave_]. rewrite reads_direct. by destruct (reads n s).
Qed.

(** Two attempts have read two and one times; the third gets both and goes on. *)
Lemma rewound_input_replays_witness :
  connection_reads (HI := example_input) [[1]; [2]; [3]] [DoRecv; DoRecv; DoRewind; DoRecv] false 0 = 2%nat /\
  fst (reads 2 (Rewind (input_run [DoRecv; DoRecv; DoRewind; DoRecv] (rewindable [[1]; [2]; [3]])))) = [[[1]; [2]]; [[3]]].
Proof.
  split; [reflexivity|]. pose proof (rewound_input_replays [[1]; [2]; [3]] [DoRecv; DoRecv; DoRewind; DoRecv] 1) as (_ & _ & H).
  etransitivity; [exact (f_equal fst H)|]. reflexivity.
Defined.

(** ** Trackers *)

(** C12: the time-limited tracker, a ring buffer of [N] values and times, answers
    every sequence of [Add] and [Get] like a queue that drops its oldest value when
    it holds [N] and, on a read, the values older than the time to live; the sum it
    reports is the running sum of the values that went in and out, over whatever
    value [Sum_] was left with by the constructor. *)
Theorem limited_tracker_refines (N : Z) (vs : list double) (ts : list Z) (sum : double) (ttl : Z) (ops : list tracker_op) :
  0 < N -> zlen vs = N -> zlen ts = N ->
  tracker_run N ops (limited_make vs ts sum ttl) = Some (queue_run N ttl ops [] sum).
Proof.
  intros HN Hv Ht. apply (tracker_run_ok N ops (limited_make vs ts sum ttl) []); [done|].
  by apply limited_make_ring.
Qed.

Lemma limited_tracker_refines_witness :
  tracker_run 2 [TrAdd 10 (of_Z 1); TrAdd 20 (of_Z 2); TrAdd 30 (of_Z 4); TrGet 35; TrGet 200]
    (limited_make [of_Z 9; of_Z 9] [0; 0] (of_Z 0) 100) = Some [(of_Z 6, 2); (of_Z 0, 0)].
Proof. rewrite limited_tracker_refines; [vm_compute; reflexivity|lia|reflexivity|reflexivity]. Defined.

(** The median tracker, after any values, has kept exactly the last [N] of
    them, and [Get(n)] averages a window of at most five of them in sorted order
    around the [n]-th percentile, without reading outside the values it has. *)
Theorem median_of_last (N n : Z) (cells xs : list double) :
  0 < N -> zlen cells = N -> 0 <= n <= 100 -> 0 < zlen xs < 2 ^ 64 -> Forall (fun x => is_nan x = false) xs ->
  exists t vc f l, median_adds N xs (median_make cells) = Some t /\ vc ≡ₚ last_values N xs /\ sorted_doubles vc /\
    median_get N n t = window_mean f l vc /\ 0 <= f < l /\ l <= zlen vc /\ l - f <= 5 /\ f <= n * zlen vc / 100 <= l.
Proof.
  intros HN Hc Hn Hx Hnan. destruct (median_adds_ok N xs (median_make cells) [] HN) as (t & E1 & Hr); [rewrite zlen_nil; lia| |].
  { split; cbn [median_make med_v med_c med_n]; rewrite ?zlen_nil; try done; try lia. }
  cbn [app] in Hr. pose proof (remembers_perm N t xs HN Hr) as Hp. pose proof (rm_n _ _ _ Hr) as En.
  set (filled := Z.min (med_n t) N) in *. assert (Hf : 0 < filled) by lia.
  set (vc := sort_doubles (take (Z.to_nat filled) (med_v t))).
  assert (Hvc : vc ≡ₚ last_values N xs) by (subst vc; by rewrite sort_doubles_perm).
  assert (Hlen : zlen vc = filled).
  { unfold zlen. rewrite Hvc. unfold last_values. rewrite length_drop. subst filled. rewrite En. unfold zlen. lia. }
  pose proof (median_window_bounds n filled Hn Hf) as Hw. destruct (median_window n filled) as [f l] eqn:Ew. destruct Hw as (H1 & H2 & H3 & _).
  exists t, vc, f, l. rewrite Hlen. split_and!; try done; try lia.
  - apply sort_doubles_sorted. rewrite Hp. unfold last_values. by apply Forall_drop.
  - unfold median_get. fold filled. rewrite (proj2 (Z.eqb_neq _ _)) by lia. rewrite Ew. done.
  - unfold median_window in Ew. cbn zeta in Ew. injection Ew as <- <-. lia.
Qed.

Lemma median_of_last_witness :
  exists t vc f l, median_adds 3 (map of_Z [50; 10; 30; 20]) (median_make [of_Z 0; of_Z 0; of_Z 0]) = Some t /\
    vc ≡ₚ map of_Z [10; 30; 20] /\ median_get 3 50 t = window_mean f l vc /\ median_get 3 50 t = Some (of_Z 20).
Proof.
  destruct (median_of_last 3 50 [of_Z 0; of_Z 0; of_Z 0] (map of_Z [50; 10; 30; 20])) as (t & vc & f & l & E1 & E2 & _ & E3 & _);
    [lia|reflexivity|lia|unfold zlen; cbn [length map]; lia|by repeat constructor|].
  exists t, vc, f, l. split; [exact E1|]. split; [exact E2|]. split; [exact E3|]. injection E1 as <-. vm_compute. reflexivity.
Defined.

(** ** Arbiters *)

(** a watermark arbiter that the configuration accepts is a hysteresis.  It
    starts enabled with the low mark not above the high one; after any history, it
    is switched off only by a failure that lifts the rate above the high mark and on
    only by a success that takes it below the low mark, and the marks never change. *)
Theorem watermark_hysteresis {IModule : Type} {E : Env IModule} (c : config) (a : IReAskArbiter) :
  ConstructArbiter "watermark" c = Ret (Some a) ->
  exists w, a = TWatermarkArbiter w /\ Authorize a = true /\ dlt (HiWatermark_ w) (LoWatermark_ w) = false /\
    forall (l : list bool) (ok : bool),
      let before := Authorize (registers l a) in
      exists w', registers (l ++ [ok]) a = TWatermarkArbiter w' /\
        (before = true -> Enabled_ w' = false -> ok = false /\ dlt (HiWatermark_ w) (middle_m (Rate_ w')) = true) /\
        (before = false -> Enabled_ w' = true -> ok = true /\ dlt (middle_m (Rate_ w')) (LoWatermark_ w) = true).
Proof.
  cbn. destruct (make_watermark c) as [w|] eqn:Em; [|done]. intros [= <-]. destruct (make_watermark_ok c w Em) as [H1 H2].
  exists w. split_and!; try done. intros l ok. destruct (watermark_history l w) as (w1 & E1 & Elo & Ehi).
  rewrite registers_snoc, E1. cbn [Authorize].
  pose proof (watermark_step w1 ok) as H. destruct (register ok (TWatermarkArbiter w1)) as [| |w2]; try done.
  exists w2. destruct H as (_ & _ & H3 & H4). rewrite Elo in H4. rewrite Ehi in H3. done.
Qed.

(** With the default marks, six failures in a row switch it off and 85 successes
    switch it on again. *)
Lemma watermark_hysteresis_witness :
  (exists w, default_watermark = TWatermarkArbiter w /\ dlt (HiWatermark_ w) (LoWatermark_ w) = false) /\
  Authorize (registers (replicate 5 false) default_watermark) = true /\
  Authorize (registers (replicate 6 false) default_watermark) = false /\
  Authorize (registers (replicate 6 false ++ replicate 84 true) default_watermark) = false /\
  Authorize (registers (replicate 6 false ++ replicate 85 true) default_watermark) = true.
Proof.
  split; [|repeat split; vm_compute; reflexivity].
  destruct (watermark_hysteresis (Config []) default_watermark) as (w & E1 & _ & E2 & _); [vm_compute; reflexivity|].
  exists w. split; [exact E1|exact E2].
Defined.

(** The rate of an additive arbiter with a finite success step and a
    non-negative failure step is never negative and never undefined, whatever the
    history, and the limit it is compared with stays the same; with the default
    steps 19 failures in a row are allowed and 20 are not. *)
Theorem additive_rate_nonneg (a : additive) (l : list bool) :
  additive_inv a ->
  exists a', registers l (TAdditiveArbiter a) = TAdditiveArbiter a' /\ nonneg (BArbiter.FailRate_ a') = true /\
    is_nan (BArbiter.FailRate_ a') = false /\ AlarmValue_ a' = AlarmValue_ a /\
    Authorize (registers (replicate 19 false) default_additive) = true /\
    Authorize (registers (replicate 20 false) default_additive) = false.
Proof.
  intros Ha. destruct (additive_history l a Ha) as (a' & E1 & (H1 & _) & H2). exists a'.
  split_and!; try done; try (vm_compute; reflexivity). by apply nonneg_nan.
Qed.

Lemma additive_rate_nonneg_witness :
  exists a', registers [true; false; true; true] default_additive = TAdditiveArbiter a' /\ nonneg (BArbiter.FailRate_ a') = true.
Proof.
  destruct (additive_rate_nonneg (mk_additive (of_Z 0) (lit 5 100) (of_Z 1) (of_Z 1 / lit 5 100)%double) [true; false; true; true])
    as (a' & E1 & E2 & _); [split; [|split]; vm_compute; reflexivity|].
  exists a'. split; [exact E1|exact E2].
Defined.

(** ** Random numbers *)

(** both Mersenne twisters are memory safe and stay in their words: from any
    array of the declared size, seeded by a word or by a non-empty key, they draw
    any number of values, each inside the word. *)
Theorem mersenne_safe (P : mt_params) (seed : Z) (key a : list Z) (n : nat) :
  P = params64 \/ P = params32 -> in_word (Random.W P) seed -> state_ok P a -> 0 < zlen key ->
  (exists g l, InitGenRand P seed a = Some g /\ draws P n g = Some l /\ length l = n /\ Forall (in_word (Random.W P)) l) /\
  (exists g l, InitByArray P key a = Some g /\ draws P n g = Some l /\ length l = n /\ Forall (in_word (Random.W P)) l).
Proof.
  intros HP Hs Ha Hk.
  assert (HP' : mt_params_ok P) by (destruct HP as [->| ->]; apply _).
  assert (Hd : in_word (Random.W P) 19650218) by (destruct HP as [->| ->]; unfold in_word; cbn; lia).
  destruct (InitGenRand_ok P seed a Hs Ha) as (g & E1 & Hg & _). destruct (InitByArray_ok P key a Hd Ha Hk) as (g' & E1' & Hg' & _).
  destruct (draws_ok P n g Hg) as (l & E2 & Hl). destruct (draws_ok P n g' Hg') as (l' & E2' & Hl').
  split; [by exists g, l|by exists g', l'].
Qed.

Lemma mersenne_safe_witness :
  exists g l, InitGenRand params64 42 (replicate 312 7) = Some g /\ draws params64 3 g = Some l /\ length l = 3%nat.
Proof.
  destruct (mersenne_safe params64 42 [1] (replicate 312 7) 3) as [(g & l & E1 & E2 & E3 & _) _];
    [left; reflexivity|split; [discriminate|reflexivity]|split; [reflexivity|]|reflexivity|].
  - apply Forall_replicate. split; [discriminate|reflexivity].
  - exists g, l. split; [exact E1|]. split; [exact E2|exact E3].
Defined.

(** The first ten values of the default generators are the ones that the unit
    test of the library expects. *)
Theorem mersenne_vectors :
  (let* g := mersenne32 in draws params32 10 g) =
    Some [2325592414; 482149846; 4177211283; 3872387439; 1663027210; 2005191859; 666881213; 3289399202; 2514534568; 3882134983] /\
  (let* g := mersenne64 in draws params64 10 g) =
    Some [13735441942630277712; 10468394322237346228; 5051557175812687784; 8252857936377966838; 4330799099585512958;
          327094098846779408; 6143667654738189122; 6387112078486713335; 3862502196831460488; 11231499428520958715].
Proof. split; vm_compute; reflexivity. Qed.

(** A generator that returns the given word. *)
Definition stuck_generator (v : Z) : World Z := {| gen64 t := (v, t); read_clock t := (u64 t, t) |}.

Definition fair_table : config := Config [("1"%string, backend "1" "proxy"); ("2"%string, backend "1" "proxy")].

Definition fair_state : list (fair_backend (IModule := string)) :=
  match CreateFair (mem_cells example_memory) fair_table with Ret (Some s) => s | _ => [] end.

(** The random double is not always below 1.  The words from 2^64 - 1024 on
    are rounded up to 1.0; the fair policy then finds no back end whose running sum
    exceeds the random share of the total, and aborts, where the word before them
    chooses the second of two equal back ends. *)
Theorem random_one_aborts_fair :
  ToRes53 (2 ^ 64 - 1) = of_Z 1 /\ ToRes53 (2 ^ 64 - 1024) = of_Z 1 /\ dlt (ToRes53 (2 ^ 64 - 1025)) (of_Z 1) = true /\
  fair_next (HW := stuck_generator (2 ^ 64 - 1024)) fair_state 0 = None /\
  fair_next (HW := stuck_generator (2 ^ 64 - 1025)) fair_state 0 = Some (Some 1, fair_state, 0).
Proof. split_and!; vm_compute; reflexivity. Qed.

(** ** Smart round robin *)

(** the state of a back end under smart round robin.  If the memory of the new
    object held one of the four states, then after any history of uses, successes
    and failures it is in one of the four states, each use keeps the state or makes
    one of the moves with the conditions of [srr_move], and costs 1, 2, 8 or 64;
    if it held anything greater, the state is never left and each use costs 1. *)
Theorem smart_states {IModule : Type} (garbage : Z) (d : TBackEndDescriptor IModule) (l : list srr_event) :
  let b := srr_history l (srr_make garbage d) in
  let b' := srr_inc b in
  (0 <= garbage <= 3 ->
    0 <= State_ b <= 3 /\ (State_ b' = State_ b \/ srr_move b (State_ b) (State_ b')) /\
    srr_weight b' = (srr_weight b + nth (Z.to_nat (State_ b')) [of_Z 1; of_Z 2; of_Z 8; of_Z 64] (of_Z 1))%double) /\
  (3 < garbage -> State_ b' = garbage /\ srr_weight b' = (srr_weight b + of_Z 1)%double).
Proof.
  cbn zeta. assert (Hc : counters_ok (srr_make garbage d)) by (split; cbn; lia).
  destruct (srr_history_ok l (srr_make garbage d) Hc eq_refl) as ([Hf Hs] & Hstep & Hr & Hk). set (b := srr_history l _) in *.
  pose proof (srr_cost b Hstep) as Hcost. split; intros Hg; cbn [State_ srr_make] in *.
  - specialize (Hr Hg). split; [done|]. split; [exact (UpdateState_move b (proj1 Hf) (proj1 Hs))|]. rewrite Hcost. f_equal.
    change (State_ (srr_inc b)) with (State_ (UpdateState b)). pose proof (UpdateState_range b Hr) as H. unfold state_mul.
    assert (State_ (UpdateState b) = 0 \/ State_ (UpdateState b) = 1 \/ State_ (UpdateState b) = 2 \/ State_ (UpdateState b) = 3)
      as [->|[->|[->| ->]]] by lia; done.
  - specialize (Hk Hg). assert (Hst : 3 < State_ b) by (by rewrite Hk). rewrite Hcost.
    change (State_ (srr_inc b)) with (State_ (UpdateState b)). rewrite UpdateState_stuck by done. split; [done|]. f_equal.
    unfold state_mul. by rewrite !(proj2 (Z.eqb_neq (State_ b) _)) by lia.
Qed.

(** ** Weighted2 *)

(** C14: every report to the weighted2 policy ends without undefined behaviour.  When the
    configured weights and the limits are positive numbers of moderate size, in order, and the
    weights of the back ends are positive and finite, as the 1 is that they start with, a report
    for a back end whose restrictions do not cross leaves every weight a number, positive and
    finite, between the configured limits times its own configured weight, whatever the clock
    and the answers, so that the next report starts from such a state; and a correction whose
    restrictions do not cross gives a number within its band around the last checked weight,
    which becomes the last checked weight or leaves it. *)
Theorem weighted2_limits {IModule W : Type} {HW : World W} (s : weighted2 (IModule := IModule)) (i answerTime : Z) (ok : bool) (w : W) :
  w2_inv s -> 0 <= i < zlen (w2_list s) ->
  exists s' w', (if ok then w2_complete i answerTime s w else w2_failed i answerTime s w) = Some (s', w') /\
    w2_inv s' /\ CorrectionParams_ s' = CorrectionParams_ s /\
    let p := CorrectionParams_ s in
    (w2_sane s = true -> (forall b, zget (w2_list s) i = Some b -> dlt (upper p (LastCheckedWeight_ b)) (lower p (LastCheckedWeight_ b)) = false) ->
     w2_sane s' = true /\
     Forall (fun b => dle (MinWeight_ p * Weight_ (w2_descr b))%double (w2_weight b) = true /\
                      dle (w2_weight b) (MaxWeight_ p * Weight_ (w2_descr b))%double = true) (w2_list s')) /\
    forall avg cur (b : w2_backend (IModule := IModule)) w'', quality_ok b -> let last := LastCheckedWeight_ b in
      is_nan (MinWeight_ p) = false -> is_nan (MaxWeight_ p) = false -> dlt (upper p last) (lower p last) = false ->
      exists x b' w3, Correct p avg cur b w'' = Some (x, b', w3) /\
        dle (lower p last) x = true /\ dle x (upper p last) = true /\ (LastCheckedWeight_ b' = last \/ LastCheckedWeight_ b' = x).
Proof.
  intros Hs Hi. set (q := if ok then estimate_complete (Estimator_ s) answerTime else estimate_fail (Estimator_ s) answerTime).
  destruct (w2_request_ok i q ok s w Hs Hi) as (s' & w' & E1 & Hs' & _). exists s', w'.
  split; [by destruct ok|]. split; [done|]. destruct (w2_request_in_order i q ok s w s' w' E1) as [Ep Hin]. split; [done|]. cbn zeta. split; [exact Hin|].
  intros avg cur b w'' Hb Hl Hu Hlu. destruct (Correct_ok (CorrectionParams_ s) avg cur b w'' Hb) as (x & b' & w3 & E2 & _).
  pose proof (Correct_shape _ _ _ _ _ _ _ _ E2) as ((first & second & Ex) & _ & _ & Hlast).
  destruct (restrict_in_order (CorrectionParams_ s) (LastCheckedWeight_ b) (raw_weight (CorrectionParams_ s) first second avg cur) Hl Hu Hlu) as (H1 & H2 & _).
  rewrite <- Ex in H1, H2. by exists x, b', w3.
Qed.

Definition w2_state : weighted2 (IModule := string) :=
  match CreateWeighted2 (mem_w2 example_memory) fair_table 0 with Ret (s, _) => s | _ => mk_weighted2 [] default_correction TAnswerTimeQuality end.

Lemma w2_state_ok : w2_inv w2_state.
Proof.
  split; [vm_compute; reflexivity|].
  destruct (CreateWeighted2 (mem_w2 example_memory) fair_table 0) as [[s w]|] eqn:E1; [|vm_compute in E1; discriminate E1].
  unfold w2_state. rewrite E1. by apply (w2_create_ok (mem_w2 example_memory) fair_table 0 s w).
Qed.

Lemma weighted2_limits_witness :
  exists s' w', w2_complete 1 50000 w2_state 0 = Some (s', w') /\ w2_sane s' = true /\ Forall (within (CorrectionParams_ w2_state)) (w2_list s').
Proof.
  destruct (weighted2_limits w2_state 1 50000 true 0 w2_state_ok) as (s' & w' & E1 & _ & _ & E2 & _); [vm_compute; split; congruence|].
  destruct E2 as [E2 E3]; [vm_compute; reflexivity| |by exists s', w'].
  intros b Eb. vm_compute in Eb. injection Eb as <-. vm_compute. reflexivity.
Defined.

(** With a configured weight of 0 the sums are 0 and the factor of [Normalize] is not a number;
    nor is then the weight, although its limits are numbers. *)
Definition weightless_table : config :=
  Config [("a"%string, backend "0" "m")].

Lemma weighted2_weight_zero :
  match CreateWeighted2 (mem_w2 example_memory) weightless_table 0 with
  | Ret (s, w) => match w2_complete 0 50000 s w with Some (s', _) => map w2_weight (w2_list s') = [SpecFloat.S754_nan] | None => False end
  | Throw _ => False
  end.
Proof. vm_compute. reflexivity. Qed.
