(* ===== verification/CCoro.v ===== *)
(** * Coroutines

    Models the coroutine engine of [src/util/green]: [TContExecutor], [TCont],
    [TEventWaitQueue] of [impl.h] and [impl.cpp], [TContEvent], [TContWaitQueue] of
    [events.h], [TContMutex] of [mutex.h], [TContCondVar] of [condvar.h], and [TMyEvent] of
    [src/web/httpd/kernel/syncro.h].

    A coroutine is a program of calls into the engine; a call that sleeps suspends it at a
    [place], where it goes on when the scheduler switches to it again.  A step of the machine
    is one call of the running coroutine, or one turn of the scheduler.  Timers are the only
    events that wake from outside: descriptors are not modelled, and an empty poll lasts until
    its deadline.  The tree of timers is its sorted list. *)

From Stdlib Require Import ZArith Lia Bool.
From stdpp Require Import base numbers list gmap.
From S2P Require Import Prelude.

Notation cont := positive.

Definition EWAKEDUP : Z := 34567.
Definition EINPROGRESS : Z := 115.
Definition ETIMEDOUT : Z := 110.
Definition ECANCELED : Z := 125.

(** [TInstant::Max()] *)
Definition Max : Z := 2 ^ 64 - 1.

(** ** Programs *)

Inductive prog :=
  | PEnd
  | PCreate (child : prog) (k : cont -> prog)
  | PSleepD (deadline : Z) (k : Z -> prog)
  | PYield (k : prog)
  | PCancel (c : cont) (k : prog)
  | PLockD (m : positive) (deadline : Z) (k : Z -> prog)
  | PUnLock (m : positive) (k : prog)
  | PCondWaitD (cv m : positive) (deadline : Z) (k : Z -> prog)
  | PCondSignal (cv : positive) (k : prog)
  | PCondBroadCast (cv : positive) (k : prog)
  | PMyWaitD (e : positive) (deadline : Z) (k : prog)
  | PMySignal (e : positive) (k : prog).

(** Where a coroutine is: before a call, inside one that sleeps, or behind [Exit]. *)
Inductive place :=
  | AtProg (p : prog)
  | InSleep (k : Z -> prog)
  | InYield (k : prog)
  | InLock (m : positive) (deadline : Z) (k : Z -> prog)
  | InCond (cv m : positive) (deadline : Z) (k : Z -> prog)
  | InMyEvent (e : positive) (k : prog)
  | Exited.

(** ** State *)

(** [timer] is the status of the timer of the sleep, [Status_] that of its [TContEvent]. *)
Record TCont := mk_cont { at_ : place; Cancelled_ : bool; timer : Z; Status_ : Z }.

Record TContMutex := mk_mutex { Token_ : bool; Waiters_ : list cont }.

Record TMyEvent := mk_event { Ev_ : option cont; S_ : bool }.

Record TContExecutor := mk_exec {
  conts : gmap cont TCont; ToDelete_ : list cont; Ready_ : list cont; IoWait_ : list (Z * cont); Current_ : option cont;
  mutexes : gmap positive TContMutex; condvars : gmap positive (list cont); events : gmap positive TMyEvent }.

Definition set_conts (s : TContExecutor) x := mk_exec x (ToDelete_ s) (Ready_ s) (IoWait_ s) (Current_ s) (mutexes s) (condvars s) (events s).
Definition set_delete (s : TContExecutor) x := mk_exec (conts s) x (Ready_ s) (IoWait_ s) (Current_ s) (mutexes s) (condvars s) (events s).
Definition set_ready (s : TContExecutor) x := mk_exec (conts s) (ToDelete_ s) x (IoWait_ s) (Current_ s) (mutexes s) (condvars s) (events s).
Definition set_wait (s : TContExecutor) x := mk_exec (conts s) (ToDelete_ s) (Ready_ s) x (Current_ s) (mutexes s) (condvars s) (events s).
Definition set_current (s : TContExecutor) x := mk_exec (conts s) (ToDelete_ s) (Ready_ s) (IoWait_ s) x (mutexes s) (condvars s) (events s).
Definition set_mutexes (s : TContExecutor) x := mk_exec (conts s) (ToDelete_ s) (Ready_ s) (IoWait_ s) (Current_ s) x (condvars s) (events s).
Definition set_condvars (s : TContExecutor) x := mk_exec (conts s) (ToDelete_ s) (Ready_ s) (IoWait_ s) (Current_ s) (mutexes s) x (events s).
Definition set_events (s : TContExecutor) x := mk_exec (conts s) (ToDelete_ s) (Ready_ s) (IoWait_ s) (Current_ s) (mutexes s) (condvars s) x.

(** Objects are there from the start, as their constructors leave them. *)
Definition mutex (s : TContExecutor) (m : positive) : TContMutex := default (mk_mutex true []) (mutexes s !! m).
Definition condvar (s : TContExecutor) (cv : positive) : list cont := default [] (condvars s !! cv).
Definition event (s : TContExecutor) (e : positive) : TMyEvent := default (mk_event None false) (events s !! e).

Definition put_mutex (m : positive) (x : TContMutex) (s : TContExecutor) : TContExecutor := set_mutexes s (<[m := x]> (mutexes s)).
Definition put_condvar (cv : positive) (x : list cont) (s : TContExecutor) : TContExecutor := set_condvars s (<[cv := x]> (condvars s)).
Definition put_event (e : positive) (x : TMyEvent) (s : TContExecutor) : TContExecutor := set_events s (<[e := x]> (events s)).

(** Lists are intrusive: an item that is pushed leaves the list it was in. *)
Definition without (c : cont) (l : list cont) : list cont := filter (fun x => x <> c) l.

Definition unlink (c : cont) (s : TContExecutor) : TContExecutor :=
  set_delete (set_ready s (without c (Ready_ s))) (without c (ToDelete_ s)).

Definition update (c : cont) (f : TCont -> TCont) (s : TContExecutor) : TContExecutor := set_conts s (alter f c (conts s)).

Definition go_to (p : place) (t : TCont) : TCont := mk_cont p (Cancelled_ t) (timer t) (Status_ t).
Definition with_timer (v : Z) (t : TCont) : TCont := mk_cont (at_ t) (Cancelled_ t) v (Status_ t).
Definition SetStatus (v : Z) (t : TCont) : TCont := mk_cont (at_ t) (Cancelled_ t) (timer t) v.
Definition set_cancelled (t : TCont) : TCont := mk_cont (at_ t) true (timer t) (Status_ t).

(** ** [TContExecutor], [TEventWaitQueue] *)

Definition ScheduleExecution (c : cont) (s : TContExecutor) : TContExecutor :=
  let s := unlink c s in set_ready s (Ready_ s ++ [c]).

Definition SwitchToScheduler (s : TContExecutor) : TContExecutor := set_current s None.

(** By deadline, then by address; the timer of a coroutine lies on its stack. *)
Fixpoint insert_timer (d : Z) (c : cont) (l : list (Z * cont)) : list (Z * cont) :=
  match l with
  | [] => [(d, c)]
  | (d', c') :: l' => if (d <? d') || ((d =? d') && (c <? c')%positive) then (d, c) :: l else (d', c') :: insert_timer d c l'
  end.

Definition Register (d : Z) (c : cont) (s : TContExecutor) : TContExecutor :=
  unlink c (set_wait s (insert_timer d c (IoWait_ s))).

Definition unlink_timer (c : cont) (s : TContExecutor) : TContExecutor :=
  set_wait s (filter (fun x => snd x <> c) (IoWait_ s)).

(** [TContPollEvent::Wake(status)] *)
Definition wake_timer (c : cont) (s : TContExecutor) : TContExecutor :=
  ScheduleExecution c (unlink_timer c (update c (with_timer ETIMEDOUT) s)).

(** The timers the loop of [CancelTimedOut] wakes. *)
Fixpoint expired (now : Z) (l : list (Z * cont)) : list (Z * cont) :=
  match l with
  | [] => []
  | (d, c) :: l => if d <=? now then (d, c) :: expired now l else []
  end.

Definition CancelTimedOut (now : Z) (s : TContExecutor) : Z * TContExecutor :=
  match IoWait_ s with
  | [] => (now, s)
  | (d, _) :: _ =>
      if now <? d then (d, s)
      else (now, fold_left (fun s x => wake_timer (snd x) s) (expired now (IoWait_ s)) s)
  end.

(** ** Sleeping *)

Definition cancelled (c : cont) (s : TContExecutor) : bool :=
  match conts s !! c with Some t => Cancelled_ t | None => false end.

(** [ExecuteEvent] up to the switch: [Some ret] when it returns at once; the coroutine
    will go on at [here]. *)
Definition ExecuteEvent (c : cont) (d : Z) (here : place) (s : TContExecutor) : option Z * TContExecutor :=
  if cancelled c s then (Some ECANCELED, s)
  else (None, SwitchToScheduler (Register d c (update c (fun t => with_timer EINPROGRESS (go_to here t)) s))).

(** The rest of it; the destructor of the timer. *)
Definition slept (c : cont) (s : TContExecutor) : Z * TContExecutor :=
  let ret := match conts s !! c with
             | Some t => if Cancelled_ t then ECANCELED else timer t
             | None => EINPROGRESS
             end in
  (ret, unlink_timer c s).

Definition continue (c : cont) (p : prog) (s : TContExecutor) : TContExecutor := update c (go_to (AtProg p)) s.

(** ** [TContEvent], [TContWaitQueue] *)

Definition Wake (c : cont) (s : TContExecutor) : TContExecutor :=
  ScheduleExecution c (update c (SetStatus EWAKEDUP) s).

(** [WaitD] up to the switch, and its result. *)
Definition event_wait (c : cont) (d : Z) (here : place) (s : TContExecutor) : option Z * TContExecutor :=
  ExecuteEvent c d here (update c (SetStatus 0) s).

Definition event_result (c : cont) (ret : Z) (s : TContExecutor) : Z :=
  match conts s !! c with
  | Some t => if Status_ t =? 0 then ret else Status_ t
  | None => ret
  end.

Definition waited (c : cont) (s : TContExecutor) : Z * TContExecutor :=
  let '(ret, s) := slept c s in (event_result c ret s, s).

(** [Signal] on a queue of waiters: the queue that is left. *)
Definition Signal (q : list cont) (s : TContExecutor) : list cont * TContExecutor :=
  match q with [] => ([], s) | w :: q => (q, Wake w s) end.

Definition BroadCast (q : list cont) (s : TContExecutor) : TContExecutor := fold_left (fun s w => Wake w s) q s.

(** ** [TContMutex] *)

Inductive label := LLock (m : positive) (c : cont) | LUnLock (m : positive) (c : cont).

(** The loop of [LockD], from its test. *)
Definition lock_loop (c : cont) (m : positive) (d : Z) (k : Z -> prog) (s : TContExecutor) : TContExecutor * list label :=
  let x := mutex s m in
  if Token_ x then (continue c (k 0) (put_mutex m (mk_mutex false (Waiters_ x)) s), [LLock m c])
  else
    match event_wait c d (InLock m d k) (put_mutex m (mk_mutex false (Waiters_ x ++ [c])) s) with
    | (None, s) => (s, [])
    | (Some ret, s) => (continue c (k ret) (put_mutex m (mk_mutex false (Waiters_ x)) s), [])
    end.

(** [LockD] after a sleep; the waiter is destroyed. *)
Definition lock_woken (c : cont) (m : positive) (d : Z) (k : Z -> prog) (s : TContExecutor) : TContExecutor * list label :=
  let '(ret, s) := waited c s in
  let x := mutex s m in
  let s := put_mutex m (mk_mutex (Token_ x) (without c (Waiters_ x))) s in
  if ret =? EWAKEDUP then lock_loop c m d k s else (continue c (k ret) s, []).

Definition UnLock (m : positive) (s : TContExecutor) : TContExecutor :=
  let '(q, s) := Signal (Waiters_ (mutex s m)) s in put_mutex m (mk_mutex true q) s.

(** ** [TContCondVar] *)

Definition cond_wait (c : cont) (cv m : positive) (d : Z) (k : Z -> prog) (s : TContExecutor) : TContExecutor * list label :=
  let s := UnLock m s in
  let q := condvar s cv in
  match event_wait c d (InCond cv m d k) (put_condvar cv (q ++ [c]) s) with
  | (None, s) => (s, [LUnLock m c])
  | (Some ret, s) => (continue c (k ret) (put_condvar cv q s), [LUnLock m c])
  end.

Definition cond_woken (c : cont) (cv m : positive) (d : Z) (k : Z -> prog) (s : TContExecutor) : TContExecutor * list label :=
  let '(ret, s) := waited c s in
  let s := put_condvar cv (without c (condvar s cv)) s in
  if ret =? EWAKEDUP then lock_loop c m d k s else (continue c (k ret) s, []).

(** ** [TMyEvent] *)

Definition my_wait (c : cont) (e : positive) (d : Z) (k : prog) (s : TContExecutor) : TContExecutor :=
  if S_ (event s e) then continue c k (put_event e (mk_event (Ev_ (event s e)) false) s)
  else
    match event_wait c d (InMyEvent e k) (put_event e (mk_event (Some c) false) s) with
    | (None, s) => s
    | (Some _, s) => continue c k (put_event e (mk_event None false) s)
    end.

Definition my_woken (c : cont) (e : positive) (k : prog) (s : TContExecutor) : TContExecutor :=
  continue c k (put_event e (mk_event None false) (snd (waited c s))).

Definition my_signal (e : positive) (s : TContExecutor) : TContExecutor :=
  let x := event s e in
  let s := put_event e (mk_event (Ev_ x) true) s in
  match Ev_ x with Some w => Wake w s | None => s end.

(** ** The running coroutine *)

Definition Create (p : prog) (s : TContExecutor) : cont * TContExecutor :=
  let c := fresh (dom (conts s)) in
  (c, ScheduleExecution c (set_conts s (<[c := mk_cont (AtProg p) false EINPROGRESS 0]> (conts s)))).

(** [None] is the use of a coroutine that is gone. *)
Definition Cancel (c : cont) (s : TContExecutor) : option TContExecutor :=
  let* t := conts s !! c in
  if Cancelled_ t then Some s
  else
    let s := update c set_cancelled s in
    Some (if bool_decide (Current_ s = Some c) then s else ScheduleExecution c s).

Definition Exit (c : cont) (s : TContExecutor) : TContExecutor :=
  let s := unlink c (update c (go_to Exited) s) in SwitchToScheduler (set_delete s (ToDelete_ s ++ [c])).

(** [Yield] after its sleep, whose result is never 0: [ReScheduleAndSwitch]. *)
Definition yielded (c : cont) (k : prog) (s : TContExecutor) : TContExecutor :=
  SwitchToScheduler (ScheduleExecution c (continue c k s)).

Definition call (c : cont) (p : prog) (s : TContExecutor) : option (TContExecutor * list label) :=
  let quiet s := Some (s, []) in
  match p with
  | PEnd => quiet (Exit c s)
  | PCreate child k => let '(n, s) := Create child s in quiet (continue c (k n) s)
  | PSleepD d k => quiet (match ExecuteEvent c d (InSleep k) s with (None, s) => s | (Some ret, s) => continue c (k ret) s end)
  | PYield k => quiet (match ExecuteEvent c 0 (InYield k) s with (None, s) => s | (Some _, s) => yielded c k s end)
  | PCancel c' k => let* s := Cancel c' s in quiet (continue c k s)
  | PLockD m d k => Some (lock_loop c m d k s)
  | PUnLock m k => Some (continue c k (UnLock m s), [LUnLock m c])
  | PCondWaitD cv m d k => Some (cond_wait c cv m d k s)
  | PCondSignal cv k => let '(q, s) := Signal (condvar s cv) s in quiet (continue c k (put_condvar cv q s))
  | PCondBroadCast cv k => quiet (continue c k (put_condvar cv [] (BroadCast (condvar s cv) s)))
  | PMyWaitD e d k => quiet (my_wait c e d k s)
  | PMySignal e k => quiet (continue c k (my_signal e s))
  end.

(** The running coroutine goes on from its place; behind [Exit] the program is aborted. *)
Definition run_current (c : cont) (s : TContExecutor) : option (TContExecutor * list label) :=
  let* t := conts s !! c in
  match at_ t with
  | AtProg p => call c p s
  | InSleep k => let '(ret, s) := slept c s in Some (continue c (k ret) s, [])
  | InYield k => let '(_, s) := slept c s in Some (yielded c k s, [])
  | InLock m d k => Some (lock_woken c m d k s)
  | InCond cv m d k => Some (cond_woken c cv m d k s)
  | InMyEvent e k => Some (my_woken c e k s, [])
  | Exited => None
  end.

(** ** The scheduler *)

Definition DeleteScheduled (s : TContExecutor) : TContExecutor :=
  set_delete (set_conts s (fold_left (fun m c => delete c m) (ToDelete_ s) (conts s))) [].

(** A turn of the loop of [WaitForIO] at the time [now]: [None] waits for ever. *)
Definition WaitForIO_turn (now : Z) (s : TContExecutor) : option TContExecutor :=
  let '(next, s) := CancelTimedOut now s in
  if next =? Max then None else Some (snd (CancelTimedOut next s)).

(** A step; [None] is undefined, aborted or stopped. *)
Definition step (now : Z) (s : TContExecutor) : option (TContExecutor * list label) :=
  match Current_ s with
  | Some c => run_current c s
  | None =>
      match Ready_ s with
      | c :: ready => Some (set_current (DeleteScheduled (set_ready s ready)) (Some c), [])
      | [] => match IoWait_ s with [] => None | _ => let* s := WaitForIO_turn now s in Some (s, []) end
      end
  end.

Fixpoint run (times : list Z) (s : TContExecutor) : option (TContExecutor * list label) :=
  match times with
  | [] => Some (s, [])
  | now :: times =>
      let* (s, l) := step now s in
      let* (s, ls) := run times s in
      Some (s, l ++ ls)
  end.

(** [Execute]: the coroutines that are there at the start. *)
Definition initial (ps : list prog) : TContExecutor :=
  fold_left (fun s p => snd (Create p s)) ps (mk_exec ∅ [] [] [] None ∅ ∅ ∅).
