(* ===== verification/CWake.v ===== *)
(** * Coroutines: no wake-up is lost

    The invariant of every reachable state of the machine of [CCoro]: who is in a queue
    sleeps there; a coroutine in [LockD] that is in no queue has been woken and will run;
    and when a mutex is free while coroutines wait for it, one of those woken is about to
    try it.  [core] is the invariant while the running coroutine [c] is between two places. *)

From Stdlib Require Import ZArith Lia Bool.
From stdpp Require Import base numbers list gmap.
From S2P Require Import Prelude CCoro.

(** ** Projections *)

Lemma mutex_put m x s m' : mutex (put_mutex m x s) m' = if decide (m = m') then x else mutex s m'.
Proof.
  unfold mutex, put_mutex. cbn. destruct (decide (m = m')) as [->|Hn]; [rewrite lookup_insert_eq; auto|rewrite lookup_insert_ne; auto].
Qed.

Lemma condvar_put cv x s cv' : condvar (put_condvar cv x s) cv' = if decide (cv = cv') then x else condvar s cv'.
Proof.
  unfold condvar, put_condvar. cbn. destruct (decide (cv = cv')) as [->|Hn]; [rewrite lookup_insert_eq; auto|rewrite lookup_insert_ne; auto].
Qed.

Lemma event_put e x s e' : event (put_event e x s) e' = if decide (e = e') then x else event s e'.
Proof.
  unfold event, put_event. cbn. destruct (decide (e = e')) as [->|Hn]; [rewrite lookup_insert_eq; auto|rewrite lookup_insert_ne; auto].
Qed.

Lemma conts_update c f s c' : conts (update c f s) !! c' = if decide (c = c') then f <$> conts s !! c else conts s !! c'.
Proof.
  unfold update. cbn. destruct (decide (c = c')) as [->|Hn]; [apply lookup_alter_eq|apply lookup_alter_ne; auto].
Qed.

Lemma elem_without c x l : x ∈ without c l <-> x ∈ l /\ x <> c.
Proof. unfold without. rewrite list_elem_of_filter. tauto. Qed.

(** ** The invariant *)

Definition asleep_in (s : TContExecutor) (m : positive) (c : cont) : Prop :=
  exists t d k, conts s !! c = Some t /\ at_ t = InLock m d k /\ Status_ t = 0.

Definition woken_in (s : TContExecutor) (m : positive) (c : cont) : Prop :=
  exists t d k, conts s !! c = Some t /\ at_ t = InLock m d k /\ Status_ t = EWAKEDUP.

Definition in_cond (s : TContExecutor) (cv : positive) (c : cont) : Prop :=
  exists t m d k, conts s !! c = Some t /\ at_ t = InCond cv m d k.

Definition in_event (s : TContExecutor) (e : positive) (c : cont) : Prop :=
  exists t k, conts s !! c = Some t /\ at_ t = InMyEvent e k.

Definition to_run (s : TContExecutor) (c : cont) : Prop := c ∈ Ready_ s \/ Current_ s = Some c.

(** What holds of all coroutines but those of [P]. *)
Record queues (P : cont -> Prop) (s : TContExecutor) : Prop := {
  q_wait m c : c ∈ Waiters_ (mutex s m) -> ~ P c /\ asleep_in s m c;
  q_nodup m : NoDup (Waiters_ (mutex s m));
  q_cond cv c : c ∈ condvar s cv -> ~ P c /\ in_cond s cv c;
  q_event e c : Ev_ (event s e) = Some c -> ~ P c /\ in_event s e c;
  q_lock c t m d k : ~ P c -> conts s !! c = Some t -> at_ t = InLock m d k -> c ∈ Waiters_ (mutex s m) \/ (Status_ t = EWAKEDUP /\ to_run s c);
  q_live c : to_run s c -> is_Some (conts s !! c);
  q_exit c : c ∈ ToDelete_ s -> ~ to_run s c /\ exists t, conts s !! c = Some t /\ at_ t = Exited }.

(** A free mutex of [M] with waiters has a woken one, not in [P]. *)
Definition progress (P : cont -> Prop) (M : positive -> Prop) (s : TContExecutor) : Prop :=
  forall m, M m -> Token_ (mutex s m) = true -> Waiters_ (mutex s m) <> [] -> exists c, ~ P c /\ woken_in s m c.

Definition nobody : cont -> Prop := fun _ => False.
Definition all : positive -> Prop := fun _ => True.

Definition sane (s : TContExecutor) : Prop := queues nobody s /\ progress nobody all s.

(** [c] runs and is between two places; [M] are the mutexes it is not woken for. *)
Definition core (c : cont) (M : positive -> Prop) (s : TContExecutor) : Prop :=
  queues (eq c) s /\ progress (eq c) M s /\ Current_ s = Some c.

(** ** Changes that keep it *)

(** Statuses of coroutines that keep their places. *)
Definition same_places (s s' : TContExecutor) : Prop :=
  forall c, match conts s !! c, conts s' !! c with
            | Some t, Some t' => at_ t' = at_ t /\ Status_ t' = Status_ t
            | None, None => True
            | _, _ => False
            end.

Lemma same_places_some s s' c t : same_places s s' -> conts s !! c = Some t -> exists t', conts s' !! c = Some t' /\ at_ t' = at_ t /\ Status_ t' = Status_ t.
Proof. intros H E. specialize (H c). rewrite E in H. destruct (conts s' !! c); [eauto|tauto]. Qed.

Lemma same_places_some' s s' c t : same_places s s' -> conts s' !! c = Some t -> exists t', conts s !! c = Some t' /\ at_ t = at_ t' /\ Status_ t = Status_ t'.
Proof. intros H E. specialize (H c). rewrite E in H. destruct (conts s !! c); [eauto|tauto]. Qed.

Lemma same_places_refl s : same_places s s.
Proof. intros c. destruct (conts s !! c); auto. Qed.

Lemma same_places_update c f s : (forall t, at_ (f t) = at_ t /\ Status_ (f t) = Status_ t) -> same_places s (update c f s).
Proof. intros Hf x. rewrite conts_update. destruct (decide (c = x)) as [->|]; destruct (conts s !! x); cbn; auto. Qed.

Lemma places_asleep s s' m c : same_places s s' -> asleep_in s m c -> asleep_in s' m c.
Proof. intros H (t&d&k&E&Ea&Es). destruct (same_places_some _ _ _ _ H E) as (t'&E'&Ea'&Es'). exists t', d, k. rewrite Ea', Es'. auto. Qed.

Lemma places_woken s s' m c : same_places s s' -> woken_in s m c -> woken_in s' m c.
Proof. intros H (t&d&k&E&Ea&Es). destruct (same_places_some _ _ _ _ H E) as (t'&E'&Ea'&Es'). exists t', d, k. rewrite Ea', Es'. auto. Qed.

Lemma places_cond s s' cv c : same_places s s' -> in_cond s cv c -> in_cond s' cv c.
Proof. intros H (t&m&d&k&E&Ea). destruct (same_places_some _ _ _ _ H E) as (t'&E'&Ea'&Es'). exists t', m, d, k. rewrite Ea'. auto. Qed.

Lemma places_event s s' e c : same_places s s' -> in_event s e c -> in_event s' e c.
Proof. intros H (t&k&E&Ea). destruct (same_places_some _ _ _ _ H E) as (t'&E'&Ea'&Es'). exists t', k. rewrite Ea'. auto. Qed.

(** The same places and queues, and nobody leaves the run list. *)
Lemma queues_same P s s' : same_places s s' -> mutexes s' = mutexes s -> condvars s' = condvars s -> events s' = events s ->
  (forall c, to_run s c -> to_run s' c) -> (forall c, to_run s' c -> to_run s c \/ is_Some (conts s !! c)) ->
  (forall c, c ∈ ToDelete_ s' -> c ∈ ToDelete_ s /\ ~ to_run s' c) -> queues P s -> queues P s'.
Proof.
  intros Hp Hm Hc He Hr Hr' Hd Q.
  assert (Em : forall m, mutex s' m = mutex s m) by (intros m; unfold mutex; rewrite Hm; auto).
  assert (Ec : forall cv, condvar s' cv = condvar s cv) by (intros cv; unfold condvar; rewrite Hc; auto).
  assert (Ee : forall e, event s' e = event s e) by (intros e; unfold event; rewrite He; auto). split.
  - intros m c. rewrite Em. intros Hin. apply (q_wait _ _ Q) in Hin as [H1 H2]. eauto using places_asleep.
  - intros m. rewrite Em. apply Q.
  - intros cv c. rewrite Ec. intros Hin. apply (q_cond _ _ Q) in Hin as [H1 H2]. eauto using places_cond.
  - intros e c. rewrite Ee. intros Hin. apply (q_event _ _ Q) in Hin as [H1 H2]. eauto using places_event.
  - intros c t m d k Hn E Ea. rewrite Em. destruct (same_places_some' _ _ _ _ Hp E) as (t0&E0&Ea0&Es0). rewrite Ea0 in Ea.
    destruct (q_lock _ _ Q c t0 m d k Hn E0 Ea) as [|[H1 H2]]; [auto|]. right. rewrite Es0. auto.
  - intros c Hin. assert (Hs : is_Some (conts s !! c)) by (destruct (Hr' c Hin); [apply (q_live _ _ Q); auto|auto]).
    destruct Hs as [t E]. destruct (same_places_some _ _ _ _ Hp E) as (t'&E'&_). eauto.
  - intros c Hin. apply Hd in Hin as [Hin Hn]. split; [auto|]. apply (q_exit _ _ Q) in Hin as (_&t&E&Ea).
    destruct (same_places_some _ _ _ _ Hp E) as (t'&E'&Ea'&_). exists t'. rewrite Ea'. auto.
Qed.

(** The lists of the scheduler are the same too. *)
Lemma queues_kept P s s' : same_places s s' -> mutexes s' = mutexes s -> condvars s' = condvars s -> events s' = events s ->
  Ready_ s' = Ready_ s -> Current_ s' = Current_ s -> ToDelete_ s' = ToDelete_ s -> queues P s -> queues P s'.
Proof.
  intros Hp Hm Hc He Hr Hcu Hd Q.
  assert (Hrun : forall c, to_run s' c <-> to_run s c) by (intros c; unfold to_run; rewrite Hr, Hcu; tauto).
  apply (queues_same P s); auto; [intros c; apply Hrun|intros c Hx; left; apply Hrun; auto|].
  intros c. rewrite Hd, Hrun. intros Hx. split; [auto|]. apply (q_exit _ _ Q c Hx).
Qed.

Lemma progress_same P M s s' : same_places s s' -> mutexes s' = mutexes s -> progress P M s -> progress P M s'.
Proof.
  intros Hp Hm Hg m. unfold mutex. rewrite Hm. intros HM Ht Hw. destruct (Hg m HM Ht Hw) as (c&H1&H2). eauto using places_woken.
Qed.

(** ** The engine's operations *)

Lemma to_run_schedule c s x : to_run (ScheduleExecution c s) x <-> to_run s x \/ x = c.
Proof.
  unfold to_run, ScheduleExecution, unlink. cbn. rewrite elem_of_app, list_elem_of_singleton, elem_without.
  destruct (decide (x = c)); tauto.
Qed.

Lemma delete_schedule c s x : x ∈ ToDelete_ (ScheduleExecution c s) <-> x ∈ ToDelete_ s /\ x <> c.
Proof. unfold ScheduleExecution, unlink. cbn. apply elem_without. Qed.

(** Scheduling a coroutine that exists. *)
Lemma queues_schedule P c s : is_Some (conts s !! c) -> queues P s -> queues P (ScheduleExecution c s).
Proof.
  intros Hc Q. apply (queues_same P s); auto; [exact (same_places_refl s)|..].
  - intros x Hx. apply to_run_schedule. auto.
  - intros x Hx. apply to_run_schedule in Hx as [Hx| ->]; auto.
  - intros x Hx. apply delete_schedule in Hx as [Hx Hn]. split; [auto|]. rewrite to_run_schedule. intros [Hr| ->]; [|tauto]. apply (q_exit _ _ Q x); auto.
Qed.

Lemma progress_schedule P M c s : progress P M s -> progress P M (ScheduleExecution c s).
Proof. apply progress_same; [exact (same_places_refl s)|auto]. Qed.

(** Changing a coroutine but for its place and its status. *)
Lemma queues_update P c f s : (forall t, at_ (f t) = at_ t /\ Status_ (f t) = Status_ t) -> queues P s -> queues P (update c f s).
Proof.
  intros Hf. apply queues_kept; auto. apply same_places_update. auto.
Qed.

Lemma progress_update P M c f s : (forall t, at_ (f t) = at_ t /\ Status_ (f t) = Status_ t) -> progress P M s -> progress P M (update c f s).
Proof. intros Hf. apply progress_same; [apply same_places_update; auto|auto]. Qed.

Lemma queues_timer P c s : queues P s -> queues P (unlink_timer c s).
Proof. apply queues_kept; auto. exact (same_places_refl s). Qed.

Lemma progress_timer P M c s : progress P M s -> progress P M (unlink_timer c s).
Proof. apply progress_same; [exact (same_places_refl s)|auto]. Qed.

Lemma current_schedule c s : Current_ (ScheduleExecution c s) = Current_ s.
Proof. auto. Qed.

(** Waking one that is in no queue of a mutex. *)
Lemma lookup_wake w s x : conts (Wake w s) !! x = if decide (w = x) then SetStatus EWAKEDUP <$> conts s !! w else conts s !! x.
Proof. apply (conts_update w (SetStatus EWAKEDUP) s). Qed.

Lemma woken_wake w s m x : woken_in s m x -> woken_in (Wake w s) m x.
Proof.
  intros (t&d&k&E&Ea&Es). unfold woken_in. rewrite lookup_wake. destruct (decide (w = x)) as [->|]; [rewrite E; cbn|eauto 10].
  eexists _, d, k. split; [reflexivity|]. auto.
Qed.

Lemma asleep_wake w s m x : w <> x -> asleep_in s m x -> asleep_in (Wake w s) m x.
Proof. intros Hn (t&d&k&E&H). unfold asleep_in. rewrite lookup_wake, decide_False by auto. eauto 10. Qed.

Lemma cond_wake w s cv x : in_cond s cv x -> in_cond (Wake w s) cv x.
Proof.
  intros (t&m&d&k&E&Ea). unfold in_cond. rewrite lookup_wake. destruct (decide (w = x)) as [->|]; [rewrite E; cbn|eauto 10].
  eexists _, m, d, k. split; [reflexivity|]. auto.
Qed.

Lemma event_wake w s e x : in_event s e x -> in_event (Wake w s) e x.
Proof.
  intros (t&k&E&Ea). unfold in_event. rewrite lookup_wake. destruct (decide (w = x)) as [->|]; [rewrite E; cbn|eauto 10].
  eexists _, k. split; [reflexivity|]. auto.
Qed.

Lemma to_run_wake w s x : to_run (Wake w s) x <-> to_run s x \/ x = w.
Proof. unfold Wake. rewrite to_run_schedule. auto. Qed.

Lemma live_wake w s x : is_Some (conts s !! x) -> is_Some (conts (Wake w s) !! x).
Proof. intros [t E]. rewrite lookup_wake. destruct (decide (w = x)) as [->|]; rewrite E; cbn; eauto. Qed.

(** The parts of the invariant that waking keeps whatever the queues are. *)
Lemma exit_wake w s x : is_Some (conts s !! w) -> x ∈ ToDelete_ (Wake w s) -> (x ∈ ToDelete_ s -> ~ to_run s x /\ exists t, conts s !! x = Some t /\ at_ t = Exited) ->
  ~ to_run (Wake w s) x /\ exists t, conts (Wake w s) !! x = Some t /\ at_ t = Exited.
Proof.
  intros Hw Hx H. unfold Wake in Hx. apply delete_schedule in Hx as [Hx Hn]. destruct (H Hx) as (Hr&t&E&Ea).
  rewrite to_run_wake, lookup_wake, decide_False by auto. split; [intros [|]; auto|eauto].
Qed.

Lemma queues_wake P w s : is_Some (conts s !! w) -> (forall m, w ∉ Waiters_ (mutex s m)) -> queues P s -> queues P (Wake w s).
Proof.
  intros Hw Hf Q. split.
  - intros m c Hin. apply (q_wait _ _ Q) in Hin as Hi. destruct Hi as [H1 H2]. split; [auto|]. apply asleep_wake; [|auto]. intros ->. exact (Hf m Hin).
  - apply (q_nodup _ _ Q).
  - intros cv c Hin. apply (q_cond _ _ Q) in Hin as [H1 H2]. split; [auto|]. apply cond_wake. auto.
  - intros e c Hin. apply (q_event _ _ Q) in Hin as [H1 H2]. split; [auto|]. apply event_wake. auto.
  - intros c t m d k Hn E Ea. rewrite to_run_wake. rewrite lookup_wake in E. destruct (decide (w = c)) as [->|Hne].
    + destruct (conts s !! c) as [t0|] eqn:E0; [|discriminate]. cbn in E. injection E as <-. right. auto.
    + destruct (q_lock _ _ Q c t m d k Hn E Ea) as [|[]]; auto.
  - intros x Hx. apply to_run_wake in Hx as [Hx| ->]; apply live_wake; [apply (q_live _ _ Q); auto|auto].
  - intros x Hx. apply exit_wake; auto. apply (q_exit _ _ Q).
Qed.

Lemma progress_wake P M w s : progress P M s -> progress P M (Wake w s).
Proof. intros Hg m HM Ht Hwa. destruct (Hg m HM Ht Hwa) as (c&H1&H2). exists c. split; [auto|]. apply woken_wake. auto. Qed.

(** A coroutine elsewhere is in no queue of a mutex. *)
Lemma not_waiting P s c t m : queues P s -> conts s !! c = Some t -> (forall d k, at_ t <> InLock m d k) -> c ∉ Waiters_ (mutex s m).
Proof. intros Q E Hn Hin. apply (q_wait _ _ Q) in Hin as (_&t'&d&k&E'&Ea&_). rewrite E in E'. injection E' as <-. exact (Hn d k Ea). Qed.

(** [UnLock]. *)
Lemma mutex_wake w s m : mutex (Wake w s) m = mutex s m.
Proof. auto. Qed.

Lemma UnLock_cons m s w q : Waiters_ (mutex s m) = w :: q -> UnLock m s = put_mutex m (mk_mutex true q) (Wake w s).
Proof. unfold UnLock. intros ->. auto. Qed.

Lemma UnLock_nil m s : Waiters_ (mutex s m) = [] -> UnLock m s = put_mutex m (mk_mutex true []) s.
Proof. unfold UnLock. intros ->. auto. Qed.

Lemma core_unlock c M m s : core c M s -> core c M (UnLock m s).
Proof.
  intros (Q&G&Hc). unfold core. destruct (Waiters_ (mutex s m)) as [|w q] eqn:Ew.
  - rewrite (UnLock_nil _ _ Ew). split; [|split; [|exact Hc]].
    + destruct Q as [Q1 Q2 Q3 Q4 Q5 Q6 Q7]. split; auto.
      * intros m' x. rewrite mutex_put. destruct (decide (m = m')) as [->|]; [cbn; set_solver|apply Q1].
      * intros m'. rewrite mutex_put. destruct (decide (m = m')) as [->|]; [constructor|apply Q2].
      * intros x t m' d k Hn E Ea. rewrite mutex_put. destruct (decide (m = m')) as [->|]; [|apply (Q5 x t m' d k Hn E Ea)].
        destruct (Q5 x t m' d k Hn E Ea) as [F|]; [rewrite Ew in F; set_solver|auto].
    + intros m' HM. rewrite mutex_put. destruct (decide (m = m')) as [->|]; [cbn; tauto|]. apply (G m' HM).
  - rewrite (UnLock_cons _ _ _ _ Ew). pose proof (q_nodup _ _ Q m) as Hnd. rewrite Ew in Hnd. apply NoDup_cons in Hnd as [Hwq Hnd].
    assert (Hin : w ∈ Waiters_ (mutex s m)) by (rewrite Ew; left).
    destruct (q_wait _ _ Q m w Hin) as (Hwc&t0&d0&k0&E0&Ea0&Es0).
    assert (Hother : forall m', m <> m' -> w ∉ Waiters_ (mutex s m')) by (intros m' Hne; apply (not_waiting _ _ _ _ m' Q E0); rewrite Ea0; congruence).
    split; [|split; [|exact Hc]].
    + split.
      * intros m' x. rewrite mutex_put. destruct (decide (m = m')) as [->|Hne]; intros Hx.
        -- destruct (q_wait _ _ Q m' x) as [H1 H2]; [rewrite Ew; right; exact Hx|]. split; [auto|]. apply (asleep_wake w s m' x); [intros ->; exact (Hwq Hx)|auto].
        -- destruct (q_wait _ _ Q m' x Hx) as [H1 H2]. split; [auto|]. apply (asleep_wake w s m' x); [intros ->; exact (Hother m' Hne Hx)|auto].
      * intros m'. rewrite mutex_put. destruct (decide (m = m')); [auto|apply Q].
      * intros cv x Hx. destruct (q_cond _ _ Q cv x Hx) as [H1 H2]. split; [auto|]. apply (cond_wake w s). auto.
      * intros e x Hx. destruct (q_event _ _ Q e x Hx) as [H1 H2]. split; [auto|]. apply (event_wake w s). auto.
      * intros x t m' d k Hn E Ea. change (to_run (put_mutex m (mk_mutex true q) (Wake w s)) x) with (to_run (Wake w s) x). rewrite to_run_wake, mutex_put.
        change (conts (put_mutex m (mk_mutex true q) (Wake w s))) with (conts (Wake w s)) in E. rewrite lookup_wake in E.
        destruct (decide (w = x)) as [->|Hne]; [rewrite E0 in E; injection E as <-; right; auto|].
        destruct (q_lock _ _ Q x t m' d k Hn E Ea) as [F|[F1 F2]]; [|right; auto]. left.
        destruct (decide (m = m')) as [->|]; [rewrite Ew in F; cbn; set_solver|auto].
      * intros x Hx. apply (live_wake w s). change (to_run (Wake w s) x) in Hx. apply to_run_wake in Hx as [Hx| ->]; [apply (q_live _ _ Q x Hx)|eauto].
      * intros x Hx. apply (exit_wake w s x); [eauto|exact Hx|apply (q_exit _ _ Q)].
    + intros m' HM. rewrite mutex_put. destruct (decide (m = m')) as [->|Hne].
      * intros _ _. exists w. split; [auto|]. unfold woken_in. change (conts (put_mutex m' (mk_mutex true q) (Wake w s))) with (conts (Wake w s)).
        rewrite lookup_wake, decide_True, E0 by auto. cbn. eexists _, d0, k0. split; [reflexivity|]. auto.
      * intros Ht Hw. destruct (G m' HM Ht Hw) as (x&Hx&Hwk). exists x. split; [auto|]. apply (woken_wake w s). auto.
Qed.

(** ** What the running coroutine does *)

Lemma core_wake c M w s : is_Some (conts s !! w) -> (forall m, w ∉ Waiters_ (mutex s m)) -> core c M s -> core c M (Wake w s).
Proof. intros Hw Hf (Q&G&Hc). split; [apply queues_wake; auto|]. split; [apply progress_wake; auto|exact Hc]. Qed.

Lemma core_put_condvar c M cv q s : (forall x, x ∈ q -> x ∈ condvar s cv) -> core c M s -> core c M (put_condvar cv q s).
Proof.
  intros Hq (Q&G&Hc). split; [|split; auto]. destruct Q as [Q1 Q2 Q3 Q4 Q5 Q6 Q7]. split; auto.
  intros cv' x. rewrite condvar_put. destruct (decide (cv = cv')) as [<-|]; [|apply Q3]. intros Hx. apply (Q3 cv x). auto.
Qed.

Lemma core_put_event c M e x s : (forall w, Ev_ x = Some w -> Ev_ (event s e) = Some w) -> core c M s -> core c M (put_event e x s).
Proof.
  intros Hq (Q&G&Hc). split; [|split; auto]. destruct Q as [Q1 Q2 Q3 Q4 Q5 Q6 Q7]. split; auto.
  intros e' w. rewrite event_put. destruct (decide (e = e')) as [<-|]; [|apply Q4]. intros Hx. apply (Q4 e w). auto.
Qed.

Lemma in_cond_not_waiting P s cv w : queues P s -> in_cond s cv w -> is_Some (conts s !! w) /\ forall m, w ∉ Waiters_ (mutex s m).
Proof. intros Q (t&m&d&k&E&Ea). split; [eauto|]. intros m'. apply (not_waiting P s w t m' Q E). rewrite Ea. discriminate. Qed.

Lemma in_event_not_waiting P s e w : queues P s -> in_event s e w -> is_Some (conts s !! w) /\ forall m, w ∉ Waiters_ (mutex s m).
Proof. intros Q (t&k&E&Ea). split; [eauto|]. intros m'. apply (not_waiting P s w t m' Q E). rewrite Ea. discriminate. Qed.

Lemma core_broadcast c M q s : (forall w, w ∈ q -> exists cv, in_cond s cv w) -> core c M s -> core c M (BroadCast q s).
Proof.
  revert s. induction q as [|w q IH]; intros s Hq Hc; [exact Hc|]. cbn [BroadCast fold_left]. destruct (Hq w) as (cv&Hw); [left|].
  destruct (in_cond_not_waiting _ _ _ _ (proj1 Hc) Hw) as [H1 H2]. apply (IH (Wake w s)); [|apply core_wake; auto].
  intros x Hx. destruct (Hq x) as (cv'&H); [right; auto|]. eauto using cond_wake.
Qed.

Lemma core_cond_signal c M cv s : core c M s -> core c M (let '(q, s) := Signal (condvar s cv) s in put_condvar cv q s).
Proof.
  intros Hc. unfold Signal. destruct (condvar s cv) as [|w q] eqn:Eq; [apply core_put_condvar; [set_solver|auto]|].
  assert (Hin : w ∈ condvar s cv) by (rewrite Eq; left). destruct (q_cond _ _ (proj1 Hc) cv w Hin) as [_ Hw].
  destruct (in_cond_not_waiting _ _ _ _ (proj1 Hc) Hw) as [H1 H2]. apply core_put_condvar; [|apply core_wake; auto].
  intros x Hx. change (x ∈ condvar s cv). rewrite Eq. right. auto.
Qed.

Lemma core_my_signal c M e s : core c M s -> core c M (my_signal e s).
Proof.
  intros Hc. unfold my_signal. assert (Hp : core c M (put_event e (mk_event (Ev_ (event s e)) true) s)) by (apply core_put_event; auto).
  destruct (Ev_ (event s e)) as [w|] eqn:Ew; [|exact Hp]. destruct (q_event _ _ (proj1 Hc) e w Ew) as [_ Hw].
  destruct (in_event_not_waiting _ _ _ _ (proj1 Hc) Hw) as [H1 H2]. apply core_wake; auto.
Qed.

(** A new coroutine. *)
Lemma queues_create P p s : queues P s -> queues P (snd (Create p s)).
Proof.
  intros Q. unfold Create. set (n := fresh (dom (conts s))). assert (Hn : conts s !! n = None) by (apply not_elem_of_dom, is_fresh).
  cbn [snd]. apply queues_schedule; [cbn; rewrite lookup_insert_eq; eauto|].
  assert (Ho : forall x t, conts s !! x = Some t -> (<[n := mk_cont (AtProg p) false EINPROGRESS 0]> (conts s)) !! x = Some t)
    by (intros x t E; rewrite lookup_insert_ne; auto; intros <-; congruence).
  destruct Q as [Q1 Q2 Q3 Q4 Q5 Q6 Q7]. split; auto.
  - intros m x Hx. destruct (Q1 m x Hx) as (H1&t&d&k&E&Ea). split; [auto|]. exists t, d, k. split; [apply Ho; auto|auto].
  - intros cv x Hx. destruct (Q3 cv x Hx) as (H1&t&m&d&k&E&Ea). split; [auto|]. exists t, m, d, k. split; [apply Ho; auto|auto].
  - intros e x Hx. destruct (Q4 e x Hx) as (H1&t&k&E&Ea). split; [auto|]. exists t, k. split; [apply Ho; auto|auto].
  - intros x t m d k Hp E Ea. cbn [set_conts conts] in E. apply lookup_insert_Some in E as [[<- <-]|[_ E]]; [discriminate|]. apply (Q5 x t m d k); auto.
  - intros x Hx. destruct (Q6 x Hx) as [t E]. exists t. apply Ho. auto.
  - intros x Hx. destruct (Q7 x Hx) as (H1&t&E&Ea). split; [auto|]. exists t. split; [apply Ho; auto|auto].
Qed.

Lemma progress_create P M p s : progress P M s -> progress P M (snd (Create p s)).
Proof.
  intros G m HM Ht Hw. destruct (G m HM Ht Hw) as (x&H1&t&d&k&E&H2). exists x. split; [auto|]. exists t, d, k. split; [|auto].
  unfold Create, ScheduleExecution, unlink. cbn. rewrite lookup_insert_ne; auto. intros <-. apply elem_of_dom_2 in E. exact (is_fresh _ E).
Qed.

Lemma core_create c M p s : core c M s -> core c M (snd (Create p s)).
Proof. intros (Q&G&Hc). split; [apply queues_create; auto|]. split; [apply progress_create; auto|exact Hc]. Qed.

Lemma core_cancel c M c' s s' : core c M s -> Cancel c' s = Some s' -> core c M s'.
Proof.
  intros Hc E. unfold Cancel in E. destruct (conts s !! c') as [t|] eqn:Ec; [|discriminate]. destruct (Cancelled_ t); [inv E; auto|].
  assert (Hu : core c M (update c' set_cancelled s)).
  { destruct Hc as (Q&G&Hc). split; [apply queues_update; auto|]. split; [apply progress_update; auto|exact Hc]. }
  destruct (bool_decide _); inv E; [exact Hu|]. destruct Hu as (Q&G&Hcu). split; [|split; [apply progress_schedule; auto|exact Hcu]].
  apply queues_schedule; [|auto]. rewrite conts_update, decide_True, Ec by auto. cbn. eauto.
Qed.

(** ** Between two places *)

(** [c] comes to rest at a place. *)
Lemma settle c M s s' t' : core c M s -> conts s' !! c = Some t' -> (forall x, x <> c -> conts s' !! x = conts s !! x) ->
  (forall m x, x ∈ Waiters_ (mutex s' m) -> x ∈ Waiters_ (mutex s m) \/ (x = c /\ asleep_in s' m c)) ->
  (forall m x, x ∈ Waiters_ (mutex s m) -> x ∈ Waiters_ (mutex s' m)) -> (forall m, NoDup (Waiters_ (mutex s' m))) ->
  (forall cv x, x ∈ condvar s' cv -> x ∈ condvar s cv \/ (x = c /\ in_cond s' cv c)) ->
  (forall e x, Ev_ (event s' e) = Some x -> Ev_ (event s e) = Some x \/ (x = c /\ in_event s' e c)) ->
  (forall m d k, at_ t' = InLock m d k -> c ∈ Waiters_ (mutex s' m)) ->
  (forall x, x <> c -> to_run s x -> to_run s' x) -> (forall x, to_run s' x -> to_run s x \/ x = c) ->
  (forall x, x ∈ ToDelete_ s' -> x ∈ ToDelete_ s \/ (x = c /\ at_ t' = Exited /\ ~ to_run s' c)) ->
  (forall m, Token_ (mutex s' m) = true -> Waiters_ (mutex s' m) <> [] -> M m /\ Token_ (mutex s m) = true /\ Waiters_ (mutex s m) <> []) ->
  sane s'.
Proof.
  intros (Q&G&Hcur) Ec Eo W1 W2 W3 W4 W5 W6 R1 R2 R3 T. split.
  - split.
    + intros m x Hx. split; [tauto|]. destruct (W1 m x Hx) as [Hx'|[-> Ha]]; [|exact Ha]. destruct (q_wait _ _ Q m x Hx') as (Hne&t&d&k&E&Ha).
      exists t, d, k. rewrite Eo by auto. auto.
    + exact W3.
    + intros cv x Hx. split; [tauto|]. destruct (W4 cv x Hx) as [Hx'|[-> Ha]]; [|exact Ha]. destruct (q_cond _ _ Q cv x Hx') as (Hne&t&m&d&k&E&Ha).
      exists t, m, d, k. rewrite Eo by auto. auto.
    + intros e x Hx. split; [tauto|]. destruct (W5 e x Hx) as [Hx'|[-> Ha]]; [|exact Ha]. destruct (q_event _ _ Q e x Hx') as (Hne&t&k&E&Ha).
      exists t, k. rewrite Eo by auto. auto.
    + intros x t m d k _ E Ea. destruct (decide (x = c)) as [->|Hne].
      * left. rewrite Ec in E. injection E as <-. eapply W6; eauto.
      * rewrite Eo in E by auto. destruct (q_lock _ _ Q x t m d k) as [|[]]; auto.
    + intros x Hx. destruct (decide (x = c)) as [->|Hne]; [eauto|]. rewrite Eo by auto. destruct (R2 x Hx); [apply (q_live _ _ Q); auto|congruence].
    + intros x Hx. destruct (R3 x Hx) as [Hx'|(->&H1&H2)]; [|eauto]. destruct (q_exit _ _ Q x Hx') as (H1&t&E&Ea).
      assert (Hne : x <> c) by (intros ->; apply H1; right; auto). split; [|exists t; rewrite Eo by auto; auto].
      intros Hr. apply R2 in Hr as [|]; auto.
  - intros m _ Ht Hw. destruct (T m Ht Hw) as (HM&Ht'&Hw'). destruct (G m HM Ht' Hw') as (x&Hx&t&d&k&E&Ha).
    exists x. split; [tauto|]. exists t, d, k. rewrite Eo by auto. auto.
Qed.

(** The running coroutine exists and is in no queue. *)
Lemma core_here c M s : core c M s -> is_Some (conts s !! c) /\ forall m, c ∉ Waiters_ (mutex s m).
Proof.
  intros (Q&_&Hc). split; [apply (q_live _ _ Q); right; auto|]. intros m Hm. apply (q_wait _ _ Q) in Hm as [Hn _]. auto.
Qed.

Lemma conts_alter_other c f s x : x <> c -> conts (update c f s) !! x = conts s !! x.
Proof. intros Hn. rewrite conts_update, decide_False; auto. Qed.

Lemma conts_alter_same c f s t : conts s !! c = Some t -> conts (update c f s) !! c = Some (f t).
Proof. intros E. rewrite conts_update, decide_True, E by auto. auto. Qed.

Lemma sane_continue c p s : core c all s -> sane (continue c p s).
Proof.
  intros Hc. destruct (core_here _ _ _ Hc) as [[t Et] Hn]. pose proof (q_nodup _ _ (proj1 Hc)).
  apply (settle c all s _ (go_to (AtProg p) t) Hc); auto; [apply conts_alter_same; auto|intros; apply conts_alter_other; auto|discriminate|].
  intros m H1 H2. unfold all. auto.
Qed.

Definition suspended (c : cont) (d : Z) (here : place) (s : TContExecutor) : TContExecutor :=
  SwitchToScheduler (Register d c (update c (fun t => with_timer EINPROGRESS (go_to here t)) s)).

Lemma to_run_suspended c d here s x : to_run (suspended c d here s) x <-> x ∈ Ready_ s /\ x <> c.
Proof. unfold to_run, suspended, SwitchToScheduler, Register, unlink. cbn. fold (without c (Ready_ s)). rewrite elem_without. intuition discriminate. Qed.

Lemma delete_suspended c d here s x : x ∈ ToDelete_ (suspended c d here s) -> x ∈ ToDelete_ s.
Proof. unfold suspended, SwitchToScheduler, Register, unlink. cbn. fold (without c (ToDelete_ s)). rewrite elem_without. tauto. Qed.

Lemma ExecuteEvent_cases c d here s : ExecuteEvent c d here s = (Some ECANCELED, s) \/ ExecuteEvent c d here s = (None, suspended c d here s).
Proof. unfold ExecuteEvent. destruct (cancelled c s); auto. Qed.

(** Who was to run still is; [s0] is the state before the queues changed. *)
Lemma suspended_runs c M s s0 d here : core c M s -> Ready_ s0 = Ready_ s ->
  (forall x, x <> c -> to_run s x -> to_run (suspended c d here s0) x) /\ (forall x, to_run (suspended c d here s0) x -> to_run s x \/ x = c).
Proof.
  intros (_&_&Hc) Hr. split; intros x; rewrite to_run_suspended, Hr.
  - intros Hn [H|H]; [auto|]. rewrite Hc in H. congruence.
  - intros [H _]. left. left. auto.
Qed.

Lemma suspended_cont c d here s t : conts s !! c = Some t ->
  conts (suspended c d here s) !! c = Some (with_timer EINPROGRESS (go_to here t)) /\ forall x, x <> c -> conts (suspended c d here s) !! x = conts s !! x.
Proof. intros E. split; [apply (conts_alter_same c (fun t => with_timer EINPROGRESS (go_to here t)) s t E)|intros x Hx; apply (conts_alter_other c (fun t => with_timer EINPROGRESS (go_to here t)) s x Hx)]. Qed.

(** Sleeping outside of the queues. *)
Lemma sane_sleep c d here s : (forall m d k, here <> InLock m d k) -> core c all s -> sane (suspended c d here s).
Proof.
  intros Hh Hc. destruct (core_here _ _ _ Hc) as [[t Et] Hn]. destruct (suspended_cont c d here s t Et) as [E1 E2].
  destruct (suspended_runs c all s s d here Hc eq_refl) as [R1 R2]. pose proof (q_nodup _ _ (proj1 Hc)).
  apply (settle c all s _ _ Hc E1 E2); auto.
  - intros m d0 k E. destruct (Hh m d0 k E).
  - intros x Hx. left. eapply delete_suspended; eauto.
  - intros m H1 H2. unfold all. auto.
Qed.

(** Waiting in the queue of a mutex that is taken. *)
Lemma sane_wait_mutex c m d k s : core c (fun m' => m' <> m) s -> Token_ (mutex s m) = false ->
  sane (suspended c d (InLock m d k) (update c (SetStatus 0) (put_mutex m (mk_mutex false (Waiters_ (mutex s m) ++ [c])) s))).
Proof.
  intros Hc Ht. destruct (core_here _ _ _ Hc) as [[t Et] Hn]. set (s0 := update c _ _).
  assert (E0 : conts s0 !! c = Some (SetStatus 0 t)) by (apply (conts_alter_same c (SetStatus 0) (put_mutex m (mk_mutex false (Waiters_ (mutex s m) ++ [c])) s)); auto).
  destruct (suspended_cont c d (InLock m d k) s0 _ E0) as [E1 E2]. destruct (suspended_runs c _ s s0 d (InLock m d k) Hc eq_refl) as [R1 R2].
  assert (Hm : forall m', mutex (suspended c d (InLock m d k) s0) m' = mutex (put_mutex m (mk_mutex false (Waiters_ (mutex s m) ++ [c])) s) m') by auto.
  pose proof (q_nodup _ _ (proj1 Hc)) as Hnd.
  apply (settle c _ s _ _ Hc E1); auto.
  - intros x Hx. rewrite E2 by auto. apply (conts_alter_other c (SetStatus 0) (put_mutex m (mk_mutex false (Waiters_ (mutex s m) ++ [c])) s) x Hx).
  - intros m' x. rewrite Hm, mutex_put. destruct (decide (m = m')) as [<-|]; [|auto]. cbn. rewrite elem_of_app, list_elem_of_singleton.
    intros [Hx| ->]; [auto|]. right. split; [auto|]. exists (with_timer EINPROGRESS (go_to (InLock m d k) (SetStatus 0 t))), d, k. auto.
  - intros m' x. rewrite Hm, mutex_put. destruct (decide (m = m')) as [<-|]; [|auto]. cbn. rewrite elem_of_app. auto.
  - intros m'. rewrite Hm, mutex_put. destruct (decide (m = m')) as [<-|]; [|auto]. cbn. apply NoDup_app. split; [auto|].
    split; [|apply NoDup_singleton]. intros x Hx. rewrite list_elem_of_singleton. intros ->. exact (Hn m Hx).
  - intros m' d0 k0 E. cbn in E. injection E as <- <- <-. rewrite Hm, mutex_put, decide_True by auto. cbn. apply elem_of_app. right. left.
  - intros x Hx. left. apply delete_suspended in Hx. exact Hx.
  - intros m'. rewrite Hm, mutex_put. destruct (decide (m = m')) as [<-|]; [discriminate|]. auto.
Qed.

(** The loop of [LockD]: it takes the mutex or waits for it, whoever was woken for it. *)
Lemma sane_lock_loop c m d k s : core c (fun m' => m' <> m) s -> sane (fst (lock_loop c m d k s)).
Proof.
  intros Hc. unfold lock_loop. destruct (core_here _ _ _ Hc) as [[t Et] Hn]. destruct (Token_ (mutex s m)) eqn:Et'; cbn [fst].
  - apply (settle c _ s _ (go_to (AtProg (k 0)) t) Hc); auto.
    + apply (conts_alter_same c _ (put_mutex m (mk_mutex false (Waiters_ (mutex s m))) s)). auto.
    + intros x Hx. apply (conts_alter_other c _ (put_mutex m (mk_mutex false (Waiters_ (mutex s m))) s) x Hx).
    + intros m' x. change (mutex (continue _ _ ?q) m') with (mutex q m'). rewrite mutex_put. destruct (decide (m = m')) as [<-|]; auto.
    + intros m' x. change (mutex (continue _ _ ?q) m') with (mutex q m'). rewrite mutex_put. destruct (decide (m = m')) as [<-|]; auto.
    + intros m'. change (mutex (continue _ _ ?q) m') with (mutex q m'). rewrite mutex_put. destruct (decide (m = m')) as [<-|]; apply (q_nodup _ _ (proj1 Hc)).
    + discriminate.
    + intros m'. change (mutex (continue _ _ ?q) m') with (mutex q m'). rewrite mutex_put. destruct (decide (m = m')) as [<-|]; [discriminate|auto].
  - unfold event_wait. destruct (ExecuteEvent_cases c d (InLock m d k) (update c (SetStatus 0) (put_mutex m (mk_mutex false (Waiters_ (mutex s m) ++ [c])) s))) as [-> | ->]; cbn [fst].
    + set (s0 := put_mutex m (mk_mutex false (Waiters_ (mutex s m))) _).
      assert (Hm : forall m', Waiters_ (mutex (continue c (k ECANCELED) s0) m') = Waiters_ (mutex s m') /\ Token_ (mutex (continue c (k ECANCELED) s0) m') = Token_ (mutex s m')).
      { intros m'. change (mutex (continue c (k ECANCELED) s0) m') with (mutex s0 m'). unfold s0. rewrite mutex_put.
        destruct (decide (m = m')) as [<-|Hne]; [auto|]. change (mutex (update c ?f ?q) m') with (mutex q m'). rewrite mutex_put, decide_False by auto. auto. }
      assert (E0 : conts s0 !! c = Some (SetStatus 0 t)) by (apply (conts_alter_same c (SetStatus 0) (put_mutex m (mk_mutex false (Waiters_ (mutex s m) ++ [c])) s)); auto).
      apply (settle c _ s _ (go_to (AtProg (k ECANCELED)) (SetStatus 0 t)) Hc); auto.
      * apply (conts_alter_same c _ s0). auto.
      * intros x Hx. etransitivity; [apply (conts_alter_other c _ s0 x Hx)|].
        apply (conts_alter_other c (SetStatus 0) (put_mutex m (mk_mutex false (Waiters_ (mutex s m) ++ [c])) s) x Hx).
      * intros m' x. rewrite (proj1 (Hm m')). auto.
      * intros m' x. rewrite (proj1 (Hm m')). auto.
      * intros m'. rewrite (proj1 (Hm m')). apply (q_nodup _ _ (proj1 Hc)).
      * discriminate.
      * intros m'. rewrite (proj1 (Hm m')), (proj2 (Hm m')). intros H1 H2. split; [|auto]. intros ->. congruence.
    + apply sane_wait_mutex; auto.
Qed.

(** ** A coroutine that is switched to *)

(** What [c], at its place [t], leaves behind: nothing changes but that it is in no queue. *)
Lemma core_start c t s s' M : sane s -> Current_ s = Some c -> conts s !! c = Some t -> same_places s s' ->
  Ready_ s' = Ready_ s -> Current_ s' = Current_ s -> ToDelete_ s' = ToDelete_ s ->
  (forall m x, x ∈ Waiters_ (mutex s' m) <-> x ∈ Waiters_ (mutex s m) /\ x <> c) -> (forall m, NoDup (Waiters_ (mutex s' m))) ->
  (forall m, Token_ (mutex s' m) = Token_ (mutex s m)) ->
  (forall cv x, x ∈ condvar s' cv -> x ∈ condvar s cv /\ x <> c) -> (forall e x, Ev_ (event s' e) = Some x -> Ev_ (event s e) = Some x /\ x <> c) ->
  (forall m, M m -> ~ woken_in s m c) -> core c M s'.
Proof.
  intros [Q G] Hc Et Hp Hr Hcu Hd W1 W2 W3 W4 W5 HM. assert (Hrun : forall x, to_run s' x <-> to_run s x) by (intros x; unfold to_run; rewrite Hr, Hcu; tauto).
  split; [|split; [|congruence]].
  - split.
    + intros m x Hx. apply W1 in Hx as [Hx Hn]. split; [auto|]. apply (q_wait _ _ Q) in Hx as [_ Ha]. eauto using places_asleep.
    + exact W2.
    + intros cv x Hx. apply W4 in Hx as [Hx Hn]. split; [auto|]. apply (q_cond _ _ Q) in Hx as [_ Ha]. eauto using places_cond.
    + intros e x Hx. apply W5 in Hx as [Hx Hn]. split; [auto|]. apply (q_event _ _ Q) in Hx as [_ Ha]. eauto using places_event.
    + intros x t1 m d k Hn E Ea. destruct (same_places_some' _ _ _ _ Hp E) as (t0&E0&Ea0&Es0). rewrite Ea0 in Ea.
      destruct (q_lock _ _ Q x t0 m d k (fun F => F) E0 Ea) as [Hx|[H1 H2]]; [left; apply W1; auto|right]. rewrite Es0. split; [auto|apply Hrun; auto].
    + intros x Hx. apply Hrun in Hx. apply (q_live _ _ Q) in Hx as [t0 E0]. destruct (same_places_some _ _ _ _ Hp E0) as (t1&E1&_). eauto.
    + intros x Hx. rewrite Hd in Hx. destruct (q_exit _ _ Q x Hx) as (H1&t0&E0&Ea0). split; [rewrite Hrun; auto|].
      destruct (same_places_some _ _ _ _ Hp E0) as (t1&E1&Ea1&_). exists t1. rewrite Ea1. auto.
  - intros m Hm Ht Hw. rewrite W3 in Ht. assert (Hw' : Waiters_ (mutex s m) <> []).
    { intros F. destruct (Waiters_ (mutex s' m)) as [|x q] eqn:Eq; [tauto|]. assert (Hx : x ∈ Waiters_ (mutex s' m)) by (rewrite Eq; left).
      apply W1 in Hx as [Hx _]. rewrite F in Hx. set_solver. }
    destruct (G m Logic.I Ht Hw') as (x&_&Hwk). exists x. split; [|eauto using places_woken]. intros ->. exact (HM m Hm Hwk).
Qed.

(** Where it is not. *)
Lemma elsewhere s c t : sane s -> conts s !! c = Some t ->
  (forall m, (forall d k, at_ t <> InLock m d k) -> c ∉ Waiters_ (mutex s m) /\ ~ woken_in s m c) /\
  (forall cv, (forall m d k, at_ t <> InCond cv m d k) -> c ∉ condvar s cv) /\
  (forall e, (forall k, at_ t <> InMyEvent e k) -> Ev_ (event s e) <> Some c).
Proof.
  intros [Q _] E. split; [|split].
  - intros m Hn. split; [exact (not_waiting _ _ _ _ m Q E (Hn))|]. intros (t'&d&k&E'&Ea&_). rewrite E in E'. injection E' as <-. eapply Hn; eauto.
  - intros cv Hn Hx. apply (q_cond _ _ Q) in Hx as (_&t'&m&d&k&E'&Ea). rewrite E in E'. injection E' as <-. eapply Hn; eauto.
  - intros e Hn Hx. apply (q_event _ _ Q) in Hx as (_&t'&k&E'&Ea). rewrite E in E'. injection E' as <-. eapply Hn; eauto.
Qed.

Lemma not_in_ne (x c : cont) (l : list cont) : c ∉ l -> x ∈ l -> x <> c.
Proof. intros Hn Hx ->. auto. Qed.

Section switched.
Context (s : TContExecutor) (c : cont) (t : TCont) (HS : sane s) (Hcur : Current_ s = Some c) (Et : conts s !! c = Some t).

(** At a call, or asleep outside of the queues. *)
Lemma core_free : (forall m d k, at_ t <> InLock m d k) -> (forall cv m d k, at_ t <> InCond cv m d k) -> (forall e k, at_ t <> InMyEvent e k) -> core c all s.
Proof.
  intros H1 H2 H3. destruct (elsewhere _ _ _ HS Et) as (E1&E2&E3). destruct HS as [Q _].
  apply (core_start c t s s); auto using same_places_refl.
  - intros m x. split; [|tauto]. intros Hx. split; [auto|]. eapply not_in_ne; [apply (E1 m); intros; apply H1|exact Hx].
  - apply (q_nodup _ _ Q).
  - intros cv x Hx. split; [auto|]. eapply not_in_ne; [apply (E2 cv); intros; apply H2|exact Hx].
  - intros e x Hx. split; [auto|]. intros ->. apply (E3 e); [intros; apply H3|auto].
  - intros m _. apply (E1 m). intros; apply H1.
Qed.

Lemma core_timer_free : core c all s -> core c all (unlink_timer c s).
Proof. intros (Q&G&Hc). split; [apply queues_timer; auto|]. split; [apply progress_timer; auto|exact Hc]. Qed.

(** Leaving the queue of a mutex. *)
Lemma core_lock m d k : at_ t = InLock m d k ->
  core c (fun m' => Status_ t <> EWAKEDUP \/ m' <> m) (put_mutex m (mk_mutex (Token_ (mutex s m)) (without c (Waiters_ (mutex s m)))) (unlink_timer c s)).
Proof.
  intros Ha. destruct (elsewhere _ _ _ HS Et) as (E1&E2&E3). destruct HS as [Q _].
  assert (Hnd : forall m', NoDup (Waiters_ (mutex s m'))) by apply (q_nodup _ _ Q).
  eapply (core_start c t s); auto; [exact (same_places_refl s)|..].
  - intros m' x. rewrite mutex_put. destruct (decide (m = m')) as [<-|Hne]; cbn; [apply elem_without|].
    split; [|tauto]. intros Hx. split; [auto|]. eapply not_in_ne; [apply (E1 m'); intros; rewrite Ha; congruence|exact Hx].
  - intros m'. rewrite mutex_put. destruct (decide (m = m')) as [<-|Hne]; cbn; [apply NoDup_filter; auto|apply Hnd].
  - intros m'. rewrite mutex_put. destruct (decide (m = m')) as [<-|Hne]; auto.
  - intros cv x Hx. split; [auto|]. eapply not_in_ne; [apply (E2 cv); intros; rewrite Ha; congruence|exact Hx].
  - intros e x Hx. split; [auto|]. intros ->. apply (E3 e); [intros; rewrite Ha; congruence|auto].
  - intros m' [Hs|Hne].
    + intros (t'&d'&k'&E'&Ea'&Es'). rewrite Et in E'. injection E' as <-. auto.
    + apply (E1 m'). intros; rewrite Ha; congruence.
Qed.

Lemma core_cond cv m d k : at_ t = InCond cv m d k -> core c all (put_condvar cv (without c (condvar s cv)) (unlink_timer c s)).
Proof.
  intros Ha. destruct (elsewhere _ _ _ HS Et) as (E1&E2&E3). destruct HS as [Q _].
  eapply (core_start c t s); auto; [exact (same_places_refl s)|..].
  - intros m' x. change (mutex (put_condvar _ _ ?q) m') with (mutex s m'). split; [|tauto]. intros Hx. split; [auto|].
    eapply not_in_ne; [apply (E1 m'); intros; rewrite Ha; congruence|exact Hx].
  - apply (q_nodup _ _ Q).
  - intros cv' x. rewrite condvar_put. destruct (decide (cv = cv')) as [<-|Hne]; [apply elem_without|].
    intros Hx. split; [auto|]. eapply not_in_ne; [apply (E2 cv'); intros; rewrite Ha; congruence|exact Hx].
  - intros e x Hx. split; [auto|]. intros ->. apply (E3 e); [intros; rewrite Ha; congruence|auto].
  - intros m' _. apply (E1 m'). intros; rewrite Ha; congruence.
Qed.

Lemma core_event e k : at_ t = InMyEvent e k -> core c all (put_event e (mk_event None false) (unlink_timer c s)).
Proof.
  intros Ha. destruct (elsewhere _ _ _ HS Et) as (E1&E2&E3). destruct HS as [Q _].
  eapply (core_start c t s); auto; [exact (same_places_refl s)|..].
  - intros m' x. change (mutex (put_event _ _ ?q) m') with (mutex s m'). split; [|tauto]. intros Hx. split; [auto|].
    eapply not_in_ne; [apply (E1 m'); intros; rewrite Ha; congruence|exact Hx].
  - apply (q_nodup _ _ Q).
  - intros cv x Hx. split; [auto|]. eapply not_in_ne; [apply (E2 cv); intros; rewrite Ha; congruence|exact Hx].
  - intros e' x. rewrite event_put. destruct (decide (e = e')) as [<-|Hne]; [discriminate|].
    intros Hx. split; [auto|]. intros ->. apply (E3 e'); [intros; rewrite Ha; congruence|auto].
  - intros m' _. apply (E1 m'). intros; rewrite Ha; congruence.
Qed.
End switched.

Lemma core_weaken c (M M' : positive -> Prop) s : (forall m, M' m -> M m) -> core c M s -> core c M' s.
Proof. intros H (Q&G&Hc). split; [auto|]. split; [|auto]. intros m Hm. apply G. auto. Qed.

Lemma event_result_cases c ret s t : conts s !! c = Some t -> event_result c ret s = (if Status_ t =? 0 then ret else Status_ t).
Proof. intros E. unfold event_result. rewrite E. auto. Qed.

(** ** Steps *)

Lemma sane_lock_woken s c t m d k : sane s -> Current_ s = Some c -> conts s !! c = Some t -> at_ t = InLock m d k -> sane (fst (lock_woken c m d k s)).
Proof.
  intros HS Hcur Et Ha. pose proof (core_lock s c t HS Hcur Et m d k Ha) as Hc. unfold lock_woken, waited, slept. rewrite Et. cbv iota beta zeta.
  rewrite (event_result_cases c _ (unlink_timer c s) t Et). set (ret := if Status_ t =? 0 then _ else _).
  destruct (Z.eqb_spec ret EWAKEDUP) as [Hr|Hr].
  - apply sane_lock_loop. eapply core_weaken; [|exact Hc]. intros m' Hm. right. auto.
  - apply sane_continue. eapply core_weaken; [|exact Hc]. intros m' _. left. intros Hs. apply Hr. unfold ret. rewrite Hs. reflexivity.
Qed.

Lemma sane_cond_woken s c t cv m d k : sane s -> Current_ s = Some c -> conts s !! c = Some t -> at_ t = InCond cv m d k -> sane (fst (cond_woken c cv m d k s)).
Proof.
  intros HS Hcur Et Ha. pose proof (core_cond s c t HS Hcur Et cv m d k Ha) as Hc. unfold cond_woken, waited, slept. rewrite Et. cbv iota beta zeta.
  destruct (_ =? EWAKEDUP).
  - apply sane_lock_loop. eapply core_weaken; [|exact Hc]. unfold all. auto.
  - apply sane_continue. exact Hc.
Qed.

Lemma sane_my_woken s c t e k : sane s -> Current_ s = Some c -> conts s !! c = Some t -> at_ t = InMyEvent e k -> sane (my_woken c e k s).
Proof.
  intros HS Hcur Et Ha. pose proof (core_event s c t HS Hcur Et e k Ha) as Hc. unfold my_woken, waited, slept. rewrite Et. apply sane_continue. exact Hc.
Qed.

(** Waiting in a queue that is no mutex's: [s0] is the state with the queue. *)
Lemma sane_wait_queue c d here s s0 : core c all s -> (forall m d k, here <> InLock m d k) -> conts s0 = conts s -> mutexes s0 = mutexes s ->
  Ready_ s0 = Ready_ s -> ToDelete_ s0 = ToDelete_ s ->
  (forall cv x, x ∈ condvar s0 cv -> x ∈ condvar s cv \/ (x = c /\ exists m d k, here = InCond cv m d k)) ->
  (forall e x, Ev_ (event s0 e) = Some x -> Ev_ (event s e) = Some x \/ (x = c /\ exists k, here = InMyEvent e k)) ->
  sane (suspended c d here (update c (SetStatus 0) s0)).
Proof.
  intros Hc Hh E0 Em Er Ed W4 W5. destruct (core_here _ _ _ Hc) as [[t Et] Hn]. rewrite <- E0 in Et.
  pose proof (conts_alter_same c (SetStatus 0) s0 t Et) as Eu. destruct (suspended_cont c d here _ _ Eu) as [E1 E2].
  destruct (suspended_runs c all s (update c (SetStatus 0) s0) d here Hc Er) as [R1 R2].
  assert (Hm : forall m, mutex (suspended c d here (update c (SetStatus 0) s0)) m = mutex s m) by (intros m; unfold mutex; cbn; rewrite Em; auto).
  apply (settle c all s _ _ Hc E1); auto.
  - intros x Hx. rewrite E2 by auto. rewrite (conts_alter_other c (SetStatus 0) s0 x Hx), E0. auto.
  - intros m x. rewrite Hm. auto.
  - intros m x. rewrite Hm. auto.
  - intros m. rewrite Hm. apply (q_nodup _ _ (proj1 Hc)).
  - intros cv x Hx. destruct (W4 cv x Hx) as [|(->&m&d0&k&->)]; [auto|]. right. split; [auto|]. eexists _, m, d0, k. split; [exact E1|auto].
  - intros e x Hx. destruct (W5 e x Hx) as [|(->&k&->)]; [auto|]. right. split; [auto|]. eexists _, k. split; [exact E1|auto].
  - intros m d0 k F. destruct (Hh m d0 k F).
  - intros x Hx. left. apply delete_suspended in Hx. cbn in Hx. rewrite Ed in Hx. auto.
  - intros m. rewrite Hm. unfold all. auto.
Qed.

(** A call that returns without a sleep. *)
Lemma sane_back c p s s0 : core c all s -> conts s0 = conts s -> mutexes s0 = mutexes s -> Ready_ s0 = Ready_ s -> ToDelete_ s0 = ToDelete_ s -> Current_ s0 = Current_ s ->
  (forall cv x, x ∈ condvar s0 cv -> x ∈ condvar s cv) -> (forall e x, Ev_ (event s0 e) = Some x -> Ev_ (event s e) = Some x) -> sane (continue c p (update c (SetStatus 0) s0)).
Proof.
  intros Hc E0 Em Er Ed Ec W4 W5. destruct (core_here _ _ _ Hc) as [[t Et] Hn]. rewrite <- E0 in Et.
  pose proof (conts_alter_same c (SetStatus 0) s0 t Et) as Eu. pose proof (conts_alter_same c (go_to (AtProg p)) (update c (SetStatus 0) s0) _ Eu) as E1.
  assert (Hm : forall m, mutex (continue c p (update c (SetStatus 0) s0)) m = mutex s m) by (intros m; unfold mutex; cbn; rewrite Em; auto).
  assert (Hr : forall x, to_run (continue c p (update c (SetStatus 0) s0)) x <-> to_run s x) by (intros x; unfold to_run; cbn; rewrite Er, Ec; tauto).
  apply (settle c all s _ _ Hc E1); auto.
  - intros x Hx. unfold continue. rewrite (conts_alter_other c (go_to (AtProg p)) _ x Hx), (conts_alter_other c (SetStatus 0) s0 x Hx), E0. auto.
  - intros m x. rewrite Hm. auto.
  - intros m x. rewrite Hm. auto.
  - intros m. rewrite Hm. apply (q_nodup _ _ (proj1 Hc)).
  - discriminate.
  - intros x _. apply Hr.
  - intros x Hx. left. apply Hr. auto.
  - intros x Hx. left. cbn in Hx. rewrite Ed in Hx. auto.
  - intros m. rewrite Hm. unfold all. auto.
Qed.

Lemma sane_cond_wait c cv m d k s : core c all s -> sane (fst (cond_wait c cv m d k s)).
Proof.
  intros Hc. apply (core_unlock c all m) in Hc. unfold cond_wait. set (s1 := UnLock m s) in *. unfold event_wait.
  destruct (ExecuteEvent_cases c d (InCond cv m d k) (update c (SetStatus 0) (put_condvar cv (condvar s1 cv ++ [c]) s1))) as [-> | ->]; cbn [fst].
  - apply (sane_back c (k ECANCELED) s1 (put_condvar cv (condvar s1 cv) (put_condvar cv (condvar s1 cv ++ [c]) s1))); auto.
    intros cv' x. rewrite !condvar_put. destruct (decide (cv = cv')) as [<-|]; auto.
  - apply (sane_wait_queue c d _ s1); auto. intros cv' x. rewrite condvar_put. destruct (decide (cv = cv')) as [<-|]; [|auto].
    rewrite elem_of_app, list_elem_of_singleton. intros [|]; eauto 10.
Qed.

Lemma sane_my_wait c e d k s : core c all s -> sane (my_wait c e d k s).
Proof.
  intros Hc. unfold my_wait. destruct (S_ (event s e)).
  - apply sane_continue. apply core_put_event; auto.
  - unfold event_wait. destruct (ExecuteEvent_cases c d (InMyEvent e k) (update c (SetStatus 0) (put_event e (mk_event (Some c) false) s))) as [-> | ->].
    + apply (sane_back c k s (put_event e (mk_event None false) (put_event e (mk_event (Some c) false) s))); auto.
      intros e' x. rewrite !event_put. destruct (decide (e = e')) as [<-|]; [discriminate|auto].
    + apply (sane_wait_queue c d _ s); auto. intros e' x. rewrite event_put. destruct (decide (e = e')) as [<-|]; [|auto].
      cbn. intros F. injection F as <-. eauto 10.
Qed.

Lemma sane_yielded c k s : core c all s -> sane (yielded c k s).
Proof.
  intros Hc. destruct (core_here _ _ _ Hc) as [[t Et] Hn]. pose proof (conts_alter_same c (go_to (AtProg k)) s t Et) as E1. destruct Hc as (Q&G&Hcur) eqn:EHc. clear EHc.
  assert (Hr : forall x, to_run (yielded c k s) x <-> (x ∈ Ready_ s \/ x = c)).
  { intros x. unfold to_run, yielded, SwitchToScheduler, ScheduleExecution, unlink, continue. cbn. fold (without c (Ready_ s)). rewrite elem_of_app, list_elem_of_singleton, elem_without.
    destruct (decide (x = c)); intuition discriminate. }
  apply (settle c all s _ (go_to (AtProg k) t) Hc); auto.
  - intros x Hx. apply (conts_alter_other c (go_to (AtProg k)) s x Hx).
  - apply (q_nodup _ _ Q).
  - discriminate.
  - intros x Hne [Hx|Hx]; apply Hr; [auto|congruence].
  - intros x Hx. apply Hr in Hx as [Hx|]; [left; left; auto|auto].
  - intros x Hx. left. unfold yielded, SwitchToScheduler, ScheduleExecution, unlink, continue in Hx. cbn in Hx. fold (without c (ToDelete_ s)) in Hx. apply elem_without in Hx. tauto.
  - intros m. unfold all. auto.
Qed.

Lemma sane_exit c s : core c all s -> sane (Exit c s).
Proof.
  intros Hc. destruct (core_here _ _ _ Hc) as [[t Et] Hn]. pose proof (conts_alter_same c (go_to Exited) s t Et) as E1.
  assert (Hr : forall x, to_run (Exit c s) x <-> x ∈ Ready_ s /\ x <> c).
  { intros x. unfold to_run, Exit, SwitchToScheduler, unlink. cbn. fold (without c (Ready_ s)). rewrite elem_without. intuition discriminate. }
  apply (settle c all s _ (go_to Exited t) Hc); auto.
  - intros x Hx. apply (conts_alter_other c (go_to Exited) s x Hx).
  - apply (q_nodup _ _ (proj1 Hc)).
  - discriminate.
  - intros x Hne [Hx|Hx]; apply Hr; [auto|]. rewrite (proj2 (proj2 Hc)) in Hx. congruence.
  - intros x Hx. apply Hr in Hx as [Hx _]. left. left. auto.
  - intros x Hx. unfold Exit, SwitchToScheduler, unlink in Hx. cbn in Hx. fold (without c (ToDelete_ s)) in Hx.
    rewrite elem_of_app, elem_without, list_elem_of_singleton in Hx. destruct Hx as [[Hx _]| ->]; [auto|]. right. split; [auto|]. split; [auto|]. rewrite Hr. tauto.
  - intros m. unfold all. auto.
Qed.

(** The running coroutine. *)
Lemma sane_call c p s r : core c all s -> call c p s = Some r -> sane (fst r).
Proof.
  intros Hc E. destruct p; cbn [call] in E.
  - inv E. apply sane_exit. auto.
  - pose proof (core_create c all p s Hc) as Hn. destruct (Create p s) as [n s1] eqn:Ec. inv E. apply sane_continue. exact Hn.
  - destruct (ExecuteEvent_cases c deadline (InSleep k) s) as [Ee|Ee]; rewrite Ee in E; inv E; [apply sane_continue; auto|apply sane_sleep; [discriminate|auto]].
  - destruct (ExecuteEvent_cases c 0 (InYield p) s) as [Ee|Ee]; rewrite Ee in E; inv E; [apply sane_yielded; auto|apply sane_sleep; [discriminate|auto]].
  - destruct (Cancel c0 s) as [s1|] eqn:Ec; [|discriminate]. inv E. apply sane_continue. eapply core_cancel; eauto.
  - injection E as <-. apply sane_lock_loop. eapply core_weaken; [|exact Hc]. unfold all. auto.
  - inv E. apply sane_continue. apply core_unlock. auto.
  - injection E as <-. apply sane_cond_wait. auto.
  - pose proof (core_cond_signal c all cv s Hc) as Hs. destruct (Signal (condvar s cv) s) as [q s1]. inv E. apply sane_continue. exact Hs.
  - inv E. apply sane_continue. apply core_put_condvar; [set_solver|]. apply core_broadcast; [|auto].
    intros w Hw. exists cv. apply (q_cond _ _ (proj1 Hc)). auto.
  - inv E. apply sane_my_wait. auto.
  - inv E. apply sane_continue. apply core_my_signal. auto.
Qed.

Lemma sane_run_current c s r : sane s -> Current_ s = Some c -> run_current c s = Some r -> sane (fst r).
Proof.
  intros HS Hcur E. unfold run_current in E. destruct (conts s !! c) as [t|] eqn:Et; [|discriminate]. destruct (at_ t) eqn:Ha.
  - eapply sane_call; [|exact E]. apply (core_free s c t HS Hcur Et); rewrite Ha; discriminate.
  - pose proof (core_free s c t HS Hcur Et ltac:(rewrite Ha; discriminate) ltac:(rewrite Ha; discriminate) ltac:(rewrite Ha; discriminate)) as Hc.
    unfold slept in E. rewrite Et in E. inv E. apply sane_continue. apply core_timer_free. auto.
  - pose proof (core_free s c t HS Hcur Et ltac:(rewrite Ha; discriminate) ltac:(rewrite Ha; discriminate) ltac:(rewrite Ha; discriminate)) as Hc.
    unfold slept in E. inv E. apply sane_yielded. apply core_timer_free. auto.
  - injection E as <-. eapply sane_lock_woken; eauto.
  - injection E as <-. eapply sane_cond_woken; eauto.
  - injection E as <-. eapply sane_my_woken; eauto.
  - discriminate.
Qed.
