(* ===== verification/CSteps.v ===== *)
(** * Coroutines: the invariant of every step

    A timer belongs to a coroutine that sleeps; with that the turns of the scheduler keep
    the invariant of [CWake] too, and every reachable state has it. *)

From Stdlib Require Import ZArith Lia Bool Sorted.
From stdpp Require Import base numbers list gmap.
From S2P Require Import Prelude CCoro CWake.

(** ** Timers *)

Definition sleeping (p : place) : Prop := match p with AtProg _ | Exited => False | _ => True end.

(** [TContPollEventCompare] *)
Definition earlier (x y : Z * cont) : Prop := fst x < fst y \/ (fst x = fst y /\ (snd x < snd y)%positive).

(** The tree is in order and has a timer of a coroutine at most once. *)
Definition timer_tree (l : list (Z * cont)) : Prop := StronglySorted earlier l /\ NoDup (map snd l).

Definition timers_but (P : cont -> Prop) (s : TContExecutor) : Prop :=
  timer_tree (IoWait_ s) /\ forall d x, (d, x) ∈ IoWait_ s -> ~ P x /\ exists t, conts s !! x = Some t /\ sleeping (at_ t).

(** Timers and the places of all but [c] are the same. *)
Definition kept (c : cont) (s s' : TContExecutor) : Prop :=
  IoWait_ s' = IoWait_ s /\ forall x t, conts s !! x = Some t -> exists t', conts s' !! x = Some t' /\ (x <> c -> at_ t' = at_ t).

Lemma kept_refl c s : kept c s s.
Proof. split; eauto. Qed.

Lemma kept_trans c s1 s2 s3 : kept c s1 s2 -> kept c s2 s3 -> kept c s1 s3.
Proof.
  intros [H1 H2] [H3 H4]. split; [congruence|]. intros x t E. destruct (H2 x t E) as (t'&E'&A'). destruct (H4 x t' E') as (t''&E''&A'').
  exists t''. split; [auto|]. intros Hn. rewrite A'', A'; auto.
Qed.

Lemma kept_same c s s' : IoWait_ s' = IoWait_ s -> conts s' = conts s -> kept c s s'.
Proof. intros H1 H2. split; [auto|]. rewrite H2. eauto. Qed.

Lemma kept_update c y f s : (y = c \/ forall t, at_ (f t) = at_ t) -> kept c s (update y f s).
Proof.
  intros Hf. split; [auto|]. intros x t E. rewrite conts_update. destruct (decide (y = x)) as [->|]; [rewrite E; cbn|eauto].
  eexists. split; [reflexivity|]. destruct Hf as [->|Hf]; [tauto|auto].
Qed.

Lemma kept_wake c w s : kept c s (Wake w s).
Proof. eapply kept_trans; [apply (kept_update c w (SetStatus EWAKEDUP)); auto|apply kept_same; auto]. Qed.

Lemma kept_continue c p s : kept c s (continue c p s).
Proof. apply kept_update. auto. Qed.

Lemma kept_unlock c m s : kept c s (UnLock m s).
Proof. unfold UnLock, Signal. destruct (Waiters_ _) as [|w q]; [apply kept_same; auto|]. eapply kept_trans; [apply kept_wake|apply kept_same; auto]. Qed.

Lemma kept_broadcast c q s : kept c s (BroadCast q s).
Proof. revert s. induction q as [|w q IH]; intros s; [apply kept_refl|]. eapply kept_trans; [apply kept_wake|apply (IH (Wake w s))]. Qed.

Lemma kept_create c p s : kept c s (snd (Create p s)).
Proof.
  split; [auto|]. intros x t E. exists t. unfold Create, ScheduleExecution, unlink. cbn. rewrite lookup_insert_ne; [auto|].
  intros <-. apply elem_of_dom_2 in E. exact (is_fresh _ E).
Qed.

Lemma kept_cancel c c' s s' : Cancel c' s = Some s' -> kept c s s'.
Proof.
  intros E. unfold Cancel in E. destruct (conts s !! c') as [t|]; [|discriminate]. destruct (Cancelled_ t); [inv E; apply kept_refl|].
  assert (Hu : kept c s (update c' set_cancelled s)) by (apply kept_update; auto).
  destruct (bool_decide _); inv E; [auto|]. eapply kept_trans; [exact Hu|apply kept_same; auto].
Qed.

Lemma kept_my_signal c e s : kept c s (my_signal e s).
Proof. unfold my_signal. destruct (Ev_ _); [eapply kept_trans; [|apply kept_wake]|]; apply kept_same; auto. Qed.

Definition timers (s : TContExecutor) : Prop := timers_but nobody s.

Lemma timers_kept c s s' : timers_but (eq c) s -> kept c s s' -> timers s'.
Proof.
  intros [Hso Ht] [H1 H2]. split; [rewrite H1; auto|]. intros d x Hx. rewrite H1 in Hx. destruct (Ht d x Hx) as (Hn&t&E&Ha). split; [auto|].
  destruct (H2 x t E) as (t'&E'&A). exists t'. rewrite A by auto. auto.
Qed.

Lemma elem_insert_timer d c l x : x ∈ insert_timer d c l <-> x = (d, c) \/ x ∈ l.
Proof.
  induction l as [|[d' c'] l IH]; cbn; [rewrite list_elem_of_singleton; set_solver|]. destruct (_ || _); [set_solver|].
  rewrite !elem_of_cons, IH. tauto.
Qed.

Lemma sorted_insert_timer d c l : (forall d', (d', c) ∉ l) -> StronglySorted earlier l -> StronglySorted earlier (insert_timer d c l).
Proof.
  intros Hc. induction 1 as [|[d' c'] l Hs IH Hf]; cbn; [repeat constructor|].
  assert (Hne : c <> c') by (intros <-; apply (Hc d'); left).
  assert (Htr : forall x y z, earlier x y -> earlier y z -> earlier x z) by (unfold earlier; intros; lia).
  assert (Hd : if (d <? d') || ((d =? d') && (c <? c')%positive) then earlier (d, c) (d', c') else earlier (d', c') (d, c)).
  { unfold earlier. cbn. destruct (Z.ltb_spec d d'), (Z.eqb_spec d d'), (Pos.ltb_spec c c'); cbn; lia. }
  destruct (_ || _).
  - assert (H : earlier (d, c) (d', c')) by exact Hd. constructor; [constructor; auto|]. constructor; [exact H|].
    eapply List.Forall_impl; [|exact Hf]. intros a. apply Htr. exact H.
  - constructor; [apply IH; intros d1 F; apply (Hc d1); right; exact F|]. apply Forall_forall. intros x Hx. apply elem_insert_timer in Hx as [-> |Hx].
    + exact Hd.
    + rewrite Forall_forall in Hf. auto.
Qed.

Lemma sorted_filter (P : Z * cont -> Prop) `{!forall x, Decision (P x)} l : StronglySorted earlier l -> StronglySorted earlier (filter P l).
Proof.
  induction 1 as [|x l Hs IH Hf]; [constructor|]. rewrite filter_cons. destruct (decide (P x)); [|exact IH]. constructor; [exact IH|].
  rewrite Forall_forall in *. intros y Hy. apply list_elem_of_filter in Hy as [_ Hy]. auto.
Qed.

Lemma in_snd (c : cont) (l : list (Z * cont)) : c ∈ map snd l <-> exists d, (d, c) ∈ l.
Proof.
  rewrite list_elem_of_fmap. split; [intros ([d c']&E&H); cbn in E; subst; eauto|]. intros [d H]. exists (d, c). auto.
Qed.

Lemma tree_insert d c l : (forall d', (d', c) ∉ l) -> timer_tree l -> timer_tree (insert_timer d c l).
Proof.
  intros Hc [Hs Hn]. split; [apply sorted_insert_timer; auto|]. clear Hs. induction l as [|[d' c'] l IH]; cbn; [repeat constructor; set_solver|].
  cbn in Hn. apply NoDup_cons in Hn as [H1 H2]. destruct (_ || _); cbn.
  - apply NoDup_cons. split; [|apply NoDup_cons; auto]. intros F. change (c ∈ map snd ((d', c') :: l)) in F. apply in_snd in F as [d1 F]. exact (Hc _ F).
  - apply NoDup_cons. split; [|apply IH; [intros d1 F; apply (Hc d1); right; exact F|auto]]. intros F. apply in_snd in F as [d1 F].
    apply elem_insert_timer in F as [F|F]; [inv F; apply (Hc d'); left|]. apply H1, in_snd. eauto.
Qed.

Lemma tree_filter (P : Z * cont -> Prop) `{!forall x, Decision (P x)} l : timer_tree l -> timer_tree (filter P l).
Proof.
  intros [Hs Hn]. split; [apply sorted_filter; auto|]. clear Hs. induction l as [|[d c] l IH]; [constructor|]. cbn in Hn. apply NoDup_cons in Hn as [H1 H2].
  rewrite filter_cons. destruct (decide _); [|auto]. cbn. apply NoDup_cons. split; [|auto]. intros F. apply H1. apply in_snd in F as [d1 F].
  apply list_elem_of_filter in F as [_ F]. apply in_snd. eauto.
Qed.

Lemma timers_suspended c d here s s0 : timers_but (eq c) s -> kept c s s0 -> is_Some (conts s !! c) -> sleeping here -> timers (suspended c d here s0).
Proof.
  intros [Hso Ht] [H1 H2] [tc Ec] Hh. split.
  { change (IoWait_ (suspended c d here s0)) with (insert_timer d c (IoWait_ s0)). rewrite H1. apply tree_insert; [|exact Hso].
    intros d' F. apply Ht in F as [F _]. auto. }
  intros d' x Hx. split; [auto|]. destruct (H2 c tc Ec) as (t0&E0&_).
  destruct (suspended_cont c d here s0 t0 E0) as [E1 E2]. destruct (decide (x = c)) as [->|Hne].
  - eexists. split; [exact E1|exact Hh].
  - change (IoWait_ (suspended c d here s0)) with (insert_timer d c (IoWait_ s0)) in Hx. apply elem_insert_timer in Hx as [Hx|Hx]; [congruence|].
    rewrite H1 in Hx. destruct (Ht d' x Hx) as (Hn&t&E&Ha). destruct (H2 x t E) as (t'&E'&A). exists t'. rewrite E2, A by auto. auto.
Qed.

(** ** The running coroutine *)

Section running.
Context (c : cont) (s : TContExecutor) (Ht : timers_but (eq c) s) (Hs : is_Some (conts s !! c)).

(** A sleep ends in the queue or at once. *)
Lemma timers_sleep (d : Z) here s0 (back : Z -> TContExecutor -> TContExecutor) : kept c s s0 -> sleeping here -> (forall ret, kept c s0 (back ret s0)) ->
  timers (match ExecuteEvent c d here s0 with (None, s) => s | (Some ret, s) => back ret s end).
Proof.
  intros Hk Hh Hb. destruct (ExecuteEvent_cases c d here s0) as [-> | ->]; [eapply timers_kept; [exact Ht|eapply kept_trans; eauto]|].
  eapply timers_suspended; eauto.
Qed.

Lemma timers_lock_loop m d k s0 : kept c s s0 -> timers (fst (lock_loop c m d k s0)).
Proof.
  intros Hk. unfold lock_loop. destruct (Token_ _); cbn [fst].
  - eapply timers_kept; [exact Ht|]. eapply kept_trans; [exact Hk|]. eapply kept_trans; [apply (kept_same c s0 (put_mutex m (mk_mutex false (Waiters_ (mutex s0 m))) s0)); auto|apply kept_continue].
  - unfold event_wait. set (s1 := update c _ _).
    assert (Hk1 : kept c s s1) by (eapply kept_trans; [exact Hk|]; eapply kept_trans; [|apply kept_update; auto]; apply kept_same; auto).
    destruct (ExecuteEvent_cases c d (InLock m d k) s1) as [-> | ->]; cbn [fst]; [|eapply timers_suspended; eauto; exact Logic.I].
    eapply timers_kept; [exact Ht|]. eapply kept_trans; [exact Hk1|]. eapply kept_trans; [apply (kept_same c s1 (put_mutex m (mk_mutex false (Waiters_ (mutex s0 m))) s1)); auto|apply kept_continue].
Qed.

Lemma timers_cond_wait cv m d k : timers (fst (cond_wait c cv m d k s)).
Proof.
  unfold cond_wait, event_wait. set (s1 := update c _ _).
  assert (Hk1 : kept c s s1) by (eapply kept_trans; [apply kept_unlock|]; eapply kept_trans; [|apply kept_update; auto]; apply kept_same; auto).
  destruct (ExecuteEvent_cases c d (InCond cv m d k) s1) as [-> | ->]; cbn [fst]; [|eapply timers_suspended; eauto; exact Logic.I].
  eapply timers_kept; [exact Ht|]. eapply kept_trans; [exact Hk1|]. eapply kept_trans; [|apply kept_continue]. apply kept_same; auto.
Qed.

Lemma timers_my_wait e d k : timers (my_wait c e d k s).
Proof.
  unfold my_wait, event_wait. destruct (S_ _).
  - eapply timers_kept; [exact Ht|]. eapply kept_trans; [|apply kept_continue]. apply kept_same; auto.
  - set (s1 := update c _ _). assert (Hk1 : kept c s s1) by (eapply kept_trans; [|apply kept_update; auto]; apply kept_same; auto).
    destruct (ExecuteEvent_cases c d (InMyEvent e k) s1) as [-> | ->]; [|eapply timers_suspended; eauto; exact Logic.I].
    eapply timers_kept; [exact Ht|]. eapply kept_trans; [exact Hk1|]. eapply kept_trans; [|apply kept_continue]. apply kept_same; auto.
Qed.

Lemma timers_yielded k s0 : kept c s s0 -> timers (yielded c k s0).
Proof. intros Hk. eapply timers_kept; [exact Ht|]. eapply kept_trans; [exact Hk|]. eapply kept_trans; [apply kept_continue|]. apply kept_same; auto. Qed.

Lemma timers_continue p s0 : kept c s s0 -> timers (continue c p s0).
Proof. intros Hk. eapply timers_kept; [exact Ht|]. eapply kept_trans; [exact Hk|apply kept_continue]. Qed.

Lemma timers_call p r : call c p s = Some r -> timers (fst r).
Proof.
  intros E. destruct p; cbn [call] in E.
  - inv E. eapply timers_kept; [exact Ht|]. eapply kept_trans; [apply (kept_update c c (go_to Exited)); auto|]. apply kept_same; auto.
  - pose proof (kept_create c p s) as Hn. destruct (Create p s) as [n s1]. inv E. apply timers_continue. exact Hn.
  - injection E as <-. apply (timers_sleep deadline (InSleep k) s (fun ret s => continue c (k ret) s)); auto using kept_refl, kept_continue. exact Logic.I.
  - injection E as <-. apply (timers_sleep 0 (InYield p) s (fun _ s => yielded c p s)); auto using kept_refl; [exact Logic.I|].
    intros _. eapply kept_trans; [apply kept_continue|]. apply kept_same; auto.
  - destruct (Cancel c0 s) as [s1|] eqn:Ec; [|discriminate]. inv E. apply timers_continue. eapply kept_cancel; eauto.
  - injection E as <-. apply timers_lock_loop. apply kept_refl.
  - inv E. apply timers_continue. apply kept_unlock.
  - injection E as <-. apply timers_cond_wait.
  - unfold Signal in E. destruct (condvar s cv) as [|w q]; inv E; apply timers_continue; [apply kept_same; auto|]. eapply kept_trans; [apply kept_wake|apply kept_same; auto].
  - inv E. apply timers_continue. eapply kept_trans; [apply kept_broadcast|apply kept_same; auto].
  - inv E. apply timers_my_wait.
  - inv E. apply timers_continue. apply kept_my_signal.
Qed.
End running.

Lemma timers_unlinked c s : timers s -> timers_but (eq c) (unlink_timer c s).
Proof.
  intros [Hso Ht]. split; [apply tree_filter; exact Hso|]. intros d x Hx. unfold unlink_timer in Hx. cbn in Hx. apply list_elem_of_filter in Hx as [Hn Hx]. cbn in Hn.
  destruct (Ht d x Hx) as (_&H). split; [congruence|exact H].
Qed.

Lemma timers_awake c s t : timers s -> conts s !! c = Some t -> ~ sleeping (at_ t) -> timers_but (eq c) s.
Proof.
  intros [Hso Ht] E Hn. split; [exact Hso|]. intros d x Hx. destruct (Ht d x Hx) as (_&H). split; [|exact H]. intros <-. destruct H as (t'&E'&Ha). congruence.
Qed.

Lemma timers_run_current c s r : timers s -> run_current c s = Some r -> timers (fst r).
Proof.
  intros Ht E. unfold run_current in E. destruct (conts s !! c) as [t|] eqn:Et; [|discriminate].
  pose proof (timers_unlinked c s Ht) as Hu. assert (Hs : is_Some (conts (unlink_timer c s) !! c)) by (cbn; eauto).
  destruct (at_ t) eqn:Ha.
  - eapply (timers_call c s); [|eauto|exact E]. eapply timers_awake; eauto. rewrite Ha. auto.
  - unfold slept in E. rewrite Et in E. injection E as <-. eapply timers_continue; [exact Hu|apply kept_refl].
  - injection E as <-. eapply timers_yielded; [exact Hu|apply kept_refl].
  - unfold lock_woken, waited, slept in E. rewrite Et in E. cbv iota beta zeta in E. destruct (_ =? EWAKEDUP); inv E.
    + eapply timers_lock_loop; [exact Hu|exact Hs|]. apply kept_same; auto.
    + eapply timers_continue; [exact Hu|]. apply kept_same; auto.
  - unfold cond_woken, waited, slept in E. rewrite Et in E. cbv iota beta zeta in E. destruct (_ =? EWAKEDUP); inv E.
    + eapply timers_lock_loop; [exact Hu|exact Hs|]. apply kept_same; auto.
    + eapply timers_continue; [exact Hu|]. apply kept_same; auto.
  - unfold my_woken, waited, slept in E. rewrite Et in E. inv E. eapply timers_continue; [exact Hu|]. apply kept_same; auto.
  - discriminate.
Qed.

(** ** The scheduler *)

Lemma conts_deleted s x : conts (DeleteScheduled s) !! x = if decide (x ∈ ToDelete_ s) then None else conts s !! x.
Proof.
  unfold DeleteScheduled. cbn. generalize (conts s). induction (ToDelete_ s) as [|y l IH]; intros g; cbn; [rewrite decide_False by set_solver; auto|].
  rewrite IH. destruct (decide (x ∈ l)) as [Hl|Hl]; [rewrite decide_True by set_solver; auto|]. destruct (decide (x = y)) as [->|Hne].
  - rewrite decide_True by set_solver. apply lookup_delete_eq.
  - rewrite decide_False by set_solver. apply lookup_delete_ne. auto.
Qed.

(** What is not behind [Exit] is not deleted. *)
Lemma deleted_keeps s x t : sane s -> conts s !! x = Some t -> at_ t <> Exited -> conts (DeleteScheduled s) !! x = Some t.
Proof.
  intros [Q _] E Hn. rewrite conts_deleted, decide_False; [auto|]. intros Hx. apply (q_exit _ _ Q) in Hx as (_&t'&E'&Ha). congruence.
Qed.

Definition activated (c : cont) (ready : list cont) (s : TContExecutor) : TContExecutor :=
  set_current (DeleteScheduled (set_ready s ready)) (Some c).

Lemma conts_activated c ready s x : conts (activated c ready s) !! x = conts (DeleteScheduled s) !! x.
Proof. auto. Qed.

Lemma sane_activated c ready s : sane s -> Current_ s = None -> Ready_ s = c :: ready -> sane (activated c ready s).
Proof.
  intros HS Hcu Hr. assert (Hrun : forall x, to_run (activated c ready s) x <-> to_run s x).
  { intros x. unfold to_run. cbn. rewrite Hcu, Hr, elem_of_cons. intuition congruence. }
  assert (Hk : forall x t, conts s !! x = Some t -> at_ t <> Exited -> conts (activated c ready s) !! x = Some t)
    by (intros x t E Hn; rewrite conts_activated; apply deleted_keeps; auto).
  assert (Hk' : forall x t, conts (activated c ready s) !! x = Some t -> conts s !! x = Some t)
    by (intros x t; rewrite conts_activated, conts_deleted; destruct (decide _); [discriminate|auto]).
  pose proof HS as [Q G]. split.
  - split.
    + intros m x Hx. apply (q_wait _ _ Q) in Hx as (H1&t&d&k&E&Ha&Es). split; [auto|]. exists t, d, k. split; [apply Hk; [auto|congruence]|auto].
    + apply (q_nodup _ _ Q).
    + intros cv x Hx. apply (q_cond _ _ Q) in Hx as (H1&t&m&d&k&E&Ha). split; [auto|]. exists t, m, d, k. split; [apply Hk; [auto|congruence]|auto].
    + intros e x Hx. apply (q_event _ _ Q) in Hx as (H1&t&k&E&Ha). split; [auto|]. exists t, k. split; [apply Hk; [auto|congruence]|auto].
    + intros x t m d k Hn E Ea. apply Hk' in E. destruct (q_lock _ _ Q x t m d k Hn E Ea) as [|[]]; [auto|]. right. rewrite Hrun. auto.
    + intros x Hx. rewrite Hrun in Hx. pose proof (q_live _ _ Q x Hx) as [t E]. exists t. rewrite conts_activated, conts_deleted, decide_False; [auto|].
      intros F. apply (q_exit _ _ Q) in F as [F _]. auto.
    + intros x Hx. cbn in Hx. set_solver.
  - intros m HM Ht Hw. destruct (G m HM Ht Hw) as (x&H1&t&d&k&E&Ha&Es). exists x. split; [auto|]. exists t, d, k. split; [apply Hk; [auto|congruence]|auto].
Qed.

Lemma timers_activated c ready s : sane s -> timers s -> timers (activated c ready s).
Proof.
  intros HS [Hso Ht]. split; [exact Hso|]. intros d x Hx. destruct (Ht d x Hx) as (H1&t&E&Ha). split; [auto|]. exists t. split; [|auto]. rewrite conts_activated.
  apply deleted_keeps; auto. intros F. rewrite F in Ha. destruct Ha.
Qed.

Definition fine (s : TContExecutor) : Prop := sane s /\ timers s.

Lemma fine_wake_timer c s : fine s -> is_Some (conts s !! c) -> fine (wake_timer c s).
Proof.
  intros [[Q G] [Hso Ht]] Hc. unfold wake_timer. split; [split| split; [apply tree_filter; exact Hso|]].
  - apply queues_schedule; [|apply queues_timer, queues_update; auto]. change (conts (unlink_timer c ?q)) with (conts q).
    destruct Hc as [t E]. rewrite (conts_alter_same c _ s t E). eauto.
  - apply progress_schedule, progress_timer, progress_update; auto.
  - intros d x Hx. unfold ScheduleExecution, unlink_timer, unlink in Hx. cbn in Hx. apply list_elem_of_filter in Hx as [_ Hx]. split; [auto|].
    destruct (Ht d x Hx) as (_&t&E&Ha). change (conts (ScheduleExecution c (unlink_timer c ?q))) with (conts q). rewrite conts_update.
    destruct (decide (c = x)) as [->|]; [rewrite E; cbn; eauto|eauto].
Qed.

Lemma conts_wake_timer c s x : is_Some (conts s !! x) -> is_Some (conts (wake_timer c s) !! x).
Proof.
  intros [t E]. unfold wake_timer. change (conts (ScheduleExecution c (unlink_timer c ?q))) with (conts q). rewrite conts_update.
  destruct (decide (c = x)) as [->|]; rewrite E; cbn; eauto.
Qed.

Lemma fine_timeouts l s : (forall x, x ∈ l -> is_Some (conts s !! snd x)) -> fine s -> fine (fold_left (fun s (x : Z * cont) => wake_timer (snd x) s) l s).
Proof.
  revert s. induction l as [|y l IH]; intros s Hl Hf; [exact Hf|]. cbn [fold_left]. apply IH.
  - intros x Hx. apply conts_wake_timer. apply Hl. right. auto.
  - apply fine_wake_timer; [auto|]. apply Hl. left.
Qed.

Lemma elem_expired now l x : x ∈ expired now l -> fst x <= now /\ x ∈ l.
Proof.
  induction l as [|[d c] l IH]; cbn; [set_solver|]. destruct (d <=? now) eqn:E; [|set_solver]. rewrite !elem_of_cons. intros [-> |Hx]; [split; [cbn; lia|auto]|split; [apply IH; auto|right; apply IH; auto]].
Qed.

Lemma fine_cancel now s : fine s -> fine (snd (CancelTimedOut now s)).
Proof.
  intros Hf. unfold CancelTimedOut. destruct (IoWait_ s) as [|[d c] l] eqn:El; [exact Hf|]. destruct (now <? d); [exact Hf|].
  apply fine_timeouts; [|exact Hf]. intros [d' x] Hx. apply elem_expired in Hx as [_ Hx]. rewrite <- El in Hx. apply (proj2 (proj2 Hf)) in Hx as (_&t&E&_). cbn. eauto.
Qed.

Lemma fine_step now s s' l : fine s -> step now s = Some (s', l) -> fine s'.
Proof.
  intros Hf E. destruct Hf as [HS HT] eqn:Eq. clear Eq. unfold step in E. destruct (Current_ s) as [c|] eqn:Ec.
  - split; [exact (sane_run_current c s (s', l) HS Ec E)|exact (timers_run_current c s (s', l) HT E)].
  - destruct (Ready_ s) as [|c ready] eqn:Er.
    + destruct (IoWait_ s) as [|y w] eqn:Ew; [discriminate|]. unfold WaitForIO_turn in E.
      pose proof (fine_cancel now s Hf) as Hf1. destruct (CancelTimedOut now s) as [next s1]. cbn [snd] in Hf1.
      destruct (next =? Max); [discriminate|]. inv E. apply fine_cancel. exact Hf1.
    + inv E. split; [apply sane_activated; auto|apply timers_activated; auto].
Qed.

(** ** Reachable states *)

Lemma fine_empty : fine (mk_exec ∅ [] [] [] None ∅ ∅ ∅).
Proof.
  assert (Hm : forall m, mutex (mk_exec ∅ [] [] [] None ∅ ∅ ∅) m = mk_mutex true []) by (intros m; unfold mutex; cbn; rewrite lookup_empty; auto).
  split; [split|].
  - split.
    + intros m c. rewrite Hm. cbn. set_solver.
    + intros m. rewrite Hm. constructor.
    + intros cv c. unfold condvar. cbn. rewrite lookup_empty. cbn. set_solver.
    + intros e c. unfold event. cbn. rewrite lookup_empty. discriminate.
    + intros c t m d k _ E. cbn in E. rewrite lookup_empty in E. discriminate.
    + intros c [Hc|Hc]; cbn in Hc; [set_solver|discriminate].
    + intros c Hc. cbn in Hc. set_solver.
  - intros m _ _. rewrite Hm. cbn. tauto.
  - split; [split; constructor|]. intros d x Hx. cbn in Hx. set_solver.
Qed.

Lemma fine_create p s : fine s -> fine (snd (Create p s)).
Proof.
  intros [[Q G] [Hso HT]]. split; [split; [apply queues_create; auto|apply progress_create; auto]|]. split; [exact Hso|].
  intros d x Hx. destruct (HT d x Hx) as (H1&t&E&Ha). split; [auto|]. exists t. split; [|auto]. unfold Create, ScheduleExecution, unlink. cbn.
  rewrite lookup_insert_ne; [auto|]. intros <-. apply elem_of_dom_2 in E. exact (is_fresh _ E).
Qed.

Lemma fine_initial ps : fine (initial ps).
Proof.
  unfold initial. generalize fine_empty. generalize (mk_exec ∅ [] [] [] None ∅ ∅ ∅). induction ps as [|p ps IH]; intros s Hs; [exact Hs|].
  cbn [fold_left]. apply IH. apply fine_create. auto.
Qed.

(** The states of an execution, with the trace of the locks. *)
Inductive reached (ps : list prog) : TContExecutor -> list label -> Prop :=
  | reached_start : reached ps (initial ps) []
  | reached_step s tr now s' l : reached ps s tr -> step now s = Some (s', l) -> reached ps s' (tr ++ l).

Lemma reached_fine ps s tr : reached ps s tr -> fine s.
Proof. induction 1; [apply fine_initial|eauto using fine_step]. Qed.

(** An execution that is run. *)
Lemma reached_run ps times s tr s' l : reached ps s tr -> run times s = Some (s', l) -> reached ps s' (tr ++ l).
Proof.
  revert s tr l. induction times as [|now times IH]; intros s tr l Hr E; cbn [run] in E; [inv E; rewrite app_nil_r; auto|].
  destruct (step now s) as [[s1 l1]|] eqn:Es; [|discriminate]. destruct (run times s1) as [[s2 l2]|] eqn:Er; [|discriminate]. inv E.
  rewrite app_assoc. eapply IH; [|exact Er]. eapply reached_step; eauto.
Qed.

(** ** The trace of a mutex *)

(** Who holds [m] after a trace. *)
Fixpoint owner (m : positive) (tr : list label) (o : option cont) : option cont :=
  match tr with
  | [] => o
  | LLock m' c :: tr => owner m tr (if decide (m' = m) then Some c else o)
  | LUnLock m' _ :: tr => owner m tr (if decide (m' = m) then None else o)
  end.

Lemma owner_app m tr1 tr2 o : owner m (tr1 ++ tr2) o = owner m tr2 (owner m tr1 o).
Proof. revert o. induction tr1 as [|[m' c|m' c] tr1 IH]; intros o; cbn; auto. Qed.

Definition holder (m : positive) (tr : list label) : option cont := owner m tr None.

(** The token is there exactly when nobody holds the mutex. *)
Definition tokens (s : TContExecutor) (tr : list label) : Prop := forall m, Token_ (mutex s m) = true <-> holder m tr = None.

(** A step that locks finds the token, and every step changes tokens as its labels say. *)
Definition honest (s s' : TContExecutor) (l : list label) : Prop :=
  (forall m, Token_ (mutex s' m) = match owner m l (if Token_ (mutex s m) then None else Some 1%positive) with None => true | Some _ => false end) /\
  (forall m c, l = [LLock m c] -> Token_ (mutex s m) = true) /\ (length l <= 1)%nat.

Definition same_tokens (s s' : TContExecutor) : Prop := forall m, Token_ (mutex s' m) = Token_ (mutex s m).

Lemma honest_quiet s s' : same_tokens s s' -> honest s s' [].
Proof. intros H. split; [|split; [discriminate|cbn; lia]]. intros m. cbn. rewrite H. destruct (Token_ _); auto. Qed.

Lemma honest_after s0 s s' l : same_tokens s0 s -> honest s s' l -> honest s0 s' l.
Proof. intros H (H1&H2&H3). split; [intros m; rewrite H1, H; auto|]. split; [|auto]. intros m c E. rewrite <- H. eauto. Qed.

Lemma honest_before s s' s1 l : same_tokens s' s1 -> honest s s' l -> honest s s1 l.
Proof. intros H (H1&H2&H3). split; [intros m; rewrite H, H1; auto|auto]. Qed.

Lemma same_tokens_mutexes s s' : mutexes s' = mutexes s -> same_tokens s s'.
Proof. intros H m. unfold mutex. rewrite H. auto. Qed.

Lemma tokens_queue m q s : same_tokens s (put_mutex m (mk_mutex (Token_ (mutex s m)) q) s).
Proof. intros m'. rewrite mutex_put. destruct (decide (m = m')) as [<-|]; auto. Qed.

Lemma ExecuteEvent_mutexes c d here s : mutexes (snd (ExecuteEvent c d here s)) = mutexes s.
Proof. destruct (ExecuteEvent_cases c d here s) as [-> | ->]; auto. Qed.

Lemma honest_lock_loop c m d k s : honest s (fst (lock_loop c m d k s)) (snd (lock_loop c m d k s)).
Proof.
  unfold lock_loop. destruct (Token_ (mutex s m)) eqn:Et; cbn [fst snd].
  - split; [|split; [intros m' c' E; inv E; auto|cbn; lia]]. intros m'. change (mutex (continue _ _ ?q) m') with (mutex q m'). rewrite mutex_put.
    cbn. destruct (decide (m = m')) as [<-|]; [auto|]. destruct (Token_ (mutex s m')); auto.
  - assert (Hq : forall q, same_tokens s (put_mutex m (mk_mutex false q) s)) by (intros q m'; rewrite mutex_put; destruct (decide (m = m')) as [<-|]; auto).
    unfold event_wait. set (s1 := update c _ _). assert (H1 : same_tokens s s1) by exact (Hq _).
    destruct (ExecuteEvent_cases c d (InLock m d k) s1) as [-> | ->]; cbn [fst snd]; apply honest_quiet; [|exact H1].
    intros m'. change (mutex (continue _ _ ?q) m') with (mutex q m'). rewrite mutex_put. destruct (decide (m = m')) as [<-|]; [auto|apply H1].
Qed.

Lemma honest_unlock c m s : honest s (UnLock m s) [LUnLock m c].
Proof.
  split; [|split; [discriminate|cbn; lia]]. intros m'. unfold UnLock, Signal. cbn. destruct (Waiters_ (mutex s m)) as [|w q]; rewrite mutex_put;
    (destruct (decide (m = m')) as [<-|]; [auto|]); change (mutex (Wake w s) m') with (mutex s m') || idtac; destruct (Token_ (mutex s m')); auto.
Qed.

(** ** Every step is honest *)

Lemma wake_mutexes w s : mutexes (Wake w s) = mutexes s.
Proof. auto. Qed.

Lemma broadcast_mutexes q s : mutexes (BroadCast q s) = mutexes s.
Proof. revert s. induction q as [|w q IH]; intros s; [auto|]. exact (IH (Wake w s)). Qed.

Lemma cancel_mutexes c s s' : Cancel c s = Some s' -> mutexes s' = mutexes s.
Proof.
  intros E. unfold Cancel in E. destruct (conts s !! c) as [t|]; [|discriminate]. destruct (Cancelled_ t); [inv E; auto|].
  destruct (bool_decide _); inv E; auto.
Qed.

Lemma my_signal_mutexes e s : mutexes (my_signal e s) = mutexes s.
Proof. unfold my_signal. destruct (Ev_ _); auto. Qed.

Lemma my_wait_mutexes c e d k s : mutexes (my_wait c e d k s) = mutexes s.
Proof.
  unfold my_wait, event_wait. destruct (S_ _); [auto|]. set (s1 := update c _ _).
  destruct (ExecuteEvent_cases c d (InMyEvent e k) s1) as [-> | ->]; auto.
Qed.

Lemma honest_mutexes s s' : mutexes s' = mutexes s -> honest s s' [].
Proof. intros H. apply honest_quiet, same_tokens_mutexes, H. Qed.

Lemma honest_cond_wait c cv m d k s : honest s (fst (cond_wait c cv m d k s)) (snd (cond_wait c cv m d k s)).
Proof.
  unfold cond_wait, event_wait. set (s1 := update c _ _).
  assert (Hm : mutexes s1 = mutexes (UnLock m s)) by auto.
  destruct (ExecuteEvent_cases c d (InCond cv m d k) s1) as [-> | ->]; cbn [fst snd];
    (eapply honest_before; [|apply honest_unlock]; apply same_tokens_mutexes; exact Hm).
Qed.

Lemma waited_mutexes c s : mutexes (snd (waited c s)) = mutexes s.
Proof. auto. Qed.

Lemma honest_lock_woken c m d k s : honest s (fst (lock_woken c m d k s)) (snd (lock_woken c m d k s)).
Proof.
  unfold lock_woken. pose proof (waited_mutexes c s) as Hw. destruct (waited c s) as [ret s1]. cbn [snd] in Hw.
  assert (H : same_tokens s (put_mutex m (mk_mutex (Token_ (mutex s1 m)) (without c (Waiters_ (mutex s1 m)))) s1)).
  { intros m'. rewrite tokens_queue. unfold mutex. rewrite Hw. auto. }
  destruct (ret =? EWAKEDUP); [eapply honest_after; [exact H|apply honest_lock_loop]|apply honest_quiet; exact H].
Qed.

Lemma honest_cond_woken c cv m d k s : honest s (fst (cond_woken c cv m d k s)) (snd (cond_woken c cv m d k s)).
Proof.
  unfold cond_woken. pose proof (waited_mutexes c s) as Hw. destruct (waited c s) as [ret s1]. cbn [snd] in Hw.
  destruct (ret =? EWAKEDUP); [|apply honest_mutexes; exact Hw].
  eapply honest_after; [apply same_tokens_mutexes; exact Hw|]. exact (honest_lock_loop c m d k (put_condvar cv _ s1)).
Qed.

Lemma honest_call c p s s' l : call c p s = Some (s', l) -> honest s s' l.
Proof.
  intros E. destruct p; cbn [call] in E.
  - inv E. apply honest_mutexes. auto.
  - unfold Create in E. inv E. apply honest_mutexes. auto.
  - destruct (ExecuteEvent_cases c deadline (InSleep k) s) as [H|H]; rewrite H in E; inv E; apply honest_mutexes; auto.
  - destruct (ExecuteEvent_cases c 0 (InYield p) s) as [H|H]; rewrite H in E; inv E; apply honest_mutexes; auto.
  - destruct (Cancel c0 s) as [s1|] eqn:Ec; [|discriminate]. inv E. apply honest_mutexes. exact (cancel_mutexes _ _ _ Ec).
  - injection E as E. pose proof (honest_lock_loop c m deadline k s) as H. rewrite E in H. exact H.
  - inv E. exact (honest_unlock c m s).
  - injection E as E. pose proof (honest_cond_wait c cv m deadline k s) as H. rewrite E in H. exact H.
  - unfold Signal in E. destruct (condvar s cv); inv E; apply honest_mutexes; auto.
  - inv E. apply honest_mutexes. exact (broadcast_mutexes _ s).
  - inv E. apply honest_mutexes. apply my_wait_mutexes.
  - inv E. apply honest_mutexes. exact (my_signal_mutexes e s).
Qed.

Lemma honest_run_current c s s' l : run_current c s = Some (s', l) -> honest s s' l.
Proof.
  intros E. unfold run_current in E. destruct (conts s !! c) as [t|]; [|discriminate]. destruct (at_ t).
  - exact (honest_call c p s s' l E).
  - unfold slept in E. inv E. apply honest_mutexes. auto.
  - unfold slept in E. inv E. apply honest_mutexes. auto.
  - injection E as E. pose proof (honest_lock_woken c m deadline k s) as H. rewrite E in H. exact H.
  - injection E as E. pose proof (honest_cond_woken c cv m deadline k s) as H. rewrite E in H. exact H.
  - inv E. apply honest_mutexes. auto.
  - discriminate.
Qed.

Lemma timeouts_mutexes l s : mutexes (fold_left (fun s (x : Z * cont) => wake_timer (snd x) s) l s) = mutexes s.
Proof. revert s. induction l as [|x l IH]; intros s; [auto|]. exact (IH (wake_timer (snd x) s)). Qed.

Lemma timed_out_mutexes now s : mutexes (snd (CancelTimedOut now s)) = mutexes s.
Proof.
  unfold CancelTimedOut. destruct (IoWait_ s) as [|[d c] l]; [auto|]. destruct (now <? d); [auto|]. apply timeouts_mutexes.
Qed.

Lemma honest_step now s s' l : step now s = Some (s', l) -> honest s s' l.
Proof.
  intros E. unfold step in E. destruct (Current_ s) as [c|]; [exact (honest_run_current c s s' l E)|].
  destruct (Ready_ s) as [|c ready]; [|inv E; apply honest_mutexes; auto].
  destruct (IoWait_ s); [discriminate|]. unfold WaitForIO_turn in E. pose proof (timed_out_mutexes now s) as H1.
  destruct (CancelTimedOut now s) as [next s1]. cbn [snd] in H1. destruct (next =? Max); [discriminate|]. inv E.
  apply honest_mutexes. rewrite timed_out_mutexes. exact H1.
Qed.

(** ** Executions *)

Lemma creates_mutexes ps s : mutexes (fold_left (fun s p => snd (Create p s)) ps s) = mutexes s.
Proof. revert s. induction ps as [|p ps IH]; intros s; [auto|]. exact (IH (snd (Create p s))). Qed.

Lemma initial_mutexes ps : mutexes (initial ps) = ∅.
Proof. apply creates_mutexes. Qed.

Lemma owner_none m l o o' : (o = None <-> o' = None) -> (owner m l o = None <-> owner m l o' = None).
Proof.
  revert o o'. induction l as [|[m' c|m' c] l IH]; intros o o' H; cbn; [exact H| |]; apply IH; destruct (decide _); intuition congruence.
Qed.

Lemma reached_tokens ps s tr : reached ps s tr -> tokens s tr.
Proof.
  induction 1 as [|s tr now s' l Hr IH Es].
  - intros m. unfold mutex. rewrite initial_mutexes, lookup_empty. cbn. unfold holder. cbn. tauto.
  - intros m. destruct (honest_step _ _ _ _ Es) as (H1&_&_). rewrite H1. unfold holder. rewrite owner_app. fold (holder m tr).
    pose proof (IH m) as Hm. rewrite (owner_none m l (holder m tr) (if Token_ (mutex s m) then None else Some 1%positive)).
    + destruct (owner m l _); split; congruence.
    + destruct (Token_ (mutex s m)); intuition congruence.
Qed.

(** A lock is taken when nobody holds the mutex. *)
Lemma reached_locks ps s tr : reached ps s tr -> forall tr1 m c tr2, tr = tr1 ++ LLock m c :: tr2 -> holder m tr1 = None.
Proof.
  induction 1 as [|s tr now s' l Hr IH Es]; intros tr1 m c tr2 E; [destruct tr1; discriminate|].
  destruct (honest_step _ _ _ _ Es) as (_&H2&H3). destruct l as [|x [|y l]]; [|clear H3|cbn in H3; lia].
  - rewrite app_nil_r in E. eapply IH; eauto.
  - induction tr2 as [|z tr2 _] using rev_ind.
    + apply app_inj_tail in E as [-> ->]. apply (reached_tokens _ _ _ Hr). eapply H2; reflexivity.
    + rewrite app_comm_cons, app_assoc in E. apply app_inj_tail in E as [-> _]. eapply IH; eauto.
Qed.

(** The mutex is only unlocked by who holds it. *)
Definition disciplined (m : positive) (tr : list label) : Prop :=
  forall tr1 c tr2, tr = tr1 ++ LUnLock m c :: tr2 -> holder m tr1 = Some c.

(** Until somebody else may lock, the holder unlocks. *)
Lemma released m c l tr0 tr : disciplined m tr -> (forall tr1 x tr2, tr = tr1 ++ LLock m x :: tr2 -> holder m tr1 = None) ->
  tr0 ++ l `prefix_of` tr -> holder m tr0 = Some c -> owner m l (Some c) = None -> LUnLock m c ∈ l.
Proof.
  intros Hd Hl. revert tr0. induction l as [|x l IH]; intros tr0 [rest Hp] Hh Ho; [discriminate|].
  assert (Hp' : tr = tr0 ++ x :: (l ++ rest)) by (rewrite Hp, <- app_assoc; auto).
  assert (Hnext : forall o, owner m [x] (Some c) = o -> o = Some c -> LUnLock m c ∈ x :: l).
  { intros o E1 E2. right. apply (IH (tr0 ++ [x])).
    - exists rest. rewrite Hp, <- !app_assoc. auto.
    - unfold holder. rewrite owner_app. fold (holder m tr0). rewrite Hh. congruence.
    - rewrite <- E2, <- E1. destruct x; exact Ho. }
  destruct x as [m' y|m' y]; cbn [owner] in Ho.
  - destruct (decide (m' = m)) as [->|Hne]; [rewrite (Hl _ _ _ Hp') in Hh; discriminate|].
    eapply Hnext; [reflexivity|]. cbn. rewrite decide_False by auto. auto.
  - destruct (decide (m' = m)) as [->|Hne]; [|eapply Hnext; [reflexivity|]; cbn; rewrite decide_False by auto; auto].
    rewrite (Hd _ _ _ Hp') in Hh. inv Hh. left.
Qed.

(** ** Timers that fire *)

Lemma expired_split now l : exists rest, l = expired now l ++ rest /\ match rest with [] => True | (d, _) :: _ => now < d end.
Proof.
  induction l as [|[d c] l (rest&E&Hr)]; cbn; [exists []; auto|]. destruct (Z.leb_spec d now).
  - exists rest. cbn. rewrite <- E. auto.
  - exists ((d, c) :: l). auto.
Qed.

(** In a tree of timers the loop stops at the first that is left, and all that are left are later. *)
Lemma expired_later now l : timer_tree l -> exists rest, l = expired now l ++ rest /\ forall d c, (d, c) ∈ rest -> now < d.
Proof.
  intros [Hs _]. destruct (expired_split now l) as (rest&E&Hr). exists rest. split; [exact E|]. rewrite E in Hs. clear E.
  revert Hs. generalize (expired now l). intros l0. induction l0 as [|x l0 IH]; cbn; intros Hs; [|apply IH; inversion Hs; assumption].
  destruct rest as [|[d0 c0] rest]; [set_solver|]. intros d c Hx. inv Hs. apply elem_of_cons in Hx as [Hx|Hx]; [inv Hx; auto|].
  rewrite Forall_forall in *. match goal with H : forall _, _ |- _ => apply H in Hx end. unfold earlier in Hx. cbn in Hx. lia.
Qed.

Lemma without_timers c (l : list (Z * cont)) : c ∉ map snd l -> filter (fun x : Z * cont => snd x <> c) l = l.
Proof.
  induction l as [|[d c'] l IH]; [auto|]. cbn [map]. intros H. apply not_elem_of_cons in H as [H1 H2].
  rewrite filter_cons_True by (cbn in *; congruence). f_equal. auto.
Qed.

Definition fired (l : list (Z * cont)) (s : TContExecutor) : TContExecutor := fold_left (fun s (x : Z * cont) => wake_timer (snd x) s) l s.

Lemma fired_timers l rest s : NoDup (map snd (l ++ rest)) -> IoWait_ s = l ++ rest -> IoWait_ (fired l s) = rest.
Proof.
  revert s. induction l as [|[d c] l IH]; intros s Hn E; [exact E|]. cbn in Hn. apply NoDup_cons in Hn as [H1 H2].
  cbn [fired fold_left]. apply IH; [exact H2|]. change (filter (fun x : Z * cont => snd x <> c) (IoWait_ s) = l ++ rest). rewrite E. cbn [app].
  rewrite filter_cons_False by (cbn; tauto). apply without_timers. exact H1.
Qed.

Lemma fired_ready l s : NoDup (map snd l) -> Ready_ (fired l s) = filter (fun x => x ∉ map snd l) (Ready_ s) ++ map snd l.
Proof.
  revert s. induction l as [|[d c] l IH]; intros s Hn; cbn [fired fold_left map].
  - rewrite app_nil_r. symmetry. induction (Ready_ s) as [|x q Hq]; [auto|]. rewrite filter_cons_True by set_solver. f_equal. exact Hq.
  - cbn in Hn. apply NoDup_cons in Hn as [H1 H2]. fold (fired l (wake_timer c s)). rewrite IH by auto. unfold wake_timer, ScheduleExecution, unlink. cbn.
    unfold without. rewrite filter_app, list_filter_filter, <- app_assoc. f_equal.
    + apply list_filter_iff. intros x. rewrite not_elem_of_cons. tauto.
    + rewrite filter_cons_True by auto. auto.
Qed.

Lemma fired_conts l s x : NoDup (map snd l) ->
  conts (fired l s) !! x = if decide (x ∈ map snd l) then with_timer ETIMEDOUT <$> conts s !! x else conts s !! x.
Proof.
  revert s. induction l as [|[d c] l IH]; intros s Hn; cbn [fired fold_left map]; [auto|].
  cbn in Hn. apply NoDup_cons in Hn as [H1 H2]. fold (fired l (wake_timer c s)). rewrite IH by auto. cbn [snd].
  change (conts (wake_timer c s)) with (conts (update c (with_timer ETIMEDOUT) s)). pose proof (conts_update c (with_timer ETIMEDOUT) s x) as Hu.
  rewrite Hu. clear Hu. destruct (decide (c = x)) as [<-|Hne].
  - rewrite decide_False by exact H1. rewrite decide_True by left. auto.
  - destruct (decide (x ∈ map snd l)); [rewrite decide_True by (right; auto); auto|]. rewrite decide_False; [auto|]. rewrite not_elem_of_cons. auto.
Qed.
