(* ===== verification/LList.v ===== *)
(** * Intrusive lists

    Models the two-way lists of [src/util/generic/intrlist.h], which the chunk lists, the
    headers of a request and the connections of the server are: every item holds a pointer
    to the next and to the previous one, a list is a ring through an item of its own,
    [End_], and an item in no list points to itself.  The store maps addresses to items; a
    read or write through an address that holds no item is [None].

    A ring is read as a list ([ring]).  Every operation is a few [relink]s, and [relink]
    turns the end of a segment to another item: that one lemma carries them all. *)

From Stdlib Require Import ZArith Lia Bool Permutation Sorted.
From stdpp Require Import base numbers list gmap fin_maps.
From S2P Require Import Prelude.

#[local] Open Scope nat_scope.

(** ** Items *)

Notation loc := positive.

Record item := mk_item { Next_ : loc; Prev_ : loc }.

Notation store := (gmap loc item).

Definition Next (x : loc) (h : store) : option loc := Next_ <$> h !! x.
Definition Prev (x : loc) (h : store) : option loc := Prev_ <$> h !! x.

Definition SetNext (x t : loc) (h : store) : option store :=
  let* i := h !! x in Some (<[x := mk_item t (Prev_ i)]> h).

Definition SetPrev (x t : loc) (h : store) : option store :=
  let* i := h !! x in Some (<[x := mk_item (Next_ i) t]> h).

(** The constructor, and [SetEnd]. *)
Definition new_item (x : loc) (h : store) : store := <[x := mk_item x x]> h.

Definition SetEnd (x : loc) (h : store) : option store :=
  let* h := SetPrev x x h in SetNext x x h.

Definition Empty (x : loc) (h : store) : option bool :=
  let* i := h !! x in Some (bool_decide (Prev_ i = x) && bool_decide (Next_ i = x)).

(** [a->SetNext(b); b->SetPrev(a)] *)
Definition relink (a b : loc) (h : store) : option store :=
  let* h := SetNext a b h in SetPrev b a h.

Definition Unlink (x : loc) (h : store) : option store :=
  let* e := Empty x h in
  if e then Some h
  else
    let* p := Prev x h in
    let* n := Next x h in
    let* h := relink p n h in
    SetEnd x h.

Definition LinkBeforeNoUnlink (x before : loc) (h : store) : option store :=
  let* after := Prev before h in
  let* h := relink after x h in
  relink x before h.

Definition LinkBefore (x before : loc) (h : store) : option store :=
  let* h := Unlink x h in LinkBeforeNoUnlink x before h.

Definition LinkAfter (x after : loc) (h : store) : option store :=
  let* h := Unlink x h in
  let* n := Next after h in
  LinkBeforeNoUnlink x n h.

(** The destructor. *)
Definition delete_item (x : loc) (h : store) : option store :=
  let* h := Unlink x h in Some (delete x h).

(** ** Lists, by the address of their [End_] *)

Definition Begin (e : loc) (h : store) : option loc := Next e h.

Definition PushBack (e x : loc) (h : store) : option store := LinkBefore x e h.
Definition PushFront (e x : loc) (h : store) : option store := LinkAfter x e h.

Definition PopBack (e : loc) (h : store) : option (loc * store) :=
  let* ret := Prev e h in
  let* h := Unlink ret h in
  Some (ret, h).

Definition PopFront (e : loc) (h : store) : option (loc * store) :=
  let* ret := Next e h in
  let* h := Unlink ret h in
  Some (ret, h).

(** [ForEach]: the function may change the store, the iterator has moved on before. *)
Fixpoint for_each_loop {S} (fuel : nat) (f : loc -> S -> store -> option (S * store)) (it e : loc) (s : S) (h : store)
    : option (S * store) :=
  if bool_decide (it = e) then Some (s, h)
  else match fuel with
  | 0 => None
  | Datatypes.S fuel =>
      let* n := Next it h in
      let* (s, h) := f it s h in
      for_each_loop fuel f n e s h
  end.

Definition ForEach {S} (fuel : nat) (f : loc -> S -> store -> option (S * store)) (e : loc) (s : S) (h : store) : option (S * store) :=
  let* b := Begin e h in for_each_loop fuel f b e s h.

Definition Size (fuel : nat) (e : loc) (h : store) : option nat :=
  let* (n, _) := ForEach fuel (fun _ n h => Some (Datatypes.S n, h)) e 0 h in Some n.

(** [Cut(begin, end, pasteBefore)] *)
Definition Cut (cutFront gapBack pasteBack : loc) (h : store) : option store :=
  if bool_decide (cutFront = gapBack) then Some h
  else
    let* gapFront := Prev cutFront h in
    let* cutBack := Prev gapBack h in
    let* h := relink gapFront gapBack h in
    let* pasteFront := Prev pasteBack h in
    let* h := relink pasteFront cutFront h in
    relink cutBack pasteBack h.

Definition Append (this lst : loc) (h : store) : option store :=
  let* b := Begin lst h in Cut b lst this h.

(** [Swap]: [tmp] is a list on the stack. *)
Definition Swap (this lst : loc) (h : store) : option store :=
  let tmp := fresh (dom h) in
  let h := new_item tmp h in
  let* h := Append tmp lst h in
  let* h := Append lst this h in
  let* h := Append this tmp h in
  delete_item tmp h.

(** [TIntrusiveList::Clear] *)
Definition Clear (e : loc) (h : store) : option store := Unlink e h.

(** [TIntrusiveListWithAutoDelete::Clear]: the items are destroyed. *)
Fixpoint DeleteAll (fuel : nat) (e : loc) (h : store) : option store :=
  let* b := Empty e h in
  if b then Some h
  else match fuel with
  | 0 => None
  | Datatypes.S fuel =>
      let* (x, h) := PopFront e h in
      let* h := delete_item x h in
      DeleteAll fuel e h
  end.

(** [TIntrusiveListWithAutoDelete::Cut(begin, end)]: cut to a list on the stack. *)
Definition CutDelete (fuel : nat) (b e : loc) (h : store) : option store :=
  let temp := fresh (dom h) in
  let h := new_item temp h in
  let* h := Cut b e temp h in
  let* h := DeleteAll fuel temp h in
  delete_item temp h.

(** ** [QuickSort] *)

Section quicksort.
Context (f : loc -> loc -> bool).

(** The loop that moves the items above [c] to [bigger]. *)
Fixpoint sort_loop (fuel : nat) (c it e bigger : loc) (h : store) : option store :=
  if bool_decide (it = e) then Some h
  else match fuel with
  | 0 => None
  | Datatypes.S fuel =>
      let* n := Next it h in
      let* h := if f c it then PushBack bigger it h else Some h in
      sort_loop fuel c n e bigger h
  end.

Fixpoint QuickSort (fuel : nat) (e : loc) (h : store) : option store :=
  match fuel with
  | 0 => None
  | Datatypes.S fuel' =>
      let* b := Begin e h in
      let* n := Next b h in
      if bool_decide (b = e) || bool_decide (n = e) then Some h
      else
        let* (c, h) := PopFront e h in
        let bigger := fresh (dom h) in
        let h := new_item bigger h in
        let* it := Begin e h in
        let* h := sort_loop fuel c it e bigger h in
        let* h := QuickSort fuel' e h in
        let* h := QuickSort fuel' bigger h in
        let* h := PushBack e c h in
        let* h := Append e bigger h in
        delete_item bigger h
  end.
End quicksort.

(** ** Segments and rings *)


Definition linked (h : store) (a b : loc) : Prop := Next a h = Some b /\ Prev b h = Some a.

(** From [a] through the items [l] to [b]. *)
Fixpoint seg (h : store) (a : loc) (l : list loc) (b : loc) : Prop :=
  match l with
  | [] => linked h a b
  | c :: l => linked h a c /\ seg h c l b
  end.

Definition ring (h : store) (e : loc) (l : list loc) : Prop := NoDup (e :: l) /\ seg h e l e.

(** The last item of the segment, from which it goes to its end. *)
Definition back (a : loc) (l : list loc) : loc := default a (last l).

Lemma back_snoc a l x : back a (l ++ [x]) = x.
Proof. unfold back. rewrite last_snoc. auto. Qed.

Lemma back_cons a b l : back a (b :: l) = back b l.
Proof. unfold back. destruct l; auto. rewrite last_cons_cons. destruct (last _) eqn:E; auto. apply last_None in E. discriminate. Qed.

Lemma back_app a l b k : back a (l ++ b :: k) = back b k.
Proof.
  unfold back. rewrite last_app_cons. destruct k as [|c k]; [auto|]. rewrite last_cons_cons.
  destruct (last (c :: k)) eqn:E; [auto|]. apply last_None in E. discriminate.
Qed.

Lemma back_elem a l : back a l ∈ a :: l.
Proof. destruct l as [|x l _] using rev_ind; [set_solver|]. rewrite back_snoc. set_solver. Qed.

Lemma seg_app h a l m k b : seg h a (l ++ m :: k) b <-> seg h a l m /\ seg h m k b.
Proof. revert a. induction l as [|c l IH]; intros a; cbn; [tauto|]. rewrite IH. tauto. Qed.

(** The two pointers at the end of a segment. *)
Lemma seg_last h a l b : seg h a l b -> linked h (back a l) b.
Proof. destruct l as [|x l _] using rev_ind; [auto|]. rewrite back_snoc, seg_app. tauto. Qed.

Lemma linked_alive h a b : linked h a b -> is_Some (h !! a) /\ is_Some (h !! b).
Proof. unfold linked, Next, Prev. intros [H1 H2]. destruct (h !! a), (h !! b); try discriminate; eauto. Qed.

Lemma seg_alive h a l b x : seg h a l b -> x ∈ a :: l ++ [b] -> is_Some (h !! x).
Proof.
  revert a. induction l as [|c l IH]; intros a H Hx; cbn in *.
  - apply linked_alive in H. set_solver.
  - destruct H as [H1 H2]. apply linked_alive in H1 as [H1 _]. apply elem_of_cons in Hx as [-> | Hx]; eauto.
Qed.

Lemma seg_frame h h' a l b : (forall x, x ∈ a :: l ++ [b] -> h' !! x = h !! x) -> seg h a l b -> seg h' a l b.
Proof.
  revert a. induction l as [|c l IH]; intros a Hh H; cbn in *.
  - destruct H as [H1 H2]. unfold linked, Next, Prev in *. rewrite !Hh by set_solver. auto.
  - destruct H as [[H1 H2] H3]. split; [|apply IH; auto; intros x Hx; apply Hh; set_solver].
    unfold linked, Next, Prev in *. rewrite !Hh by set_solver. auto.
Qed.

Lemma ring_frame h h' e l : (forall x, x ∈ e :: l -> h' !! x = h !! x) -> ring h e l -> ring h' e l.
Proof. intros Hh [Hn Hs]. split; [auto|]. eapply seg_frame; [|eauto]. intros x Hx. apply Hh. set_solver. Qed.

Lemma ring_alive h e l x : ring h e l -> x ∈ e :: l -> is_Some (h !! x).
Proof. intros [_ H] Hx. eapply seg_alive; [eauto|]. set_solver. Qed.

(** A ring can be read from any of its items. *)
Lemma ring_rotate h e l x k : ring h e (l ++ x :: k) -> ring h x (k ++ e :: l).
Proof.
  unfold ring. rewrite !seg_app. intros [Hn [H1 H2]]. split; [|tauto].
  assert (P : x :: k ++ e :: l ≡ₚ e :: l ++ x :: k) by (rewrite !app_comm_cons; apply Permutation_app_comm).
  rewrite P. auto.
Qed.

(** ** Changing a link *)

Lemma relink_run h a b : is_Some (h !! a) -> is_Some (h !! b) ->
  exists h', relink a b h = Some h' /\ linked h' a b /\
    (forall x, x <> a -> x <> b -> h' !! x = h !! x) /\
    (forall x, x <> a -> Next x h' = Next x h) /\ (forall x, x <> b -> Prev x h' = Prev x h).
Proof.
  intros [i Hi] [j Hj]. unfold relink, SetNext, SetPrev, linked, Next, Prev. rewrite Hi. cbv beta iota.
  destruct (decide (a = b)) as [->|Hab].
  - rewrite lookup_insert_eq. eexists. split; [reflexivity|]. rewrite lookup_insert_eq. cbn.
    split; [auto|]. split; [|split]; intros x; intros; rewrite !lookup_insert_ne by congruence; auto.
  - rewrite lookup_insert_ne, Hj by auto. eexists. split; [reflexivity|].
    rewrite lookup_insert_eq, lookup_insert_ne, lookup_insert_eq by auto. cbn. split; [auto|]. split; [|split].
    + intros x Ha Hb. rewrite !lookup_insert_ne by auto. auto.
    + intros x Ha. destruct (decide (x = b)) as [->|]; [rewrite lookup_insert_eq, Hj; auto|]. rewrite !lookup_insert_ne by auto. auto.
    + intros x Hb. rewrite lookup_insert_ne by auto. destruct (decide (x = a)) as [->|]; [rewrite lookup_insert_eq, Hi; auto|].
      rewrite lookup_insert_ne by auto. auto.
Qed.

(** What a changed link from [a] to [b] leaves: segments without these two pointers. *)
Definition relinked (a b : loc) (h h' : store) : Prop :=
  linked h' a b /\ (forall x, x <> a -> x <> b -> h' !! x = h !! x) /\
  (forall x, x <> a -> Next x h' = Next x h) /\ (forall x, x <> b -> Prev x h' = Prev x h).

Lemma relink_some h a b : is_Some (h !! a) -> is_Some (h !! b) -> exists h', relink a b h = Some h' /\ relinked a b h h'.
Proof. intros Ha Hb. destruct (relink_run h a b Ha Hb) as (h'&E&H). eauto. Qed.

Lemma relinked_seg a b h h' x l y : relinked a b h h' -> a ∉ x :: l -> b ∉ l ++ [y] -> seg h x l y -> seg h' x l y.
Proof.
  intros (_&_&HN&HP). revert x. induction l as [|c l IH]; intros x Ha Hb H; cbn in *.
  - destruct H as [H1 H2]. split; [rewrite HN by set_solver|rewrite HP by set_solver]; auto.
  - destruct H as [[H1 H2] H3]. split; [split; [rewrite HN by set_solver|rewrite HP by set_solver]; auto|].
    apply IH; auto; set_solver.
Qed.

(** A segment without the two pointers at its end. *)
Definition open_seg (h : store) (a : loc) (l : list loc) : Prop :=
  match l with [] => True | _ => seg h a (removelast l) (back a l) end.

Lemma open_snoc h a l x : open_seg h a (l ++ [x]) <-> seg h a l x.
Proof.
  unfold open_seg. rewrite removelast_last, back_snoc. destruct (l ++ [x]) eqn:E; [|tauto].
  apply app_eq_nil in E as [_ E]. discriminate.
Qed.

Lemma seg_open h a l b : seg h a l b -> open_seg h a l.
Proof. destruct l as [|z l _] using rev_ind; [cbn; auto|]. rewrite open_snoc, seg_app. tauto. Qed.

Lemma relinked_open a b h h' x l : relinked a b h h' -> a ∉ x :: l -> b ∉ l -> open_seg h x l -> open_seg h' x l.
Proof.
  intros Hr Ha Hb. destruct l as [|z l _] using rev_ind; [cbn; auto|]. rewrite !open_snoc.
  intros H. eapply relinked_seg; [eauto|set_solver|auto|auto].
Qed.

(** The segment that ended elsewhere now ends at [b]. *)
Lemma relinked_turn b h h' x l : relinked (back x l) b h h' -> NoDup (x :: l) -> b ∉ l -> open_seg h x l -> seg h' x l b.
Proof.
  intros Hr. destruct l as [|z l _] using rev_ind; intros Hn Hb H; [apply Hr|].
  rewrite back_snoc in Hr. rewrite open_snoc in H. rewrite seg_app. split; [|apply Hr].
  apply (relinked_seg _ _ _ _ _ _ _ Hr); [|exact Hb|auto].
  rewrite app_comm_cons, NoDup_app in Hn. destruct Hn as (_&Hn&_). intros F. apply (Hn z F). set_solver.
Qed.

Lemma relinked_alive a b h h' x : relinked a b h h' -> is_Some (h !! x) -> is_Some (h' !! x).
Proof.
  intros (Hl&Ho&_) Hx. apply linked_alive in Hl as [H1 H2].
  destruct (decide (x = a)) as [->|]; [auto|]. destruct (decide (x = b)) as [->|]; [auto|]. rewrite Ho; auto.
Qed.

Lemma relinked_other a b h h' x : relinked a b h h' -> x <> a -> x <> b -> h' !! x = h !! x.
Proof. intros (_&Ho&_). auto. Qed.

(** Only the items of some list differ. *)
Definition touches (l : list loc) (h h' : store) : Prop := forall x, x ∉ l -> h' !! x = h !! x.

Lemma touches_trans l h1 h2 h3 : touches l h1 h2 -> touches l h2 h3 -> touches l h1 h3.
Proof. intros H1 H2 x Hx. rewrite H2, H1; auto. Qed.

Lemma touches_mono l k h h' : l ⊆ k -> touches l h h' -> touches k h h'.
Proof. intros Hl H x Hx. apply H. set_solver. Qed.

Lemma relinked_touches a b l h h' : a ∈ l -> b ∈ l -> relinked a b h h' -> touches l h h'.
Proof. intros Ha Hb Hr x Hx. eapply relinked_other; [eauto|congruence..]. Qed.

Lemma touches_ring l h h' e k : touches l h h' -> (e :: k) ## l -> ring h e k -> ring h' e k.
Proof. intros Ht Hd Hr. eapply ring_frame; [|eauto]. intros x Hx. apply Ht. set_solver. Qed.

(** ** The operations on rings *)

Definition front (k : list loc) (e : loc) : loc := match k with [] => e | y :: _ => y end.

Lemma seg_first h a l b : seg h a l b -> linked h a (front l b).
Proof. destruct l; cbn; tauto. Qed.

Lemma ring_self h x : h !! x = Some (mk_item x x) -> ring h x [].
Proof. intros E. split; [apply NoDup_singleton|]. cbn. unfold linked, Next, Prev. rewrite E. auto. Qed.

Lemma ring_self_inv h x : ring h x [] -> h !! x = Some (mk_item x x).
Proof. intros [_ [H1 H2]]. unfold Next, Prev in *. destruct (h !! x) as [[n p]|]; cbn in *; [|discriminate]. congruence. Qed.

Lemma ring_item h e l x k : ring h e (l ++ x :: k) -> Prev x h = Some (back e l) /\ Next x h = Some (front k e).
Proof.
  intros [_ Hs]. rewrite seg_app in Hs. destruct Hs as [H1 H2]. apply seg_last in H1. apply seg_first in H2.
  split; [apply H1|apply H2].
Qed.

Lemma ring_end h e l : ring h e l -> Prev e h = Some (back e l) /\ Next e h = Some (front l e).
Proof. intros [_ Hs]. split; [apply seg_last in Hs|apply seg_first in Hs]; apply Hs. Qed.

Lemma Empty_ring h e l : ring h e l -> Empty e h = Some (bool_decide (l = [])).
Proof.
  intros Hr. pose proof (ring_end _ _ _ Hr) as [H1 H2]. unfold Empty, Prev, Next in *.
  destruct (h !! e) as [[n p]|]; cbn in *; [|discriminate]. injection H1 as ->. injection H2 as ->.
  destruct l as [|y l]; [rewrite !bool_decide_true by auto; auto|].
  rewrite (bool_decide_false (y :: l = [])) by discriminate. f_equal. apply andb_false_iff. right.
  apply bool_decide_eq_false. cbn. intros ->. destruct Hr as [Hn _]. apply NoDup_cons in Hn as [Hn _]. set_solver.
Qed.

Lemma SetEnd_run h x : is_Some (h !! x) ->
  exists h', SetEnd x h = Some h' /\ h' !! x = Some (mk_item x x) /\ touches [x] h h'.
Proof.
  intros [i Hi]. unfold SetEnd, SetPrev, SetNext. rewrite Hi, lookup_insert_eq. eexists. split; [reflexivity|].
  rewrite lookup_insert_eq. split; [auto|]. intros y Hy. rewrite !lookup_insert_ne by set_solver. auto.
Qed.

Lemma Unlink_free h x : ring h x [] -> Unlink x h = Some h.
Proof. intros Hr. unfold Unlink. rewrite (Empty_ring _ _ _ Hr), bool_decide_true by auto. auto. Qed.

(** [Unlink] takes an item out of its list. *)
Lemma Unlink_item h e l x k : ring h e (l ++ x :: k) ->
  exists h', Unlink x h = Some h' /\ ring h' e (l ++ k) /\ ring h' x [] /\ touches (e :: l ++ x :: k) h h'.
Proof.
  intros Hr. destruct (ring_item _ _ _ _ _ Hr) as [Hp Hn]. unfold Unlink.
  rewrite (Empty_ring _ _ _ (ring_rotate _ _ _ _ _ Hr)), bool_decide_false by (destruct k; discriminate).
  rewrite Hp, Hn. destruct Hr as [Hnd Hs]. pose proof Hs as Hs0. rewrite seg_app in Hs. destruct Hs as [S1 S2].
  assert (Hd : NoDup (e :: l) /\ NoDup k /\ x ∉ e :: l ++ k /\ (e :: l) ## k).
  { rewrite app_comm_cons, NoDup_app in Hnd. destruct Hnd as (D1&D2&D3). apply NoDup_cons in D3 as [D3 D4].
    conj; auto; set_solver. }
  destruct Hd as (D1&D2&D3&D4).
  assert (Hfe : front k e ∈ e :: l ++ x :: k) by (destruct k; set_solver).
  pose proof (back_elem e l) as Hbe.
  destruct (relink_some h (back e l) (front k e)) as (h1&E1&R1).
  { eapply seg_alive; [exact Hs0|]. set_solver. }
  { eapply seg_alive; [exact Hs0|]. set_solver. }
  rewrite E1. destruct (SetEnd_run h1 x) as (h2&E2&F2&T2).
  { eapply relinked_alive; [eauto|]. eapply seg_alive; [exact Hs0|]. set_solver. }
  exists h2. split; [auto|]. split; [|split; [apply ring_self; auto|]].
  - apply (touches_ring [x] h1); [auto|set_solver|]. split.
    + rewrite app_comm_cons, NoDup_app. conj; auto.
    + destruct k as [|y k]; cbn [front] in *.
      * rewrite app_nil_r. apply seg_open, (relinked_turn _ _ _ _ _ R1 D1) in S1; [auto|]. apply NoDup_cons in D1. tauto.
      * rewrite seg_app. split; [apply seg_open, (relinked_turn _ _ _ _ _ R1 D1) in S1; [auto|set_solver]|].
        apply (relinked_seg _ _ _ _ _ _ _ R1); [set_solver| |apply S2]. apply NoDup_cons in D2. set_solver.
  - eapply touches_trans; [eapply relinked_touches; [| |exact R1]; set_solver|]. eapply touches_mono; [|exact T2]. set_solver.
Qed.

(** Linking a free item in front of the head of a ring makes it the last one. *)
Lemma LinkBeforeNoUnlink_head h b l x : ring h b l -> ring h x [] -> x ∉ b :: l ->
  exists h', LinkBeforeNoUnlink x b h = Some h' /\ ring h' b (l ++ [x]) /\ touches (x :: b :: l) h h'.
Proof.
  intros Hr Hx Hni. destruct (ring_end _ _ _ Hr) as [Hp _]. pose proof (back_elem b l) as Hbe.
  unfold LinkBeforeNoUnlink. rewrite Hp. destruct Hr as [Hn Hs]. destruct (relink_some h (back b l) x) as (h1&E1&R1).
  { eapply seg_alive; [exact Hs|]. set_solver. }
  { eapply ring_alive; [exact Hx|]. set_solver. }
  rewrite E1. apply seg_open, (relinked_turn _ _ _ _ _ R1 Hn) in Hs as S1; [|set_solver].
  destruct (relink_some h1 x b) as (h2&E2&R2).
  { eapply seg_alive; [exact S1|]. set_solver. }
  { eapply seg_alive; [exact S1|]. set_solver. }
  exists h2. split; [auto|]. split; [split|].
  - rewrite app_comm_cons, NoDup_app. conj; [auto|set_solver|apply NoDup_singleton].
  - rewrite seg_app. split; [|apply R2]. apply (relinked_seg _ _ _ _ _ _ _ R2); auto. apply NoDup_cons in Hn. set_solver.
  - eapply touches_trans; eapply relinked_touches; [| |exact R1| | |exact R2]; set_solver.
Qed.

(** In front of any item of a list. *)
Lemma LinkBeforeNoUnlink_item h e l k x : ring h e (l ++ k) -> ring h x [] -> x ∉ e :: l ++ k ->
  exists h', LinkBeforeNoUnlink x (front k e) h = Some h' /\ ring h' e (l ++ x :: k) /\ touches (x :: e :: l ++ k) h h'.
Proof.
  intros Hr Hx Hni. destruct k as [|y k]; cbn [front].
  - rewrite app_nil_r in *. apply LinkBeforeNoUnlink_head; auto.
  - destruct (LinkBeforeNoUnlink_head h y (k ++ e :: l) x) as (h'&E&Hr'&Ht); auto; [apply ring_rotate; auto|set_solver|].
    exists h'. split; [auto|]. split; [|eapply touches_mono; [|exact Ht]; set_solver].
    rewrite <- app_assoc in Hr'. cbn in Hr'. apply ring_rotate in Hr'. rewrite <- app_assoc in Hr'. exact Hr'.
Qed.

(** Membership goals, from the facts on membership alone. *)
Ltac apart := repeat match goal with
  | H : ?P |- _ => match type of P with Prop => lazymatch P with _ ∈ _ => fail | _ ∉ _ => fail | _ ## _ => fail | _ <> _ => fail | _ => clear H end end
  end; set_solver.

(** Three segments [g a], [c0 c], [p m] of different items: the links of a cut close the
    first one and put the second at the end of the third. *)
Lemma cut_links h g a c0 c p m : NoDup (g :: a) -> NoDup (c0 :: c) -> NoDup (p :: m) ->
  (g :: a) ## (c0 :: c) -> (g :: a) ## (p :: m) -> (c0 :: c) ## (p :: m) ->
  open_seg h g a -> open_seg h c0 c -> open_seg h p m -> (forall x, x ∈ g :: a ++ (c0 :: c) ++ p :: m -> is_Some (h !! x)) ->
  exists h1 h2 h3, relink (back g a) g h = Some h1 /\ Prev p h1 = Prev p h /\ relink (back p m) c0 h1 = Some h2 /\
    relink (back c0 c) p h2 = Some h3 /\ seg h3 g a g /\ seg h3 p (m ++ c0 :: c) p /\ touches (g :: a ++ (c0 :: c) ++ p :: m) h h3.
Proof.
  intros Ng Nc Np Dgc Dgp Dcp Sg Sc Sp Al.
  pose proof (back_elem g a) as B1. pose proof (back_elem c0 c) as B2. pose proof (back_elem p m) as B3.
  assert (Ig : g ∉ a /\ c0 ∉ c /\ p ∉ m) by (apply NoDup_cons in Ng, Nc, Np; tauto). destruct Ig as (Ig&Ic&Ip).
  remember (g :: a ++ (c0 :: c) ++ p :: m) as all eqn:Hall.
  assert (I1 : back g a ∈ all /\ g ∈ all /\ back p m ∈ all /\ c0 ∈ all /\ back c0 c ∈ all /\ p ∈ all)
    by (rewrite Hall; clear -B1 B2 B3; set_solver). destruct I1 as (I1&I2&I3&I4&I5&I6).
  destruct (relink_some h (back g a) g) as (h1&E1&R1); [auto..|].
  assert (Al1 : forall x, x ∈ all -> is_Some (h1 !! x)) by (intros; eapply relinked_alive; eauto).
  destruct (relink_some h1 (back p m) c0) as (h2&E2&R2); [auto..|].
  assert (Al2 : forall x, x ∈ all -> is_Some (h2 !! x)) by (intros; eapply relinked_alive; eauto).
  destruct (relink_some h2 (back c0 c) p) as (h3&E3&R3); [auto..|].
  assert (T : touches all h h3).
  { eapply touches_trans; [eapply relinked_touches; [| |exact R1]; auto|].
    eapply touches_trans; [eapply relinked_touches; [| |exact R2]; auto|]. eapply relinked_touches; [| |exact R3]; auto. }
  clear I1 I2 I3 I4 I5 I6. exists h1, h2, h3. split; [auto|]. split; [apply R1; apart|]. split; [auto|]. split; [auto|]. conj; [| |auto].
  - apply (relinked_seg _ _ _ _ _ _ _ R3); [apart..|]. apply (relinked_seg _ _ _ _ _ _ _ R2); [apart..|].
    apply (relinked_turn _ _ _ _ _ R1); auto.
  - rewrite seg_app. split.
    + apply (relinked_seg _ _ _ _ _ _ _ R3); [apart..|]. apply (relinked_turn _ _ _ _ _ R2); [auto|apart|].
      apply (relinked_open _ _ _ _ _ _ R1); [apart..|auto].
    + apply (relinked_turn _ _ _ _ _ R3); [auto|apart|]. apply (relinked_open _ _ _ _ _ _ R2); [apart..|].
      apply (relinked_open _ _ _ _ _ _ R1); [apart..|auto].
Qed.

(** A cut moves the items from [c0] up to the head [g] to the end of the other ring. *)
Lemma Cut_ring h g a c0 c p m : ring h g (a ++ c0 :: c) -> ring h p m -> (g :: a ++ c0 :: c) ## (p :: m) ->
  exists h', Cut c0 g p h = Some h' /\ ring h' g a /\ ring h' p (m ++ c0 :: c) /\ touches (g :: a ++ (c0 :: c) ++ p :: m) h h'.
Proof.
  intros Hg Hp Hd. destruct (ring_item _ _ _ _ _ Hg) as [P1 _]. destruct (ring_end _ _ _ Hg) as [P2 _].
  destruct (ring_end _ _ _ Hp) as [P3 _]. rewrite back_app in P2.
  destruct Hg as [Hgn Hgs]. destruct Hp as [Hpn Hps]. pose proof Hgs as Hgs0. rewrite seg_app in Hgs. destruct Hgs as [S1 S2].
  rewrite app_comm_cons, NoDup_app in Hgn. destruct Hgn as (D1&D2&D3).
  destruct (cut_links h g a c0 c p m) as (h1&h2&h3&E1&E2&E3&E4&G1&G2&T); auto; try (eapply seg_open; eauto); try (clear -Hd; set_solver).
  { intros x Hx. destruct (decide (x ∈ p :: m)); [eapply seg_alive; [exact Hps|set_solver]|]. eapply seg_alive; [exact Hgs0|]. set_solver. }
  unfold Cut. rewrite bool_decide_false by (clear -D2; set_solver). rewrite P1, P2, E1, E2, P3, E3. exists h3. split; [auto|].
  split; [split; auto|]. split; [|auto]. split; [|auto]. rewrite app_comm_cons, NoDup_app. conj; auto. clear -Hd. set_solver.
Qed.
