(* ===== verification/LWorld.v ===== *)
(** * Intrusive lists: all the lists of a store

    The abstract state is a finite map from the heads of lists to their items; a free item
    is a head without items.  Every operation of [LList] on pointers does what its
    counterpart does on that map. *)

From Stdlib Require Import ZArith Lia Bool.
From stdpp Require Import base numbers list gmap fin_maps.
From S2P Require Import Prelude LList.

#[local] Open Scope nat_scope.

Notation lists := (gmap loc (list loc)).

(** Every list of the map is a ring of the store, and no head is an item. *)
Record world (h : store) (W : lists) : Prop := {
  world_ring e l : W !! e = Some l -> ring h e l;
  world_head e l e' l' : W !! e = Some l -> W !! e' = Some l' -> e' ∉ l }.

(** ** Rings are the same or apart *)

Lemma ring_next h e l x y : ring h e l -> x ∈ e :: l -> Next x h = Some y -> y ∈ e :: l.
Proof.
  intros Hr Hx E. destruct (decide (x = e)) as [->|Hn].
  - apply ring_end in Hr as [_ E']. rewrite E in E'. inv E'. destruct l; set_solver.
  - assert (Hl : x ∈ l) by set_solver. apply list_elem_of_split in Hl as (l1&l2&->).
    apply ring_item in Hr as [_ E']. rewrite E in E'. inv E'. destruct l2; set_solver.
Qed.

Lemma seg_closed h (P : loc -> Prop) a l b : (forall x y, P x -> Next x h = Some y -> P y) -> seg h a l b -> P a -> P b.
Proof.
  intros HP. revert a. induction l as [|c l IH]; intros a Hs Ha; cbn in Hs.
  - eapply HP; [exact Ha|apply Hs].
  - destruct Hs as [[Hn _] Hs]. apply (IH _ Hs). eapply HP; eauto.
Qed.

Lemma ring_common h e l e' l' x : ring h e l -> ring h e' l' -> x ∈ e :: l -> x ∈ e' :: l' -> e' ∈ e :: l.
Proof.
  intros Hr Hr' Hx Hx'. assert (HP : forall x y, x ∈ e :: l -> Next x h = Some y -> y ∈ e :: l) by eauto using ring_next.
  apply elem_of_cons in Hx' as [-> | Hx']; [auto|]. apply list_elem_of_split in Hx' as (l1&l2&->).
  destruct Hr' as [_ Hs]. rewrite seg_app in Hs. eapply (seg_closed h (fun x => x ∈ e :: l)); [exact HP|apply Hs|auto].
Qed.

Section world.
Context (h : store) (W : lists) (HW : world h W).

Lemma world_apart e l e' l' : W !! e = Some l -> W !! e' = Some l' -> e <> e' -> (e :: l) ## (e' :: l').
Proof.
  intros E E' Hne x Hx Hx'. destruct HW as [R H].
  assert (F : e' ∈ e :: l) by (eapply ring_common; eauto).
  apply elem_of_cons in F as [-> | F]; [congruence|]. exact (H _ _ _ _ E E' F).
Qed.

(** A change of the store at the items [T] that lists outside of [T] survive, and that
    puts rings of [T] in the place of the others. *)
Lemma world_step h' W' T : touches T h h' ->
  (forall e l, W' !! e = Some l -> (W !! e = Some l /\ (e :: l) ## T) \/ (ring h' e l /\ e :: l ⊆ T)) ->
  (forall e l e' l', W' !! e = Some l -> W' !! e' = Some l' -> e ∈ T -> e' ∈ T -> e' ∉ l) -> world h' W'.
Proof.
  intros Ht Hr Hh. split.
  - intros e l E. destruct (Hr e l E) as [[E' Hd]|[]]; [|auto]. eapply touches_ring; [exact Ht|exact Hd|]. apply HW. auto.
  - intros e l e' l' E E'. destruct (Hr _ _ E) as [[F D]|[F D]], (Hr _ _ E') as [[F' D']|[F' D']]; [eapply world_head; eauto|set_solver..|]. eapply Hh; eauto; set_solver.
Qed.
End world.

(** ** The operations on the map *)

Definition without (x : loc) (l : list loc) : list loc := filter (fun y => y <> x) l.

Definition remove (x : loc) (W : lists) : lists := without x <$> W.

Definition unlinked (x : loc) (W : lists) : lists := <[x := []]> (remove x W).

(** [x] is in a list, or free. *)
Definition movable (x : loc) (W : lists) : Prop := W !! x = Some [] \/ exists e l k, W !! e = Some (l ++ x :: k).

Lemma without_notin x l : x ∉ l -> without x l = l.
Proof.
  unfold without. induction l as [|y l IH]; intros H; [auto|]. rewrite filter_cons_True, IH by set_solver. auto.
Qed.

Lemma without_split x l k : NoDup (l ++ x :: k) -> without x (l ++ x :: k) = l ++ k.
Proof.
  rewrite NoDup_app. intros (H1&H2&H3). apply NoDup_cons in H3 as [H3 H4]. unfold without. rewrite filter_app, filter_cons_False by tauto.
  fold (without x l) (without x k). rewrite !without_notin; auto. intros F. apply (H2 x F). set_solver.
Qed.

Lemma lookup_remove x W e : remove x W !! e = without x <$> W !! e.
Proof. unfold remove. apply lookup_fmap. Qed.

Lemma without_subset x l y : y ∈ without x l -> y ∈ l /\ y <> x.
Proof. unfold without. rewrite list_elem_of_filter. tauto. Qed.

Lemma movable_alive h W x : world h W -> movable x W -> is_Some (h !! x).
Proof.
  intros HW [E|(e&l&k&E)]; [eapply ring_alive; [apply HW; exact E|set_solver]|].
  eapply ring_alive; [apply HW; exact E|]. set_solver.
Qed.

(** An item that moves out of one list leaves the others alone. *)
Lemma remove_others h W x e l k : world h W -> W !! e = Some (l ++ x :: k) -> remove x W = <[e := l ++ k]> W.
Proof.
  intros HW E. apply map_eq. intros e'. rewrite lookup_remove. destruct (decide (e' = e)) as [->|Hne].
  - rewrite lookup_insert_eq, E. cbn. rewrite without_split; auto. apply HW in E as [Hn _]. apply NoDup_cons in Hn. tauto.
  - rewrite lookup_insert_ne by auto. destruct (W !! e') as [l'|] eqn:E'; [|auto]. cbn. rewrite without_notin; auto.
    pose proof (world_apart _ _ HW _ _ _ _ E' E Hne) as D. intros F. apply (D x); set_solver.
Qed.

Lemma remove_head h W x l : world h W -> W !! x = Some l -> remove x W = W.
Proof.
  intros HW E. apply map_eq. intros e. rewrite lookup_remove. destruct (W !! e) as [l'|] eqn:E'; [|auto]. cbn.
  rewrite without_notin; auto. eapply world_head; eauto.
Qed.

(** Cases of a lookup in an updated map. *)
Ltac lookups := repeat match goal with
  | H : <[_ := _]> _ !! _ = Some _ |- _ => apply lookup_insert_Some in H as [[? ?]|[? H]]; subst
  | H : delete _ _ !! _ = Some _ |- _ => apply lookup_delete_Some in H as [? H]
  end.

(** A list that is not changed, by the lemma that tells why it is none of those that are. *)
Ltac old H := match goal with F : _ !! ?a = Some _ |- _ => exfalso; apply (H a _ F); assumption end.

Lemma NoDup_item (e : loc) l x k : NoDup (e :: l ++ x :: k) -> NoDup (e :: l ++ k) /\ x ∉ e :: l ++ k /\ e ∉ l ++ k.
Proof.
  intros Hn. assert (P : e :: l ++ x :: k ≡ₚ x :: e :: l ++ k) by (rewrite <- Permutation_middle; constructor).
  rewrite P in Hn. apply NoDup_cons in Hn as [H1 H2]. split; [auto|]. split; [auto|]. apply NoDup_cons in H2. tauto.
Qed.

(** The head of another list is not among the items of this one. *)
Lemma world_old h W e l a k : world h W -> W !! e = Some l -> W !! a = Some k -> e <> a -> a ∈ e :: l -> False.
Proof. intros HW E E' Hne Ha. eapply (world_apart _ _ HW _ _ _ _ E E' Hne a); [auto|set_solver]. Qed.

Lemma Unlink_world h W x : world h W -> movable x W -> exists h', Unlink x h = Some h' /\ world h' (unlinked x W).
Proof.
  intros HW [E|(e&l&k&E)].
  - exists h. split; [apply Unlink_free, HW, E|]. unfold unlinked. rewrite (remove_head _ _ _ _ HW E), insert_id; auto.
  - destruct (Unlink_item h e l x k) as (h'&E'&R1&R2&T); [apply HW; auto|]. exists h'. split; [auto|].
    unfold unlinked. rewrite (remove_others _ _ _ _ _ _ HW E).
    destruct (NoDup_item e l x k) as (_&Hx&He); [apply HW; auto|].
    apply (world_step h W HW h' _ _ T).
    + intros e0 l0 F. lookups; [right; split; [auto|set_solver]..|]. left. split; [auto|]. eapply world_apart; eauto.
    + intros e1 l1 e2 l2 F1 F2 T1 T2. lookups; first [exfalso; eapply world_old; [exact HW|exact E| | |]; eassumption|apart].
Qed.

(** Linking a free item into a list. *)
Lemma LinkBefore_world h W e l k x : world h W -> W !! e = Some (l ++ k) -> W !! x = Some [] -> x <> e ->
  exists h', LinkBeforeNoUnlink x (front k e) h = Some h' /\ world h' (<[e := l ++ x :: k]> (delete x W)).
Proof.
  intros HW E Ex Hne. pose proof (world_apart _ _ HW _ _ _ _ Ex E Hne) as D.
  destruct (LinkBeforeNoUnlink_item h e l k x) as (h'&E'&R&T); [apply HW; auto|apply HW; auto|set_solver|].
  exists h'. split; [auto|]. apply (world_step h W HW h' _ _ T).
  - intros e0 l0 F. lookups; [right; split; [auto|set_solver]|]. left. split; [auto|].
    pose proof (world_apart _ _ HW e (l ++ k) e0 l0 ltac:(auto) ltac:(auto) ltac:(auto)).
    pose proof (world_apart _ _ HW x [] e0 l0 ltac:(auto) ltac:(auto) ltac:(auto)). set_solver.
  - intros e1 l1 e2 l2 F1 F2 T1 T2. apply HW in E as Hr. destruct Hr as [Hn _]. apply NoDup_cons in Hn as [Hn _].
    lookups; try (exfalso; match goal with F : W !! ?a = Some _, Ha : ?a ∈ _, N : x <> ?a |- _ =>
      apply elem_of_cons in Ha as [-> | Ha]; [congruence|]; eapply world_old; [exact HW|exact E|exact F|assumption|exact Ha] end); set_solver.
Qed.

(** ** Lists as a client sees them *)

Fixpoint insert_before (x y : loc) (l : list loc) : list loc :=
  match l with
  | [] => []
  | z :: l => if decide (z = y) then x :: z :: l else z :: insert_before x y l
  end.

Fixpoint insert_after (x y : loc) (l : list loc) : list loc :=
  match l with
  | [] => []
  | z :: l => if decide (z = y) then z :: x :: l else z :: insert_after x y l
  end.

(** In front of the head of a list is its end. *)
Definition placed_before (x y : loc) (W : lists) : lists :=
  match W !! y with
  | Some l => <[y := l ++ [x]]> W
  | None => insert_before x y <$> W
  end.

Definition placed_after (x y : loc) (W : lists) : lists :=
  match W !! y with
  | Some l => <[y := x :: l]> W
  | None => insert_after x y <$> W
  end.

Inductive call :=
  | CNew
  | CDelete (x : loc)
  | CUnlink (x : loc)
  | CLinkBefore (x y : loc)
  | CLinkAfter (x y : loc)
  | CPushBack (e x : loc)
  | CPushFront (e x : loc)
  | CPopBack (e : loc)
  | CPopFront (e : loc)
  | CAppend (e e' : loc)
  | CSwap (e e' : loc)
  | CClear (e : loc)
  | CDeleteAll (e : loc).

(** The call on pointers; the result is an address or nothing. *)
Definition run_call (fuel : nat) (c : call) (h : store) : option (option loc * store) :=
  let none h := Some (None : option loc, h) in
  let some (xh : loc * store) := Some (Some xh.1, xh.2) in
  match c with
  | CNew => let x := fresh (dom h) in Some (Some x, new_item x h)
  | CDelete x => let* h := delete_item x h in none h
  | CUnlink x => let* h := Unlink x h in none h
  | CLinkBefore x y => let* h := LinkBefore x y h in none h
  | CLinkAfter x y => let* h := LinkAfter x y h in none h
  | CPushBack e x => let* h := PushBack e x h in none h
  | CPushFront e x => let* h := PushFront e x h in none h
  | CPopBack e => let* xh := PopBack e h in some xh
  | CPopFront e => let* xh := PopFront e h in some xh
  | CAppend e e' => let* h := Append e e' h in none h
  | CSwap e e' => let* h := Swap e e' h in none h
  | CClear e => let* h := Clear e h in none h
  | CDeleteAll e => let* h := DeleteAll fuel e h in none h
  end.

(** What a client may call: items are in a list or free, the lists are different ones. *)
Definition known (y : loc) (W : lists) : Prop := exists e l, W !! e = Some l /\ y ∈ e :: l.

Definition allowed (c : call) (W : lists) : Prop :=
  match c with
  | CNew => True
  | CDelete x | CUnlink x => movable x W
  | CLinkBefore x y | CLinkAfter x y | CPushBack y x | CPushFront y x => movable x W /\ known y W /\ x <> y
  | CPopBack e | CPopFront e | CClear e | CDeleteAll e => is_Some (W !! e)
  | CAppend e e' | CSwap e e' => is_Some (W !! e) /\ is_Some (W !! e') /\ e <> e'
  end.

(** The call on lists: the map afterwards, given the result. *)
Definition items (e : loc) (W : lists) : list loc := default [] (W !! e).

Definition after_call (c : call) (r : option loc) (W : lists) : lists :=
  match c with
  | CNew => match r with Some x => <[x := []]> W | None => W end
  | CDelete x => delete x (remove x W)
  | CUnlink x => unlinked x W
  | CLinkBefore x y | CPushBack y x => placed_before x y (delete x (remove x W))
  | CLinkAfter x y | CPushFront y x => placed_after x y (delete x (remove x W))
  | CPopBack e | CPopFront e => match r with Some x => unlinked x W | None => W end
  | CAppend e e' => <[e' := []]> (<[e := items e W ++ items e' W]> W)
  | CSwap e e' => <[e' := items e W]> (<[e := items e' W]> W)
  | CClear e => match items e W with [] => W | y :: l => <[y := l]> (<[e := []]> W) end
  | CDeleteAll e => <[e := []]> W
  end.

(** The result of a call: a new address, the first or the last item (the head itself when
    the list is empty). *)
Definition result_ok (c : call) (r : option loc) (W : lists) : Prop :=
  match c with
  | CNew => exists x, r = Some x /\ ~ known x W
  | CPopBack e => r = Some (back e (items e W))
  | CPopFront e => r = Some (front (items e W) e)
  | _ => r = None
  end.

(** ** Every call does what it does on lists *)

Lemma insert_before_notin x y l : y ∉ l -> insert_before x y l = l.
Proof. induction l as [|z l IH]; cbn; intros H; [auto|]. rewrite decide_False, IH by set_solver. auto. Qed.

Lemma insert_after_notin x y l : y ∉ l -> insert_after x y l = l.
Proof. induction l as [|z l IH]; cbn; intros H; [auto|]. rewrite decide_False, IH by set_solver. auto. Qed.

Lemma insert_before_split x y l k : y ∉ l -> insert_before x y (l ++ y :: k) = l ++ x :: y :: k.
Proof. induction l as [|z l IH]; cbn; intros H; [rewrite decide_True; auto|]. rewrite decide_False, IH by set_solver. auto. Qed.

Lemma insert_after_split x y l k : y ∉ l -> insert_after x y (l ++ y :: k) = (l ++ [y]) ++ x :: k.
Proof. induction l as [|z l IH]; cbn; intros H; [rewrite decide_True; auto|]. rewrite decide_False, IH by set_solver. auto. Qed.

(** An item is not a head, and it is in one list only. *)
Lemma world_item h W e l y k : world h W -> W !! e = Some (l ++ y :: k) ->
  W !! y = None /\ y <> e /\ y ∉ l /\ y ∉ k /\ (forall e' l', W !! e' = Some l' -> e' <> e -> y ∉ l').
Proof.
  intros HW E. destruct (NoDup_item e l y k) as (_&Hy&_); [apply HW; auto|]. conj; [|set_solver..|].
  - destruct (W !! y) as [k'|] eqn:Ey; [|auto]. exfalso. eapply (world_head _ _ HW e _ y); eauto. set_solver.
  - intros e' l' E' Hne F. eapply (world_apart _ _ HW _ _ _ _ E E'); [auto| |]; apply elem_of_cons; right; [|exact F]. set_solver.
Qed.

Lemma fmap_one (f : list loc -> list loc) (W : lists) e l :
  W !! e = Some l -> (forall e' l', W !! e' = Some l' -> e' <> e -> f l' = l') -> f <$> W = <[e := f l]> W.
Proof.
  intros E H. apply map_eq. intros e'. rewrite lookup_fmap. destruct (decide (e' = e)) as [->|Hne]; [rewrite E, lookup_insert_eq; auto|].
  rewrite lookup_insert_ne by auto. destruct (W !! e') as [l'|] eqn:E'; [|auto]. cbn. erewrite H; eauto.
Qed.

(** Linking a free item next to a head or an item. *)
Lemma place_before_world h W x y : world h W -> W !! x = Some [] -> known y W -> x <> y ->
  exists h', LinkBeforeNoUnlink x y h = Some h' /\ world h' (placed_before x y (delete x W)).
Proof.
  intros HW Ex (e&l&E&Hy) Hne. unfold placed_before. rewrite lookup_delete_ne by auto. destruct (W !! y) as [k|] eqn:Ey.
  - apply (LinkBefore_world h W y k [] x); auto. rewrite app_nil_r. auto.
  - assert (Hl : y ∈ l) by (apply elem_of_cons in Hy as [-> | Hy]; [congruence|auto]).
    apply list_elem_of_split in Hl as (a&b&->). assert (Hxe : x <> e) by (intros ->; rewrite E in Ex; destruct a; discriminate).
    destruct (world_item _ _ _ _ _ _ HW E) as (_&_&H1&_&H3). destruct (LinkBefore_world h W e a (y :: b) x) as (h'&R&Hw); auto.
    exists h'. split; [auto|]. erewrite (fmap_one _ _ e); [|rewrite lookup_delete_ne by auto; exact E|].
    + rewrite insert_before_split by auto. auto.
    + intros e' l' E' Hne'. apply lookup_delete_Some in E' as [_ E']. apply insert_before_notin. eauto.
Qed.

Lemma place_after_world h W x y : world h W -> W !! x = Some [] -> known y W -> x <> y ->
  exists n h', Next y h = Some n /\ LinkBeforeNoUnlink x n h = Some h' /\ world h' (placed_after x y (delete x W)).
Proof.
  intros HW Ex (e&l&E&Hy) Hne. unfold placed_after. rewrite lookup_delete_ne by auto. destruct (W !! y) as [k|] eqn:Ey.
  - destruct (ring_end h y k) as [_ Hn]; [apply HW; auto|]. exists (front k y).
    destruct (LinkBefore_world h W y [] k x) as (h'&R&Hw); auto. eauto.
  - assert (Hl : y ∈ l) by (apply elem_of_cons in Hy as [-> | Hy]; [congruence|auto]).
    apply list_elem_of_split in Hl as (a&b&->). assert (Hxe : x <> e) by (intros ->; rewrite E in Ex; destruct a; discriminate).
    destruct (ring_item h e a y b) as [_ Hn]; [apply HW; auto|]. exists (front b e).
    destruct (world_item _ _ _ _ _ _ HW E) as (_&_&H1&_&H3).
    destruct (LinkBefore_world h W e (a ++ [y]) b x) as (h'&R&Hw); auto; [rewrite <- app_assoc; auto|].
    exists h'. split; [auto|]. split; [auto|]. erewrite (fmap_one _ _ e); [|rewrite lookup_delete_ne by auto; exact E|].
    + rewrite insert_after_split by auto. auto.
    + intros e' l' E' Hne'. apply lookup_delete_Some in E' as [_ E']. apply insert_after_notin. eauto.
Qed.

Lemma movable_head h W x l : world h W -> movable x W -> W !! x = Some l -> l = [].
Proof.
  intros HW [E|(e&a&b&E)] E'; [congruence|]. exfalso. eapply (world_head _ _ HW e _ x); eauto. set_solver.
Qed.

Lemma known_unlinked h W x y : world h W -> known y W -> x <> y -> movable x W -> known y (unlinked x W).
Proof.
  intros HW (e&l&E&Hy) Hne Hm. unfold unlinked. destruct (decide (e = x)) as [->|Hex].
  - apply (movable_head _ _ _ _ HW Hm) in E. subst l. set_solver.
  - exists e, (without x l). rewrite lookup_insert_ne, lookup_remove, E by auto. split; [auto|].
    apply elem_of_cons in Hy as [-> | Hy]; [set_solver|]. apply elem_of_cons. right. unfold without. apply list_elem_of_filter. auto.
Qed.

Lemma delete_unlinked x W : delete x (unlinked x W) = delete x (remove x W).
Proof. unfold unlinked. apply delete_insert_eq. Qed.

Lemma fresh_unknown h W : world h W -> ~ known (fresh (dom h)) W.
Proof.
  intros HW (e&l&E&Hx). destruct (ring_alive h e l (fresh (dom h))) as [i Hi]; [apply HW; auto|auto|].
  apply elem_of_dom_2 in Hi. exact (is_fresh (dom h) Hi).
Qed.

Lemma new_world h W x : world h W -> ~ known x W -> world (new_item x h) (<[x := []]> W).
Proof.
  intros HW Hx. apply (world_step h W HW _ _ [x]).
  - intros y Hy. unfold new_item. rewrite lookup_insert_ne by set_solver. auto.
  - intros e l F. lookups; [right; split; [apply ring_self; unfold new_item; apply lookup_insert_eq|set_solver]|].
    left. split; [auto|]. intros y Hy Hy'. apply list_elem_of_singleton in Hy' as ->. apply Hx. exists e, l. auto.
  - intros e1 l1 e2 l2 F1 F2 T1 T2. apply list_elem_of_singleton in T1 as ->, T2 as ->. lookups; [set_solver|congruence..].
Qed.

Lemma delete_world h W x : world h W -> movable x W -> exists h', delete_item x h = Some h' /\ world h' (delete x (remove x W)).
Proof.
  intros HW Hm. unfold delete_item. destruct (Unlink_world h W x HW Hm) as (h1&E1&H1). rewrite E1. eexists. split; [reflexivity|].
  rewrite <- delete_unlinked. apply (world_step h1 _ H1 _ _ [x]).
  - intros y Hy. rewrite lookup_delete_ne by set_solver. auto.
  - intros e l F. lookups. left. split; [auto|]. intros y Hy Hy'. apply list_elem_of_singleton in Hy' as ->.
    eapply (world_old _ _ e l x []); [exact H1|exact F|unfold unlinked; apply lookup_insert_eq|congruence|exact Hy].
  - intros e1 l1 e2 l2 F1 F2 T1 T2. apply list_elem_of_singleton in T1 as ->. lookups. congruence.
Qed.

Lemma front_movable e l W : W !! e = Some l -> movable (front l e) W.
Proof. intros E. destruct l as [|x l]; [left; auto|]. right. exists e, [], l. auto. Qed.

Lemma back_movable e l W : W !! e = Some l -> movable (back e l) W.
Proof.
  intros E. destruct l as [|x l _] using rev_ind; [left; auto|]. rewrite back_snoc. right. exists e, l, []. auto.
Qed.

Lemma append_world h W e e' l l' : world h W -> W !! e = Some l -> W !! e' = Some l' -> e <> e' ->
  exists h', Append e e' h = Some h' /\ world h' (<[e' := []]> (<[e := l ++ l']> W)).
Proof.
  intros HW E E' Hne. pose proof (world_apart _ _ HW _ _ _ _ E' E ltac:(auto)) as D. unfold Append, Begin.
  destruct (ring_end h e' l') as [_ ->]; [apply HW; auto|]. destruct l' as [|c0 c]; cbn [front].
  - unfold Cut. rewrite bool_decide_true by auto. exists h. split; [auto|]. rewrite app_nil_r, (insert_id W e), insert_id; auto.
  - destruct (Cut_ring h e' [] c0 c e l) as (h'&R&R1&R2&T); [apply HW; auto|apply HW; auto|auto|]. exists h'. split; [auto|].
    apply (world_step h W HW h' _ _ T).
    + intros e0 l0 F. lookups; [right; split; [auto|set_solver]..|]. left. split; [auto|].
      pose proof (world_apart _ _ HW e l e0 l0 ltac:(auto) ltac:(auto) ltac:(auto)).
      pose proof (world_apart _ _ HW e' (c0 :: c) e0 l0 ltac:(auto) ltac:(auto) ltac:(auto)). set_solver.
    + assert (Hold : forall a k, W !! a = Some k -> e <> a -> e' <> a -> a ∈ e' :: [] ++ (c0 :: c) ++ e :: l -> False).
      { intros a k F N1 N2 Ha. assert (Ha' : a ∈ e' :: c0 :: c \/ a ∈ e :: l) by set_solver.
        destruct Ha' as [Ha'|Ha']; [eapply (world_old _ _ e' (c0 :: c) a)|eapply (world_old _ _ e l a)]; eauto. }
      assert (He : e ∉ l) by (apply HW in E as [Hn _]; apply NoDup_cons in Hn; tauto).
      assert (He' : e' ∉ c0 :: c) by (apply HW in E' as [Hn _]; apply NoDup_cons in Hn; tauto).
      intros e1 l1 e2 l2 F1 F2 T1 T2. lookups; first [old Hold|clear Hold; apart].
Qed.

Lemma clear_world h W e : world h W -> is_Some (W !! e) ->
  exists h', Clear e h = Some h' /\ world h' (match items e W with [] => W | y :: l => <[y := l]> (<[e := []]> W) end).
Proof.
  intros HW [l E]. unfold Clear, items. rewrite E. cbn. destruct l as [|y l].
  - exists h. split; [apply Unlink_free, HW, E|auto].
  - destruct (Unlink_item h y l e []) as (h'&R&R1&R2&T); [apply (ring_rotate h e [] y l), HW; auto|].
    exists h'. split; [auto|]. rewrite app_nil_r in R1. destruct (NoDup_item e [] y l) as (_&Hy&He); [apply HW; auto|].
    apply (world_step h W HW h' _ _ T).
    + intros e0 l0 F. lookups; [right; split; [auto|set_solver]..|]. left. split; [auto|].
      pose proof (world_apart _ _ HW e (y :: l) e0 l0 ltac:(auto) ltac:(auto) ltac:(auto)). set_solver.
    + assert (Hn : y ∉ l) by (apply HW in E as [Hn _]; apply NoDup_cons in Hn as [_ Hn]; apply NoDup_cons in Hn; tauto).
      assert (Hold : forall a k, W !! a = Some k -> e <> a -> a ∈ y :: l ++ [e] -> False).
      { intros a k F N Ha. eapply (world_old _ _ e (y :: l) a); eauto. clear -Ha. set_solver. }
      intros e1 l1 e2 l2 F1 F2 T1 T2. lookups; first [old Hold|clear Hold; apart].
Qed.

Lemma remove_unknown x W : ~ known x W -> remove x W = W.
Proof.
  intros Hx. apply map_eq. intros e. rewrite lookup_remove. destruct (W !! e) as [l|] eqn:E; [|auto]. cbn. rewrite without_notin; auto.
  intros F. apply Hx. exists e, l. set_solver.
Qed.

Lemma swap_world h W e e' l l' : world h W -> W !! e = Some l -> W !! e' = Some l' -> e <> e' ->
  exists h', Swap e e' h = Some h' /\ world h' (<[e' := l]> (<[e := l']> W)).
Proof.
  intros HW E E' Hne. unfold Swap. set (tmp := fresh (dom h)). pose proof (fresh_unknown _ _ HW) as Hk. fold tmp in Hk. clearbody tmp.
  assert (Ht : tmp <> e /\ tmp <> e') by (split; intros ->; apply Hk; [exists e, l|exists e', l']; (split; [auto|apply elem_of_cons; auto])). destruct Ht as [N1 N2].
  assert (Hw : W !! tmp = None) by (destruct (W !! tmp) eqn:F; [|auto]; destruct Hk; exists tmp, l0; set_solver).
  pose proof (new_world _ _ _ HW Hk) as H0.
  destruct (append_world _ _ tmp e' [] l' H0) as (h1&R1&H1); [apply lookup_insert_eq|rewrite lookup_insert_ne by auto; auto|auto|]. rewrite R1.
  destruct (append_world _ _ e' e [] l H1) as (h2&R2&H2); [apply lookup_insert_eq|rewrite !lookup_insert_ne by auto; auto|auto|]. rewrite R2.
  destruct (append_world _ _ e tmp [] l' H2) as (h3&R3&H3); [apply lookup_insert_eq| |auto|].
  { rewrite !(lookup_insert_ne _ e), !(lookup_insert_ne _ e') by auto. apply lookup_insert_eq. }
  rewrite R3. destruct (delete_world _ _ tmp H3) as (h4&R4&H4); [left; apply lookup_insert_eq|]. exists h4. split; [auto|].
  rewrite (remove_head _ _ _ _ H3 (lookup_insert_eq _ _ _)) in H4. clear -H4 N1 N2 Hw Hne. cbn [app] in H4.
  replace (<[e' := l]> (<[e := l']> W)) with (delete tmp (<[tmp := []]> (<[e := l']> (<[e := []]> (<[e' := l]> (<[e' := []]> (<[tmp := l']> (<[tmp := []]> W)))))))); [auto|].
  apply map_eq. intros a. destruct (decide (a = tmp)) as [->|]; [rewrite lookup_delete_eq, !lookup_insert_ne by auto; auto|].
  rewrite lookup_delete_ne, lookup_insert_ne by auto. destruct (decide (a = e)) as [->|].
  { rewrite lookup_insert_eq, lookup_insert_ne, lookup_insert_eq by auto. auto. }
  rewrite !(lookup_insert_ne _ e) by auto. destruct (decide (a = e')) as [->|]; [rewrite !lookup_insert_eq; auto|].
  rewrite !lookup_insert_ne by auto. auto.
Qed.

Lemma pop_front_world h W e l : world h W -> W !! e = Some l ->
  exists h', PopFront e h = Some (front l e, h') /\ world h' (unlinked (front l e) W).
Proof.
  intros HW E. unfold PopFront. destruct (ring_end h e l) as [_ ->]; [apply HW; auto|].
  destruct (Unlink_world h W (front l e) HW (front_movable _ _ _ E)) as (h'&R&H). rewrite R. eauto.
Qed.

Lemma pop_back_world h W e l : world h W -> W !! e = Some l ->
  exists h', PopBack e h = Some (back e l, h') /\ world h' (unlinked (back e l) W).
Proof.
  intros HW E. unfold PopBack. destruct (ring_end h e l) as [-> _]; [apply HW; auto|].
  destruct (Unlink_world h W (back e l) HW (back_movable _ _ _ E)) as (h'&R&H). rewrite R. eauto.
Qed.

(** Destroying the first item of a list. *)
Lemma pop_delete h W e x l : world h W -> W !! e = Some (x :: l) -> delete x (remove x (unlinked x W)) = <[e := l]> W.
Proof.
  intros HW E. destruct (world_item h W e [] x l HW E) as (H1&H2&_&H3&H4). unfold unlinked.
  rewrite (remove_others _ _ _ _ [] l HW E). cbn [app]. apply map_eq. intros a. destruct (decide (a = x)) as [->|Ha].
  - rewrite lookup_delete_eq, lookup_insert_ne by auto. auto.
  - rewrite lookup_delete_ne, lookup_remove, lookup_insert_ne by auto. destruct (decide (a = e)) as [->|].
    + rewrite lookup_insert_eq. cbn. rewrite without_notin; auto.
    + rewrite lookup_insert_ne by auto. destruct (W !! a) eqn:F; [|auto]. cbn. rewrite without_notin; eauto.
Qed.

Lemma delete_all_world fuel h W e l : world h W -> W !! e = Some l -> length l <= fuel ->
  exists h', DeleteAll fuel e h = Some h' /\ world h' (<[e := []]> W).
Proof.
  revert h W l. induction fuel as [|fuel IH]; intros h W l HW E Hf; cbn [DeleteAll]; rewrite (Empty_ring h e l) by (apply HW; auto).
  - destruct l; [|cbn in Hf; lia]. rewrite bool_decide_true by auto. exists h. rewrite insert_id; auto.
  - destruct l as [|x l]; [rewrite bool_decide_true by auto; exists h; rewrite insert_id; auto|].
    rewrite bool_decide_false by discriminate. destruct (pop_front_world _ _ _ _ HW E) as (h1&R1&H1). rewrite R1. cbn [front] in *.
    destruct (delete_world _ _ x H1) as (h2&R2&H2); [left; apply lookup_insert_eq|]. rewrite R2.
    rewrite (pop_delete _ _ _ _ _ HW E) in H2. destruct (IH h2 _ l H2) as (h3&R3&H3); [apply lookup_insert_eq|cbn in Hf; lia|].
    exists h3. split; [auto|]. rewrite insert_insert_eq in H3. auto.
Qed.

Lemma link_before_world h W x y : world h W -> movable x W -> known y W -> x <> y ->
  exists h', LinkBefore x y h = Some h' /\ world h' (placed_before x y (delete x (remove x W))).
Proof.
  intros HW Hm Hk Hn. unfold LinkBefore. destruct (Unlink_world h W x HW Hm) as (h1&->&H1). rewrite <- delete_unlinked.
  apply place_before_world; [auto|apply lookup_insert_eq|eapply known_unlinked; eauto|auto].
Qed.

Lemma link_after_world h W x y : world h W -> movable x W -> known y W -> x <> y ->
  exists h', LinkAfter x y h = Some h' /\ world h' (placed_after x y (delete x (remove x W))).
Proof.
  intros HW Hm Hk Hn. unfold LinkAfter. destruct (Unlink_world h W x HW Hm) as (h1&->&H1). rewrite <- delete_unlinked.
  destruct (place_after_world h1 (unlinked x W) x y) as (n&h2&->&R&H2); [auto|apply lookup_insert_eq|eapply known_unlinked; eauto|auto|]. eauto.
Qed.

Lemma call_world fuel c h W : world h W -> allowed c W -> (forall e l, W !! e = Some l -> length l <= fuel) ->
  exists r h', run_call fuel c h = Some (r, h') /\ result_ok c r W /\ world h' (after_call c r W).
Proof.
  intros HW Ha Hf.
  destruct c as [|x|x|x y|x y|y x|y x|e|e|e e'|e e'|e|e]; cbn in Ha; cbn [run_call after_call result_ok].
  - eexists _, _. split; [reflexivity|]. split; [eauto using fresh_unknown|]. apply new_world; auto using fresh_unknown.
  - destruct (delete_world _ _ _ HW Ha) as (h'&->&H). eauto.
  - destruct (Unlink_world _ _ _ HW Ha) as (h'&->&H). eauto.
  - destruct Ha as (Hm&Hk&Hn). destruct (link_before_world _ _ _ _ HW Hm Hk Hn) as (h'&->&H). eauto.
  - destruct Ha as (Hm&Hk&Hn). destruct (link_after_world _ _ _ _ HW Hm Hk Hn) as (h'&->&H). eauto.
  - destruct Ha as (Hm&Hk&Hn). destruct (link_before_world _ _ _ _ HW Hm Hk Hn) as (h'&E&H). unfold PushBack. rewrite E. eauto.
  - destruct Ha as (Hm&Hk&Hn). destruct (link_after_world _ _ _ _ HW Hm Hk Hn) as (h'&E&H). unfold PushFront. rewrite E. eauto.
  - destruct Ha as [l E]. destruct (pop_back_world _ _ _ _ HW E) as (h'&->&H). unfold items. rewrite E. eexists _, _. split; [reflexivity|]. auto.
  - destruct Ha as [l E]. destruct (pop_front_world _ _ _ _ HW E) as (h'&->&H). unfold items. rewrite E. eexists _, _. split; [reflexivity|]. auto.
  - destruct Ha as ([l E]&[l' E']&Hn). destruct (append_world _ _ _ _ _ _ HW E E' Hn) as (h'&->&H). unfold items. rewrite E, E'. eauto.
  - destruct Ha as ([l E]&[l' E']&Hn). destruct (swap_world _ _ _ _ _ _ HW E E' Hn) as (h'&->&H). unfold items. rewrite E, E'. eauto.
  - destruct (clear_world _ _ _ HW Ha) as (h'&->&H). eauto.
  - destruct Ha as [l E]. destruct (delete_all_world fuel _ _ _ _ HW E) as (h'&->&H); [eauto|]. eauto.
Qed.

(** The stores a client reaches with these calls, with the lists it has. *)
Inductive reached (fuel : nat) : store -> lists -> Prop :=
  | reached_start : reached fuel ∅ ∅
  | reached_call h W c r h' : reached fuel h W -> allowed c W -> (forall e l, W !! e = Some l -> length l <= fuel) ->
      run_call fuel c h = Some (r, h') -> reached fuel h' (after_call c r W).

Lemma reached_world fuel h W : reached fuel h W -> world h W.
Proof.
  induction 1 as [|h W c r h' _ IH Ha Hf E].
  - split; intros; rewrite lookup_empty in *; discriminate.
  - destruct (call_world fuel c h W IH Ha Hf) as (r0&h0&E0&_&H0). rewrite E in E0. inv E0. auto.
Qed.

(** ** Cutting *)

(** A cut of the items [c] of a list, to the end of another one. *)
Lemma cut_world h W e a c k t m : world h W -> W !! e = Some (a ++ c ++ k) -> W !! t = Some m -> t <> e ->
  exists h', Cut (front (c ++ k) e) (front k e) t h = Some h' /\ world h' (<[t := m ++ c]> (<[e := a ++ k]> W)).
Proof.
  intros HW E Et Hne. destruct c as [|c0 c].
  { unfold Cut. rewrite bool_decide_true by auto. exists h. split; [auto|]. rewrite app_nil_r, (insert_id W e), insert_id; auto. }
  cbn [app front]. pose proof (world_apart _ _ HW _ _ _ _ E Et ltac:(auto)) as D. pose proof (world_ring _ _ HW _ _ E) as R.
  pose proof (world_ring _ _ HW _ _ Et) as Rt.
  assert (Hcut : exists h', Cut c0 (front k e) t h = Some h' /\ ring h' e (a ++ k) /\ ring h' t (m ++ c0 :: c) /\
    touches (e :: a ++ (c0 :: c) ++ k ++ t :: m) h h').
  { destruct k as [|y k]; cbn [front].
    - rewrite app_nil_r in *. destruct (Cut_ring h e a c0 c t m) as (h'&?&?&?&T); auto. exists h'. conj; auto.
    - replace (a ++ (c0 :: c) ++ y :: k) with ((a ++ c0 :: c) ++ y :: k) in R by (rewrite <- app_assoc; auto).
      apply ring_rotate in R. rewrite app_comm_cons, app_assoc in R.
      destruct (Cut_ring h y (k ++ e :: a) c0 c t m) as (h'&?&R1&?&T); [auto..|intros x X1 X2; apply (D x); [|auto]; clear -X1; set_solver|]. apply ring_rotate in R1.
      exists h'. conj; auto. eapply touches_mono; [|exact T]. clear. set_solver. }
  destruct Hcut as (h'&F&R1&R2&T). exists h'. split; [auto|]. apply (world_step h W HW h' _ _ T).
  - intros e0 l0 G. lookups; [right; split; [auto|clear; set_solver]..|]. left. split; [auto|].
    pose proof (world_apart _ _ HW _ _ e0 l0 E ltac:(auto) ltac:(auto)).
    pose proof (world_apart _ _ HW _ _ e0 l0 Et ltac:(auto) ltac:(auto)). set_solver.
  - assert (Hold : forall x l, W !! x = Some l -> e <> x -> t <> x -> x ∈ e :: a ++ (c0 :: c) ++ k ++ t :: m -> False).
    { intros x l G N1 N2 Hx. assert (Hx' : x ∈ e :: a ++ (c0 :: c) ++ k \/ x ∈ t :: m) by set_solver.
      destruct Hx' as [Hx'|Hx']; [eapply (world_old _ _ e)|eapply (world_old _ _ t)]; eauto. }
    assert (He : e ∉ a ++ (c0 :: c) ++ k /\ t ∉ m) by (split; [destruct R as [Hn _]|destruct Rt as [Hn _]]; apply NoDup_cons in Hn; tauto).
    destruct He as [He Ht]. intros e1 l1 e2 l2 F1 F2 T1 T2. lookups; first [old Hold|clear Hold T1 T2; apart].
Qed.

(** The items cut without a destination are destroyed. *)
Lemma cut_delete_world fuel h W e a c k : world h W -> W !! e = Some (a ++ c ++ k) -> length c <= fuel ->
  exists h', CutDelete fuel (front (c ++ k) e) (front k e) h = Some h' /\ world h' (<[e := a ++ k]> W).
Proof.
  intros HW E Hf. unfold CutDelete. set (t := fresh (dom h)). pose proof (fresh_unknown _ _ HW) as Hk. fold t in Hk. clearbody t.
  assert (Ht : t <> e) by (intros ->; apply Hk; exists e, (a ++ c ++ k); split; [auto|apply elem_of_cons; auto]).
  assert (Hw : W !! t = None) by (destruct (W !! t) as [l|] eqn:F; [|auto]; destruct Hk; exists t, l; set_solver).
  pose proof (new_world _ _ _ HW Hk) as H0.
  destruct (cut_world _ _ e a c k t [] H0) as (h1&->&H1); [rewrite lookup_insert_ne by auto; auto|apply lookup_insert_eq|auto|].
  destruct (delete_all_world fuel _ _ t c H1) as (h2&->&H2); [apply lookup_insert_eq|auto|].
  destruct (delete_world _ _ t H2) as (h3&->&H3); [left; apply lookup_insert_eq|]. exists h3. split; [auto|].
  rewrite (remove_head _ _ _ _ H2 (lookup_insert_eq _ _ _)) in H3. clear -H3 Ht Hw.
  replace (<[e := a ++ k]> W) with (delete t (<[t := []]> (<[t := [] ++ c]> (<[e := a ++ k]> (<[t := []]> W))))); [auto|].
  apply map_eq. intros x. destruct (decide (x = t)) as [->|]; [rewrite lookup_delete_eq, lookup_insert_ne by auto; auto|].
  rewrite lookup_delete_ne, !(lookup_insert_ne _ t) by auto. destruct (decide (x = e)) as [->|]; [rewrite !lookup_insert_eq; auto|].
  rewrite !lookup_insert_ne by auto. auto.
Qed.
