(* ===== verification/LSort.v ===== *)
(** * Intrusive lists: walking and sorting

    [ForEach] visits every item once, in order, even when the function destroys the item
    it is given, as the check of the headers of a request does.  [QuickSort] moves items
    between rings; it terminates and sorts. *)

From Stdlib Require Import ZArith Lia Bool Sorted.
From stdpp Require Import base numbers list gmap fin_maps sorting.
From S2P Require Import Prelude LList LWorld.

#[local] Open Scope nat_scope.

Section walk.
Context (h : store) (W : lists) (HW : world h W).

Lemma item_next e l x k : W !! e = Some (l ++ x :: k) -> Next x h = Some (front k e) /\ x <> e.
Proof.
  intros E. split; [|apply (world_item _ _ _ _ _ _ HW E)]. apply (ring_item h e l x k), HW. auto.
Qed.

Lemma delete_item_world e l x k : W !! e = Some (l ++ x :: k) ->
  exists h', delete_item x h = Some h' /\ world h' (<[e := l ++ k]> W).
Proof.
  intros E. destruct (delete_world h W x HW) as (h'&R&H); [right; eauto|]. exists h'. split; [auto|].
  rewrite (remove_others _ _ _ _ _ _ HW E), delete_id in H; auto. destruct (world_item _ _ _ _ _ _ HW E) as (H1&H2&_).
  rewrite lookup_insert_ne by auto. auto.
Qed.

(** Moving an item to the end of another list. *)
Lemma push_item_world e l x k b m : W !! e = Some (l ++ x :: k) -> W !! b = Some m -> b <> e ->
  exists h', PushBack b x h = Some h' /\ world h' (<[b := m ++ [x]]> (<[e := l ++ k]> W)).
Proof.
  intros E Eb Hne. destruct (world_item _ _ _ _ _ _ HW E) as (H1&H2&_&_&H5).
  destruct (link_before_world h W x b HW) as (h'&R&H); [right; eauto|exists b, m; set_solver|congruence|].
  exists h'. split; [auto|].
  rewrite (remove_others _ _ _ _ _ _ HW E), delete_id in H by (rewrite lookup_insert_ne by auto; auto).
  unfold placed_before in H. rewrite lookup_insert_ne, Eb in H by auto. auto.
Qed.
End walk.

(** ** [ForEach] *)

(** A function that looks at an item and may destroy it. *)
Definition visit (p : loc -> bool) (x : loc) (seen : list loc) (h : store) : option (list loc * store) :=
  if p x then let* h := delete_item x h in Some (seen ++ [x], h) else Some (seen ++ [x], h).

Definition keep (p : loc -> bool) (l : list loc) : list loc := filter (fun x => p x = false) l.

Lemma keep_cons p x l : keep p (x :: l) = if p x then keep p l else x :: keep p l.
Proof. unfold keep. destruct (p x) eqn:E; [apply filter_cons_False|apply filter_cons_True]; congruence. Qed.

Lemma for_each_visit fuel p e l k seen h W : world h W -> W !! e = Some (l ++ k) -> length k <= fuel ->
  exists h', for_each_loop fuel (visit p) (front k e) e seen h = Some (seen ++ k, h') /\ world h' (<[e := l ++ keep p k]> W).
Proof.
  revert l k seen h W. induction fuel as [|fuel IH]; intros l k seen h W HW E Hf.
  - destruct k; [|cbn in Hf; lia]. cbn. rewrite bool_decide_true by auto. exists h. split; [rewrite app_nil_r; auto|].
    change (keep p []) with (@nil loc). rewrite insert_id; auto.
  - destruct k as [|x k]; cbn [front for_each_loop].
    { rewrite bool_decide_true by auto. exists h. split; [rewrite app_nil_r; auto|].
    change (keep p []) with (@nil loc). rewrite insert_id; auto. }
    destruct (item_next _ _ HW _ _ _ _ E) as [Hn Hne]. rewrite bool_decide_false by auto. rewrite Hn.
    unfold visit at 1. rewrite keep_cons. destruct (p x) eqn:Ep.
    + destruct (delete_item_world _ _ HW _ _ _ _ E) as (h1&->&H1).
      destruct (IH l k (seen ++ [x]) h1 _ H1) as (h2&->&H2); [apply lookup_insert_eq|cbn in Hf; lia|].
      exists h2. rewrite <- app_assoc. rewrite insert_insert_eq in H2. auto.
    + destruct (IH (l ++ [x]) k (seen ++ [x]) h W HW) as (h2&->&H2);
        [rewrite <- app_assoc; auto|cbn in Hf; lia|]. exists h2. rewrite <- !app_assoc in *. auto.
Qed.

Lemma for_each_size fuel e l k n h W : world h W -> W !! e = Some (l ++ k) -> length k <= fuel ->
  for_each_loop fuel (fun _ n h => Some (S n, h)) (front k e) e n h = Some (n + length k, h).
Proof.
  intros HW. revert l k n. induction fuel as [|fuel IH]; intros l k n E Hf.
  - destruct k; [|cbn in Hf; lia]. cbn. rewrite bool_decide_true by auto. do 2 f_equal. lia.
  - destruct k as [|x k]; cbn [front for_each_loop]; [rewrite bool_decide_true by auto; do 2 f_equal; cbn; lia|].
    destruct (item_next _ _ HW _ _ _ _ E) as [Hn Hne]. rewrite bool_decide_false by auto. rewrite Hn.
    rewrite (IH (l ++ [x])); [|rewrite <- app_assoc; auto|cbn in Hf; lia]. do 2 f_equal. cbn. lia.
Qed.

(** ** [QuickSort] *)

Section quicksort.
Context (f : loc -> loc -> bool).

Definition above (c : loc) (l : list loc) : list loc := filter (fun x => f c x = true) l.

Lemma above_cons c x l : above c (x :: l) = if f c x then x :: above c l else above c l.
Proof. unfold above. destruct (f c x) eqn:E; [apply filter_cons_True|apply filter_cons_False]; congruence. Qed.

Lemma sort_loop_spec fuel c e b l k m h W : world h W -> W !! e = Some (l ++ k) -> W !! b = Some m -> b <> e -> length k <= fuel ->
  exists h', sort_loop f fuel c (front k e) e b h = Some h' /\ world h' (<[b := m ++ above c k]> (<[e := l ++ keep (f c) k]> W)).
Proof.
  revert l k m h W. induction fuel as [|fuel IH]; intros l k m h W HW E Eb Hne Hf.
  - destruct k; [|cbn in Hf; lia]. cbn [sort_loop front]. rewrite bool_decide_true by auto. exists h. split; [auto|].
    change (keep (f c) []) with (@nil loc). change (above c []) with (@nil loc). rewrite app_nil_r, (insert_id W e), insert_id; auto.
  - destruct k as [|x k]; cbn [front sort_loop].
    { rewrite bool_decide_true by auto. exists h. split; [auto|].
      change (keep (f c) []) with (@nil loc). change (above c []) with (@nil loc). rewrite app_nil_r, (insert_id W e), insert_id; auto. }
    destruct (item_next _ _ HW _ _ _ _ E) as [Hn Hxe]. rewrite bool_decide_false by auto. rewrite Hn.
    rewrite keep_cons, above_cons. destruct (f c x) eqn:Ef.
    + destruct (push_item_world _ _ HW _ _ _ _ _ _ E Eb Hne) as (h1&->&H1).
      destruct (IH l k (m ++ [x]) h1 _ H1) as (h2&->&H2); [rewrite lookup_insert_ne, lookup_insert_eq by auto; auto|apply lookup_insert_eq|auto|cbn in Hf; lia|].
      exists h2. split; [auto|]. rewrite <- app_assoc in H2. cbn [app] in H2.
      rewrite (insert_insert_ne _ e b), !insert_insert_eq in H2 by auto. auto.
    + destruct (IH (l ++ [x]) k m h W HW) as (h2&->&H2); [rewrite <- app_assoc; auto|auto|auto|cbn in Hf; lia|].
      exists h2. rewrite <- app_assoc in H2. auto.
Qed.

(** [b] does not come before [a]. *)
Definition in_order (a b : loc) : Prop := f b a = false.

Lemma sorted_join c u a : (forall x y z, f x y = true -> f y z = true -> f x z = true) -> (forall x y, f x y = true -> f y x = false) ->
  StronglySorted in_order u -> StronglySorted in_order a -> Forall (fun x => f c x = false) u -> Forall (fun x => f c x = true) a ->
  StronglySorted in_order (u ++ c :: a).
Proof.
  intros Ht Ha Su Sa Hu Hab. induction Su as [|x u Su IH Hx]; cbn.
  - constructor; [auto|]. eapply Forall_impl; [exact Hab|]. intros y Hy. apply Ha. exact Hy.
  - apply Forall_cons in Hu as [Hcx Hu]. constructor; [auto|]. apply Forall_app. split; [auto|]. constructor; [exact Hcx|].
    eapply Forall_impl; [exact Hab|]. intros y Hy. unfold in_order. destruct (f y x) eqn:E; [|auto]. rewrite (Ht c y x Hy E) in Hcx. discriminate.
Qed.

Lemma keep_above c l : keep (f c) l ++ above c l ≡ₚ l.
Proof.
  induction l as [|x l IH]; [auto|]. rewrite keep_cons, above_cons. destruct (f c x).
  - rewrite <- Permutation_middle, IH. auto.
  - cbn. rewrite IH. auto.
Qed.

Lemma join_parts (W : lists) (e b c : loc) u a u0 a0 : W !! c = None -> W !! b = None -> c <> e -> b <> e -> b <> c ->
  delete b (<[e := u ++ c :: a]> (delete c (<[b := a]> (<[e := u]> (<[b := a0]> (<[e := u0]> (<[c := []]> W))))))) = <[e := u ++ c :: a]> W.
Proof.
  intros. apply map_eq. intros x.
  destruct (decide (x = b)) as [->|]; [rewrite lookup_delete_eq, lookup_insert_ne by auto; auto|]. rewrite lookup_delete_ne by auto.
  destruct (decide (x = e)) as [->|]; [rewrite !lookup_insert_eq; auto|]. rewrite !(lookup_insert_ne _ e) by auto.
  destruct (decide (x = c)) as [->|]; [rewrite lookup_delete_eq; auto|]. rewrite lookup_delete_ne, !lookup_insert_ne by auto. auto.
Qed.

(** The first part of [QuickSort]: the pivot is taken out, the items above it move to [bigger]. *)
Lemma partition_world fuel e c r h W : world h W -> W !! e = Some (c :: r) -> length r <= fuel ->
  exists h1 b h3, PopFront e h = Some (c, h1) /\ b = fresh (dom h1) /\
    (let* it := Begin e (new_item b h1) in sort_loop f fuel c it e b (new_item b h1)) = Some h3 /\
    W !! c = None /\ W !! b = None /\ c <> e /\ b <> e /\ b <> c /\
    world h3 (<[b := above c r]> (<[e := keep (f c) r]> (<[c := []]> W))).
Proof.
  intros HW E Hf. destruct (pop_front_world _ _ _ _ HW E) as (h1&R1&H1). cbn [front] in *.
  destruct (world_item h W e [] c r HW E) as (Hwc&Hce&_&_&_). pose proof (fresh_unknown _ _ H1) as Hk.
  remember (fresh (dom h1)) as b eqn:Hb. exists h1, b.
  unfold unlinked in *. rewrite (remove_others _ _ _ _ [] r HW E) in *. cbn [app] in *.
  assert (Hb1 : b <> c) by (intros ->; apply Hk; exists c, []; rewrite lookup_insert_eq; set_solver).
  assert (Hb2 : b <> e) by (intros ->; apply Hk; exists e, r; rewrite lookup_insert_ne, lookup_insert_eq by auto; set_solver).
  assert (Hb3 : W !! b = None).
  { destruct (W !! b) as [k|] eqn:F; [|auto]. destruct Hk. exists b, k. rewrite !lookup_insert_ne by auto. set_solver. }
  pose proof (new_world _ _ _ H1 Hk) as H2.
  assert (E2 : <[b := []]> (<[c := []]> (<[e := r]> W)) !! e = Some r) by (rewrite !lookup_insert_ne, lookup_insert_eq by auto; auto).
  pose proof (world_ring _ _ H2 _ _ E2) as R2. apply ring_end in R2 as [_ R2]. unfold Begin. rewrite R2.
  destruct (sort_loop_spec fuel c e b [] r [] _ _ H2 E2) as (h3&E3&H3); [apply lookup_insert_eq|auto|auto|].
  exists h3. conj; auto. cbn [app] in H3.
  rewrite (insert_insert_ne _ e b), insert_insert_eq, (insert_insert_ne _ e c), insert_insert_eq in H3 by auto.
  rewrite (insert_insert_ne W e c) by auto. auto.
Qed.

(** The last part: the two sorted parts around the pivot. *)
Lemma join_world h W e b c u a : world h W -> W !! e = Some u -> W !! b = Some a -> W !! c = Some [] -> c <> e -> b <> e -> b <> c ->
  exists h', (let* h := PushBack e c h in let* h := Append e b h in delete_item b h) = Some h' /\
    world h' (delete b (<[e := u ++ c :: a]> (delete c W))).
Proof.
  intros HW Ee Eb Ec N1 N2 N3. destruct (link_before_world h W c e HW) as (h1&R1&H1); [left; auto|exists e, u; set_solver|auto|].
  unfold PushBack. rewrite R1. rewrite (remove_head _ _ _ _ HW Ec) in H1. unfold placed_before in H1. rewrite lookup_delete_ne, Ee in H1 by auto.
  destruct (append_world _ _ e b (u ++ [c]) a H1) as (h2&R2&H2); [apply lookup_insert_eq|rewrite lookup_insert_ne, lookup_delete_ne by auto; auto|auto|].
  rewrite R2. destruct (delete_world _ _ b H2) as (h3&R3&H3); [left; apply lookup_insert_eq|]. exists h3. split; [auto|].
  rewrite (remove_head _ _ _ _ H2 (lookup_insert_eq _ _ _)), delete_insert_eq, insert_insert_eq, <- app_assoc in H3. auto.
Qed.

Lemma quicksort_world fuel e l h W : world h W -> W !! e = Some l -> length l < fuel ->
  exists h' l', QuickSort f fuel e h = Some h' /\ world h' (<[e := l']> W) /\ l' ≡ₚ l /\
    ((forall x y z, f x y = true -> f y z = true -> f x z = true) -> (forall x y, f x y = true -> f y x = false) -> StronglySorted in_order l').
Proof.
  revert e l h W. induction fuel as [|fuel IH]; intros e l h W HW E Hf; [lia|]. cbn [QuickSort].
  destruct (ring_end h e l) as [_ Hb]; [apply HW; auto|]. unfold Begin at 1. rewrite Hb.
  destruct l as [|c [|y r]]; cbn [front].
  - rewrite Hb, bool_decide_true by auto. exists h, []. cbn [orb]. rewrite insert_id by auto. conj; auto. intros _ _. constructor.
  - destruct (item_next _ _ HW e [] c [] E) as [Hn _]. rewrite Hn. cbn [front]. rewrite (bool_decide_true (e = e)), orb_true_r by auto.
    exists h, [c]. rewrite insert_id by auto. conj; auto. intros _ _. repeat constructor.
  - destruct (item_next _ _ HW e [] c (y :: r) E) as [Hn Hce]. rewrite Hn. cbn [front].
    destruct (item_next _ _ HW e [c] y r E) as [_ Hye]. rewrite !bool_decide_false by auto. cbn [orb].
    destruct (partition_world (S fuel) e c (y :: r) h W HW E) as (h1&b&h3&->&<-&E3&W1&W2&N1&N2&N3&H3); [cbn in *; lia|].
    destruct (Begin e (new_item b h1)); [|discriminate]. rewrite E3.
    assert (Hlen : length (keep (f c) (y :: r)) + length (above c (y :: r)) = length (y :: r)) by (rewrite <- length_app; apply Permutation_length, keep_above).
    destruct (IH e (keep (f c) (y :: r)) h3 _ H3) as (h4&u&->&H4&P4&S4); [rewrite lookup_insert_ne, lookup_insert_eq by auto; reflexivity|cbn in *; lia|].
    destruct (IH b (above c (y :: r)) h4 _ H4) as (h5&a&->&H5&P5&S5); [rewrite lookup_insert_ne, lookup_insert_eq by auto; auto|cbn in *; lia|].
    destruct (join_world h5 _ e b c u a H5) as (h6&E6&H6); auto.
    { rewrite lookup_insert_ne, lookup_insert_eq by auto. auto. }
    { apply lookup_insert_eq. }
    { rewrite !lookup_insert_ne, lookup_insert_eq by auto. auto. }
    exists h6, (u ++ c :: a). split; [exact E6|]. split; [|split].
    + replace (<[e := u ++ c :: a]> W) with (delete b (<[e := u ++ c :: a]> (delete c (<[b := a]> (<[e := u]> (<[b := above c (y :: r)]> (<[e := keep (f c) (y :: r)]> (<[c := []]> W)))))))); [auto|].
      apply join_parts; auto.
    + rewrite P4, P5, <- Permutation_middle, keep_above. auto.
    + intros Ht Ha. apply sorted_join; auto.
      * rewrite P4. unfold keep. rewrite Forall_forall. intros x Hx. apply list_elem_of_filter in Hx. tauto.
      * rewrite P5. unfold above. rewrite Forall_forall. intros x Hx. apply list_elem_of_filter in Hx. tauto.
Qed.
End quicksort.
