(* ===== verification/HChunks.v ===== *)
(** * Server kernel: chunks

    Models [TChunk] and [TChunkList] of [src/web/httpd/kernel/chunks.h], the cutting
    of lists of [src/web/httpd/kernel/split.h] and the exceptions of the kernel
    ([errors.h], [http.h], [iterator.h]).  A chunk is the bytes it shows of its blob, a
    chunk list is the list of its chunks; an operation that takes lists by reference
    returns them.  Lengths are counted exactly: the bytes a list shows are in memory,
    so their number is below 2^64. *)

From Stdlib Require Import ZArith Lia Bool.
From stdpp Require Import base numbers list.
From S2P Require Import Prelude.

(** ** Exceptions *)

(** The exceptions the kernel and the HTTP modules tell apart.  [THttpParseError] is a
    [THttpError] that the HTTP module counts; a [yexception] is anything else. *)
Inductive exn :=
  | THttpError (code : Z)
  | THttpParseError (code : Z)
  | TStreamError
  | TSystemError (status : Z)
  | yexception.

#[export] Instance exn_eq_dec : EqDecision exn.
Proof. solve_decision. Defined.

Inductive res (A : Type) :=
  | Ret (a : A)
  | Throw (e : exn).
Arguments Ret {A} a.
Arguments Throw {A} e.

(** ** Chunk lists *)

Notation chunk := (list Z).

Notation TChunkList := (list chunk).

(** The bytes of a list, the reading of it that callers have in mind. *)
Definition flat (l : TChunkList) : list Z := concat l.

Definition FullLength (l : TChunkList) : Z := fold_left (fun ret c => ret + zlen c) l 0.

(** [AddPartTo]: the bytes from offset [b] up to offset [e], when there are any. *)
Definition SubChunk (b e : Z) (c : chunk) : chunk := take (Z.to_nat (e - b)) (drop (Z.to_nat b) c).

Definition AddPartTo (c : chunk) (b e : Z) (lst : TChunkList) : TChunkList :=
  if b <? e then lst ++ [SubChunk b e c] else lst.

(** [CopyData]: the bytes copied; their number is the result of the call. *)
Fixpoint CopyData (l : TChunkList) (len : Z) : list Z :=
  match l with
  | [] => []
  | c :: l =>
      if len =? 0 then []
      else let read := Z.min (zlen c) len in take (Z.to_nat read) c ++ CopyData l (len - read)
  end.

(** [operator==] against a string. *)
Fixpoint equal_from (l : TChunkList) (b : list Z) : bool :=
  match l with
  | [] => true
  | c :: l => if bool_decide (c = take (length c) b) then equal_from l (drop (length c) b) else false
  end.

Definition list_equal (l : TChunkList) (r : list Z) : bool :=
  if FullLength l =? zlen r then equal_from l r else false.

Definition HaveEmptyChunks (l : TChunkList) : bool := existsb (fun c => zlen c =? 0) l.

(** [MoveTo(f, t)] leaves [f] empty: the new [t]. *)
Definition MoveTo (f t : TChunkList) : TChunkList := t ++ f.

(** ** Cutting *)

Fixpoint SplitUnsafe (len : Z) (from before after : TChunkList) : TChunkList * TChunkList :=
  match from with
  | [] => (before, after)
  | cur :: from =>
      if zlen cur <=? len then SplitUnsafe (len - zlen cur) from (before ++ [cur]) after
      else (before ++ [SubChunk 0 len cur], MoveTo from (after ++ [SubChunk len (zlen cur) cur]))
  end.

(** The new [before] and [after]; the old contents of both are destroyed. *)
Definition Split (len : Z) (from : TChunkList) : TChunkList * TChunkList := SplitUnsafe len from [] [].

Definition Cut (len : Z) (from : TChunkList) : TChunkList := fst (Split len from).

(** ** Lemmas *)

(** No chunk of the list is empty: what a socket delivers. *)
Notation clean := (Forall (fun c : chunk => c <> [])).

Create HintDb chunks.

Lemma flat_nil : flat [] = [].
Proof. reflexivity. Qed.

Lemma flat_cons c l : flat (c :: l) = c ++ flat l.
Proof. reflexivity. Qed.

Lemma flat_app l k : flat (l ++ k) = flat l ++ flat k.
Proof. apply concat_app. Qed.

Lemma flat_one c : flat [c] = c.
Proof. apply app_nil_r. Qed.

#[export] Hint Rewrite flat_nil flat_cons flat_app flat_one app_nil_r : chunks.

Lemma fold_length l n : fold_left (fun ret (c : chunk) => ret + zlen c) l n = n + zlen (flat l).
Proof.
  revert n. induction l as [|c l IH]; intros n; cbn [fold_left].
  - rewrite flat_nil, zlen_nil. lia.
  - rewrite IH, flat_cons, zlen_app. lia.
Qed.

Lemma FullLength_flat l : FullLength l = zlen (flat l).
Proof. unfold FullLength. rewrite fold_length. lia. Qed.

Lemma zlen_0 {A} (l : list A) : zlen l = 0 -> l = [].
Proof. unfold zlen. destruct l; cbn; [auto|lia]. Qed.

Lemma clean_HaveEmpty l : clean l <-> HaveEmptyChunks l = false.
Proof.
  induction l as [|c l IH]; cbn; [split; auto|]. rewrite orb_false_iff, <- IH, Forall_cons, Z.eqb_neq.
  split; intros [H1 H2]; split; auto; [intros E; apply zlen_0 in E; auto|intros ->; apply H1; reflexivity].
Qed.

Lemma HaveEmptyChunks_app l k : HaveEmptyChunks (l ++ k) = HaveEmptyChunks l || HaveEmptyChunks k.
Proof. apply existsb_app. Qed.

Lemma SubChunk_prefix len c : SubChunk 0 len c = take (Z.to_nat len) c.
Proof. unfold SubChunk. cbn [drop Z.to_nat]. rewrite Z.sub_0_r. destruct c; reflexivity. Qed.

Lemma SubChunk_suffix len c : 0 <= len -> SubChunk len (zlen c) c = drop (Z.to_nat len) c.
Proof. intros H. unfold SubChunk, zlen. apply take_ge. rewrite length_drop. lia. Qed.

Lemma SplitUnsafe_flat len from before after b a : 0 <= len -> SplitUnsafe len from before after = (b, a) -> after = [] ->
  flat b = flat before ++ take (Z.to_nat len) (flat from) /\ flat a = drop (Z.to_nat len) (flat from).
Proof.
  intros Hl H Ha. revert len before Hl H. induction from as [|c from IH]; intros len before Hl H; cbn in H.
  - inv H. rewrite flat_nil, take_nil, drop_nil, app_nil_r. auto.
  - destruct (Z.leb_spec (zlen c) len) as [Hc|Hc].
    + apply IH in H as [Hb Ha']; [|lia]. autorewrite with chunks in *. unfold zlen in *.
      rewrite Hb, Ha', take_app_ge, drop_app_ge by lia.
      replace (Z.to_nat (len - Z.of_nat (length c))) with (Z.to_nat len - length c)%nat by lia.
      rewrite app_assoc. auto.
    + inv H. unfold MoveTo. cbn [app]. rewrite SubChunk_prefix, SubChunk_suffix by lia. autorewrite with chunks.
      unfold zlen in Hc. rewrite take_app_le, drop_app_le by lia. auto.
Qed.

(** The bytes of a list are cut at [len]. *)
Lemma Split_flat len from b a : 0 <= len -> Split len from = (b, a) ->
  flat b = take (Z.to_nat len) (flat from) /\ flat a = drop (Z.to_nat len) (flat from).
Proof. intros Hl H. eapply SplitUnsafe_flat in H; eauto. Qed.

Lemma SplitUnsafe_clean len from before after b a : 0 <= len -> clean from -> clean after ->
  SplitUnsafe len from before after = (b, a) -> clean a.
Proof.
  intros Hl Hf Ha. revert len before Hl. induction Hf as [|c from Hc Hf IH]; intros len before Hl H; cbn in H.
  - inv H. auto.
  - destruct (Z.leb_spec (zlen c) len) as [E|E]; [eapply IH; [|eauto]; lia|]. inv H.
    unfold MoveTo. rewrite !Forall_app, Forall_singleton. repeat split; auto.
    rewrite SubChunk_suffix by lia. intros F. apply (f_equal length) in F. rewrite length_drop in F. cbn in F.
    unfold zlen in E. lia.
Qed.

Lemma Split_clean len from b a : 0 <= len -> clean from -> Split len from = (b, a) -> clean a.
Proof. intros Hl Hf. eapply SplitUnsafe_clean; eauto. Qed.

Lemma clean_flat_nil l : clean l -> flat l = [] -> l = [].
Proof. intros [|c l' Hc Hl]; [auto|]. cbn. intros E. apply app_eq_nil in E as [E _]. tauto. Qed.

Lemma Split_productive len from b a : 0 < len -> clean from -> Split len from = (b, a) -> flat b = [] -> from = [].
Proof.
  intros Hl Hf H Hb. apply Split_flat in H as [H _]; [|lia]. rewrite Hb in H. apply clean_flat_nil; auto.
  symmetry in H. apply (f_equal length) in H. rewrite length_take in H. cbn in H.
  apply nil_length_inv. lia.
Qed.

Lemma CopyData_take l len : 0 <= len -> CopyData l len = take (Z.to_nat len) (flat l).
Proof.
  revert len. induction l as [|c l IH]; intros len Hl; cbn; [rewrite take_nil; auto|].
  destruct (Z.eqb_spec len 0) as [->|Hn]; [reflexivity|]. rewrite IH by lia. fold (flat l). unfold zlen.
  destruct (Z.le_ge_cases (Z.of_nat (length c)) len).
  - rewrite Z.min_l, take_app_ge by lia. rewrite take_ge by lia. do 2 f_equal. lia.
  - rewrite Z.min_r, Z.sub_diag, take_app_le by lia. cbn. apply app_nil_r.
Qed.

Lemma equal_from_flat l b : equal_from l b = true <-> flat l `prefix_of` b.
Proof.
  revert b. induction l as [|c l IH]; intros b; cbn; [split; auto; intros _; apply prefix_nil|]. fold (flat l).
  case_bool_decide as E.
  - rewrite IH. assert (D : b = c ++ drop (length c) b) by (rewrite E at 1; rewrite take_drop; auto).
    rewrite D at 2. split; [apply prefix_app|apply prefix_app_inv].
  - split; [discriminate|]. intros [k ->]. destruct E. rewrite <- app_assoc, take_app_length. auto.
Qed.

(** [operator==] compares the bytes. *)
Lemma list_equal_flat l r : list_equal l r = true <-> flat l = r.
Proof.
  unfold list_equal. rewrite FullLength_flat. destruct (Z.eqb_spec (zlen (flat l)) (zlen r)) as [E|E].
  - rewrite equal_from_flat. split; [|intros ->; auto]. intros H. apply prefix_length_eq in H; auto.
    unfold zlen in E. lia.
  - split; [discriminate|]. intros <-. tauto.
Qed.

Lemma AddPartTo_flat c b e lst : 0 <= b -> e <= zlen c ->
  flat (AddPartTo c b e lst) = flat lst ++ SubChunk b e c.
Proof.
  intros Hb He. unfold AddPartTo. destruct (Z.ltb_spec b e); [rewrite flat_app, flat_one; auto|].
  unfold SubChunk. replace (Z.to_nat (e - b)) with 0%nat by lia. cbn. rewrite app_nil_r. auto.
Qed.

Lemma AddPartTo_clean c b e lst : 0 <= b -> e <= zlen c -> clean lst -> clean (AddPartTo c b e lst).
Proof.
  intros Hb He Hl. unfold AddPartTo. destruct (Z.ltb_spec b e); [|auto]. apply Forall_app. split; auto.
  apply Forall_singleton. intros F. apply (f_equal length) in F. unfold SubChunk in F.
  rewrite length_take, length_drop in F. cbn in F. unfold zlen in He. lia.
Qed.

#[export] Hint Resolve Split_clean AddPartTo_clean : chunks.

#[global] Arguments flat : simpl never.
