(* ===== verification/CIo.v ===== *)
(** * Coroutines: reading and writing

    Models the calls of [TCont] on descriptors ([src/util/green/impl.h]) and the vectors they
    write ([src/util/green/iovec.h]).  The system calls and [PollD] are a parameter: the list
    of their answers, in the order in which the coroutine asks; a call that finds no answer
    left still waits.  A write takes what there is room for. *)

From Stdlib Require Import ZArith Lia Bool.
From stdpp Require Import base numbers list.
From S2P Require Import Prelude HChunks CCoro.

Definition EAGAIN : Z := 11.
Definition EWOULDBLOCK : Z := 11.

Definition IsBlocked (lasterr : Z) : bool := (lasterr =? EAGAIN) || (lasterr =? EWOULDBLOCK).

(** An answer of the system: the call was done, or failed and [PollD], if it is asked, gives
    [polled]. *)
Inductive answer (A : Type) :=
  | Done (a : A)
  | Failed (errno polled : Z).
Arguments Done {A} a.
Arguments Failed {A} errno polled.

(** [TContIOStatus]; the bytes that a read has put in the buffer are their number. *)
Record TContIOStatus (A : Type) := mk_status { Processed_ : A; IoStatus_ : Z }.
Arguments mk_status {A}.
Arguments Processed_ {A}.
Arguments IoStatus_ {A}.

(** [TContIOStatus::Checked] *)
Definition Checked {A} (st : TContIOStatus A) : res A := if IoStatus_ st =? 0 then Ret (Processed_ st) else Throw (TSystemError (IoStatus_ st)).

(** ** Reading, accepting, connecting *)

Fixpoint ReadD (os : list (answer (list Z))) : option (TContIOStatus (list Z) * list (answer (list Z))) :=
  match os with
  | [] => None
  | Done bytes :: os => Some (mk_status bytes 0, os)
  | Failed err polled :: os =>
      if negb (IsBlocked err) then Some (mk_status [] err, os)
      else if negb (polled =? 0) then Some (mk_status [] polled, os)
      else ReadD os
  end.

(** The descriptor, or the negated error. *)
Fixpoint AcceptD (os : list (answer Z)) : option (Z * list (answer Z)) :=
  match os with
  | [] => None
  | Done fd :: os => Some (fd, os)
  | Failed err polled :: os =>
      if negb (IsBlocked err) then Some (- err, os)
      else if negb (polled =? 0) then Some (- polled, os)
      else AcceptD os
  end.

Definition ConnectD (answer : answer unit) : Z :=
  match answer with
  | Done _ => 0
  | Failed err polled => if negb (IsBlocked err) && negb (err =? EINPROGRESS) then err else polled
  end.

Definition EHOSTUNREACH : Z := 113.

(** The addresses of a host are tried in turn; an answer is that of [connect] or the error of [socket]. *)
Fixpoint Connect_loop (ret : Z) (addrs : list (Z + answer unit)) : Z :=
  match addrs with
  | [] => ret
  | a :: addrs =>
      let ret := match a with inl err => err | inr ans => ConnectD ans end in
      if ret =? 0 then 0 else Connect_loop ret addrs
  end.

Definition Connect (addrs : list (Z + answer unit)) : Z := Connect_loop EHOSTUNREACH addrs.

(** ** Writing *)

(** [TContIOVector::Proceed] *)
Fixpoint Proceed (len : Z) (parts : list chunk) : list chunk :=
  match parts with
  | [] => []
  | p :: parts => if len <? zlen p then drop (Z.to_nat len) p :: parts else Proceed (len - zlen p) parts
  end.

(** What the system takes of so many bytes. *)
Definition taken (room total : Z) : Z := Z.min (Z.max 0 room) total.

Fixpoint WriteVectorD (vec : list chunk) (written : Z) (wire : list Z) (os : list (answer Z)) : option (TContIOStatus Z * list Z * list (answer Z)) :=
  match vec with
  | [] => Some (mk_status written 0, wire, os)
  | _ =>
      match os with
      | [] => None
      | Done room :: os =>
          let res := taken room (FullLength vec) in
          WriteVectorD (Proceed res vec) (written + res) (wire ++ take (Z.to_nat res) (flat vec)) os
      | Failed err polled :: os =>
          if negb (IsBlocked err) then Some (mk_status written err, wire, os)
          else if negb (polled =? 0) then Some (mk_status written polled, wire, os)
          else WriteVectorD vec written wire os
      end
  end.

Fixpoint WriteD (buf : list Z) (written : Z) (wire : list Z) (os : list (answer Z)) : option (TContIOStatus Z * list Z * list (answer Z)) :=
  match buf with
  | [] => Some (mk_status written 0, wire, os)
  | _ =>
      match os with
      | [] => None
      | Done room :: os =>
          let res := taken room (zlen buf) in
          WriteD (drop (Z.to_nat res) buf) (written + res) (wire ++ take (Z.to_nat res) buf) os
      | Failed err polled :: os =>
          if negb (IsBlocked err) then Some (mk_status written err, wire, os)
          else if negb (polled =? 0) then Some (mk_status written polled, wire, os)
          else WriteD buf written wire os
      end
  end.

(** ** Waiting for several descriptors *)

(** [TriggeredEvent]: the event that is found and the status the loop has seen last. *)
Fixpoint triggered_loop (i : nat) (statuses : list Z) (ret : option nat) (status : Z) : option nat :=
  match statuses with
  | [] => ret
  | st :: statuses =>
      if (st =? EINPROGRESS) || ((st =? ETIMEDOUT) && negb (status =? EINPROGRESS)) then triggered_loop (S i) statuses ret status
      else triggered_loop (S i) statuses (Some i) st
  end.

Definition TriggeredEvent (statuses : list Z) : option nat := triggered_loop 0 statuses None EINPROGRESS.

(** [SelectD] behind the switch: the event and the result. *)
Definition selected (cancelled : bool) (statuses : list Z) : option nat * Z :=
  if cancelled then (None, ECANCELED)
  else match TriggeredEvent statuses with
       | Some i => (Some i, default EINPROGRESS (statuses !! i))
       | None => (None, EINPROGRESS)
       end.

(** ** What the calls do *)

Lemma taken_bounds room total : 0 <= total -> 0 <= taken room total <= total.
Proof. unfold taken. lia. Qed.

Lemma Proceed_flat len parts : 0 <= len <= zlen (flat parts) -> flat (Proceed len parts) = drop (Z.to_nat len) (flat parts).
Proof.
  revert len. induction parts as [|p parts IH]; intros len H; [rewrite flat_nil, drop_nil; auto|]. rewrite flat_cons, zlen_app in H. cbn [Proceed].
  rewrite flat_cons. destruct (Z.ltb_spec len (zlen p)).
  - rewrite flat_cons, drop_app_le by (unfold zlen in *; lia). auto.
  - rewrite IH by lia. rewrite drop_app_ge by (unfold zlen in *; lia). f_equal. unfold zlen in *. lia.
Qed.

Lemma Proceed_all len parts : zlen (flat parts) <= len -> Proceed len parts = [].
Proof.
  revert len. induction parts as [|p parts IH]; intros len H; [auto|]. rewrite flat_cons, zlen_app in H. cbn [Proceed].
  pose proof (zlen_nonneg (flat parts)). rewrite (proj2 (Z.ltb_ge _ _)) by lia. apply IH. lia.
Qed.

(** How many answers take something. *)
Fixpoint productive (os : list (answer Z)) : Z :=
  match os with
  | [] => 0
  | Done room :: os => (if 0 <? room then 1 else 0) + productive os
  | _ :: os => productive os
  end.

(** The wire gets a prefix of the bytes, their number is returned, and success means all of them. *)
Definition wrote (bytes : list Z) (written : Z) (wire : list Z) (r : TContIOStatus Z * list Z * list (answer Z)) : Prop :=
  exists n, 0 <= n <= zlen bytes /\ Processed_ (fst (fst r)) = written + n /\ snd (fst r) = wire ++ take (Z.to_nat n) bytes /\
    (IoStatus_ (fst (fst r)) = 0 -> n = zlen bytes).

Lemma wrote_more bytes written wire res r : 0 <= res <= zlen bytes ->
  wrote (drop (Z.to_nat res) bytes) (written + res) (wire ++ take (Z.to_nat res) bytes) r -> wrote bytes written wire r.
Proof.
  intros Hb (n&Hn&H1&H2&H3). assert (Hl : zlen (drop (Z.to_nat res) bytes) = zlen bytes - res) by (unfold zlen in *; rewrite length_drop; lia).
  rewrite Hl in *. exists (res + n). split; [lia|]. split; [lia|]. split; [|intros H; rewrite H3; [lia|auto]].
  rewrite H2, <- app_assoc. f_equal. rewrite Z2Nat.inj_add by lia. apply take_take_drop.
Qed.

Lemma wrote_nothing bytes written wire err os : err <> 0 \/ bytes = [] -> wrote bytes written wire (mk_status written err, wire, os).
Proof.
  intros H. exists 0. cbn. split; [split; [lia|apply zlen_nonneg]|]. split; [lia|]. split; [rewrite app_nil_r; auto|].
  intros ->. destruct H as [H| ->]; [congruence|]. reflexivity.
Qed.

Definition os_ok (os : list (answer Z)) : Prop := Forall (fun a => match a with Failed err _ => err <> 0 | _ => True end) os.

Lemma WriteVectorD_wrote os : os_ok os -> forall vec written wire r, WriteVectorD vec written wire os = Some r -> wrote (flat vec) written wire r.
Proof.
  induction 1 as [|a os Ha Hos IH]; intros vec written wire r E.
  - destruct vec; inv E. apply wrote_nothing. auto.
  - destruct vec as [|p vec]; [inv E; apply wrote_nothing; auto|]. cbn [WriteVectorD] in E. remember (p :: vec) as v eqn:Ev. destruct a as [room|err polled].
    + pose proof (taken_bounds room (FullLength v)) as Hb. rewrite FullLength_flat in *. specialize (Hb (zlen_nonneg _)).
      apply wrote_more with (taken room (zlen (flat v))); [exact Hb|]. rewrite <- Proceed_flat by exact Hb. apply IH. exact E.
    + destruct (IsBlocked err); cbn [negb] in E; [|inv E; apply wrote_nothing; auto].
      destruct (Z.eqb_spec polled 0); cbn [negb] in E; [subst v; eapply IH; exact E|inv E; apply wrote_nothing; auto].
Qed.

Lemma WriteD_wrote os : os_ok os -> forall buf written wire r, WriteD buf written wire os = Some r -> wrote buf written wire r.
Proof.
  induction 1 as [|a os Ha Hos IH]; intros buf written wire r E.
  - destruct buf; inv E. apply wrote_nothing. auto.
  - destruct buf as [|b buf]; [inv E; apply wrote_nothing; auto|]. cbn [WriteD] in E. remember (b :: buf) as v eqn:Ev. destruct a as [room|err polled].
    + pose proof (taken_bounds room (zlen v) (zlen_nonneg _)) as Hb. apply wrote_more with (taken room (zlen v)); [exact Hb|]. apply IH. exact E.
    + destruct (IsBlocked err); cbn [negb] in E; [|inv E; apply wrote_nothing; auto].
      destruct (Z.eqb_spec polled 0); cbn [negb] in E; [subst v; eapply IH; exact E|inv E; apply wrote_nothing; auto].
Qed.

(** A write that still waits was answered with room less often than there are bytes. *)
Lemma WriteVectorD_waits os vec written wire : WriteVectorD vec written wire os = None -> productive os < Z.max 1 (zlen (flat vec)).
Proof.
  revert vec written wire. induction os as [|a os IH]; intros vec written wire E; [cbn; lia|].
  destruct vec as [|p vec]; [discriminate|]. cbn [WriteVectorD] in E. remember (p :: vec) as v eqn:Ev. destruct a as [room|err polled].
  - pose proof (taken_bounds room (FullLength v)) as Hb. rewrite FullLength_flat in *. specialize (Hb (zlen_nonneg _)).
    destruct (Z.le_gt_cases (zlen (flat v)) (taken room (zlen (flat v)))) as [Hle|Hgt].
    + rewrite (Proceed_all _ v) in E by exact Hle. destruct os; discriminate.
    + apply IH in E. rewrite Proceed_flat in E by exact Hb.
      assert (Hl : zlen (drop (Z.to_nat (taken room (zlen (flat v)))) (flat v)) = zlen (flat v) - taken room (zlen (flat v))) by (unfold zlen at 1; rewrite length_drop; unfold zlen in *; lia).
      rewrite Hl in E. cbn [productive]. destruct (Z.ltb_spec 0 room); unfold taken in *; lia.
  - destruct (IsBlocked err); cbn [negb] in E; [|discriminate]. destruct (polled =? 0); cbn [negb] in E; [|discriminate]. subst v. exact (IH _ _ _ E).
Qed.

(** A vector is written as the string of its bytes. *)
Lemma WriteVectorD_WriteD os vec written wire : Forall (fun p => p <> []) vec ->
  option_map fst (WriteVectorD vec written wire os) = option_map fst (WriteD (flat vec) written wire os).
Proof.
  revert vec written wire. induction os as [|a os IH]; intros vec written wire Hv.
  - destruct Hv as [|p vec Hp Hv]; [auto|]. rewrite flat_cons. destruct p; [congruence|]. auto.
  - destruct Hv as [|p vec Hp Hv]; [auto|]. assert (Hne : exists b buf, flat (p :: vec) = b :: buf) by (rewrite flat_cons; destruct p; [congruence|cbn; eauto]).
    destruct Hne as (b&buf&Eb). cbn [WriteVectorD]. rewrite Eb. cbn [WriteD]. rewrite <- Eb. remember (p :: vec) as v eqn:Ev. destruct a as [room|err polled].
    + rewrite FullLength_flat. pose proof (taken_bounds room (zlen (flat v)) (zlen_nonneg _)) as Hb.
      rewrite IH; [rewrite Proceed_flat by exact Hb; auto|]. assert (Hv' : Forall (fun p => p <> []) v) by (subst v; constructor; auto).
      clear - Hv'. generalize (taken room (zlen (flat v))). induction Hv' as [|q v Hq Hv IHv]; intros n; cbn [Proceed]; [constructor|].
      destruct (Z.ltb_spec n (zlen q)); [|apply IHv]. constructor; [|exact Hv]. intros F. apply (f_equal length) in F. rewrite length_drop in F.
      unfold zlen in *. destruct q; [congruence|]. cbn in *. lia.
    + destruct (IsBlocked err); cbn [negb]; [|auto]. destruct (polled =? 0); cbn [negb]; [|auto]. subst v.
      rewrite IH by (constructor; auto). auto.
Qed.

(** ** Events that are found *)

(** Nothing is found exactly when nothing has happened, and what is found has happened. *)
Lemma triggered_loop_spec statuses i ret status : (status = EINPROGRESS <-> ret = None) ->
  match triggered_loop i statuses ret status with
  | None => ret = None /\ Forall (fun st => st = EINPROGRESS) statuses
  | Some j => ret = Some j \/ exists n st, j = (i + n)%nat /\ statuses !! n = Some st /\ st <> EINPROGRESS
  end.
Proof.
  revert i ret status. induction statuses as [|st statuses IH]; intros i ret status H; cbn [triggered_loop]; [destruct ret; auto|].
  destruct (Z.eqb_spec st EINPROGRESS) as [->|Hne]; cbn [orb].
  - specialize (IH (S i) ret status H). destruct (triggered_loop _ _ _ _) as [j|]; [|destruct IH; auto].
    destruct IH as [IH|(n&st&->&E&Hn)]; [auto|]. right. exists (S n), st. split; [lia|auto].
  - destruct ((st =? ETIMEDOUT) && negb (status =? EINPROGRESS)) eqn:Et.
    + specialize (IH (S i) ret status H). destruct (triggered_loop _ _ _ _) as [j|].
      * destruct IH as [IH|(n&st'&->&E&Hn)]; [auto|]. right. exists (S n), st'. split; [lia|auto].
      * exfalso. destruct IH as [-> _]. apply andb_prop in Et as [_ Et]. rewrite (proj2 H eq_refl) in Et. discriminate.
    + assert (H' : st = EINPROGRESS <-> Some i = None) by (split; [congruence|discriminate]). specialize (IH (S i) (Some i) st H').
      destruct (triggered_loop _ _ _ _) as [j|]; [|destruct IH; discriminate]. right. destruct IH as [IH|(n&st'&->&E&Hn)].
      * inv IH. exists 0%nat, st. split; [lia|auto].
      * exists (S n), st'. split; [lia|auto].
Qed.
