(* ===== verification/CTheorems.v ===== *)
(** * Coroutines: the properties

    Of every execution of the engine, from any coroutines at the start. *)

From Stdlib Require Import ZArith Lia Bool Sorted.
From stdpp Require Import base numbers list gmap.
From S2P Require Import Prelude CCoro CWake CSteps HChunks CIo.

(** ** Programs of the witnesses *)

(** A critical section of 100 time units. *)
Definition critical : prog := PLockD 1 Max (fun _ => PSleepD 100 (fun _ => PUnLock 1 PEnd)).

(** Waits on a condition until 5 with the mutex locked, and unlocks it. *)
Definition consumer : prog := PLockD 1 Max (fun _ => PCondWaitD 1 1 5 (fun _ => PUnLock 1 PEnd)).

(** The state after so many steps at the time 0. *)
Lemma run_reached ps times s l : run times (initial ps) = Some (s, l) -> reached ps s l.
Proof. intros E. apply (reached_run ps times (initial ps) [] s l); [constructor|exact E]. Qed.

Lemma run_some (o : option (TContExecutor * list label)) (l : list label) (P : TContExecutor -> bool) :
  match o with Some (s, l') => bool_decide (length l' = length l) && P s | None => false end = true ->
  option_map snd o = Some l -> exists s, o = Some (s, l) /\ P s = true.
Proof. destruct o as [[s l']|]; [|discriminate]. cbn. intros H E. inv E. apply andb_prop in H as [_ H]. eauto. Qed.

(** ** Mutexes *)

(** C31: [TContMutex] excludes: in an execution in which a mutex is only unlocked by the
    coroutine that locked it last, between two locks of the mutex the first coroutine has
    unlocked it; and the token is away exactly while a coroutine holds the mutex. *)
Theorem mutex_excludes (ps : list prog) (s : TContExecutor) (tr : list label) (m : positive) :
  reached ps s tr -> disciplined m tr ->
  (forall tr1 c tr2 c' tr3, tr = tr1 ++ LLock m c :: tr2 ++ LLock m c' :: tr3 -> LUnLock m c ∈ tr2) /\
  (Token_ (mutex s m) = false <-> exists c, holder m tr = Some c).
Proof.
  intros Hr Hd. split.
  - intros tr1 c tr2 c' tr3 E. assert (Hl := reached_locks _ _ _ Hr).
    apply (released m c tr2 (tr1 ++ [LLock m c]) tr Hd); [intros ? ? ?; apply Hl|exists (LLock m c' :: tr3); rewrite E, <- !app_assoc; auto| |].
    + unfold holder. rewrite owner_app. cbn. rewrite decide_True by auto. auto.
    + assert (H : holder m (tr1 ++ LLock m c :: tr2) = None) by (apply (Hl _ m c' tr3); rewrite E, <- !app_assoc; auto).
      unfold holder in H. rewrite owner_app in H. cbn in H. rewrite decide_True in H by auto. exact H.
  - pose proof (reached_tokens _ _ _ Hr m) as Ht. destruct (Token_ _), (holder m tr) as [c|].
    + destruct Ht as [Ht _]. discriminate (Ht eq_refl).
    + split; [discriminate|]. intros [c F]. discriminate.
    + split; eauto.
    + destruct Ht as [_ Ht]. discriminate (Ht eq_refl).
Qed.

Lemma mutex_excludes_witness :
  exists s, reached [critical; critical] s [LLock 1 1; LUnLock 1 1; LLock 1 2] /\ LUnLock 1 1 ∈ [LUnLock 1 1] /\ Token_ (mutex s 1) = false.
Proof.
  destruct (run_some (run (repeat 0 12) (initial [critical; critical])) [LLock 1 1; LUnLock 1 1; LLock 1 2] (fun _ => true)) as (s&E&_); [vm_compute; reflexivity..|].
  exists s. apply run_reached in E. destruct (mutex_excludes _ _ _ 1 E) as [H1 H2].
  - intros tr1 c tr2 F. destruct tr1 as [|x [|y [|z tr1]]]; inv F; [reflexivity|]. destruct tr1; discriminate.
  - split; [exact E|]. split; [exact (H1 [] 1%positive [LUnLock 1 1] 2%positive [] eq_refl)|]. apply H2. exists 2%positive. reflexivity.
Defined.

(** C32: no wake-up of a mutex is lost: whenever a mutex is free and coroutines wait in its
    queue, a coroutine inside [LockD] of it is ready or running, and takes the mutex at its
    first step in which the mutex is still free, whatever else has happened until then. *)
Theorem mutex_wakeup_not_lost (ps : list prog) (s : TContExecutor) (tr : list label) (m : positive) :
  reached ps s tr -> Token_ (mutex s m) = true -> Waiters_ (mutex s m) <> [] ->
  exists c t d k, conts s !! c = Some t /\ at_ t = InLock m d k /\ to_run s c /\
    forall s' now, conts s' !! c = Some t -> Current_ s' = Some c -> Token_ (mutex s' m) = true ->
      exists s'', step now s' = Some (s'', [LLock m c]) /\ Token_ (mutex s'' m) = false.
Proof.
  intros Hr Ht Hw. destruct (reached_fine _ _ _ Hr) as [[Q G] _]. destruct (G m Logic.I Ht Hw) as (c&_&t&d&k&E&Ha&Es).
  exists c, t, d, k. split; [exact E|]. split; [exact Ha|]. split.
  - destruct (q_lock _ _ Q c t m d k (fun F => F) E Ha) as [Hin|[_ H]]; [|exact H].
    apply (q_wait _ _ Q) in Hin as (_&t'&d'&k'&E'&_&Es'). rewrite E in E'. inv E'. rewrite Es in Es'. discriminate.
  - intros s' now E' Ec Ht'. unfold step. rewrite Ec. unfold run_current. rewrite E', Ha. cbn [mbind option_bind].
    unfold lock_woken, waited, slept. rewrite E'. cbv iota beta zeta. unfold event_result.
    change (conts (unlink_timer c s')) with (conts s'). rewrite E', Es. cbn [Z.eqb EWAKEDUP Pos.eqb]. unfold lock_loop. rewrite mutex_put, decide_True by auto.
    cbn [Token_]. change (mutex (unlink_timer c s') m) with (mutex s' m). rewrite Ht'. eexists. split; [reflexivity|].
    change (mutex (continue _ _ ?q) m) with (mutex q m). rewrite mutex_put, decide_True by auto. reflexivity.
Qed.

Lemma mutex_wakeup_not_lost_witness :
  exists s, reached [critical; critical; critical] s [LLock 1 1; LUnLock 1 1] /\ Token_ (mutex s 1) = true /\ exists c t d k, conts s !! c = Some t /\ at_ t = InLock 1 d k /\ to_run s c.
Proof.
  destruct (run_some (run (repeat 0 12) (initial [critical; critical; critical])) [LLock 1 1; LUnLock 1 1]
    (fun s => Token_ (mutex s 1) && bool_decide (Waiters_ (mutex s 1) <> []))) as (s&E&H); [vm_compute; reflexivity..|].
  apply andb_prop in H as [H1 H2]. apply bool_decide_eq_true in H2. apply run_reached in E. exists s. split; [exact E|]. split; [exact H1|].
  destruct (mutex_wakeup_not_lost _ _ _ 1 E H1 H2) as (c&t&d&k&H&Ha&Hc&_). exists c, t, d, k. auto.
Defined.

(** ** Timers *)

(** C33: in every state that is reached, [CancelTimedOut] wakes with [ETIMEDOUT] exactly the
    coroutines whose deadline has come, in the order of the deadlines and behind those that are
    ready, leaves the timers that are later, and gives the time to wait until. *)
Theorem timers_fire_in_order (ps : list prog) (s : TContExecutor) (tr : list label) (now : Z) :
  reached ps s tr ->
  exists l rest s', IoWait_ s = l ++ rest /\ StronglySorted earlier (l ++ rest) /\
    (forall d c, (d, c) ∈ l -> d <= now) /\ (forall d c, (d, c) ∈ rest -> now < d) /\
    CancelTimedOut now s = (match l, rest with [], (d, _) :: _ => d | _, _ => now end, s') /\
    IoWait_ s' = rest /\ Ready_ s' = filter (fun c => c ∉ map snd l) (Ready_ s) ++ map snd l /\
    forall c, conts s' !! c = if decide (c ∈ map snd l) then with_timer ETIMEDOUT <$> conts s !! c else conts s !! c.
Proof.
  intros Hr. destruct (reached_fine _ _ _ Hr) as [_ [HT _]]. destruct (expired_later now _ HT) as (rest&E&Hl).
  set (l := expired now (IoWait_ s)) in *. destruct HT as [Hs Hn].
  assert (Hnl : NoDup (map snd l)) by (rewrite E, map_app in Hn; apply NoDup_app in Hn as [H _]; exact H).
  exists l, rest, (fired l s). split; [exact E|]. split; [rewrite <- E; exact Hs|].
  split; [intros d c H; apply elem_expired in H; tauto|]. split; [exact Hl|]. split; [|split; [|split]].
  - unfold CancelTimedOut. fold l. destruct (IoWait_ s) as [|[d c] w] eqn:Ew; [unfold l; cbn; destruct rest; [auto|discriminate]|].
    subst l. cbn [expired] in *. destruct (Z.leb_spec d now).
    + rewrite (proj2 (Z.ltb_ge _ _)) by lia. auto.
    + rewrite (proj2 (Z.ltb_lt _ _)) by lia. cbn in E. rewrite <- E. auto.
  - apply (fired_timers l rest); [rewrite <- E; exact Hn|exact E].
  - apply fired_ready. exact Hnl.
  - intros c. apply fired_conts. exact Hnl.
Qed.

Lemma timers_fire_in_order_witness :
  exists s s', reached [PSleepD 7 (fun _ => PEnd); PSleepD 3 (fun _ => PEnd); PSleepD 9 (fun _ => PEnd)] s [] /\ CancelTimedOut 8 s = (8, s') /\ Ready_ s' = [2%positive; 1%positive].
Proof.
  destruct (run_some (run (repeat 0 6) (initial [PSleepD 7 (fun _ => PEnd); PSleepD 3 (fun _ => PEnd); PSleepD 9 (fun _ => PEnd)])) []
    (fun s => bool_decide (IoWait_ s = [(3, 2%positive); (7, 1%positive); (9, 3%positive)]) && bool_decide (Ready_ s = []))) as (s&E&H); [vm_compute; reflexivity..|].
  apply andb_prop in H as [Hw Hr]. apply bool_decide_eq_true in Hw, Hr. apply run_reached in E.
  destruct (timers_fire_in_order _ _ _ 8 E) as (l&rest&s'&El&_&H1&H2&E'&_&Er&_). exists s, s'. split; [exact E|]. rewrite Hw in El.
  destruct l as [|x [|y [|z l]]]; cbn in El.
  - subst rest. specialize (H2 3 2%positive). exfalso. assert (8 < 3) by (apply H2; left). lia.
  - inv El. exfalso. assert (8 < 7) by (apply (H2 7 1%positive); left). lia.
  - inv El. split; [exact E'|]. rewrite Er, Hr. reflexivity.
  - injection El as Ex Ey Ez _. subst. exfalso. assert (9 <= 8) by (apply (H1 9 3%positive); right; right; left). lia.
Defined.

(** ** Condition variables and events *)

(** a [WaitD] of a condition variable that times out does not lock the mutex again: its
    caller, who then unlocks it as after every wait, releases the mutex of the coroutine that
    holds it, and a third one enters: two coroutines are in the critical section. *)
Theorem condvar_timeout_breaks_exclusion :
  exists s t2 t3 k2 k3, reached [consumer; critical; critical] s [LLock 1 1; LUnLock 1 1; LLock 1 2; LUnLock 1 1; LLock 1 3] /\
    conts s !! 2%positive = Some t2 /\ at_ t2 = InSleep k2 /\ conts s !! 3%positive = Some t3 /\ at_ t3 = InSleep k3.
Proof.
  destruct (run_some (run (repeat 0 7 ++ repeat 5 9) (initial [consumer; critical; critical])) [LLock 1 1; LUnLock 1 1; LLock 1 2; LUnLock 1 1; LLock 1 3]
    (fun s => match conts s !! 2%positive, conts s !! 3%positive with Some (mk_cont (InSleep _) _ _ _), Some (mk_cont (InSleep _) _ _ _) => true | _, _ => false end))
    as (s&E&H); [vm_compute; reflexivity..|].
  destruct (conts s !! 2%positive) as [t2|] eqn:E2; [|discriminate]. destruct t2 as [[|k2| | | | |] c2 v2 s2]; try discriminate.
  destruct (conts s !! 3%positive) as [t3|] eqn:E3; [|discriminate]. destruct t3 as [[|k3| | | | |] c3 v3 s3]; try discriminate.
  exists s, (mk_cont (InSleep k2) c2 v2 s2), (mk_cont (InSleep k3) c3 v3 s3), k2, k3. apply run_reached in E. auto.
Qed.

(** A [TMyEvent] remembers one waiter: when a second one waits and the first times out, the
    signal wakes nobody, and the second sleeps for ever. *)
Theorem event_second_waiter_lost :
  exists s, reached [PMyWaitD 1 10 PEnd; PMyWaitD 1 Max PEnd; PSleepD 20 (fun _ => PMySignal 1 PEnd)] s [] /\
    S_ (event s 1) = true /\ in_event s 1 2 /\ Ready_ s = [] /\ Current_ s = None /\ IoWait_ s = [(Max, 2%positive)].
Proof.
  destruct (run_some (run (repeat 0 6 ++ repeat 10 3 ++ repeat 20 6) (initial [PMyWaitD 1 10 PEnd; PMyWaitD 1 Max PEnd; PSleepD 20 (fun _ => PMySignal 1 PEnd)])) []
    (fun s => S_ (event s 1) && bool_decide (Ready_ s = []) && bool_decide (Current_ s = None) && bool_decide (IoWait_ s = [(Max, 2%positive)]) &&
       match conts s !! 2%positive with Some (mk_cont (InMyEvent e _) _ _ _) => bool_decide (e = 1%positive) | _ => false end))
    as (s&E&H); [vm_compute; reflexivity..|]. apply run_reached in E. exists s. split; [exact E|].
  apply andb_prop in H as [H H5]. apply andb_prop in H as [H H4]. apply andb_prop in H as [H H3]. apply andb_prop in H as [H1 H2].
  apply bool_decide_eq_true in H2, H3, H4. split; [exact H1|]. split; [|auto]. destruct (conts s !! 2%positive) as [[[| | | | |e k|] c v st]|] eqn:E2; try discriminate.
  apply bool_decide_eq_true in H5. subst e. eexists _, k. split; [exact E2|reflexivity].
Qed.

(** ** Writing *)

(** A vector without empty parts is written as the string of its bytes: the wire gets a
    prefix, whose length is returned, success means all of it, and a call that still waits was
    answered with room less often than there are bytes. *)
Theorem writes_exact (os : list (answer Z)) (vec : list chunk) (wire : list Z) : os_ok os -> Forall (fun p => p <> []) vec ->
  option_map fst (WriteVectorD vec 0 wire os) = option_map fst (WriteD (flat vec) 0 wire os) /\
  match WriteVectorD vec 0 wire os with
  | Some r => wrote (flat vec) 0 wire r
  | None => productive os < Z.max 1 (zlen (flat vec))
  end.
Proof.
  intros Ho Hv. split; [apply WriteVectorD_WriteD; exact Hv|]. destruct (WriteVectorD vec 0 wire os) as [r|] eqn:E; [eapply WriteVectorD_wrote; eauto|].
  eapply WriteVectorD_waits; eauto.
Qed.
