(* ===== verification/HSocket.v ===== *)
(** * Server kernel: sockets

    Models [TSocketIn] and [TSocketOut] of [src/web/httpd/kernel/socket.h] and [socket.cpp].
    The input writes into blocks of memory of which the chunks it delivers show parts, so the
    memory is a store.  The output is used by coroutines that may be asleep inside [Flush], by
    the poller and by the scheduler, in any order: an operation is an event.  What the
    descriptor answers is a parameter. *)

From Stdlib Require Import ZArith Lia Bool.
From stdpp Require Import base numbers list gmap.
From S2P Require Import Prelude HChunks CCoro CIo.

(** ** Input *)

(** A chunk that shows [len] bytes of a block from [off]. *)
Record view := mk_view { block : positive; off : Z; len : Z }.

Record TSocketIn := mk_in { memory : gmap positive (list Z); L_ : option view }.

Definition show (mem : gmap positive (list Z)) (v : view) : list Z :=
  take (Z.to_nat (len v)) (drop (Z.to_nat (off v)) (default [] (mem !! block v))).

Definition put_bytes (v : view) (bytes : list Z) (mem : gmap positive (list Z)) : gmap positive (list Z) :=
  alter (fun b => take (Z.to_nat (off v)) b ++ bytes ++ drop (Z.to_nat (off v) + length bytes) b) (block v) mem.

(** [SubChunk(b, e)] of a view *)
Definition sub_view (b e : Z) (v : view) : view := mk_view (block v) (off v + b) (e - b).

Section input.
(** The length of the chunks of [NewChunk()], and what fresh memory holds. *)
Context (chunk_length : Z) (garbage : list Z).

Definition NextChunk (s : TSocketIn) : view * TSocketIn :=
  match L_ s with
  | Some v => (v, mk_in (memory s) None)
  | None => let b := fresh (dom (memory s)) in (mk_view b 0 chunk_length, mk_in (<[b := garbage]> (memory s)) None)
  end.

(** [st] is what [ReadI] answers; the descriptor fills at most the chunk. *)
Definition DoRecv (st : TContIOStatus (list Z)) (s : TSocketIn) : res (list view) * TSocketIn :=
  let '(chunk, s) := NextChunk s in
  match Checked st with
  | Throw e => (Throw e, s)
  | Ret data =>
      let bytes := take (Z.to_nat (len chunk)) data in
      let readed := zlen bytes in
      let mem := put_bytes chunk bytes (memory s) in
      if readed =? 0 then (Ret [], mk_in mem (L_ s))
      else if readed =? len chunk then (Ret [chunk], mk_in mem (L_ s))
      else
        let left := len chunk - readed in
        if left <? readed then (Ret [sub_view 0 readed chunk], mk_in mem (L_ s))
        else (Ret [sub_view 0 readed chunk], mk_in mem (Some (sub_view readed (len chunk) chunk)))
  end.
End input.

(** ** Output *)

(** [polled]: the socket is in the poller; [wire]: what the descriptor has taken; [flushing]:
    the coroutines asleep in [Flush] with what they keep; [ready]: those of them that the
    scheduler will switch to; [cancelled]: the coroutines that are cancelled. *)
Record TSocketOut := mk_out {
  W_ : TChunkList; Wake_ : option cont; Err_ : Z; polled : bool; wire : list Z;
  flushing : gmap cont Z; ready : gset cont; cancelled_ : gset cont }.

Definition new_out : TSocketOut := mk_out [] None 0 false [] ∅ ∅ ∅.

Definition set_Wake (x : option cont) (s : TSocketOut) := mk_out (W_ s) x (Err_ s) (polled s) (wire s) (flushing s) (ready s) (cancelled_ s).
Definition set_Err (x : Z) (s : TSocketOut) := mk_out (W_ s) (Wake_ s) x (polled s) (wire s) (flushing s) (ready s) (cancelled_ s).
Definition set_polled (x : bool) (s : TSocketOut) := mk_out (W_ s) (Wake_ s) (Err_ s) x (wire s) (flushing s) (ready s) (cancelled_ s).
Definition set_queue (x : TChunkList) (y : list Z) (s : TSocketOut) := mk_out x (Wake_ s) (Err_ s) (polled s) y (flushing s) (ready s) (cancelled_ s).
Definition set_flushing (x : gmap cont Z) (s : TSocketOut) := mk_out (W_ s) (Wake_ s) (Err_ s) (polled s) (wire s) x (ready s) (cancelled_ s).
Definition set_ready (x : gset cont) (s : TSocketOut) := mk_out (W_ s) (Wake_ s) (Err_ s) (polled s) (wire s) (flushing s) x (cancelled_ s).
Definition set_cancelled (x : gset cont) (s : TSocketOut) := mk_out (W_ s) (Wake_ s) (Err_ s) (polled s) (wire s) (flushing s) (ready s) x.

Inductive flushed := Finished (r : res unit) | Asleep.

(** The loop of [Flush]; [SleepI] of a cancelled coroutine returns at once.  [None] runs out of fuel. *)
Fixpoint Flush_loop (fuel : nat) (c : cont) (keep : Z) (s : TSocketOut) : option (flushed * TSocketOut) :=
  match fuel with
  | O => None
  | S fuel =>
      if negb (keep <? FullLength (W_ s)) then Some (Finished (Ret tt), s)
      else if negb (Err_ s =? 0) then Some (Finished (Throw (TSystemError (Err_ s))), s)
      else
        let s := set_Wake (Some c) s in
        if bool_decide (c ∈ cancelled_ s) then Flush_loop fuel c keep (set_Wake None s)
        else Some (Asleep, s)
  end.

(** The caller of [Flush] is asleep in it or not. *)
Definition Flush (fuel : nat) (c : cont) (keep : Z) (s : TSocketOut) : option (flushed * TSocketOut) :=
  let* (r, s) := Flush_loop fuel c keep s in
  Some (r, set_flushing (match r with Asleep => <[c := keep]> (flushing s) | Finished _ => delete c (flushing s) end) s).

Definition DoSend (fuel : nat) (MaxInQueue_ : Z) (c : cont) (lst : TChunkList) (s : TSocketOut) : option (flushed * TSocketOut) :=
  Flush fuel c MaxInQueue_ (set_polled true (set_queue (MoveTo lst (W_ s)) (wire s) s)).

(** The coroutine goes on behind [SleepI]. *)
Definition woken (fuel : nat) (c : cont) (keep : Z) (s : TSocketOut) : option (flushed * TSocketOut) :=
  Flush fuel c keep (set_Wake None (set_ready (ready s ∖ {[c]}) s)).

(** [writev] is -1 when it fails, whatever the error. *)
Definition DoWriteVector (ans : answer Z) (s : TSocketOut) : Z :=
  match ans with Done room => taken room (FullLength (W_ s)) | Failed _ _ => -1 end.

Definition OnPollEvent (status : Z) (ans : answer Z) (s : TSocketOut) : option TSocketOut :=
  let s := match Wake_ s with Some c => set_ready (ready s ∪ {[c]}) s | None => s end in
  if negb (status =? 0) then Some (set_polled false (set_Err status s))
  else
    let ret := DoWriteVector ans s in
    if ret <? 0 then
      let err := - ret in
      if IsBlocked err then None else Some (set_polled false (set_Err err s))
    else if ret =? FullLength (W_ s) then Some (set_polled false (set_queue [] (wire s ++ flat (W_ s)) s))
    else let '(_, after) := Split ret (W_ s) in Some (set_queue after (wire s ++ take (Z.to_nat ret) (flat (W_ s))) s).

(** ** Events *)

Inductive event :=
  | ESend (c : cont) (lst : TChunkList)
  | EFlush (c : cont)
  | EWoken (c : cont)
  | ECancel (c : cont)
  | EPoll (status : Z) (ans : answer Z).

(** [None] is an event that cannot happen, or a call that does not end. *)
Definition on_event (fuel : nat) (MaxInQueue_ : Z) (e : event) (s : TSocketOut) : option (option flushed * TSocketOut) :=
  match e with
  | ESend c lst => if bool_decide (flushing s !! c = None) then let* (r, s) := DoSend fuel MaxInQueue_ c lst s in Some (Some r, s) else None
  | EFlush c => if bool_decide (flushing s !! c = None) then let* (r, s) := Flush fuel c 0 s in Some (Some r, s) else None
  | EWoken c =>
      let* keep := flushing s !! c in
      if bool_decide (c ∈ ready s) then let* (r, s) := woken fuel c keep s in Some (Some r, s) else None
  | ECancel c => Some (None, set_cancelled (cancelled_ s ∪ {[c]}) (match flushing s !! c with Some _ => set_ready (ready s ∪ {[c]}) s | None => s end))
  | EPoll status ans => if polled s then let* s := OnPollEvent status ans s in Some (None, s) else None
  end.

Fixpoint run_events (fuel : nat) (MaxInQueue_ : Z) (es : list event) (s : TSocketOut) : option TSocketOut :=
  match es with
  | [] => Some s
  | e :: es => let* (_, s) := on_event fuel MaxInQueue_ e s in run_events fuel MaxInQueue_ es s
  end.

(** What the events send. *)
Fixpoint sent (es : list event) : list Z :=
  match es with
  | [] => []
  | ESend _ lst :: es => flat lst ++ sent es
  | _ :: es => sent es
  end.
