(* ===== verification/HSocketTheorems.v ===== *)
(** * Server kernel: sockets: the properties *)

From Stdlib Require Import ZArith Lia Bool.
From stdpp Require Import base numbers list gmap.
From S2P Require Import Prelude HChunks CCoro CIo HSocket.

(** ** Output *)

(** What is taken and what waits are what was sent, and what waits is polled for, unless the socket has failed. *)
Definition in_order (all : list Z) (s : TSocketOut) : Prop :=
  wire s ++ flat (W_ s) = all /\ (polled s = false -> flat (W_ s) = [] \/ Err_ s <> 0).

Lemma Flush_loop_keeps fuel c keep s r s' : Flush_loop fuel c keep s = Some (r, s') ->
  W_ s' = W_ s /\ wire s' = wire s /\ Err_ s' = Err_ s /\ polled s' = polled s /\ flushing s' = flushing s /\ ready s' = ready s /\ cancelled_ s' = cancelled_ s /\
  match r with
  | Finished (Ret _) => FullLength (W_ s) <= keep
  | Finished (Throw e) => keep < FullLength (W_ s) /\ Err_ s <> 0 /\ e = TSystemError (Err_ s)
  | Asleep => keep < FullLength (W_ s) /\ Err_ s = 0 /\ Wake_ s' = Some c /\ c ∉ cancelled_ s
  end.
Proof.
  revert s. induction fuel as [|fuel IH]; intros s E; [discriminate|]. cbn [Flush_loop] in E.
  destruct (Z.ltb_spec keep (FullLength (W_ s))); cbn [negb] in E; [|inv E; conj; auto; lia].
  destruct (Z.eqb_spec (Err_ s) 0); cbn [negb] in E; [|inv E; conj; auto].
  destruct (bool_decide (c ∈ cancelled_ (set_Wake (Some c) s))) eqn:Ec.
  - destruct (IH _ E) as (H1&H2&H3&H4&H5&H6&H7&Hr). conj; auto.
  - inv E. apply bool_decide_eq_false in Ec. conj; auto.
Qed.

Lemma Flush_keeps fuel c keep s r s' all : in_order all s -> Flush fuel c keep s = Some (r, s') -> in_order all s'.
Proof.
  intros [H1 H2] E. unfold Flush in E. destruct (Flush_loop fuel c keep s) as [[r1 s1]|] eqn:El; [|discriminate]. inv E.
  apply Flush_loop_keeps in El as (E1&E2&E3&E4&_). unfold in_order. cbn. rewrite E1, E2, E3, E4. auto.
Qed.

Lemma OnPollEvent_in_order status ans s s' all : polled s = true -> in_order all s -> OnPollEvent status ans s = Some s' -> in_order all s'.
Proof.
  intros Hp [H1 H2] E. unfold OnPollEvent in E.
  set (s0 := match Wake_ s with Some c => _ | None => s end) in E. assert (E0 : W_ s0 = W_ s /\ wire s0 = wire s /\ polled s0 = polled s) by (unfold s0; destruct (Wake_ s); auto).
  destruct E0 as (Ew&Ei&Ep). destruct (Z.eqb_spec status 0) as [Hs|Hs]; cbn [negb] in E; [|injection E as <-; split; cbn; [congruence|auto]].
  destruct (Z.ltb_spec (DoWriteVector ans s0) 0) as [Hn|Hn].
  - destruct (IsBlocked _); [discriminate|]; injection E as <-. split; cbn; [congruence|]. right. lia.
  - destruct (Z.eqb_spec (DoWriteVector ans s0) (FullLength (W_ s0))) as [Hf|Hf].
    + injection E as <-. split; cbn; [rewrite Ew, Ei, app_nil_r; auto|auto].
    + destruct (Split _ _) as [before after] eqn:Es. apply Split_flat in Es as [E1 E2]; [|exact Hn]. injection E as <-. split; cbn.
      * rewrite Ei, <- app_assoc. rewrite <- H1. f_equal. rewrite E2, Ew. apply take_drop.
      * rewrite Ep, Hp. discriminate.
Qed.

Lemma on_event_in_order fuel max e s r s' all : in_order all s -> on_event fuel max e s = Some (r, s') -> in_order (all ++ sent [e]) s'.
Proof.
  intros H E. destruct e as [c lst|c|c|c|status ans]; cbn [on_event sent] in *; rewrite ?app_nil_r.
  - destruct (bool_decide _); [|discriminate]. destruct (DoSend fuel max c lst s) as [[r1 s1]|] eqn:Es; [|discriminate]. inv E.
    eapply Flush_keeps; [|exact Es]. destruct H as [H1 H2]. split; cbn; [|discriminate]. unfold MoveTo. rewrite flat_app, app_assoc, H1. auto.
  - destruct (bool_decide _); [|discriminate]. destruct (Flush fuel c 0 s) as [[r1 s1]|] eqn:Es; [|discriminate]. inv E. eapply Flush_keeps; eauto.
  - destruct (flushing s !! c) as [keep|]; [|discriminate]. cbn in E. destruct (bool_decide _); [|discriminate].
    destruct (woken fuel c keep s) as [[r1 s1]|] eqn:Es; [|discriminate]. inv E. eapply Flush_keeps; [|exact Es]. exact H.
  - inv E. destruct (flushing s !! c); exact H.
  - destruct (polled s) eqn:Ep; [|discriminate]. destruct (OnPollEvent status ans s) as [s1|] eqn:Es; [|discriminate]. inv E. eapply OnPollEvent_in_order; eauto.
Qed.

Lemma run_events_app fuel max es1 es2 s : run_events fuel max (es1 ++ es2) s = let* s := run_events fuel max es1 s in run_events fuel max es2 s.
Proof. revert s. induction es1 as [|e es1 IH]; intros s; [auto|]. cbn. destruct (on_event fuel max e s) as [[r s1]|]; [apply IH|auto]. Qed.

Lemma sent_app es1 es2 : sent (es1 ++ es2) = sent es1 ++ sent es2.
Proof. induction es1 as [|e es1 IH]; [auto|]. destruct e; cbn; auto. rewrite IH. apply app_assoc. Qed.

Lemma run_events_in_order fuel max es s : run_events fuel max es new_out = Some s -> in_order (sent es) s.
Proof.
  revert s. induction es as [|e es IH] using rev_ind; intros s E; [inv E; split; auto|]. rewrite run_events_app in E.
  destruct (run_events fuel max es new_out) as [s1|]; [|discriminate]. cbn in E. destruct (on_event fuel max e s1) as [[r s2]|] eqn:Ee; [|discriminate]. inv E.
  rewrite sent_app. eapply on_event_in_order; eauto.
Qed.

Lemma OnPollEvent_ready status ans s s' : OnPollEvent status ans s = Some s' -> ready s ⊆ ready s' /\ flushing s' = flushing s.
Proof.
  intros E. unfold OnPollEvent in E. set (s0 := match Wake_ s with Some c => _ | None => s end) in E.
  assert (H : ready s ⊆ ready s0 /\ flushing s0 = flushing s) by (unfold s0; destruct (Wake_ s); cbn; split; set_solver).
  destruct (negb _); [injection E as <-; exact H|]. destruct (_ <? 0); [destruct (IsBlocked _); [discriminate|]; injection E as <-; exact H|].
  destruct (_ =? _); [injection E as <-; exact H|]. destruct (Split _ _). injection E as <-. exact H.
Qed.

(** The coroutine that an event lets run. *)
Definition runs (e : event) : option cont :=
  match e with ESend c _ | EFlush c | EWoken c => Some c | ECancel _ | EPoll _ _ => None end.

(** What the last call of a coroutine may leave in the queue: [MaxInQueue_] for a send, nothing for [Flush]. *)
Fixpoint call_limit (max : Z) (c : cont) (es : list event) (cur : option Z) : option Z :=
  match es with
  | [] => cur
  | ESend c' _ :: es => call_limit max c es (if decide (c' = c) then Some max else cur)
  | EFlush c' :: es => call_limit max c es (if decide (c' = c) then Some 0 else cur)
  | _ :: es => call_limit max c es cur
  end.

Lemma call_limit_app max c es1 es2 cur : call_limit max c (es1 ++ es2) cur = call_limit max c es2 (call_limit max c es1 cur).
Proof. revert cur. induction es1 as [|e es1 IH]; intros cur; [auto|]. destruct e; cbn; auto. Qed.

(** How a call ends or goes on sleeping, with its limit. *)
Definition call_result (c : cont) (keep : Z) (r : flushed) (s : TSocketOut) : Prop :=
  match r with
  | Finished (Ret _) => FullLength (W_ s) <= keep /\ flushing s !! c = None
  | Finished (Throw e) => keep < FullLength (W_ s) /\ Err_ s <> 0 /\ e = TSystemError (Err_ s) /\ flushing s !! c = None
  | Asleep => keep < FullLength (W_ s) /\ Err_ s = 0 /\ Wake_ s = Some c /\ flushing s !! c = Some keep
  end.

Lemma Flush_result fuel c keep s r s' : Flush fuel c keep s = Some (r, s') ->
  call_result c keep r s' /\ forall c', c' <> c -> flushing s' !! c' = flushing s !! c'.
Proof.
  intros E. unfold Flush in E. destruct (Flush_loop fuel c keep s) as [[r1 s1]|] eqn:El; [|discriminate]. inv E.
  apply Flush_loop_keeps in El as (Ew&_&Ee&_&Ef&_&_&Hr). split.
  - destruct r as [[[]|e]|]; cbn [call_result W_ Err_ Wake_ flushing set_flushing]; rewrite Ew, ?Ee, ?lookup_delete_eq, ?lookup_insert_eq; intuition auto.
  - intros c' Hc. cbn. rewrite Ef. destruct r; [apply lookup_delete_ne|apply lookup_insert_ne]; auto.
Qed.

(** Every coroutine that is asleep keeps the limit of its call. *)
Definition limits_kept (max : Z) (es : list event) (s : TSocketOut) : Prop :=
  forall c keep, flushing s !! c = Some keep -> call_limit max c es None = Some keep.

Lemma on_event_result fuel max es e s r s' : limits_kept max es s -> on_event fuel max e s = Some (r, s') ->
  limits_kept max (es ++ [e]) s' /\
  match r with
  | None => runs e = None
  | Some r => exists c keep, runs e = Some c /\ call_limit max c (es ++ [e]) None = Some keep /\ call_result c keep r s'
  end.
Proof.
  intros H E. assert (Hf : forall c keep s1 r1, call_limit max c (es ++ [e]) None = Some keep -> (forall c', c' <> c -> call_limit max c' (es ++ [e]) None = call_limit max c' es None) ->
    flushing s1 = flushing s -> Flush fuel c keep s1 = Some (r1, s') -> limits_kept max (es ++ [e]) s' /\ call_result c keep r1 s').
  { intros c keep s1 r1 Hc Ho Es F. destruct (Flush_result _ _ _ _ _ _ F) as [Hr Hn]. split; [|exact Hr]. intros c' k Hk. destruct (decide (c' = c)) as [->|Hne].
    - destruct r1 as [[u|x]|]; cbn in Hr; destruct_and?; congruence.
    - rewrite Ho by exact Hne. apply H. rewrite <- Es, <- Hn by exact Hne. exact Hk. }
  destruct e as [c lst|c|c|c|status ans]; cbn [on_event runs] in *.
  - destruct (bool_decide _); [|discriminate]. destruct (DoSend fuel max c lst s) as [[r1 s1]|] eqn:Es; [|discriminate]. injection E as <- ->.
    assert (Hl : call_limit max c (es ++ [ESend c lst]) None = Some max) by (rewrite call_limit_app; cbn; rewrite decide_True; auto).
    assert (Ho : forall c', c' <> c -> call_limit max c' (es ++ [ESend c lst]) None = call_limit max c' es None) by (intros c' Hc; rewrite call_limit_app; cbn; rewrite decide_False; auto).
    destruct (Hf c max (set_polled true (set_queue (MoveTo lst (W_ s)) (wire s) s)) r1 Hl Ho eq_refl Es) as [H1 H2]. eauto 10.
  - destruct (bool_decide _); [|discriminate]. destruct (Flush fuel c 0 s) as [[r1 s1]|] eqn:Es; [|discriminate]. injection E as <- ->.
    assert (Hl : call_limit max c (es ++ [EFlush c]) None = Some 0) by (rewrite call_limit_app; cbn; rewrite decide_True; auto).
    assert (Ho : forall c', c' <> c -> call_limit max c' (es ++ [EFlush c]) None = call_limit max c' es None) by (intros c' Hc; rewrite call_limit_app; cbn; rewrite decide_False; auto).
    destruct (Hf c 0 s r1 Hl Ho eq_refl Es) as [H1 H2]. eauto 10.
  - destruct (flushing s !! c) as [keep|] eqn:Ek; [|discriminate]. cbn in E. destruct (bool_decide _); [|discriminate].
    destruct (woken fuel c keep s) as [[r1 s1]|] eqn:Es; [|discriminate]. injection E as <- ->.
    assert (Hl : call_limit max c (es ++ [EWoken c]) None = Some keep) by (rewrite call_limit_app; cbn; auto).
    assert (Ho : forall c', c' <> c -> call_limit max c' (es ++ [EWoken c]) None = call_limit max c' es None) by (intros c' _; rewrite call_limit_app; auto).
    destruct (Hf c keep (set_Wake None (set_ready (ready s ∖ {[c]}) s)) r1 Hl Ho eq_refl Es) as [H1 H2]. eauto 10.
  - injection E as <- <-. split; [|auto]. intros c' k Hk. rewrite call_limit_app. cbn. apply H. destruct (flushing s !! c); exact Hk.
  - destruct (polled s); [|discriminate]. destruct (OnPollEvent status ans s) as [s1|] eqn:Es; [|discriminate]. injection E as <- <-. split; [|auto].
    intros c' k Hk. rewrite call_limit_app. cbn. apply H. rewrite <- (proj2 (OnPollEvent_ready _ _ _ _ Es)). exact Hk.
Qed.

Lemma run_events_limits fuel max es s : run_events fuel max es new_out = Some s -> limits_kept max es s.
Proof.
  revert s. induction es as [|e es IH] using rev_ind; intros s E; [inv E; intros c k Hk; discriminate|]. rewrite run_events_app in E.
  destruct (run_events fuel max es new_out) as [s1|]; [|discriminate]. cbn in E. destruct (on_event fuel max e s1) as [[r s2]|] eqn:Ee; [|discriminate]. inv E.
  eapply on_event_result; eauto.
Qed.

(** C34: whatever coroutines send, flush, sleep and are cancelled, and whatever the poller and
    the descriptor answer, in any order: the descriptor has taken a prefix of the bytes that
    were sent, in the order in which they were sent, and the rest is queued; data that waits is
    polled for unless the socket has failed.  A send returns, at once or after any number of
    sleeps, only when at most [MaxInQueue_] bytes are queued, and [Flush] only when all that was
    sent is taken; a call throws the error of the socket only when it has one and more than its
    limit waits; and otherwise, woken or not, it sleeps (again) with its limit. *)
Theorem socket_output_in_order (fuel : nat) (max : Z) (es : list event) (s : TSocketOut) :
  run_events fuel max es new_out = Some s ->
  wire s ++ flat (W_ s) = sent es /\ (polled s = false -> flat (W_ s) = [] \/ Err_ s <> 0) /\
  (forall c keep, flushing s !! c = Some keep -> call_limit max c es None = Some keep) /\
  (forall e r s', on_event fuel max e s = Some (Some r, s') -> exists c keep,
     runs e = Some c /\ call_limit max c (es ++ [e]) None = Some keep /\
     match r with
     | Finished (Ret _) => FullLength (W_ s') <= keep /\ (keep = 0 -> wire s' = sent (es ++ [e])) /\ flushing s' !! c = None
     | Finished (Throw err) => keep < FullLength (W_ s') /\ Err_ s' <> 0 /\ err = TSystemError (Err_ s') /\ flushing s' !! c = None
     | Asleep => keep < FullLength (W_ s') /\ Err_ s' = 0 /\ Wake_ s' = Some c /\ flushing s' !! c = Some keep
     end).
Proof.
  intros E. pose proof (run_events_in_order _ _ _ _ E) as Hi. pose proof (run_events_limits _ _ _ _ E) as Hl.
  split; [apply Hi|]. split; [apply Hi|]. split; [exact Hl|]. intros e r s' F.
  destruct (on_event_result _ _ _ _ _ _ _ Hl F) as [_ (c&keep&Hc&Hk&Hr)]. exists c, keep. split; [exact Hc|]. split; [exact Hk|].
  destruct r as [[u|err]|]; cbn [call_result] in Hr; [|exact Hr|exact Hr]. destruct Hr as [Hr Hn]. split; [exact Hr|]. split; [|exact Hn].
  intros ->. destruct (on_event_in_order _ _ _ _ _ _ _ Hi F) as [H1 _]. rewrite sent_app, <- H1. rewrite FullLength_flat in Hr.
  pose proof (zlen_nonneg (flat (W_ s'))). rewrite (zlen_0 (flat (W_ s'))) by lia. rewrite app_nil_r. auto.
Qed.

(** A send of three bytes sleeps until the queue has room: a byte taken lets it sleep no longer. *)
Lemma socket_output_in_order_witness :
  exists s s', run_events 1 1 [ESend 1 [[1; 2]; [3]]; EPoll 0 (Done 1); EWoken 1; EPoll 0 (Done 1)] new_out = Some s /\
    wire s ++ flat (W_ s) = [1; 2; 3] /\ call_limit 1 1 [ESend 1 [[1; 2]; [3]]; EPoll 0 (Done 1); EWoken 1; EPoll 0 (Done 1)] None = Some 1 /\
    on_event 1 1 (EWoken 1) s = Some (Some (Finished (Ret tt)), s') /\ FullLength (W_ s') <= 1.
Proof.
  set (es := [ESend 1 [[1; 2]; [3]]; EPoll 0 (Done 1); EWoken 1; EPoll 0 (Done 1)]).
  destruct (run_events 1 1 es new_out) as [s|] eqn:E; [|vm_compute in E; discriminate].
  destruct (socket_output_in_order 1 1 es s E) as (H1&_&H2&H3).
  destruct (on_event 1 1 (EWoken 1) s) as [[[[[[]|]|]|] s']|] eqn:F;
    try (vm_compute in E; injection E as <-; vm_compute in F; discriminate).
  exists s, s'. split; [reflexivity|]. split; [exact H1|]. split; [reflexivity|]. split; [exact F|].
  destruct (H3 _ _ _ F) as (c&keep&Hc&Hk&Hr&_). injection Hc as <-. vm_compute in Hk. injection Hk as <-. exact Hr.
Defined.

(** ** One sender *)

Definition only (c : cont) (e : event) : Prop :=
  match e with ESend c' _ | EFlush c' | EWoken c' | ECancel c' => c' = c | EPoll _ _ => True end.

(** The coroutine is asleep in [Flush] for a wake-up that will come. *)
Definition attended (c : cont) (s : TSocketOut) : Prop :=
  forall keep, flushing s !! c = Some keep -> 0 <= keep /\ (c ∈ ready s \/ (Wake_ s = Some c /\ polled s = true)).

Lemma Flush_attended fuel c keep s r s' all : 0 <= keep -> in_order all s -> Flush fuel c keep s = Some (r, s') -> attended c s'.
Proof.
  intros Hk [_ Hp] E keep' F. unfold Flush in E. destruct (Flush_loop fuel c keep s) as [[r1 s1]|] eqn:El; [|discriminate]. injection E as <- <-.
  apply Flush_loop_keeps in El as (E1&E2&E3&E4&E5&E6&E7&Hr). cbn in F. destruct r1 as [r1|]; [rewrite lookup_delete_eq in F; discriminate|].
  rewrite lookup_insert_eq in F. injection F as <-. split; [exact Hk|]. right. cbn. destruct Hr as (Hl&He&Hw&_). split; [exact Hw|]. rewrite E4.
  destruct (polled s); [reflexivity|]. destruct Hp as [Hp|Hp]; [reflexivity| |congruence]. rewrite FullLength_flat, Hp in Hl. unfold zlen in Hl. cbn in Hl. lia.
Qed.

Lemma OnPollEvent_wakes c status ans s s' : Wake_ s = Some c -> OnPollEvent status ans s = Some s' -> c ∈ ready s'.
Proof.
  intros Hw E. unfold OnPollEvent in E. rewrite Hw in E. cbv zeta in E. destruct (negb _); [injection E as <-; cbn; set_solver|]. destruct (_ <? 0).
  - destruct (IsBlocked _); [discriminate|]. injection E as <-. cbn. set_solver.
  - destruct (_ =? _); [injection E as <-; cbn; set_solver|]. destruct (Split _ _). injection E as <-. cbn. set_solver.
Qed.

(** The poller never aborts the program. *)
Lemma OnPollEvent_total status ans s : exists s', OnPollEvent status ans s = Some s'.
Proof.
  unfold OnPollEvent. set (s0 := match Wake_ s with Some c => _ | None => s end). destruct (negb _); [eauto|]. destruct ans as [room|err polled]; cbn [DoWriteVector].
  - pose proof (taken_bounds room (FullLength (W_ s0))) as Hb. rewrite FullLength_flat in *. specialize (Hb (zlen_nonneg _)).
    rewrite (proj2 (Z.ltb_ge _ _)) by lia. destruct (_ =? _); [eauto|]. destruct (Split _ _). eauto.
  - cbn. eauto.
Qed.

Lemma on_event_attended fuel max c e s r s' all : 0 <= max -> only c e -> in_order all s -> attended c s -> on_event fuel max e s = Some (r, s') -> attended c s'.
Proof.
  intros Hm Ho Hi Ha E. destruct e as [c' lst|c'|c'|c'|status ans]; cbn [only] in Ho; try subst c'; cbn [on_event] in E.
  - destruct (bool_decide _); [|discriminate]. destruct (DoSend fuel max c lst s) as [[r1 s1]|] eqn:Es; [|discriminate]. injection E as <- <-.
    eapply (Flush_attended fuel c max); [exact Hm| |exact Es]. destruct Hi as [H1 _]. split; [reflexivity|discriminate].
  - destruct (bool_decide _); [|discriminate]. destruct (Flush fuel c 0 s) as [[r1 s1]|] eqn:Es; [|discriminate]. injection E as <- <-. eapply (Flush_attended fuel c 0); [lia|exact Hi|exact Es].
  - destruct (flushing s !! c) as [keep|] eqn:Ek; [|discriminate]. cbn in E. destruct (bool_decide _); [|discriminate].
    destruct (woken fuel c keep s) as [[r1 s1]|] eqn:Es; [|discriminate]. injection E as <- <-. eapply (Flush_attended fuel c keep); [apply (Ha keep Ek)| |exact Es]. exact Hi.
  - injection E as <- <-. intros keep F. destruct (flushing s !! c) as [k|] eqn:Ek; cbn in *; [|rewrite Ek in F; discriminate].
    split; [apply (Ha keep); exact F|]. left. set_solver.
  - destruct (polled s) eqn:Ep; [|discriminate]. destruct (OnPollEvent status ans s) as [s1|] eqn:Es; [|discriminate]. injection E as <- <-.
    intros keep F. destruct (OnPollEvent_ready _ _ _ _ Es) as [Hr Hf]. rewrite Hf in F. destruct (Ha keep F) as [Hk [H|[H _]]]; (split; [exact Hk|]); left; [set_solver|].
    eapply OnPollEvent_wakes; eauto.
Qed.

(** C35: a coroutine that uses an output alone is never asleep in it for ever: while it waits in
    [Flush] it is ready, or the socket is in the poller and its next event, of whatever kind,
    makes it ready. *)
Theorem socket_sender_is_woken (fuel : nat) (max : Z) (c : cont) (es : list event) (s : TSocketOut) (keep : Z) :
  0 <= max -> Forall (only c) es -> run_events fuel max es new_out = Some s -> flushing s !! c = Some keep ->
  c ∈ ready s \/ (polled s = true /\ forall status ans, exists s', on_event fuel max (EPoll status ans) s = Some (None, s') /\ c ∈ ready s' /\ flushing s' !! c = Some keep).
Proof.
  intros Hm Hes E Hk. assert (Ha : attended c s).
  { clear Hk. revert s E. induction es as [|e es IH] using rev_ind; intros s E; [injection E as <-; intros k F; discriminate|].
    apply Forall_app in Hes as [H1 H2]. inv H2. rewrite run_events_app in E. destruct (run_events fuel max es new_out) as [s1|] eqn:E1; [|discriminate]. cbn in E.
    destruct (on_event fuel max e s1) as [[r s2]|] eqn:Ee; [|discriminate]. injection E as <-.
    eapply on_event_attended; eauto using run_events_in_order. }
  destruct (Ha keep Hk) as [_ [H|[Hw Hp]]]; [auto|]. right. split; [exact Hp|]. intros status ans. destruct (OnPollEvent_total status ans s) as [s' Es].
  exists s'. cbn [on_event]. rewrite Hp, Es. split; [reflexivity|]. split; [eapply OnPollEvent_wakes; eauto|]. rewrite (proj2 (OnPollEvent_ready _ _ _ _ Es)). exact Hk.
Qed.

Lemma socket_sender_is_woken_witness :
  exists s s', run_events 1 2 [ESend 7 [[1; 2]; [3]]] new_out = Some s /\ on_event 1 2 (EPoll 0 (Done 1)) s = Some (None, s') /\ 7%positive ∈ ready s'.
Proof.
  destruct (run_events 1 2 [ESend 7 [[1; 2]; [3]]] new_out) as [s|] eqn:E; [|vm_compute in E; discriminate].
  assert (Hk : flushing s !! 7%positive = Some 2) by (vm_compute in E; injection E as <-; reflexivity).
  assert (Hr : 7%positive ∉ ready s) by (vm_compute in E; injection E as <-; apply (proj1 (bool_decide_eq_true _)); vm_compute; reflexivity).
  destruct (socket_sender_is_woken 1 2 7 [ESend 7 [[1; 2]; [3]]] s 2 ltac:(lia) ltac:(repeat constructor) E Hk) as [H|[_ H]]; [contradiction|].
  destruct (H 0 (Done 1)) as (s'&E'&Hr'&_). exists s, s'. auto.
Defined.

(** ** Outputs that hang *)

(** Two coroutines send and sleep; one poll event later all is taken, the socket is out of the
    poller, and nothing is left that wakes the first. *)
Definition two_senders : list event := [ESend 1 [[1; 2; 3]]; ESend 2 [[4]]; EPoll 0 (Done 10); EWoken 2].

(** C36: the output loses senders.  Of two coroutines that wait in [Flush] only the last is
    woken, and when everything has been taken the first sleeps on with nothing queued and
    nothing polled for; a coroutine that is cancelled while it waits spins in [Flush] for ever;
    and a write that the descriptor refuses for the moment fails the socket with error 1. *)
Theorem socket_output_hangs :
  (exists s, run_events 1 2 two_senders new_out = Some s /\ flushing s !! 1%positive = Some 2 /\ ready s = ∅ /\ Wake_ s = None /\ polled s = false /\ W_ s = [] /\
    wire s = [1; 2; 3; 4]) /\
  (exists s, run_events 1 2 [ESend 1 [[1; 2; 3]]; ECancel 1] new_out = Some s /\ ready s = {[1%positive]} /\ forall fuel, on_event fuel 2 (EWoken 1) s = None) /\
  (forall s p, exists s', OnPollEvent 0 (Failed EAGAIN p) s = Some s' /\ Err_ s' = 1 /\ polled s' = false).
Proof.
  split; [|split].
  - destruct (run_events 1 2 two_senders new_out) as [s|] eqn:E; [|vm_compute in E; discriminate]. exists s. split; [reflexivity|]. vm_compute in E. injection E as <-. conj; reflexivity.
  - destruct (run_events 1 2 [ESend 1 [[1; 2; 3]]; ECancel 1] new_out) as [s|] eqn:E; [|vm_compute in E; discriminate]. exists s. split; [reflexivity|].
    assert (Hs : W_ s = [[1; 2; 3]] /\ Err_ s = 0 /\ flushing s !! 1%positive = Some 2 /\ ready s = {[1%positive]} /\ cancelled_ s = {[1%positive]})
      by (vm_compute in E; injection E as <-; conj; reflexivity).
    destruct Hs as (Hw&He&Hf&Hr&Hc). split; [exact Hr|]. intros fuel. cbn [on_event]. rewrite Hf. cbn. rewrite Hr, bool_decide_true by set_solver.
    unfold woken, Flush. assert (Hspin : forall n s0, W_ s0 = [[1; 2; 3]] -> Err_ s0 = 0 -> cancelled_ s0 = {[1%positive]} -> Flush_loop n 1 2 s0 = None).
    { induction n as [|n IH]; intros s0 H1 H2 H3; [reflexivity|]. cbn [Flush_loop]. rewrite H1, H2. cbn. rewrite H3, bool_decide_true by set_solver. apply IH; auto. }
    rewrite Hspin; auto.
  - intros s p. unfold OnPollEvent. eexists. split; [reflexivity|]. destruct (Wake_ s); split; reflexivity.
Qed.

(** ** Input *)

(** What the coming receive can fill. *)
Definition room_of (chunk_length : Z) (s : TSocketIn) : Z := match L_ s with Some v => len v | None => chunk_length end.

Section input.
Context (chunk_length : Z) (garbage : list Z) (Hpos : 0 < chunk_length) (Hgarbage : zlen garbage = chunk_length).

(** The states after receives, with the chunks they delivered and what the descriptor gave for them. *)
Inductive received : TSocketIn -> list (view * list Z) -> Prop :=
  | received_start : received (mk_in ∅ None) []
  | received_more s vs st l s' : received s vs -> DoRecv chunk_length garbage st s = (Ret l, s') ->
      received s' (vs ++ map (fun v => (v, take (Z.to_nat (room_of chunk_length s)) (Processed_ st))) l)
  | received_failed s vs st e s' : received s vs -> DoRecv chunk_length garbage st s = (Throw e, s') -> received s' vs.

Definition in_memory (mem : gmap positive (list Z)) (v : view) : Prop :=
  exists b, mem !! block v = Some b /\ 0 <= off v /\ 0 < len v /\ off v + len v <= zlen b.

(** [w] is free to be written: behind everything that was delivered of its block. *)
Definition writable (mem : gmap positive (list Z)) (vs : list (view * list Z)) (w : view) : Prop :=
  in_memory mem w /\ forall v b, (v, b) ∈ vs -> block v = block w -> off v + len v <= off w.

Definition stable (mem : gmap positive (list Z)) (vs : list (view * list Z)) : Prop :=
  forall v b, (v, b) ∈ vs -> in_memory mem v /\ show mem v = b.

Definition input_inv (s : TSocketIn) (vs : list (view * list Z)) : Prop :=
  stable (memory s) vs /\ forall w, L_ s = Some w -> writable (memory s) vs w.

Lemma put_bytes_block w bytes mem b : mem !! block w = Some b -> 0 <= off w -> off w + zlen bytes <= zlen b ->
  exists b', put_bytes w bytes mem !! block w = Some b' /\ zlen b' = zlen b /\ take (Z.to_nat (off w)) b' = take (Z.to_nat (off w)) b /\
    take (length bytes) (drop (Z.to_nat (off w)) b') = bytes.
Proof.
  intros E H1 H2. unfold put_bytes. rewrite lookup_alter_eq, E. eexists. split; [reflexivity|]. unfold zlen in *.
  assert (Hl : length (take (Z.to_nat (off w)) b) = Z.to_nat (off w)) by (rewrite length_take; lia).
  split; [rewrite !length_app, length_drop, Hl; lia|]. split; [apply take_app_length'; auto|].
  rewrite drop_app_length' by auto. apply take_app_length.
Qed.

Lemma put_bytes_other w bytes mem x : x <> block w -> put_bytes w bytes mem !! x = mem !! x.
Proof. intros H. apply lookup_alter_ne. auto. Qed.

Lemma take_drop_same (b b' : list Z) (n o l : nat) : take n b' = take n b -> (o + l <= n)%nat -> take l (drop o b') = take l (drop o b).
Proof.
  intros H Hl. rewrite !firstn_skipn_comm. f_equal. replace (o + l)%nat with (Nat.min (o + l) n) by lia. rewrite <- !take_take, H. auto.
Qed.

(** Writing what is free changes nothing that was delivered. *)
Lemma put_bytes_stable mem vs w bytes : stable mem vs -> writable mem vs w -> zlen bytes <= len w -> stable (put_bytes w bytes mem) vs.
Proof.
  intros Hs [(b&E&H1&H2&H3) Hw] Hb v x Hv. destruct (Hs v x Hv) as [(bv&Ev&G1&G2&G3) Hx].
  destruct (put_bytes_block w bytes mem b E H1 ltac:(lia)) as (b'&E'&Hl&Ht&_). destruct (decide (block v = block w)) as [Heq|Hne].
  - rewrite Heq, E in Ev. injection Ev as <-. pose proof (Hw v x Hv Heq) as Ho. split.
    + exists b'. rewrite Heq, Hl. auto.
    + rewrite <- Hx. unfold show. rewrite Heq, E', E. cbn. eapply take_drop_same; [exact Ht|lia].
  - split; [exists bv; rewrite put_bytes_other by exact Hne; auto|]. rewrite <- Hx. unfold show. rewrite put_bytes_other by exact Hne. auto.
Qed.

(** What was read is shown by the part of the chunk that is delivered, and the rest is free. *)
Lemma put_bytes_delivered mem vs w bytes : stable mem vs -> writable mem vs w -> 0 < zlen bytes <= len w ->
  let mem' := put_bytes w bytes mem in let v := sub_view 0 (zlen bytes) w in
  stable mem' (vs ++ [(v, bytes)]) /\ (zlen bytes < len w -> writable mem' (vs ++ [(v, bytes)]) (sub_view (zlen bytes) (len w) w)).
Proof.
  intros Hs Hw Hb mem' v. pose proof (put_bytes_stable mem vs w bytes Hs Hw ltac:(lia)) as Hs'. destruct Hw as [(b&E&H1&H2&H3) Hw].
  destruct (put_bytes_block w bytes mem b E H1 ltac:(lia)) as (b'&E'&Hl&_&Hd). split.
  - intros v' x Hv. apply elem_of_app in Hv as [Hv|Hv]; [exact (Hs' v' x Hv)|]. apply list_elem_of_singleton in Hv. injection Hv as -> ->. split.
    + exists b'. unfold v. cbn. split; [exact E'|]. lia.
    + unfold show, v. cbn. unfold mem'. rewrite E'. cbn. rewrite Z.add_0_r, Z.sub_0_r. unfold zlen. rewrite Nat2Z.id. exact Hd.
  - intros Hlt. split; [exists b'; cbn; split; [exact E'|]; lia|]. intros v' x Hv Hbl. cbn in Hbl. apply elem_of_app in Hv as [Hv|Hv].
    + pose proof (Hw v' x Hv Hbl). cbn. lia.
    + apply list_elem_of_singleton in Hv. injection Hv as -> ->. unfold v. cbn. lia.
Qed.

Lemma NextChunk_writable s vs : input_inv s vs -> exists w s', NextChunk chunk_length garbage s = (w, s') /\ L_ s' = None /\
  stable (memory s') vs /\ writable (memory s') vs w /\ len w = room_of chunk_length s.
Proof.
  intros [Hs Hw]. unfold NextChunk, room_of. destruct (L_ s) as [w|]; [eexists _, _; split; [reflexivity|]; auto 10|].
  set (b := fresh (dom (memory s))). assert (Hb : memory s !! b = None) by (apply not_elem_of_dom; apply is_fresh).
  assert (Hne : forall v x, (v, x) ∈ vs -> block v <> b) by (intros v x Hv F; destruct (Hs v x Hv) as [(bv&Ev&_) _]; congruence).
  eexists _, _. split; [reflexivity|]. split; [auto|]. cbn [memory L_ len]. split; [|split; [split|auto]].
  - intros v x Hv. destruct (Hs v x Hv) as [(bv&Ev&G) Hx]. pose proof (Hne v x Hv). split; [exists bv; rewrite lookup_insert_ne by auto; auto|].
    rewrite <- Hx. unfold show. rewrite lookup_insert_ne by auto. auto.
  - exists garbage. cbn. rewrite lookup_insert_eq, Hgarbage. split; [auto|lia].
  - intros v x Hv F. destruct (Hne v x Hv F).
Qed.

Lemma sub_view_0 w : sub_view 0 (len w) w = w.
Proof. destruct w as [b o l]. unfold sub_view. cbn. rewrite Z.add_0_r, Z.sub_0_r. auto. Qed.

(** A receive delivers nothing at the end of the stream, and otherwise one chunk of what was read. *)
Lemma DoRecv_inv s vs st r s' : input_inv s vs -> DoRecv chunk_length garbage st s = (r, s') ->
  let bytes := take (Z.to_nat (room_of chunk_length s)) (Processed_ st) in
  match r with
  | Throw e => e = TSystemError (IoStatus_ st) /\ input_inv s' vs
  | Ret l => (bytes = [] /\ l = [] /\ Processed_ st = [] \/ bytes <> [] /\ exists v, l = [v]) /\ input_inv s' (vs ++ map (fun v => (v, bytes)) l)
  end.
Proof.
  intros Hi E bytes. destruct (NextChunk_writable s vs Hi) as (w&s1&En&E1&Hs&Hw&Hl). unfold DoRecv in E. rewrite En in E. unfold Checked in E.
  assert (H0 : forall mem, stable mem vs -> input_inv (mk_in mem None) vs) by (intros mem H; split; [exact H|discriminate]).
  destruct (IoStatus_ st =? 0); [|injection E as <- <-; split; [auto|]; destruct s1; cbn in *; subst; auto].
  rewrite Hl in E. fold bytes in E. cbv zeta in E. rewrite E1 in E.
  assert (Hlw : 0 < len w) by (destruct Hw as [(b&_&_&Hp&_) _]; exact Hp).
  assert (Hb : zlen bytes <= len w) by (rewrite Hl in *; unfold bytes, zlen; rewrite length_take; lia). destruct (Z.eqb_spec (zlen bytes) 0) as [Hz|Hz].
  - injection E as <- <-. split; [|cbn [map]; rewrite app_nil_r; apply H0; apply put_bytes_stable; auto]. left.
    apply zlen_0 in Hz. split; [exact Hz|]. split; [auto|]. destruct Hw as [(b&_&_&Hp&_) _]. unfold bytes in Hz. destruct (Processed_ st); [auto|].
    destruct (Z.to_nat (room_of chunk_length s)) eqn:En'; [lia|discriminate].
  - assert (Hbp : 0 < zlen bytes <= len w) by (pose proof (zlen_nonneg bytes); lia).
    destruct (put_bytes_delivered (memory s1) vs w bytes Hs Hw Hbp) as [Hd Hf].
    assert (Hne : bytes <> []) by (intros F; rewrite F in Hz; apply Hz; reflexivity).
    rewrite <- Hl in E. destruct (Z.eqb_spec (zlen bytes) (len w)) as [Hfull|Hfull].
    + injection E as <- <-. split; [right; split; [exact Hne|]; eauto|]. cbn [map]. rewrite Hfull, sub_view_0 in Hd. split; [exact Hd|discriminate].
    + destruct (len w - zlen bytes <? zlen bytes); injection E as <- <-; (split; [right; split; [exact Hne|]; eauto|]); (split; [exact Hd|]); [discriminate|].
      intros w' Ew. cbn in Ew. injection Ew as <-. apply Hf. lia.
Qed.

Lemma received_inv s vs : received s vs -> input_inv s vs.
Proof.
  induction 1 as [|s vs st l s' Hr IH E|s vs st e s' Hr IH E]; [split; [intros v b Hv; set_solver|discriminate]| |].
  - apply (DoRecv_inv _ _ _ _ _ IH) in E. apply E.
  - apply (DoRecv_inv _ _ _ _ _ IH) in E. apply E.
Qed.

(** C37: the chunks a socket has delivered show what the descriptor gave for them, and go on to
    show it whatever is received later, although receives share blocks of memory; no chunk is
    empty, a receive delivers nothing exactly at the end of the stream, and an error of the
    descriptor is thrown. *)
Theorem socket_input_stable (s : TSocketIn) (vs : list (view * list Z)) (st : TContIOStatus (list Z)) (r : res (list view)) (s' : TSocketIn) :
  received s vs -> DoRecv chunk_length garbage st s = (r, s') ->
  map (fun x => show (memory s') (fst x)) vs = map snd vs /\
  match r with
  | Ret l => map (show (memory s')) l = (if decide (Processed_ st = []) then [] else [take (Z.to_nat (room_of chunk_length s)) (Processed_ st)]) /\
             Forall (fun c => c <> []) (map (show (memory s')) l)
  | Throw e => e = TSystemError (IoStatus_ st)
  end.
Proof.
  intros Hr E. pose proof (DoRecv_inv s vs st r s' (received_inv _ _ Hr) E) as H. cbv zeta in H.
  assert (Hold : forall vs', input_inv s' (vs ++ vs') -> map (fun x => show (memory s') (fst x)) vs = map snd vs).
  { intros vs' [Hs _]. apply map_ext_in. intros [v b] Hv. apply list_elem_of_In in Hv. cbn. apply (Hs v b). set_solver. }
  destruct r as [l|e]; [|destruct H as [-> H]; split; [|auto]; apply (Hold []); rewrite app_nil_r; exact H].
  destruct H as [Hl Hi]. split; [exact (Hold _ Hi)|]. destruct Hl as [(Hb&->&Ep)|[Hne [v ->]]].
  - rewrite decide_True by exact Ep. split; [reflexivity|constructor].
  - destruct Hi as [Hs _]. destruct (Hs v _ ltac:(apply elem_of_app; right; left)) as [_ Hx]. cbn [map]. rewrite Hx.
    rewrite decide_False by (intros F; rewrite F, take_nil in Hne; auto). split; [reflexivity|]. repeat constructor. exact Hne.
Qed.
End input.

Lemma socket_input_stable_witness :
  exists s vs s' l, received 4 [0; 0; 0; 0] s vs /\ DoRecv 4 [0; 0; 0; 0] (mk_status [8; 9] 0) s = (Ret l, s') /\
    map (fun x => show (memory s') (fst x)) vs = [[5; 6]] /\ map (show (memory s')) l = [[8; 9]].
Proof.
  destruct (DoRecv 4 [0; 0; 0; 0] (mk_status [5; 6] 0) (mk_in ∅ None)) as [[l1|] s1] eqn:E1; [|vm_compute in E1; discriminate].
  assert (H1 : received 4 [0; 0; 0; 0] s1 [(mk_view 1 0 2, [5; 6])]).
  { pose proof (received_more 4 [0; 0; 0; 0] _ _ _ _ _ (received_start 4 [0; 0; 0; 0]) E1) as H. vm_compute in E1. injection E1 as <- <-. exact H. }
  destruct (DoRecv 4 [0; 0; 0; 0] (mk_status [8; 9] 0) s1) as [[l2|] s2] eqn:E2; [|vm_compute in E1; injection E1 as <- <-; vm_compute in E2; discriminate].
  destruct (socket_input_stable 4 [0; 0; 0; 0] ltac:(lia) ltac:(reflexivity) s1 _ _ _ _ H1 E2) as [A [B _]].
  exists s1, [(mk_view 1 0 2, [5; 6])], s2, l2. split; [exact H1|]. split; [exact E2|]. split; [exact A|]. rewrite B.
  vm_compute in E1. injection E1 as <- <-. reflexivity.
Defined.
