(* ===== verification/HChunkString.v ===== *)
(** * Server kernel: strings of chunks

    Models [TChunkString] of [src/web/httpd/kernel/chunkstring.h]: a string kept as a list of
    non-empty chunks, with iterators over its bytes.  An iterator is a node of the list and
    an offset in its chunk; the nodes are the chunks, numbered, and the list's end.  [++] and
    [--] on nodes go around the ring.  Reading through the end node is [None].

    The theorems read a position as its offset in the whole string; every operation is the
    one on that string. *)

From Stdlib Require Import ZArith Lia Bool.
From stdpp Require Import base numbers list.
From S2P Require Import Prelude HChunks.

(** ** Iterators *)

Record TBaseIterator := mk_pos { Chunk_ : nat; IndexWithinChunk_ : Z }.

Section string.
Context (l : TChunkList).

(** [Chunk_->Length()] *)
Definition chunk_length (c : nat) : option Z := let* ch := l !! c in Some (zlen ch).

(** [++Chunk_], [--Chunk_] *)
Definition next_chunk (c : nat) : nat := if (c =? length l)%nat then 0%nat else S c.
Definition prev_chunk (c : nat) : nat := match c with O => length l | S c => c end.

(** [Next(cnt)] *)
Fixpoint Next_loop (fuel : nat) (cnt : Z) (p : TBaseIterator) : option TBaseIterator :=
  if cnt <=? 0 then Some p
  else match fuel with
  | O => None
  | S fuel =>
      let* len := chunk_length (Chunk_ p) in
      let chunkLeft := u64 (len - IndexWithinChunk_ p) in
      if chunkLeft <=? cnt then Next_loop fuel (cnt - chunkLeft) (mk_pos (next_chunk (Chunk_ p)) 0)
      else Some (mk_pos (Chunk_ p) (IndexWithinChunk_ p + cnt))
  end.

Definition NextN (cnt : Z) (p : TBaseIterator) : option TBaseIterator := Next_loop (Z.to_nat cnt) cnt p.

(** [Prev(cnt)] *)
Fixpoint Prev_loop (fuel : nat) (cnt chunkLeft : Z) (c : nat) : option (Z * Z * nat) :=
  if cnt <? chunkLeft then Some (cnt, chunkLeft, c)
  else match fuel with
  | O => None
  | S fuel =>
      let c := prev_chunk c in
      let* len := chunk_length c in
      Prev_loop fuel (cnt - chunkLeft) len c
  end.

Definition PrevN (cnt : Z) (p : TBaseIterator) : option TBaseIterator :=
  let* (cnt, chunkLeft, c) := Prev_loop (Z.to_nat cnt) cnt (IndexWithinChunk_ p + 1) (Chunk_ p) in
  if chunkLeft <? cnt then Some (mk_pos c 0) else Some (mk_pos c (chunkLeft - 1 - cnt)).

(** [Next()], [Prev()] *)
Definition Next1 (p : TBaseIterator) : option TBaseIterator :=
  let* len := chunk_length (Chunk_ p) in
  if len <=? IndexWithinChunk_ p + 1 then Some (mk_pos (next_chunk (Chunk_ p)) 0)
  else Some (mk_pos (Chunk_ p) (IndexWithinChunk_ p + 1)).

Definition Prev1 (p : TBaseIterator) : option TBaseIterator :=
  if IndexWithinChunk_ p =? 0 then
    let c := prev_chunk (Chunk_ p) in
    let* len := chunk_length c in
    Some (mk_pos c (len - 1))
  else Some (mk_pos (Chunk_ p) (IndexWithinChunk_ p - 1)).

(** [-off] of an [int]; [None] overflows. *)
Definition int_opp (off : Z) : option Z := if off =? - 2 ^ 31 then None else Some (- off).

(** [operator+=(int)], [operator-=(int)] *)
Definition advance (off : Z) (p : TBaseIterator) : option TBaseIterator :=
  if 0 <? off then NextN off p else let* off := int_opp off in PrevN off p.

Definition retreat (off : Z) (p : TBaseIterator) : option TBaseIterator :=
  if 0 <? off then PrevN off p else let* off := int_opp off in NextN off p.

(** [operator*] *)
Definition deref (p : TBaseIterator) : option Z :=
  let* c := l !! Chunk_ p in zget c (IndexWithinChunk_ p).

(** [operator==] *)
Definition same_pos (p q : TBaseIterator) : bool :=
  (Chunk_ p =? Chunk_ q)%nat && (IndexWithinChunk_ p =? IndexWithinChunk_ q).

Definition Begin : TBaseIterator := mk_pos 0 0.
Definition End : TBaseIterator := mk_pos (length l) 0.

(** ** Searching *)

(** [TCharTraits<char>::Find(data + from, c, n)], the offset of the byte.  [data] is read of the
    chunk, which the end node has none of, even when [n] is 0. *)
Fixpoint memchr (s : list Z) (c : Z) (from : Z) : option Z :=
  match s with
  | [] => None
  | ch :: s => if ch =? c then Some from else memchr s c (from + 1)
  end.

Definition find_in (node : nat) (c : Z) (from n : Z) : option (option Z) :=
  let* s := l !! node in Some (memchr (SubChunk from (from + n) s) c from).

(** The loop over the chunks behind the first one, up to the node of [end]. *)
Fixpoint find_loop (fuel : nat) (c : Z) (node end_node : nat) : option (option Z * nat) :=
  match fuel with
  | O => None
  | S fuel =>
      let node := next_chunk node in
      if (node =? end_node)%nat then Some (None, node)
      else
        let* len := chunk_length node in
        let* found := find_in node c 0 len in
        match found with
        | Some i => Some (Some i, node)
        | None => find_loop fuel c node end_node
        end
  end.

Definition FindImpl (c : Z) (b e : TBaseIterator) : option TBaseIterator :=
  if (Chunk_ b =? Chunk_ e)%nat then
    let* found := find_in (Chunk_ b) c (IndexWithinChunk_ b) (u64 (IndexWithinChunk_ e - IndexWithinChunk_ b)) in
    Some (match found with Some i => mk_pos (Chunk_ b) i | None => e end)
  else
    let* len := chunk_length (Chunk_ b) in
    let* found := find_in (Chunk_ b) c (IndexWithinChunk_ b) (u64 (len - IndexWithinChunk_ b)) in
    match found with
    | Some i => Some (mk_pos (Chunk_ b) i)
    | None =>
        let* (found, node) := find_loop (S (length l)) c (Chunk_ b) (Chunk_ e) in
        match found with
        | Some i => Some (mk_pos node i)
        | None =>
            let* found := find_in (Chunk_ e) c 0 (IndexWithinChunk_ e) in
            Some (match found with Some i => mk_pos node i | None => e end)
        end
    end.

(** ** Cutting *)

Definition CutFront (cutEnd : TBaseIterator) : option TChunkList :=
  if IndexWithinChunk_ cutEnd =? 0 then Some (drop (Chunk_ cutEnd) l)
  else
    let* c := l !! Chunk_ cutEnd in
    let newBegin := SubChunk (IndexWithinChunk_ cutEnd) (zlen c) c in
    let rest := drop (S (Chunk_ cutEnd)) l in
    Some (if 0 <? zlen newBegin then newBegin :: rest else rest).

Definition CutBack (cutBegin : TBaseIterator) : option TChunkList :=
  if IndexWithinChunk_ cutBegin =? 0 then Some (take (Chunk_ cutBegin) l)
  else
    let* c := l !! Chunk_ cutBegin in
    let newEnd := SubChunk 0 (IndexWithinChunk_ cutBegin) c in
    let rest := take (Chunk_ cutBegin) l in
    Some (if 0 <? zlen newEnd then rest ++ [newEnd] else rest).
End string.

(** [Append] *)
Fixpoint Append (l chunkList : TChunkList) : TChunkList :=
  match chunkList with
  | [] => l
  | c :: chunkList => Append (if 0 <? zlen c then l ++ [c] else l) chunkList
  end.

(** [GetData] *)
Fixpoint GetData (l : TChunkList) (dest : list Z) : list Z :=
  match l with
  | [] => dest
  | c :: l => GetData l (dest ++ c)
  end.

(** ** Comparing *)

(** The sign of [memcmp(a, b, n)]; [None] reads behind one of them. *)
Fixpoint memcmp (n : nat) (a b : list Z) : option comparison :=
  match n, a, b with
  | O, _, _ => Some Eq
  | S n, x :: a, y :: b => match x ?= y with Eq => memcmp n a b | r => Some r end
  | _, _, _ => None
  end.

Fixpoint Compare (l : TChunkList) (other : list Z) : option comparison :=
  match l with
  | [] => Some (if 0 <? zlen other then Lt else Eq)
  | c :: l =>
      if zlen other <? zlen c then
        let* r := memcmp (length other) c other in
        Some (match r with Eq => Gt | r => r end)
      else
        let* r := memcmp (length c) c other in
        match r with Eq => Compare l (drop (length c) other) | r => Some r end
  end.

Fixpoint StartsWith (l : TChunkList) (prefix : list Z) : option bool :=
  if zlen prefix =? 0 then Some true
  else match l with
  | [] => Some false
  | c :: l =>
      let len := Z.to_nat (Z.min (zlen c) (zlen prefix)) in
      let* r := memcmp len c prefix in
      match r with Eq => StartsWith l (drop len prefix) | _ => Some false end
  end.

(** ** Positions are offsets *)

(** A position of the string: inside a chunk, or its end. *)
Inductive valid (l : TChunkList) : TBaseIterator -> Prop :=
  | valid_in a c k i : l = a ++ c :: k -> 0 <= i < zlen c -> valid l (mk_pos (length a) i)
  | valid_end : valid l (End l).

Definition offset (l : TChunkList) (p : TBaseIterator) : Z := zlen (flat (take (Chunk_ p) l)) + IndexWithinChunk_ p.

Lemma offset_in l a k i : l = a ++ k -> offset l (mk_pos (length a) i) = zlen (flat a) + i.
Proof. intros ->. unfold offset. cbn. rewrite take_app_length. auto. Qed.

Lemma offset_end l : offset l (End l) = zlen (flat l).
Proof. unfold offset, End. cbn. rewrite take_ge by lia. lia. Qed.

Lemma flat_mid a (c : chunk) k : flat (a ++ c :: k) = flat a ++ c ++ flat k.
Proof. rewrite flat_app, flat_cons. auto. Qed.

Lemma valid_offset l p : valid l p -> 0 <= offset l p <= zlen (flat l).
Proof.
  intros [a c k i E Hi|].
  - rewrite (offset_in _ _ _ _ E), E, flat_mid, !zlen_app. pose proof (zlen_nonneg (flat a)). pose proof (zlen_nonneg (flat k)). lia.
  - rewrite offset_end. pose proof (zlen_nonneg (flat l)). lia.
Qed.

(** The start of a chunk, or the end behind the last one. *)
Lemma valid_start l a k : l = a ++ k -> clean k -> valid l (mk_pos (length a) 0).
Proof.
  intros -> Hc. destruct k as [|c k].
  - rewrite app_nil_r. replace (mk_pos (length a) 0) with (End a) by reflexivity. constructor.
  - econstructor; [reflexivity|]. apply Forall_cons in Hc as [Hc _]. destruct c as [|ch c]; [tauto|]. rewrite zlen_cons. pose proof (zlen_nonneg c). lia.
Qed.

Lemma chunk_length_lookup l c (ch : chunk) : l !! c = Some ch -> chunk_length l c = Some (zlen ch).
Proof. intros H. unfold chunk_length. rewrite H. auto. Qed.

Lemma chunk_length_mid l a (c : chunk) k : l = a ++ c :: k -> chunk_length l (length a) = Some (zlen c).
Proof. intros ->. unfold chunk_length. rewrite list_lookup_middle by auto. auto. Qed.

Lemma next_chunk_mid l a (c : chunk) k : l = a ++ c :: k -> next_chunk l (length a) = length (a ++ [c]).
Proof.
  intros ->. unfold next_chunk. rewrite !length_app. cbn. destruct (Nat.eqb_spec (length a) (length a + S (length k))); lia.
Qed.

Lemma clean_mid a (c : chunk) k : clean (a ++ c :: k) -> clean a /\ c <> [] /\ clean k.
Proof. rewrite Forall_app, Forall_cons. tauto. Qed.

Section offsets.
Context (l : TChunkList) (Hclean : clean l) (Hsize : zlen (flat l) < 2 ^ 64).

Lemma chunk_small a c k : l = a ++ c :: k -> zlen c < 2 ^ 64.
Proof. intros E. pose proof Hsize as H. rewrite E, flat_mid, !zlen_app in H. pose proof (zlen_nonneg (flat a)). pose proof (zlen_nonneg (flat k)). lia. Qed.

Lemma Next_loop_spec fuel cnt p : valid l p -> 0 <= cnt -> offset l p + cnt <= zlen (flat l) -> (Z.to_nat cnt <= fuel)%nat ->
  exists q, Next_loop l fuel cnt p = Some q /\ valid l q /\ offset l q = offset l p + cnt.
Proof.
  revert cnt p. induction fuel as [|fuel IH]; intros cnt p Hv Hc Ho Hf; cbn [Next_loop].
  { destruct (Z.leb_spec cnt 0); [|lia]. exists p. conj; auto. lia. }
  destruct (Z.leb_spec cnt 0); [exists p; conj; auto; lia|]. destruct Hv as [a c k i El Hi|]; [|rewrite offset_end in Ho; lia].
  cbn [Chunk_ IndexWithinChunk_]. pose proof (chunk_small _ _ _ El) as Hs.
  rewrite (chunk_length_mid _ _ _ _ El), u64_small by lia. rewrite (offset_in _ _ _ _ El) in *.
  destruct (Z.leb_spec (zlen c - i) cnt) as [Hle|Hgt].
  - rewrite (next_chunk_mid _ _ _ _ El). destruct (clean_mid a c k) as (_&_&Hk); [congruence|].
    assert (E2 : l = (a ++ [c]) ++ k) by (rewrite <- app_assoc; auto).
    assert (O2 : offset l (mk_pos (length (a ++ [c])) 0) = zlen (flat a) + zlen c) by (rewrite (offset_in _ _ _ _ E2), flat_app, flat_one, zlen_app; lia).
    destruct (IH (cnt - (zlen c - i)) (mk_pos (length (a ++ [c])) 0)) as (q&E&V&O); [eapply valid_start; eauto|lia..|].
    exists q. conj; auto. lia.
  - eexists. split; [reflexivity|]. split; [econstructor; [exact El|lia]|]. rewrite (offset_in _ _ _ _ El). lia.
Qed.

Lemma Prev_loop_spec fuel cnt left c : 0 <= cnt -> 0 < left -> (c <= length l)%nat -> (Z.to_nat cnt <= fuel)%nat ->
  (forall ch : chunk, l !! c = Some ch -> left <= zlen ch) -> (c = length l -> left = 1) ->
  cnt <= zlen (flat (take c l)) + left - 1 ->
  exists cnt' left' c', Prev_loop l fuel cnt left c = Some (cnt', left', c') /\ 0 <= cnt' < left' /\
    valid l (mk_pos c' (left' - 1 - cnt')) /\ offset l (mk_pos c' (left' - 1 - cnt')) = zlen (flat (take c l)) + left - 1 - cnt.
Proof.
  revert cnt left c. induction fuel as [|fuel IH]; intros cnt left c Hc Hl Hcl Hf Hb He Ho; cbn [Prev_loop].
  all: destruct (Z.ltb_spec cnt left); [|try lia].
  1, 2: exists cnt, left, c; split; [auto|]; split; [lia|]; split; [|unfold offset; cbn; lia];
    destruct (Nat.eq_dec c (length l)) as [->|Hn];
    [rewrite He in * by auto; replace cnt with 0 by lia; constructor|];
    destruct (lookup_lt_is_Some_2 l c ltac:(lia)) as [ch Hch]; pose proof (Hb _ Hch); apply list_elem_of_split_length in Hch as (a&k&->&->);
    econstructor; [reflexivity|lia].
  destruct c as [|c]; [change (zlen (flat (take 0 l))) with 0 in Ho; lia|]. cbv zeta. cbn [prev_chunk].
  destruct (lookup_lt_is_Some_2 l c ltac:(lia)) as [ch Hch]. rewrite (chunk_length_lookup _ _ _ Hch).
  assert (Ht : take (S c) l = take c l ++ [ch]) by (apply take_S_r; auto).
  assert (Hz : zlen (flat (take (S c) l)) = zlen (flat (take c l)) + zlen ch) by (rewrite Ht, flat_app, flat_one, zlen_app; auto).
  assert (Hpos : 0 < zlen ch).
  { apply list_elem_of_lookup_2 in Hch. rewrite Forall_forall in Hclean. pose proof (Hclean _ Hch). destruct ch; [tauto|]. rewrite zlen_cons. pose proof (zlen_nonneg ch). lia. }
  destruct (IH (cnt - left) (zlen ch) c) as (cnt'&left'&c'&E&B&V&O); [lia..| | |lia|].
  - intros ch' Hch'. rewrite Hch in Hch'. inv Hch'. lia.
  - intros ->. rewrite lookup_ge_None_2 in Hch by lia. discriminate.
  - exists cnt', left', c'. conj; auto; lia.
Qed.

(** [Next(cnt)] and [Prev(cnt)] move by [cnt] bytes. *)
Lemma NextN_spec cnt p : valid l p -> 0 <= cnt -> offset l p + cnt <= zlen (flat l) ->
  exists q, NextN l cnt p = Some q /\ valid l q /\ offset l q = offset l p + cnt.
Proof. intros. apply Next_loop_spec; auto. Qed.

Lemma PrevN_spec cnt p : valid l p -> 0 <= cnt <= offset l p ->
  exists q, PrevN l cnt p = Some q /\ valid l q /\ offset l q = offset l p - cnt.
Proof.
  intros Hv Hc. destruct (Prev_loop_spec (Z.to_nat cnt) cnt (IndexWithinChunk_ p + 1) (Chunk_ p)) as (cnt'&left'&c'&E&B&V&O); auto; try lia.
  - destruct Hv; cbn; lia.
  - destruct Hv as [a c k i -> Hi|]; cbn; [rewrite length_app|]; lia.
  - intros ch Hch. destruct Hv as [a c k i -> Hi|]; cbn in *; [rewrite list_lookup_middle in Hch by auto; inv Hch; lia|].
    rewrite lookup_ge_None_2 in Hch by lia. discriminate.
  - intros Hl. destruct Hv as [a c k i -> Hi|]; cbn in *; [rewrite length_app in Hl; cbn in Hl; lia|auto].
  - unfold offset in Hc. lia.
  - unfold PrevN. rewrite E. destruct (Z.ltb_spec left' cnt'); [lia|]. eexists. split; [reflexivity|]. split; [auto|]. rewrite O. unfold offset. lia.
Qed.

Lemma Next1_spec p : valid l p -> offset l p < zlen (flat l) -> exists q, Next1 l p = Some q /\ valid l q /\ offset l q = offset l p + 1.
Proof.
  intros [a c k i El Hi|] Ho; [|rewrite offset_end in Ho; lia]. unfold Next1. cbn. rewrite (chunk_length_mid _ _ _ _ El), (offset_in _ _ _ _ El).
  destruct (Z.leb_spec (zlen c) (i + 1)).
  - rewrite (next_chunk_mid _ _ _ _ El). destruct (clean_mid a c k) as (_&_&Hk); [congruence|].
    assert (E2 : l = (a ++ [c]) ++ k) by (rewrite <- app_assoc; auto). eexists. split; [reflexivity|].
    split; [eapply valid_start; eauto|]. rewrite (offset_in _ _ _ _ E2), flat_app, flat_one, zlen_app. lia.
  - eexists. split; [reflexivity|]. split; [econstructor; [exact El|lia]|]. rewrite (offset_in _ _ _ _ El). lia.
Qed.

Lemma Prev1_is_PrevN p : valid l p -> 0 < offset l p -> Prev1 l p = PrevN l 1 p.
Proof.
  intros Hv Ho. unfold Prev1, PrevN. change (Z.to_nat 1) with 1%nat. cbn [Prev_loop].
  destruct (Z.ltb_spec 1 (IndexWithinChunk_ p + 1)); destruct (Z.eqb_spec (IndexWithinChunk_ p) 0) as [E0|E0]; try lia.
  - destruct (Z.ltb_spec (IndexWithinChunk_ p + 1) 1); [lia|]. do 2 f_equal. lia.
  - rewrite E0. destruct (chunk_length l (prev_chunk l (Chunk_ p))) as [len|] eqn:El; [|auto]. replace (1 - (0 + 1)) with 0 by lia.
    assert (0 < len).
    { unfold chunk_length in El. destruct (l !! prev_chunk l (Chunk_ p)) as [ch|] eqn:Ech; inv El. apply list_elem_of_lookup_2 in Ech.
      rewrite Forall_forall in Hclean. pose proof (Hclean _ Ech). destruct ch; [tauto|]. rewrite zlen_cons. pose proof (zlen_nonneg ch). lia. }
    destruct (Z.ltb_spec 0 len); [|lia]. destruct (Z.ltb_spec len 0); [lia|]. do 2 f_equal. lia.
  - destruct Hv as [a c k i _ Hi|]; cbn in *; lia.
Qed.

Lemma zget_mid a c k i : l = a ++ c :: k -> 0 <= i < zlen c -> zget (flat l) (zlen (flat a) + i) = zget c i.
Proof.
  intros E Hi. rewrite E, flat_mid, zget_app_r, zget_app_l by lia. f_equal. lia.
Qed.

(** The byte under an iterator, and equal iterators. *)
Lemma deref_spec p : valid l p -> offset l p < zlen (flat l) -> deref l p = zget (flat l) (offset l p) /\ is_Some (deref l p).
Proof.
  intros [a c k i El Hi|] Ho; [|rewrite offset_end in Ho; lia]. unfold deref. cbn.
  assert (E : l !! length a = Some c) by (rewrite El; apply list_lookup_middle; auto).
  rewrite E, (offset_in _ _ _ _ El), (zget_mid _ _ _ _ El) by auto. split; [auto|].
  destruct (zget_is_Some c i Hi) as [x ->]. eauto.
Qed.

Lemma offset_inj p q : valid l p -> valid l q -> offset l p = offset l q -> p = q.
Proof.
  intros Hp Hq E. destruct Hp as [a c k i El Hi|], Hq as [a' c' k' i' El' Hi'|]; [| | |auto].
  - rewrite (offset_in _ _ _ _ El), (offset_in _ _ _ _ El') in E. rewrite El in El'. clear Hclean Hsize El.
    revert a' El' E. induction a as [|x a IH]; intros [|x' a'] El E; cbn in El; injection El as Hx Hr; subst.
    + change (zlen (flat [])) with 0 in E. f_equal. lia.
    + rewrite flat_cons, zlen_app in E. change (zlen (flat [])) with 0 in E. pose proof (zlen_nonneg (flat a')). lia.
    + rewrite flat_cons, zlen_app in E. change (zlen (flat [])) with 0 in E. pose proof (zlen_nonneg (flat a)). lia.
    + rewrite !flat_cons, !zlen_app in E. assert (F : mk_pos (length a) i = mk_pos (length a') i') by (apply IH; auto; lia). injection F as F1 F2. cbn. congruence.
  - rewrite offset_end, (offset_in _ _ _ _ El), El, flat_mid, !zlen_app in E. pose proof (zlen_nonneg (flat k)). lia.
  - rewrite offset_end, (offset_in _ _ _ _ El'), El', flat_mid, !zlen_app in E. pose proof (zlen_nonneg (flat k')). lia.
Qed.
End offsets.

(** ** Searching is searching the string *)

(** No byte [c] between two offsets. *)
Definition without_char (s : list Z) (c i j : Z) : Prop := forall k, i <= k < j -> zget s k <> Some c.

Lemma without_char_app s c i j k : without_char s c i j -> without_char s c j k -> without_char s c i k.
Proof. intros H1 H2 n Hn. destruct (Z.lt_ge_cases n j); [apply H1|apply H2]; lia. Qed.

Lemma memchr_spec s c from : match memchr s c from with
  | Some i => from <= i < from + zlen s /\ zget s (i - from) = Some c /\ without_char s c 0 (i - from)
  | None => without_char s c 0 (zlen s)
  end.
Proof.
  revert from. induction s as [|ch s IH]; intros from; cbn [memchr]; [intros k Hk; change (zlen (@nil Z)) with 0 in Hk; lia|].
  rewrite zlen_cons. pose proof (zlen_nonneg s). destruct (Z.eqb_spec ch c) as [->|Hn].
  - rewrite Z.sub_diag. split; [lia|]. split; [reflexivity|]. intros k Hk. lia.
  - assert (Hs : forall k, 0 < k -> zget (ch :: s) k = zget s (k - 1)) by (intros; apply zget_cons_pos; lia).
    specialize (IH (from + 1)). destruct (memchr s c (from + 1)) as [i|].
    + destruct IH as (I1&I2&I3). split; [lia|]. split; [rewrite Hs by lia; rewrite <- I2; f_equal; lia|].
      intros k Hk. destruct (Z.eq_dec k 0) as [->|]; [rewrite zget_cons_0; congruence|]. rewrite Hs by lia. apply I3. lia.
    + intros k Hk. destruct (Z.eq_dec k 0) as [->|]; [rewrite zget_cons_0; congruence|]. rewrite Hs by lia. apply IH. lia.
Qed.

Lemma zget_drop_take (s : list Z) from n k : 0 <= from -> 0 <= k < n -> zget (SubChunk from (from + n) s) k = zget s (from + k).
Proof.
  intros Hf Hk. unfold SubChunk, zget. rewrite (proj2 (Z.leb_le 0 k)), (proj2 (Z.leb_le 0 (from + k))) by lia.
  rewrite lookup_take_lt by lia. rewrite lookup_drop. f_equal. lia.
Qed.

Section search.
Context (l : TChunkList) (Hclean : clean l) (Hsize : zlen (flat l) < 2 ^ 64) (c : Z).

Lemma find_in_spec a s k from n : l = a ++ s :: k -> 0 <= from -> 0 <= n -> from + n <= zlen s ->
  exists r, find_in l (length a) c from n = Some r /\ match r with
  | Some i => from <= i < from + n /\ zget (flat l) (zlen (flat a) + i) = Some c /\ without_char (flat l) c (zlen (flat a) + from) (zlen (flat a) + i)
  | None => without_char (flat l) c (zlen (flat a) + from) (zlen (flat a) + from + n)
  end.
Proof.
  intros El Hf Hn Hl. unfold find_in.
  assert (E : l !! length a = Some s) by (rewrite El; apply list_lookup_middle; auto). rewrite E. eexists. split; [reflexivity|].
  pose proof (memchr_spec (SubChunk from (from + n) s) c from) as Hm.
  assert (Hz : zlen (SubChunk from (from + n) s) = n).
  { unfold zlen, SubChunk in *. rewrite length_take, length_drop. lia. }
  rewrite Hz in Hm. destruct (memchr (SubChunk from (from + n) s) c from) as [i|].
  - destruct Hm as (M1&M2&M3). split; [auto|]. rewrite (zget_mid _ _ _ _ _ El) by lia.
    rewrite zget_drop_take in M2 by lia. split; [rewrite <- M2; f_equal; lia|]. intros j Hj.
    specialize (M3 (j - zlen (flat a) - from) ltac:(lia)). rewrite zget_drop_take in M3 by lia.
    replace j with (zlen (flat a) + (j - zlen (flat a))) by lia. rewrite (zget_mid _ _ _ _ _ El) by lia. intros F. apply M3. rewrite <- F. f_equal. lia.
  - intros j Hj. specialize (Hm (j - zlen (flat a) - from) ltac:(lia)). rewrite zget_drop_take in Hm by lia.
    replace j with (zlen (flat a) + (j - zlen (flat a))) by lia. rewrite (zget_mid _ _ _ _ _ El) by lia. intros F. apply Hm. rewrite <- F. f_equal. lia.
Qed.

(** The loop, with the chunks [m] in between the two nodes. *)
Lemma find_loop_spec fuel a s m k : l = a ++ s :: m ++ k -> (length m < fuel)%nat ->
  exists r node, find_loop l fuel c (length a) (length (a ++ s :: m)) = Some (r, node) /\ match r with
  | Some i => valid l (mk_pos node i) /\ offset l (mk_pos node i) < zlen (flat (a ++ s :: m)) /\ zlen (flat (a ++ [s])) <= offset l (mk_pos node i) /\
      zget (flat l) (offset l (mk_pos node i)) = Some c /\ without_char (flat l) c (zlen (flat (a ++ [s]))) (offset l (mk_pos node i))
  | None => node = length (a ++ s :: m) /\ without_char (flat l) c (zlen (flat (a ++ [s]))) (zlen (flat (a ++ s :: m)))
  end.
Proof.
  revert a s m. induction fuel as [|fuel IH]; intros a s m El Hf; [lia|]. cbn [find_loop]. rewrite (next_chunk_mid _ _ _ _ El).
  destruct m as [|s' m].
  - rewrite Nat.eqb_refl. eexists _, _. split; [reflexivity|]. split; [auto|]. intros j Hj. lia.
  - assert (E2 : l = (a ++ [s]) ++ s' :: m ++ k) by (rewrite <- app_assoc; auto).
    destruct (Nat.eqb_spec (length (a ++ [s])) (length (a ++ s :: s' :: m))) as [F|_]; [rewrite !length_app in F; cbn in F; lia|].
    rewrite (chunk_length_mid _ _ _ _ E2). destruct (find_in_spec (a ++ [s]) s' (m ++ k) 0 (zlen s') E2) as (r&->&Hr); [pose proof (zlen_nonneg s'); lia..|].
    assert (E3 : a ++ s :: s' :: m = (a ++ [s]) ++ s' :: m) by (rewrite <- app_assoc; auto).
    assert (Z1 : zlen (flat (a ++ s :: s' :: m)) = zlen (flat (a ++ [s])) + zlen s' + zlen (flat m)) by (rewrite E3, flat_mid, !zlen_app; lia).
    rewrite Z.add_0_r in Hr. pose proof (zlen_nonneg (flat m)). pose proof (zlen_nonneg s'). destruct r as [i|].
    + destruct Hr as (R1&R2&R3). exists (Some i), (length (a ++ [s])). split; [reflexivity|]. cbv beta iota. rewrite (offset_in _ _ _ _ E2). conj; auto; try lia. econstructor; [exact E2|lia].
    + destruct (IH (a ++ [s]) s' m) as (r&node&E&G); [auto|cbn in Hf; lia|]. rewrite E3, E. eexists _, _. split; [reflexivity|].
      assert (Z2 : zlen (flat ((a ++ [s]) ++ [s'])) = zlen (flat (a ++ [s])) + zlen s') by (rewrite (flat_app (a ++ [s])), flat_one, zlen_app; auto).
      rewrite Z2 in G. destruct r as [i|].
      * destruct G as (G1&G2&G3&G4&G5). conj; auto; [lia|]. eapply without_char_app; eauto.
      * destruct G as (G1&G2). split; [auto|]. eapply without_char_app; eauto.
Qed.

Definition found_at (b e r : TBaseIterator) : Prop :=
  valid l r /\ offset l b <= offset l r <= offset l e /\ without_char (flat l) c (offset l b) (offset l r) /\
  (offset l r < offset l e -> zget (flat l) (offset l r) = Some c).

(** A position at or behind another one is in the same chunk or in a later one. *)
Lemma later a s k i e : l = a ++ s :: k -> 0 <= i < zlen s -> valid l e -> zlen (flat a) + i <= offset l e ->
  (Chunk_ e = length a /\ i <= IndexWithinChunk_ e < zlen s) \/
  exists m k', k = m ++ k' /\ Chunk_ e = length (a ++ s :: m) /\ (IndexWithinChunk_ e = 0 \/ exists s' k'', k' = s' :: k'' /\ 0 <= IndexWithinChunk_ e < zlen s').
Proof.
  intros El Hi Hv Ho. destruct Hv as [a' s' k' i' El' Hi'|]; cbn [Chunk_ IndexWithinChunk_].
  - rewrite (offset_in _ _ _ _ El') in Ho. rewrite El in El'.
    apply app_eq_inv in El' as [(x&E1&E2)|(x&E1&E2)]; (destruct x as [|y x]; [rewrite app_nil_r in E1; subst a'; inv E2; left; split; [auto|lia]|]).
    + exfalso. injection E2 as E2 E3. subst a s'. rewrite flat_mid, !zlen_app in Ho. pose proof (zlen_nonneg (flat x)). lia.
    + right. injection E2 as E2 E3. subst y. exists x, (s' :: k'). subst a'. conj; auto. right. exists s', k'. auto.
  - right. exists k, []. rewrite app_nil_r, El. auto.
Qed.

(** The search ends with a place, or reads through the end node when the range ends there and
    the byte is not in it. *)
Definition search_result (b e : TBaseIterator) (r : option TBaseIterator) : Prop :=
  match r with
  | Some r => found_at b e r /\ (e = End l -> offset l r < offset l e)
  | None => e = End l /\ without_char (flat l) c (offset l b) (offset l e)
  end.

Lemma FindImpl_spec b e : valid l b -> valid l e -> offset l b <= offset l e -> search_result b e (FindImpl l c b e).
Proof.
  intros Hb He Ho. unfold FindImpl, search_result, found_at. destruct Hb as [a s k i El Hi|].
  2:{ assert (e = End l) as -> by (apply (offset_inj l); auto; [constructor|pose proof (valid_offset _ _ He); rewrite offset_end in *; lia]).
      rewrite Nat.eqb_refl. unfold find_in. cbn [Chunk_ End]. rewrite lookup_ge_None_2 by lia. split; [auto|]. intros j Hj. lia. }
  cbn [Chunk_ IndexWithinChunk_]. pose proof (chunk_small _ Hsize _ _ _ El) as Hs. rewrite (offset_in _ _ _ _ El) in *.
  destruct (later a s k i e El Hi He Ho) as [[Ec Ei]|(m&k'&->&Ec&Ei)].
  - rewrite Ec, Nat.eqb_refl, u64_small by lia. destruct (find_in_spec a s k i (IndexWithinChunk_ e - i) El) as (r&->&Hr); [lia..|].
    assert (Oe : offset l e = zlen (flat a) + IndexWithinChunk_ e) by (rewrite <- (offset_in _ _ _ _ El); destruct e; cbn in *; subst; auto).
    assert (Hend : e <> End l) by (intros ->; cbn in Ec; rewrite El, length_app in Ec; cbn in Ec; lia).
    destruct r as [j|]; (split; [|tauto]).
    + rewrite (offset_in _ _ _ _ El), Oe. destruct Hr as (R1&R2&R3). conj; auto; try lia. econstructor; [exact El|lia].
    + rewrite Oe. conj; auto; try lia. replace (zlen (flat a) + IndexWithinChunk_ e) with (zlen (flat a) + i + (IndexWithinChunk_ e - i)) by lia. auto.
  - rewrite Ec. destruct (Nat.eqb_spec (length a) (length (a ++ s :: m))) as [F|_]; [rewrite length_app in F; cbn in F; lia|].
    rewrite (chunk_length_mid _ _ _ _ El), u64_small by lia.
    assert (E2 : l = (a ++ s :: m) ++ k') by (rewrite <- app_assoc; auto).
    assert (Oe : offset l e = zlen (flat (a ++ s :: m)) + IndexWithinChunk_ e) by (rewrite <- (offset_in _ _ _ _ E2); destruct e; cbn in *; subst; auto).
    assert (Z1 : zlen (flat (a ++ s :: m)) = zlen (flat a) + zlen s + zlen (flat m)) by (rewrite flat_mid, !zlen_app; lia).
    assert (Z2 : zlen (flat (a ++ [s])) = zlen (flat a) + zlen s) by (rewrite flat_app, flat_one, zlen_app; auto).
    pose proof (zlen_nonneg (flat m)). assert (0 <= IndexWithinChunk_ e) by (destruct Ei as [->|(?&?&?&?)]; lia).
    destruct (find_in_spec a s (m ++ k') i (zlen s - i) El) as (r&->&Hr); [lia..|].
    destruct r as [j|].
    { destruct Hr as (R1&R2&R3). rewrite (offset_in _ _ _ _ El). conj; auto; try lia. econstructor; [exact El|lia]. }
    replace (zlen (flat a) + i + (zlen s - i)) with (zlen (flat (a ++ [s]))) in Hr by lia.
    destruct (find_loop_spec (S (length l)) a s m k' El) as (r&node&->&G); [rewrite E2, !length_app; cbn; lia|].
    destruct r as [j|].
    { destruct G as (G1&G2&G3&G4&G5). conj; auto; try lia. eapply without_char_app; eauto. }
    destruct G as (->&G2). assert (Hw : without_char (flat l) c (zlen (flat a) + i) (zlen (flat (a ++ s :: m)))) by (eapply without_char_app; eauto).
    destruct k' as [|s' k''].
    { assert (Hl : l !! length (a ++ s :: m) = None) by (rewrite E2, app_nil_r; apply lookup_ge_None_2; lia).
      assert (E0 : IndexWithinChunk_ e = 0) by (destruct Ei as [E0|(?&?&?&_)]; [exact E0|discriminate]).
      unfold find_in. rewrite Hl. split; [|rewrite Oe, E0, Z.add_0_r; exact Hw]. rewrite E2, app_nil_r. destruct e. cbn in *. unfold End. congruence. }
    assert (Hend : e <> End l) by (intros ->; cbn in Ec; rewrite E2, (length_app (a ++ s :: m)) in Ec; cbn in Ec; lia).
    assert (E0 : 0 <= IndexWithinChunk_ e <= zlen s') by (destruct Ei as [->|(?&?&Ek&?)]; [pose proof (zlen_nonneg s'); lia|injection Ek as <- <-; lia]).
    destruct (find_in_spec (a ++ s :: m) s' k'' 0 (IndexWithinChunk_ e) E2) as (r&->&Hr'); [lia..|]. rewrite Z.add_0_r in Hr'.
    destruct r as [j|]; (split; [|tauto]).
    + destruct Hr' as (R1&R2&R3). rewrite (offset_in _ _ _ _ E2), Oe. conj; auto; try lia; [econstructor; [exact E2|lia]|]. eapply without_char_app; eauto.
    + rewrite Oe. conj; auto; try lia. eapply without_char_app; eauto.
Qed.
End search.

(** ** Cutting is cutting the string *)

Lemma take_mid a (c : list Z) k n : 0 <= n <= zlen c -> take (Z.to_nat (zlen (flat a) + n)) (flat (a ++ c :: k)) = flat a ++ take (Z.to_nat n) c.
Proof.
  intros Hn. rewrite flat_mid. unfold zlen in *. rewrite take_app_ge by lia. f_equal.
  replace (Z.to_nat (Z.of_nat (length (flat a)) + n) - length (flat a))%nat with (Z.to_nat n) by lia. apply take_app_le. lia.
Qed.

Lemma drop_mid a (c : list Z) k n : 0 <= n <= zlen c -> drop (Z.to_nat (zlen (flat a) + n)) (flat (a ++ c :: k)) = drop (Z.to_nat n) c ++ flat k.
Proof.
  intros Hn. rewrite flat_mid. unfold zlen in *. rewrite drop_app_ge by lia.
  replace (Z.to_nat (Z.of_nat (length (flat a)) + n) - length (flat a))%nat with (Z.to_nat n) by lia. apply drop_app_le. lia.
Qed.

Lemma take_full (l : list Z) : take (Z.to_nat (zlen l)) l = l.
Proof. apply take_ge. unfold zlen. lia. Qed.

Lemma drop_full (l : list Z) : drop (Z.to_nat (zlen l)) l = [].
Proof. apply drop_ge. unfold zlen. lia. Qed.

Lemma CutFront_spec l p : clean l -> valid l p -> exists l', CutFront l p = Some l' /\ flat l' = drop (Z.to_nat (offset l p)) (flat l) /\ clean l'.
Proof.
  intros Hc [a c k i -> Hi|]; unfold CutFront.
  - cbn [Chunk_ IndexWithinChunk_]. rewrite (offset_in _ _ _ _ eq_refl), drop_mid by lia. destruct (clean_mid _ _ _ Hc) as (_&H1&H2).
    destruct (Z.eqb_spec i 0) as [->|Hn].
    + rewrite drop_app_length. eexists. split; [reflexivity|]. split; [reflexivity|]. constructor; auto.
    + rewrite list_lookup_middle by auto. replace (S (length a)) with (length (a ++ [c])) by (rewrite length_app; cbn; lia).
      replace (a ++ c :: k) with ((a ++ [c]) ++ k) by (rewrite <- app_assoc; auto). rewrite drop_app_length, SubChunk_suffix by lia.
      assert (Hz : zlen (drop (Z.to_nat i) c) = zlen c - i) by (unfold zlen in *; rewrite length_drop; lia).
      rewrite Hz. destruct (Z.ltb_spec 0 (zlen c - i)); [|lia]. eexists. split; [reflexivity|]. split; [reflexivity|].
      constructor; [|auto]. intros F. rewrite F in Hz. change (zlen (@nil Z)) with 0 in Hz. lia.
  - rewrite offset_end, drop_full. cbn. rewrite drop_ge by lia. eexists. split; [reflexivity|]. split; [reflexivity|constructor].
Qed.

Lemma CutBack_spec l p : clean l -> valid l p -> exists l', CutBack l p = Some l' /\ flat l' = take (Z.to_nat (offset l p)) (flat l) /\ clean l'.
Proof.
  intros Hc [a c k i -> Hi|]; unfold CutBack.
  - cbn [Chunk_ IndexWithinChunk_]. rewrite (offset_in _ _ _ _ eq_refl), take_mid by lia. destruct (clean_mid _ _ _ Hc) as (H0&H1&H2).
    rewrite take_app_length. destruct (Z.eqb_spec i 0) as [->|Hn].
    + eexists. split; [reflexivity|]. rewrite take_0, app_nil_r. auto.
    + rewrite list_lookup_middle by auto. rewrite SubChunk_prefix.
      assert (Hz : zlen (take (Z.to_nat i) c) = i) by (unfold zlen in *; rewrite length_take; lia).
      rewrite Hz. destruct (Z.ltb_spec 0 i); [|lia]. eexists. split; [reflexivity|]. rewrite flat_app, flat_one. split; [reflexivity|].
      apply Forall_app. split; [auto|]. constructor; [|auto]. intros F. rewrite F in Hz. change (zlen (@nil Z)) with 0 in Hz. lia.
  - rewrite offset_end, take_full. cbn. rewrite take_ge by lia. eexists. split; [reflexivity|]. auto.
Qed.

Lemma Append_spec l k : clean l -> flat (Append l k) = flat l ++ flat k /\ clean (Append l k).
Proof.
  revert l. induction k as [|c k IH]; intros l Hl; cbn [Append]; [rewrite app_nil_r; auto|]. rewrite flat_cons.
  destruct (Z.ltb_spec 0 (zlen c)) as [H|H].
  - destruct (IH (l ++ [c])) as [E Hc]; [apply Forall_app; split; [auto|]; constructor; [|auto]; intros ->; change (zlen (@nil Z)) with 0 in H; lia|].
    rewrite E, flat_app, flat_one, <- app_assoc. auto.
  - assert (c = []) as -> by (apply zlen_0; pose proof (zlen_nonneg c); lia). apply IH. auto.
Qed.

Lemma GetData_spec l dest : GetData l dest = dest ++ flat l.
Proof. revert dest. induction l as [|c l IH]; intros dest; cbn; [rewrite app_nil_r; auto|]. rewrite IH, flat_cons, <- app_assoc. auto. Qed.

(** ** Comparing is comparing the string *)

(** The lexicographic order of byte strings. *)
Fixpoint lex (a b : list Z) : comparison :=
  match a, b with
  | [], [] => Eq
  | [], _ :: _ => Lt
  | _ :: _, [] => Gt
  | x :: a, y :: b => match x ?= y with Eq => lex a b | r => r end
  end.

Lemma memcmp_lex n a b : (n <= length a)%nat -> (n <= length b)%nat -> memcmp n a b = Some (lex (take n a) (take n b)).
Proof.
  revert a b. induction n as [|n IH]; intros [|x a] [|y b] Ha Hb; cbn in *; try lia; auto.
  destruct (x ?= y); auto. apply IH; lia.
Qed.

Lemma lex_app a b a' b' : length a = length b -> lex (a ++ a') (b ++ b') = match lex a b with Eq => lex a' b' | r => r end.
Proof. revert b. induction a as [|x a IH]; intros [|y b] H; cbn in *; try lia; [auto|]. destruct (x ?= y); auto. Qed.

Lemma lex_longer a b : b <> [] -> lex (a ++ b) a = Gt.
Proof. intros Hb. induction a as [|x a IH]; cbn; [destruct b; [tauto|auto]|]. rewrite Z.compare_refl. auto. Qed.

Lemma lex_eq a b : lex a b = Eq <-> a = b.
Proof.
  revert b. induction a as [|x a IH]; intros [|y b]; cbn; split; try discriminate; auto.
  - destruct (x ?= y) eqn:E; try discriminate. apply Z.compare_eq in E. intros H. apply IH in H. congruence.
  - intros H. inv H. rewrite Z.compare_refl. apply IH. auto.
Qed.

Lemma Compare_spec l other : Compare l other = Some (lex (flat l) other).
Proof.
  revert other. induction l as [|c l IH]; intros other; cbn [Compare].
  - destruct other; reflexivity.
  - rewrite flat_cons. destruct (Z.ltb_spec (zlen other) (zlen c)) as [H|H]; unfold zlen in H.
    + rewrite memcmp_lex, (take_ge other) by lia.
      pose proof (lex_app (take (length other) c) other (drop (length other) c ++ flat l) [] ltac:(rewrite length_take; lia)) as L.
      rewrite app_nil_r, app_assoc, take_drop in L. rewrite L. destruct (lex (take (length other) c) other); auto.
      destruct (drop (length other) c ++ flat l) eqn:E; [|auto]. apply (f_equal length) in E. rewrite length_app, length_drop in E. cbn in E. lia.
    + rewrite memcmp_lex, (take_ge c) by lia.
      pose proof (lex_app c (take (length c) other) (flat l) (drop (length c) other) ltac:(rewrite length_take; lia)) as L.
      rewrite take_drop in L. rewrite L. destruct (lex c (take (length c) other)); auto.
Qed.

Lemma prefix_min (c s p : list Z) n : n = Nat.min (length c) (length p) ->
  p `prefix_of` c ++ s <-> take n c = take n p /\ drop n p `prefix_of` s.
Proof.
  intros ->. destruct (Nat.le_ge_cases (length c) (length p)) as [H|H].
  - rewrite Nat.min_l, (take_ge c) by lia. split.
    + intros [k E]. rewrite <- (take_drop (length c) p), <- app_assoc in E. apply app_inj_1 in E as [E1 E2]; [|rewrite length_take; lia].
      split; [auto|]. exists k. auto.
    + intros [E [k ->]]. exists k. rewrite app_assoc. f_equal. transitivity (take (length c) p ++ drop (length c) p); [congruence|apply take_drop].
  - rewrite Nat.min_r, (take_ge p), (drop_ge p) by lia. split.
    + intros [k E]. split; [|apply prefix_nil]. apply (f_equal (take (length p))) in E. rewrite take_app_length, take_app_le in E by lia. auto.
    + intros [E _]. exists (drop (length p) c ++ s). rewrite <- E at 1. rewrite app_assoc, take_drop. auto.
Qed.

Lemma StartsWith_spec l prefix : StartsWith l prefix = Some (bool_decide (prefix `prefix_of` flat l)).
Proof.
  revert prefix. induction l as [|c l IH]; intros prefix; cbn [StartsWith]; (destruct (Z.eqb_spec (zlen prefix) 0) as [E|E];
    [apply zlen_0 in E as ->; rewrite bool_decide_true by apply prefix_nil; auto|]).
  - rewrite bool_decide_false; [auto|]. intros F. apply prefix_nil_inv in F. subst. auto.
  - rewrite flat_cons. set (len := Z.to_nat (Z.min (zlen c) (zlen prefix))).
    assert (Hlen : len = Nat.min (length c) (length prefix)) by (subst len; unfold zlen; lia). clearbody len.
    rewrite memcmp_lex by lia. pose proof (prefix_min c (flat l) prefix len Hlen) as Hp.
    destruct (lex (take len c) (take len prefix)) eqn:El.
    + apply lex_eq in El. rewrite IH. f_equal. apply bool_decide_ext. tauto.
    + rewrite bool_decide_false; [auto|]. rewrite Hp. intros [F _]. apply lex_eq in F. congruence.
    + rewrite bool_decide_false; [auto|]. rewrite Hp. intros [F _]. apply lex_eq in F. congruence.
Qed.
