(* ===== verification/LTheorems.v ===== *)
(** * Intrusive lists and strings of chunks: the properties *)

From Stdlib Require Import ZArith Lia Bool Sorted.
From stdpp Require Import base numbers list gmap fin_maps sorting.
From S2P Require Import Prelude LList LWorld LSort HChunks HChunkString.

(** ** Lists *)

(** C25: whatever lists and items a client has made, linked, moved, cut and destroyed, the
    next call it may make reads and writes only items that exist, ends, and does on pointers
    what its counterpart does on the lists: all the lists of the store are rings through
    exactly their items afterwards, and the result is the first or the last item. *)
Theorem intrusive_lists_refine (fuel : nat) (h : store) (W : lists) (c : call) :
  reached fuel h W -> allowed c W -> (forall e l, W !! e = Some l -> (length l <= fuel)%nat) ->
  exists r h', run_call fuel c h = Some (r, h') /\ result_ok c r W /\ reached fuel h' (after_call c r W) /\
    forall e l, after_call c r W !! e = Some l -> ring h' e l.
Proof.
  intros Hr Ha Hf. destruct (call_world fuel c h W (reached_world _ _ _ Hr) Ha Hf) as (r&h'&E&Hok&Hw).
  exists r, h'. conj; auto; [eapply reached_call; eauto|apply Hw].
Qed.

Lemma intrusive_lists_refine_witness :
  exists h W r h', reached 5 h W /\ run_call 5 (CPushBack 1 2) h = Some (r, h') /\ after_call (CPushBack 1 2) r W !! 1%positive = Some [2%positive] /\ ring h' 1 [2%positive].
Proof.
  assert (H0 : reached 5 ∅ ∅) by constructor.
  assert (H1 : reached 5 (new_item 1 ∅) (<[1%positive := []]> ∅))
    by (apply (reached_call 5 ∅ ∅ CNew (Some 1%positive)); [exact H0|exact Logic.I|intros e l F; rewrite lookup_empty in F; discriminate|vm_compute; reflexivity]).
  assert (H2 : reached 5 (new_item 2 (new_item 1 ∅)) (<[2%positive := []]> (<[1%positive := []]> ∅))).
  { apply (reached_call 5 (new_item 1 ∅) (<[1%positive := []]> ∅) CNew (Some 2%positive)); [exact H1|exact Logic.I| |vm_compute; reflexivity].
    intros e l F. lookups; [cbn; lia|rewrite lookup_empty in F; discriminate]. }
  destruct (intrusive_lists_refine 5 _ _ (CPushBack 1 2) H2) as (r&h'&E&_&_&R).
  - cbn [allowed]. conj; [left; reflexivity|exists 1%positive, []; split; [reflexivity|set_solver]|discriminate].
  - intros e l F. lookups; [cbn; lia|cbn; lia|rewrite lookup_empty in F; discriminate].
  - eexists _, _, r, h'. split; [exact H2|]. split; [exact E|]. split; [reflexivity|]. apply R. reflexivity.
Defined.

(** C26: sorting ends, keeps the items of the list and every other list, and for a strict
    order leaves the list sorted. *)
Theorem quicksort_sorts (f : loc -> loc -> bool) (fuel : nat) (h : store) (W : lists) (e : loc) (l : list loc) :
  world h W -> W !! e = Some l -> (length l < fuel)%nat ->
  exists h' l', QuickSort f fuel e h = Some h' /\ world h' (<[e := l']> W) /\ l' ≡ₚ l /\
    ((forall x y z, f x y = true -> f y z = true -> f x z = true) -> (forall x y, f x y = true -> f y x = false) -> StronglySorted (in_order f) l').
Proof. apply quicksort_world. Qed.

Definition example_items : list loc := [5%positive; 2%positive; 4%positive; 3%positive].

Definition example_ring : store :=
  {[ 1%positive := mk_item 5 3; 5%positive := mk_item 2 1; 2%positive := mk_item 4 5; 4%positive := mk_item 3 2; 3%positive := mk_item 1 4 ]}.

Lemma example_world : world example_ring {[ 1%positive := example_items ]}.
Proof.
  split.
  - intros e l E. apply lookup_singleton_Some in E as [<- <-]. split; [|vm_compute; tauto].
    apply (proj1 (bool_decide_eq_true _)). vm_compute. reflexivity.
  - intros e l e' l' E E'. apply lookup_singleton_Some in E as [<- <-], E' as [<- _]. apply (proj1 (bool_decide_eq_true _)). vm_compute. reflexivity.
Qed.

Lemma quicksort_sorts_witness :
  exists h' l', QuickSort Pos.ltb 10 1 example_ring = Some h' /\ ring h' 1 l' /\ l' ≡ₚ example_items /\ StronglySorted (in_order Pos.ltb) l'.
Proof.
  destruct (quicksort_sorts Pos.ltb 10 example_ring {[ 1%positive := example_items ]} 1 example_items example_world) as (h'&l'&E&Hw&Hp&Hs).
  - reflexivity.
  - vm_compute. lia.
  - exists h', l'. split; [exact E|]. split; [apply Hw; apply lookup_insert_eq|]. split; [exact Hp|]. apply Hs.
    + intros x y z. rewrite !Pos.ltb_lt. lia.
    + intros x y. rewrite Pos.ltb_lt, Pos.ltb_ge. lia.
Defined.

(** C27: walking over a list with a function that destroys some of the items it is given
    calls it once for every item, in order, and leaves the others. *)
Theorem for_each_survives_deletion (fuel : nat) (p : loc -> bool) (h : store) (W : lists) (e : loc) (l : list loc) :
  world h W -> W !! e = Some l -> (length l <= fuel)%nat ->
  exists h', ForEach fuel (visit p) e [] h = Some (l, h') /\ world h' (<[e := keep p l]> W) /\
    forall x, x ∈ l -> p x = true -> known x (<[e := keep p l]> W) -> False.
Proof.
  intros HW E Hf. unfold ForEach, LList.Begin. destruct (ring_end h e l) as [_ Hb]; [apply HW; auto|]. rewrite Hb.
  destruct (for_each_visit fuel p e [] l [] h W HW E Hf) as (h'&R&H). exists h'. split; [exact R|]. split; [exact H|].
  intros x Hx Hp (e0&l0&F&Hin). lookups.
  - apply elem_of_cons in Hin as [->|Hin].
    + eapply (world_head _ _ HW); [exact E|exact E|exact Hx].
    + unfold keep in Hin. apply list_elem_of_filter in Hin as [Hin _]. congruence.
  - eapply (world_apart _ _ HW _ _ _ _ E F); [auto| |exact Hin]. set_solver.
Qed.

Lemma for_each_survives_deletion_witness :
  exists h', ForEach 10 (visit (Pos.ltb 3)) 1 [] example_ring = Some (example_items, h') /\ ring h' 1 [2%positive; 3%positive].
Proof.
  destruct (for_each_survives_deletion 10 (Pos.ltb 3) example_ring {[ 1%positive := example_items ]} 1 example_items example_world) as (h'&E&Hw&_).
  - reflexivity.
  - vm_compute. lia.
  - exists h'. split; [exact E|]. apply Hw. rewrite lookup_insert_eq. vm_compute. reflexivity.
Defined.

(** ** Strings of chunks *)

(** C28: a string kept in chunks is the string of their bytes: positions are offsets of it,
    stepping any number of bytes forward or back moves the offset, by [int] steps as long as
    their opposite is an [int], reading gives the byte there, cutting at a position cuts the
    bytes there, and comparisons compare the bytes.  Searching gives the first place of a byte,
    or the end of the range; but when the range ends at the end of the string and the byte is
    not in it, and only then, the search reads through the end node, which is no chunk. *)
Theorem chunk_string_is_string (l : TChunkList) (p e : TBaseIterator) (n ch : Z) (other : list Z) :
  clean l -> zlen (flat l) < 2 ^ 64 -> valid l p -> valid l e ->
  (same_pos p e = true <-> offset l p = offset l e) /\
  (0 <= n -> offset l p + n <= zlen (flat l) -> exists q, NextN l n p = Some q /\ valid l q /\ offset l q = offset l p + n) /\
  (0 <= n <= offset l p -> exists q, PrevN l n p = Some q /\ valid l q /\ offset l q = offset l p - n) /\
  (- 2 ^ 31 < n < 2 ^ 31 -> 0 <= offset l p + n <= zlen (flat l) -> exists q, advance l n p = Some q /\ valid l q /\ offset l q = offset l p + n) /\
  (- 2 ^ 31 < n < 2 ^ 31 -> 0 <= offset l p - n <= zlen (flat l) -> exists q, retreat l n p = Some q /\ valid l q /\ offset l q = offset l p - n) /\
  (offset l p < zlen (flat l) -> deref l p = zget (flat l) (offset l p) /\ is_Some (deref l p)) /\
  (offset l p <= offset l e ->
     match FindImpl l ch p e with
     | Some r => found_at l ch p e r /\ (e = End l -> offset l r < offset l e)
     | None => e = End l /\ without_char (flat l) ch (offset l p) (offset l e)
     end) /\
  (exists l', CutFront l p = Some l' /\ flat l' = drop (Z.to_nat (offset l p)) (flat l) /\ clean l') /\
  (exists l', CutBack l p = Some l' /\ flat l' = take (Z.to_nat (offset l p)) (flat l) /\ clean l') /\
  Compare l other = Some (lex (flat l) other) /\
  StartsWith l other = Some (bool_decide (other `prefix_of` flat l)).
Proof.
  intros Hc Hs Hp He.
  assert (Ho : forall m, - 2 ^ 31 < m -> int_opp m = Some (- m)) by (intros m Hm; unfold int_opp; destruct (Z.eqb_spec m (- 2 ^ 31)); [lia|auto]).
  assert (Hnext : forall m, 0 <= m -> offset l p + m <= zlen (flat l) -> exists q, NextN l m p = Some q /\ valid l q /\ offset l q = offset l p + m) by (intros; apply NextN_spec; auto).
  assert (Hprev : forall m, 0 <= m <= offset l p -> exists q, PrevN l m p = Some q /\ valid l q /\ offset l q = offset l p - m) by (intros; apply PrevN_spec; auto).
  split; [|split; [apply Hnext|split; [apply Hprev|]]]; [|conj].
  - unfold same_pos. rewrite andb_true_iff, Nat.eqb_eq, Z.eqb_eq. split; [destruct p, e; cbn; intros [-> ->]; auto|].
    intros E. apply (offset_inj l) in E; auto. subst. auto.
  - intros Hi Hn. unfold advance. destruct (Z.ltb_spec 0 n); [apply Hnext; lia|]. rewrite Ho by lia. cbn.
    destruct (Hprev (- n)) as (q&E&V&Eo); [lia|]. exists q. conj; auto. lia.
  - intros Hi Hn. unfold retreat. destruct (Z.ltb_spec 0 n); [apply Hprev; lia|]. rewrite Ho by lia. cbn.
    destruct (Hnext (- n)) as (q&E&V&Eo); [lia..|]. exists q. conj; auto; lia.
  - apply deref_spec; auto.
  - intros Hle. exact (FindImpl_spec l Hc Hs ch p e Hp He Hle).
  - apply CutFront_spec; auto.
  - apply CutBack_spec; auto.
  - apply Compare_spec.
  - apply StartsWith_spec.
Qed.

Definition example_string : TChunkList := [[104; 101]; [108]; [108; 111; 33]].

(** The "o" of "hello!" is found, and an "x" is looked for behind the end. *)
Lemma chunk_string_is_string_witness :
  (exists q, advance example_string 3 (mk_pos 0 1) = Some q /\ offset example_string q = 4) /\
  (exists r, FindImpl example_string 111 (mk_pos 0 1) (End example_string) = Some r /\ offset example_string r = 4) /\
  (FindImpl example_string 120 (mk_pos 0 1) (End example_string) = None /\ without_char (flat example_string) 120 1 6).
Proof.
  assert (Hv : valid example_string (mk_pos 0 1)) by (apply (valid_in _ [] [104; 101] [[108]; [108; 111; 33]] 1); [reflexivity|vm_compute; split; congruence]).
  assert (He : valid example_string (End example_string)) by constructor.
  assert (Hc : clean example_string) by (repeat constructor; discriminate).
  assert (Hs : zlen (flat example_string) < 2 ^ 64) by (vm_compute; reflexivity).
  destruct (chunk_string_is_string example_string (mk_pos 0 1) (End example_string) 3 120 [] Hc Hs Hv He) as (_&_&_&H2&_&_&H4&_).
  split; [|split].
  - destruct H2 as (q&E&_&Eo); [lia|vm_compute; split; congruence|]. exists q. split; [exact E|]. rewrite Eo. reflexivity.
  - eexists. split; [vm_compute; reflexivity|reflexivity].
  - split; [vm_compute; reflexivity|]. apply H4. vm_compute. congruence.
Defined.
