(* ===== verification/HStream.v ===== *)
(** * Server kernel: streams

    Models the inputs and outputs of the server kernel: [IIoInput] and [IIoOutput] of
    [src/web/httpd/kernel/iobase.h] and [iobase.cpp], [TNullStream] of [null.h],
    [TStreamIterator] of [iterator.h], [TLengthLimitedInput] of [limitio.h],
    [TConcatInput] of [concat.h], [TOwnedInput] and [TPrechargedInput] of
    [precharge.h], [TCountOutput] of [countio.h] and [TIoInput] of [stream.h].

    A stream is a type with a [DoRecv]; a stream built over another one keeps the state
    of that one in its own, since nothing else reads it in the meantime.  [InputLaws] is
    what a stream promises to its reader: it has a content, it ends by an empty list or by
    an exception, and what it delivers is the front of its content. *)

From Stdlib Require Import ZArith Lia Bool.
From stdpp Require Import base numbers list.
From S2P Require Import Prelude HChunks.

(** ** [iobase.h] *)

(** [Recv] clears the list of the caller, so a call returns the delivered list. *)
Class IIoInput (I : Type) := DoRecv : I -> res TChunkList * I.

(** [None] is undefined behaviour of the output. *)
Class IIoOutput (O : Type) := DoSend : O -> TChunkList -> option (res unit * O).

(** [IIoInput::ReadAll]; the bytes received before an exception are lost with it. *)
Fixpoint ReadAll {I} `{IIoInput I} (fuel : nat) (i : I) (lst : TChunkList) : option (res TChunkList * I) :=
  match fuel with
  | O => None
  | S fuel =>
      match DoRecv i with
      | (Throw e, i) => Some (Throw e, i)
      | (Ret [], i) => Some (Ret lst, i)
      | (Ret tmp, i) => ReadAll fuel i (MoveTo tmp lst)
      end
  end.

(** ** [null.h] *)

Inductive TNullStream := NullInstance.

#[export] Instance null_input : IIoInput TNullStream := fun i => (Ret [], i).
#[export] Instance null_output : IIoOutput TNullStream := fun o _ => Some (Ret tt, o).

(** ** [iterator.h] *)

Record TStreamIterator (I : Type) := mk_iterator { S_ : I; L_ : TChunkList }.
Arguments mk_iterator {I} _ _.
Arguments S_ {I} _.
Arguments L_ {I} _.

Section iterator.
Context {I : Type} {HI : IIoInput I}.

Definition iterator_over (slave : I) : TStreamIterator I := mk_iterator slave [].

Definition Peek (it : TStreamIterator I) : res bool * TStreamIterator I :=
  match L_ it with
  | [] =>
      match DoRecv (S_ it) with
      | (Ret l, s) => (Ret (match l with [] => false | _ => true end), mk_iterator s l)
      | (Throw e, s) => (Throw e, mk_iterator s [])
      end
  | _ => (Ret true, it)
  end.

(** [Next(len, lst)] and [Next(lst)] on an empty [lst]. *)
Definition NextLen (len : Z) (it : TStreamIterator I) : res TChunkList * TStreamIterator I :=
  match Peek it with
  | (Throw e, it) => (Throw e, it)
  | (Ret false, it) => (Ret [], it)
  | (Ret true, it) => let '(lst, rest) := Split len (L_ it) in (Ret lst, mk_iterator (S_ it) rest)
  end.

Definition NextAll (it : TStreamIterator I) : res TChunkList * TStreamIterator I :=
  match Peek it with
  | (Throw e, it) => (Throw e, it)
  | (Ret false, it) => (Ret [], it)
  | (Ret true, it) => (Ret (MoveTo (L_ it) []), mk_iterator (S_ it) [])
  end.

(** The bytes stored to the buffer of the caller. *)
Definition ReadSome (len : Z) (it : TStreamIterator I) : res (list Z) * TStreamIterator I :=
  match NextLen len it with
  | (Throw e, it) => (Throw e, it)
  | (Ret tmp, it) => (Ret (CopyData tmp len), it)
  end.

(** [Next()] *)
Definition NextChar (it : TStreamIterator I) : res Z * TStreamIterator I :=
  match ReadSome 1 it with
  | (Throw e, it) => (Throw e, it)
  | (Ret [], it) => (Throw TStreamError, it)
  | (Ret (ch :: _), it) => (Ret ch, it)
  end.

(** [Read(buf, len)] *)
Fixpoint Read_loop (fuel : nat) (len : Z) (buf : list Z) (it : TStreamIterator I) : option (res (list Z) * TStreamIterator I) :=
  if len =? 0 then Some (Ret buf, it)
  else match fuel with
  | O => None
  | S fuel =>
      match ReadSome len it with
      | (Throw e, it) => Some (Throw e, it)
      | (Ret [], it) => Some (Throw TStreamError, it)
      | (Ret read, it) => Read_loop fuel (len - zlen read) (buf ++ read) it
      end
  end.

Definition Read (len : Z) (it : TStreamIterator I) : option (res (list Z) * TStreamIterator I) :=
  Read_loop (Z.to_nat len) len [] it.

(** [Read(lst, len)] *)
Fixpoint ReadList_loop (fuel : nat) (len : Z) (lst : TChunkList) (it : TStreamIterator I) : option (res TChunkList * TStreamIterator I) :=
  if len =? 0 then Some (Ret lst, it)
  else match fuel with
  | O => None
  | S fuel =>
      match NextLen len it with
      | (Throw e, it) => Some (Throw e, it)
      | (Ret tmp, it) =>
          let readed := FullLength tmp in
          if readed =? 0 then Some (Throw TStreamError, it)
          else ReadList_loop fuel (len - readed) (MoveTo tmp lst) it
      end
  end.

Definition ReadList (len : Z) (lst : TChunkList) (it : TStreamIterator I) : option (res TChunkList * TStreamIterator I) :=
  ReadList_loop (Z.to_nat len) len lst it.

Definition UnGet (data : TChunkList) (it : TStreamIterator I) : TStreamIterator I :=
  mk_iterator (S_ it) (MoveTo (MoveTo (L_ it) data) []).

(** [TIoStreamIterator] *)
#[export] Instance iterator_input : IIoInput (TStreamIterator I) := NextAll.
End iterator.

(** ** [limitio.h] *)

(** [OnErr] is the error function of the template: it throws or it returns. *)
Record TLengthLimitedInput (I : Type) := mk_limited { limited_S : I; limited_L : Z; OnErr : option exn }.
Arguments mk_limited {I} _ _ _.
Arguments limited_S {I} _.
Arguments limited_L {I} _.
Arguments OnErr {I} _.

#[export] Instance limited_input {I} `{IIoInput I} : IIoInput (TLengthLimitedInput I) := fun t =>
  if limited_L t =? 0 then (match OnErr t with Some e => Throw e | None => Ret [] end, t)
  else match DoRecv (limited_S t) with
  | (Throw e, s) => (Throw e, mk_limited s (limited_L t) (OnErr t))
  | (Ret lst, s) =>
      let lst := Cut (limited_L t) lst in
      (Ret lst, mk_limited s (limited_L t - FullLength lst) (OnErr t))
  end.

(** ** [concat.h] *)

(** What the pointers [F_] and [S_] are: the two inputs, the second one and the null
    stream, or twice the null stream. *)
Inductive concat_stage := OnFirst | OnSecond | OnNull.

Record TConcatInput (F S : Type) := mk_concat { first : F; second : S; stage : concat_stage }.
Arguments mk_concat {F S} _ _ _.
Arguments first {F S} _.
Arguments second {F S} _.
Arguments stage {F S} _.

Definition concat_of {F S} (f : F) (s : S) : TConcatInput F S := mk_concat f s OnFirst.

Section concat.
Context {F S : Type} `{IIoInput F} `{IIoInput S}.

(** [F_->Recv(lst)] *)
Definition concat_front (t : TConcatInput F S) : res TChunkList * TConcatInput F S :=
  match stage t with
  | OnFirst => let '(r, f) := DoRecv (first t) in (r, mk_concat f (second t) OnFirst)
  | OnSecond => let '(r, s) := DoRecv (second t) in (r, mk_concat (first t) s OnSecond)
  | OnNull => (Ret [], t)
  end.

(** [F_ = S_; S_ = &TNullStream::Instance()] *)
Definition concat_shift (t : TConcatInput F S) : TConcatInput F S :=
  mk_concat (first t) (second t) (match stage t with OnFirst => OnSecond | _ => OnNull end).

#[export] Instance concat_input : IIoInput (TConcatInput F S) := fun t =>
  match concat_front t with
  | (Ret [], t) => concat_front (concat_shift t)
  | rt => rt
  end.
End concat.

(** ** [precharge.h] *)

Inductive TOwnedInput := Owned (lst : TChunkList).

#[export] Instance owned_input : IIoInput TOwnedInput := fun '(Owned l) => (Ret (MoveTo l []), Owned []).

(** ** [countio.h] *)

Record TCountOutput (O : Type) := mk_count { count_slave : O; Written_ : Z }.
Arguments mk_count {O} _ _.
Arguments count_slave {O} _.
Arguments Written_ {O} _.

(** [NSrvKernel::Send] measures the list before it sends it. *)
#[export] Instance count_output {O} `{IIoOutput O} : IIoOutput (TCountOutput O) := fun t lst =>
  let n := FullLength lst in
  let* (r, o) := DoSend (count_slave t) lst in
  match r with
  | Ret _ => Some (Ret tt, mk_count o (u64 (Written_ t + n)))
  | Throw e => Some (Throw e, mk_count o (Written_ t))
  end.

(** ** [stream.h] *)

Record TIoInput (I : Type) := mk_io_input { Filled_ : TChunkList; io_slave : I }.
Arguments mk_io_input {I} _ _.
Arguments Filled_ {I} _.
Arguments io_slave {I} _.

(** [DoNext]: the chunk it shows, [None] at the end. *)
Definition DoNext {I} `{IIoInput I} (t : TIoInput I) : res (option chunk) * TIoInput I :=
  match Filled_ t with
  | cur :: rest => (Ret (Some cur), mk_io_input rest (io_slave t))
  | [] =>
      match DoRecv (io_slave t) with
      | (Throw e, s) => (Throw e, mk_io_input [] s)
      | (Ret l, s) =>
          if FullLength l =? 0 then (Ret None, mk_io_input l s)
          else match l with
          | cur :: rest => (Ret (Some cur), mk_io_input rest s)
          | [] => (Ret None, mk_io_input [] s)
          end
      end
  end.
