(* ===== verification/HLaws.v ===== *)
(** * Server kernel: what streams promise

    The interface between the streams of the kernel and their readers, and its instances.
    A stream has a content, the bytes it is going to deliver, and a final event: an empty
    list, or an exception.  [InputLaws] relates a call of [DoRecv] to both; a reader is
    proved against it.  [CleanLaws] adds that no empty chunk is delivered, which the
    iterator needs of its slave. *)

From Stdlib Require Import ZArith Lia Bool.
From stdpp Require Import base numbers list.
From S2P Require Import Prelude HChunks HStream.

(** ** The interface *)

Class InputLaws (I : Type) `{IIoInput I} := {
  ok : I -> Prop;
  content : I -> list Z;
  final : I -> option exn;
  recv_ret : forall i l i', ok i -> DoRecv i = (Ret l, i') ->
    ok i' /\ content i = flat l ++ content i' /\ final i' = final i /\
    (flat l = [] -> l = [] /\ content i = [] /\ final i = None);
  recv_throw : forall i e i', ok i -> DoRecv i = (Throw e, i') ->
    ok i' /\ content i = [] /\ final i = Some e /\ content i' = [] /\ final i' = Some e }.

Class CleanLaws (I : Type) `{InputLaws I} :=
  recv_clean : forall i l i', ok i -> DoRecv i = (Ret l, i') -> clean l.

(** What a call that returns [l] and leaves [i'] has done to a stream whose content was
    [c] and whose final event was [f]: the same facts for every reading operation. *)
Definition delivers {I} `{InputLaws I} (c : list Z) (f : option exn) (r : res TChunkList) (i' : I) : Prop :=
  ok i' /\ final i' = f /\
  match r with
  | Ret l => c = flat l ++ content i' /\ (flat l = [] -> l = [] /\ c = [] /\ f = None)
  | Throw e => c = [] /\ f = Some e /\ content i' = []
  end.

Lemma recv_delivers {I} `{InputLaws I} i r i' : ok i -> DoRecv i = (r, i') -> delivers (content i) (final i) r i'.
Proof.
  intros Hok E. destruct r as [l|e].
  - apply recv_ret in E as (?&?&?&?); auto. unfold delivers. conj; auto.
  - apply recv_throw in E as (?&?&?&?&?); auto. unfold delivers. conj; congruence.
Qed.

Lemma recv_Ret {I} `{InputLaws I} i l i' : ok i -> DoRecv i = (Ret l, i') ->
  ok i' /\ content i = flat l ++ content i' /\ final i' = final i.
Proof. intros Hok E. apply recv_ret in E as (?&?&?&?); auto. Qed.

(** ** Reading to the end *)

(** [ReadAll] returns the whole content or the exception the stream ends with; one call
    more than there are bytes is enough. *)
Lemma ReadAll_content {I} `{InputLaws I} fuel i lst : ok i -> (length (content i) < fuel)%nat ->
  exists i', ok i' /\ content i' = [] /\
  match final i with
  | None => exists l, ReadAll fuel i lst = Some (Ret l, i') /\ flat l = flat lst ++ content i
  | Some e => ReadAll fuel i lst = Some (Throw e, i')
  end.
Proof.
  revert i lst. induction fuel as [|fuel IH]; intros i lst Hok Hf; [lia|]. cbn.
  destruct (DoRecv i) as [r i1] eqn:E. destruct (recv_delivers _ _ _ Hok E) as (Ho&Hfin&D).
  destruct r as [l|e].
  - destruct D as [D D0]. destruct l as [|c l].
    + destruct D0 as (_&D1&D2); [auto|]. exists i1. rewrite D2. split; [auto|]. split; [rewrite D1 in D; auto|].
      exists lst. rewrite D1, app_nil_r. auto.
    + assert (Hn : flat (c :: l) <> []) by (intros F; apply D0 in F as [F _]; discriminate).
      destruct (IH i1 (MoveTo (c :: l) lst) Ho) as (i2&Ho2&Hc2&IH2).
      * rewrite D, length_app in Hf. destruct (flat (c :: l)); [tauto|cbn in Hf; lia].
      * exists i2. conj; auto. rewrite Hfin in IH2. destruct (final i); auto.
        destruct IH2 as (l2&E2&F2). exists l2. split; [auto|]. rewrite F2, D. unfold MoveTo. rewrite flat_app, <- app_assoc. auto.
  - destruct D as (D1&D2&D3). rewrite D2. exists i1. auto.
Qed.

(** ** The iterator *)

#[export] Instance null_laws : InputLaws TNullStream.
Proof.
  refine {| ok := fun _ => True; content := fun _ => []; final := fun _ => None |}.
  - intros i l i' _ E. inv E. conj; auto.
  - intros i e i' _ E. inv E.
Defined.

Section iterator.
Context {I : Type} `{CleanLaws I}.

Definition iter_ok (it : TStreamIterator I) : Prop := clean (L_ it) /\ ok (S_ it).
Definition iter_content (it : TStreamIterator I) : list Z := flat (L_ it) ++ content (S_ it).
Definition iter_final (it : TStreamIterator I) : option exn := final (S_ it).

Lemma Peek_spec it r it' : iter_ok it -> Peek it = (r, it') ->
  iter_ok it' /\ iter_content it' = iter_content it /\ iter_final it' = iter_final it /\
  match r with
  | Ret true => L_ it' <> []
  | Ret false => L_ it' = [] /\ iter_content it = [] /\ iter_final it = None
  | Throw e => L_ it' = [] /\ iter_content it = [] /\ iter_final it = Some e
  end.
Proof.
  intros [Hc Ho] E. unfold Peek in E. unfold iter_content, iter_final, iter_ok in *.
  destruct (L_ it) as [|c l] eqn:EL.
  - destruct (DoRecv (S_ it)) as [r1 s] eqn:ER. destruct (recv_delivers _ _ _ Ho ER) as (Ho1&Hf&D).
    destruct r1 as [l|e]; inv E; cbn.
    + destruct D as [D D0]. pose proof (recv_clean _ _ _ Ho ER) as Hcl.
      destruct l as [|c l]; conj; auto; try discriminate; apply D0; auto.
    + destruct D as (D1&D2&D3). conj; auto; congruence.
  - inv E. rewrite EL. conj; auto.
Qed.

Lemma NextLen_spec len it r it' : 0 < len -> iter_ok it -> NextLen len it = (r, it') ->
  iter_ok it' /\ iter_final it' = iter_final it /\
  match r with
  | Ret l => iter_content it = flat l ++ iter_content it' /\ zlen (flat l) <= len /\
             (flat l = [] -> l = [] /\ iter_content it = [] /\ iter_final it = None)
  | Throw e => iter_content it = [] /\ iter_final it = Some e /\ iter_content it' = []
  end.
Proof.
  intros Hl Hok E. unfold NextLen in E. destruct (Peek it) as [p it1] eqn:EP.
  destruct (Peek_spec _ _ _ Hok EP) as (Ho1&Hc1&Hf1&P). destruct p as [[|]|e].
  - destruct (Split len (L_ it1)) as [lst rest] eqn:ES. inv E. destruct Ho1 as [Ho1 Ho2].
    destruct (Split_flat len (L_ it1) lst rest) as [S1 S2]; [lia|auto|].
    conj; cbn; auto.
    + split; [|auto]. apply (Split_clean len (L_ it1) lst rest); auto; lia.
    + rewrite <- Hc1. unfold iter_content. cbn. rewrite S1, S2, app_assoc, take_drop. auto.
    + rewrite S1. unfold zlen. rewrite length_take. lia.
    + intros F. eapply Split_productive in ES; eauto. tauto.
  - inv E. destruct P as (P1&P2&P3). rewrite flat_nil, zlen_nil. cbn. conj; auto; congruence || lia.
  - inv E. destruct P as (P1&P2&P3). conj; auto; congruence || lia.
Qed.

Lemma NextAll_spec it r it' : iter_ok it -> NextAll it = (r, it') ->
  iter_ok it' /\ iter_final it' = iter_final it /\
  match r with
  | Ret l => clean l /\ iter_content it = flat l ++ iter_content it' /\
             (flat l = [] -> l = [] /\ iter_content it = [] /\ iter_final it = None)
  | Throw e => iter_content it = [] /\ iter_final it = Some e /\ iter_content it' = []
  end.
Proof.
  intros Hok E. unfold NextAll in E. destruct (Peek it) as [p it1] eqn:EP.
  destruct (Peek_spec _ _ _ Hok EP) as (Ho1&Hc1&Hf1&P). destruct p as [[|]|e].
  - inv E. destruct Ho1 as [Ho1 Ho2]. unfold MoveTo. cbn [app]. conj; cbn; auto.
    + split; auto.
    + intros F. apply clean_flat_nil in F; tauto.
  - inv E. destruct P as (P1&P2&P3). rewrite flat_nil. conj; auto; first [congruence|constructor].
  - inv E. destruct P as (P1&P2&P3). conj; auto; congruence.
Qed.

#[export] Instance iterator_laws : InputLaws (TStreamIterator I).
Proof.
  refine {| ok := iter_ok; content := iter_content; final := iter_final |}.
  - intros i l i' Hok E. apply NextAll_spec in E as (?&?&?&?&?); auto.
  - intros i l i' Hok E. apply NextAll_spec in E as (?&?&?&?&?); auto. conj; auto; congruence.
Defined.

#[export] Instance iterator_clean : CleanLaws (TStreamIterator I).
Proof. intros i l i' Hok E. apply NextAll_spec in E as (?&?&?&?&?); auto. Qed.

Lemma ReadSome_spec len it r it' : 0 < len -> iter_ok it -> ReadSome len it = (r, it') ->
  iter_ok it' /\ iter_final it' = iter_final it /\
  match r with
  | Ret b => iter_content it = b ++ iter_content it' /\ zlen b <= len /\
             (b = [] -> iter_content it = [] /\ iter_final it = None)
  | Throw e => iter_content it = [] /\ iter_final it = Some e /\ iter_content it' = []
  end.
Proof.
  intros Hl Hok E. unfold ReadSome in E. destruct (NextLen len it) as [[l|e] it1] eqn:EN; inv E;
    apply NextLen_spec in EN as (Ho&Hf&D); auto.
  destruct D as (D1&D2&D3). rewrite CopyData_take by lia. rewrite take_ge by (unfold zlen in D2; lia).
  conj; auto; apply D3; auto.
Qed.

(** [Next()]: the next byte of the content; [TStreamError] at a regular end. *)
Lemma NextChar_spec it r it' : iter_ok it -> NextChar it = (r, it') ->
  iter_ok it' /\ iter_final it' = iter_final it /\
  match iter_content it with
  | ch :: rest => r = Ret ch /\ iter_content it' = rest
  | [] => r = Throw (default TStreamError (iter_final it)) /\ iter_content it' = []
  end.
Proof.
  intros Hok E. unfold NextChar in E. destruct (ReadSome 1 it) as [[b|e] it1] eqn:ER;
    apply ReadSome_spec in ER as (Ho&Hf&D); auto; try lia.
  - destruct D as (D1&D2&D3). destruct b as [|ch [|x b]]; [|inv E; rewrite D1; cbn; auto|unfold zlen in D2; cbn in D2; lia].
    inv E. destruct D3 as [D3 D4]; auto. rewrite D3 in *. rewrite Hf, D4. auto.
  - inv E. destruct D as (D1&D2&D3). rewrite Hf, D1, D2. auto.
Qed.

(** [Read] is total: it stores [len] bytes, or throws when the content is shorter. *)
Lemma Read_loop_spec fuel len buf it : 0 <= len -> (Z.to_nat len <= fuel)%nat -> iter_ok it ->
  exists r it', Read_loop fuel len buf it = Some (r, it') /\ iter_ok it' /\ iter_final it' = iter_final it /\
  if len <=? zlen (iter_content it)
  then r = Ret (buf ++ take (Z.to_nat len) (iter_content it)) /\ iter_content it' = drop (Z.to_nat len) (iter_content it)
  else r = Throw (default TStreamError (iter_final it)) /\ iter_content it' = [].
Proof.
  revert len buf it. induction fuel as [|fuel IH]; intros len buf it Hl Hf Hok; cbn.
  - assert (len = 0) as -> by lia. cbn. exists (Ret buf), it. pose proof (zlen_nonneg (iter_content it)).
    destruct (Z.leb_spec 0 (zlen (iter_content it))); [|lia]. rewrite app_nil_r. auto.
  - destruct (Z.eqb_spec len 0) as [->|Hn].
    { exists (Ret buf), it. pose proof (zlen_nonneg (iter_content it)).
      destruct (Z.leb_spec 0 (zlen (iter_content it))); [|lia]. rewrite app_nil_r. auto. }
    destruct (ReadSome len it) as [[b|e] it1] eqn:ER; apply ReadSome_spec in ER as (Ho&Hfi&D); auto; try lia.
    + destruct D as (D1&D2&D3). destruct b as [|x b].
      * destruct D3 as [D3 D4]; [auto|]. exists (Throw TStreamError), it1. rewrite D4, D3. rewrite D3 in D1.
        rewrite zlen_nil. destruct (Z.leb_spec len 0); [lia|]. conj; auto; congruence.
      * set (bb := x :: b) in *. assert (Hb : 0 < zlen bb) by (unfold bb, zlen; cbn; lia).
        destruct (IH (len - zlen bb) (buf ++ bb) it1) as (r&it2&E&Ho2&Hf2&R); [lia|unfold zlen in *; lia|auto|].
        exists r, it2. rewrite E. split; [auto|]. split; [auto|]. split; [congruence|]. rewrite D1, zlen_app.
        destruct (Z.leb_spec (len - zlen bb) (zlen (iter_content it1))), (Z.leb_spec len (zlen bb + zlen (iter_content it1)));
          try lia; destruct R as [-> R]; [|rewrite Hfi; auto].
        rewrite R. unfold zlen. rewrite take_app_ge, drop_app_ge by (unfold zlen in D2; lia).
        rewrite <- app_assoc.
        replace (Z.to_nat (len - Z.of_nat (length bb))) with (Z.to_nat len - length bb)%nat by lia. auto.
    + destruct D as (D1&D2&D3). exists (Throw e), it1. rewrite D1, D2. rewrite zlen_nil.
      destruct (Z.leb_spec len 0); [lia|]. conj; auto; congruence.
Qed.

Lemma Read_spec len it : 0 <= len -> iter_ok it ->
  exists r it', Read len it = Some (r, it') /\ iter_ok it' /\ iter_final it' = iter_final it /\
  if len <=? zlen (iter_content it)
  then r = Ret (take (Z.to_nat len) (iter_content it)) /\ iter_content it' = drop (Z.to_nat len) (iter_content it)
  else r = Throw (default TStreamError (iter_final it)) /\ iter_content it' = [].
Proof. intros Hl Hok. apply (Read_loop_spec _ _ []); auto. Qed.

(** [UnGet] puts bytes back in front of the content. *)
Lemma UnGet_spec data it : clean data -> iter_ok it ->
  iter_ok (UnGet data it) /\ iter_content (UnGet data it) = flat data ++ iter_content it /\
  iter_final (UnGet data it) = iter_final it.
Proof.
  intros Hd [Hc Ho]. unfold UnGet, MoveTo, iter_ok, iter_content, iter_final. cbn.
  rewrite flat_app, <- app_assoc, Forall_app. auto.
Qed.
End iterator.

(** ** The length limit *)

Section limited.
Context {I : Type} `{InputLaws I}.

Definition limited_ok (t : TLengthLimitedInput I) : Prop := 0 <= limited_L t /\ ok (limited_S t).

Definition limited_content (t : TLengthLimitedInput I) : list Z := take (Z.to_nat (limited_L t)) (content (limited_S t)).

(** The error function is called when the limit is used up, also when nothing follows. *)
Definition limited_final (t : TLengthLimitedInput I) : option exn :=
  if zlen (content (limited_S t)) <? limited_L t then final (limited_S t) else OnErr t.

Lemma Cut_flat len l : 0 <= len -> flat (Cut len l) = take (Z.to_nat len) (flat l).
Proof. intros Hl. unfold Cut. destruct (Split len l) as [b a] eqn:E. apply Split_flat in E; auto. apply E. Qed.

Lemma take_split (a b : list Z) L : 0 <= L ->
  take (Z.to_nat L) (a ++ b) =
  take (Z.to_nat L) a ++ take (Z.to_nat (L - zlen (take (Z.to_nat L) a))) b.
Proof.
  intros HL. rewrite take_app. f_equal. f_equal. unfold zlen. rewrite length_take. lia.
Qed.

Lemma Cut_nil len : Cut len [] = [].
Proof. reflexivity. Qed.

Lemma limited_recv_ret t l t' : limited_ok t -> DoRecv t = (Ret l, t') ->
  limited_ok t' /\ limited_content t = flat l ++ limited_content t' /\ limited_final t' = limited_final t /\
  (flat l = [] -> l = [] /\ limited_content t = [] /\ limited_final t = None).
Proof.
  intros [HL Hok] E. unfold DoRecv, limited_input in E. unfold limited_content, limited_final, limited_ok.
  destruct (Z.eqb_spec (limited_L t) 0) as [E0|E0].
  - destruct (OnErr t) eqn:EO; inv E. rewrite E0, flat_nil. pose proof (zlen_nonneg (content (limited_S t'))).
    destruct (Z.ltb_spec (zlen (content (limited_S t'))) 0); [lia|]. conj; auto; lia.
  - destruct (DoRecv (limited_S t)) as [[l0|e] s] eqn:ER; inv E. destruct (recv_ret _ _ _ Hok ER) as (Ho&Hc&Hf&D). cbn.
    rewrite FullLength_flat, Cut_flat, Hc, zlen_app by lia.
    pose proof (zlen_nonneg (content s)). pose proof (zlen_nonneg (flat l0)).
    assert (Hle : zlen (take (Z.to_nat (limited_L t)) (flat l0)) = Z.min (limited_L t) (zlen (flat l0))).
    { unfold zlen. rewrite length_take. lia. }
    conj; try rewrite Hle; auto; try lia.
    + rewrite <- Hle. apply take_split. lia.
    + rewrite Hf. destruct (Z.ltb_spec (zlen (content s)) (limited_L t - Z.min (limited_L t) (zlen (flat l0)))),
        (Z.ltb_spec (zlen (flat l0) + zlen (content s)) (limited_L t)); auto; lia.
    + intros F. assert (F0 : flat l0 = []).
      { apply (f_equal zlen) in F. rewrite Hle, zlen_nil in F. apply zlen_0. lia. }
      destruct (D F0) as (->&D1&D2). rewrite D1 in Hc. rewrite F0 in *. cbn in Hc.
      assert (Hz : zlen (content s) = 0) by (rewrite <- Hc; reflexivity). rewrite Hz. cbn [app]. rewrite <- Hc, take_nil.
      destruct (Z.ltb_spec (zlen (@nil Z) + 0) (limited_L t)) as [|Hx]; [auto|]. unfold zlen in Hx. cbn in Hx. lia.
Qed.

Lemma limited_recv_throw t e t' : limited_ok t -> DoRecv t = (Throw e, t') ->
  limited_ok t' /\ limited_content t = [] /\ limited_final t = Some e /\ limited_content t' = [] /\ limited_final t' = Some e.
Proof.
  intros [HL Hok] E. unfold DoRecv, limited_input in E. unfold limited_content, limited_final, limited_ok.
  destruct (Z.eqb_spec (limited_L t) 0) as [E0|E0].
  - destruct (OnErr t) eqn:EO; inv E. rewrite E0. pose proof (zlen_nonneg (content (limited_S t'))).
    destruct (Z.ltb_spec (zlen (content (limited_S t'))) 0); [lia|]. conj; auto; lia.
  - destruct (DoRecv (limited_S t)) as [[l0|e0] s] eqn:ER; inv E. destruct (recv_throw _ _ _ Hok ER) as (Ho&Hc&Hf&Hc'&Hf').
    cbn. rewrite Hc, Hc', Hf, Hf', take_nil. change (zlen (@nil Z)) with 0. destruct (Z.ltb_spec 0 (limited_L t)); [|lia]. conj; auto; lia.
Qed.

#[export] Instance limited_laws : InputLaws (TLengthLimitedInput I) :=
  {| ok := limited_ok; content := limited_content; final := limited_final;
     recv_ret := limited_recv_ret; recv_throw := limited_recv_throw |}.
End limited.

(** ** Concatenation *)

#[export] Instance owned_laws : InputLaws TOwnedInput.
Proof.
  refine {| ok := fun '(Owned l) => clean l; content := fun '(Owned l) => flat l; final := fun _ => None |}.
  - intros [l0] l i' Hc E. inv E. unfold MoveTo. cbn. rewrite flat_nil, app_nil_r. conj; auto.
    intros F. apply clean_flat_nil in F as ->; auto.
  - intros [l0] e i' _ E. inv E.
Defined.

#[export] Instance owned_clean : CleanLaws TOwnedInput.
Proof. intros [l0] l i' Hc E. inv E. exact Hc. Qed.

Section concat.
Context {F S : Type} `{InputLaws F} `{InputLaws S}.

Definition concat_ok (t : TConcatInput F S) : Prop := ok (first t) /\ ok (second t).

Definition concat_content (t : TConcatInput F S) : list Z :=
  match stage t with
  | OnFirst => content (first t) ++ (if final (first t) then [] else content (second t))
  | OnSecond => content (second t)
  | OnNull => []
  end.

Definition concat_final (t : TConcatInput F S) : option exn :=
  match stage t with
  | OnFirst => match final (first t) with Some e => Some e | None => final (second t) end
  | OnSecond => final (second t)
  | OnNull => None
  end.

(** What one [Recv] of the front stream does. *)
Lemma concat_front_spec t r t' : concat_ok t -> concat_front t = (r, t') ->
  concat_ok t' /\ stage t' = stage t /\ concat_final t' = concat_final t /\
  match r with
  | Ret l => concat_content t = flat l ++ concat_content t' /\
      (flat l = [] -> l = [] /\ match stage t with
        | OnFirst => concat_content t = content (second t) /\ concat_final t = final (second t) /\ second t' = second t
        | _ => concat_content t = [] /\ concat_final t = None end)
  | Throw e => concat_content t = [] /\ concat_final t = Some e /\ concat_content t' = []
  end.
Proof.
  intros [Ho1 Ho2] E. unfold concat_front in E. unfold concat_ok, concat_content, concat_final.
  destruct (stage t) eqn:Es.
  - destruct (DoRecv (first t)) as [r0 f] eqn:ER. destruct (recv_delivers _ _ _ Ho1 ER) as (Ho&Hf&D). inv E. cbn. rewrite Hf.
    destruct r as [l|e].
    + destruct D as [D D0]. rewrite D, <- app_assoc. conj; auto. intros Fl. destruct (D0 Fl) as (->&Hc&HN).
      rewrite HN in *. rewrite D, flat_nil in Hc. rewrite flat_nil. cbn in *. rewrite Hc. auto.
    + destruct D as (D1&D2&D3). rewrite D1, D2, D3. cbn. conj; auto.
  - destruct (DoRecv (second t)) as [r0 s] eqn:ER. destruct (recv_delivers _ _ _ Ho2 ER) as (Ho&Hf&D). inv E. cbn. rewrite Hf.
    destruct r as [l|e]; conj; auto; apply D.
  - inv E. rewrite Es, flat_nil. cbn. conj; auto.
Qed.

Lemma concat_shift_spec t : concat_content (concat_shift t) =
    match stage t with OnFirst => content (second t) | _ => [] end /\
  concat_final (concat_shift t) = match stage t with OnFirst => final (second t) | _ => None end.
Proof. unfold concat_content, concat_final, concat_shift. destruct (stage t); auto. Qed.

Lemma concat_delivers t r t' : concat_ok t -> DoRecv t = (r, t') ->
  concat_ok t' /\ concat_final t' = concat_final t /\
  match r with
  | Ret l => concat_content t = flat l ++ concat_content t' /\
      (flat l = [] -> l = [] /\ concat_content t = [] /\ concat_final t = None)
  | Throw e => concat_content t = [] /\ concat_final t = Some e /\ concat_content t' = []
  end.
Proof.
  intros Hok E. unfold DoRecv, concat_input in E. destruct (concat_front t) as [r1 t1] eqn:E1.
  destruct (concat_front_spec _ _ _ Hok E1) as (Ho1&Hs1&Hf1&D1). destruct r1 as [[|c l]|e].
  - destruct D1 as [D1 D0]. destruct (D0 eq_refl) as [_ D2].
    assert (Hok' : concat_ok (concat_shift t1)) by (split; apply Ho1).
    destruct (concat_front_spec _ _ _ Hok' E) as (Ho3&Hs3&Hf3&D3). destruct (concat_shift_spec t1) as [S1 S2].
    assert (Hc : concat_content (concat_shift t1) = concat_content t /\ concat_final (concat_shift t1) = concat_final t).
    { rewrite S1, S2, Hs1. destruct (stage t); [destruct D2 as (->&->&->); auto|destruct D2 as [-> ->]; auto..]. }
    destruct Hc as [C1 C2]. rewrite C1, C2 in *. conj; auto. destruct r as [l|e]; [|auto]. destruct D3 as [D3 D4].
    split; [auto|]. intros Fl. destruct (D4 Fl) as [-> D5]. split; [auto|].
    unfold concat_shift in D5. cbn in D5. destruct (stage t1); auto.
  - inv E. destruct D1 as [D1 D0]. conj; auto. intros Fl. destruct (D0 Fl). discriminate.
  - inv E. auto.
Qed.

#[export] Instance concat_laws : InputLaws (TConcatInput F S).
Proof.
  refine {| ok := concat_ok; content := concat_content; final := concat_final |}.
  - intros i l i' Hok E. apply concat_delivers in E as (?&?&?&?); auto.
  - intros i l i' Hok E. apply concat_delivers in E as (?&?&?&?&?); auto. conj; auto; congruence.
Defined.

Lemma concat_of_content (f : F) (s : S) : final f = None ->
  content (concat_of f s) = content f ++ content s /\ final (concat_of f s) = final s.
Proof. intros E. cbn. unfold concat_content, concat_final. cbn. rewrite E. auto. Qed.
End concat.

#[export] Instance concat_clean {F S} `{CleanLaws F} `{CleanLaws S} : CleanLaws (TConcatInput F S).
Proof.
  assert (Hfront : forall (t : TConcatInput F S) l t', concat_ok t -> concat_front t = (Ret l, t') -> clean l /\ concat_ok t').
  { intros t l t' Hok E. split; [|destruct (concat_front_spec _ _ _ Hok E); auto]. destruct Hok as [Ho1 Ho2].
    unfold concat_front in E. destruct (stage t).
    - destruct (DoRecv (first t)) eqn:ER. inv E. exact (recv_clean _ _ _ Ho1 ER).
    - destruct (DoRecv (second t)) eqn:ER. inv E. exact (recv_clean _ _ _ Ho2 ER).
    - inv E. constructor. }
  intros t l t' Hok E. unfold DoRecv, concat_input in E. destruct (concat_front t) as [[[|c l1]|e] t1] eqn:E1.
  - destruct (Hfront _ _ _ Hok E1) as [_ Ho]. apply (Hfront (concat_shift t1) l t'); [split; apply Ho|exact E].
  - inv E. apply (Hfront t (c :: l1) t'); auto.
  - inv E.
Qed.

(** ** A source *)

(** A connection that delivers these lists and then ends, regularly or by an error. *)
Record TSource := mk_source { parts : list TChunkList; broken : option exn }.

#[export] Instance source_input : IIoInput TSource := fun s =>
  match parts s with
  | [] => (match broken s with None => Ret [] | Some e => Throw e end, s)
  | p :: ps => (Ret p, mk_source ps (broken s))
  end.

#[export] Instance source_laws : InputLaws TSource.
Proof.
  refine {| ok := fun s => Forall (fun p => p <> [] /\ clean p) (parts s);
            content := fun s => flat (concat (parts s)); final := broken |}.
  - intros [[|p ps] b] l i' Hok E; unfold DoRecv, source_input in E; cbn in *.
    + destruct b; inv E. rewrite flat_nil. conj; auto.
    + inv E. inv Hok. rewrite flat_app. conj; auto. intros F. destruct H1 as [Hn Hc].
      apply clean_flat_nil in F; tauto.
  - intros [[|p ps] b] e i' Hok E; unfold DoRecv, source_input in E; cbn in *; [destruct b; inv E; rewrite ?flat_nil; conj; auto|inv E].
Defined.

#[export] Instance source_clean : CleanLaws TSource.
Proof.
  intros [[|p ps] b] l i' Hok E; unfold DoRecv, source_input in E; cbn in *.
  - destruct b; inv E. auto.
  - inv E. inv Hok. tauto.
Qed.
