(* ===== verification/HHttp.v ===== *)
(** * Server kernel: HTTP requests

    Models [src/web/httpd/kernel/http.h] and [http.cpp]: the request of a first line and
    headers, kept as pieces of the chunks it came in, the parser whose machine is
    [httpfsm.rl], and the printer [BuildTo].

    The parser is the machine of [httpfsm.rl] with its actions on the transitions, run over
    one chunk after the other.  The generator the build calls ([-G2], goto code,
    [ipgotocodegen.cpp]) keeps the state of the machine in the program counter and writes
    [cs] when a chunk is used up or a byte has no transition; the action [endOfHeaders]
    returns from the middle of a chunk and leaves [cs] as it was. *)

From Stdlib Require Import ZArith Lia Bool.
From stdpp Require Import base numbers list.
From S2P Require Import Prelude HChunks HStream HLaws.

(** ** Requests *)

Record THeader := mk_header { Key : TChunkList; Value : TChunkList }.

Record TRequest := mk_request { Request_ : TChunkList; Headers_ : list THeader }.

Definition new_request : TRequest := mk_request [] [].

(** [NewHeader]: the header is the last one. *)
Definition NewHeader (r : TRequest) : nat * TRequest :=
  (length (Headers_ r), mk_request (Request_ r) (Headers_ r ++ [mk_header [] []])).

Definition AddHeader (key value : chunk) (r : TRequest) : TRequest :=
  mk_request (Request_ r) (Headers_ r ++ [mk_header [key] [value]]).

Definition CR : Z := 13.
Definition LF : Z := 10.
Definition CRLF : chunk := [CR; LF].
Definition COLON : Z := 58.
Definition SP : Z := 32.
Definition TAB : Z := 9.
Definition HDRD : chunk := [COLON; SP].

Definition header_lines (h : THeader) : TChunkList := Key h ++ [HDRD] ++ Value h ++ [CRLF].

(** [BuildTo]: what is appended to the list of the caller; [customHeaders] is empty when
    the caller passes none. *)
Definition BuildTo (r : TRequest) (customHeaders : TChunkList) : TChunkList :=
  Request_ r ++ [CRLF] ++ concat (map header_lines (Headers_ r)) ++ customHeaders ++ [CRLF].

(** ** The machine *)

Inductive fsm_state :=
  | Start | InRequest | LineEndCR | LineStart | InKey | InDelim | InValue | HeadersEndCR | Final | Error.

#[export] Instance fsm_state_eq_dec : EqDecision fsm_state.
Proof. solve_decision. Defined.

Inductive action := endOfHeaders | startOfRequest | startOfKey | startOfValue | endOfToken | nextToken.

Definition hdelim (ch : Z) : bool := (ch =? SP) || (ch =? TAB) || (ch =? COLON).

(** [main := request lend (header lend)* (lend @endOfHeaders)]; no transition is an error. *)
Definition transition (s : fsm_state) (ch : Z) : option (list action * fsm_state) :=
  match s with
  | Start => if (ch =? CR) || (ch =? LF) then None else Some ([startOfRequest], InRequest)
  | InRequest =>
      if ch =? CR then Some ([endOfToken], LineEndCR) else if ch =? LF then Some ([endOfToken], LineStart)
      else Some ([], InRequest)
  | LineEndCR => if ch =? LF then Some ([], LineStart) else None
  | LineStart =>
      if ch =? CR then Some ([nextToken], HeadersEndCR) else if ch =? LF then Some ([nextToken; endOfHeaders], Final)
      else if hdelim ch then None else Some ([nextToken; startOfKey], InKey)
  | InKey =>
      if (ch =? CR) || (ch =? LF) then None else if hdelim ch then Some ([endOfToken], InDelim) else Some ([], InKey)
  | InDelim =>
      if ch =? CR then Some ([nextToken], LineEndCR) else if ch =? LF then Some ([nextToken], LineStart)
      else if hdelim ch then Some ([], InDelim) else Some ([nextToken; startOfValue], InValue)
  | InValue =>
      if ch =? CR then Some ([endOfToken], LineEndCR) else if ch =? LF then Some ([endOfToken], LineStart)
      else Some ([], InValue)
  | HeadersEndCR => if ch =? LF then Some ([endOfHeaders], Final) else None
  | Final => None
  | Error => None
  end.

(** ** The parser *)

(** What [curTok] points to: a list of the request. *)
Inductive token := RequestTok | KeyTok (h : nat) | ValueTok (h : nat).

Definition on_token (t : token) (f : TChunkList -> TChunkList) (r : TRequest) : option TRequest :=
  match t with
  | RequestTok => Some (mk_request (f (Request_ r)) (Headers_ r))
  | KeyTok i =>
      let* h := Headers_ r !! i in
      Some (mk_request (Request_ r) (<[i := mk_header (f (Key h)) (Value h)]> (Headers_ r)))
  | ValueTok i =>
      let* h := Headers_ r !! i in
      Some (mk_request (Request_ r) (<[i := mk_header (Key h) (f (Value h))]> (Headers_ r)))
  end.

Record TParseContext := mk_ctx {
  cs : fsm_state; curTok : option token; curHdr : option nat; Request : TRequest; Unparsed : TChunkList }.

Definition parse_init : TParseContext := mk_ctx Start None None new_request [].

(** An action on byte [p] of chunk [cur], with the start [sp] of the token; [None] is a
    dereferenced null pointer. *)
Definition act (cur : chunk) (p : Z) (a : action) (sc : Z * TParseContext) : option (Z * TParseContext) :=
  let '(sp, c) := sc in
  match a with
  | nextToken => Some (p, c)
  | startOfRequest => Some (sp, mk_ctx (cs c) (Some RequestTok) (curHdr c) (Request c) (Unparsed c))
  | startOfKey =>
      let '(h, r) := NewHeader (Request c) in Some (sp, mk_ctx (cs c) (Some (KeyTok h)) (Some h) r (Unparsed c))
  | startOfValue =>
      let* h := curHdr c in Some (sp, mk_ctx (cs c) (Some (ValueTok h)) None (Request c) (Unparsed c))
  | endOfToken =>
      let* t := curTok c in
      let* r := on_token t (AddPartTo cur sp p) (Request c) in
      Some (sp, mk_ctx (cs c) None (curHdr c) r (Unparsed c))
  | endOfHeaders => Some (sp, c)
  end.

Fixpoint acts (cur : chunk) (p : Z) (l : list action) (sc : Z * TParseContext) : option (Z * TParseContext) :=
  match l with
  | [] => Some sc
  | a :: l => let* sc := act cur p a sc in acts cur p l sc
  end.

(** How the machine leaves a chunk: at its end, on a byte without a transition, or by the
    [return true] of [endOfHeaders] at a byte. *)
Inductive exec_end :=
  | AtEnd (s : fsm_state) (sp : Z) (c : TParseContext)
  | NoTransition (c : TParseContext)
  | Returned (p : Z) (c : TParseContext).

Definition is_return (l : list action) : bool := existsb (fun a => match a with endOfHeaders => true | _ => false end) l.

Fixpoint exec (cur : chunk) (bytes : list Z) (p : Z) (s : fsm_state) (sp : Z) (c : TParseContext) : option exec_end :=
  match bytes with
  | [] => Some (AtEnd s sp c)
  | ch :: bytes =>
      match transition s ch with
      | None => Some (NoTransition c)
      | Some (l, s) =>
          let* (sp, c) := acts cur p l (sp, c) in
          if is_return l then Some (Returned p c) else exec cur bytes (p + 1) s sp c
      end
  end.

Definition set_cs (s : fsm_state) (c : TParseContext) : TParseContext := mk_ctx s (curTok c) (curHdr c) (Request c) (Unparsed c).

(** [ParseChunk]: [true] when the headers are complete; then the rest of the chunk and of
    the list is in [Unparsed]. *)
Fixpoint ParseChunk (c : TParseContext) (lst : TChunkList) : option (res bool * TParseContext) :=
  match lst with
  | [] => Some (Ret false, c)
  | cur :: lst =>
      let* e := exec cur cur 0 (cs c) 0 c in
      match e with
      | NoTransition c => Some (Throw (THttpParseError 400), set_cs Error c)
      | Returned p c =>
          let u := AddPartTo cur (p + 1) (zlen cur) (Unparsed c) in
          Some (Ret true, mk_ctx (cs c) (curTok c) (curHdr c) (Request c) (MoveTo lst u))
      | AtEnd s sp c =>
          let c := set_cs s c in
          match curTok c with
          | None => ParseChunk c lst
          | Some t =>
              let* r := on_token t (AddPartTo cur sp (zlen cur)) (Request c) in
              ParseChunk (mk_ctx (cs c) (curTok c) (curHdr c) r (Unparsed c)) lst
          end
      end
  end.

(** [TRequestParseContext::Parse]: the request and the unparsed rest.  The outer [None] is
    a null pointer or too little fuel. *)
Fixpoint Parse {I} `{IIoInput I} (fuel : nat) (c : TParseContext) (i : I) : option (res (TRequest * TChunkList) * I) :=
  match fuel with
  | O => None
  | S fuel =>
      match DoRecv i with
      | (Throw e, i) => Some (Throw e, i)
      | (Ret lst, i) =>
          if FullLength lst =? 0 then Some (Throw (THttpParseError 400), i)
          else
            let* (r, c) := ParseChunk c lst in
            match r with
            | Throw e => Some (Throw e, i)
            | Ret true => Some (Ret (Request c, Unparsed c), i)
            | Ret false => Parse fuel c i
            end
      end
  end.

(** [InFinalState], [HeadersParsed] *)
Definition InFinalState (c : TParseContext) : bool := bool_decide (cs c = Final).

(** [TPushParseContext::ParseChunk]: the list of the caller gets what is not parsed. *)
Definition push_ParseChunk (c : TParseContext) (lst : TChunkList) : option (res bool * TParseContext * TChunkList) :=
  let* (r, c) := ParseChunk c lst in
  match r with
  | Ret true => Some (Ret true, mk_ctx (cs c) (curTok c) (curHdr c) (Request c) [], Unparsed c)
  | r => Some (r, c, [])
  end.

(** ** [THttpRequestInput] *)

(** The stream that prints a request once, with more headers; nothing for an empty one. *)
Record THttpRequestInput := mk_request_input { R_ : option TRequest; custom : TChunkList }.

Definition request_input (r : TRequest) : THttpRequestInput :=
  mk_request_input (match Request_ r with [] => None | _ => Some r end) [].

(** [MoveTo(customHeaders, &lst)] empties the headers of the stream. *)
#[export] Instance request_input_recv : IIoInput THttpRequestInput := fun t =>
  match R_ t with
  | Some r => (Ret (BuildTo r (custom t)), mk_request_input None [])
  | None => (Ret [], t)
  end.

(** ** [IsHttp] *)

Definition IsHttp (lst : TChunkList) : bool :=
  match CopyData lst 1 with
  | ch :: _ => bool_decide (ch ∈ [103; 71; 112; 80; 104; 72; 100; 68; 116; 84; 99; 67; 111; 79])
  | [] => false
  end.
