(* ===== verification/HParse.v ===== *)
(** * Server kernel: the parser against a flat reference

    The parser of [HHttp] keeps pointers into chunks; the reference below reads one byte
    after the other and appends it to the token its state is in.  They are proved equal
    for every way the bytes are cut into chunks and received. *)

From Stdlib Require Import ZArith Lia Bool.
From stdpp Require Import base numbers list.
From S2P Require Import Prelude HChunks HStream HLaws HHttp.

(** ** The reference *)

(** A request as its bytes: the first line, the names and values of the headers. *)
Record flat_request := mk_flat { line : list Z; fields : list (list Z * list Z) }.

Definition flat_header (h : THeader) : list Z * list Z := (flat (Key h), flat (Value h)).

Definition flatten (r : TRequest) : flat_request := mk_flat (flat (Request_ r)) (map flat_header (Headers_ r)).

Definition grow (t : token) (x : list Z) (r : flat_request) : flat_request :=
  match t with
  | RequestTok => mk_flat (line r ++ x) (fields r)
  | KeyTok i => mk_flat (line r) (alter (fun kv => (kv.1 ++ x, kv.2)) i (fields r))
  | ValueTok i => mk_flat (line r) (alter (fun kv => (kv.1, kv.2 ++ x)) i (fields r))
  end.

(** The token a state is in: a header is the last of [n]. *)
Definition tok_of (s : fsm_state) (n : nat) : option token :=
  match s with
  | InRequest => Some RequestTok
  | InKey => Some (KeyTok (pred n))
  | InValue => Some (ValueTok (pred n))
  | _ => None
  end.

Definition grow_opt (t : option token) (x : list Z) (r : flat_request) : flat_request :=
  match t with Some t => grow t x r | None => r end.

Definition opens_header (s s' : fsm_state) : bool := bool_decide (s = LineStart) && bool_decide (s' = InKey).

Definition open_header (r : flat_request) : flat_request := mk_flat (line r) (fields r ++ [([], [])]).

Inductive flat_end :=
  | FMore (s : fsm_state) (r : flat_request)
  | FBad
  | FDone (r : flat_request) (rest : list Z).

Fixpoint flat_parse (s : fsm_state) (r : flat_request) (bytes : list Z) : flat_end :=
  match bytes with
  | [] => FMore s r
  | ch :: bytes =>
      match transition s ch with
      | None => FBad
      | Some (l, s') =>
          let r := if opens_header s s' then open_header r else r in
          let r := grow_opt (tok_of s' (length (fields r))) [ch] r in
          if is_return l then FDone r bytes else flat_parse s' r bytes
      end
  end.

Definition flat_empty : flat_request := mk_flat [] [].

(** ** Tokens *)

Lemma grow_grow t x y r : grow t y (grow t x r) = grow t (x ++ y) r.
Proof.
  destruct t; cbn; f_equal; rewrite ?app_assoc; auto; rewrite list_alter_alter_eq; apply list_alter_ext; auto;
    intros [k v] _; cbn; rewrite app_assoc; auto.
Qed.

Lemma grow_nil t r : grow t [] r = r.
Proof.
  destruct r as [l f], t; cbn; rewrite ?app_nil_r; auto; f_equal; apply list_alter_id; intros [k v]; cbn; rewrite app_nil_r; auto.
Qed.

Lemma length_grow t x r : length (fields (grow t x r)) = length (fields r).
Proof. destruct t; cbn; rewrite ?length_alter; auto. Qed.

Definition tok_valid (t : token) (n : nat) : Prop := match t with RequestTok => True | KeyTok i | ValueTok i => (i < n)%nat end.

(** Adding a part of a chunk to a token of the request. *)
Lemma on_token_spec cur b e t r : 0 <= b -> e <= zlen cur -> tok_valid t (length (Headers_ r)) ->
  exists r', on_token t (AddPartTo cur b e) r = Some r' /\ flatten r' = grow t (SubChunk b e cur) (flatten r) /\
    length (Headers_ r') = length (Headers_ r).
Proof.
  intros Hb He Hv. destruct r as [rl hs].
  assert (Hmap : forall i h (h' : THeader) (f : list Z * list Z -> list Z * list Z), hs !! i = Some h ->
    flat_header h' = f (flat_header h) -> map flat_header (<[i := h']> hs) = alter f i (map flat_header hs)).
  { intros i h h' f Hi Hf. change (map flat_header) with (fmap (M := list) flat_header). rewrite list_fmap_insert.
    rewrite Hf. apply list_eq. intros j. destruct (decide (i = j)) as [<-|Hne].
    - rewrite list_lookup_alter_eq, list_lookup_insert_eq, list_lookup_fmap, Hi; auto.
      rewrite length_fmap. eapply lookup_lt_Some; eauto.
    - rewrite list_lookup_alter_ne, list_lookup_insert_ne; auto. }
  destruct t as [|i|i]; cbn in Hv; cbn [on_token Headers_ Request_].
  - eexists. split; [reflexivity|]. unfold flatten. cbn. rewrite AddPartTo_flat by lia. auto.
  - destruct (lookup_lt_is_Some_2 _ _ Hv) as [h Hh]. rewrite Hh. eexists. split; [reflexivity|].
    cbn [Headers_]. rewrite length_insert. unfold flatten. cbn [Headers_ Request_ grow line fields]. split; [|auto]. f_equal. eapply Hmap; eauto.
    unfold flat_header. cbn. rewrite AddPartTo_flat by lia. auto.
  - destruct (lookup_lt_is_Some_2 _ _ Hv) as [h Hh]. rewrite Hh. eexists. split; [reflexivity|].
    cbn [Headers_]. rewrite length_insert. unfold flatten. cbn [Headers_ Request_ grow line fields]. split; [|auto]. f_equal. eapply Hmap; eauto.
    unfold flat_header. cbn. rewrite AddPartTo_flat by lia. auto.
Qed.

Lemma SubChunk_snoc b p cur ch rest : 0 <= b <= p -> drop (Z.to_nat p) cur = ch :: rest ->
  SubChunk b (p + 1) cur = SubChunk b p cur ++ [ch].
Proof.
  intros Hb Hd. unfold SubChunk.
  replace (Z.to_nat (p + 1 - b)) with (S (Z.to_nat (p - b))) by lia.
  erewrite take_S_r; [reflexivity|]. rewrite lookup_drop. replace (Z.to_nat b + Z.to_nat (p - b))%nat with (Z.to_nat p) by lia.
  rewrite <- (Nat.add_0_r (Z.to_nat p)), <- lookup_drop, Hd. auto.
Qed.

Lemma SubChunk_empty p cur : SubChunk p p cur = [].
Proof. unfold SubChunk. rewrite Z.sub_diag. reflexivity. Qed.

(** ** One chunk *)

(** The parser at byte [p] of chunk [cur], the machine in [s], against the reference at
    request [r]: the token is what is stored plus the bytes from [sp] to [p]. *)
Record at_byte (cur : chunk) (p : Z) (s : fsm_state) (sp : Z) (c : TParseContext) (r : flat_request) : Prop := {
  ab_tok : curTok c = tok_of s (length (Headers_ (Request c)));
  ab_hdr : s = InKey \/ s = InDelim -> curHdr c = Some (pred (length (Headers_ (Request c))));
  ab_some : s = InKey \/ s = InDelim \/ s = InValue -> (0 < length (Headers_ (Request c)))%nat;
  ab_start : s = Start -> sp = p;
  ab_sp : 0 <= sp <= p;
  ab_p : p <= zlen cur;
  ab_req : r = grow_opt (curTok c) (SubChunk sp p cur) (flatten (Request c)) }.

Lemma at_byte_valid cur p s sp c r t : at_byte cur p s sp c r -> curTok c = Some t ->
  tok_valid t (length (Headers_ (Request c))).
Proof.
  intros H E. rewrite (ab_tok _ _ _ _ _ _ H) in E. pose proof (ab_some _ _ _ _ _ _ H) as Hs.
  destruct s; cbn in E; inv E; cbn; auto; destruct (length (Headers_ (Request c))); cbn; auto; lia || (exfalso; assert (0 < 0)%nat by auto; lia).
Qed.

Lemma length_fields r : length (fields (flatten r)) = length (Headers_ r).
Proof. cbn. apply length_map. Qed.

Lemma length_grow_opt t x r : length (fields (grow_opt t x r)) = length (fields r).
Proof. destruct t; cbn; rewrite ?length_grow; auto. Qed.

Lemma at_byte_length cur p s sp c r : at_byte cur p s sp c r -> length (fields r) = length (Headers_ (Request c)).
Proof. intros H. rewrite (ab_req _ _ _ _ _ _ H), length_grow_opt. apply length_fields. Qed.

Section step.
Context (cur : chunk) (p sp : Z) (s : fsm_state) (c : TParseContext) (r : flat_request) (ch : Z) (rest : list Z).
Context (Hat : at_byte cur p s sp c r) (Hdrop : drop (Z.to_nat p) cur = ch :: rest).

Lemma next_in_chunk : p + 1 <= zlen cur.
Proof.
  apply (f_equal length) in Hdrop. rewrite length_drop in Hdrop. cbn in Hdrop. unfold zlen. pose proof (ab_sp _ _ _ _ _ _ Hat). lia.
Qed.

(** The machine stays in a token. *)
Lemma step_in_token s' t : curTok c = Some t -> tok_of s' (length (Headers_ (Request c))) = Some t ->
  (s' = InKey -> s = InKey) -> s' <> InDelim ->
  (s' = InValue -> s = InValue) -> s' <> Start ->
  at_byte cur (p + 1) s' sp c (grow t [ch] r).
Proof.
  intros Ht Ht' Hk Hd Hv Hs. pose proof next_in_chunk. destruct Hat as [T1 T2 T3 T4 T5 T6 T7].
  split; auto; try lia; try congruence.
  - intros [-> | ->]; [auto|congruence].
  - intros [-> | [-> | ->]]; [auto|congruence|auto].
  - rewrite T7, Ht. cbn. rewrite grow_grow, (SubChunk_snoc _ _ _ ch rest) by auto. auto.
Qed.

(** The machine is between tokens before and after the byte, with a new [sp] or the old one. *)
Lemma step_between s' sp' : curTok c = None -> tok_of s' (length (Headers_ (Request c))) = None ->
  (s' = InDelim -> s = InDelim) -> s' <> Start -> 0 <= sp' <= p -> at_byte cur (p + 1) s' sp' c r.
Proof.
  intros Ht Ht' Hd Hs Hsp. pose proof next_in_chunk. destruct Hat as [T1 T2 T3 T4 T5 T6 T7].
  split; auto; try lia; try congruence.
  - intros [-> | ->]; [discriminate|auto].
  - intros [-> | [-> | ->]]; [discriminate|auto|discriminate].
  - rewrite T7, Ht. auto.
Qed.

(** The token ends before the byte. *)
Lemma step_end s' t : curTok c = Some t -> tok_of s' (length (Headers_ (Request c))) = None ->
  (s' = InDelim -> s = InKey) -> s' <> Start ->
  exists c', act cur p endOfToken (sp, c) = Some (sp, c') /\ cs c' = cs c /\ Unparsed c' = Unparsed c /\
    at_byte cur (p + 1) s' sp c' r.
Proof.
  intros Ht Ht' Hd Hs. pose proof next_in_chunk. pose proof (at_byte_valid _ _ _ _ _ _ _ Hat Ht) as Hv.
  destruct Hat as [T1 T2 T3 T4 T5 T6 T7]. destruct (on_token_spec cur sp p t (Request c)) as (r'&E&F&L); [lia|lia|auto|].
  unfold act. rewrite Ht, E. eexists. split; [reflexivity|]. cbn. conj; auto.
  split; cbn; rewrite ?L; auto; try lia; try congruence.
  - intros [-> | ->]; [discriminate|auto].
  - intros [-> | [-> | ->]]; [discriminate|auto|discriminate].
  - rewrite F, T7, Ht. auto.
Qed.
End step.

(** What the reference does with one byte that has a transition. *)
Definition flat_next (s s' : fsm_state) (ch : Z) (r : flat_request) : flat_request :=
  let r := if opens_header s s' then open_header r else r in
  grow_opt (tok_of s' (length (fields r))) [ch] r.

Lemma grow_last_key hs ch l : grow (KeyTok (length hs)) [ch] (mk_flat l (hs ++ [([], [])])) = mk_flat l (hs ++ [([ch], [])]).
Proof. cbn. f_equal. rewrite alter_app_r_alt, Nat.sub_diag by lia. auto. Qed.

(** The first byte of the name of a header. *)
Lemma step_key cur p sp c r ch rest : at_byte cur p LineStart sp c r -> drop (Z.to_nat p) cur = ch :: rest ->
  exists c', acts cur p [nextToken; startOfKey] (sp, c) = Some (p, c') /\ cs c' = cs c /\ Unparsed c' = Unparsed c /\
    at_byte cur (p + 1) InKey p c' (flat_next LineStart InKey ch r).
Proof.
  intros Hat Hd. pose proof (next_in_chunk _ _ _ _ _ _ _ _ Hat Hd). destruct Hat as [T1 T2 T3 T4 T5 T6 T7].
  cbn. eexists. split; [reflexivity|]. cbn. conj; auto.
  split; cbn; rewrite ?length_app, ?Nat.add_1_r; auto; try lia; try discriminate.
  unfold flat_next, opens_header. cbn [bool_decide]. rewrite !bool_decide_eq_true_2 by auto. cbn -[alter].
  rewrite (SubChunk_snoc _ _ _ ch rest), SubChunk_empty by (auto; lia).
  rewrite T7, T1. cbn -[alter]. unfold flatten. cbn -[alter]. rewrite map_app, length_app, !length_map. cbn -[alter].
  rewrite Nat.add_1_r. reflexivity.
Qed.

Lemma step_value cur p sp c r ch rest : at_byte cur p InDelim sp c r -> drop (Z.to_nat p) cur = ch :: rest ->
  exists c', acts cur p [nextToken; startOfValue] (sp, c) = Some (p, c') /\ cs c' = cs c /\ Unparsed c' = Unparsed c /\
    at_byte cur (p + 1) InValue p c' (flat_next InDelim InValue ch r).
Proof.
  intros Hat Hd. pose proof (next_in_chunk _ _ _ _ _ _ _ _ Hat Hd).
  pose proof (at_byte_length _ _ _ _ _ _ Hat) as HL. destruct Hat as [T1 T2 T3 T4 T5 T6 T7].
  cbn. rewrite T2 by auto. eexists. split; [reflexivity|]. cbn. conj; auto.
  split; cbn; auto; try lia; try discriminate.
  - intros [?|?]; discriminate.
  - unfold flat_next. change (opens_header InDelim InValue) with false. cbv iota zeta. rewrite HL.
    rewrite (SubChunk_snoc _ _ _ ch rest), SubChunk_empty by (auto; lia). rewrite T7, T1. reflexivity.
Qed.

Lemma step_request cur p sp c r ch rest : at_byte cur p Start sp c r -> drop (Z.to_nat p) cur = ch :: rest ->
  exists c', acts cur p [startOfRequest] (sp, c) = Some (sp, c') /\ cs c' = cs c /\ Unparsed c' = Unparsed c /\
    at_byte cur (p + 1) InRequest sp c' (flat_next Start InRequest ch r).
Proof.
  intros Hat Hd. pose proof (next_in_chunk _ _ _ _ _ _ _ _ Hat Hd). destruct Hat as [T1 T2 T3 T4 T5 T6 T7].
  cbn. eexists. split; [reflexivity|]. cbn. conj; auto.
  split; cbn; auto; try lia; try discriminate.
  - intros [?|?]; discriminate.
  - intros [?|[?|?]]; discriminate.
  - unfold flat_next. change (opens_header Start InRequest) with false. cbv iota zeta. rewrite T4 in * by auto.
    rewrite (SubChunk_snoc _ _ _ ch rest), SubChunk_empty by (auto; lia). rewrite T7, T1. reflexivity.
Qed.

Lemma flat_next_other s s' ch r : opens_header s s' = false -> flat_next s s' ch r = grow_opt (tok_of s' (length (fields r))) [ch] r.
Proof. intros H. unfold flat_next. rewrite H. auto. Qed.

(** One byte: the actions of the transition do what the reference does. *)
Lemma step_spec cur p sp s c r ch rest l s' :
  at_byte cur p s sp c r -> drop (Z.to_nat p) cur = ch :: rest -> transition s ch = Some (l, s') ->
  exists sp' c', acts cur p l (sp, c) = Some (sp', c') /\ cs c' = cs c /\ Unparsed c' = Unparsed c /\
    at_byte cur (p + 1) s' sp' c' (flat_next s s' ch r).
Proof.
  intros Hat Hd Ht. pose proof (ab_tok _ _ _ _ _ _ Hat) as Htok. pose proof (ab_sp _ _ _ _ _ _ Hat) as Hsp.
  pose proof (at_byte_length _ _ _ _ _ _ Hat) as HL.
  assert (Hend : forall s', s' <> Start -> (s' = InDelim -> s = InKey) -> tok_of s' (length (Headers_ (Request c))) = None ->
    curTok c <> None -> opens_header s s' = false ->
    exists sp' c', acts cur p [endOfToken] (sp, c) = Some (sp', c') /\ cs c' = cs c /\ Unparsed c' = Unparsed c /\
    at_byte cur (p + 1) s' sp' c' (flat_next s s' ch r)).
  { intros s0 H1 H2 H3 H4 H5. destruct (curTok c) as [t|] eqn:Et; [|tauto].
    destruct (step_end _ _ _ _ _ _ _ _ Hat Hd s0 t Et H3 H2 H1) as (c'&E&C1&C2&C3).
    exists sp, c'. cbn [acts]. rewrite E, flat_next_other, HL, H3 by auto. auto. }
  assert (Hbetween : forall s' l sp', acts cur p l (sp, c) = Some (sp', c) -> s' <> Start -> (s' = InDelim -> s = InDelim) ->
    tok_of s' (length (Headers_ (Request c))) = None -> curTok c = None -> opens_header s s' = false -> 0 <= sp' <= p ->
    exists sp' c', acts cur p l (sp, c) = Some (sp', c') /\ cs c' = cs c /\ Unparsed c' = Unparsed c /\
    at_byte cur (p + 1) s' sp' c' (flat_next s s' ch r)).
  { intros s0 l0 sp0 El H1 H2 H3 H4 H5 H6. exists sp0, c. rewrite flat_next_other, HL, H3 by auto. conj; auto.
    apply (step_between _ _ _ _ _ _ _ _ Hat Hd s0 sp0); auto. }
  assert (Hin : forall t, tok_of s (length (Headers_ (Request c))) = Some t -> s <> InDelim -> s <> Start -> opens_header s s = false ->
    exists sp' c', acts cur p [] (sp, c) = Some (sp', c') /\ cs c' = cs c /\ Unparsed c' = Unparsed c /\
    at_byte cur (p + 1) s sp' c' (flat_next s s ch r)).
  { intros t H1 H2 H3 H4. exists sp, c. rewrite flat_next_other, HL, H1 by auto. conj; auto.
    apply (step_in_token _ _ _ _ _ _ _ _ Hat Hd s t); auto; congruence. }
  unfold transition in Ht.
  destruct s; repeat (match type of Ht with (if ?b then _ else _) = _ => destruct b end); inv Ht; cbn in Htok;
    first [ solve [destruct (step_request _ _ _ _ _ _ _ Hat Hd) as (c'&?); eauto]
          | solve [destruct (step_key _ _ _ _ _ _ _ Hat Hd) as (c'&?); eauto]
          | solve [destruct (step_value _ _ _ _ _ _ _ Hat Hd) as (c'&?); eauto]
          | solve [apply Hend; auto; congruence]
          | solve [eapply Hin; cbn; eauto; congruence]
          | solve [eapply (Hbetween _ _ sp); cbn; auto; congruence || lia]
          | solve [eapply (Hbetween _ _ p); cbn; auto; congruence || lia] ].
Qed.

(** A whole chunk. *)
Lemma exec_spec cur bytes p s sp c r : at_byte cur p s sp c r -> bytes = drop (Z.to_nat p) cur ->
  match flat_parse s r bytes with
  | FMore s' r' => exists sp' c', exec cur bytes p s sp c = Some (AtEnd s' sp' c') /\ Unparsed c' = Unparsed c /\ cs c' = cs c /\
      at_byte cur (zlen cur) s' sp' c' r'
  | FBad => exists c', exec cur bytes p s sp c = Some (NoTransition c') /\
      forall t, curTok c' = Some t -> tok_valid t (length (Headers_ (Request c')))
  | FDone r' rest => exists p' c', exec cur bytes p s sp c = Some (Returned p' c') /\ Unparsed c' = Unparsed c /\ cs c' = cs c /\
      0 <= p' /\ rest = drop (Z.to_nat (p' + 1)) cur /\ flatten (Request c') = r'
  end.
Proof.
  revert p s sp c r. induction bytes as [|ch bytes IH]; intros p s sp c r Hat Hb; cbn.
  - exists sp, c. conj; auto. replace (zlen cur) with p; [auto|]. apply (f_equal length) in Hb.
    rewrite length_drop in Hb. cbn in Hb. pose proof (ab_p _ _ _ _ _ _ Hat). pose proof (ab_sp _ _ _ _ _ _ Hat). unfold zlen in *. lia.
  - destruct (transition s ch) as [[l s']|] eqn:Ht; [|eauto using at_byte_valid]. symmetry in Hb.
    destruct (step_spec _ _ _ _ _ _ _ _ _ _ Hat Hb Ht) as (sp'&c'&E&C1&C2&C3). rewrite E.
    change (grow_opt _ _ _) with (flat_next s s' ch r).
    assert (Hp : 0 <= p) by (pose proof (ab_sp _ _ _ _ _ _ Hat); lia).
    assert (Hb' : bytes = drop (Z.to_nat (p + 1)) cur).
    { replace (Z.to_nat (p + 1)) with (Z.to_nat p + 1)%nat by lia. rewrite <- drop_drop, Hb. auto. }
    destruct (is_return l) eqn:Hr.
    + exists p, c'. conj; auto. rewrite (ab_req _ _ _ _ _ _ C3), (ab_tok _ _ _ _ _ _ C3).
      assert (s' = Final) as ->; [|auto].
      unfold transition in Ht. destruct s; repeat (match type of Ht with (if ?b then _ else _) = _ => destruct b end); inv Ht; auto; discriminate.
    + specialize (IH _ _ _ _ _ C3 Hb'). destruct (flat_parse s' (flat_next s s' ch r) bytes).
      * destruct IH as (sp2&c2&E2&D1&D2&D3). exists sp2, c2. conj; auto; congruence.
      * auto.
      * destruct IH as (p2&c2&E2&D1&D2&D3). exists p2, c2. conj; auto; try congruence; apply D3.
Qed.

(** What is left after the head is shorter than what was read. *)
Lemma flat_parse_shorter s r x r' rest : flat_parse s r x = FDone r' rest -> (length rest < length x)%nat.
Proof.
  revert s r. induction x as [|ch x IH]; intros s r E; cbn in E; [discriminate|].
  destruct (transition s ch) as [[l s']|]; [|discriminate]. cbn. destruct (is_return l); [inv E; lia|]. apply IH in E. lia.
Qed.

(** ** Lists of chunks *)

(** The parser between two chunks. *)
Definition between (c : TParseContext) (r : flat_request) : Prop := at_byte [] 0 (cs c) 0 c r.

Lemma between_chunk c r cur : between c r -> at_byte cur 0 (cs c) 0 c r.
Proof.
  intros [T1 T2 T3 T4 T5 T6 T7]. split; auto using zlen_nonneg.
Qed.

Lemma flat_parse_app s r a b :
  flat_parse s r (a ++ b) =
  match flat_parse s r a with
  | FMore s' r' => flat_parse s' r' b
  | FBad => FBad
  | FDone r' rest => FDone r' (rest ++ b)
  end.
Proof.
  revert s r. induction a as [|ch a IH]; intros s r; cbn; [auto|]. destruct (transition s ch) as [[l s']|]; [|auto].
  destruct (is_return l); auto.
Qed.

(** Storing the pending part at the end of a chunk. *)
Lemma store_pending cur s sp c r : at_byte cur (zlen cur) s sp c r ->
  exists c', match curTok c with
    | None => Some (set_cs s c)
    | Some t => let* rq := on_token t (AddPartTo cur sp (zlen cur)) (Request c) in
        Some (mk_ctx s (curTok c) (curHdr c) rq (Unparsed c))
    end = Some c' /\ between c' r /\ Unparsed c' = Unparsed c /\ cs c' = s.
Proof.
  intros Hat. pose proof Hat as [T1 T2 T3 T4 T5 T6 T7]. destruct (curTok c) as [t|] eqn:Et.
  - destruct (on_token_spec cur sp (zlen cur) t (Request c)) as (r'&E&F&L); [lia|lia|eapply at_byte_valid; eauto|].
    rewrite E. eexists. split; [reflexivity|]. cbn. conj; auto.
    split; cbn; rewrite ?L; auto using zlen_nonneg; try lia. change (SubChunk 0 0 []) with (@nil Z). cbn. rewrite grow_nil, F. auto.
  - eexists. split; [reflexivity|]. cbn. conj; auto. split; cbn; auto using zlen_nonneg; try lia; rewrite Et; auto.
Qed.

(** The parser on a list of chunks is the reference on its bytes: same verdict, same
    request, and what is left is what the reference leaves; no null pointer is used. *)
Lemma ParseChunk_spec c r lst : between c r ->
  exists res c', ParseChunk c lst = Some (res, c') /\
  match flat_parse (cs c) r (flat lst) with
  | FMore s' r' => res = Ret false /\ cs c' = s' /\ between c' r' /\ Unparsed c' = Unparsed c
  | FBad => res = Throw (THttpParseError 400)
  | FDone r' rest => res = Ret true /\ flatten (Request c') = r' /\ flat (Unparsed c') = flat (Unparsed c) ++ rest /\
      (clean (Unparsed c) -> clean lst -> clean (Unparsed c'))
  end.
Proof.
  revert c r. induction lst as [|cur lst IH]; intros c r Hc; cbn.
  - exists (Ret false), c. rewrite flat_nil. cbn. auto.
  - rewrite flat_cons, flat_parse_app. pose proof (between_chunk _ _ cur Hc) as Hat.
    pose proof (exec_spec cur cur 0 (cs c) 0 c r Hat eq_refl) as Hx.
    destruct (flat_parse (cs c) r cur) as [s' r'| |r' rest].
    + destruct Hx as (sp'&c'&E&U&_&Hat'). rewrite E.
      destruct (store_pending _ _ _ _ _ Hat') as (c2&E2&B2&U2&S2).
      assert (Hgo : exists res c', ParseChunk c2 lst = Some (res, c') /\
        match flat_parse s' r' (flat lst) with
        | FMore s'0 r'0 => res = Ret false /\ cs c' = s'0 /\ between c' r'0 /\ Unparsed c' = Unparsed c
        | FBad => res = Throw (THttpParseError 400)
        | FDone r'0 rest => res = Ret true /\ flatten (Request c') = r'0 /\ flat (Unparsed c') = flat (Unparsed c) ++ rest /\
            (clean (Unparsed c) -> clean (cur :: lst) -> clean (Unparsed c'))
        end).
      { destruct (IH _ _ B2) as (res&c3&E3&R3). exists res, c3. split; [auto|]. rewrite S2, U2, U in R3.
        destruct (flat_parse s' r' (flat lst)); auto. destruct R3 as (?&?&?&R). conj; auto.
        intros Hu Hl. inv Hl. auto. }
      cbn. destruct (curTok c') as [t|] eqn:Et; [|inv E2; auto].
      destruct (on_token t (AddPartTo cur sp' (zlen cur)) (Request c')) as [rq|]; [|discriminate]. inv E2. auto.
    + destruct Hx as (c'&E&_). rewrite E. eexists _, _. split; [reflexivity|]. auto.
    + destruct Hx as (p'&c'&E&U&_&Hp&Hr&Hf). rewrite E. eexists _, _. split; [reflexivity|]. cbn. unfold MoveTo. conj; auto.
      * rewrite flat_app, AddPartTo_flat, U, Hr, SubChunk_suffix by lia. rewrite <- app_assoc. auto.
      * intros Hu Hl. inv Hl. apply Forall_app. split; [|auto]. rewrite U. apply AddPartTo_clean; auto; lia.
Qed.

Lemma parse_init_between : between parse_init flat_empty.
Proof. split; cbn; auto using zlen_nonneg; try lia; intuition discriminate. Qed.

(** [cs] never becomes the final state: the action that would enter it returns first. *)
Lemma exec_not_final cur bytes p s sp c e : s <> Final -> cs c <> Final -> exec cur bytes p s sp c = Some e ->
  match e with AtEnd s' _ c' => s' <> Final /\ cs c' <> Final | NoTransition c' | Returned _ c' => cs c' <> Final end.
Proof.
  revert p s sp c. induction bytes as [|ch bytes IH]; intros p s sp c Hs Hc E; cbn in E; [inv E; auto|].
  destruct (transition s ch) as [[l s']|] eqn:Ht; [|inv E; auto].
  destruct (acts cur p l (sp, c)) as [[sp' c']|] eqn:Ea; [|discriminate].
  assert (Hc' : cs c' = cs c).
  { clear -Ea. revert sp c Ea. induction l as [|a l IHl]; intros sp c Ea; cbn [acts] in Ea; [inv Ea; auto|].
    destruct (act cur p a (sp, c)) as [[sp1 c1]|] eqn:E1; [|discriminate]. rewrite (IHl _ _ Ea).
    destruct a; cbn in E1; repeat (match type of E1 with match ?x with _ => _ end = _ => destruct x; [|discriminate] end);
      inv E1; auto. }
  destruct (is_return l) eqn:Hr; [inv E; congruence|]. refine (IH _ _ _ _ _ _ E); [|congruence].
  intros ->. unfold transition in Ht.
  destruct s; repeat (match type of Ht with (if ?b then _ else _) = _ => destruct b end); inv Ht; discriminate.
Qed.

Lemma ParseChunk_not_final c lst r c' : cs c <> Final -> ParseChunk c lst = Some (r, c') -> cs c' <> Final.
Proof.
  revert c. induction lst as [|cur lst IH]; intros c Hc E; cbn in E; [inv E; auto|].
  destruct (exec cur cur 0 (cs c) 0 c) as [e|] eqn:Ee; [|discriminate].
  pose proof (exec_not_final _ _ _ _ _ _ _ Hc Hc Ee) as Hn. destruct e as [s' sp' c1|c1|p' c1].
  - cbn in E. destruct (curTok c1); [|eapply IH; [|eauto]; apply Hn].
    destruct (on_token _ _ _); [|discriminate]. eapply IH; [|eauto]. apply Hn.
  - inv E. discriminate.
  - inv E. auto.
Qed.

(** ** No undefined behaviour *)

(** A context between two chunks, or after an error. *)
Definition safe_ctx (c : TParseContext) : Prop :=
  (exists r, between c r) \/ (cs c = Error /\ forall t, curTok c = Some t -> tok_valid t (length (Headers_ (Request c)))).

Lemma safe_error c : (forall t, curTok c = Some t -> tok_valid t (length (Headers_ (Request c)))) -> safe_ctx (set_cs Error c).
Proof. intros Hv. right. auto. Qed.

(** The parser may be called again after an error; it never uses a null pointer. *)
Lemma ParseChunk_safe c lst : safe_ctx c ->
  exists r c', ParseChunk c lst = Some (r, c') /\ (r <> Ret true -> safe_ctx c').
Proof.
  revert c. induction lst as [|cur lst IH]; intros c Hs; [exists (Ret false), c; auto|]. cbn [ParseChunk].
  destruct Hs as [[r Hb]|[Hc Hv]].
  - pose proof (exec_spec cur cur 0 (cs c) 0 c r (between_chunk _ _ cur Hb) eq_refl) as Hx.
    destruct (flat_parse (cs c) r cur) as [s' r'| |r' rest].
    + destruct Hx as (sp'&c'&E&_&_&Hat). rewrite E. destruct (store_pending _ _ _ _ _ Hat) as (c2&E2&B2&_).
      assert (Hgo : exists r c', ParseChunk c2 lst = Some (r, c') /\ (r <> Ret true -> safe_ctx c')) by (apply IH; left; eauto).
      cbn [set_cs curTok Request cs curHdr Unparsed]. destruct (curTok c') as [t|]; [|inv E2; auto].
      destruct (on_token t (AddPartTo cur sp' (zlen cur)) (Request c')); [|discriminate]. inv E2. auto.
    + destruct Hx as (c'&E&Hv). rewrite E. eexists _, _. split; [reflexivity|]. intros _. apply safe_error. auto.
    + destruct Hx as (p'&c'&E&_). rewrite E. eexists _, _. split; [reflexivity|]. tauto.
  - rewrite Hc. destruct cur as [|ch cur]; cbn [exec transition].
    + destruct (curTok (set_cs Error c)) as [t|] eqn:Et; [|apply IH; right; auto].
      destruct (on_token_spec [] 0 (zlen (@nil Z)) t (Request (set_cs Error c))) as (r'&E&_&L); [lia|lia|apply Hv; auto|]. rewrite E.
      apply IH. right. cbn. rewrite L. split; [auto|]. intros t0 Ht. apply Hv. cbn in Et. congruence.
    + eexists _, _. split; [reflexivity|]. intros _. apply safe_error. auto.
Qed.

(** ** After a head *)

(** The header that waits for its value is the last one. *)
Definition hdr_last (c : TParseContext) : Prop := forall h, curHdr c = Some h -> S h = length (Headers_ (Request c)).

Lemma on_token_headers t f r r' : on_token t f r = Some r' -> length (Headers_ r') = length (Headers_ r).
Proof.
  destruct t as [|i|i]; cbn; [intros E; injection E as <-; auto|..]; destruct (Headers_ r !! i); intros E; inv E; apply length_insert.
Qed.

Lemma acts_hdr_last cur p l sp c sp' c' : hdr_last c -> acts cur p l (sp, c) = Some (sp', c') -> hdr_last c'.
Proof.
  revert sp c. induction l as [|a l IH]; intros sp c H E; cbn [acts] in E; [inv E; auto|].
  destruct (act cur p a (sp, c)) as [[sp1 c1]|] eqn:E1; [|discriminate]. apply (IH sp1 c1); [|exact E]. clear IH E.
  destruct a; cbn in E1; try (inv E1; exact H).
  - inv E1. intros h Eh. cbn in *. injection Eh as <-. rewrite length_app. cbn. lia.
  - destruct (curHdr c); [|discriminate]. inv E1. intros h Eh. discriminate.
  - destruct (curTok c) as [t|]; [|discriminate]. cbn in E1. destruct (on_token _ _ _) as [r'|] eqn:Er; [|discriminate]. inv E1.
    intros h Eh. cbn in *. rewrite (on_token_headers _ _ _ _ Er). auto.
Qed.

Lemma exec_hdr_last cur bytes p s sp c e : hdr_last c -> exec cur bytes p s sp c = Some e ->
  match e with AtEnd _ _ c' | NoTransition c' | Returned _ c' => hdr_last c' end.
Proof.
  revert p s sp c. induction bytes as [|ch bytes IH]; intros p s sp c H E; cbn in E; [inv E; auto|].
  destruct (transition s ch) as [[l s']|]; [|inv E; auto]. destruct (acts cur p l (sp, c)) as [[sp' c']|] eqn:Ea; [|discriminate]. cbn in E.
  pose proof (acts_hdr_last _ _ _ _ _ _ _ H Ea). destruct (is_return l); [inv E; auto|]. eapply IH; eauto.
Qed.

(** At the end of a head no token is open. *)
Lemma exec_returned cur bytes p s sp c r p' c' : at_byte cur p s sp c r -> bytes = drop (Z.to_nat p) cur ->
  exec cur bytes p s sp c = Some (Returned p' c') -> curTok c' = None /\ cs c' = cs c.
Proof.
  revert p s sp c r. induction bytes as [|ch bytes IH]; intros p s sp c r Hat Hb E; cbn in E; [discriminate|].
  destruct (transition s ch) as [[l s']|] eqn:Ht; [|discriminate]. symmetry in Hb.
  destruct (step_spec _ _ _ _ _ _ _ _ _ _ Hat Hb Ht) as (sp'&c1&E1&C1&C2&C3). rewrite E1 in E. cbn in E. destruct (is_return l) eqn:Hr.
  - inv E. rewrite (ab_tok _ _ _ _ _ _ C3). split; [|auto]. unfold transition in Ht.
    destruct s; repeat (match type of Ht with (if ?b then _ else _) = _ => destruct b end); inv Ht; auto; discriminate.
  - rewrite <- C1. eapply IH; [exact C3| |exact E]. pose proof (ab_sp _ _ _ _ _ _ Hat). replace (Z.to_nat (p + 1)) with (Z.to_nat p + 1)%nat by lia. rewrite <- drop_drop, Hb. auto.
Qed.

Lemma ParseChunk_end c lst r c' : safe_ctx c -> hdr_last c -> ParseChunk c lst = Some (r, c') ->
  hdr_last c' /\ (r = Ret true -> curTok c' = None).
Proof.
  revert c. induction lst as [|cur lst IH]; intros c Hs Hh E; [inv E; split; [auto|discriminate]|]. cbn [ParseChunk] in E.
  destruct (exec cur cur 0 (cs c) 0 c) as [e|] eqn:Ee; [|discriminate]. cbn in E. pose proof (exec_hdr_last _ _ _ _ _ _ _ Hh Ee) as Hl.
  destruct e as [s' sp' c1|c1|p' c1].
  - assert (Hgo : forall c2, hdr_last c2 -> safe_ctx c2 -> ParseChunk c2 lst = Some (r, c') -> hdr_last c' /\ (r = Ret true -> curTok c' = None)) by (intros c2 H2 S2 E2; exact (IH c2 S2 H2 E2)).
    destruct Hs as [[q Hb]|[Hc Hv]].
    + pose proof (exec_spec cur cur 0 (cs c) 0 c q (between_chunk _ _ cur Hb) eq_refl) as Hx. rewrite Ee in Hx.
      destruct (flat_parse (cs c) q cur) as [s2 r2| |r2 rest]; [|destruct Hx as (?&?&_); discriminate|destruct Hx as (?&?&?&_); discriminate].
      destruct Hx as (sp2&c2&E2&_&_&Hat). inv E2. destruct (store_pending _ _ _ _ _ Hat) as (c3&E3&B3&_).
      destruct (curTok c2) as [t|]; [|inv E3; apply (Hgo (set_cs s2 c2)); [exact Hl|left; eauto|exact E]].
      destruct (on_token t _ (Request c2)) as [rq|] eqn:Er; [|discriminate]. cbn in E. inv E3. refine (Hgo _ _ _ E); [|left; eauto].
      intros h Eh. cbn in *. rewrite (on_token_headers _ _ _ _ Er). auto.
    + rewrite Hc in Ee. destruct cur as [|ch cur]; [|discriminate]. inv Ee. cbn [set_cs curTok Request cs curHdr Unparsed] in E. destruct (curTok c1) as [t|] eqn:Et.
      * destruct (on_token t _ (Request c1)) as [rq|] eqn:Er; [|discriminate]. cbn in E. refine (Hgo _ _ _ E).
        -- intros h Eh. cbn in *. rewrite (on_token_headers _ _ _ _ Er). auto.
        -- right. cbn. split; [auto|]. intros t0 Ht. rewrite (on_token_headers _ _ _ _ Er). apply Hv. congruence.
      * refine (Hgo _ _ _ E); [exact Hl|]. right. split; [auto|]. cbn. intros t0 Ht. congruence.
  - inv E. split; [exact Hl|discriminate].
  - inv E. split; [exact Hl|]. intros _. cbn. destruct Hs as [[q Hb]|[Hc Hv]].
    + exact (proj1 (exec_returned _ _ _ _ _ _ _ _ _ (between_chunk _ _ cur Hb) eq_refl Ee)).
    + rewrite Hc in Ee. destruct cur; discriminate.
Qed.

(** The state in which the last chunk of a head began is one in the middle of a token, or
    in front of the value of a header that has had it. *)
Definition mid_token (c : TParseContext) : Prop :=
  match cs c with InRequest | InKey | InValue => True | InDelim => curHdr c = None | _ => False end.

(** A context that is used again after a head: the machine goes on in that state. *)
Lemma reused_context c : hdr_last c -> curTok c = None -> ((exists next, ParseChunk c next = None) <-> mid_token c).
Proof.
  intros Hh Ht. unfold mid_token. split.
  - intros [next E]. assert (Hn : ~ safe_ctx c) by (intros Hs; destruct (ParseChunk_safe c next Hs) as (r&c'&E'&_); congruence).
    assert (Hb : tok_of (cs c) (length (Headers_ (Request c))) = None -> (cs c = InDelim -> exists h, curHdr c = Some h) -> cs c <> InKey -> cs c <> InValue -> False).
    { intros H1 H2 H3 H4. apply Hn. left. exists (flatten (Request c)). assert (H5 : cs c = InDelim -> curHdr c = Some (pred (length (Headers_ (Request c)))) /\ (0 < length (Headers_ (Request c)))%nat).
      { intros Hd. destruct (H2 Hd) as [h Eh]. pose proof (Hh h Eh) as Hl. rewrite <- Hl. cbn. split; [exact Eh|lia]. }
      split; rewrite ?Ht, ?H1; auto using zlen_nonneg; try lia; intuition congruence. }
    destruct (cs c) eqn:Ec; auto; try (apply Hb; cbn; auto; congruence).
    destruct (curHdr c) as [h|] eqn:Eh; [|auto]. exfalso. apply Hb; cbn; eauto; congruence.
  - destruct (cs c) eqn:Ec; try tauto; intros Hm; [exists [[CR]]|exists [[COLON]]|exists [[97]]|exists [[CR]]]; cbn [ParseChunk]; rewrite Ec; cbn; rewrite ?Ht, ?Hm; reflexivity.
Qed.
