(* ===== verification/HRequest.v ===== *)
(** * Server kernel: parsing and printing requests

    [Parse] over any stream against the flat reference, well-formed requests, and the
    round trip of [BuildTo] and [Parse]. *)

From Stdlib Require Import ZArith Lia Bool.
From stdpp Require Import base numbers list.
From S2P Require Import Prelude HChunks HStream HLaws HHttp HParse.

(** ** Parsing a stream *)

Section parse.
Context {I : Type} `{InputLaws I}.

Lemma Parse_spec fuel c r i : between c r -> Unparsed c = [] -> ok i -> (length (content i) < fuel)%nat ->
  exists res i', Parse fuel c i = Some (res, i') /\ ok i' /\ final i' = final i /\
  match flat_parse (cs c) r (content i) with
  | FDone r' rest => exists req un, res = Ret (req, un) /\ flatten req = r' /\ rest = flat un ++ content i' /\
      ((forall (i : I) l i', ok i -> DoRecv i = (Ret l, i') -> clean l) -> clean un)
  | FBad => res = Throw (THttpParseError 400)
  | FMore _ _ => res = Throw (default (THttpParseError 400) (final i)) /\ content i' = []
  end.
Proof.
  revert c r i. induction fuel as [|fuel IH]; intros c r i Hc Hu Hok Hf; [lia|]. cbn.
  destruct (DoRecv i) as [rr i1] eqn:E. destruct (recv_delivers _ _ _ Hok E) as (Ho1&Hf1&D). destruct rr as [l|e].
  - destruct D as [D D0]. rewrite FullLength_flat. destruct (Z.eqb_spec (zlen (flat l)) 0) as [Hz|Hz].
    + destruct (D0 (zlen_0 _ Hz)) as (->&D1&D2). eexists _, _. split; [reflexivity|]. rewrite D1, D2. rewrite D1, flat_nil in D. cbn. conj; auto; congruence.
    + destruct (ParseChunk_spec _ _ l Hc) as (res&c'&E1&P). rewrite E1, D, flat_parse_app.
      destruct (flat_parse (cs c) r (flat l)) as [s' r'| |r' rest].
      * destruct P as (->&P1&P2&P3). rewrite <- P1. rewrite <- Hf1.
        apply IH; [auto|congruence|auto|]. rewrite D, length_app in Hf. destruct (flat l); [tauto|cbn in Hf; lia].
      * subst res. eexists _, _. split; [reflexivity|]. auto.
      * destruct P as (->&P1&P2&P3). eexists _, _. split; [reflexivity|]. conj; auto. eexists _, _. split; [reflexivity|].
        rewrite P2, Hu, flat_nil. cbn. conj; auto. intros Hcl. apply P3; [rewrite Hu; constructor|]. exact (Hcl _ _ _ Hok E).
  - destruct D as (D1&D2&D3). eexists _, _. split; [reflexivity|]. rewrite Hf1, D1, D2. cbn. conj; auto.
Qed.
End parse.

(** ** Well-formed requests *)

Definition char_ok (ch : Z) : Prop := ch <> CR /\ ch <> LF.
Definition hchar_ok (ch : Z) : Prop := char_ok ch /\ hdelim ch = false.

Record wf_field (kv : list Z * list Z) : Prop := {
  wf_key : kv.1 <> [] /\ Forall hchar_ok kv.1;
  wf_value : match kv.2 with [] => True | ch :: _ => hdelim ch = false end /\ Forall char_ok kv.2 }.

Record wf_flat (r : flat_request) : Prop := {
  wf_line : line r <> [] /\ Forall char_ok (line r);
  wf_fields : Forall wf_field (fields r) }.

(** What [BuildTo] prints. *)
Definition print_field (kv : list Z * list Z) : list Z := kv.1 ++ HDRD ++ kv.2 ++ CRLF.

Definition print_flat (r : flat_request) (custom : list Z) : list Z :=
  line r ++ CRLF ++ concat (map print_field (fields r)) ++ custom ++ CRLF.

Lemma BuildTo_flat r custom : flat (BuildTo r custom) = print_flat (flatten r) (flat custom).
Proof.
  unfold BuildTo, print_flat. autorewrite with chunks. cbn [flatten line fields]. do 3 f_equal.
  induction (Headers_ r) as [|h hs IH]; [reflexivity|]. cbn [map concat]. rewrite flat_app, IH. f_equal.
  unfold header_lines, print_field, flat_header. autorewrite with chunks. auto.
Qed.

(** ** The reference on tokens *)

Lemma transition_char s ch : char_ok ch -> s = InRequest \/ s = InValue -> transition s ch = Some ([], s).
Proof.
  intros [H1 H2] Hs. unfold transition. destruct (Z.eqb_spec ch CR); [tauto|]. destruct (Z.eqb_spec ch LF); [tauto|].
  destruct Hs as [-> | ->]; auto.
Qed.

Lemma transition_hchar ch : hchar_ok ch -> transition InKey ch = Some ([], InKey).
Proof.
  intros [[H1 H2] H3]. unfold transition. rewrite H3. destruct (Z.eqb_spec ch CR); [tauto|]. destruct (Z.eqb_spec ch LF); tauto.
Qed.

(** Bytes that stay in a token are appended to it. *)
Lemma flat_parse_token s t w r rest : tok_of s (length (fields r)) = Some t ->
  Forall (fun ch => transition s ch = Some ([], s)) w -> opens_header s s = false ->
  flat_parse s r (w ++ rest) = flat_parse s (grow t w r) rest.
Proof.
  intros Ht Hw Hs. revert r Ht. induction Hw as [|ch w Hch Hw IH]; intros r Ht; [rewrite grow_nil; auto|].
  cbn [app flat_parse]. rewrite Hch, Hs. cbn [is_return existsb]. rewrite Ht. cbn [grow_opt].
  rewrite IH by (rewrite length_grow; auto). rewrite grow_grow. auto.
Qed.

Lemma flat_parse_line w r rest : line r = [] -> w <> [] -> Forall char_ok w ->
  flat_parse Start r (w ++ CRLF ++ rest) = flat_parse LineStart (mk_flat w (fields r)) rest.
Proof.
  intros Hl Hn Hw. destruct w as [|ch w]; [tauto|]. inv Hw. cbn [app flat_parse].
  destruct H1 as [Hr Hf]. unfold transition at 1. destruct (Z.eqb_spec ch CR); [tauto|]. destruct (Z.eqb_spec ch LF); [tauto|].
  cbn [orb]. cbv iota beta. change (opens_header Start InRequest) with false. cbv iota zeta. cbn [is_return existsb tok_of grow_opt grow].
  rewrite Hl. cbn [app]. change (w ++ 13 :: 10 :: rest) with (w ++ CRLF ++ rest).
  rewrite (flat_parse_token _ RequestTok); auto.
  eapply Forall_impl; [eauto|]. intros x Hx. apply transition_char; auto.
Qed.

Lemma alter_last {A} (f : A -> A) l x : alter f (length l) (l ++ [x]) = l ++ [f x].
Proof. rewrite alter_app_r_alt, Nat.sub_diag by lia. auto. Qed.

Lemma pred_snoc {A} (l : list A) x : pred (length (l ++ [x])) = length l.
Proof. rewrite length_app. cbn. lia. Qed.

Lemma flat_parse_key l fs k rest : k <> [] -> Forall hchar_ok k ->
  flat_parse LineStart (mk_flat l fs) (k ++ rest) = flat_parse InKey (mk_flat l (fs ++ [(k, [])])) rest.
Proof.
  intros Hn Hk. destruct k as [|ch k]; [tauto|]. inv Hk. cbn [app flat_parse]. pose proof H1 as [[Hr Hf] Hd].
  unfold transition at 1. rewrite Hd. destruct (Z.eqb_spec ch CR); [tauto|]. destruct (Z.eqb_spec ch LF); [tauto|].
  cbn [orb]. cbv iota beta. change (opens_header LineStart InKey) with true. cbv iota zeta. cbn [is_return existsb orb open_header fields line].
  cbn [tok_of grow_opt]. unfold open_header. cbn [fields line]. rewrite pred_snoc. cbn [grow fields line]. rewrite alter_last. cbn [fst snd app].
  rewrite (flat_parse_token _ (KeyTok (length fs))); auto.
  - cbn [grow fields line]. rewrite alter_last. auto.
  - cbn [tok_of fields]. rewrite pred_snoc. auto.
  - eapply Forall_impl; [eauto|]. apply transition_hchar.
Qed.

Lemma flat_parse_value l fs k v rest : match v with [] => True | ch :: _ => hdelim ch = false end -> Forall char_ok v ->
  flat_parse InDelim (mk_flat l (fs ++ [(k, [])])) (v ++ CRLF ++ rest) = flat_parse LineStart (mk_flat l (fs ++ [(k, v)])) rest.
Proof.
  intros Hd Hv. destruct v as [|ch v]; [reflexivity|]. inv Hv. destruct H1 as [Hr Hf]. cbn [app flat_parse].
  unfold transition at 1. rewrite Hd. destruct (Z.eqb_spec ch CR); [tauto|]. destruct (Z.eqb_spec ch LF); [tauto|].
  cbn [orb]. cbv iota beta. change (opens_header InDelim InValue) with false. cbv iota zeta. cbn [is_return existsb orb fields line].
  cbn [tok_of grow_opt]. unfold open_header. cbn [fields line]. rewrite pred_snoc. cbn [grow fields line]. rewrite alter_last. cbn [fst snd app].
  change (v ++ 13 :: 10 :: rest) with (v ++ CRLF ++ rest).
  rewrite (flat_parse_token _ (ValueTok (length fs))); auto.
  - cbn [grow fields line]. rewrite alter_last. reflexivity.
  - cbn [tok_of fields]. rewrite pred_snoc. auto.
  - eapply Forall_impl; [eauto|]. intros x Hx. apply transition_char; auto.
Qed.

Lemma flat_parse_field l fs kv rest : wf_field kv ->
  flat_parse LineStart (mk_flat l fs) (print_field kv ++ rest) = flat_parse LineStart (mk_flat l (fs ++ [kv])) rest.
Proof.
  destruct kv as [k v]. intros [[Hk1 Hk2] [Hv1 Hv2]]. cbn in *. unfold print_field. cbn [fst snd].
  rewrite <- !app_assoc, flat_parse_key by auto. rewrite <- flat_parse_value by eauto.
  unfold HDRD. cbn [app]. rewrite <- ?app_assoc. reflexivity.
Qed.

Lemma flat_parse_fields l fs fs' rest : Forall wf_field fs' ->
  flat_parse LineStart (mk_flat l fs) (concat (map print_field fs') ++ rest) = flat_parse LineStart (mk_flat l (fs ++ fs')) rest.
Proof.
  intros Hw. revert fs. induction Hw as [|kv fs' Hkv Hw IH]; intros fs; cbn; [rewrite app_nil_r; auto|].
  rewrite <- app_assoc, flat_parse_field, IH, <- app_assoc by auto. auto.
Qed.

(** Parsing what was printed: the request, the custom headers as further headers, and
    the bytes that follow. *)
Lemma flat_parse_print r custom rest : wf_flat r -> Forall wf_field custom ->
  flat_parse Start flat_empty (print_flat r (concat (map print_field custom)) ++ rest) =
  FDone (mk_flat (line r) (fields r ++ custom)) rest.
Proof.
  intros [[Hl1 Hl2] Hf] Hc. unfold print_flat. rewrite <- !app_assoc, flat_parse_line by auto.
  rewrite flat_parse_fields by auto. rewrite flat_parse_fields by auto. reflexivity.
Qed.

(** ** What the parser accepts is well formed *)

(** The reference in the middle of a request. *)
Definition wf_partial (s : fsm_state) (r : flat_request) : Prop :=
  match s with
  | Start => r = flat_empty
  | _ => line r <> [] /\ Forall char_ok (line r) /\ Forall wf_field (fields r) /\
      match s with
      | InKey | InDelim => exists fs k, fields r = fs ++ [(k, [])]
      | InValue => exists fs k v, fields r = fs ++ [(k, v)] /\ v <> []
      | _ => True
      end
  end.

Lemma wf_field_key k ch : wf_field (k, []) -> hchar_ok ch -> wf_field (k ++ [ch], []).
Proof.
  intros [[A B] [C D]] Hch. split; cbn in *; [|auto]. split; [intros E; apply app_eq_nil in E as [_ E]; discriminate|].
  apply Forall_app. auto.
Qed.

Lemma wf_field_value k v ch : wf_field (k, v) -> char_ok ch -> (v = [] -> hdelim ch = false) -> wf_field (k, v ++ [ch]).
Proof.
  intros [[A B] [C D]] Hch Hv. split; cbn in *; [auto|]. split; [destruct v; cbn; auto|]. apply Forall_app. auto.
Qed.

Lemma wf_replace_last fs kv kv' : Forall wf_field (fs ++ [kv]) -> (wf_field kv -> wf_field kv') -> Forall wf_field (fs ++ [kv']).
Proof. rewrite !Forall_app, !Forall_singleton. tauto. Qed.

Lemma snoc_not_nil {A} (l : list A) x : l ++ [x] <> [].
Proof. intros E. apply app_eq_nil in E as [_ E]. discriminate. Qed.

(** One byte keeps what is read well formed. *)
Lemma flat_next_wf s s' l ch r : wf_partial s r -> transition s ch = Some (l, s') -> wf_partial s' (flat_next s s' ch r).
Proof.
  intros Hw Ht. unfold transition in Ht.
  destruct (Z.eqb_spec ch CR) as [E1|E1], (Z.eqb_spec ch LF) as [E2|E2], (hdelim ch) eqn:E3; subst; try discriminate;
    destruct s; try discriminate; cbn in Ht; inv Ht; unfold flat_next;
    match goal with |- context [opens_header ?a ?b] => let v := eval cbv in (opens_header a b) in change (opens_header a b) with v end;
    cbv iota zeta; cbn [tok_of grow_opt];
    try (destruct Hw as (W1&W2&W3&W4); cbn; conj; solve [auto]).
  all: cbn in Hw; try (subst r; cbn; conj; auto; try discriminate; repeat constructor; auto; fail).
  all: destruct Hw as (W1&W2&W3&W4); destruct r as [ln fs0]; cbn [line fields] in *.
  all: try (destruct W4 as (fs&k&v&->&Hv)); try (destruct W4 as (fs&k&->)).
  all: unfold open_header; cbn [line fields]; rewrite ?pred_snoc; cbn [grow line fields wf_partial]; rewrite ?alter_last; cbn [fst snd app].
  all: conj; auto using snoc_not_nil; try (apply Forall_app; split; auto; repeat constructor; auto; fail); eauto.
  all: try (eexists _, _, _; split; [reflexivity|]; auto using snoc_not_nil; fail).
  all: try (apply (wf_replace_last fs (k, v)); [assumption|]; intros Hf; apply wf_field_value; [auto|split; auto|tauto]; fail).
  all: try (apply (wf_replace_last fs (k, [])); [assumption|]; intros Hf; apply wf_field_key; auto; split; [split|]; auto; fail).
  all: try (apply (wf_replace_last fs (k, [])); [assumption|]; intros Hf; apply (wf_field_value k []); [auto|split; auto|auto]; fail).
Qed.

Lemma flat_parse_wf s r bytes r' rest : wf_partial s r -> flat_parse s r bytes = FDone r' rest -> wf_flat r'.
Proof.
  revert s r. induction bytes as [|ch bytes IH]; intros s r Hw E; cbn in E; [discriminate|].
  destruct (transition s ch) as [[l s']|] eqn:Ht; [|discriminate]. change (grow_opt _ _ _) with (flat_next s s' ch r) in E.
  pose proof (flat_next_wf _ _ _ _ _ Hw Ht) as Hw'. destruct (is_return l) eqn:Hr; [|eauto]. inv E.
  destruct s'; cbn in Hw'; try (split; [split|]; apply Hw'). exfalso. unfold transition in Ht.
  destruct s; repeat (match type of Ht with (if ?b then _ else _) = _ => destruct b end); inv Ht; discriminate.
Qed.
