(* ===== verification/HHeaders.v ===== *)
(** * Server kernel: connection headers

    Models [src/web/httpd/kernel/headers.cpp], [cast.h] and [regexp.cpp]: the headers that
    describe the connection are read and deleted, and the version of a request is the last
    byte of its first line.  The regular expressions are those of [library/pire], a
    parameter: a compiled expression accepts some strings.  Expressions glued with [|] are
    a list; a match gives the numbers of those that accept. *)

From Stdlib Require Import ZArith Lia Bool String Ascii.
From stdpp Require Import base numbers list.
From S2P Require Import Prelude HChunks HStream HLaws HHttp HParse HRequest.

Definition bytes (s : string) : list Z := map (fun c => Z.of_nat (nat_of_ascii c)) (list_ascii_of_string s).

(** [char] is signed. *)
Definition signed_char (ch : Z) : Z := if ch <? 128 then ch else ch - 256.

(** ** [cast.h] *)

Definition FromString (lst : TChunkList) : Z :=
  fold_left (fun ret ch => u64 (ret * 10 + u64 (signed_char ch - 48))) (flat lst) 0.

(** ** Regular expressions *)

(** [accepts re case_insensitive surround s] *)
Class Pire := accepts : list Z -> bool -> bool -> list Z -> bool.

Record TRegexp := mk_regexp { regexp : list Z; CaseInsensitive : bool; Surround : bool }.

(** [TFsm]: the expressions of a glued scanner, in order. *)
Notation TFsm := (list TRegexp).

Fixpoint matched_from {P : Pire} (n : nat) (f : TFsm) (s : list Z) : list nat :=
  match f with
  | [] => []
  | r :: f =>
      let rest := matched_from (S n) f s in
      if accepts (regexp r) (CaseInsensitive r) (Surround r) s then n :: rest else rest
  end.

(** [Match(m, lst)] feeds the chunks one by one; [MatchedRegexps], and [Final]: there is one. *)
Definition MatchedRegexps {P : Pire} (f : TFsm) (lst : TChunkList) : list nat := matched_from 0 f (flat lst).

(** ** [headers.cpp] *)

Definition case_insensitive (s : string) : TRegexp := mk_regexp (bytes s) true false.

Definition THeadersToCheck : TFsm :=
  [case_insensitive "Connection"; case_insensitive "Keep-Alive"; case_insensitive "Content-Length";
   case_insensitive "Transfer-Encoding"; case_insensitive "Server"].

Record TResponseProperties := mk_props { ChunkedTransfer : bool; ContentLength : Z }.

(** The function object of [TResponseParser]: the properties, and the header unless it is deleted. *)
Definition check_header {P : Pire} (props : TResponseProperties) (hdr : THeader) : TResponseProperties * option THeader :=
  match MatchedRegexps THeadersToCheck (Key hdr) with
  | [] => (props, Some hdr)
  | n :: _ =>
      (match n with
       | 3%nat => mk_props true (ContentLength props)
       | 2%nat => mk_props (ChunkedTransfer props) (FromString (Value hdr))
       | _ => props
       end, None)
  end.

Fixpoint check_headers {P : Pire} (props : TResponseProperties) (hs : list THeader) : TResponseProperties * list THeader :=
  match hs with
  | [] => (props, [])
  | h :: hs =>
      let '(props, kept) := check_header props h in
      let '(props, hs) := check_headers props hs in
      (props, match kept with Some h => h :: hs | None => hs end)
  end.

Definition response_properties {P : Pire} (r : TRequest) : TResponseProperties * TRequest :=
  let '(props, hs) := check_headers (mk_props false 0) (Headers_ r) in (props, mk_request (Request_ r) hs).

(** [last.Empty()] asks whether the chunk is linked in a list, which it is, so the byte in
    front of an empty chunk would be read: [None]. *)
Definition HttpVersion (req : TChunkList) : option Z :=
  match last req with
  | None => Some 0
  | Some c => let* ch := last c in Some (u32 (signed_char ch - 48))
  end.

Record TRequestProperties := mk_rprops { KeepAlive : bool; rp_ChunkedTransfer : bool; rp_ContentLength : Z }.

Definition request_properties {P : Pire} (r : TRequest) : option (TRequestProperties * TRequest) :=
  let* version := HttpVersion (Request_ r) in
  let keepAlive := negb (version =? 0) in
  let '(props, r) := response_properties r in
  Some (mk_rprops keepAlive keepAlive (ContentLength props), r).

(** ** The law of literal expressions *)

Definition lower (ch : Z) : Z := if (65 <=? ch) && (ch <=? 90) then ch + 32 else ch.

Definition same_ignoring_case (a b : list Z) : bool := bool_decide (map lower a = map lower b).

(** Letters, digits and the dash stand for themselves. *)
Definition literal_char (ch : Z) : bool :=
  ((65 <=? ch) && (ch <=? 90)) || ((97 <=? ch) && (ch <=? 122)) || ((48 <=? ch) && (ch <=? 57)) || (ch =? 45).

(** A regular expression of such characters accepts itself and its variants in case. *)
Class PireLiteral (P : Pire) :=
  accepts_literal : forall re s, forallb literal_char re = true -> accepts re true false s = same_ignoring_case re s.

(** The smallest such library. *)
Definition literal_pire : Pire := fun re ci _ s => if ci then same_ignoring_case re s else bool_decide (re = s).

#[export] Instance literal_pire_ok : PireLiteral literal_pire.
Proof. intros re s _. reflexivity. Qed.

(** ** Decimal numbers *)

Definition digit (ch : Z) : Prop := 48 <= ch <= 57.

Definition decimal (l : list Z) : Z := fold_left (fun n ch => n * 10 + (ch - 48)) l 0.

Lemma decimal_fold l n : Forall digit l -> fold_left (fun ret ch => u64 (ret * 10 + u64 (signed_char ch - 48))) l (u64 n) =
  u64 (fold_left (fun n ch => n * 10 + (ch - 48)) l n).
Proof.
  intros Hl. revert n. induction Hl as [|ch l Hch Hl IH]; intros n; [reflexivity|]. cbn. rewrite <- IH. f_equal.
  unfold digit in Hch. unfold signed_char. destruct (Z.ltb_spec ch 128); [|lia]. unfold u64.
  rewrite Zplus_mod_idemp_r, <- Zplus_mod_idemp_l, Zmult_mod_idemp_l, Zplus_mod_idemp_l. auto.
Qed.

(** A value of digits is its number, modulo 2^64. *)
Lemma FromString_decimal lst : Forall digit (flat lst) -> FromString lst = u64 (decimal (flat lst)).
Proof. intros H. unfold FromString. apply (decimal_fold _ 0) in H. exact H. Qed.

(** ** What [TResponseParser] leaves *)

Section headers.
Context {P : Pire} `{!PireLiteral P}.

Definition checked (kv : list Z * list Z) : bool :=
  existsb (fun name => same_ignoring_case (bytes name) kv.1)
    ["Connection"; "Keep-Alive"; "Content-Length"; "Transfer-Encoding"; "Server"]%string.

Definition named (name : string) (kv : list Z * list Z) : bool := same_ignoring_case (bytes name) kv.1.

Lemma MatchedRegexps_headers lst :
  MatchedRegexps THeadersToCheck lst =
    (if named "Connection" (flat lst, []) then [0%nat] else []) ++ (if named "Keep-Alive" (flat lst, []) then [1%nat] else []) ++
    (if named "Content-Length" (flat lst, []) then [2%nat] else []) ++ (if named "Transfer-Encoding" (flat lst, []) then [3%nat] else []) ++
    (if named "Server" (flat lst, []) then [4%nat] else []).
Proof.
  unfold MatchedRegexps, THeadersToCheck, case_insensitive. cbn [matched_from regexp CaseInsensitive Surround].
  rewrite !accepts_literal by reflexivity. unfold named. cbn [fst].
  repeat match goal with |- context [same_ignoring_case ?a ?b] => destruct (same_ignoring_case a b) end; reflexivity.
Qed.

Lemma named_excl a b k : map lower (bytes a) <> map lower (bytes b) ->
  same_ignoring_case (bytes a) k = true -> same_ignoring_case (bytes b) k = false.
Proof.
  unfold same_ignoring_case. intros Hn Ha. apply bool_decide_eq_true in Ha. apply bool_decide_eq_false. congruence.
Qed.

(** One header: kept when no name of the list is its name; the two that matter are read. *)
Lemma check_header_spec props h :
  check_header props h =
  (mk_props (if named "Transfer-Encoding" (flat_header h) then true else ChunkedTransfer props)
            (if named "Content-Length" (flat_header h) then FromString (Value h) else ContentLength props),
   if checked (flat_header h) then None else Some h).
Proof.
  unfold check_header, checked. rewrite MatchedRegexps_headers. unfold flat_header, named. cbn [fst existsb].
  destruct props as [ct cl].
  destruct (same_ignoring_case (bytes "Connection") (flat (Key h))) eqn:E1;
    [rewrite (named_excl "Connection" "Content-Length" _ ltac:(vm_compute; discriminate) E1), (named_excl "Connection" "Transfer-Encoding" _ ltac:(vm_compute; discriminate) E1); reflexivity|].
  destruct (same_ignoring_case (bytes "Keep-Alive") (flat (Key h))) eqn:E2;
    [rewrite (named_excl "Keep-Alive" "Content-Length" _ ltac:(vm_compute; discriminate) E2), (named_excl "Keep-Alive" "Transfer-Encoding" _ ltac:(vm_compute; discriminate) E2); reflexivity|].
  destruct (same_ignoring_case (bytes "Content-Length") (flat (Key h))) eqn:E3;
    [rewrite (named_excl "Content-Length" "Transfer-Encoding" _ ltac:(vm_compute; discriminate) E3); reflexivity|].
  destruct (same_ignoring_case (bytes "Transfer-Encoding") (flat (Key h))), (same_ignoring_case (bytes "Server") (flat (Key h))); reflexivity.
Qed.

(** The headers that are left, and the properties: chunked when some header says so, the
    length of the last header that gives one. *)
Lemma check_headers_spec props hs :
  check_headers props hs =
  (mk_props (existsb (fun h => named "Transfer-Encoding" (flat_header h)) hs || ChunkedTransfer props)
            (fold_left (fun n h => if named "Content-Length" (flat_header h) then FromString (Value h) else n) hs (ContentLength props)),
   List.filter (fun h => negb (checked (flat_header h))) hs).
Proof.
  revert props. induction hs as [|h hs IH]; intros props; cbn [check_headers existsb fold_left List.filter orb].
  - destruct props; reflexivity.
  - rewrite check_header_spec, IH. cbn [ChunkedTransfer ContentLength].
    destruct (named "Transfer-Encoding" (flat_header h)), (checked (flat_header h)); cbn [negb orb]; rewrite ?orb_true_r; reflexivity.
Qed.
End headers.
