(* ===== verification/HServer.v ===== *)
(** * HTTP module

    Models [src/web/httpd/modules/http/encoder.h] and [module.cpp]: the loop over the
    requests of a connection, the limits, the framing of a request body, and the encoder
    that adds headers to a response and cuts its body into HTTP chunks.  The module behind
    is a parameter: its run is a program that receives, sends, returns or throws. *)

From Stdlib Require Import ZArith Lia Bool String.
From stdpp Require Import base numbers list.
From S2P Require Import Prelude HChunks HStream HLaws HHttp HParse HRequest HHeaders.

(** ** [encoder.h] *)

(** [IntToString<16>] of [src/util/string/cast.cpp] to a buffer of [len] bytes: digits
    from the last one, then reversed. *)
Definition IntToChar (d : Z) : Z := if d <? 10 then 48 + d else 55 + d.

Fixpoint format_digits (len : nat) (t : Z) : res (list Z) :=
  match len with
  | O => Throw yexception
  | S len =>
      let d := IntToChar (t mod 16) in
      if t / 16 =? 0 then Ret [d]
      else match format_digits len (t / 16) with Ret l => Ret (d :: l) | Throw e => Throw e end
  end.

Definition IntToString16 (t : Z) (len : nat) : res (list Z) :=
  match format_digits len t with Ret l => Ret (rev l) | Throw e => Throw e end.

Inductive transfer := TIdentityTransferEncoder | TChunkedTransferEncoder.

(** [WriteChunk] on the list the encoder is. *)
Definition WriteChunk (this lst : TChunkList) : res TChunkList :=
  match IntToString16 (FullLength lst) 16 with
  | Throw e => Throw e
  | Ret digits => Ret (MoveTo lst (this ++ [digits] ++ [CRLF]) ++ [CRLF])
  end.

Definition OnDataPart (t : transfer) (this part : TChunkList) : res TChunkList :=
  match t with
  | TIdentityTransferEncoder => Ret (MoveTo part this)
  | TChunkedTransferEncoder => WriteChunk this part
  end.

Definition OnFinish (t : transfer) (this : TChunkList) : res TChunkList :=
  match t with
  | TIdentityTransferEncoder => Ret this
  | TChunkedTransferEncoder => WriteChunk this []
  end.

Record THttpEncoder (O : Type) := mk_encoder {
  enc_transfer : transfer; enc_list : TChunkList; enc_parser : TParseContext; CustomHeaders_ : option TChunkList; enc_S : O }.
Arguments mk_encoder {O} _ _ _ _ _.
Arguments enc_transfer {O} _.
Arguments enc_list {O} _.
Arguments enc_parser {O} _.
Arguments CustomHeaders_ {O} _.
Arguments enc_S {O} _.

Section encoder.
Context {O : Type} {HO : IIoOutput O}.

Definition new_encoder (t : transfer) (slave : O) (customHeaders : TChunkList) : THttpEncoder O :=
  mk_encoder t [] parse_init (Some customHeaders) slave.

Definition Flush (t : THttpEncoder O) : option (res unit * THttpEncoder O) :=
  match enc_list t with
  | [] => Some (Ret tt, t)
  | l =>
      let* (r, s) := DoSend (enc_S t) l in
      match r with
      | Ret _ => Some (Ret tt, mk_encoder (enc_transfer t) [] (enc_parser t) (CustomHeaders_ t) s)
      | Throw e => Some (Throw e, mk_encoder (enc_transfer t) l (enc_parser t) (CustomHeaders_ t) s)
      end
  end.

Definition with_list (t : THttpEncoder O) (l : TChunkList) : THttpEncoder O :=
  mk_encoder (enc_transfer t) l (enc_parser t) (CustomHeaders_ t) (enc_S t).

(** [OnDataPart(lst); Flush()] *)
Definition data_and_flush (t : THttpEncoder O) (lst : TChunkList) : option (res unit * THttpEncoder O) :=
  match OnDataPart (enc_transfer t) (enc_list t) lst with
  | Ret l => Flush (with_list t l)
  | Throw e => Some (Throw e, t)
  end.

#[export] Instance encoder_output : IIoOutput (THttpEncoder O) := fun t lst =>
  match CustomHeaders_ t with
  | None => data_and_flush t lst
  | Some headers =>
      let* (r, parser, lst) := push_ParseChunk (enc_parser t) lst in
      match r with
      | Throw e => Some (Throw e, mk_encoder (enc_transfer t) (enc_list t) parser (Some headers) (enc_S t))
      | Ret false => Flush (mk_encoder (enc_transfer t) (enc_list t) parser (Some headers) (enc_S t))
      | Ret true =>
          let t := mk_encoder (enc_transfer t) (enc_list t ++ BuildTo (Request parser) headers) parser None (enc_S t) in
          match lst with [] => Flush t | _ => data_and_flush t lst end
      end
  end.

Definition Finish (t : THttpEncoder O) : option (res unit * THttpEncoder O) :=
  match CustomHeaders_ t with
  | Some _ => Some (Throw (THttpError 500), t)
  | None =>
      match OnFinish (enc_transfer t) (enc_list t) with
      | Ret l => Flush (with_list t l)
      | Throw e => Some (Throw e, t)
      end
  end.
End encoder.

(** ** [module.cpp] *)

Record TFixedLengthInput (I : Type) := mk_fixed { It : TStreamIterator I; Len : Z }.
Arguments mk_fixed {I} _ _.
Arguments It {I} _.
Arguments Len {I} _.

#[export] Instance fixed_input {I} `{IIoInput I} : IIoInput (TFixedLengthInput I) := fun t =>
  if Len t =? 0 then (Ret [], t)
  else match NextLen (Len t) (It t) with
  | (Throw e, it) => (Throw e, mk_fixed it (Len t))
  | (Ret lst, it) => (Ret lst, mk_fixed it (Len t - FullLength lst))
  end.

(** A run of the module behind, with its state [A]. *)
Inductive Prog (A : Type) :=
  | PRet (a : A)
  | PThrow (e : exn) (a : A)
  | PRecv (k : res TChunkList -> Prog A)
  | PSend (lst : TChunkList) (k : res unit -> Prog A).
Arguments PRet {A} a.
Arguments PThrow {A} e a.
Arguments PRecv {A} k.
Arguments PSend {A} lst k.

Fixpoint run_prog {A I O} `{IIoInput I} `{IIoOutput O} (p : Prog A) (i : I) (o : O) : option (res unit * A * I * O) :=
  match p with
  | PRet a => Some (Ret tt, a, i, o)
  | PThrow e a => Some (Throw e, a, i, o)
  | PRecv k => let '(r, i) := DoRecv i in run_prog (k r) i o
  | PSend lst k => let* (r, o) := DoSend o lst in run_prog (k r) i o
  end.

Record TModule := mk_module { ParseError_ : Z; Discarded_ : Z; MaxLen_ : Z; MaxReq_ : Z; KeepAlive_ : bool }.

Section server.
Context {I O A : Type} {HI : IIoInput I} {HO : IIoOutput O} {HP : Pire}.
Context (M_ : A -> TRequest -> Prog A).

(** [TParsedRequest] *)
Definition parsed_request (fuel : nat) (it : TStreamIterator I) (maxlen : Z) : option (res TRequest * TStreamIterator I) :=
  if maxlen =? 0 then
    let* (r, it) := Parse fuel parse_init it in
    match r with
    | Ret (req, unparsed) => Some (Ret req, UnGet unparsed it)
    | Throw e => Some (Throw e, it)
    end
  else
    let* (r, lim) := Parse fuel parse_init (mk_limited it maxlen (Some (THttpParseError 413))) in
    match r with
    | Ret (req, unparsed) => Some (Ret req, UnGet unparsed (limited_S lim))
    | Throw e => Some (Throw e, limited_S lim)
    end.

(** [RunDecoded] *)
Definition RunDecoded (len : Z) (req : TRequest) (a : A) (it : TStreamIterator I) (out : THttpEncoder O)
    : option (res unit * A * TStreamIterator I * THttpEncoder O) :=
  if len =? 0 then
    let* (r, a, _, out) := run_prog (M_ a req) NullInstance out in Some (r, a, it, out)
  else
    let* (r, a, i, out) := run_prog (M_ a req) (mk_fixed it len) out in Some (r, a, It i, out).

(** [RunEncoded] *)
Definition RunEncoded (t : transfer) (headers : TChunkList) (len : Z) (req : TRequest) (a : A) (it : TStreamIterator I) (o : O)
    : option (res unit * A * TStreamIterator I * O) :=
  let* (r, a, it, out) := RunDecoded len req a it (new_encoder t o headers) in
  match r with
  | Throw e => Some (Throw e, a, it, enc_S out)
  | Ret _ => let* (r, out) := Finish out in Some (r, a, it, enc_S out)
  end.

Definition connection_close : chunk := bytes "Connection: Close" ++ CRLF.
Definition transfer_encoding_chunked : chunk := bytes "Transfer-Encoding: Chunked" ++ CRLF.

(** [TContext]: its constructor and [Run]; the result is whether the connection stays. *)
Definition context_run (fuel : nat) (m : TModule) (a : A) (it : TStreamIterator I) (o : O)
    : option (res bool * A * TStreamIterator I * O) :=
  let* (r, it) := parsed_request fuel it (MaxLen_ m) in
  match r with
  | Throw e => Some (Throw e, a, it, o)
  | Ret req =>
      let* (props, req) := request_properties req in
      if MaxReq_ m <? FullLength (Request_ req) then Some (Throw (THttpParseError 414), a, it, o)
      else
        let keepAlive := KeepAlive_ m && KeepAlive props in
        let headers := if keepAlive then [] else [connection_close] in
        let '(headers, t) :=
          if rp_ChunkedTransfer props then (headers ++ [transfer_encoding_chunked], TChunkedTransferEncoder)
          else (headers, TIdentityTransferEncoder) in
        let* (r, a, it, o) := RunEncoded t headers (rp_ContentLength props) req a it o in
        Some (match r with Ret _ => Ret keepAlive | Throw e => Throw e end, a, it, o)
  end.

Definition count_parse_error (m : TModule) : TModule :=
  mk_module (u64 (ParseError_ m + 1)) (Discarded_ m) (MaxLen_ m) (MaxReq_ m) (KeepAlive_ m).
Definition count_discarded (m : TModule) : TModule :=
  mk_module (ParseError_ m) (u64 (Discarded_ m + 1)) (MaxLen_ m) (MaxReq_ m) (KeepAlive_ m).

(** [TModule::Peek] *)
Definition quiet_peek (it : TStreamIterator I) : res bool * TStreamIterator I :=
  match Peek it with
  | (Throw (TSystemError _), it) => (Ret false, it)
  | r => r
  end.

(** The loop of [DoRun]. *)
Fixpoint run_loop (fuel : nat) (m : TModule) (a : A) (it : TStreamIterator I) (o : O)
    : option (res unit * TModule * A * TStreamIterator I * O) :=
  match fuel with
  | 0%nat => None
  | S fuel' =>
      match quiet_peek it with
      | (Throw e, it) => Some (Throw e, m, a, it, o)
      | (Ret false, it) => Some (Ret tt, count_discarded m, a, it, o)
      | (Ret true, it) =>
          let* (r, a, it, o) := context_run fuel m a it o in
          match r with
          | Ret true => run_loop fuel' m a it o
          | Ret false => Some (Ret tt, m, a, it, o)
          | Throw (THttpParseError c) => Some (Throw (THttpParseError c), count_parse_error m, a, it, o)
          | Throw e => Some (Throw e, m, a, it, o)
          end
      end
  end.

Definition DoRun (fuel : nat) (m : TModule) (a : A) (input : I) (o : O) : option (res unit * TModule * A * TStreamIterator I * O) :=
  run_loop fuel m a (iterator_over input) o.
End server.
