(* ===== verification/HServerSpec.v ===== *)
(** * HTTP module: framing of requests

    What the module reads of a connection: the head of a request up to the empty line, a
    body of the length it announces, and nothing else. *)

From Stdlib Require Import ZArith Lia Bool String.
From stdpp Require Import base numbers list.
From S2P Require Import Prelude HChunks HStream HLaws HHttp HParse HRequest HHeaders HServer.

(** ** The first line is kept in non-empty pieces *)

Lemma act_clean cur p a sp c sp' c' : 0 <= sp -> 0 <= p <= zlen cur -> clean (Request_ (Request c)) ->
  act cur p a (sp, c) = Some (sp', c') -> 0 <= sp' /\ clean (Request_ (Request c')).
Proof.
  intros Hsp Hp Hc E. destruct a; cbn in E; try (inv E; split; [lia|exact Hc]).
  - destruct (curHdr c); inv E. split; [lia|exact Hc].
  - destruct (curTok c) as [t|]; [|discriminate].
    destruct (on_token t (AddPartTo cur sp p) (Request c)) as [r|] eqn:Er; inv E. split; [auto|]. cbn.
    destruct t as [|i|i]; cbn in Er; [inv Er; cbn; apply AddPartTo_clean; auto; lia|destruct (Headers_ (Request c) !! i); inv Er; auto..].
Qed.

Lemma acts_clean cur p l sp c sp' c' : 0 <= sp -> 0 <= p <= zlen cur -> clean (Request_ (Request c)) ->
  acts cur p l (sp, c) = Some (sp', c') -> 0 <= sp' /\ clean (Request_ (Request c')).
Proof.
  revert sp c. induction l as [|a l IH]; intros sp c Hsp Hp Hc E; cbn [acts] in E; [inv E; auto|].
  destruct (act cur p a (sp, c)) as [[sp1 c1]|] eqn:Ea; [|discriminate]. destruct (act_clean _ _ _ _ _ _ _ Hsp Hp Hc Ea). eauto.
Qed.

Lemma exec_clean cur bytes p s sp c e : 0 <= sp -> 0 <= p -> p + zlen bytes <= zlen cur -> clean (Request_ (Request c)) ->
  exec cur bytes p s sp c = Some e ->
  match e with AtEnd _ sp' c' => 0 <= sp' /\ clean (Request_ (Request c')) | NoTransition c' | Returned _ c' => clean (Request_ (Request c')) end.
Proof.
  revert p s sp c. induction bytes as [|ch bytes IH]; intros p s sp c Hsp Hp Hz Hc E; cbn [exec] in E; [inv E; auto|].
  rewrite zlen_cons in Hz. pose proof (zlen_nonneg bytes). destruct (transition s ch) as [[l s']|]; [|inv E; auto].
  destruct (acts cur p l (sp, c)) as [[sp1 c1]|] eqn:Ea; [|discriminate]. apply acts_clean in Ea as [A1 A2]; auto; [|lia].
  destruct (is_return l); [inv E; auto|]. eapply IH in E; eauto; lia.
Qed.

Lemma ParseChunk_clean c lst r c' : clean (Request_ (Request c)) -> ParseChunk c lst = Some (r, c') -> clean (Request_ (Request c')).
Proof.
  revert c. induction lst as [|cur lst IH]; intros c Hc E; cbn [ParseChunk] in E; [inv E; auto|].
  destruct (exec cur cur 0 (cs c) 0 c) as [e|] eqn:Ee; [|discriminate].
  apply exec_clean in Ee; auto; try lia. destruct e as [s' sp' c1|c1|p' c1]; [|inv E; auto..].
  destruct Ee as [H1 H2]. cbn in E. destruct (curTok c1) as [t|]; [|eapply IH; [|eauto]; auto].
  destruct (on_token t (AddPartTo cur sp' (zlen cur)) (Request c1)) as [rq|] eqn:Er; [|discriminate].
  eapply IH; [|eauto]. cbn. destruct t as [|i|i]; cbn in Er;
    [inv Er; cbn; apply AddPartTo_clean; auto; lia|destruct (Headers_ (Request c1) !! i); inv Er; auto..].
Qed.

Lemma Parse_clean {I} `{IIoInput I} fuel c i req un i' : clean (Request_ (Request c)) ->
  Parse fuel c i = Some (Ret (req, un), i') -> clean (Request_ req).
Proof.
  revert c i. induction fuel as [|fuel IH]; intros c i Hc E; cbn [Parse] in E; [discriminate|].
  destruct (DoRecv i) as [[l|e] i1]; [|discriminate]. destruct (FullLength l =? 0); [discriminate|].
  destruct (ParseChunk c l) as [[r c1]|] eqn:Ep; [|discriminate]. apply ParseChunk_clean in Ep; auto.
  destruct r as [[|]|]; [inv E; auto| |discriminate]. eauto.
Qed.

Lemma parsed_request_clean {I} `{IIoInput I} fuel (it : TStreamIterator I) maxlen req it' :
  parsed_request fuel it maxlen = Some (Ret req, it') -> clean (Request_ req).
Proof.
  unfold parsed_request. intros E. destruct (maxlen =? 0).
  - destruct (Parse fuel parse_init it) as [[[[rq un]|e] i1]|] eqn:Ep; inv E. refine (Parse_clean _ _ _ _ _ _ _ Ep). constructor.
  - destruct (Parse fuel parse_init _) as [[[[rq un]|e] i1]|] eqn:Ep; inv E. refine (Parse_clean _ _ _ _ _ _ _ Ep). constructor.
Qed.

(** So the version is the last byte of the line. *)
Definition flat_version (line : list Z) : Z := match last line with None => 0 | Some ch => u32 (signed_char ch - 48) end.

Lemma HttpVersion_flat l : clean l -> HttpVersion l = Some (flat_version (flat l)).
Proof.
  intros Hc. unfold HttpVersion, flat_version. destruct l as [|c l] using rev_ind; [reflexivity|]. rewrite last_snoc, flat_app, flat_one.
  apply Forall_app in Hc as [_ Hc]. inversion Hc as [|? ? Hn _]; subst. destruct c as [|ch c] using rev_ind; [tauto|].
  rewrite app_assoc, !last_snoc. auto.
Qed.

Section framing.
Context {I : Type} `{CleanLaws I}.

(** ** The body *)

Definition fixed_ok (t : TFixedLengthInput I) : Prop := 0 <= Len t /\ iter_ok (It t).
Definition fixed_content (t : TFixedLengthInput I) : list Z := take (Z.to_nat (Len t)) (iter_content (It t)).
Definition fixed_final (t : TFixedLengthInput I) : option exn :=
  if Len t <=? zlen (iter_content (It t)) then None else iter_final (It t).

(** The stream behind the body is the connection without the bytes delivered. *)
Lemma fixed_delivers t r t' : fixed_ok t -> DoRecv t = (r, t') ->
  fixed_ok t' /\ fixed_final t' = fixed_final t /\ iter_final (It t') = iter_final (It t) /\
  match r with
  | Ret l => iter_content (It t) = flat l ++ iter_content (It t') /\ Len t' = Len t - zlen (flat l) /\
      fixed_content t = flat l ++ fixed_content t' /\ (flat l = [] -> l = [] /\ fixed_content t = [] /\ fixed_final t = None)
  | Throw e => fixed_content t = [] /\ fixed_final t = Some e /\ fixed_content t' = [] /\
      iter_content (It t) = [] /\ iter_content (It t') = [] /\ Len t' = Len t
  end.
Proof.
  intros [Hl Hok] E. unfold DoRecv, fixed_input in E. unfold fixed_ok, fixed_content, fixed_final.
  destruct (Z.eqb_spec (Len t) 0) as [E0|E0].
  - inv E. rewrite E0, flat_nil. change (zlen (@nil Z)) with 0. pose proof (zlen_nonneg (iter_content (It t'))).
    destruct (Z.leb_spec 0 (zlen (iter_content (It t')))); [|lia]. conj; auto; lia.
  - destruct (NextLen (Len t) (It t)) as [[l|e] it] eqn:EN; inv E;
      apply NextLen_spec in EN as (Ho&Hf&D); auto; try lia; cbn.
    + destruct D as (D1&D2&D3). rewrite FullLength_flat, D1, zlen_app, Hf. pose proof (zlen_nonneg (flat l)).
      pose proof (zlen_nonneg (iter_content it)). conj; auto; try lia.
      * destruct (Z.leb_spec (Len t - zlen (flat l)) (zlen (iter_content it))),
          (Z.leb_spec (Len t) (zlen (flat l) + zlen (iter_content it))); auto; lia.
      * rewrite take_split by lia. rewrite take_ge by (unfold zlen in *; lia). auto.
      * intros F. destruct (D3 F) as (->&Hc&Hn). rewrite D1 in Hc. rewrite Hc. rewrite take_nil. rewrite Hn.
        destruct (Z.leb_spec (Len t) (zlen (flat []) + zlen (iter_content it))); auto.
    + destruct D as (D1&D2&D3). rewrite D1, D3, Hf, D2. rewrite take_nil. change (zlen (@nil Z)) with 0.
      destruct (Z.leb_spec (Len t) 0); [lia|]. conj; auto; lia.
Qed.

#[export] Instance fixed_laws : InputLaws (TFixedLengthInput I).
Proof.
  refine {| ok := fixed_ok; content := fixed_content; final := fixed_final |}.
  - intros i l i' Hok E. apply fixed_delivers in E as (?&?&?&?&?&?&?); auto.
  - intros i l i' Hok E. apply fixed_delivers in E as (?&?&?&?&?&?&?); auto. conj; auto; congruence.
Defined.

(** ** The head *)

(** Without a limit: the verdict of the reference on the bytes of the connection, and the
    connection is left at the first byte after the head. *)
Lemma parsed_request_spec fuel it : iter_ok it -> (length (iter_content it) < fuel)%nat ->
  exists res it', parsed_request fuel it 0 = Some (res, it') /\ iter_ok it' /\ iter_final it' = iter_final it /\
  match flat_parse Start flat_empty (iter_content it) with
  | FDone r rest => exists req, res = Ret req /\ flatten req = r /\ iter_content it' = rest
  | FBad => res = Throw (THttpParseError 400)
  | FMore _ _ => res = Throw (default (THttpParseError 400) (iter_final it))
  end.
Proof.
  intros Hok Hf. unfold parsed_request. cbn [Z.eqb].
  assert (Hok' : ok it) by exact Hok. assert (Hf' : (length (content it) < fuel)%nat) by exact Hf.
  destruct (Parse_spec fuel parse_init flat_empty it parse_init_between eq_refl Hok' Hf') as (res&i'&E&Ho&Hfi&P).
  cbn [content cs parse_init iterator_laws ok final] in *. rewrite E.
  destruct (flat_parse Start flat_empty (iter_content it)) as [s r| |r rest].
  - destruct P as [-> P]. eexists _, _. split; [reflexivity|]. conj; auto.
  - subst res. eexists _, _. split; [reflexivity|]. conj; auto.
  - destruct P as (req&un&->&Hr&Hrest&Hcl). eexists _, _. split; [reflexivity|].
    destruct (UnGet_spec un i') as (U1&U2&U3); auto.
    { apply Hcl. intros i l j Hi Ej. exact (iterator_clean _ _ _ Hi Ej). }
    rewrite U2, U3. conj; auto. exists req. auto.
Qed.

(** With a limit the reference sees the first [maxlen] bytes; when they are not enough the
    answer is 413. *)
Lemma parsed_request_limited fuel it maxlen : 0 < maxlen -> iter_ok it -> (length (iter_content it) < fuel)%nat ->
  exists res it', parsed_request fuel it maxlen = Some (res, it') /\
  match flat_parse Start flat_empty (take (Z.to_nat maxlen) (iter_content it)) with
  | FDone r rest => exists req, res = Ret req /\ flatten req = r
  | FBad => res = Throw (THttpParseError 400)
  | FMore _ _ => res = Throw (if zlen (iter_content it) <? maxlen then default (THttpParseError 400) (iter_final it)
                              else THttpParseError 413)
  end.
Proof.
  intros Hm Hok Hf. unfold parsed_request. destruct (Z.eqb_spec maxlen 0) as [|_]; [lia|].
  set (lim := mk_limited it maxlen (Some (THttpParseError 413))).
  assert (Hlim : ok lim) by (split; cbn; [lia|exact Hok]).
  assert (Hlen : (length (content lim) < fuel)%nat).
  { cbn. unfold limited_content. rewrite length_take. cbn. lia. }
  destruct (Parse_spec fuel parse_init flat_empty lim parse_init_between eq_refl Hlim Hlen) as (res&i'&E&Ho&Hfi&P).
  rewrite E. cbn [content cs parse_init limited_laws final] in P. unfold limited_content, limited_final in P.
  cbn [limited_S limited_L OnErr lim content final iterator_laws] in P.
  destruct (flat_parse Start flat_empty (take (Z.to_nat maxlen) (iter_content it))) as [s r| |r rest].
  - destruct P as [-> P]. eexists _, _. split; [reflexivity|]. destruct (zlen (iter_content it) <? maxlen); auto.
  - subst res. eexists _, _. split; [reflexivity|]. auto.
  - destruct P as (req&un&->&Hr&_). eexists _, _. split; [reflexivity|]. eauto.
Qed.
End framing.
