(* ===== verification/HEncoder.v ===== *)
(** * HTTP module: the encoder

    What reaches the client of the bytes a module sends: the head with the headers of the
    server added, and the body, as it is or cut into HTTP chunks. *)

From Stdlib Require Import ZArith Lia Bool String.
From stdpp Require Import base numbers list.
From S2P Require Import Prelude HChunks HStream HLaws HHttp HParse HRequest HHeaders HServer.

(** ** Outputs that accept everything *)

Class OutputLaws (O : Type) `{IIoOutput O} := {
  sent : O -> list Z;
  send_ok : forall o l, exists o', DoSend o l = Some (Ret tt, o') /\ sent o' = sent o ++ flat l }.

Definition sink := list TChunkList.

#[export] Instance sink_output : IIoOutput sink := fun o l => Some (Ret tt, o ++ [l]).

#[export] Instance sink_laws : OutputLaws sink.
Proof.
  refine {| sent := fun o => flat (concat o) |}. intros o l. exists (o ++ [l]). split; [reflexivity|].
  rewrite concat_app, flat_app. cbn. rewrite app_nil_r. auto.
Defined.

(** ** Chunk sizes *)

Lemma format_digits_total len t : 0 <= t < 16 ^ Z.of_nat len -> (0 < len)%nat -> exists l, format_digits len t = Ret l.
Proof.
  revert t. induction len as [|len IH]; intros t Ht Hl; [lia|]. cbn [format_digits].
  destruct (Z.eqb_spec (t / 16) 0) as [E|E]; [eauto|].
  destruct len as [|len]; [change (16 ^ Z.of_nat 1) with 16 in Ht; rewrite Z.div_small in E by lia; lia|].
  destruct (IH (t / 16)) as [l El]; [|lia|rewrite El; eauto].
  split; [apply Z.div_pos; lia|]. apply Z.div_lt_upper_bound; [lia|].
  rewrite <- Z.pow_succ_r by lia. replace (Z.succ (Z.of_nat (S len))) with (Z.of_nat (S (S len))) by lia. lia.
Qed.

Definition hex (n : Z) : list Z := match IntToString16 n 16 with Ret l => l | Throw _ => [] end.

Lemma IntToString16_hex n : 0 <= n < 2 ^ 64 -> IntToString16 n 16 = Ret (hex n).
Proof.
  intros Hn. unfold hex. unfold IntToString16. destruct (format_digits_total 16 n) as [l El]; [exact Hn|lia|].
  rewrite El. auto.
Qed.

(** A part of the body as [WriteChunk] writes it; the empty one ends the body. *)
Definition http_chunk (part : list Z) : list Z := hex (zlen part) ++ CRLF ++ part ++ CRLF.

Lemma WriteChunk_flat this lst : zlen (flat lst) < 2 ^ 64 ->
  exists l, WriteChunk this lst = Ret l /\ flat l = flat this ++ http_chunk (flat lst) /\ l <> [].
Proof.
  intros Hl. unfold WriteChunk. rewrite FullLength_flat, IntToString16_hex by (pose proof (zlen_nonneg (flat lst)); lia).
  eexists. split; [reflexivity|]. unfold MoveTo, http_chunk. autorewrite with chunks. rewrite <- !app_assoc. split; [auto|].
  intros E. apply app_eq_nil in E as [_ E]. discriminate.
Qed.

(** ** The encoder *)

Section encoder.
Context {O : Type} `{OutputLaws O}.
Context (t : transfer) (custom : TChunkList) (base : list Z).

Definition encoded_part (part : list Z) : list Z :=
  match t with TIdentityTransferEncoder => part | TChunkedTransferEncoder => http_chunk part end.

Definition encoded_end : list Z :=
  match t with TIdentityTransferEncoder => [] | TChunkedTransferEncoder => http_chunk [] end.

(** The encoder after the module has sent [b]: the head is not complete and nothing was
    sent, or it is and the rest of [b] went out in parts. *)
Inductive encoding (b : list Z) : THttpEncoder O -> Prop :=
  | InHead p r o : flat_parse Start flat_empty b = FMore (cs p) r -> between p r -> Unparsed p = [] -> sent o = base ->
      encoding b (mk_encoder t [] p (Some custom) o)
  | InBody p r rest parts o : flat_parse Start flat_empty b = FDone r rest -> rest = concat parts -> Forall (fun x => x <> []) parts ->
      sent o = base ++ print_flat r (flat custom) ++ concat (map encoded_part parts) ->
      encoding b (mk_encoder t [] p None o).

Lemma new_encoding o : sent o = base -> encoding [] (new_encoder t o custom).
Proof. intros Ho. apply (InHead _ _ flat_empty); auto. apply parse_init_between. Qed.

Lemma Flush_spec l p c o : exists o', Flush (mk_encoder t l p c o) = Some (Ret tt, mk_encoder t [] p c o') /\ sent o' = sent o ++ flat l.
Proof.
  unfold Flush. cbn. destruct l as [|x l]; [exists o; rewrite flat_nil, app_nil_r; auto|].
  destruct (send_ok o (x :: l)) as (o'&E&Es). rewrite E. eauto.
Qed.

Lemma data_and_flush_spec l p o lst : zlen (flat lst) < 2 ^ 64 ->
  exists o', data_and_flush (mk_encoder t l p None o) lst = Some (Ret tt, mk_encoder t [] p None o') /\
    sent o' = sent o ++ flat l ++ encoded_part (flat lst).
Proof.
  intros Hl. unfold data_and_flush, OnDataPart, with_list, encoded_part.
  cbn [enc_transfer enc_list enc_parser CustomHeaders_ enc_S]. destruct t eqn:Et.
  - rewrite <- Et. destruct (Flush_spec (MoveTo lst l) p None o) as (o'&E&Es). rewrite E. exists o'.
    split; [auto|]. rewrite Es. unfold MoveTo. rewrite flat_app. auto.
  - destruct (WriteChunk_flat l lst Hl) as (l'&E&F&_). rewrite E, <- Et.
    destruct (Flush_spec l' p None o) as (o'&E'&Es). exists o'. split; [auto|]. rewrite Es, F. auto.
Qed.

(** Sending a list that has bytes. *)
Lemma send_spec b e lst : encoding b e -> flat lst <> [] -> clean lst -> zlen (flat lst) < 2 ^ 64 ->
  match flat_parse Start flat_empty (b ++ flat lst) with
  | FBad => exists e', DoSend e lst = Some (Throw (THttpParseError 400), e')
  | _ => exists e', DoSend e lst = Some (Ret tt, e') /\ encoding (b ++ flat lst) e'
  end.
Proof.
  intros He Hn Hc Hl. rewrite flat_parse_app. inversion He as [p r o Hp Hb Hu Hs|p r rest parts o Hp Hr Hf Hs]; subst.
  - rewrite Hp. unfold DoSend, encoder_output. cbn [CustomHeaders_ enc_parser enc_transfer enc_list enc_S].
    unfold push_ParseChunk. destruct (ParseChunk_spec _ _ lst Hb) as (res&c'&E&P). rewrite E.
    destruct (flat_parse (cs p) r (flat lst)) as [s' r'| |r' rest'] eqn:Ef.
    + destruct P as (->&P1&P2&P3). destruct (Flush_spec [] c' (Some custom) o) as (o'&E1&E2). rewrite E1.
      eexists. split; [reflexivity|]. apply (InHead _ _ r'); auto; [|congruence|].
      * rewrite flat_parse_app, Hp, Ef, P1. auto.
      * rewrite E2, flat_nil, app_nil_r. auto.
    + subst res. eauto.
    + destruct P as (->&P1&P2&P3). cbn [Request Unparsed]. rewrite Hu in P2. cbn in P2. rewrite flat_nil in P2. cbn in P2.
      set (c2 := mk_ctx _ _ _ _ _). assert (Hun : clean (Unparsed c')) by (apply P3; [rewrite Hu; constructor|auto]).
      assert (Hd : flat_parse Start flat_empty (b ++ flat lst) = FDone r' rest') by (rewrite flat_parse_app, Hp, Ef; auto).
      cbn [app]. destruct (Unparsed c') as [|u un] eqn:Eu.
      * destruct (Flush_spec (BuildTo (Request c') custom) c2 None o) as (o'&E1&E2). rewrite E1.
        eexists. split; [reflexivity|]. rewrite flat_nil in P2. subst rest'. apply (InBody _ _ r' [] []); auto.
        cbn. rewrite E2, BuildTo_flat, P1, app_nil_r, Hs. auto.
      * assert (Hlen : zlen (flat (u :: un)) < 2 ^ 64).
        { rewrite P2. apply flat_parse_shorter in Ef. unfold zlen in *. lia. }
        destruct (data_and_flush_spec (BuildTo (Request c') custom) c2 o (u :: un) Hlen) as (o'&E1&E2). rewrite E1.
        eexists. split; [reflexivity|]. apply (InBody _ _ r' rest' [rest']); auto.
        -- cbn. rewrite app_nil_r. auto.
        -- apply Forall_singleton. rewrite <- P2. intros F. apply clean_flat_nil in F; auto. discriminate.
        -- cbn. rewrite E2, BuildTo_flat, P1, P2, app_nil_r, Hs. auto.
  - rewrite Hp. unfold DoSend, encoder_output. cbn [CustomHeaders_].
    destruct (data_and_flush_spec [] p o lst Hl) as (o'&E1&E2). rewrite E1. eexists. split; [reflexivity|].
    apply (InBody _ _ r (concat parts ++ flat lst) (parts ++ [flat lst])); auto.
    + rewrite flat_parse_app, Hp. auto.
    + rewrite concat_app. cbn. rewrite app_nil_r. auto.
    + apply Forall_app. auto.
    + rewrite E2, Hs, flat_nil, map_app, concat_app, <- !app_assoc. cbn. rewrite app_nil_r. auto.
Qed.

(** [Finish]: the end of the body, or 500 when the head is not complete. *)
Lemma Finish_spec b e : encoding b e ->
  match flat_parse Start flat_empty b with
  | FDone r rest => exists e' parts, Finish e = Some (Ret tt, e') /\ rest = concat parts /\ Forall (fun x => x <> []) parts /\
      sent (enc_S e') = base ++ print_flat r (flat custom) ++ concat (map encoded_part parts) ++ encoded_end
  | _ => Finish e = Some (Throw (THttpError 500), e) /\ sent (enc_S e) = base
  end.
Proof.
  intros [p r o Hp Hb Hu Hs|p r rest parts o Hp Hr Hf Hs]; rewrite Hp; [auto|].
  unfold Finish. cbn [CustomHeaders_ enc_transfer enc_list]. unfold OnFinish, encoded_end, with_list.
  cbn [enc_transfer enc_list enc_parser CustomHeaders_ enc_S]. destruct t eqn:Et.
  - rewrite <- Et. destruct (Flush_spec [] p None o) as (o'&E1&E2). rewrite E1. eexists _, parts. split; [reflexivity|].
    conj; auto. cbn. rewrite E2, Hs, flat_nil, !app_nil_r. auto.
  - destruct (WriteChunk_flat [] []) as (l'&E&F&_); [rewrite flat_nil; reflexivity|]. rewrite E, <- Et.
    destruct (Flush_spec l' p None o) as (o'&E1&E2). rewrite E1. eexists _, parts. split; [reflexivity|].
    conj; auto. cbn. rewrite E2, Hs, F, flat_nil, <- !app_assoc. auto.
Qed.
End encoder.
