(* ===== verification/HProxy.v ===== *)
(** * Proxy module: the input from a back end

    Models the input chain of [src/web/httpd/modules/proxy/module.cpp]: the response of a
    back end is parsed, its connection headers are taken off, and its body is read in HTTP
    chunks, up to a length or to the end of the connection; and the copying of
    [src/web/httpd/modules/proxy/proxy.cpp].  The loops over bytes have fuel; [None] is too
    little of it or undefined behaviour. *)

From Stdlib Require Import ZArith Lia Bool String.
From stdpp Require Import base numbers list.
From S2P Require Import Prelude HChunks HStream HLaws HHttp HParse HRequest HHeaders HServer HEncoder.

(** ** [TChunkedTransfer] *)

(** [Char2Digit] of [src/util/string/hex.h]. *)
Definition Char2Digit (c : Z) : Z :=
  let ch := signed_char c in
  if ch <=? 57 then ch - 48 else if ch <=? 70 then ch - 65 + 10 else ch - 97 + 10.

Record TChunkedTransfer (I : Type) := mk_chunked { ct_iter : TStreamIterator I; ct_L : Z }.
Arguments mk_chunked {I} _ _.
Arguments ct_iter {I} _.
Arguments ct_L {I} _.

Section chunked.
Context {I : Type} {HI : IIoInput I}.

Fixpoint SkipWS (fuel : nat) (it : TStreamIterator I) : option (res Z * TStreamIterator I) :=
  match fuel with
  | O => None
  | S fuel =>
      match NextChar it with
      | (Throw e, it) => Some (Throw e, it)
      | (Ret ch, it) => if (ch =? CR) || (ch =? LF) then SkipWS fuel it else Some (Ret ch, it)
      end
  end.

(** The loop of [ParseNextChunkLength], at [switch (ch)]. *)
Fixpoint length_loop (fuel : nat) (ret ch : Z) (it : TStreamIterator I) : option (res Z * TStreamIterator I) :=
  match fuel with
  | O => None
  | S fuel =>
      if ch =? LF then Some (Ret ret, it)
      else
        let ret := if ch =? CR then ret else u64 (u64 (ret * 16) + u64 (Char2Digit ch)) in
        match NextChar it with
        | (Throw e, it) => Some (Throw e, it)
        | (Ret ch, it) => length_loop fuel ret ch it
        end
  end.

Definition ParseNextChunkLength (fuel : nat) (it : TStreamIterator I) : option (res Z * TStreamIterator I) :=
  let* (r, it) := SkipWS fuel it in
  match r with
  | Throw e => Some (Throw e, it)
  | Ret ch => length_loop fuel 0 ch it
  end.

(** The constructor. *)
Definition new_chunked (fuel : nat) (slave : I) : option (res (TChunkedTransfer I) * TStreamIterator I) :=
  let* (r, it) := ParseNextChunkLength fuel (iterator_over slave) in
  Some (match r with Ret l => Ret (mk_chunked it l) | Throw e => Throw e end, it).

Definition chunked_recv (fuel : nat) (t : TChunkedTransfer I) : option (res TChunkList * TChunkedTransfer I) :=
  if ct_L t =? 0 then Some (Ret [], t)
  else match NextLen (ct_L t) (ct_iter t) with
  | (Throw e, it) => Some (Throw e, mk_chunked it (ct_L t))
  | (Ret lst, it) =>
      let l := ct_L t - FullLength lst in
      if l =? 0 then
        let* (r, it) := ParseNextChunkLength fuel it in
        match r with
        | Ret l => Some (Ret lst, mk_chunked it l)
        | Throw e => Some (Throw e, mk_chunked it 0)
        end
      else Some (Ret lst, mk_chunked it l)
  end.
End chunked.

(** ** [TLimitedBackEndInput] *)

(** [S_] before the response is parsed, then [P_]: the unparsed bytes in front of [S_], read
    in one of three ways. *)
Inductive TLimitedBackEndInput (I : Type) :=
  | NotBuilt (s : I)
  | TChunkedInput (t : TChunkedTransfer (TConcatInput TOwnedInput I))
  | TContentLengthInput (t : TLengthLimitedInput (TConcatInput TOwnedInput I))
  | TPrechargedConcatInput (t : TConcatInput TOwnedInput I).
Arguments NotBuilt {I} s.
Arguments TChunkedInput {I} t.
Arguments TContentLengthInput {I} t.
Arguments TPrechargedConcatInput {I} t.

Section backend.
Context {I : Type} {HI : IIoInput I} {HP : Pire}.

(** [BuildInputChain] *)
Definition BuildInputChain (fuel : nat) (s : I) : option (res TChunkList * TLimitedBackEndInput I) :=
  let* (r, s) := Parse fuel parse_init s in
  match r with
  | Throw e => Some (Throw e, NotBuilt s)
  | Ret (resp, unparsed) =>
      let '(props, resp) := response_properties resp in
      let lst := BuildTo resp [] in
      let slave := concat_of (Owned unparsed) s in
      if ChunkedTransfer props then
        let* (c, it) := new_chunked fuel slave in
        match c with
        | Ret c => Some (Ret lst, TChunkedInput c)
        | Throw e => Some (Throw e, NotBuilt (second (S_ it)))
        end
      else if negb (ContentLength props =? 0) then
        Some (Ret lst, TContentLengthInput (mk_limited slave (ContentLength props) None))
      else Some (Ret lst, TPrechargedConcatInput slave)
  end.

Definition backend_recv (fuel : nat) (t : TLimitedBackEndInput I) : option (res TChunkList * TLimitedBackEndInput I) :=
  match t with
  | NotBuilt s => BuildInputChain fuel s
  | TChunkedInput t => let* (r, t) := chunked_recv fuel t in Some (r, TChunkedInput t)
  | TContentLengthInput t => let '(r, t) := DoRecv t in Some (r, TContentLengthInput t)
  | TPrechargedConcatInput t => let '(r, t) := DoRecv t in Some (r, TPrechargedConcatInput t)
  end.
End backend.

(** ** [proxy.cpp] *)

(** [TWorker::Run] over an input and an output. *)
Fixpoint worker_run {I O} `{IIoOutput O} (recv : I -> option (res TChunkList * I)) (fuel : nat) (i : I) (o : O) : option (res unit * I * O) :=
  match fuel with
  | 0%nat => None
  | S fuel =>
      let* (r, i) := recv i in
      match r with
      | Throw e => Some (Throw e, i, o)
      | Ret [] => Some (Ret tt, i, o)
      | Ret lst =>
          let* (r, o) := DoSend o lst in
          match r with
          | Throw e => Some (Throw e, i, o)
          | Ret _ => worker_run recv fuel i o
          end
      end
  end.

(** ** Chunk sizes back *)

Definition hexadecimal (l : list Z) : Z := fold_left (fun ret ch => u64 (u64 (ret * 16) + u64 (Char2Digit ch))) l 0.

Lemma Char2Digit_IntToChar d : 0 <= d < 16 -> Char2Digit (IntToChar d) = d /\ IntToChar d <> CR /\ IntToChar d <> LF.
Proof.
  intros Hd. assert (C : In d (map Z.of_nat (seq 0 16))) by (apply in_map_iff; exists (Z.to_nat d); rewrite in_seq; lia).
  cbn in C. repeat (destruct C as [<-|C]; [vm_compute; intuition congruence|]). destruct C.
Qed.

Lemma format_digits_value len t l : 0 <= t < 2 ^ 64 -> format_digits len t = Ret l ->
  hexadecimal (rev l) = t /\ rev l <> [] /\ Forall (fun ch => ch <> CR /\ ch <> LF) (rev l).
Proof.
  revert t l. induction len as [|len IH]; intros t l Ht E; cbn in E; [discriminate|].
  assert (Hm : 0 <= t mod 16 < 16) by (apply Z.mod_pos_bound; lia). destruct (Char2Digit_IntToChar _ Hm) as (D1&D2&D3).
  assert (Hval : forall n, 0 <= n -> n * 16 + t mod 16 = t -> u64 (u64 (n * 16) + u64 (Char2Digit (IntToChar (t mod 16)))) = t).
  { intros n Hn Heq. rewrite D1. rewrite (u64_small (n * 16)), (u64_small (t mod 16)), u64_small; lia. }
  destruct (Z.eqb_spec (t / 16) 0) as [E0|E0].
  - inv E. unfold hexadecimal. cbn [rev app fold_left]. conj; [|discriminate|repeat constructor; auto].
    apply (Hval 0); [lia|]. pose proof (Z_div_mod_eq_full t 16). lia.
  - destruct (format_digits len (t / 16)) as [l'|] eqn:El; inv E.
    assert (Hd : 0 <= t / 16 < 2 ^ 64) by (split; [apply Z.div_pos|apply Z.div_lt_upper_bound]; lia).
    destruct (IH _ _ Hd El) as (I1&I2&I3). cbn [rev]. unfold hexadecimal in *. rewrite fold_left_app. cbn [fold_left]. rewrite I1.
    conj; [apply Hval; [lia|pose proof (Z_div_mod_eq_full t 16); lia]|intros F; apply app_eq_nil in F as [_ F]; discriminate|].
    apply Forall_app. split; [auto|]. repeat constructor; auto.
Qed.

Lemma hex_value n : 0 <= n < 2 ^ 64 ->
  hexadecimal (hex n) = n /\ hex n <> [] /\ Forall (fun ch => ch <> CR /\ ch <> LF) (hex n).
Proof.
  intros Hn. pose proof (IntToString16_hex n Hn) as E. unfold IntToString16 in E.
  destruct (format_digits 16 n) as [l|] eqn:El; [|discriminate]. injection E as <-.
  eapply format_digits_value; eauto.
Qed.
