(* ===== verification/HProxySpec.v ===== *)
(** * Proxy module: what the client gets of a response

    The three ways a body is read, against the bytes of the back end, and the round trip of
    the chunked encoding of the HTTP module through the proxy. *)

From Stdlib Require Import ZArith Lia Bool String.
From stdpp Require Import base numbers list.
From S2P Require Import Prelude HChunks HStream HLaws HHttp HParse HRequest HHeaders HServer HEncoder HProxy.

(** ** Chunk lengths *)

Section lengths.
Context {I : Type} `{CleanLaws I}.

Lemma NextChar_cons it ch rest : iter_ok it -> iter_content it = ch :: rest ->
  exists it', NextChar it = (Ret ch, it') /\ iter_ok it' /\ iter_final it' = iter_final it /\ iter_content it' = rest.
Proof.
  intros Hok Hc. destruct (NextChar it) as [r it'] eqn:E. apply NextChar_spec in E as (Ho&Hf&D); auto.
  rewrite Hc in D. destruct D as [-> D]. eauto.
Qed.

Lemma SkipWS_spec fuel it ws ch rest : iter_ok it -> iter_content it = ws ++ ch :: rest ->
  Forall (fun c => c = CR \/ c = LF) ws -> ch <> CR -> ch <> LF -> (length ws < fuel)%nat ->
  exists it', SkipWS fuel it = Some (Ret ch, it') /\ iter_ok it' /\ iter_final it' = iter_final it /\ iter_content it' = rest.
Proof.
  intros Hok Hc Hw H1' H2' Hf. revert fuel it Hok Hc Hf. induction Hw as [|w ws Hw Hws IH]; intros [|fuel] it Hok Hc Hf; cbn in *; try lia.
  - destruct (NextChar_cons _ _ _ Hok Hc) as (it1&E&O1&F1&C1). rewrite E.
    destruct (Z.eqb_spec ch CR), (Z.eqb_spec ch LF); try tauto. cbn. eauto.
  - destruct (NextChar_cons _ _ _ Hok Hc) as (it1&E&O1&F1&C1). rewrite E.
    assert ((w =? CR) || (w =? LF) = true) as -> by (destruct Hw as [-> | ->]; reflexivity).
    destruct (IH fuel it1) as (it2&E2&O2&F2&C2); auto; [lia|]. exists it2. conj; auto. congruence.
Qed.

Lemma length_loop_spec fuel it ret ch w rest : iter_ok it -> iter_content it = w ++ CRLF ++ rest ->
  Forall (fun c => c <> CR /\ c <> LF) (ch :: w) -> (length w + 2 < fuel)%nat ->
  exists it', length_loop fuel ret ch it =
      Some (Ret (fold_left (fun ret ch => u64 (u64 (ret * 16) + u64 (Char2Digit ch))) (ch :: w) ret), it') /\
    iter_ok it' /\ iter_final it' = iter_final it /\ iter_content it' = rest.
Proof.
  intros Hok Hc Hw Hf. revert fuel it ret ch Hok Hc Hw Hf. induction w as [|c w IH]; intros [|fuel] it ret ch Hok Hc Hw Hf; cbn [length] in Hf; try lia.
  - inversion Hw as [|? ? [W1 W2] _]; subst. cbn [length_loop fold_left].
    destruct (Z.eqb_spec ch LF), (Z.eqb_spec ch CR); try tauto.
    destruct (NextChar_cons _ _ _ Hok Hc) as (it1&E1&O1&F1&C1). rewrite E1.
    destruct fuel as [|fuel]; [lia|]. cbn [length_loop]. cbn [Z.eqb CR LF].
    destruct (NextChar_cons _ _ _ O1 C1) as (it2&E2&O2&F2&C2). rewrite E2. cbn.
    destruct fuel as [|fuel]; [lia|]. cbn. exists it2. conj; auto. congruence.
  - inversion Hw as [|? ? [W1 W2] Hw']; subst. cbn [length_loop]. destruct (Z.eqb_spec ch LF), (Z.eqb_spec ch CR); try tauto.
    destruct (NextChar_cons _ _ _ Hok Hc) as (it1&E1&O1&F1&C1). rewrite E1.
    destruct (IH fuel it1 (u64 (u64 (ret * 16) + u64 (Char2Digit ch))) c) as (it2&E2&O2&F2&C2); auto; [lia|].
    exists it2. conj; auto. congruence.
Qed.

(** A length the encoder wrote is read back. *)
Lemma ParseNextChunkLength_spec fuel it ws n rest : iter_ok it -> iter_content it = ws ++ hex n ++ CRLF ++ rest ->
  Forall (fun c => c = CR \/ c = LF) ws -> 0 <= n < 2 ^ 64 -> (length (iter_content it) < fuel)%nat ->
  exists it', ParseNextChunkLength fuel it = Some (Ret n, it') /\ iter_ok it' /\ iter_final it' = iter_final it /\ iter_content it' = rest.
Proof.
  intros Hok Hc Hw Hn Hf. destruct (hex_value n Hn) as (V1&V2&V3). unfold ParseNextChunkLength.
  destruct (hex n) as [|ch w] eqn:Eh; [tauto|]. inversion V3 as [|? ? [W1 W2] V4]; subst.
  rewrite Hc in Hf. rewrite !length_app in Hf. cbn in Hf.
  destruct (SkipWS_spec fuel it ws ch (w ++ CRLF ++ rest)) as (it1&E1&O1&F1&C1); auto; [lia|]. rewrite E1.
  destruct (length_loop_spec fuel it1 0 ch w rest) as (it2&E2&O2&F2&C2); auto; [lia|]. rewrite E2.
  exists it2. conj; auto. congruence.
Qed.

(** ** The chunked body *)

Definition small (p : list Z) : Prop := p <> [] /\ zlen p < 2 ^ 64.

(** The decoder is [zlen cur] bytes before the end of a part. *)
Inductive decoding : TChunkedTransfer I -> list Z -> Prop :=
  | DEnd it : iter_ok it -> decoding (mk_chunked it 0) []
  | DPart it cur parts tail : iter_ok it -> cur <> [] -> Forall small parts ->
      iter_content it = cur ++ CRLF ++ concat (map http_chunk parts) ++ http_chunk [] ++ tail ->
      decoding (mk_chunked it (zlen cur)) (cur ++ concat parts).

Lemma http_chunk_next ws parts tail : exists n rest,
  ws ++ concat (map http_chunk parts) ++ http_chunk [] ++ tail = ws ++ hex n ++ CRLF ++ rest /\
  match parts with
  | [] => n = 0
  | p :: parts => n = zlen p /\ rest = p ++ CRLF ++ concat (map http_chunk parts) ++ http_chunk [] ++ tail
  end.
Proof.
  destruct parts as [|p parts]; cbn [map concat].
  - exists 0. eexists. split; [|auto]. unfold http_chunk. cbn [app]. rewrite <- !app_assoc. reflexivity.
  - exists (zlen p). eexists. split; [|split; [auto|reflexivity]]. f_equal. unfold http_chunk. rewrite <- !app_assoc. reflexivity.
Qed.

(** The next length is read: the decoder is at the next part or at the end. *)
Lemma next_part fuel it ws parts tail : iter_ok it -> Forall small parts -> Forall (fun c => c = CR \/ c = LF) ws ->
  iter_content it = ws ++ concat (map http_chunk parts) ++ http_chunk [] ++ tail -> (length (iter_content it) < fuel)%nat ->
  exists n it', ParseNextChunkLength fuel it = Some (Ret n, it') /\ decoding (mk_chunked it' n) (concat parts) /\
    (length (iter_content it') < length (iter_content it))%nat.
Proof.
  intros Hok Hp Hw Hc Hf. destruct (http_chunk_next ws parts tail) as (n&rest&E&R).
  assert (Hn : 0 <= n < 2 ^ 64).
  { destruct parts as [|p parts]; [lia|]. destruct R as [-> _]. inversion Hp as [|? ? [P1 P2] _]; subst.
    pose proof (zlen_nonneg p). lia. }
  destruct (ParseNextChunkLength_spec fuel it ws n rest) as (it'&E1&O1&F1&C1); auto; [congruence|].
  exists n, it'. conj; auto.
  - destruct parts as [|p parts]; [subst n; apply DEnd; auto|]. destruct R as [-> R]. inversion Hp as [|? ? [P1 P2] Hp']; subst.
    cbn [concat]. eapply DPart; eauto.
  - rewrite C1, Hc, E, !length_app. cbn. lia.
Qed.

Lemma chunked_recv_spec fuel t body : decoding t body -> (length (iter_content (ct_iter t)) < fuel)%nat ->
  exists l t' body', chunked_recv fuel t = Some (Ret l, t') /\ body = flat l ++ body' /\ decoding t' body' /\
    (flat l = [] -> l = [] /\ body = []) /\ (length (iter_content (ct_iter t')) <= length (iter_content (ct_iter t)))%nat.
Proof.
  intros [it Hok|it cur parts tail Hok Hcur Hp Hc] Hf; unfold chunked_recv; cbn [ct_L ct_iter] in *.
  - cbn [Z.eqb]. eexists [], _, []. split; [reflexivity|]. cbn. conj; auto. constructor. auto.
  - assert (Hz : 0 < zlen cur) by (destruct cur; [tauto|unfold zlen; cbn; lia]).
    destruct (Z.eqb_spec (zlen cur) 0) as [|_]; [lia|].
    destruct (NextLen (zlen cur) it) as [[l|e] it1] eqn:EN; apply NextLen_spec in EN as (O1&F1&D); auto.
    2: { destruct D as (D1&_). rewrite Hc in D1. destruct cur; [tauto|discriminate]. }
    destruct D as (D1&D2&D3). rewrite FullLength_flat.
    assert (Hpre : exists cur', cur = flat l ++ cur' /\ iter_content it1 = cur' ++ CRLF ++ concat (map http_chunk parts) ++ http_chunk [] ++ tail).
    { rewrite Hc in D1. apply app_eq_app in D1 as (k&[(K1&K2)|(K1&K2)]); [eauto|].
      assert (k = []) as -> by (apply nil_length_inv; rewrite K1 in D2; unfold zlen in D2; rewrite length_app in D2; lia).
      exists []. rewrite app_nil_r in *. cbn in K2. auto. }
    destruct Hpre as (cur'&K1&K2).
    assert (Hl : (length (iter_content it1) <= length (iter_content it))%nat) by (rewrite D1, length_app; lia).
    destruct (Z.eqb_spec (zlen cur - zlen (flat l)) 0) as [E0|E0].
    + assert (cur' = []) as -> by (apply zlen_0; rewrite K1, zlen_app in E0; lia). rewrite app_nil_r in K1. cbn [app] in K2.
      destruct (next_part fuel it1 CRLF parts tail) as (n&it2&E2&D4&Hl2);
        [auto|auto|apply Forall_cons; split; [auto|apply Forall_singleton; auto]|auto|lia|].
      rewrite E2. eexists l, _, (concat parts). split; [reflexivity|]. rewrite <- K1. cbn [ct_iter]. conj; auto; [|lia].
      intros F. rewrite F in K1. tauto.
    + eexists l, _, (cur' ++ concat parts). split; [reflexivity|]. rewrite K1 at 1. rewrite <- app_assoc. cbn [ct_iter]. conj; auto.
      * replace (zlen cur - zlen (flat l)) with (zlen cur') by (rewrite K1, zlen_app; lia).
        eapply DPart; eauto. intros ->. rewrite app_nil_r in K1. rewrite K1 in E0. lia.
      * intros F. destruct (D3 F) as (_&D4&_). rewrite Hc in D4. destruct cur; [tauto|discriminate].
Qed.
End lengths.

(** ** Copying *)

(** An input that is going to deliver [body] and end, by the fuel of its calls. *)
Section copy.
Context {I O : Type} `{OutputLaws O}.
Context (recv : I -> option (res TChunkList * I)) (Q : I -> list Z -> Prop).
Context (Hrecv : forall i body, Q i body -> exists l i' body', recv i = Some (Ret l, i') /\ body = flat l ++ body' /\
  Q i' body' /\ (flat l = [] -> l = [] /\ body = [])).

(** The worker sends exactly that. *)
Lemma worker_copies fuel i body o : Q i body -> (length body < fuel)%nat ->
  exists i' o', worker_run recv fuel i o = Some (Ret tt, i', o') /\ sent o' = sent o ++ body.
Proof.
  revert i body o. induction fuel as [|fuel IH]; intros i body o HQ Hf; [lia|]. cbn.
  destruct (Hrecv _ _ HQ) as (l&i'&body'&E&Hb&HQ'&Hn). rewrite E. destruct l as [|c l].
  - destruct Hn as [_ ->]; auto. eexists _, _. split; [reflexivity|]. rewrite app_nil_r. auto.
  - destruct (send_ok o (c :: l)) as (o1&E1&S1). rewrite E1.
    destruct (IH i' body' o1 HQ') as (i2&o2&E2&S2).
    + rewrite Hb, length_app in Hf. destruct (flat (c :: l)) eqn:Ec; [destruct (Hn eq_refl); discriminate|cbn in Hf; lia].
    + exists i2, o2. rewrite E2, S2, S1, Hb, <- app_assoc. auto.
Qed.
End copy.

(** ** The back end *)

Section backend.
Context {I : Type} `{CleanLaws I} {P : Pire} `{!PireLiteral P}.

(** The request or response without the headers of the connection. *)
Definition strip (r : flat_request) : flat_request := mk_flat (line r) (List.filter (fun kv => negb (checked kv)) (fields r)).

Definition chunked_flag (r : flat_request) : bool := existsb (named "Transfer-Encoding") (fields r).

Definition announced_length (r : flat_request) : Z :=
  fold_left (fun n kv => if named "Content-Length" kv then FromString [kv.2] else n) (fields r) 0.

Lemma FromString_flat l k : flat l = flat k -> FromString l = FromString k.
Proof. intros E. unfold FromString. rewrite E. auto. Qed.

Lemma map_filter {A B} (f : A -> B) (p : B -> bool) l : map f (List.filter (fun x => p (f x)) l) = List.filter p (map f l).
Proof. induction l as [|x l IH]; cbn; [auto|]. destruct (p (f x)); cbn; rewrite IH; auto. Qed.

(** The properties of a response are those of its bytes. *)
Lemma response_properties_flat r : exists props r', response_properties r = (props, r') /\
  flatten r' = strip (flatten r) /\ ChunkedTransfer props = chunked_flag (flatten r) /\ ContentLength props = announced_length (flatten r).
Proof.
  unfold response_properties. rewrite check_headers_spec. eexists _, _. split; [reflexivity|]. cbn. conj.
  - unfold flatten, strip. cbn. f_equal. apply (map_filter flat_header (fun kv => negb (checked kv))).
  - rewrite orb_false_r. unfold chunked_flag. cbn. induction (Headers_ r) as [|h hs IH]; cbn; [auto|]. rewrite IH. auto.
  - unfold announced_length. cbn. generalize 0 as n. induction (Headers_ r) as [|h hs IH]; intros n; cbn; [auto|].
    rewrite IH. destruct (named "Content-Length" (flat_header h)); [|auto]. f_equal. apply FromString_flat. rewrite flat_one. auto.
Qed.

(** What is left to deliver. *)
Inductive delivering (fuel : nat) : TLimitedBackEndInput I -> list Z -> Prop :=
  | QHead s r rest body : ok s -> final s = None -> (length (content s) < fuel)%nat ->
      flat_parse Start flat_empty (content s) = FDone r rest ->
      (if chunked_flag r then exists parts tail, Forall small parts /\ body = concat parts /\
         rest = concat (map http_chunk parts) ++ http_chunk [] ++ tail
       else if announced_length r =? 0 then body = rest else body = take (Z.to_nat (announced_length r)) rest) ->
      delivering fuel (NotBuilt s) (print_flat (strip r) [] ++ body)
  | QChunked t body : decoding t body -> (length (iter_content (ct_iter t)) < fuel)%nat -> delivering fuel (TChunkedInput t) body
  | QLength t : ok t -> final t = None -> delivering fuel (TContentLengthInput t) (content t)
  | QClose t : ok t -> final t = None -> delivering fuel (TPrechargedConcatInput t) (content t).

Lemma announced_length_range r : 0 <= announced_length r < 2 ^ 64.
Proof.
  unfold announced_length. assert (G : forall n, 0 <= n < 2 ^ 64 -> 0 <= fold_left
    (fun n kv => if named "Content-Length" kv then FromString [kv.2] else n) (fields r) n < 2 ^ 64); [|apply G; lia].
  induction (fields r) as [|kv fs IH]; intros n Hn; cbn; [auto|]. apply IH.
  destruct (named "Content-Length" kv); [|auto]. unfold FromString.
  set (w := flat [kv.2]). destruct w as [|ch w] using rev_ind; [cbn; lia|]. rewrite fold_left_app. cbn. apply u64_bound.
Qed.

(** The first call returns the head; the chain is ready for the body. *)
Lemma BuildInputChain_spec fuel s r rest body : ok s -> final s = None -> (length (content s) < fuel)%nat ->
  flat_parse Start flat_empty (content s) = FDone r rest ->
  (if chunked_flag r then exists parts tail, Forall small parts /\ body = concat parts /\
     rest = concat (map http_chunk parts) ++ http_chunk [] ++ tail
   else if announced_length r =? 0 then body = rest else body = take (Z.to_nat (announced_length r)) rest) ->
  exists l t, BuildInputChain fuel s = Some (Ret l, t) /\ flat l = print_flat (strip r) [] /\ delivering fuel t body.
Proof.
  intros Hok Hfin Hf Hp Hb. unfold BuildInputChain.
  destruct (Parse_spec fuel parse_init flat_empty s parse_init_between eq_refl Hok Hf) as (res&s'&E&Ho&Hfi&Q).
  cbn [cs parse_init] in Q. rewrite Hp in Q. rewrite E. destruct Q as (req&un&->&Hr&Hrest&Hcl).
  destruct (response_properties_flat req) as (props&req'&E1&Hs&Hch&Hlen). rewrite E1, Hch, Hlen, Hr in *.
  assert (Hun : clean un) by (apply Hcl; exact recv_clean).
  set (slave := concat_of (Owned un) s').
  assert (Hsl : ok slave) by (split; cbn; auto).
  assert (Hfs : final (Owned un) = None) by reflexivity.
  destruct (concat_of_content (Owned un) s' Hfs) as [Hc1 Hc2]. fold slave in Hc1, Hc2. cbn [content owned_laws] in Hc1.
  rewrite <- Hrest in Hc1. rewrite Hfi, Hfin in Hc2.
  assert (Hl : (length rest <= length (content s))%nat) by (apply flat_parse_shorter in Hp; lia).
  assert (Hhead : flat (BuildTo req' []) = print_flat (strip r) []) by (rewrite BuildTo_flat, Hs; auto).
  destruct (chunked_flag r).
  - destruct Hb as (parts&tail&Hsm&->&Hrest'). unfold new_chunked.
    assert (Hit : iter_ok (iterator_over slave)) by (split; [constructor|exact Hsl]).
    assert (Hci : iter_content (iterator_over slave) = [] ++ concat (map http_chunk parts) ++ http_chunk [] ++ tail)
      by (unfold iter_content; cbn [iterator_over L_ S_]; rewrite flat_nil, Hc1; cbn; auto).
    assert (Hli : (length (iter_content (iterator_over slave)) < fuel)%nat)
      by (unfold iter_content; cbn [iterator_over L_ S_]; rewrite flat_nil, Hc1; cbn; lia).
    destruct (next_part fuel _ [] parts tail Hit Hsm (Forall_nil_2 _) Hci Hli) as (n&it'&E2&D2&L2). rewrite E2.
    eexists _, _. split; [reflexivity|]. split; [auto|]. constructor; [auto|]. cbn. lia.
  - destruct (Z.eqb_spec (announced_length r) 0) as [E0|E0]; cbn [negb].
    + eexists _, _. split; [reflexivity|]. split; [auto|]. subst body. rewrite <- Hc1. constructor; auto.
    + eexists _, _. split; [reflexivity|]. split; [auto|]. pose proof (announced_length_range r).
      assert (Hct : content (mk_limited slave (announced_length r) None) = body)
        by (cbn; unfold limited_content; cbn [limited_S limited_L]; change (concat_content slave) with (content slave); rewrite Hc1; auto).
      rewrite <- Hct. constructor; [split; cbn; [lia|exact Hsl]|]. cbn. unfold limited_final. cbn [limited_S limited_L OnErr].
      destruct (_ <? _); auto.
Qed.

Lemma backend_recv_spec fuel t body : delivering fuel t body ->
  exists l t' body', backend_recv fuel t = Some (Ret l, t') /\ body = flat l ++ body' /\ delivering fuel t' body' /\
    (flat l = [] -> l = [] /\ body = []).
Proof.
  intros [s r rest b Hok Hfin Hf Hp Hb|u b Hd Hf|u Hok Hfin|u Hok Hfin]; cbn [backend_recv].
  - destruct (BuildInputChain_spec _ _ _ _ _ Hok Hfin Hf Hp Hb) as (l&t'&E&Hl&Hq). rewrite E.
    eexists l, t', b. split; [reflexivity|]. rewrite Hl. conj; auto. intros F. exfalso. unfold print_flat in F.
    apply app_eq_nil in F as [_ F]. apply app_eq_nil in F as [F _]. discriminate.
  - destruct (chunked_recv_spec _ _ _ Hd Hf) as (l&t'&b'&E&Hb&Hd'&Hn&Hl). rewrite E.
    eexists l, _, b'. split; [reflexivity|]. conj; auto. constructor; auto. lia.
  - destruct (DoRecv u) as [[l|e] u'] eqn:E.
    + destruct (recv_delivers _ _ _ Hok E) as (Ho&Hf'&D1&D2). eexists l, _, (content u'). split; [reflexivity|]. conj; auto.
      * constructor; auto. congruence.
      * intros F. destruct (D2 F) as (?&?&?). auto.
    + destruct (recv_delivers _ _ _ Hok E) as (Ho&Hf'&D1&D2&D3). congruence.
  - destruct (DoRecv u) as [[l|e] u'] eqn:E.
    + destruct (recv_delivers _ _ _ Hok E) as (Ho&Hf'&D1&D2). eexists l, _, (content u'). split; [reflexivity|]. conj; auto.
      * constructor; auto. congruence.
      * intros F. destruct (D2 F) as (?&?&?). auto.
    + destruct (recv_delivers _ _ _ Hok E) as (Ho&Hf'&D1&D2&D3). congruence.
Qed.
End backend.
