(* ===== verification/HWorkers.v ===== *)
(** * Proxy module: the two copies

    Models [TProxy::Run] and [TWorker] of [src/web/httpd/modules/proxy/proxy.cpp]: one
    coroutine copies from the client to the back end, the one of the request copies back and
    then waits for the first with [TMyEvent::Wait] of [src/web/httpd/kernel/syncro.h].  A turn
    is an iteration of a copying loop, or the cancellation of one of the coroutines, as
    [TContExecutor::Abort] does it to all; the scheduler orders the turns.  The two directions
    use different objects; receives and sends may answer a cancelled coroutine differently. *)

From Stdlib Require Import ZArith Lia Bool.
From stdpp Require Import base numbers list sets.
From S2P Require Import Prelude HChunks HStream HLaws HHttp HProxy.

(** An iteration of [TWorker::Run]: the result when the loop is left. *)
Definition worker_turn {I O} `{IIoOutput O} (recv : I -> option (res TChunkList * I)) (i : I) (o : O) : option (option (res unit) * I * O) :=
  let* (r, i) := recv i in
  match r with
  | Throw e => Some (Some (Throw e), i, o)
  | Ret [] => Some (Some (Ret tt), i, o)
  | Ret lst =>
      let* (r, o) := DoSend o lst in
      match r with
      | Throw e => Some (Some (Throw e), i, o)
      | Ret _ => Some (None, i, o)
      end
  end.

Section run.
Context {CI BO BI CO : Type} (HBO : bool -> IIoOutput BO) (HCO : bool -> IIoOutput CO).
(** The receives, for a coroutine that is cancelled or not. *)
Context (client_recv : bool -> CI -> option (res TChunkList * CI)) (backend_recv : bool -> BI -> option (res TChunkList * BI)).

(** Where the coroutine of the request is in [TProxy::Run]. *)
Inductive main_place := Copying | Waiting | Left (r : res unit).

(** [f_runs]: the other coroutine has not ended; [f_event]: its event is signalled;
    [f_cancelled] and [main_cancelled]: the coroutines that are cancelled. *)
Record TProxyRun := mk_run {
  ci : CI; bo : BO; bi : BI; co : CO; f_runs : bool; f_event : bool; main : main_place; f_cancelled : bool; main_cancelled : bool }.

Definition started (i : CI) (o : BO) (i' : BI) (o' : CO) : TProxyRun := mk_run i o i' o' true false Copying false false.

(** [Undefined]: the coroutine goes on in a [TWorker] that is destroyed. *)
Inductive turned := Next (s : TProxyRun) | Undefined.

(** [TWorker::operator()]; its exceptions are dropped. *)
Definition f_turn (s : TProxyRun) : option turned :=
  if negb (f_runs s) then Some (Next s)
  else match main s with
       | Left _ => Some Undefined
       | _ =>
           let* (r, i, o) := @worker_turn _ _ (HBO (f_cancelled s)) (client_recv (f_cancelled s)) (ci s) (bo s) in
           Some (Next (match r with
                       | None => mk_run i o (bi s) (co s) true (f_event s) (main s) (f_cancelled s) (main_cancelled s)
                       | Some _ => mk_run i o (bi s) (co s) false true (main s) (f_cancelled s) (main_cancelled s)
                       end))
       end.

(** [Wait] returns when the event is signalled, and when the sleep in it is cancelled. *)
Definition wait_returns (s : TProxyRun) : bool := f_event s || main_cancelled s.

Definition main_turn (s : TProxyRun) : option turned :=
  match main s with
  | Left _ => Some (Next s)
  | Waiting =>
      Some (Next (if wait_returns s
                  then mk_run (ci s) (bo s) (bi s) (co s) (f_runs s) false (Left (Ret tt)) (f_cancelled s) (main_cancelled s)
                  else s))
  | Copying =>
      let* (r, i, o) := @worker_turn _ _ (HCO (main_cancelled s)) (backend_recv (main_cancelled s)) (bi s) (co s) in
      Some (Next (mk_run (ci s) (bo s) i o (f_runs s) (f_event s)
        (match r with None => Copying | Some (Ret _) => Waiting | Some (Throw e) => Left (Throw e) end) (f_cancelled s) (main_cancelled s)))
  end.

Inductive turn := FTurn | MainTurn | CancelF | CancelMain.

#[export] Instance turn_eq_dec : EqDecision turn.
Proof. solve_decision. Defined.

Definition one_turn (t : turn) (s : TProxyRun) : option turned :=
  match t with
  | FTurn => f_turn s
  | MainTurn => main_turn s
  | CancelF => Some (Next (mk_run (ci s) (bo s) (bi s) (co s) (f_runs s) (f_event s) (main s) true (main_cancelled s)))
  | CancelMain => Some (Next (mk_run (ci s) (bo s) (bi s) (co s) (f_runs s) (f_event s) (main s) (f_cancelled s) true))
  end.

(** The turns of a schedule. *)
Fixpoint run_turns (schedule : list turn) (s : TProxyRun) : option turned :=
  match schedule with
  | [] => Some (Next s)
  | who :: schedule =>
      let* t := one_turn who s in
      match t with Next s => run_turns schedule s | Undefined => Some Undefined end
  end.
End run.

(** ** What it copies *)

Inductive copied {I O} {HO : IIoOutput O} (recv : I -> option (res TChunkList * I)) (i : I) (o : O) : I -> O -> Prop :=
  | copied_nothing : copied recv i o i o
  | copied_turn i1 o1 i2 o2 : copied recv i o i1 o1 -> worker_turn recv i1 o1 = Some (None, i2, o2) -> copied recv i o i2 o2.

Lemma worker_run_turn {I O} {HO : IIoOutput O} recv fuel (i : I) (o : O) :
  worker_run recv (S fuel) i o = let* (r, i, o) := worker_turn recv i o in match r with Some r => Some (r, i, o) | None => worker_run recv fuel i o end.
Proof.
  cbn [worker_run]. unfold worker_turn. destruct (recv i) as [[[[|c l]|e] i1]|]; cbn; auto. destruct (DoSend o (c :: l)) as [[[u|e] o1]|]; cbn; auto.
Qed.

(** Iterations that go on are the start of a run of the loop. *)
Lemma copied_run {I O} {HO : IIoOutput O} recv (i : I) (o : O) i1 o1 fuel r : copied recv i o i1 o1 -> worker_run recv fuel i1 o1 = Some r ->
  exists fuel, worker_run recv fuel i o = Some r.
Proof.
  intros H. revert fuel. induction H as [|i1 o1 i2 o2 H IH E]; intros fuel Hr; [eauto|]. apply (IH (S fuel)). rewrite worker_run_turn, E. exact Hr.
Qed.

Section direction.
Context {I O : Type} (HO : bool -> IIoOutput O) (recv : bool -> I -> option (res TChunkList * I)).

(** Iterations before the cancellation of the coroutine, and behind it when it is cancelled. *)
Definition copied_until (cancelled : bool) (i : I) (o : O) (i2 : I) (o2 : O) : Prop :=
  exists i1 o1, @copied _ _ (HO false) (recv false) i o i1 o1 /\
    if cancelled then @copied _ _ (HO true) (recv true) i1 o1 i2 o2 else i2 = i1 /\ o2 = o1.

(** The loop of a worker by itself, which is cancelled after some iterations if at all. *)
Definition copies (cancelled : bool) (i : I) (o : O) (r : res unit) (i2 : I) (o2 : O) : Prop :=
  (exists fuel, @worker_run _ _ (HO false) (recv false) fuel i o = Some (r, i2, o2)) \/
  (cancelled = true /\ exists i1 o1 fuel, @copied _ _ (HO false) (recv false) i o i1 o1 /\ @worker_run _ _ (HO true) (recv true) fuel i1 o1 = Some (r, i2, o2)).

Lemma copied_until_turn c i o i1 o1 i2 o2 : copied_until c i o i1 o1 -> @worker_turn _ _ (HO c) (recv c) i1 o1 = Some (None, i2, o2) -> copied_until c i o i2 o2.
Proof.
  intros (i3&o3&H1&H2) E. destruct c.
  - exists i3, o3. split; [exact H1|]. exact (copied_turn _ _ _ _ _ _ _ H2 E).
  - destruct H2 as [-> ->]. exists i2, o2. split; [exact (copied_turn _ _ _ _ _ _ _ H1 E)|auto].
Qed.

Lemma copied_until_end c i o i1 o1 r i2 o2 : copied_until c i o i1 o1 -> @worker_turn _ _ (HO c) (recv c) i1 o1 = Some (Some r, i2, o2) -> copies c i o r i2 o2.
Proof.
  intros (i3&o3&H1&H2) E. destruct c.
  - right. split; [auto|]. destruct (copied_run (HO := HO true) _ _ _ _ _ 1 (r, i2, o2) H2) as [fuel F]; [rewrite worker_run_turn, E; reflexivity|]. eauto 10.
  - destruct H2 as [-> ->]. left. eapply (copied_run (HO := HO false) _ _ _ _ _ 1); [exact H1|]. rewrite worker_run_turn, E. reflexivity.
Qed.

Lemma copied_until_cancel c i o i2 o2 : copied_until c i o i2 o2 -> copied_until true i o i2 o2.
Proof. intros (i1&o1&H1&H2). exists i1, o1. split; [exact H1|]. destruct c; [exact H2|]. destruct H2 as [-> ->]. constructor. Qed.

Lemma copies_cancel c i o r i2 o2 : copies c i o r i2 o2 -> copies true i o r i2 o2.
Proof. intros [H|[_ H]]; [left; exact H|right; auto]. Qed.
End direction.

(** ** The invariant *)

Section invariant.
Context {CI BO BI CO : Type} (HBO : bool -> IIoOutput BO) (HCO : bool -> IIoOutput CO).
Context (client_recv : bool -> CI -> option (res TChunkList * CI)) (backend_recv : bool -> BI -> option (res TChunkList * BI)).
Context (i : CI) (o : BO) (i' : BI) (o' : CO).

Record run_inv (s : TProxyRun) : Prop := {
  inv_f : if f_runs s then copied_until HBO client_recv (f_cancelled s) i o (ci s) (bo s)
          else exists r, copies HBO client_recv (f_cancelled s) i o r (ci s) (bo s);
  inv_event : f_event s = true -> f_runs s = false;
  inv_main : match main s with
             | Copying => copied_until HCO backend_recv (main_cancelled s) i' o' (bi s) (co s)
             | Waiting => copies HCO backend_recv (main_cancelled s) i' o' (Ret tt) (bi s) (co s)
             | Left r => copies HCO backend_recv (main_cancelled s) i' o' r (bi s) (co s)
             end;
  inv_left : main s = Left (Ret tt) -> main_cancelled s = false -> f_runs s = false }.

Lemma f_turn_inv s t : run_inv s -> f_turn HBO client_recv s = Some t ->
  match t with
  | Next s' => run_inv s' /\ f_cancelled s' = f_cancelled s /\ main_cancelled s' = main_cancelled s
  | Undefined => f_runs s = true /\ exists r, main s = Left r
  end.
Proof.
  intros [H1 H2 H3 H4] E. unfold f_turn in E. destruct (f_runs s) eqn:Ef; cbn [negb] in E; [|injection E as <-; split; [split; rewrite ?Ef; auto|auto]].
  destruct (main s) as [| |r0] eqn:Em; [| |injection E as <-; eauto];
    (destruct (worker_turn _ (ci s) (bo s)) as [[[r i1] o1]|] eqn:Et; [|discriminate]; cbn in E; injection E as <-; destruct r as [r|]; (split; [|auto]); split; cbn; rewrite ?Em; auto;
      [eexists; eapply copied_until_end; eauto|eapply copied_until_turn; eauto]).
Qed.

Lemma main_turn_inv s t : run_inv s -> main_turn HCO backend_recv s = Some t ->
  exists s', t = Next s' /\ run_inv s' /\ f_cancelled s' = f_cancelled s /\ main_cancelled s' = main_cancelled s.
Proof.
  intros [H1 H2 H3 H4] E. unfold main_turn in E. destruct (main s) as [| |r] eqn:Em.
  - destruct (worker_turn _ (bi s) (co s)) as [[[r i1] o1]|] eqn:Et; [|discriminate]. cbn in E. injection E as <-. eexists. split; [reflexivity|]. split; [|auto].
    split; cbn; [exact H1|exact H2| |destruct r as [[]|]; discriminate]. destruct r as [[[]|e]|]; [eapply copied_until_end; eauto|eapply copied_until_end; eauto|eapply copied_until_turn; eauto].
  - injection E as <-. eexists. split; [reflexivity|]. unfold wait_returns. destruct (f_event s) eqn:Ee; cbn [orb].
    + split; [|auto]. split; cbn; [exact H1|discriminate|exact H3|auto].
    + destruct (main_cancelled s) eqn:Ec; (split; [|auto]); split; cbn; rewrite ?Em, ?Ee, ?Ec; auto; discriminate.
  - injection E as <-. eexists. split; [reflexivity|]. split; [|auto]. split; rewrite ?Em; auto.
Qed.

Definition flag_after (c : bool) (t : turn) (ts : list turn) : bool := c || bool_decide (t ∈ ts).

Lemma one_turn_inv t s t' : run_inv s -> one_turn HBO HCO client_recv backend_recv t s = Some t' ->
  match t' with
  | Next s' => run_inv s' /\ f_cancelled s' = flag_after (f_cancelled s) CancelF [t] /\ main_cancelled s' = flag_after (main_cancelled s) CancelMain [t]
  | Undefined => t = FTurn /\ f_runs s = true /\ exists r, main s = Left r
  end.
Proof.
  intros Hi E. destruct t; cbn [one_turn] in E.
  - apply f_turn_inv in E; [|exact Hi]. destruct t' as [s'|]; [|auto]. destruct E as (H&->&->). unfold flag_after. cbn. rewrite !orb_false_r. auto.
  - apply main_turn_inv in E as (s'&->&H&->&->); [|exact Hi]. unfold flag_after. cbn. rewrite !orb_false_r. auto.
  - injection E as <-. destruct Hi as [H1 H2 H3 H4]. unfold flag_after. cbn. rewrite orb_true_r, orb_false_r. split; [|auto]. split; cbn; auto.
    destruct (f_runs s); [eapply copied_until_cancel; eauto|]. destruct H1 as [r H1]. exists r. eapply copies_cancel; eauto.
  - injection E as <-. destruct Hi as [H1 H2 H3 H4]. unfold flag_after. cbn. rewrite orb_true_r, orb_false_r. split; [|auto]. split; cbn; auto; [|discriminate].
    destruct (main s); [eapply copied_until_cancel; eauto|eapply copies_cancel; eauto|eapply copies_cancel; eauto].
Qed.

Lemma flag_after_cons c t x ts : flag_after (flag_after c t [x]) t ts = flag_after c t (x :: ts).
Proof.
  unfold flag_after. rewrite <- orb_assoc. f_equal. apply Bool.eq_iff_eq_true. rewrite orb_true_iff, !bool_decide_eq_true. set_solver.
Qed.

Lemma run_turns_inv schedule s t : run_inv s -> run_turns HBO HCO client_recv backend_recv schedule s = Some t ->
  match t with
  | Next s' => run_inv s' /\ f_cancelled s' = flag_after (f_cancelled s) CancelF schedule /\ main_cancelled s' = flag_after (main_cancelled s) CancelMain schedule
  | Undefined => exists before after s' r, schedule = before ++ FTurn :: after /\ run_turns HBO HCO client_recv backend_recv before s = Some (Next s') /\ f_runs s' = true /\ main s' = Left r
  end.
Proof.
  revert s. induction schedule as [|who schedule IH]; intros s Hi E; cbn [run_turns] in E.
  - injection E as <-. unfold flag_after. cbn. rewrite !orb_false_r. auto.
  - destruct (one_turn _ _ _ _ who s) as [t1|] eqn:Et; [|discriminate]. cbn in E. pose proof (one_turn_inv who s t1 Hi Et) as H. destruct t1 as [s1|].
    + destruct H as (H&Hf&Hm). specialize (IH s1 H E). destruct t as [s'|]; [rewrite Hf, Hm, !flag_after_cons in IH; exact IH|].
      destruct IH as (b&a&s'&r&->&Eb&Hr). exists (who :: b), a, s', r. split; [auto|]. split; [|exact Hr]. cbn [run_turns]. rewrite Et. exact Eb.
    + injection E as <-. destruct H as (->&Hf&[r Hr]). exists [], schedule, s, r. auto.
Qed.

Lemma started_inv : run_inv (started i o i' o').
Proof. split; cbn; [exists i, o|discriminate|exists i', o'|discriminate]; (split; [constructor|auto]). Qed.
End invariant.

(** ** The property *)

(** C38: in whatever order the two coroutines take their turns and are cancelled: when
    [TProxy::Run] returns, the response has been copied exactly as by its loop alone, and
    unless its coroutine was cancelled the other copy has ended as by its loop alone; an exception is
    that of the copy of the response.  A coroutine goes on in a destroyed worker only after
    [TProxy::Run] was left by an exception, or by a wait that was cancelled, and then always,
    if the other copy has not ended before. *)
Theorem proxy_run_copies {CI BO BI CO : Type} (HBO : bool -> IIoOutput BO) (HCO : bool -> IIoOutput CO)
  (client_recv : bool -> CI -> option (res TChunkList * CI)) (backend_recv : bool -> BI -> option (res TChunkList * BI))
  (i : CI) (o : BO) (i' : BI) (o' : CO) (schedule : list turn) (t : turned) :
  run_turns HBO HCO client_recv backend_recv schedule (started i o i' o') = Some t ->
  match t with
  | Next s =>
      let f_cancel := bool_decide (CancelF ∈ schedule) in
      let main_cancel := bool_decide (CancelMain ∈ schedule) in
      (forall r, main s = Left r -> copies HCO backend_recv main_cancel i' o' r (bi s) (co s)) /\
      (f_runs s = false -> exists r, copies HBO client_recv f_cancel i o r (ci s) (bo s)) /\
      (main s = Left (Ret tt) -> CancelMain ∉ schedule -> f_runs s = false) /\
      (forall r, main s = Left r -> f_runs s = true -> f_turn HBO client_recv s = Some Undefined)
  | Undefined => exists before after s r, schedule = before ++ FTurn :: after /\
      run_turns HBO HCO client_recv backend_recv before (started i o i' o') = Some (Next s) /\ f_runs s = true /\ main s = Left r /\
      (r = Ret tt -> CancelMain ∈ before)
  end.
Proof.
  intros E. pose proof (started_inv HBO HCO client_recv backend_recv i o i' o') as H0.
  pose proof (run_turns_inv HBO HCO client_recv backend_recv i o i' o' schedule _ t H0 E) as H. destruct t as [s|].
  - destruct H as ([H1 H2 H3 H4]&Hf&Hm). cbn [started f_cancelled main_cancelled flag_after orb] in Hf, Hm. unfold flag_after in Hf, Hm. cbn [orb] in Hf, Hm. cbv zeta. rewrite <- Hf, <- Hm. conj.
    + intros r Em. rewrite Em in H3. exact H3.
    + intros Er. rewrite Er in H1. exact H1.
    + intros Em Hc. apply (H4 Em). rewrite Hm. apply bool_decide_eq_false. exact Hc.
    + intros r Em Er. unfold f_turn. rewrite Er, Em. reflexivity.
  - destruct H as (b&a&s&r&->&Eb&Hr&Hl). exists b, a, s, r. conj; auto. intros ->.
    destruct (run_turns_inv HBO HCO client_recv backend_recv i o i' o' b _ _ H0 Eb) as ([_ _ _ H4]&_&Hm). unfold flag_after in Hm. cbn [started main_cancelled orb] in Hm.
    destruct (decide (CancelMain ∈ b)) as [Hc|Hc]; [exact Hc|]. rewrite bool_decide_false in Hm by exact Hc. rewrite (H4 Hl Hm) in Hr. discriminate.
Qed.

(** Receives of a cancelled coroutine fail. *)
Definition source_recv (cancelled : bool) (s : TSource) : option (res TChunkList * TSource) :=
  if cancelled then Some (Throw TStreamError, s) else let '(r, s) := DoRecv s in Some (r, s).

(** A client that sends two pieces, with a back end that fails, a cancelled wait, and neither. *)
Lemma proxy_run_copies_witness :
  let run := run_turns (fun _ => null_output) (fun _ => null_output) source_recv source_recv in
  let client := mk_source [[[1]]; [[2]]] None in
  run [FTurn; MainTurn; FTurn] (started client NullInstance (mk_source [] (Some TStreamError)) NullInstance) = Some Undefined /\
  run [FTurn; MainTurn; CancelMain; MainTurn; FTurn] (started client NullInstance (mk_source [] None) NullInstance) = Some Undefined /\
  exists s, run [FTurn; MainTurn; FTurn; FTurn; MainTurn] (started client NullInstance (mk_source [] None) NullInstance) = Some (Next s) /\
    main s = Left (Ret tt) /\ f_runs s = false.
Proof.
  intros run client. split; [vm_compute; reflexivity|]. split; [vm_compute; reflexivity|].
  destruct (run [FTurn; MainTurn; FTurn; FTurn; MainTurn] (started client NullInstance (mk_source [] None) NullInstance)) as [[s|]|] eqn:E; [|vm_compute in E; discriminate..].
  exists s. split; [reflexivity|]. assert (Hm : main s = Left (Ret tt)) by (vm_compute in E; injection E as <-; reflexivity). split; [exact Hm|].
  apply (proxy_run_copies _ _ _ _ _ _ _ _ _ _ E); [exact Hm|]. apply (proj1 (bool_decide_eq_true _)). vm_compute. reflexivity.
Defined.
