(* ===== verification/HTermination.v ===== *)
(** * HTTP module: the loop over requests ends

    Every byte is read once: the streams over a connection only lose bytes, a request takes
    at least one, so the loop ends whatever the module behind does.  Nothing here needs
    chunks to be non-empty, so the limit on the head is covered, which leaves empty ones. *)

From Stdlib Require Import ZArith Lia Bool String.
From stdpp Require Import base numbers list.
From S2P Require Import Prelude HChunks HStream HLaws HHttp HParse HRequest HHeaders HServer HServerSpec.

(** ** Streams that only lose bytes *)

Class Shrinks (I : Type) `{IIoInput I} := {
  size : I -> nat;
  sane : I -> Prop;
  shrink : forall i r i', sane i -> DoRecv i = (r, i') ->
    sane i' /\ (match r with Ret l => length (flat l) + size i' | Throw _ => size i' end <= size i)%nat }.

Definition laws_shrink {I} `{InputLaws I} : Shrinks I.
Proof.
  refine {| size := fun i => length (content i); sane := ok |}. intros i r i' Hok E.
  destruct (recv_delivers _ _ _ Hok E) as (Ho&_&D). split; [auto|]. destruct r.
  - destruct D as [-> _]. rewrite length_app. lia.
  - destruct D as (->&_&->). cbn. lia.
Defined.

#[export] Instance null_shrinks : Shrinks TNullStream := laws_shrink.

Section streams.
Context {I : Type} `{Shrinks I}.

Definition iter_size (it : TStreamIterator I) : nat := length (flat (L_ it)) + size (S_ it).
Definition iter_sane (it : TStreamIterator I) : Prop := sane (S_ it).

Lemma Peek_shrinks it r it' : iter_sane it -> Peek it = (r, it') -> iter_sane it' /\ (iter_size it' <= iter_size it)%nat.
Proof.
  intros Hs E. unfold Peek in E. unfold iter_size, iter_sane in *. destruct (L_ it) eqn:EL.
  - destruct (DoRecv (S_ it)) as [[l|e] s] eqn:ER; apply shrink in ER as [S1 S2]; auto; inv E; cbn; rewrite ?flat_nil; cbn; split; auto; lia.
  - inv E. rewrite EL. auto.
Qed.

Lemma NextLen_shrinks len it r it' : 0 <= len -> iter_sane it -> NextLen len it = (r, it') ->
  iter_sane it' /\ (match r with Ret l => length (flat l) + iter_size it' | Throw _ => iter_size it' end <= iter_size it)%nat /\
  (forall l, r = Ret l -> zlen (flat l) <= len).
Proof.
  intros Hl Hs E. unfold NextLen in E. destruct (Peek it) as [p it1] eqn:EP. apply Peek_shrinks in EP as [S1 S2]; auto.
  destruct p as [[|]|e].
  - destruct (Split len (L_ it1)) as [b a] eqn:ES. inv E. apply Split_flat in ES as [F1 F2]; auto.
    unfold iter_size, iter_sane in *. cbn. rewrite F1, F2. rewrite length_take, length_drop. conj; auto; [lia|].
    intros l El. inv El. rewrite F1. unfold zlen. rewrite length_take. lia.
  - inv E. rewrite flat_nil. cbn. conj; auto. intros l El. inv El. rewrite flat_nil. exact Hl.
  - inv E. conj; auto. discriminate.
Qed.

Lemma NextAll_shrinks it r it' : iter_sane it -> NextAll it = (r, it') ->
  iter_sane it' /\ (match r with Ret l => length (flat l) + iter_size it' | Throw _ => iter_size it' end <= iter_size it)%nat.
Proof.
  intros Hs E. unfold NextAll in E. destruct (Peek it) as [p it1] eqn:EP. apply Peek_shrinks in EP as [S1 S2]; auto.
  destruct p as [[|]|e]; inv E; unfold iter_size, iter_sane, MoveTo in *; cbn; rewrite ?flat_nil; cbn; auto.
Qed.

#[export] Instance iterator_shrinks : Shrinks (TStreamIterator I) :=
  {| size := iter_size; sane := iter_sane; shrink := NextAll_shrinks |}.

Lemma UnGet_size data it : iter_sane it -> iter_sane (UnGet data it) /\ iter_size (UnGet data it) = (length (flat data) + iter_size it)%nat.
Proof. intros Hs. unfold UnGet, MoveTo, iter_size, iter_sane in *. cbn. rewrite flat_app, length_app. split; [auto|lia]. Qed.

#[export] Instance limited_shrinks : Shrinks (TLengthLimitedInput I).
Proof.
  refine {| size := fun t => size (limited_S t); sane := fun t => 0 <= limited_L t /\ sane (limited_S t) |}.
  intros t r t' [Hl Hs] E. unfold DoRecv, limited_input in E. destruct (Z.eqb_spec (limited_L t) 0) as [E0|E0].
  - destruct (OnErr t); inv E; rewrite ?flat_nil; auto.
  - destruct (DoRecv (limited_S t)) as [[l|e] s] eqn:ER; apply shrink in ER as [S1 S2]; auto; inv E; cbn; [|auto].
    rewrite FullLength_flat, Cut_flat by lia. unfold zlen. rewrite length_take. split; [split; [lia|auto]|lia].
Defined.

#[export] Instance fixed_shrinks : Shrinks (TFixedLengthInput I).
Proof.
  refine {| size := fun t => iter_size (It t); sane := fun t => 0 <= Len t /\ iter_sane (It t) |}.
  intros t r t' [Hl Hs] E. unfold DoRecv, fixed_input in E. destruct (Z.eqb_spec (Len t) 0) as [E0|E0].
  - inv E. rewrite flat_nil. auto.
  - destruct (NextLen (Len t) (It t)) as [[l|e] it] eqn:EN; apply NextLen_shrinks in EN as (S1&S2&S3); auto; inv E; cbn; [|auto].
    rewrite FullLength_flat. specialize (S3 l eq_refl). split; [split; [lia|auto]|auto].
Defined.

(** ** The head of a request *)

(** Parsing ends, and the head takes at least one byte. *)
Lemma Parse_ends fuel c r i : between c r -> Unparsed c = [] -> sane i -> (size i < fuel)%nat ->
  exists res i', Parse fuel c i = Some (res, i') /\ sane i' /\
    match res with Ret (_, un) => (length (flat un) + size i' < size i)%nat | Throw _ => (size i' <= size i)%nat end.
Proof.
  revert c r i. induction fuel as [|fuel IH]; intros c r i Hb Hu Hs Hf; [lia|]. cbn [Parse].
  destruct (DoRecv i) as [[l|e] i1] eqn:E; apply shrink in E as [S1 S2]; auto; [|eauto].
  rewrite FullLength_flat. destruct (Z.eqb_spec (zlen (flat l)) 0) as [Hz|Hz]; [eexists _, _; conj; eauto; cbn; lia|].
  assert (Hpos : (0 < length (flat l))%nat) by (unfold zlen in Hz; lia).
  destruct (ParseChunk_spec _ _ l Hb) as (res&c'&E1&P). rewrite E1.
  destruct (flat_parse (cs c) r (flat l)) as [s' r'| |r' rest] eqn:Ef.
  - destruct P as (->&P1&P2&P3). destruct (IH c' r' i1 P2) as (res&i2&E2&S3&S4); [congruence|auto|lia|].
    eexists _, _. conj; eauto. destruct res as [[? ?]|]; lia.
  - subst res. eexists _, _. conj; eauto. cbn. lia.
  - destruct P as (->&P1&P2&P3). eexists _, _. split; [reflexivity|]. split; [auto|]. cbv iota beta.
    rewrite P2, Hu, flat_nil. cbn [app].
    apply flat_parse_shorter in Ef. lia.
Qed.
End streams.

Section server.
Context {I O A : Type} `{Shrinks I} {HO : IIoOutput O} {HP : Pire}.
Context (M_ : A -> TRequest -> Prog A) (Hout : forall (o : O) l, DoSend o l <> None).

Lemma parsed_request_ends fuel (it : TStreamIterator I) maxlen : 0 <= maxlen -> iter_sane it -> (iter_size it < fuel)%nat ->
  exists res it', parsed_request fuel it maxlen = Some (res, it') /\ iter_sane it' /\
    match res with Ret _ => (iter_size it' < iter_size it)%nat | Throw _ => True end.
Proof.
  intros Hm Hs Hf. unfold parsed_request. destruct (Z.eqb_spec maxlen 0) as [_|_].
  - assert (Hs' : sane it) by exact Hs. assert (Hf' : (size it < fuel)%nat) by exact Hf.
    destruct (Parse_ends fuel _ _ _ parse_init_between eq_refl Hs' Hf') as (res&i'&E&S1&S2). rewrite E.
    destruct res as [[req un]|e]; eexists _, _; (split; [reflexivity|]); [|auto].
    destruct (UnGet_size un i' S1) as [U1 U2]. rewrite U2. split; [auto|exact S2].
  - set (lim := mk_limited it maxlen (Some (THttpParseError 413))).
    assert (Hs' : sane lim) by (split; [cbn; lia|exact Hs]). assert (Hf' : (size lim < fuel)%nat) by exact Hf.
    destruct (Parse_ends fuel _ _ _ parse_init_between eq_refl Hs' Hf') as (res&i'&E&[S0 S1]&S2). rewrite E.
    destruct res as [[req un]|e]; eexists _, _; (split; [reflexivity|]); [|auto].
    destruct (UnGet_size un (limited_S i') S1) as [U1 U2]. rewrite U2. split; [auto|exact S2].
Qed.

(** ** The encoder *)

Definition enc_safe (e : THttpEncoder O) : Prop := CustomHeaders_ e <> None -> safe_ctx (enc_parser e).

Lemma Flush_total (e : THttpEncoder O) : exists r e', Flush e = Some (r, e') /\ enc_parser e' = enc_parser e /\ CustomHeaders_ e' = CustomHeaders_ e.
Proof.
  unfold Flush. destruct (enc_list e) as [|c l]; [eauto|]. pose proof (Hout (enc_S e) (c :: l)).
  destruct (DoSend (enc_S e) (c :: l)) as [[[u|x] s]|]; [| |tauto]; eexists _, _; split; try reflexivity; auto.
Qed.

Lemma data_and_flush_total (e : THttpEncoder O) lst : CustomHeaders_ e = None ->
  exists r e', data_and_flush e lst = Some (r, e') /\ CustomHeaders_ e' = None.
Proof.
  intros Hc. unfold data_and_flush. destruct (OnDataPart _ _ _) as [l|x]; [|eauto].
  destruct (Flush_total (with_list e l)) as (r&e'&E&_&E2). exists r, e'. split; [auto|]. rewrite E2. auto.
Qed.

Lemma encoder_send_total (e : THttpEncoder O) lst : enc_safe e -> exists r e', DoSend e lst = Some (r, e') /\ enc_safe e'.
Proof.
  intros Hs. unfold DoSend, encoder_output. destruct (CustomHeaders_ e) as [hd|] eqn:Eh.
  - unfold push_ParseChunk. destruct (ParseChunk_safe (enc_parser e) lst) as (r&c'&E&Hsafe); [apply Hs; congruence|]. rewrite E.
    destruct r as [[|]|x].
    + cbn [Request Unparsed]. set (e1 := mk_encoder _ _ _ None _). destruct (Unparsed c') as [|u un].
      * destruct (Flush_total e1) as (r&e'&E1&E2&E3). exists r, e'. split; [auto|]. intros F. rewrite E3 in F. tauto.
      * destruct (data_and_flush_total e1 (u :: un) eq_refl) as (r&e'&E1&E2). exists r, e'. split; [auto|]. intros F. rewrite E2 in F. tauto.
    + set (e1 := mk_encoder _ _ _ _ _). destruct (Flush_total e1) as (r&e'&E1&E2&E3). exists r, e'. split; [auto|].
      intros _. rewrite E2. apply Hsafe. discriminate.
    + eexists _, _. split; [reflexivity|]. intros _. apply Hsafe. discriminate.
  - destruct (data_and_flush_total e lst Eh) as (r&e'&E1&E2). exists r, e'. split; [auto|]. intros F. rewrite E2 in F. tauto.
Qed.

Lemma Finish_total (e : THttpEncoder O) : exists r e', Finish e = Some (r, e').
Proof.
  unfold Finish. destruct (CustomHeaders_ e); [eauto|]. destruct (OnFinish _ _) as [l|]; [|eauto].
  destruct (Flush_total (with_list e l)) as (r&e'&E&_). eauto.
Qed.

(** ** A run of the module behind *)

Lemma run_prog_total {J} `{Shrinks J} (p : Prog A) (j : J) (e : THttpEncoder O) : sane j -> enc_safe e ->
  exists r a j' e', run_prog p j e = Some (r, a, j', e') /\ sane j' /\ (size j' <= size j)%nat.
Proof.
  revert j e. induction p as [a|x a|k IH|lst k IH]; intros j e Hj He; cbn [run_prog].
  - eexists _, _, _, _. split; [reflexivity|]. auto.
  - eexists _, _, _, _. split; [reflexivity|]. auto.
  - destruct (DoRecv j) as [r j1] eqn:E. apply shrink in E as [S1 S2]; auto.
    destruct (IH r j1 e S1 He) as (r2&a2&j2&e2&E2&S3&S4). eexists _, _, _, _. split; [exact E2|]. split; [auto|]. destruct r; lia.
  - destruct (encoder_send_total e lst He) as (r&e1&E1&He1). rewrite E1. apply IH; auto.
Qed.

Lemma check_headers_range props hs : 0 <= ContentLength props -> 0 <= ContentLength (fst (check_headers props hs)).
Proof.
  revert props. induction hs as [|h hs IH]; intros props Hp; cbn; [auto|]. destruct (check_header props h) as [props1 kept] eqn:E.
  assert (Hp1 : 0 <= ContentLength props1).
  { unfold check_header in E. destruct (MatchedRegexps THeadersToCheck (Key h)) as [|n ns]; [inv E; auto|].
    destruct n as [|[|[|[|n]]]]; inv E; auto. cbn. unfold FromString.
    destruct (flat (Value h)) as [|ch w] using rev_ind; [cbn; lia|]. rewrite fold_left_app. cbn. apply u64_bound. }
  specialize (IH _ Hp1). destruct (check_headers props1 hs). auto.
Qed.

Lemma request_properties_range req : clean (Request_ req) ->
  exists props req', request_properties req = Some (props, req') /\ 0 <= rp_ContentLength props.
Proof.
  intros Hc. unfold request_properties, response_properties. rewrite HttpVersion_flat by auto.
  pose proof (check_headers_range (mk_props false 0) (Headers_ req)) as Hr.
  destruct (check_headers (mk_props false 0) (Headers_ req)). eexists _, _. split; [reflexivity|]. apply Hr. cbn. lia.
Qed.

Lemma RunEncoded_total t hd len req a (it : TStreamIterator I) (o : O) : 0 <= len -> iter_sane it ->
  exists r a' it' o', RunEncoded M_ t hd len req a it o = Some (r, a', it', o') /\ iter_sane it' /\ (iter_size it' <= iter_size it)%nat.
Proof.
  intros Hl Hs. unfold RunEncoded, RunDecoded. set (e := new_encoder t o hd).
  assert (He : enc_safe e) by (intros _; left; exists flat_empty; apply parse_init_between).
  assert (Hd : exists r a' it' e', (if len =? 0
      then let* (r, a, _, out) := run_prog (M_ a req) NullInstance e in Some (r, a, it, out)
      else let* (r, a, i, out) := run_prog (M_ a req) (mk_fixed it len) e in Some (r, a, It i, out)) = Some (r, a', it', e') /\
      iter_sane it' /\ (iter_size it' <= iter_size it)%nat).
  { destruct (len =? 0).
    - destruct (run_prog_total (M_ a req) NullInstance e) as (r&a'&j&e'&E&_); [exact Logic.I|auto|]. rewrite E. eexists _, _, _, _. split; [reflexivity|auto].
    - destruct (run_prog_total (M_ a req) (mk_fixed it len) e) as (r&a'&j&e'&E&[_ S1]&S2); [split; auto|auto|]. rewrite E.
      eexists _, _, _, _. split; [reflexivity|auto]. }
  destruct Hd as (r&a'&it'&e'&E&S1&S2). rewrite E. destruct r as [u|x]; [|eexists _, _, _, _; split; [reflexivity|auto]].
  destruct (Finish_total e') as (r&e2&E2). rewrite E2. eexists _, _, _, _. split; [reflexivity|auto].
Qed.

Lemma context_run_total fuel m a (it : TStreamIterator I) (o : O) : 0 <= MaxLen_ m -> iter_sane it -> (iter_size it < fuel)%nat ->
  exists r a' it' o', context_run M_ fuel m a it o = Some (r, a', it', o') /\ iter_sane it' /\
    match r with Ret _ => (iter_size it' < iter_size it)%nat | Throw _ => True end.
Proof.
  intros Hm Hs Hf. unfold context_run. destruct (parsed_request_ends fuel it (MaxLen_ m) Hm Hs Hf) as (r&it1&E&S1&S2). rewrite E.
  destruct r as [req|x]; [|eexists _, _, _, _; split; [reflexivity|auto]].
  destruct (request_properties_range req (parsed_request_clean _ _ _ _ _ E)) as (props&req1&Ep&Hr). rewrite Ep.
  destruct (MaxReq_ m <? FullLength (Request_ req1)); [eexists _, _, _, _; split; [reflexivity|auto]|].
  destruct (rp_ChunkedTransfer props).
  - edestruct (RunEncoded_total TChunkedTransferEncoder) as (r&a'&it2&o2&E2&S3&S4); [exact Hr|exact S1|]. rewrite E2.
    eexists _, _, _, _. split; [reflexivity|]. split; [auto|]. destruct r; [lia|auto].
  - edestruct (RunEncoded_total TIdentityTransferEncoder) as (r&a'&it2&o2&E2&S3&S4); [exact Hr|exact S1|]. rewrite E2.
    eexists _, _, _, _. split; [reflexivity|]. split; [auto|]. destruct r; [lia|auto].
Qed.

Lemma run_loop_total fuel m a (it : TStreamIterator I) (o : O) : 0 <= MaxLen_ m -> iter_sane it -> (iter_size it < fuel)%nat ->
  exists r m' a' it' o', run_loop M_ fuel m a it o = Some (r, m', a', it', o').
Proof.
  revert m a it o. induction fuel as [|fuel IH]; intros m a it o Hm Hs Hf; [lia|]. cbn [run_loop].
  destruct (quiet_peek it) as [p it1] eqn:Ep.
  assert (Hp : iter_sane it1 /\ (iter_size it1 <= iter_size it)%nat).
  { unfold quiet_peek in Ep. destruct (Peek it) as [p0 it0] eqn:E0. apply Peek_shrinks in E0; auto.
    destruct p0 as [?|[]]; inv Ep; auto. }
  destruct Hp as [S1 S2]. destruct p as [[|]|x]; [|eauto 10|eauto 10].
  destruct (context_run_total (S fuel) m a it1 o Hm S1) as (r&a'&it2&o2&E2&S3&S4); [lia|]. rewrite E2.
  destruct r as [[|]|[]]; eauto 10. apply IH; auto. lia.
Qed.
End server.
