(* ===== verification/HPipeline.v ===== *)
(** * HTTP module: requests on one connection

    Several requests, sent one after the other on a connection and cut into chunks in any
    way, reach the module behind one by one, each with its own body, and its responses
    reach the client in that order. *)

From Stdlib Require Import ZArith Lia Bool String.
From stdpp Require Import base numbers list.
From S2P Require Import Prelude HChunks HStream HLaws HHttp HParse HRequest HHeaders HServer HServerSpec HEncoder HProxy HProxySpec HTermination.

Lemma request_properties_flat {P : Pire} `{!PireLiteral P} req : clean (Request_ req) ->
  exists props req', request_properties req = Some (props, req') /\ flatten req' = strip (flatten req) /\ Request_ req' = Request_ req /\
    KeepAlive props = negb (flat_version (line (flatten req)) =? 0) /\ rp_ChunkedTransfer props = KeepAlive props /\
    rp_ContentLength props = announced_length (flatten req).
Proof.
  intros Hc. unfold request_properties. destruct (response_properties_flat req) as (props&req'&E&H1&H2&H3).
  rewrite HttpVersion_flat, E by auto. eexists _, _. split; [reflexivity|]. cbn. conj; auto.
  unfold response_properties in E. destruct (check_headers _ _). inv E. auto.
Qed.

(** ** A module that reads its request and answers *)

Section reader.
Context {A : Type}.

Fixpoint read_body (n : nat) (acc : list Z) (a : A) (k : list Z -> Prog A) : Prog A :=
  match n with
  | O => k acc
  | S n => PRecv (fun r => match r with Ret [] => k acc | Ret l => read_body n (acc ++ flat l) a k | Throw e => PThrow e a end)
  end.

Fixpoint send_all (ls : list TChunkList) (a : A) : Prog A :=
  match ls with
  | [] => PRet a
  | l :: ls => PSend l (fun r => match r with Ret _ => send_all ls a | Throw e => PThrow e a end)
  end.

Definition reader (respond : A -> flat_request -> list Z -> list TChunkList * A) (n : nat) (a : A) (req : TRequest) : Prog A :=
  read_body n [] a (fun body => let '(ls, a) := respond a (flatten req) body in send_all ls a).

Lemma read_body_spec {J O} `{InputLaws J} `{IIoOutput O} (whole : J -> list Z) (kept : J -> option exn) n acc a k (j : J) (o : O) :
  (forall j l j', ok j -> DoRecv j = (Ret l, j') -> whole j = flat l ++ whole j' /\ kept j' = kept j) ->
  ok j -> final j = None -> (length (content j) < n)%nat ->
  exists j', run_prog (read_body n acc a k) j o = run_prog (k (acc ++ content j)) j' o /\ ok j' /\
    whole j = content j ++ whole j' /\ kept j' = kept j.
Proof.
  intros Hw. revert acc j. induction n as [|n IH]; intros acc j Hok Hf Hn; [lia|]. cbn [read_body run_prog].
  destruct (DoRecv j) as [r j1] eqn:E. destruct (recv_delivers _ _ _ Hok E) as (Ho&Hf1&D). destruct r as [l|e]; [|destruct D as (_&D&_); congruence].
  destruct D as [D D0]. destruct (Hw _ _ _ Hok E) as [Hw1 Hk1]. destruct l as [|c l].
  - destruct D0 as (_&D1&_); auto. exists j1. rewrite D1, app_nil_r. rewrite flat_nil in Hw1. auto.
  - destruct (IH (acc ++ flat (c :: l)) j1 Ho) as (j2&E2&O2&W2&K2); [congruence| |].
    + rewrite D, length_app in Hn. destruct (flat (c :: l)) eqn:Ec; [destruct (D0 eq_refl); discriminate|cbn in Hn; lia].
    + exists j2. rewrite E2, D, <- app_assoc. conj; auto; [|congruence]. rewrite Hw1, W2, <- app_assoc. auto.
Qed.

Definition sendable (l : TChunkList) : Prop := clean l /\ flat l <> [] /\ zlen (flat l) < 2 ^ 64.

Lemma send_all_spec {J O} `{IIoInput J} `{OutputLaws O} t custom base ls a b (j : J) (e : THttpEncoder O) :
  encoding t custom base b e -> Forall sendable ls -> flat_parse Start flat_empty (b ++ flat (concat ls)) <> FBad ->
  exists e', run_prog (send_all ls a) j e = Some (Ret tt, a, j, e') /\ encoding t custom base (b ++ flat (concat ls)) e'.
Proof.
  intros He Hs. revert b e He. induction Hs as [|l ls (S1&S2&S3) Hs IH]; intros b e He Hp; cbn [send_all run_prog concat].
  - exists e. rewrite flat_nil, app_nil_r. auto.
  - cbn [concat] in Hp. rewrite flat_app, app_assoc in Hp. pose proof (send_spec t custom base b e l He S2 S1 S3) as Hx.
    destruct (flat_parse Start flat_empty (b ++ flat l)) eqn:Ef; [| rewrite flat_parse_app, Ef in Hp; tauto|];
      destruct Hx as (e1&E1&He1); rewrite E1; destruct (IH _ _ He1 Hp) as (e2&E2&He2); exists e2; rewrite E2, flat_app, app_assoc; auto.
Qed.
End reader.

(** ** One request *)

Section pipeline.
Context {I O A : Type} `{CleanLaws I} `{OutputLaws O} {P : Pire} `{!PireLiteral P}.
Context (respond : A -> flat_request -> list Z -> list TChunkList * A).

(** The answers are HTTP responses: a head, then the body, in non-empty pieces. *)
Context (Hresp : forall a r body, Forall sendable (fst (respond a r body)) /\
  exists resp rest, flat_parse Start flat_empty (flat (concat (fst (respond a r body)))) = FDone resp rest).

(** What the client sees of an answer. *)
Definition answer (t : transfer) (custom : list Z) (ls : list TChunkList) (out : list Z) : Prop :=
  exists resp parts, flat_parse Start flat_empty (flat (concat ls)) = FDone resp (concat parts) /\ Forall (fun x => x <> []) parts /\
    out = print_flat resp custom ++ concat (map (encoded_part t) parts) ++ encoded_end t.

Lemma RunEncoded_reader n t hd len req a (it : TStreamIterator I) (o : O) :
  0 <= len <= zlen (iter_content it) -> iter_ok it -> (length (iter_content it) < n)%nat ->
  let body := take (Z.to_nat len) (iter_content it) in
  exists it' o' out, RunEncoded (reader respond n) t hd len req a it o = Some (Ret tt, snd (respond a (flatten req) body), it', o') /\
    iter_ok it' /\ iter_final it' = iter_final it /\ iter_content it' = drop (Z.to_nat len) (iter_content it) /\ sent o' = sent o ++ out /\
    answer t (flat hd) (fst (respond a (flatten req) body)) out.
Proof.
  intros Hl Hok Hn body. assert (Hbody : body = take (Z.to_nat len) (iter_content it)) by reflexivity. clearbody body.
  unfold RunEncoded, RunDecoded. destruct (Hresp a (flatten req) body) as (Hsend&resp&rest&Hparse).
  destruct (respond a (flatten req) body) as [ls a'] eqn:Er. cbn [fst snd] in *.
  assert (He0 : encoding t hd (sent o) [] (new_encoder t o hd)) by (apply new_encoding; auto).
  set (k := fun body => let '(ls, a) := respond a (flatten req) body in send_all ls a).
  assert (Hk : forall {J} `{IIoInput J} (j : J), exists e', run_prog (k body) j (new_encoder t o hd) = Some (Ret tt, a', j, e') /\
    encoding t hd (sent o) (flat (concat ls)) e').
  { intros J HJ j. unfold k. rewrite Er. apply (send_all_spec t hd (sent o) ls a' []); auto. cbn. rewrite Hparse. discriminate. }
  assert (Hdec : exists it' e', (if len =? 0
      then let* (r, a, _, out) := run_prog (reader respond n a req) NullInstance (new_encoder t o hd) in Some (r, a, it, out)
      else let* (r, a, i, out) := run_prog (reader respond n a req) (mk_fixed it len) (new_encoder t o hd) in Some (r, a, It i, out))
      = Some (Ret tt, a', it', e') /\ iter_ok it' /\ iter_final it' = iter_final it /\
      iter_content it' = drop (Z.to_nat len) (iter_content it) /\ encoding t hd (sent o) (flat (concat ls)) e').
  { unfold reader. destruct (Z.eqb_spec len 0) as [E0|E0].
    - assert (Hb : body = []) by (rewrite Hbody, E0; auto).
      destruct (read_body_spec (fun _ => []) (fun _ => None) n [] a k NullInstance (new_encoder t o hd)) as (j'&E&_&_);
        [intros [] l j' _ E; inv E; auto|exact Logic.I|auto|cbn; lia|].
      fold k. rewrite E. cbn [app content null_laws]. rewrite <- Hb. destruct (Hk _ _ j') as (e'&E'&He'). rewrite E'.
      exists it, e'. rewrite E0. conj; auto.
    - assert (Hfok : ok (mk_fixed it len)) by (split; [cbn; lia|exact Hok]).
      assert (Hfin : final (mk_fixed it len) = None) by (cbn; unfold fixed_final; cbn [Len It]; destruct (Z.leb_spec len (zlen (iter_content it))); [auto|lia]).
      assert (Hcon : content (mk_fixed it len) = body) by (rewrite Hbody; reflexivity).
      destruct (read_body_spec (fun j => iter_content (It j)) (fun j => iter_final (It j)) n [] a k
        (mk_fixed it len) (new_encoder t o hd)) as (j'&E&[_ Ho]&Hw&Hkept); auto.
      { intros j l j' Hj Ej. apply fixed_delivers in Ej as (_&_&Ek&Ej&_); auto. }
      { rewrite Hcon, Hbody, length_take. lia. }
      fold k. rewrite E, Hcon. cbn [app]. destruct (Hk _ _ j') as (e'&E'&He'). rewrite E'. exists (It j'), e'. conj; auto.
      cbn [It] in Hw. rewrite Hcon, Hbody in Hw. rewrite <- (take_drop (Z.to_nat len) (iter_content it)) in Hw at 1.
      apply app_inv_head in Hw. auto. }
  destruct Hdec as (it'&e'&E&Ho&Hf&Hc&He). rewrite E. pose proof (Finish_spec _ _ _ _ _ He) as HF. rewrite Hparse in HF.
  destruct HF as (e2&parts&E2&Hr&Hne&Hs). rewrite E2. eexists it', _, _. split; [reflexivity|]. conj; auto; [exact Hs|].
  exists resp, parts. rewrite <- Hr. conj; auto.
Qed.

Definition persistent (r : flat_request) : bool := negb (flat_version (line r) =? 0).

(** The transfer encoding and the headers added, by the version of the request and the setting. *)
Definition reply_transfer (r : flat_request) : transfer :=
  if persistent r then TChunkedTransferEncoder else TIdentityTransferEncoder.

Definition reply_headers (keepalive : bool) (r : flat_request) : TChunkList :=
  (if keepalive && persistent r then [] else [connection_close]) ++ (if persistent r then [transfer_encoding_chunked] else []).

(** One turn of the loop: the request without its connection headers and the announced body
    go to the module behind, its answer to the client; the connection is left at the next
    request. *)
Lemma context_run_reader n fuel m a (it : TStreamIterator I) (o : O) r rest :
  MaxLen_ m = 0 -> iter_ok it -> (length (iter_content it) < fuel)%nat -> (length (iter_content it) < n)%nat ->
  flat_parse Start flat_empty (iter_content it) = FDone r rest -> announced_length r <= zlen rest -> zlen (line r) <= MaxReq_ m ->
  let body := take (Z.to_nat (announced_length r)) rest in
  exists it' o' out,
    context_run (reader respond n) fuel m a it o =
      Some (Ret (KeepAlive_ m && persistent r), snd (respond a (strip r) body), it', o') /\
    iter_ok it' /\ iter_final it' = iter_final it /\ iter_content it' = drop (Z.to_nat (announced_length r)) rest /\
    sent o' = sent o ++ out /\ answer (reply_transfer r) (flat (reply_headers (KeepAlive_ m) r)) (fst (respond a (strip r) body)) out.
Proof.
  intros Hml Hok Hf Hn Hp Hlen Hreq body. unfold context_run. rewrite Hml.
  destruct (parsed_request_spec fuel it Hok Hf) as (res&it1&E&Ho1&Hf1&Q). rewrite Hp in Q. destruct Q as (req&->&Hr&Hc1). rewrite E.
  destruct (request_properties_flat req (parsed_request_clean _ _ _ _ _ E)) as (props&req'&E2&P1&P2&P3&P4&P5). rewrite E2.
  assert (Hline : FullLength (Request_ req') = zlen (line r)) by (rewrite P2, FullLength_flat, <- Hr; reflexivity).
  rewrite Hline. destruct (Z.ltb_spec (MaxReq_ m) (zlen (line r))); [lia|]. rewrite P4, P3, P5, Hr. fold (persistent r).
  pose proof (announced_length_range r). pose proof (flat_parse_shorter _ _ _ _ _ Hp) as Hsh.
  assert (Hgo : forall t hd, exists it' o' out,
    RunEncoded (reader respond n) t hd (announced_length r) req' a it1 o = Some (Ret tt, snd (respond a (strip r) body), it', o') /\
    iter_ok it' /\ iter_final it' = iter_final it /\ iter_content it' = drop (Z.to_nat (announced_length r)) rest /\
    sent o' = sent o ++ out /\ answer t (flat hd) (fst (respond a (strip r) body)) out).
  { intros t hd. destruct (RunEncoded_reader n t hd (announced_length r) req' a it1 o) as (it'&o'&out&G1&G2&G3&G4&G5&G6);
      [rewrite Hc1; lia|auto|rewrite Hc1; lia|]. rewrite P1, Hr, Hc1 in *. exists it', o', out. conj; auto. congruence. }
  unfold reply_transfer, reply_headers. destruct (persistent r).
  - destruct (Hgo TChunkedTransferEncoder ((if KeepAlive_ m && true then [] else [connection_close]) ++ [transfer_encoding_chunked]))
      as (it'&o'&out&G1&G). rewrite G1. exists it', o', out. auto.
  - rewrite andb_false_r in *. destruct (Hgo TIdentityTransferEncoder [connection_close]) as (it'&o'&out&G1&G). rewrite G1. exists it', o', out. auto.
Qed.

(** ** Many requests *)

(** A request as bytes: its head, complete, and the body the head announces. *)
Definition request_bytes (x : list Z * list Z) : list Z := x.1 ++ x.2.

Definition good_request (maxreq : Z) (x : list Z * list Z) (r : flat_request) : Prop :=
  flat_parse Start flat_empty x.1 = FDone r [] /\ announced_length r = zlen x.2 /\ zlen (line r) <= maxreq /\ persistent r = true.

(** The requests are answered in order, each with its own body, by the state the previous
    one left. *)
Inductive serves : A -> list (list Z * list Z) -> A -> list Z -> Prop :=
  | ServesNil a : serves a [] a []
  | ServesCons a head body r out xs a' outs :
      flat_parse Start flat_empty head = FDone r [] ->
      answer TChunkedTransferEncoder transfer_encoding_chunked (fst (respond a (strip r) body)) out ->
      serves (snd (respond a (strip r) body)) xs a' outs ->
      serves a ((head, body) :: xs) a' (out ++ outs).

Lemma run_loop_serves n fuel m a (it : TStreamIterator I) (o : O) xs :
  MaxLen_ m = 0 -> KeepAlive_ m = true -> iter_ok it -> iter_final it = None ->
  iter_content it = concat (map request_bytes xs) -> Forall (fun x => exists r, good_request (MaxReq_ m) x r) xs ->
  (length (iter_content it) < fuel)%nat -> (length (iter_content it) < n)%nat ->
  exists a' it' o' out, run_loop (reader respond n) fuel m a it o = Some (Ret tt, count_discarded m, a', it', o') /\
    serves a xs a' out /\ sent o' = sent o ++ out.
Proof.
  intros Hml Hka. revert fuel a it o. induction xs as [|[head body] xs IH]; intros fuel a it o Hok Hfin Hc Hg Hf Hn; destruct fuel as [|fuel]; try lia; cbn [run_loop].
  - unfold quiet_peek. destruct (Peek it) as [p it1] eqn:Ep. destruct (Peek_spec _ _ _ Hok Ep) as (O1&C1&F1&R). cbn in Hc.
    destruct p as [[|]|e].
    + destruct O1 as [Hcl _]. rewrite Hc in C1. unfold iter_content in C1. apply app_eq_nil in C1 as [C1 _]. apply clean_flat_nil in C1; tauto.
    + eexists _, _, _, _. split; [reflexivity|]. split; [constructor|]. rewrite app_nil_r. auto.
    + destruct R as (_&_&R). congruence.
  - inversion Hg as [|? ? (r&G1&G2&G3&G4) Hg']; subst. cbn [fst snd map concat] in *. unfold request_bytes at 1 in Hc. cbn [fst snd] in Hc.
    rewrite <- app_assoc in Hc. set (tail := concat (map request_bytes xs)) in *.
    assert (Hp : flat_parse Start flat_empty (iter_content it) = FDone r (body ++ tail)) by (rewrite Hc, flat_parse_app, G1; auto).
    unfold quiet_peek. destruct (Peek it) as [p it1] eqn:Ep. destruct (Peek_spec _ _ _ Hok Ep) as (O1&C1&F1&R).
    destruct p as [[|]|e]; [|destruct R as (_&R&_); rewrite R in Hp; discriminate..].
    destruct (context_run_reader n (S fuel) m a it1 o r (body ++ tail)) as (it2&o2&out&E2&O2&F2&C2&S2&A2);
      try (rewrite ?C1; auto; fail); [rewrite G2, zlen_app; pose proof (zlen_nonneg tail); lia|].
    rewrite E2, Hka, G4. cbn [andb]. rewrite G2 in *. unfold zlen in *. rewrite Nat2Z.id in *. rewrite take_app_length, drop_app_length in *.
    unfold reply_transfer, reply_headers in A2. rewrite G4, Hka in A2. cbn [andb app] in A2. rewrite flat_one in A2.
    pose proof (flat_parse_shorter _ _ _ _ _ Hp) as Hsh. rewrite length_app in Hsh.
    destruct (IH fuel (snd (respond a (strip r) body)) it2 o2) as (a3&it3&o3&outs&E3&S3&T3); auto; [congruence|rewrite C2; lia|rewrite C2; lia|].
    exists a3, it3, o3, (out ++ outs). rewrite E3. conj; auto; [econstructor; eauto|]. rewrite T3, S2, app_assoc. auto.
Qed.
End pipeline.
