(* ===== verification/HSpdy.v ===== *)
(** * SPDY module: frames

    Models the frames of [src/web/httpd/modules/spdy/module.cpp] and the two compressors of
    [zlib.h]: reading and writing of tokens, control headers, data frames, header blocks,
    replies.  zlib itself is a parameter.  [HSpdyLoop] has the connections.

    Integers travel in network order.  The bit fields of the headers are those of a
    little-endian machine: the type of a control frame is the low half of its first word,
    the control bit its highest bit, the length the low 24 bits of the second word. *)

From Stdlib Require Import ZArith Lia Bool String.
From stdpp Require Import base numbers list.
From S2P Require Import Prelude HChunks HStream HLaws HHttp HHeaders.

(** A read from a stream; an exception leaves at once. *)
Notation "'read' x , s ':=' e 'in' k" :=
  (match e with Some (Ret x, s) => k | Some (Throw err, s) => Some (Throw err, s) | None => None end)
  (at level 200, x pattern, s pattern, e at level 200, k at level 200, format "'[v' 'read'  x ,  s  ':='  e  'in' '/' k ']'") : c_scope.

(** ** Tokens *)

Definition save16 (v : Z) : chunk := [v / 256 mod 256; v mod 256].
Definition save32 (v : Z) : chunk := [v / 2 ^ 24 mod 256; v / 2 ^ 16 mod 256; v / 256 mod 256; v mod 256].

Definition u16 (x : Z) : Z := x mod 2 ^ 16.

(** [InetToHost] of the bytes read. *)
Definition big_endian (b : list Z) : Z := fold_left (fun n ch => n * 256 + ch) b 0.

Section tokens.
Context {I : Type} {HI : IIoInput I}.

Definition ReadToken (size : Z) (it : TStreamIterator I) : option (res Z * TStreamIterator I) :=
  read b, it := Read size it in Some (Ret (big_endian b), it).

(** [ReadString] to an empty list. *)
Definition ReadString (it : TStreamIterator I) : option (res TChunkList * TStreamIterator I) :=
  read len, it := ReadToken 2 it in ReadList len [] it.
End tokens.

(** ** Headers of frames *)

Definition SYN_STREAM : Z := 1.
Definition SYN_REPLY : Z := 2.
Definition RST_STREAM : Z := 3.
Definition PROTOCOL_ERROR : Z := 1.
Definition INTERNAL_ERROR : Z := 6.
Definition FLAG_FIN : Z := 1.

Record TControlHeader := mk_ctl { ctl_Field1 : Z; ctl_Field2 : Z }.

Definition Type_ (field1 : Z) : Z := Z.land field1 (2 ^ 16 - 1).
Definition StreamID31 (field1 : Z) : Z := Z.land field1 (2 ^ 31 - 1).
Definition Length24 (field2 : Z) : Z := Z.land field2 (2 ^ 24 - 1).
Definition Flags8 (field2 : Z) : Z := Z.shiftr field2 24.

(** [TControlHeader(type)] with [Length] set. *)
Definition new_control (type len : Z) : TControlHeader :=
  mk_ctl (2 ^ 31 + 2 * 2 ^ 16 + u16 type) (Length24 len).

Definition save_control (c : TControlHeader) : TChunkList := [save32 (ctl_Field1 c); save32 (ctl_Field2 c)].

Record TDataFrame := mk_data { data_StreamID : Z; data_Flags : Z; Data : TChunkList }.

(** [TDataFrame::Save]: [Length] is the bit field of 24 bits. *)
Definition save_data (d : TDataFrame) : TChunkList :=
  [save32 (StreamID31 (data_StreamID d)); save32 (data_Flags d * 2 ^ 24 + Length24 (FullLength (Data d)))] ++ Data d.

Definition data_frame (id : Z) (data : TChunkList) : TDataFrame := mk_data id 0 data.
Definition fin_frame (id : Z) : TDataFrame := mk_data id FLAG_FIN [].

Section frames.
Context {I : Type} {HI : IIoInput I}.

Definition read_control (field : Z) (it : TStreamIterator I) : option (res TControlHeader * TStreamIterator I) :=
  read field2, it := ReadToken 4 it in Some (Ret (mk_ctl field field2), it).

Definition read_data (field : Z) (it : TStreamIterator I) : option (res TDataFrame * TStreamIterator I) :=
  read field2, it := ReadToken 4 it in
  read data, it := ReadList (Length24 field2) [] it in
  Some (Ret (mk_data (StreamID31 field) (Flags8 field2) data), it).

Record TRstStreamFrame := mk_rst { rst_StreamID : Z; StatusCode : Z }.

Definition read_rst (it : TStreamIterator I) : option (res TRstStreamFrame * TStreamIterator I) :=
  read id, it := ReadToken 4 it in
  read code, it := ReadToken 4 it in
  Some (Ret (mk_rst id code), it).
End frames.

Definition save_rst (r : TRstStreamFrame) : TChunkList := [save32 (rst_StreamID r); save32 (StatusCode r)].

(** [TProto::Send] of a control frame: the header with the length of the rest. *)
Definition control_frame (type : Z) (body : TChunkList) : TChunkList :=
  save_control (new_control type (FullLength body)) ++ body.

(** ** Header blocks *)

(** [find] of a byte. *)
Fixpoint split_at (delim : Z) (s : list Z) : option (list Z * list Z) :=
  match s with
  | [] => None
  | ch :: s => if ch =? delim then Some ([], s) else let* (l, r) := split_at delim s in Some (ch :: l, r)
  end.

(** [TStringBuf::After], [TStringBuf::Split] *)
Definition After (delim : Z) (s : list Z) : list Z := match split_at delim s with Some (_, r) => r | None => s end.
Definition SplitStr (delim : Z) (s : list Z) : list Z * list Z := match split_at delim s with Some lr => lr | None => (s, []) end.

(** [SplitUrl(url, host, req)]: what is pushed to the two lists. *)
Definition SplitUrl (url : TChunkList) : TChunkList * TChunkList :=
  match url with
  | [strurl] =>
      let data := drop 2 (After COLON strurl) in
      let '(hoststr, reqstr) := SplitStr 47 data in
      ([hoststr], [match reqstr with [] => [47] | _ => 47 :: reqstr end])
  | _ => ([], [])
  end.

(** The lists of [THeadersBlock::Parse] and the headers. *)
Record block := mk_block { method : TChunkList; request : TChunkList; version : TChunkList; fields_ : list THeader }.

Definition add_field (b : block) (key value : TChunkList) : block :=
  if list_equal key (bytes "method") then mk_block value (request b) (version b) (fields_ b)
  else if list_equal key (bytes "url") then
    let '(host, req) := SplitUrl value in
    mk_block (method b) (request b ++ req) (version b) (fields_ b ++ [mk_header [bytes "host"] host])
  else if list_equal key (bytes "version") then mk_block (method b) (request b) value (fields_ b)
  else mk_block (method b) (request b) (version b) (fields_ b ++ [mk_header key value]).

Section blocks.
Context {I : Type} {HI : IIoInput I}.

Fixpoint read_fields (n : nat) (b : block) (it : TStreamIterator I) : option (res block * TStreamIterator I) :=
  match n with
  | O => Some (Ret b, it)
  | S n =>
      read key, it := ReadString it in
      read value, it := ReadString it in
      read_fields n (add_field b key value) it
  end.

(** The request line of a block; a missing part is a protocol error. *)
Definition block_request (b : block) : res TRequest :=
  match method b, request b, version b with
  | [], _, _ | _, [], _ | _, _, [] => Throw yexception
  | m, r, v => Ret (mk_request (MoveTo v (MoveTo r (m ++ [[SP]]) ++ [[SP]])) (fields_ b))
  end.

(** [THeadersBlock::Parse] *)
Definition parse_block (it : TStreamIterator I) : option (res TRequest * TStreamIterator I) :=
  read n, it := ReadToken 2 it in
  read b, it := read_fields (Z.to_nat n) (mk_block [] [] [] []) it in
  Some (block_request b, it).
End blocks.

(** ** zlib *)

(** [inflate] on the bytes given and the room for output: the code, what was written, the
    input left and the new state; [adler] is the dictionary it asks for.  [deflate] with or
    without a flush. *)
Class Zlib := {
  zstream : Type;
  inflate : zstream -> list Z -> Z -> Z * list Z * list Z * zstream;
  adler : zstream -> Z;
  inflateSetDictionary : zstream -> list Z -> Z * zstream;
  deflate : zstream -> list Z -> bool -> Z -> Z * list Z * zstream;
  deflateBound : zstream -> Z -> Z;
  inflateInit : zstream;
  deflateInit : zstream;
  TDicts : Z -> option (list Z) }.

Definition Z_OK : Z := 0.
Definition Z_NEED_DICT : Z := 2.

Section zlib.
Context {HZ : Zlib}.

(** One chunk of [TInflate::Decompress]; input left for lack of room is dropped. *)
Definition inflate_chunk (z : zstream) (s : list Z) (room : Z) : Z * list Z * zstream :=
  let '(rv, out, rest, z) := inflate z s room in
  if rv =? Z_NEED_DICT then
    match TDicts (adler z) with
    | None => (rv, out, z)
    | Some dict =>
        let '(rv, z) := inflateSetDictionary z dict in
        if rv =? Z_OK then let '(rv, out', _, z) := inflate z rest (room - zlen out) in (rv, out ++ out', z)
        else (rv, out, z)
    end
  else (rv, out, z).

Fixpoint Decompress_loop (z : zstream) (from : TChunkList) (room : Z) (out : list Z) : res (list Z) * zstream :=
  match from with
  | [] => (Ret out, z)
  | c :: from =>
      let '(rv, o, z) := inflate_chunk z c room in
      if rv =? Z_OK then Decompress_loop z from (room - zlen o) (out ++ o) else (Throw yexception, z)
  end.

(** [room] is the length of the chunk [NewChunk(4 * length)] gives. *)
Definition Decompress (NewChunk : Z -> Z) (z : zstream) (lst : TChunkList) : res TChunkList * zstream :=
  match Decompress_loop z lst (NewChunk (FullLength lst * 4)) [] with
  | (Ret out, z) => (Ret [out], z)
  | (Throw e, z) => (Throw e, z)
  end.

Fixpoint Compress_loop (z : zstream) (from : TChunkList) (room : Z) (out : list Z) : res (list Z) * Z * zstream :=
  match from with
  | [] => (Ret out, room, z)
  | c :: from =>
      let '(rv, o, z) := deflate z c false room in
      if rv =? Z_OK then Compress_loop z from (room - zlen o) (out ++ o) else (Throw yexception, room, z)
  end.

Definition Compress (NewChunk : Z -> Z) (z : zstream) (lst : TChunkList) : res TChunkList * zstream :=
  match Compress_loop z lst (NewChunk (deflateBound z (FullLength lst))) [] with
  | (Throw e, _, z) => (Throw e, z)
  | (Ret out, room, z) =>
      let '(rv, o, z) := deflate z [] true room in
      if rv =? Z_OK then (Ret [out ++ o], z) else (Throw yexception, z)
  end.
End zlib.

(** ** Replies *)

(** [tolower] of the C locale. *)
Definition SaveLowerCase (lst : TChunkList) : TChunkList := [map lower (flat lst)].

(** [SplitRequest]: the status and the version. *)
Definition SplitRequest (req : TChunkList) : TChunkList * TChunkList :=
  let '(version, tmp) := Split 8 req in
  let '(_, status) := Split 1 tmp in
  (status, version).

Definition save_field (h : THeader) : TChunkList :=
  [save16 (u16 (FullLength (Key h)))] ++ SaveLowerCase (Key h) ++ [save16 (u16 (FullLength (Value h)))] ++ Value h.

(** [SaveHeaders]: the two headers are arguments of one call, which a compiler may
    evaluate in either order. *)
Definition SaveHeaders (status_first : bool) (r : TRequest) : TChunkList :=
  let '(status, version) := SplitRequest (Request_ r) in
  let s := mk_header [bytes "status"] status in
  let v := mk_header [bytes "version"] version in
  let headers := Headers_ r ++ (if status_first then [s; v] else [v; s]) in
  [save16 (u16 (Z.of_nat (length headers)))] ++ concat (map save_field headers).

(** [TSynReplyFrame::Save] *)
Definition save_reply {HZ : Zlib} (NewChunk : Z -> Z) (status_first : bool) (id : Z) (r : TRequest) (z : zstream) : res TChunkList * zstream :=
  match Compress NewChunk z (SaveHeaders status_first r) with
  | (Ret tmp, z) => (Ret ([save32 id; save16 0] ++ tmp), z)
  | (Throw e, z) => (Throw e, z)
  end.
