(* ===== verification/HSpdyLoop.v ===== *)
(** * SPDY module: connections

    Models [TProto] and [TModule] of [src/web/httpd/modules/spdy/module.cpp] and [TChunkQueue]
    of [src/web/httpd/kernel/queue.h]: the loop over the frames of a client, and a job for
    every stream, a coroutine that runs the module behind.

    Streams are objects: the map of the loop keeps pointers to them, the job of a stream
    destroys it when it ends, and so does the loop when it refuses one.  A pointer to a
    destroyed object that is used is [None], and so is the use of a [TProto] that has ended.
    A step is one frame of the loop or one call of a job; coroutines switch at calls, so
    every schedule of the code is a sequence of steps. *)

From Stdlib Require Import ZArith Lia Bool String.
From stdpp Require Import base numbers list gmap.
From S2P Require Import Prelude HChunks HStream HLaws HHttp HHeaders HServer HSpdy.

(** ** [TChunkQueue] *)

Record TChunkQueue := mk_queue { AllDone_ : bool; Chunks_ : TChunkList }.

Definition new_queue : TChunkQueue := mk_queue false [].

Definition Push (q : TChunkQueue) (lst : TChunkList) : TChunkQueue := mk_queue (AllDone_ q) (MoveTo lst (Chunks_ q)).

Definition Stop (q : TChunkQueue) : TChunkQueue := mk_queue true (Chunks_ q).

(** [Pop]: [None] is a coroutine that waits. *)
Definition Pop (q : TChunkQueue) : option (TChunkList * TChunkQueue) :=
  match Chunks_ q with
  | [] => if AllDone_ q then Some ([], q) else None
  | l => Some (l, mk_queue (AllDone_ q) [])
  end.

(** ** [TIntMap] *)

(** An array for small numbers and a hash map, made at need, for the others. *)
Record TIntMap := mk_intmap { T_ : list (option positive); H_ : option (gmap Z positive) }.

Definition ARRAY_SIZE : Z := 100.

Definition new_intmap : TIntMap := mk_intmap (replicate 100 None) None.

(** [operator[]], read and written. *)
Definition intmap_get (m : TIntMap) (n : Z) : option positive :=
  if n <? ARRAY_SIZE then default None (zget (T_ m) n)
  else let* h := H_ m in h !! n.

Definition intmap_set (m : TIntMap) (n : Z) (p : positive) : TIntMap :=
  if n <? ARRAY_SIZE then mk_intmap (default (T_ m) (zset (T_ m) n (Some p))) (H_ m)
  else mk_intmap (T_ m) (Some (<[n := p]> (default ∅ (H_ m)))).

(** ** Streams *)

(** [TConnection]; [prog] is what its job still has to do, [started] whether it has read the
    addresses of its parent. *)
Record TConnection := mk_conn {
  StreamID : Z; Headers : TRequest; Q_ : TChunkQueue; C_ : TParseContext; prog : Prog unit; started : bool }.

Definition set_queue (c : TConnection) (q : TChunkQueue) : TConnection := mk_conn (StreamID c) (Headers c) q (C_ c) (prog c) (started c).
Definition set_prog (c : TConnection) (k : Prog unit) : TConnection := mk_conn (StreamID c) (Headers c) (Q_ c) (C_ c) k (started c).
Definition set_parser (c : TConnection) (ctx : TParseContext) : TConnection := mk_conn (StreamID c) (Headers c) (Q_ c) ctx (prog c) (started c).
Definition start (c : TConnection) : TConnection := mk_conn (StreamID c) (Headers c) (Q_ c) (C_ c) (prog c) true.

(** [Reset] and [FinishRead]. *)
Definition FinishRead (c : TConnection) : TConnection := set_queue c (Stop (Q_ c)).

Definition OnDataFrame (d : TDataFrame) (c : TConnection) : TConnection :=
  let c := set_queue c (Push (Q_ c) (Data d)) in
  if negb (Z.land (data_Flags d) FLAG_FIN =? 0) then FinishRead c else c.

(** The client's output, the compressors, the streams by address with their jobs, the map of
    the loop, and whether [TProto] is alive. *)
Record TProto {I O : Type} {HZ : Zlib} := mk_proto {
  input : TStreamIterator I; Output : O; Inflate : zstream; Deflate : zstream;
  conns : gmap positive TConnection; jobs : list positive; connmap : TIntMap; Spdy_ : Z; running : bool }.
Arguments TProto I O {HZ}.
Arguments mk_proto {I O HZ} _ _ _ _ _ _ _ _ _.

Section loop.
Context {I O : Type} {HI : IIoInput I} {HO : IIoOutput O} {HZ : Zlib}.
Context (NewChunk : Z -> Z) (status_first : bool) (module : TRequest -> Prog unit).

Notation proto := (TProto I O).

Definition set_input (p : proto) (it : TStreamIterator I) : proto :=
  mk_proto it (Output p) (Inflate p) (Deflate p) (conns p) (jobs p) (connmap p) (Spdy_ p) (running p).
Definition set_output (p : proto) (o : O) : proto :=
  mk_proto (input p) o (Inflate p) (Deflate p) (conns p) (jobs p) (connmap p) (Spdy_ p) (running p).
Definition set_inflate (p : proto) (z : zstream) : proto :=
  mk_proto (input p) (Output p) z (Deflate p) (conns p) (jobs p) (connmap p) (Spdy_ p) (running p).
Definition set_deflate (p : proto) (z : zstream) : proto :=
  mk_proto (input p) (Output p) (Inflate p) z (conns p) (jobs p) (connmap p) (Spdy_ p) (running p).
Definition set_conns (p : proto) (c : gmap positive TConnection) : proto :=
  mk_proto (input p) (Output p) (Inflate p) (Deflate p) c (jobs p) (connmap p) (Spdy_ p) (running p).
Definition set_jobs (p : proto) (j : list positive) : proto :=
  mk_proto (input p) (Output p) (Inflate p) (Deflate p) (conns p) j (connmap p) (Spdy_ p) (running p).
Definition set_connmap (p : proto) (m : TIntMap) : proto :=
  mk_proto (input p) (Output p) (Inflate p) (Deflate p) (conns p) (jobs p) m (Spdy_ p) (running p).
Definition count_spdy (p : proto) : proto :=
  mk_proto (input p) (Output p) (Inflate p) (Deflate p) (conns p) (jobs p) (connmap p) (u64 (Spdy_ p + 1)) (running p).
Definition finish (p : proto) : proto :=
  mk_proto (input p) (Output p) (Inflate p) (Deflate p) (conns p) (jobs p) (connmap p) (Spdy_ p) false.

(** [new TProto]: no streams yet. *)
Definition new_proto (i : I) (o : O) : proto :=
  mk_proto (iterator_over i) o inflateInit deflateInit ∅ [] new_intmap 0 true.

(** A method of the stream that a pointer points to. *)
Definition on_conn (x : positive) (f : TConnection -> TConnection) (p : proto) : option proto :=
  let* c := conns p !! x in Some (set_conns p (<[x := f c]> (conns p))).

(** [Conn->Output->Send(lst)] *)
Definition send (lst : TChunkList) (p : proto) : option (res unit * proto) :=
  let* (r, o) := DoSend (Output p) lst in Some (r, set_output p o).

Definition send_data (d : TDataFrame) (p : proto) : option (res unit * proto) := send (save_data d) p.

Definition SendRst (id code : Z) (p : proto) : option (res unit * proto) :=
  send (control_frame RST_STREAM (save_rst (mk_rst id code))) p.

(** ** Frames *)

(** A reader of the input, with the rest of the state. *)
Definition from_input {A} (f : TStreamIterator I -> option (res A * TStreamIterator I)) (p : proto) : option (res A * proto) :=
  let* (r, it) := f (input p) in Some (r, set_input p it).

(** [TSynStreamFrame]: the stream id and the request. *)
Definition read_syn_stream (ctl : TControlHeader) (p : proto) : option (res (Z * TRequest) * proto) :=
  read id, p := from_input (ReadToken 4) p in
  read assoc, p := from_input (ReadToken 4) p in
  read field3, p := from_input (ReadToken 2) p in
  read tmp, p := from_input (ReadList (u64 (Length24 (ctl_Field2 ctl) - 10)) []) p in
  match Decompress NewChunk (Inflate p) tmp with
  | (Throw e, z) => Some (Throw e, set_inflate p z)
  | (Ret tmp, z) =>
      let p := set_inflate p z in
      let* (r, _) := parse_block (mk_iterator NullInstance tmp) in
      match r with
      | Throw e => Some (Throw e, p)
      | Ret req => Some (Ret (id, req), p)
      end
  end.

(** [new TConnection(this, it, ctl)]: the object and its job. *)
Definition new_connection (ctl : TControlHeader) (p : proto) : option (res positive * proto) :=
  read (id, req), p := read_syn_stream ctl p in
  let x := fresh (dom (conns p) ∪ list_to_set (jobs p)) in
  let c := mk_conn id req new_queue parse_init (module req) false in
  let c := if negb (Z.land (Flags8 (ctl_Field2 ctl)) FLAG_FIN =? 0) then FinishRead c else c in
  Some (Ret x, set_jobs (set_conns p (<[x := c]> (conns p))) (jobs p ++ [x])).

Definition on_syn_stream (ctl : TControlHeader) (p : proto) : option (res unit * proto) :=
  read x, p := new_connection ctl (count_spdy p) in
  let* conn := conns p !! x in
  match intmap_get (connmap p) (StreamID conn) with
  | Some y =>
      let* p := on_conn y FinishRead p in
      let* (r, p) := SendRst (StreamID conn) PROTOCOL_ERROR p in
      Some (r, set_conns p (delete x (conns p)))
  | None => Some (Ret tt, set_connmap p (intmap_set (connmap p) (StreamID conn) x))
  end.

Definition on_rst_stream (p : proto) : option (res unit * proto) :=
  read rs, p := from_input read_rst p in
  match intmap_get (connmap p) (rst_StreamID rs) with
  | Some y => let* p := on_conn y FinishRead p in Some (Ret tt, p)
  | None => Some (Ret tt, p)
  end.

Definition on_data (field : Z) (p : proto) : option (res unit * proto) :=
  read data, p := from_input (read_data field) p in
  match intmap_get (connmap p) (data_StreamID data) with
  | Some y => let* p := on_conn y (OnDataFrame data) p in Some (Ret tt, p)
  | None => SendRst (data_StreamID data) PROTOCOL_ERROR p
  end.

(** The body of the loop. *)
Definition on_frame (p : proto) : option (res unit * proto) :=
  read field, p := from_input (ReadToken 4) p in
  if negb (Z.shiftr field 31 =? 0) then
    read ctl, p := from_input (read_control field) p in
    if Type_ (ctl_Field1 ctl) =? SYN_STREAM then on_syn_stream ctl p
    else if Type_ (ctl_Field1 ctl) =? RST_STREAM then on_rst_stream p
    else
      read _, p := from_input (ReadList (Length24 (ctl_Field2 ctl)) []) p in
      Some (Ret tt, p)
  else on_data field p.

(** A turn of [while (it.Peek())]; the loop ends, or throws, and [TProto] is gone. *)
Definition loop_turn (p : proto) : option proto :=
  match Peek (input p) with
  | (Throw _, it) => Some (finish (set_input p it))
  | (Ret false, it) => Some (finish (set_input p it))
  | (Ret true, it) =>
      let* (r, p) := on_frame (set_input p it) in
      Some (match r with Ret _ => p | Throw _ => finish p end)
  end.

(** ** Jobs *)

(** [Parent->Send(reply)] *)
Definition OnHeaders (id : Z) (r : TRequest) (p : proto) : option (res unit * proto) :=
  match save_reply NewChunk status_first id r (Deflate p) with
  | (Throw e, z) => Some (Throw e, set_deflate p z)
  | (Ret body, z) => send (control_frame SYN_REPLY body) (set_deflate p z)
  end.

(** [TConnection::DoSend]: the state of the parser and the answer to the module. *)
Definition conn_send (c : TConnection) (lst : TChunkList) (p : proto) : option (res unit * TParseContext * proto) :=
  if InFinalState (C_ c) then
    let* (r, p) := send_data (data_frame (StreamID c) lst) p in Some (r, C_ c, p)
  else
    let* (r, ctx, lst) := push_ParseChunk (C_ c) lst in
    match r with
    | Throw e => Some (Throw e, ctx, p)
    | Ret false => Some (Ret tt, ctx, p)
    | Ret true =>
        let* (r, p) := OnHeaders (StreamID c) (Request ctx) p in
        match r with
        | Throw e => Some (Throw e, ctx, p)
        | Ret _ => let* (r, p) := send_data (data_frame (StreamID c) lst) p in Some (r, ctx, p)
        end
    end.

(** The stream is destroyed with its job. *)
Definition end_job (x : positive) (p : proto) : proto :=
  set_jobs (set_conns p (delete x (conns p))) (List.filter (fun y => negb (bool_decide (y = x))) (jobs p)).

(** A call of the job of stream [x]; [Some None] is a job that waits. *)
Definition job_turn (x : positive) (p : proto) : option (option proto) :=
  let* c := conns p !! x in
  let put c p := Some (Some (set_conns p (<[x := c]> (conns p)))) in
  if negb (started c) then (if running p then put (start c) p else None)
  else match prog c with
  | PRecv k =>
      match Pop (Q_ c) with
      | None => Some None
      | Some (l, q) => put (set_prog (set_queue c q) (k (Ret l))) p
      end
  | PRet _ => if running p then let* (_, p) := send_data (fin_frame (StreamID c)) p in Some (Some (end_job x p)) else None
  | PThrow _ _ => if running p then let* (_, p) := SendRst (StreamID c) INTERNAL_ERROR p in Some (Some (end_job x p)) else None
  | PSend lst k =>
      if running p then
        let* (r, ctx, p) := conn_send c lst p in put (set_prog (set_parser c ctx) (k r)) p
      else None
  end.

(** ** Schedules *)

Inductive turn := LoopTurn | JobTurn (x : positive).

(** [Some None]: this turn cannot be taken now. *)
Definition take_turn (t : turn) (p : proto) : option (option proto) :=
  match t with
  | LoopTurn => if running p then let* p := loop_turn p in Some (Some p) else Some None
  | JobTurn x => if bool_decide (x ∈ jobs p) then job_turn x p else Some None
  end.

Fixpoint take_turns (ts : list turn) (p : proto) : option proto :=
  match ts with
  | [] => Some p
  | t :: ts =>
      let* r := take_turn t p in
      take_turns ts (default p r)
  end.
End loop.

(** ** [TModule::DoRun] *)

(** Where a connection goes; what was read to decide comes first again. *)
Inductive dispatch (I : Type) :=
  | ToHttp (input : TConcatInput TOwnedInput I)
  | ToSpdy (input : TConcatInput TOwnedInput I).
Arguments ToHttp {I} input.
Arguments ToSpdy {I} input.

(** The counter is [Http_]. *)
Definition choose_protocol {I} `{IIoInput I} (Http_ : Z) (i : I) : res (dispatch I) * Z :=
  match DoRecv i with
  | (Throw e, _) => (Throw e, Http_)
  | (Ret [], _) => (Throw (THttpParseError 400), Http_)
  | (Ret msg, i) =>
      if IsHttp msg then (Ret (ToHttp (concat_of (Owned msg) i)), u64 (Http_ + 1))
      else (Ret (ToSpdy (concat_of (Owned msg) i)), Http_)
  end.
