(* ===== verification/HSpdySpec.v ===== *)
(** * SPDY module: what the frames carry

    Tokens, frames and header blocks are read as they were written, and the loop hands the
    data of every frame to its stream. *)

From Stdlib Require Import ZArith Lia Bool String.
From stdpp Require Import base numbers list gmap.
From S2P Require Import Prelude HChunks HStream HLaws HHttp HHeaders HServer HEncoder HSpdy HSpdyLoop.

(** ** Tokens *)

Lemma big_endian_save32 v : 0 <= v < 2 ^ 32 -> big_endian (save32 v) = v.
Proof. intros Hv. unfold big_endian, save32. cbn [fold_left]. Z.to_euclidean_division_equations. lia. Qed.

Lemma big_endian_save16 v : 0 <= v < 2 ^ 16 -> big_endian (save16 v) = v.
Proof. intros Hv. unfold big_endian, save16. cbn [fold_left]. Z.to_euclidean_division_equations. lia. Qed.

Section reading.
Context {I : Type} `{CleanLaws I}.

(** Reading [size] bytes that are there. *)
Lemma ReadToken_spec size it b rest : iter_ok it -> zlen b = size -> iter_content it = b ++ rest ->
  exists it', ReadToken size it = Some (Ret (big_endian b), it') /\ iter_ok it' /\ iter_content it' = rest /\ iter_final it' = iter_final it.
Proof.
  intros Hok Hb E. pose proof (zlen_nonneg b). destruct (Read_spec size it) as (r&it'&R&Ho&Hf&S); [lia|auto|].
  rewrite E, zlen_app in S. pose proof (zlen_nonneg rest). destruct (Z.leb_spec size (zlen b + zlen rest)); [|lia]. destruct S as [-> S].
  unfold ReadToken. rewrite R. exists it'. unfold zlen in *. rewrite take_app_le, take_ge by lia. conj; auto. rewrite S, drop_app_ge by lia.
  replace (Z.to_nat size - length b)%nat with 0%nat by lia. auto.
Qed.

Lemma ReadList_loop_spec fuel len lst it : 0 <= len -> (Z.to_nat len <= fuel)%nat -> iter_ok it ->
  exists r it', ReadList_loop fuel len lst it = Some (r, it') /\ iter_ok it' /\ iter_final it' = iter_final it /\
  if len <=? zlen (iter_content it)
  then (exists l, r = Ret l /\ flat l = flat lst ++ take (Z.to_nat len) (iter_content it)) /\ iter_content it' = drop (Z.to_nat len) (iter_content it)
  else r = Throw (default TStreamError (iter_final it)) /\ iter_content it' = [].
Proof.
  revert len lst it. induction fuel as [|fuel IH]; intros len lst it Hl Hf Hok; cbn [ReadList_loop];
    (destruct (Z.eqb_spec len 0) as [->|Hn]; [exists (Ret lst), it; pose proof (zlen_nonneg (iter_content it));
      destruct (Z.leb_spec 0 (zlen (iter_content it))); [|lia]; rewrite take_0, drop_0; conj; auto; exists lst; rewrite app_nil_r; auto|]); [lia|].
  destruct (NextLen len it) as [[tmp|e] it1] eqn:EN; apply NextLen_spec in EN as (Ho&Hfi&D); auto; try lia.
  - destruct D as (D1&D2&D3). rewrite FullLength_flat. destruct (Z.eqb_spec (zlen (flat tmp)) 0) as [E0|E0].
    + apply zlen_0 in E0. destruct (D3 E0) as (_&D4&D5). rewrite E0 in D1. eexists _, _. split; [reflexivity|]. conj; auto. rewrite D4, D5.
      change (zlen (@nil Z)) with 0. destruct (Z.leb_spec len 0); [lia|]. split; [auto|]. rewrite D4 in D1. auto.
    + pose proof (zlen_nonneg (flat tmp)).
      destruct (IH (len - zlen (flat tmp)) (MoveTo tmp lst) it1) as (r&it2&E&Ho2&Hf2&R); [lia|unfold zlen in *; lia|auto|].
      exists r, it2. split; [auto|]. split; [auto|]. split; [congruence|]. rewrite D1, zlen_app.
      destruct (Z.leb_spec (len - zlen (flat tmp)) (zlen (iter_content it1))), (Z.leb_spec len (zlen (flat tmp) + zlen (iter_content it1))); try lia;
        [|rewrite <- Hfi; auto].
      destruct R as [(l&->&Hl') R]. unfold zlen in *.
      replace (Z.to_nat (len - Z.of_nat (length (flat tmp)))) with (Z.to_nat len - length (flat tmp))%nat in * by lia.
      rewrite take_app_ge, drop_app_ge by lia. split; [|auto]. exists l. split; [auto|].
      rewrite Hl'. unfold MoveTo. rewrite flat_app, <- app_assoc. auto.
  - destruct D as (D1&D2&D3). eexists _, _. split; [reflexivity|]. conj; auto. rewrite D1, D2.
    change (zlen (@nil Z)) with 0. destruct (Z.leb_spec len 0); [lia|]. auto.
Qed.

Lemma ReadList_spec len it b rest : iter_ok it -> zlen b = len -> iter_content it = b ++ rest ->
  exists l it', ReadList len [] it = Some (Ret l, it') /\ flat l = b /\ iter_ok it' /\ iter_content it' = rest /\ iter_final it' = iter_final it.
Proof.
  intros Hok Hb E. pose proof (zlen_nonneg b). destruct (ReadList_loop_spec (Z.to_nat len) len [] it) as (r&it'&R&Ho&Hf&S); [lia|lia|auto|].
  rewrite E, zlen_app in S. pose proof (zlen_nonneg rest). destruct (Z.leb_spec len (zlen b + zlen rest)); [|lia]. destruct S as [(l&->&S1) S2].
  exists l, it'. split; [exact R|]. unfold zlen in *. rewrite take_app_le, take_ge in S1 by lia. conj; auto. rewrite S2, drop_app_ge by lia.
  replace (Z.to_nat len - length b)%nat with 0%nat by lia. auto.
Qed.

(** Not enough bytes are an error, at the end of the input. *)
Lemma ReadList_short len lst it : iter_ok it -> zlen (iter_content it) < len ->
  exists it', ReadList len lst it = Some (Throw (default TStreamError (iter_final it)), it') /\ iter_content it' = [].
Proof.
  intros Hok Hl. pose proof (zlen_nonneg (iter_content it)). destruct (ReadList_loop_spec (Z.to_nat len) len lst it) as (r&it'&R&Ho&Hf&S); [lia|lia|auto|].
  destruct (Z.leb_spec len (zlen (iter_content it))); [lia|]. destruct S as [-> S]. exists it'. auto.
Qed.
End reading.

(** ** Frames on the wire *)

Inductive wire :=
  | WData (id flags : Z) (data : list Z)
  | WRst (id code : Z)
  | WOther (type flags : Z) (payload : list Z).

Definition control_word (type : Z) : Z := 2 ^ 31 + 2 * 2 ^ 16 + type.

Definition encode (w : wire) : list Z :=
  match w with
  | WData id flags data => save32 id ++ save32 (flags * 2 ^ 24 + zlen data) ++ data
  | WRst id code => save32 (control_word RST_STREAM) ++ save32 8 ++ save32 id ++ save32 code
  | WOther type flags payload => save32 (control_word type) ++ save32 (flags * 2 ^ 24 + zlen payload) ++ payload
  end.

Definition wire_ok (w : wire) : Prop :=
  match w with
  | WData id flags data => 0 <= id < 2 ^ 31 /\ 0 <= flags < 256 /\ zlen data < 2 ^ 24
  | WRst id code => 0 <= id < 2 ^ 32 /\ 0 <= code < 2 ^ 32
  | WOther type flags payload => 0 <= type < 2 ^ 16 /\ type <> SYN_STREAM /\ type <> RST_STREAM /\ 0 <= flags < 256 /\ zlen payload < 2 ^ 24
  end.

(** The bytes a frame of the code is written as. *)
Lemma save_data_encode id flags l : 0 <= id < 2 ^ 31 -> zlen (flat l) < 2 ^ 24 -> flat (save_data (mk_data id flags l)) = encode (WData id flags (flat l)).
Proof.
  intros Hid Hl. pose proof (zlen_nonneg (flat l)). unfold save_data, encode, StreamID31, Length24. cbn [data_StreamID data_Flags Data].
  rewrite flat_app, !flat_cons, flat_nil, app_nil_r, FullLength_flat, <- app_assoc.
  replace (Z.land id (2 ^ 31 - 1)) with id by (change (2 ^ 31 - 1) with (Z.ones 31); rewrite Z.land_ones, Z.mod_small by lia; auto).
  replace (Z.land (zlen (flat l)) (2 ^ 24 - 1)) with (zlen (flat l)) by (change (2 ^ 24 - 1) with (Z.ones 24); rewrite Z.land_ones, Z.mod_small by lia; auto). auto.
Qed.

Lemma rst_encode id code : flat (control_frame RST_STREAM (save_rst (mk_rst id code))) = encode (WRst id code).
Proof. reflexivity. Qed.

Lemma land_mod x n : 0 <= n -> Z.land x (2 ^ n - 1) = x mod 2 ^ n.
Proof. intros. replace (2 ^ n - 1) with (Z.ones n) by (rewrite Z.ones_equiv; lia). apply Z.land_ones. lia. Qed.

Lemma word_fields flags len : 0 <= flags < 256 -> 0 <= len < 2 ^ 24 ->
  0 <= flags * 2 ^ 24 + len < 2 ^ 32 /\ Length24 (flags * 2 ^ 24 + len) = len /\ Flags8 (flags * 2 ^ 24 + len) = flags.
Proof.
  intros Hf Hl. unfold Length24, Flags8. rewrite land_mod, Z.shiftr_div_pow2 by lia. split; [lia|].
  Z.to_euclidean_division_equations. lia.
Qed.

Lemma data_word id : 0 <= id < 2 ^ 31 -> Z.shiftr id 31 = 0 /\ StreamID31 id = id.
Proof. intros Hi. unfold StreamID31. rewrite land_mod, Z.shiftr_div_pow2, Z.mod_small, Z.div_small by lia. auto. Qed.

Lemma type_word type : 0 <= type < 2 ^ 16 -> 0 <= control_word type < 2 ^ 32 /\ Z.shiftr (control_word type) 31 = 1 /\ Type_ (control_word type) = type.
Proof.
  intros Ht. unfold control_word, Type_. rewrite land_mod, Z.shiftr_div_pow2 by lia. split; [lia|]. Z.to_euclidean_division_equations. lia.
Qed.

(** ** The streams *)

(** What the module behind a stream will still receive, and whether that is all. *)
Definition pending := Z -> option (list Z * bool).

Definition is_fin (flags : Z) : bool := negb (Z.land flags FLAG_FIN =? 0).

Definition deliver (w : wire) (v : pending) : pending := fun j =>
  match w with
  | WData id flags data => if id =? j then (fun '(q, d) => (q ++ data, d || is_fin flags)) <$> v j else v j
  | WRst id _ => if id =? j then (fun '(q, _) => (q, true)) <$> v j else v j
  | WOther _ _ _ => v j
  end.

(** Data for a stream nobody opened is answered with a reset. *)
Definition answer_to (w : wire) (v : pending) : list Z :=
  match w with
  | WData id _ _ => match v id with None => encode (WRst id PROTOCOL_ERROR) | Some _ => [] end
  | _ => []
  end.

Fixpoint deliver_all (ws : list wire) (v : pending) : pending :=
  match ws with [] => v | w :: ws => deliver_all ws (deliver w v) end.

Fixpoint answers_to (ws : list wire) (v : pending) : list Z :=
  match ws with [] => [] | w :: ws => answer_to w v ++ answers_to ws (deliver w v) end.

Section demux.
Context {I O : Type} `{CleanLaws I} `{OutputLaws O} {HZ : Zlib}.
Context (NewChunk : Z -> Z) (module : TRequest -> Prog unit).

Notation proto := (TProto I O).

Definition view (p : proto) : pending := fun id =>
  let* x := intmap_get (connmap p) id in
  let* c := conns p !! x in
  Some (flat (Chunks_ (Q_ c)), AllDone_ (Q_ c)).

(** Every pointer of the map points to the stream of that number. *)
Definition pointers_ok (p : proto) : Prop :=
  forall id x, intmap_get (connmap p) id = Some x -> exists c, conns p !! x = Some c /\ StreamID c = id.

Lemma view_None p id : pointers_ok p -> (view p id = None <-> intmap_get (connmap p) id = None).
Proof.
  intros Hp. unfold view. destruct (intmap_get (connmap p) id) as [x|] eqn:E; [|tauto]. destruct (Hp _ _ E) as (c&->&_). split; discriminate.
Qed.

(** A change of one stream, found through the map. *)
Lemma on_conn_view p id x f : pointers_ok p -> intmap_get (connmap p) id = Some x -> (forall c, StreamID (f c) = StreamID c) ->
  exists p', on_conn x f p = Some p' /\ pointers_ok p' /\ input p' = input p /\ Output p' = Output p /\ running p' = running p /\
    forall j, view p' j = if id =? j then (let* c := conns p !! x in Some (flat (Chunks_ (Q_ (f c))), AllDone_ (Q_ (f c)))) else view p j.
Proof.
  intros Hp Ex Hf. destruct (Hp _ _ Ex) as (c&Ec&Eid). unfold on_conn. rewrite Ec. eexists. split; [reflexivity|]. split; [|conj; auto].
  - intros j y Ey. cbn in *. destruct (decide (y = x)) as [->|Hn].
    + rewrite lookup_insert_eq. exists (f c). split; [auto|]. rewrite Hf. destruct (Hp _ _ Ey) as (c'&Ec'&?). congruence.
    + rewrite lookup_insert_ne by auto. auto.
  - intros j. unfold view. cbn. destruct (Z.eqb_spec id j) as [<-|Hj]; [rewrite Ex, lookup_insert_eq; auto|].
    destruct (intmap_get (connmap p) j) as [y|] eqn:Ey; [|auto]. rewrite lookup_insert_ne; auto. intros <-.
    destruct (Hp _ _ Ey) as (c'&Ec'&?). congruence.
Qed.

(** The input stands before [b]. *)
Definition at_input (p : proto) (b : list Z) : Prop := iter_ok (input p) /\ iter_content (input p) = b.

Lemma input_token p b rest : at_input p (b ++ rest) ->
  exists it, from_input (ReadToken (zlen b)) p = Some (Ret (big_endian b), set_input p it) /\ at_input (set_input p it) rest.
Proof.
  intros [Hok E]. destruct (ReadToken_spec (zlen b) (input p) b rest) as (it&R&G1&G2&_); auto.
  exists it. unfold from_input. rewrite R. split; [auto|]. split; auto.
Qed.

Lemma input_list p b rest : at_input p (b ++ rest) ->
  exists l it, from_input (ReadList (zlen b) []) p = Some (Ret l, set_input p it) /\ flat l = b /\ at_input (set_input p it) rest.
Proof.
  intros [Hok E]. destruct (ReadList_spec (zlen b) (input p) b rest) as (l&it&R&G0&G1&G2&_); auto.
  exists l, it. unfold from_input. rewrite R. split; [auto|]. split; [auto|]. split; auto.
Qed.

Lemma from_input_seq {A B} (f : TStreamIterator I -> option (res A * TStreamIterator I)) (g : A -> TStreamIterator I -> option (res B * TStreamIterator I)) (p : proto) :
  from_input (fun it => read a, it := f it in g a it) p = (read a, p := from_input f p in from_input (g a) p : option (res B * proto)).
Proof. unfold from_input. destruct (f (input p)) as [[[a|e] it]|]; auto. Qed.

Lemma word32 v p rest : 0 <= v < 2 ^ 32 -> at_input p (save32 v ++ rest) ->
  exists it, from_input (ReadToken 4) p = Some (Ret v, set_input p it) /\ at_input (set_input p it) rest.
Proof. intros Hv Ha. destruct (input_token p (save32 v) rest Ha) as (it&R&Ha'). rewrite big_endian_save32 in R by auto. eauto. Qed.

Lemma read_data_wire p id flags data rest : 0 <= id < 2 ^ 31 -> 0 <= flags < 256 -> zlen data < 2 ^ 24 ->
  at_input p (save32 (flags * 2 ^ 24 + zlen data) ++ data ++ rest) ->
  exists l it, from_input (read_data id) p = Some (Ret (mk_data id flags l), set_input p it) /\ flat l = data /\ at_input (set_input p it) rest.
Proof.
  intros Hi Hf Hl Ha. pose proof (zlen_nonneg data). destruct (word_fields flags (zlen data)) as (W1&W2&W3); [auto|lia|].
  unfold read_data. rewrite from_input_seq. destruct (word32 _ _ _ W1 Ha) as (it&->&Ha1). rewrite from_input_seq, W2.
  destruct (input_list _ data rest Ha1) as (l&it2&->&Hd&Ha2). exists l, it2. rewrite W3, (proj2 (data_word id Hi)). auto.
Qed.

Lemma read_control_wire p field field2 rest : 0 <= field2 < 2 ^ 32 -> at_input p (save32 field2 ++ rest) ->
  exists it, from_input (read_control field) p = Some (Ret (mk_ctl field field2), set_input p it) /\ at_input (set_input p it) rest.
Proof. intros Hf Ha. unfold read_control. rewrite from_input_seq. destruct (word32 _ _ _ Hf Ha) as (it&->&Ha1). exists it. auto. Qed.

Lemma read_rst_wire p id code rest : 0 <= id < 2 ^ 32 -> 0 <= code < 2 ^ 32 -> at_input p (save32 id ++ save32 code ++ rest) ->
  exists it, from_input read_rst p = Some (Ret (mk_rst id code), set_input p it) /\ at_input (set_input p it) rest.
Proof.
  intros Hi Hc Ha. unfold read_rst. rewrite from_input_seq. destruct (word32 _ _ _ Hi Ha) as (it&->&Ha1). rewrite from_input_seq.
  destruct (word32 _ _ _ Hc Ha1) as (it2&->&Ha2). exists it2. auto.
Qed.

Lemma send_rst_sent (p : proto) id code : exists p', SendRst id code p = Some (Ret tt, p') /\ input p' = input p /\ connmap p' = connmap p /\ conns p' = conns p /\
  running p' = running p /\ sent (Output p') = sent (Output p) ++ encode (WRst id code).
Proof.
  unfold SendRst, send. destruct (send_ok (Output p) (control_frame RST_STREAM (save_rst (mk_rst id code)))) as (o'&->&Hs).
  eexists. split; [reflexivity|]. conj; auto.
Qed.

Lemma set_input_view p it : view (set_input p it) = view p /\ (pointers_ok p -> pointers_ok (set_input p it)).
Proof. auto. Qed.

(** One frame. *)
Definition frame_effect (p : proto) (w : wire) (rest : list Z) : Prop :=
  exists p', on_frame NewChunk module p = Some (Ret tt, p') /\ at_input p' rest /\ pointers_ok p' /\ running p' = running p /\
    (forall j, view p' j = deliver w (view p) j) /\ sent (Output p') = sent (Output p) ++ answer_to w (view p).

Lemma on_frame_data p id flags data rest : wire_ok (WData id flags data) -> pointers_ok p -> at_input p (encode (WData id flags data) ++ rest) -> frame_effect p (WData id flags data) rest.
Proof.
  intros Hw Hp Ha. unfold frame_effect, on_frame. cbn [wire_ok] in Hw. cbn [encode] in Ha. rewrite <- !app_assoc in Ha.
  destruct Hw as (W1&W2&W3). destruct (word32 id p _ ltac:(lia) Ha) as (it&->&Ha1). rewrite (proj1 (data_word id W1)). cbn [Z.eqb negb].
  unfold on_data. destruct (read_data_wire _ id flags data rest W1 W2 W3 Ha1) as (l&it2&->&Hd&Ha2). cbn [data_StreamID].
  set (p2 := set_input (set_input p it) it2) in *. assert (Hp2 : pointers_ok p2) by auto. change (view p) with (view p2). change (Output p) with (Output p2).
  change (running p) with (running p2). destruct (intmap_get (connmap p2) id) as [x|] eqn:Ex.
  - destruct (on_conn_view p2 id x (OnDataFrame (mk_data id flags l)) Hp2 Ex) as (p3&->&Hp3&Hi&Ho&Hr&Hv).
    { intros c. unfold OnDataFrame. destruct (negb _); auto. }
    exists p3. split; [auto|]. split; [split; rewrite Hi; apply Ha2|]. conj; auto.
    + intros j. rewrite Hv. cbn [deliver]. destruct (Z.eqb_spec id j) as [<-|]; [|auto]. unfold view. rewrite Ex. destruct (conns p2 !! x) as [c|]; [|auto].
      cbn. unfold OnDataFrame, is_fin. cbn [data_Flags Data]. destruct (negb (Z.land flags FLAG_FIN =? 0)); cbn; unfold MoveTo; rewrite flat_app, Hd, ?orb_true_r, ?orb_false_r; auto.
    + rewrite Ho. cbn. unfold view. rewrite Ex. destruct (Hp2 _ _ Ex) as (c&->&_). rewrite app_nil_r. auto.
  - destruct (send_rst_sent p2 id PROTOCOL_ERROR) as (p3&->&E1&E2&E3&E4&E5).
    assert (Hv : view p3 = view p2) by (unfold view; rewrite E2, E3; auto). exists p3. split; [auto|]. split; [split; rewrite E1; apply Ha2|].
    conj; auto; [intros j y Ey; rewrite E2 in Ey; rewrite E3; auto| |].
    + intros j. rewrite Hv. cbn. destruct (Z.eqb_spec id j) as [<-|]; [|auto]. rewrite (proj2 (view_None p2 id Hp2) Ex). auto.
    + rewrite E5. cbn. rewrite (proj2 (view_None p2 id Hp2) Ex). auto.
Qed.

Lemma on_frame_rst p id code rest : wire_ok (WRst id code) -> pointers_ok p -> at_input p (encode (WRst id code) ++ rest) -> frame_effect p (WRst id code) rest.
Proof.
  intros Hw Hp Ha. unfold frame_effect, on_frame. cbn [wire_ok] in Hw. cbn [encode] in Ha. rewrite <- !app_assoc in Ha.
  destruct Hw as (W1&W2). destruct (type_word RST_STREAM ltac:(unfold RST_STREAM; lia)) as (T1&T2&T3).
  destruct (word32 _ p _ T1 Ha) as (it&->&Ha1). rewrite T2. cbn [Z.eqb negb].
  destruct (read_control_wire _ (control_word RST_STREAM) 8 _ ltac:(lia) Ha1) as (it2&->&Ha2). cbn [ctl_Field1]. rewrite T3.
  change (RST_STREAM =? SYN_STREAM) with false. rewrite Z.eqb_refl. cbv iota. unfold on_rst_stream.
  destruct (read_rst_wire _ id code rest W1 W2 Ha2) as (it3&->&Ha3). cbn [rst_StreamID].
  set (p2 := set_input (set_input (set_input p it) it2) it3) in *. assert (Hp2 : pointers_ok p2) by auto. change (view p) with (view p2). change (Output p) with (Output p2).
  change (running p) with (running p2). destruct (intmap_get (connmap p2) id) as [x|] eqn:Ex.
  - destruct (on_conn_view p2 id x FinishRead Hp2 Ex) as (p3&->&Hp3&Hi&Ho&Hr&Hv); [auto|].
    exists p3. split; [auto|]. split; [split; rewrite Hi; apply Ha3|]. conj; auto; [|rewrite Ho; cbn; rewrite app_nil_r; auto].
    intros j. rewrite Hv. cbn [deliver]. destruct (Z.eqb_spec id j) as [<-|]; [|auto]. unfold view. rewrite Ex. destruct (conns p2 !! x); auto.
  - exists p2. split; [auto|]. split; [auto|]. conj; auto; [|cbn [answer_to]; rewrite app_nil_r; auto].
    intros j. cbn [deliver]. destruct (Z.eqb_spec id j) as [<-|]; [|auto]. rewrite (proj2 (view_None p2 id Hp2) Ex). auto.
Qed.

Lemma on_frame_other p type flags payload rest : wire_ok (WOther type flags payload) -> pointers_ok p -> at_input p (encode (WOther type flags payload) ++ rest) -> frame_effect p (WOther type flags payload) rest.
Proof.
  intros Hw Hp Ha. unfold frame_effect, on_frame. cbn [wire_ok] in Hw. cbn [encode] in Ha. rewrite <- !app_assoc in Ha.
  destruct Hw as (W1&W2&W3&W4&W5). pose proof (zlen_nonneg payload). destruct (type_word type W1) as (T1&T2&T3).
  destruct (word32 _ p _ T1 Ha) as (it&->&Ha1). rewrite T2. cbn [Z.eqb negb]. destruct (word_fields flags (zlen payload)) as (F1&F2&F3); [auto|lia|].
  destruct (read_control_wire _ (control_word type) _ _ F1 Ha1) as (it2&->&Ha2). cbn [ctl_Field1 ctl_Field2]. rewrite T3, F2.
  destruct (Z.eqb_spec type SYN_STREAM); [congruence|]. destruct (Z.eqb_spec type RST_STREAM); [congruence|].
  destruct (input_list _ payload rest Ha2) as (l&it3&->&_&Ha3). eexists. split; [reflexivity|]. split; [exact Ha3|]. conj; auto. cbn [answer_to]. rewrite app_nil_r. auto.
Qed.

Lemma on_frame_wire p w rest : wire_ok w -> pointers_ok p -> at_input p (encode w ++ rest) -> frame_effect p w rest.
Proof. destruct w; [apply on_frame_data|apply on_frame_rst|apply on_frame_other]. Qed.

Lemma deliver_ext w v v' : (forall j, v j = v' j) -> (forall j, deliver w v j = deliver w v' j) /\ answer_to w v = answer_to w v'.
Proof. intros Hv. split; [intros j; destruct w; cbn; rewrite Hv; auto|destruct w; cbn; rewrite ?Hv; auto]. Qed.

Lemma deliver_all_ext ws v v' : (forall j, v j = v' j) -> (forall j, deliver_all ws v j = deliver_all ws v' j) /\ answers_to ws v = answers_to ws v'.
Proof.
  revert v v'. induction ws as [|w ws IH]; intros v v' Hv; cbn; [auto|]. destruct (deliver_ext w v v' Hv) as [D1 D2].
  destruct (IH _ _ D1) as [I1 I2]. rewrite D2, I2. auto.
Qed.

(** The frames of a client, one turn of the loop each. *)
Lemma frames_delivered ws status_first p rest : Forall wire_ok ws -> pointers_ok p -> running p = true -> at_input p (concat (map encode ws) ++ rest) ->
  exists p', take_turns NewChunk status_first module (replicate (length ws) LoopTurn) p = Some p' /\ at_input p' rest /\ pointers_ok p' /\ running p' = true /\
    (forall j, view p' j = deliver_all ws (view p) j) /\ sent (Output p') = sent (Output p) ++ answers_to ws (view p).
Proof.
  intros Hw. revert p. induction Hw as [|w ws Hw Hws IH]; intros p Hp Hr Ha; cbn [length replicate take_turns].
  - exists p. conj; auto. cbn. rewrite app_nil_r. auto.
  - unfold take_turn at 1. rewrite Hr. unfold loop_turn. destruct (Peek (input p)) as [r it] eqn:Epk. destruct Ha as [Hok Hc].
    apply Peek_spec in Epk as (Hok1&Hc1&_&Hpk); [|auto]. rewrite Hc in Hpk. cbn [map concat] in Hpk, Hc.
    assert (Hne : (encode w ++ concat (map encode ws)) ++ rest <> []) by (destruct w; discriminate).
    destruct r as [[|]|e]; [|destruct Hpk as (_&F&_); tauto..].
    assert (Ha1 : at_input (set_input p it) (encode w ++ concat (map encode ws) ++ rest)) by (split; [auto|cbn; rewrite Hc1, Hc, <- app_assoc; auto]).
    destruct (on_frame_wire (set_input p it) w _ Hw Hp Ha1) as (p1&->&Ha2&Hp1&Hr1&Hv1&Hs1). cbn [default].
    destruct (IH p1 Hp1 ltac:(rewrite Hr1; auto) Ha2) as (p2&E2&Ha3&Hp2&Hr2&Hv2&Hs2). exists p2. split; [exact E2|]. conj; auto.
    + intros j. rewrite Hv2. cbn [deliver_all]. apply deliver_all_ext. exact Hv1.
    + rewrite Hs2, Hs1, <- app_assoc. cbn [answers_to]. do 2 f_equal. apply deliver_all_ext. exact Hv1.
Qed.

(** *** Destroyed streams *)

(** The number that a frame is for. *)
Definition frame_for (w : wire) : option Z :=
  match w with WData id _ _ | WRst id _ => Some id | WOther _ _ _ => None end.

(** A frame is undefined exactly when its number leads to a stream that is destroyed. *)
Lemma on_frame_destroyed p w id rest : frame_for w = Some id -> wire_ok w -> at_input p (encode w ++ rest) ->
  (on_frame NewChunk module p = None <-> exists x, intmap_get (connmap p) id = Some x /\ conns p !! x = None).
Proof.
  assert (Hc : forall q x f, connmap q = connmap p -> conns q = conns p -> intmap_get (connmap q) id = Some x ->
    ((let* q := on_conn x f q in Some (Ret tt, q)) = None :> option (res unit * proto) <-> exists x, intmap_get (connmap p) id = Some x /\ conns p !! x = None)).
  { intros q x f Em Ec Ex. unfold on_conn. rewrite Ec. rewrite Em in Ex. destruct (conns p !! x) as [c|] eqn:E; cbn; (split; [try discriminate|]); eauto.
    intros (y&Ey&Ey'). rewrite Ex in Ey. injection Ey as <-. congruence. }
  intros Hid Hw Ha. destruct w as [i flags data|i code|]; [| |discriminate]; injection Hid as ->; cbn [wire_ok] in Hw; cbn [encode] in Ha; rewrite <- !app_assoc in Ha; unfold on_frame.
  - destruct Hw as (W1&W2&W3). destruct (word32 id p _ ltac:(lia) Ha) as (it&->&Ha1). rewrite (proj1 (data_word id W1)). cbn [Z.eqb negb].
    unfold on_data. destruct (read_data_wire _ id flags data rest W1 W2 W3 Ha1) as (l&it2&->&Hd&Ha2). cbn [data_StreamID].
    set (p2 := set_input (set_input p it) it2) in *. destruct (intmap_get (connmap p2) id) as [x|] eqn:Ex; [apply Hc; auto|].
    destruct (send_rst_sent p2 id PROTOCOL_ERROR) as (p3&->&_). split; [discriminate|]. intros (x&Ex'&_). change (connmap p2) with (connmap p) in Ex. congruence.
  - destruct Hw as (W1&W2). destruct (type_word RST_STREAM ltac:(unfold RST_STREAM; lia)) as (T1&T2&T3).
    destruct (word32 _ p _ T1 Ha) as (it&->&Ha1). rewrite T2. cbn [Z.eqb negb].
    destruct (read_control_wire _ (control_word RST_STREAM) 8 _ ltac:(lia) Ha1) as (it2&->&Ha2). cbn [ctl_Field1]. rewrite T3.
    change (RST_STREAM =? SYN_STREAM) with false. rewrite Z.eqb_refl. cbv iota. unfold on_rst_stream.
    destruct (read_rst_wire _ id code rest W1 W2 Ha2) as (it3&->&Ha3). cbn [rst_StreamID].
    set (p2 := set_input (set_input (set_input p it) it2) it3) in *. destruct (intmap_get (connmap p2) id) as [x|] eqn:Ex; [apply Hc; auto|].
    split; [discriminate|]. intros (x&Ex'&_). change (connmap p2) with (connmap p) in Ex. congruence.
Qed.

Lemma loop_turn_destroyed p w id rest : frame_for w = Some id -> wire_ok w -> at_input p (encode w ++ rest) ->
  (loop_turn NewChunk module p = None <-> exists x, intmap_get (connmap p) id = Some x /\ conns p !! x = None).
Proof.
  intros Hid Hw [Hok Hc]. unfold loop_turn. destruct (Peek (input p)) as [r it] eqn:Epk. apply Peek_spec in Epk as (Hok1&Hc1&_&Hpk); [|auto]. rewrite Hc in Hpk.
  assert (Hne : encode w ++ rest <> []) by (destruct w; discriminate). destruct r as [[|]|e]; [|destruct Hpk as (_&F&_); tauto..].
  assert (Ha1 : at_input (set_input p it) (encode w ++ rest)) by (split; [auto|cbn; rewrite Hc1, Hc; auto]).
  pose proof (on_frame_destroyed (set_input p it) w id rest Hid Hw Ha1) as HD. cbn [connmap conns set_input] in HD. rewrite <- HD. destruct (on_frame _ _ _) as [[r p1]|]; split; (discriminate || auto).
Qed.

(** The loop ends with the input and leaves streams and jobs behind. *)
Lemma loop_turn_end p : at_input p [] -> exists p', loop_turn NewChunk module p = Some p' /\ running p' = false /\ conns p' = conns p /\ jobs p' = jobs p.
Proof.
  intros [Hok Hc]. unfold loop_turn. destruct (Peek (input p)) as [r it] eqn:Epk. apply Peek_spec in Epk as (Hok1&Hc1&_&Hpk); [|auto]. rewrite Hc in Hc1.
  destruct r as [[|]|e]; [exfalso; destruct Hok1 as [Hcl _]; unfold iter_content in Hc1; destruct (L_ it) as [|ch l]; [tauto|]; apply Forall_cons in Hcl as [Hch _]; destruct ch; [tauto|discriminate]| |]; eexists; (split; [reflexivity|]); auto.
Qed.

(** What a job does next needs the connection. *)
Definition needs_proto (c : TConnection) : bool :=
  negb (started c) || match prog c with PRecv _ => false | _ => true end.

Definition sends (c : TConnection) : bool := started c && match prog c with PSend _ _ => true | _ => false end.

Lemma job_turn_destroyed status_first (p : proto) x : (running p = true -> forall c, conns p !! x = Some c -> sends c = false) ->
  (job_turn NewChunk status_first x p = None <-> conns p !! x = None \/ (running p = false /\ exists c, conns p !! x = Some c /\ needs_proto c = true)).
Proof.
  intros Hs. unfold job_turn. destruct (conns p !! x) as [c|]; [|split; auto]. cbn. specialize (fun Hr => Hs Hr c eq_refl).
  assert (Hn : (Some c = None \/ running p = false /\ (exists c0, Some c = Some c0 /\ needs_proto c0 = true)) <-> running p = false /\ needs_proto c = true).
  { split; [intros [F|[Hr (c0&E&Hc)]]; [discriminate|injection E as <-; auto]|]. intros [Hr Hc]. right. eauto. }
  rewrite Hn. clear Hn. unfold needs_proto, sends in *. destruct (started c); cbn [negb andb orb] in *.
  - destruct (prog c) as [u|e u|k|lst k]; cbn in *.
    + destruct (running p); [|tauto]. destruct (send_ok (Output p) (save_data (fin_frame (StreamID c)))) as (o'&E&_). unfold send_data, send. rewrite E. cbn. split; [discriminate|intros [? _]; discriminate].
    + destruct (running p); [|tauto]. destruct (send_rst_sent p (StreamID c) INTERNAL_ERROR) as (p3&->&_). split; [discriminate|intros [? _]; discriminate].
    + destruct (Pop (Q_ c)) as [[l q]|]; (split; [discriminate|intros [_ F]; discriminate]).
    + destruct (running p); [|tauto]. specialize (Hs eq_refl). discriminate.
  - destruct (running p); [|tauto]. split; [discriminate|intros [F _]; discriminate].
Qed.

(** A job that ends destroys its stream and leaves the pointer in the map. *)
Lemma job_turn_ends status_first (p : proto) x c p' : conns p !! x = Some c -> started c = true ->
  match prog c with PRet _ | PThrow _ _ => true | _ => false end = true -> job_turn NewChunk status_first x p = Some (Some p') ->
  conns p' !! x = None /\ connmap p' = connmap p /\ input p' = input p /\ running p' = running p.
Proof.
  intros Ec Hs Hp E. unfold job_turn in E. rewrite Ec, Hs in E. cbn in E. destruct (prog c) as [u|e u|k|lst k]; [| |discriminate|discriminate]; (destruct (running p) eqn:Hr; [|discriminate]).
  - destruct (send_ok (Output p) (save_data (fin_frame (StreamID c)))) as (o'&Eo&_). unfold send_data, send in E. rewrite Eo in E. injection E as <-. cbn. rewrite lookup_delete_eq. auto.
  - destruct (send_rst_sent p (StreamID c) INTERNAL_ERROR) as (p3&E3&Hi&Hm&_&Hru&_). rewrite E3 in E. injection E as <-. cbn. rewrite lookup_delete_eq. conj; auto. congruence.
Qed.

(** A stream whose number is in use is destroyed, its job is not. *)
Lemma on_syn_stream_refused (p : proto) ctl x p1 c y : new_connection NewChunk module ctl (count_spdy p) = Some (Ret x, p1) -> conns p1 !! x = Some c ->
  intmap_get (connmap p1) (StreamID c) = Some y ->
  match conns p1 !! y with
  | None => on_syn_stream NewChunk module ctl p = None
  | Some _ => exists p', on_syn_stream NewChunk module ctl p = Some (Ret tt, p') /\ x ∈ jobs p' /\ conns p' !! x = None
  end.
Proof.
  intros E Ec Ey. unfold on_syn_stream. rewrite E, Ec. cbn. rewrite Ey. unfold on_conn. destruct (conns p1 !! y) as [cy|]; [|auto]. cbn.
  assert (Hj : x ∈ jobs p1).
  { unfold new_connection in E. destruct (read_syn_stream _ _ _) as [[[[i rq]|e] q]|]; [|discriminate|discriminate].
    cbv zeta in E. set (z := fresh _) in E. clearbody z. set (d := <[z := _]> (conns q)) in E. clearbody d.
    injection E as <- <-. cbn [jobs set_jobs]. apply elem_of_app. right. apply list_elem_of_singleton. auto. }
  match goal with |- context [SendRst ?a ?b ?q] => destruct (send_ok (Output q) (control_frame RST_STREAM (save_rst (mk_rst a b)))) as (o'&Eo&_) end.
  unfold SendRst, send. cbn [Output set_conns] in Eo. cbn [Output set_conns]. rewrite Eo. cbn. eexists. split; [reflexivity|]. cbn. split; [exact Hj|]. apply lookup_delete_eq.
Qed.
End demux.
