(* ===== verification/HSpdyBlocks.v ===== *)
(** * SPDY module: streams that are opened

    A header block is read from one chunk, so its keys and values are chunks of their own;
    the request it stands for is given by the three special fields.  [Inflating] is what the
    module relies on of zlib; a stream frame is then opened as the client meant it, unless an
    empty chunk comes to the decompressor. *)

From Stdlib Require Import ZArith Lia Bool String.
From stdpp Require Import base numbers list gmap.
From S2P Require Import Prelude HChunks HStream HLaws HHttp HParse HRequest HHeaders HServer HEncoder HSpdy HSpdyLoop HSpdySpec.

(** ** Reading from one chunk *)

Definition one (s : list Z) : TChunkList := match s with [] => [] | _ => [s] end.

Notation within s := (mk_iterator NullInstance (one s)).

Lemma flat_of_one s : flat (one s) = s.
Proof. destruct s; [reflexivity|]. unfold one. rewrite flat_cons, flat_nil, app_nil_r. auto. Qed.

Lemma one_not_nil s : s <> [] -> one s = [s].
Proof. destruct s; [tauto|auto]. Qed.

Lemma Split_one b rest : b <> [] -> Split (zlen b) (one (b ++ rest)) = (one b, one rest).
Proof.
  intros Hb. rewrite (one_not_nil (b ++ rest)), (one_not_nil b) by (destruct b; [tauto|discriminate]). unfold Split. cbn [SplitUnsafe app].
  rewrite zlen_app. pose proof (zlen_nonneg rest). destruct (Z.leb_spec (zlen b + zlen rest) (zlen b)) as [Hl|Hl].
  - assert (rest = []) as -> by (apply zlen_0; lia). rewrite app_nil_r. auto.
  - assert (rest <> []) by (intros ->; rewrite zlen_nil in *; lia). rewrite (one_not_nil rest) by auto. unfold MoveTo. cbn [app].
    rewrite SubChunk_prefix, <- zlen_app, SubChunk_suffix by (pose proof (zlen_nonneg b); lia). unfold zlen. rewrite Nat2Z.id, take_app_length, drop_app_length. auto.
Qed.

Lemma NextLen_one b rest : b <> [] -> NextLen (zlen b) (within (b ++ rest)) = (Ret (one b), within rest).
Proof.
  intros Hb. unfold NextLen, Peek. cbn [L_]. rewrite (one_not_nil (b ++ rest)) by (destruct b; [tauto|discriminate]). cbn [L_ S_].
  rewrite <- (one_not_nil (b ++ rest)), Split_one by (destruct b; [tauto|discriminate]) || auto. auto.
Qed.

Lemma ReadToken_one b rest : b <> [] -> ReadToken (zlen b) (within (b ++ rest)) = Some (Ret (big_endian b), within rest).
Proof.
  intros Hb. unfold ReadToken, Read. assert (Hl : 0 < zlen b) by (destruct b; [tauto|unfold zlen; cbn; lia]).
  destruct (Z.to_nat (zlen b)) as [|n] eqn:En; [lia|]. cbn [Read_loop]. destruct (Z.eqb_spec (zlen b) 0); [lia|].
  unfold ReadSome. rewrite NextLen_one by auto. cbv beta iota.
  rewrite CopyData_take, flat_of_one by lia. rewrite take_ge by (unfold zlen; lia).
  destruct b as [|x b]; [tauto|]. cbv iota beta. rewrite Z.sub_diag. destruct n; reflexivity.
Qed.

Lemma ReadList_one s rest : ReadList (zlen s) [] (within (s ++ rest)) = Some (Ret (one s), within rest).
Proof.
  unfold ReadList. destruct s as [|x s]; [reflexivity|]. remember (x :: s) as b. assert (Hb : b <> []) by (subst; discriminate).
  assert (Hl : 0 < zlen b) by (subst; unfold zlen; cbn; lia). destruct (Z.to_nat (zlen b)) as [|n] eqn:En; [lia|]. cbn [ReadList_loop].
  destruct (Z.eqb_spec (zlen b) 0); [lia|]. rewrite NextLen_one by auto. cbv beta iota zeta. rewrite FullLength_flat, flat_of_one.
  destruct (Z.eqb_spec (zlen b) 0); [lia|]. rewrite Z.sub_diag. unfold MoveTo. cbn [app]. destruct n; reflexivity.
Qed.

(** ** Header blocks *)

Notation pair_of := (list Z * list Z)%type.

Definition encode_string (s : list Z) : list Z := save16 (zlen s) ++ s.
Definition encode_pair (kv : pair_of) : list Z := encode_string (fst kv) ++ encode_string (snd kv).
Definition encode_block (kvs : list pair_of) : list Z := save16 (zlen kvs) ++ concat (map encode_pair kvs).

Definition short (s : list Z) : Prop := zlen s < 2 ^ 16.
Definition short_pair (kv : pair_of) : Prop := short (fst kv) /\ short (snd kv).

Lemma ReadString_one s rest : short s -> ReadString (within (encode_string s ++ rest)) = Some (Ret (one s), within rest).
Proof.
  intros Hs. unfold ReadString, encode_string. rewrite <- app_assoc. change 2 with (zlen (save16 (zlen s))).
  rewrite ReadToken_one, big_endian_save16 by (discriminate || (pose proof (zlen_nonneg s); unfold short in Hs; lia)). apply ReadList_one.
Qed.

Definition add_pair (b : block) (kv : pair_of) : block := add_field b (one (fst kv)) (one (snd kv)).

Lemma read_fields_one kvs b rest : Forall short_pair kvs ->
  read_fields (length kvs) b (within (concat (map encode_pair kvs) ++ rest)) = Some (Ret (fold_left add_pair kvs b), within rest).
Proof.
  intros Hs. revert b. induction Hs as [|[k v] kvs [Hk Hv] Hs IH]; intros b; [reflexivity|]. cbn [length read_fields map concat]. unfold encode_pair at 1. cbn [fst snd] in *.
  rewrite <- !app_assoc, ReadString_one, ReadString_one by auto. apply IH.
Qed.

Lemma parse_block_one kvs rest : Forall short_pair kvs -> zlen kvs < 2 ^ 16 ->
  parse_block (within (encode_block kvs ++ rest)) = Some (block_request (fold_left add_pair kvs (mk_block [] [] [] [])), within rest).
Proof.
  intros Hs Hn. unfold parse_block, encode_block. rewrite <- app_assoc. change 2 with (zlen (save16 (zlen kvs))).
  rewrite ReadToken_one, big_endian_save16 by (discriminate || (pose proof (zlen_nonneg kvs); lia)). unfold zlen. rewrite Nat2Z.id, read_fields_one by auto. auto.
Qed.

(** What the fields make of the block. *)
Definition is_key (k : string) (kv : pair_of) : bool := bool_decide (fst kv = bytes k).

Lemma list_equal_one (k : string) s v : list_equal (one s) (bytes k) = is_key k (s, v).
Proof.
  unfold is_key. apply eq_bool_prop_intro. rewrite bool_decide_spec. cbn [fst]. rewrite <- (flat_of_one s) at 2. rewrite <- list_equal_flat. apply Is_true_true.
Qed.

Definition header_of (kv : pair_of) : list THeader :=
  if is_key "method" kv then [] else if is_key "url" kv then [mk_header [bytes "host"] (fst (SplitUrl (one (snd kv))))]
  else if is_key "version" kv then [] else [mk_header (one (fst kv)) (one (snd kv))].

Lemma add_pair_fields kv b : add_pair b kv =
  mk_block (if is_key "method" kv then one (snd kv) else method b)
    (if is_key "url" kv then request b ++ snd (SplitUrl (one (snd kv))) else request b)
    (if is_key "version" kv then one (snd kv) else version b) (fields_ b ++ header_of kv).
Proof.
  destruct kv as [k v]. unfold add_pair, add_field, header_of. cbn [fst snd]. rewrite !(list_equal_one _ k v).
  assert (Hd : forall s t, bytes s <> bytes t -> is_key s (k, v) = true -> is_key t (k, v) = false).
  { intros s t Hst. unfold is_key. cbn [fst]. rewrite bool_decide_eq_true, bool_decide_eq_false. congruence. }
  destruct (is_key "method" (k, v)) eqn:E1; [|destruct (is_key "url" (k, v)) eqn:E2; [|destruct (is_key "version" (k, v)) eqn:E3]];
    rewrite ?(Hd "method"%string "url"%string), ?(Hd "method"%string "version"%string), ?(Hd "url"%string "version"%string), ?app_nil_r by (auto; discriminate); auto.
  destruct (SplitUrl (one v)); auto.
Qed.

Definition of_key (k : string) (kvs : list pair_of) : list pair_of := List.filter (is_key k) kvs.

Lemma fold_fields kvs b : fold_left add_pair kvs b =
  mk_block (fold_left (fun _ kv => one (snd kv)) (of_key "method" kvs) (method b))
    (fold_left (fun r kv => r ++ snd (SplitUrl (one (snd kv)))) (of_key "url" kvs) (request b))
    (fold_left (fun _ kv => one (snd kv)) (of_key "version" kvs) (version b)) (fields_ b ++ concat (map header_of kvs)).
Proof.
  revert b. induction kvs as [|kv kvs IH]; intros b; [cbn; rewrite app_nil_r; destruct b; auto|]. cbn [fold_left map concat of_key List.filter].
  rewrite IH, add_pair_fields. cbn [method request version fields_]. rewrite <- app_assoc.
  destruct (is_key "method" kv), (is_key "url" kv), (is_key "version" kv); auto.
Qed.

(** ** Addresses *)

Lemma split_at_found d l r : ~ In d l -> split_at d (l ++ d :: r) = Some (l, r).
Proof.
  induction l as [|x l IH]; intros Hd; cbn; [rewrite Z.eqb_refl; auto|]. cbn in Hd. destruct (Z.eqb_spec x d); [tauto|]. rewrite IH by tauto. auto.
Qed.

Definition url_of (scheme host path : list Z) : list Z := scheme ++ bytes "://" ++ host ++ bytes "/" ++ path.

Lemma SplitUrl_url scheme host path : ~ In COLON scheme -> ~ In 47 host -> SplitUrl (one (url_of scheme host path)) = ([host], [bytes "/" ++ path]).
Proof.
  intros Hs Hh. unfold url_of. rewrite one_not_nil by (destruct scheme; discriminate). unfold SplitUrl, After. change (bytes "://") with [COLON; 47; 47]. cbn [app].
  rewrite split_at_found by auto. cbn [drop]. unfold SplitStr.
  rewrite drop_0. change (bytes "/") with [47]. cbn [app drop]. rewrite split_at_found by auto. destruct path; auto.
Qed.

(** The fields besides the special ones, and the host. *)
Definition spdy_fields (host : list Z) (kvs : list pair_of) : list pair_of :=
  concat (map (fun kv => if is_key "method" kv then [] else if is_key "url" kv then [(bytes "host", host)] else if is_key "version" kv then [] else [kv]) kvs).

Record block_of (m scheme host path v : list Z) (kvs : list pair_of) : Prop := {
  the_method : of_key "method" kvs = [(bytes "method", m)];
  the_url : of_key "url" kvs = [(bytes "url", url_of scheme host path)];
  the_version : of_key "version" kvs = [(bytes "version", v)];
  nonempty : m <> [] /\ v <> [];
  delimited : ~ In COLON scheme /\ ~ In 47 host;
  shorts : Forall short_pair kvs /\ zlen kvs < 2 ^ 16 }.

Lemma headers_of_block m scheme host path v kvs : block_of m scheme host path v kvs ->
  map (fun h => (flat (Key h), flat (Value h))) (concat (map header_of kvs)) = spdy_fields host kvs.
Proof.
  intros B. destruct (delimited _ _ _ _ _ _ B) as [Hs Hh].
  assert (Hu : forall kv, In kv kvs -> is_key "url" kv = true -> snd kv = url_of scheme host path).
  { intros kv Hi Hk. pose proof (proj2 (filter_In (is_key "url") kv kvs) (conj Hi Hk)) as Hf. change (List.filter _ kvs) with (of_key "url" kvs) in Hf.
    rewrite (the_url _ _ _ _ _ _ B) in Hf. destruct Hf as [<-|[]]. auto. }
  clear B. unfold spdy_fields. induction kvs as [|kv kvs IH]; [reflexivity|]. cbn [map concat]. rewrite map_app, IH by (intros x Hx; apply Hu; right; auto). f_equal.
  unfold header_of. destruct (is_key "method" kv); [auto|]. destruct (is_key "url" kv) eqn:Eu.
  - rewrite (Hu kv (or_introl eq_refl) Eu), SplitUrl_url by auto. cbn [map fst Key Value]. rewrite !flat_cons, flat_nil, !app_nil_r. auto.
  - destruct (is_key "version" kv); [auto|]. cbn [map Key Value]. rewrite !flat_of_one. destruct kv; auto.
Qed.

(** The block of a request is read as that request. *)
Lemma parse_block_request m scheme host path v kvs rest : block_of m scheme host path v kvs ->
  exists req, parse_block (within (encode_block kvs ++ rest)) = Some (Ret req, within rest) /\
    flatten req = mk_flat (m ++ [SP] ++ bytes "/" ++ path ++ [SP] ++ v) (spdy_fields host kvs).
Proof.
  intros B. destruct (shorts _ _ _ _ _ _ B) as [H1 H2]. rewrite parse_block_one, fold_fields by auto. cbn [method request version fields_].
  pose proof (headers_of_block _ _ _ _ _ _ B) as Hh. destruct (nonempty _ _ _ _ _ _ B) as [Hm Hv], (delimited _ _ _ _ _ _ B) as [Hd1 Hd2].
  rewrite (the_method _ _ _ _ _ _ B), (the_url _ _ _ _ _ _ B), (the_version _ _ _ _ _ _ B). cbn [fold_left snd].
  rewrite SplitUrl_url, (one_not_nil m), (one_not_nil v) by auto. unfold block_request. cbn [method request version fields_ app snd].
  eexists. split; [reflexivity|]. unfold flatten. cbn [Request_ Headers_ app]. fold (spdy_fields host kvs). f_equal; [|exact Hh]. unfold MoveTo. cbn [app].
  rewrite !flat_cons, flat_nil, app_nil_r. cbn [app]. rewrite <- ?app_assoc. auto.
Qed.

(** ** Decompression *)

Definition Z_BUF_ERROR : Z := -5.

(** [inflates z s out z']: in state [z] the compressed bytes [s] stand for [out].  Input may
    come in pieces; with room for the output all of it is consumed, after the dictionary
    has been given when it is asked for; a call without input is an error. *)
Class Inflating (HZ : Zlib) := {
  inflates : zstream -> list Z -> list Z -> zstream -> Prop;
  inflates_nil : forall z out z', inflates z [] out z' -> out = [] /\ z' = z;
  inflates_app : forall z s1 s2 out z', inflates z (s1 ++ s2) out z' ->
    exists out1 out2 zm, inflates z s1 out1 zm /\ inflates zm s2 out2 z' /\ out = out1 ++ out2;
  inflate_input : forall z s out z' room, inflates z s out z' -> s <> [] -> zlen out <= room ->
    (exists rest, inflate z s room = (Z_OK, out, rest, z')) \/
    (exists rest z1 dict z2 rest', inflate z s room = (Z_NEED_DICT, [], rest, z1) /\ TDicts (adler z1) = Some dict /\
       inflateSetDictionary z1 dict = (Z_OK, z2) /\ inflate z2 rest room = (Z_OK, out, rest', z'));
  inflate_no_input : forall z s out z' room, inflates z s out z' -> inflate z [] room = (Z_BUF_ERROR, [], [], z) }.

Section inflate.
Context {HZ : Zlib} {HL : Inflating HZ}.

Lemma inflate_chunk_input z s out z' room : inflates z s out z' -> s <> [] -> zlen out <= room -> inflate_chunk z s room = (Z_OK, out, z').
Proof.
  intros Hi Hs Hr. unfold inflate_chunk. destruct (inflate_input _ _ _ _ _ Hi Hs Hr) as [(rest&->)|(rest&z1&dict&z2&rest'&->&E1&E2&E3)]; [reflexivity|].
  change (Z_NEED_DICT =? Z_NEED_DICT) with true. cbv iota. rewrite E1, E2. cbn [Z.eqb Z_OK]. rewrite zlen_nil, Z.sub_0_r, E3. auto.
Qed.

Lemma Decompress_loop_pieces l z out z' room acc : inflates z (flat l) out z' -> zlen out <= room ->
  if HaveEmptyChunks l then exists z1, Decompress_loop z l room acc = (Throw yexception, z1)
  else Decompress_loop z l room acc = (Ret (acc ++ out), z').
Proof.
  revert z out room acc. induction l as [|c l IH]; intros z out room acc Hi Hr.
  - apply inflates_nil in Hi as [-> ->]. cbn. rewrite app_nil_r. auto.
  - rewrite flat_cons in Hi. cbn [HaveEmptyChunks existsb Decompress_loop]. fold (HaveEmptyChunks l). destruct (Z.eqb_spec (zlen c) 0) as [E|E].
    + apply zlen_0 in E as ->. unfold inflate_chunk. rewrite (inflate_no_input _ _ _ _ room Hi). cbn. eauto.
    + apply inflates_app in Hi as (out1&out2&zm&H1&H2&->). rewrite zlen_app in Hr. pose proof (zlen_nonneg out1). pose proof (zlen_nonneg out2).
      rewrite (inflate_chunk_input _ _ _ _ _ H1) by (lia || (intros ->; apply E; reflexivity)). cbn [orb]. rewrite Z.eqb_refl.
      specialize (IH zm out2 (room - zlen out1) (acc ++ out1) H2 ltac:(lia)). destruct (HaveEmptyChunks l); [auto|]. rewrite IH, <- app_assoc. auto.
Qed.

Lemma Decompress_pieces NewChunk l z out z' : inflates z (flat l) out z' -> zlen out <= NewChunk (zlen (flat l) * 4) ->
  if HaveEmptyChunks l then exists z1, Decompress NewChunk z l = (Throw yexception, z1) else Decompress NewChunk z l = (Ret [out], z').
Proof.
  intros Hi Hr. unfold Decompress. rewrite FullLength_flat. pose proof (Decompress_loop_pieces l z out z' _ [] Hi Hr) as H.
  destruct (HaveEmptyChunks l); [destruct H as (z1&->); eauto|rewrite H; auto].
Qed.
End inflate.

(** ** Opening a stream *)

Definition encode_syn (id assoc prio flags : Z) (packed : list Z) : list Z :=
  save32 (control_word SYN_STREAM) ++ save32 (flags * 2 ^ 24 + (zlen packed + 10)) ++ save32 id ++ save32 assoc ++ save16 prio ++ packed.

Section open.
Context {I O : Type} `{CleanLaws I} `{OutputLaws O} {HZ : Zlib} {HL : Inflating HZ}.
Context (NewChunk : Z -> Z) (module : TRequest -> Prog unit).

Notation proto := (TProto I O).

Lemma word16 v (p : proto) rest : 0 <= v < 2 ^ 16 -> at_input p (save16 v ++ rest) ->
  exists it, from_input (ReadToken 2) p = Some (Ret v, set_input p it) /\ at_input (set_input p it) rest.
Proof. intros Hv Ha. destruct (input_token p (save16 v) rest Ha) as (it&R&Ha'). rewrite big_endian_save16 in R by auto. eauto. Qed.

(** [SYN_STREAM] after its control header. *)
Lemma read_syn_stream_spec ctl (p : proto) id assoc prio packed rest m scheme host path v kvs z' :
  0 <= id < 2 ^ 32 -> 0 <= assoc < 2 ^ 32 -> 0 <= prio < 2 ^ 16 -> zlen packed < 2 ^ 24 - 10 -> Length24 (ctl_Field2 ctl) = zlen packed + 10 ->
  block_of m scheme host path v kvs -> inflates (Inflate p) packed (encode_block kvs) z' -> zlen (encode_block kvs) <= NewChunk (zlen packed * 4) ->
  at_input p (save32 id ++ save32 assoc ++ save16 prio ++ packed ++ rest) ->
  exists l it req, flat l = packed /\ at_input (set_input p it) rest /\
    flatten req = mk_flat (m ++ [SP] ++ bytes "/" ++ path ++ [SP] ++ v) (spdy_fields host kvs) /\
    if HaveEmptyChunks l then exists z1, read_syn_stream NewChunk ctl p = Some (Throw yexception, set_inflate (set_input p it) z1)
    else read_syn_stream NewChunk ctl p = Some (Ret (id, req), set_inflate (set_input p it) z').
Proof.
  intros Hid Has Hpr Hpk Hlen HB Hinf Hroom Ha. unfold read_syn_stream. rewrite Hlen. pose proof (zlen_nonneg packed).
  replace (u64 (zlen packed + 10 - 10)) with (zlen packed) by (unfold u64; rewrite Z.mod_small; lia).
  destruct (word32 _ _ _ Hid Ha) as (it1&->&Ha1). destruct (word32 _ _ _ Has Ha1) as (it2&->&Ha2). destruct (word16 _ _ _ Hpr Ha2) as (it3&->&Ha3).
  destruct (input_list _ packed rest Ha3) as (l&it&->&Hl&Ha4). destruct (parse_block_request m scheme host path v kvs [] HB) as (req&Ep&Er).
  rewrite app_nil_r in Ep. exists l, it, req. split; [auto|]. split; [exact Ha4|]. split; [auto|]. cbn [set_input Inflate] in *.
  rewrite <- Hl in Hinf, Hroom. pose proof (Decompress_pieces NewChunk l _ _ _ Hinf Hroom) as HD. destruct (HaveEmptyChunks l).
  - destruct HD as (z1&->). exists z1. reflexivity.
  - rewrite HD. rewrite <- (one_not_nil (encode_block kvs)) by discriminate. rewrite Ep. reflexivity.
Qed.

(** A turn of the loop on a stream frame. *)
Lemma syn_turn (p : proto) id assoc prio flags packed rest m scheme host path v kvs z' :
  0 <= id < 2 ^ 32 -> 0 <= assoc < 2 ^ 32 -> 0 <= prio < 2 ^ 16 -> 0 <= flags < 256 -> zlen packed < 2 ^ 24 - 10 ->
  block_of m scheme host path v kvs -> inflates (Inflate p) packed (encode_block kvs) z' -> zlen (encode_block kvs) <= NewChunk (zlen packed * 4) ->
  intmap_get (connmap p) id = None -> at_input p (encode_syn id assoc prio flags packed ++ rest) ->
  exists l p', flat l = packed /\ loop_turn NewChunk module p = Some p' /\ at_input p' rest /\ Output p' = Output p /\
    if HaveEmptyChunks l then running p' = false /\ conns p' = conns p /\ jobs p' = jobs p
    else exists x req, flatten req = mk_flat (m ++ [SP] ++ bytes "/" ++ path ++ [SP] ++ v) (spdy_fields host kvs) /\
      conns p !! x = None /\ x ∉ jobs p /\ jobs p' = jobs p ++ [x] /\ running p' = running p /\ connmap p' = intmap_set (connmap p) id x /\
      conns p' = <[x := mk_conn id req (mk_queue (is_fin flags) []) parse_init (module req) false]> (conns p).
Proof.
  intros Hid Has Hpr Hfl Hpk HB Hinf Hroom Hnew Ha. pose proof (zlen_nonneg packed) as Hz.
  unfold loop_turn. destruct (Peek (input p)) as [k it] eqn:Epk. destruct Ha as [Hok Hc]. apply Peek_spec in Epk as (Hok1&Hc1&_&Hpk'); [|auto].
  rewrite Hc in Hpk', Hc1. destruct k as [[|]|e]; [|destruct Hpk' as (_&F&_); discriminate F..].
  assert (Ha : at_input (set_input p it) (encode_syn id assoc prio flags packed ++ rest)) by (split; auto). clear Hpk' Hc1 Hok1 Hc Hok.
  unfold on_frame, encode_syn in *. rewrite <- !app_assoc in Ha. destruct (type_word SYN_STREAM ltac:(unfold SYN_STREAM; lia)) as (T1&T2&T3).
  destruct (word32 _ _ _ T1 Ha) as (it1&->&Ha1). rewrite T2. cbn [Z.eqb negb]. destruct (word_fields flags (zlen packed + 10)) as (F1&F2&F3); [auto|lia|].
  destruct (read_control_wire _ (control_word SYN_STREAM) _ _ F1 Ha1) as (it2&->&Ha2). cbn [ctl_Field1]. rewrite T3, Z.eqb_refl. cbv iota.
  unfold on_syn_stream, new_connection. set (ctl := mk_ctl _ _) in *. set (p2 := count_spdy _).
  assert (Ha3 : at_input p2 (save32 id ++ save32 assoc ++ save16 prio ++ packed ++ rest)) by exact Ha2.
  destruct (read_syn_stream_spec ctl p2 id assoc prio packed rest m scheme host path v kvs z') as (l&it3&req&Hl&Ha4&Hreq&HD); auto.
  exists l. destruct (HaveEmptyChunks l).
  - destruct HD as (z1&->). eexists. split; [auto|]. split; [reflexivity|]. split; [exact Ha4|]. conj; auto.
  - rewrite HD. cbn [ctl_Field2 ctl]. subst ctl. rewrite F3. fold (is_fin flags). set (x := fresh _). set (c := if is_fin flags then _ else _).
    cbn [set_jobs set_conns conns set_inflate set_input p2 count_spdy]. rewrite lookup_insert_eq.
    assert (Hc : c = mk_conn id req (mk_queue (is_fin flags) []) parse_init (module req) false) by (unfold c; destruct (is_fin flags); reflexivity).
    assert (Hx : x ∉ dom (conns p) ∪ list_to_set (jobs p)) by apply is_fresh.
    rewrite Hc. cbn [StreamID]. match goal with |- context [intmap_get (connmap ?q) id] => change (connmap q) with (connmap p) end. rewrite Hnew. eexists. split; [auto|]. split; [reflexivity|].
    split; [exact Ha4|]. split; [auto|]. exists x, req. rewrite not_elem_of_union, not_elem_of_dom, not_elem_of_list_to_set in Hx. conj; tauto || auto.
Qed.
End open.

(** ** Replies *)

(** The block a response is sent as. *)
Definition reply_pairs (status_first : bool) (r : flat_request) : list pair_of :=
  let s := (bytes "status", drop 9 (line r)) in
  let v := (bytes "version", take 8 (line r)) in
  map (fun kv => (map lower (fst kv), snd kv)) (fields r) ++ (if status_first then [s; v] else [v; s]).

Lemma save_field_flat h : short_pair (flat_header h) -> flat (save_field h) = encode_pair (map lower (flat (Key h)), flat (Value h)).
Proof.
  intros [Hk Hv]. unfold save_field, SaveLowerCase, encode_pair, encode_string, u16, short, flat_header in *. cbn [fst snd] in *.
  rewrite !FullLength_flat, !Z.mod_small by (pose proof (zlen_nonneg (flat (Key h))); pose proof (zlen_nonneg (flat (Value h))); lia).
  autorewrite with chunks. cbn [app]. rewrite ?app_nil_r. unfold zlen. rewrite length_map. reflexivity.
Qed.

Lemma save_fields_flat hs : Forall short_pair (map flat_header hs) ->
  flat (concat (map save_field hs)) = concat (map encode_pair (map (fun kv => (map lower (fst kv), snd kv)) (map flat_header hs))).
Proof.
  induction hs as [|h hs IH]; intros Hs; [reflexivity|]. apply Forall_cons in Hs as [Hh Hs]. cbn [map concat]. rewrite flat_app, IH, save_field_flat by auto. auto.
Qed.

Lemma lower_status : map lower (bytes "status") = bytes "status" /\ map lower (bytes "version") = bytes "version".
Proof. split; reflexivity. Qed.

Lemma SaveHeaders_flat status_first (r : TRequest) : Forall short_pair (fields (flatten r)) -> short (line (flatten r)) -> zlen (fields (flatten r)) < 2 ^ 16 - 2 ->
  flat (SaveHeaders status_first r) = encode_block (reply_pairs status_first (flatten r)).
Proof.
  intros Hs Hl Hn. unfold SaveHeaders, SplitRequest, reply_pairs, encode_block. cbn [flatten line fields] in *.
  destruct (Split 8 (Request_ r)) as [ver tmp] eqn:E1, (Split 1 tmp) as [x st] eqn:E2.
  apply Split_flat in E1 as [V1 V2]; [|lia]. apply Split_flat in E2 as [_ S2]; [|lia]. rewrite V2, drop_drop in S2.
  change (Z.to_nat 8 + Z.to_nat 1)%nat with 9%nat in S2. change (Z.to_nat 8) with 8%nat in V1.
  set (hs := Headers_ r ++ _). set (line0 := flat (Request_ r)) in *.
  assert (Hst : short (drop 9 line0) /\ short (take 8 line0)) by (unfold short, zlen in *; rewrite length_drop, length_take; lia).
  assert (Hhs : map flat_header hs = map flat_header (Headers_ r) ++ (if status_first then [(bytes "status", drop 9 line0); (bytes "version", take 8 line0)]
      else [(bytes "version", take 8 line0); (bytes "status", drop 9 line0)])).
  { unfold hs. rewrite map_app. destruct status_first; cbn [map]; unfold flat_header; cbn [Key Value]; rewrite S2, V1; auto. }
  rewrite flat_app, save_fields_flat, Hhs, map_app.
  - unfold flat at 1. cbn [concat]. rewrite app_nil_r. f_equal.
    + f_equal. unfold u16. rewrite Z.mod_small; [unfold hs, zlen; rewrite !length_app, !length_map; destruct status_first; reflexivity|].
      unfold hs. rewrite length_app. unfold zlen in Hn. rewrite length_map in Hn. destruct status_first; cbn [length]; lia.
    + f_equal. f_equal. f_equal. destruct status_first; cbn [map fst snd]; rewrite (proj1 lower_status), (proj2 lower_status); auto.
  - rewrite Hhs. apply Forall_app. split; [auto|]. destruct Hst. destruct status_first; repeat constructor; cbn [fst snd]; auto; vm_compute; auto.
Qed.

Section reply.
Context {I O : Type} {HI : IIoInput I} `{OutputLaws O} {HZ : Zlib}.
Context (NewChunk : Z -> Z) (status_first : bool).

(** What a job sends in one piece, head and body. *)
Lemma conn_send_response (p : TProto I O) (c : TConnection) lst resp body :
  C_ c = parse_init -> 0 <= StreamID c < 2 ^ 31 -> zlen body < 2 ^ 24 -> flat_parse Start flat_empty (flat lst) = FDone resp body ->
  exists ctx, flatten (Request ctx) = resp /\ InFinalState ctx = false /\
  match save_reply NewChunk status_first (StreamID c) (Request ctx) (Deflate p) with
  | (Throw e, z) => conn_send NewChunk status_first c lst p = Some (Throw e, ctx, set_deflate p z)
  | (Ret reply, z) => exists p', conn_send NewChunk status_first c lst p = Some (Ret tt, ctx, p') /\ Deflate p' = z /\
      sent (Output p') = sent (Output p) ++ flat (control_frame SYN_REPLY reply) ++ encode (WData (StreamID c) 0 body)
  end.
Proof.
  intros Hc Hid Hlen Hp. unfold conn_send. rewrite Hc. change (InFinalState parse_init) with false. cbv iota. unfold push_ParseChunk.
  destruct (ParseChunk_spec parse_init flat_empty lst parse_init_between) as (res&c'&EP&P). rewrite EP.
  apply ParseChunk_not_final in EP; [|discriminate]. change (cs parse_init) with Start in P. rewrite Hp in P.
  destruct P as (->&P1&P2&_). cbn in P2. set (ctx := mk_ctx _ _ _ _ _). exists ctx. split; [exact P1|]. split; [apply bool_decide_eq_false; exact EP|]. cbn [Request ctx]. unfold OnHeaders.
  destruct (save_reply NewChunk status_first (StreamID c) (Request c') (Deflate p)) as [[reply|e] z]; [|reflexivity].
  unfold send_data, send. cbn [set_deflate Output]. destruct (send_ok (Output p) (control_frame SYN_REPLY reply)) as (o1&->&Hs1).
  cbn [set_output Output]. destruct (send_ok o1 (save_data (data_frame (StreamID c) (Unparsed c')))) as (o2&->&Hs2).
  eexists. split; [reflexivity|]. cbn [set_output Output Deflate set_deflate]. split; [auto|].
  rewrite Hs2, Hs1, <- app_assoc. unfold data_frame. rewrite save_data_encode by (rewrite ?P2; auto). rewrite P2. auto.
Qed.
End reply.
