(* ===== verification/HSpdyTheorems.v ===== *)
(** * SPDY module: the properties

    What the loop over the frames and the jobs of the streams do, and the uses of destroyed
    objects that some schedules of them contain. *)

From Stdlib Require Import ZArith Lia Bool String.
From stdpp Require Import base numbers list gmap.
From S2P Require Import Prelude HChunks HStream HLaws HHttp HParse HRequest HHeaders HServer HEncoder HSpdy HSpdyLoop HSpdySpec HSpdyBlocks.

(** ** The map of the loop *)

Definition intmap_wf (m : TIntMap) : Prop := zlen (T_ m) = ARRAY_SIZE.

Lemma intmap_get_set m n x k : intmap_wf m -> 0 <= n -> 0 <= k ->
  intmap_get (intmap_set m n x) k = (if n =? k then Some x else intmap_get m k) /\ intmap_wf (intmap_set m n x).
Proof.
  intros Hw Hn Hk. unfold intmap_wf, intmap_get, intmap_set in *. destruct (Z.ltb_spec n ARRAY_SIZE) as [Hs|Hs]; cbn [T_ H_].
  - destruct (zset_is_Some (T_ m) n (Some x)) as (t&Et); [lia|]. rewrite Et. cbn [from_option id T_]. split; [|rewrite (zlen_zset _ _ _ _ Et); auto].
    destruct (Z.eqb_spec n k) as [<-|Hne].
    + destruct (Z.ltb_spec n ARRAY_SIZE); [|lia]. rewrite (zget_zset_eq _ _ _ _ Et). auto.
    + rewrite (zget_zset_ne _ _ _ _ _ Et Hne). auto.
  - split; [|auto]. destruct (Z.ltb_spec k ARRAY_SIZE) as [Hk'|Hk'].
    + destruct (Z.eqb_spec n k); [lia|auto].
    + destruct (Z.eqb_spec n k) as [<-|Hne]; [rewrite lookup_insert_eq; auto|]. rewrite lookup_insert_ne by auto. destruct (H_ m); [auto|apply lookup_empty].
Qed.

(** ** A compressor that changes nothing *)

Definition stored : Zlib := {|
  zstream := unit;
  inflate := fun z s room => match s with [] => (Z_BUF_ERROR, [], [], z) | _ => (Z_OK, take (Z.to_nat room) s, drop (Z.to_nat room) s, z) end;
  adler := fun _ => 0;
  inflateSetDictionary := fun z _ => (Z_OK, z);
  deflate := fun z s _ _ => (Z_OK, s, z);
  deflateBound := fun _ n => n;
  inflateInit := tt;
  deflateInit := tt;
  TDicts := fun _ => None |}.

#[export] Instance stored_inflating : Inflating stored.
Proof.
  refine {| inflates := fun (_ : zstream) s out (_ : zstream) => out = s |}.
  - intros [] out [] ->. auto.
  - intros z s1 s2 out z' ->. exists s1, s2, tt. auto.
  - intros [] s out [] room -> Hs Hr. left. exists []. destruct s; [tauto|]. cbn [inflate stored]. unfold zlen in Hr. rewrite take_ge, drop_ge by lia. auto.
  - intros z s out z' room _. auto.
Defined.

(** ** Data *)

(** C24: the frames of a client, in any order and cut into chunks in any way, one turn of the
    loop each: the data of a frame goes to the stream of its number and to no other, in
    order; a final frame or a reset ends what that stream receives; data for a stream nobody
    opened is answered with a reset; other control frames are skipped. *)
Theorem spdy_streams_demultiplexed {I O : Type} `{CleanLaws I} `{OutputLaws O} {HZ : Zlib} (NewChunk : Z -> Z) (status_first : bool)
    (module : TRequest -> Prog unit) (ws : list wire) (p : TProto I O) (rest : list Z) :
  Forall wire_ok ws -> pointers_ok p -> running p = true -> at_input p (concat (map encode ws) ++ rest) ->
  exists p', take_turns NewChunk status_first module (replicate (length ws) LoopTurn) p = Some p' /\ at_input p' rest /\ pointers_ok p' /\
    running p' = true /\ (forall j, view p' j = deliver_all ws (view p) j) /\ sent (Output p') = sent (Output p) ++ answers_to ws (view p).
Proof. apply frames_delivered. Qed.

Definition text (s : string) : list Z := bytes s.

Definition example_frames : list wire :=
  [WData 1 0 (text "ab"); WData 7 0 (text "x"); WOther 6 0 [0; 0; 0; 1]; WData 3 0 (text "cd"); WData 1 FLAG_FIN (text "e"); WRst 3 5].

Definition example_stream (id : Z) (r : TRequest) (module : TRequest -> Prog unit) : TConnection := mk_conn id r new_queue parse_init (module r) false.

Definition example_proto (l : list Z) (module : TRequest -> Prog unit) : @TProto TSource sink stored :=
  let c id := example_stream id (mk_request [] []) module in
  @mk_proto _ _ stored (iterator_over (mk_source [[take 5 l; drop 5 l]] None)) [] tt tt (<[1%positive := c 1]> (<[2%positive := c 3]> ∅)) [1%positive; 2%positive]
    (intmap_set (intmap_set new_intmap 1 1) 3 2) 0 true.

Lemma example_proto_pointers l module : pointers_ok (example_proto l module).
Proof.
  intros id x. unfold example_proto. cbn [connmap conns]. unfold intmap_get. destruct (Z.ltb_spec id ARRAY_SIZE) as [Hs|Hs]; [|discriminate].
  intros E. change (T_ _) with ([None; Some 1%positive; None; Some 2%positive] ++ replicate 96 (@None positive)) in E.
  unfold ARRAY_SIZE in Hs. destruct (Z.ltb_spec id 4) as [Hl|Hl].
  - rewrite zget_app_l in E by (unfold zlen; cbn; lia). assert (Hid : id < 0 \/ id = 0 \/ id = 1 \/ id = 2 \/ id = 3) by lia.
    destruct Hid as [Hid|[->|[->|[->| ->]]]]; try (cbn in E; discriminate E).
    + unfold zget in E. destruct (Z.leb_spec 0 id); [lia|discriminate E].
    + injection E as <-. exists (example_stream 1 (mk_request [] []) module). auto.
    + injection E as <-. exists (example_stream 3 (mk_request [] []) module). auto.
  - rewrite zget_app_r, zget_replicate in E by (unfold zlen; cbn; lia). discriminate E.
Qed.

Lemma spdy_streams_demultiplexed_witness :
  exists p', take_turns Z.abs true (fun _ => PRet tt) (replicate 6 LoopTurn) (example_proto (concat (map encode example_frames)) (fun _ => PRet tt)) = Some p' /\
    view p' 1 = Some (text "abe", true) /\ view p' 3 = Some (text "cd", true) /\ view p' 7 = None /\ sent (Output p') = encode (WRst 7 PROTOCOL_ERROR).
Proof.
  destruct (spdy_streams_demultiplexed (HZ := stored) Z.abs true (fun _ => PRet tt) example_frames
    (example_proto (concat (map encode example_frames)) (fun _ => PRet tt)) []) as (p'&E&_&_&_&Hv&Hs).
  - repeat constructor; discriminate.
  - apply example_proto_pointers.
  - reflexivity.
  - split; [split; [constructor|repeat constructor; discriminate]|]. vm_compute. reflexivity.
  - exists p'. split; [exact E|]. rewrite !Hv, Hs. vm_compute. auto.
Defined.

(** ** Streams *)

(** a stream frame for a new number opens a stream, with a job for the module behind:
    its request has the method, the path and the version of the header block, the host of the
    address as a header and the other fields; what the stream receives begins empty, and is
    all when the frame is final; other streams are left alone.  But when the frame ends where
    a received chunk ends, the cut leaves an empty chunk, the decompressor reports an error
    for it, and the loop of the connection ends. *)
Theorem spdy_stream_opened {I O : Type} `{CleanLaws I} `{OutputLaws O} {HZ : Zlib} {HL : Inflating HZ} (NewChunk : Z -> Z) (module : TRequest -> Prog unit)
    (p : TProto I O) (id assoc prio flags : Z) (packed rest m scheme host path v : list Z) (kvs : list (list Z * list Z)) (z' : zstream) :
  0 <= id < 2 ^ 31 -> 0 <= assoc < 2 ^ 32 -> 0 <= prio < 2 ^ 16 -> 0 <= flags < 256 -> zlen packed < 2 ^ 24 - 10 ->
  block_of m scheme host path v kvs -> inflates (Inflate p) packed (encode_block kvs) z' -> zlen (encode_block kvs) <= NewChunk (zlen packed * 4) ->
  pointers_ok p -> intmap_wf (connmap p) -> intmap_get (connmap p) id = None -> at_input p (encode_syn id assoc prio flags packed ++ rest) ->
  exists l p', flat l = packed /\ loop_turn NewChunk module p = Some p' /\ at_input p' rest /\ Output p' = Output p /\
    if HaveEmptyChunks l then running p' = false /\ conns p' = conns p /\ jobs p' = jobs p
    else exists x req, flatten req = mk_flat (m ++ [SP] ++ text "/" ++ path ++ [SP] ++ v) (spdy_fields host kvs) /\
      conns p !! x = None /\ conns p' !! x = Some (mk_conn id req (mk_queue (is_fin flags) []) parse_init (module req) false) /\
      jobs p' = jobs p ++ [x] /\ running p' = running p /\ intmap_wf (connmap p') /\
      forall j, 0 <= j -> view p' j = if id =? j then Some ([], is_fin flags) else view p j.
Proof.
  intros Hid Has Hpr Hfl Hpk HB Hinf Hroom Hp Hw Hnew Ha.
  destruct (syn_turn NewChunk module p id assoc prio flags packed rest m scheme host path v kvs z') as (l&p'&Hl&E&Ha'&Ho&R); auto; [lia|].
  exists l, p'. split; [auto|]. split; [auto|]. split; [auto|]. split; [auto|]. destruct (HaveEmptyChunks l); [auto|].
  destruct R as (x&req&R1&R2&R3&R4&R5&R6&R7). exists x, req. rewrite R6, R7. rewrite lookup_insert_eq. conj; auto.
  - apply (intmap_get_set _ id x 0); auto; lia.
  - intros j Hj. unfold view. rewrite R6, R7, (proj1 (intmap_get_set _ id x j Hw ltac:(lia) Hj)). destruct (Z.eqb_spec id j) as [<-|Hne].
    + rewrite lookup_insert_eq. reflexivity.
    + destruct (intmap_get (connmap p) j) as [y|] eqn:Ey; [|auto]. rewrite lookup_insert_ne; auto. intros <-. destruct (Hp _ _ Ey) as (c&Ec&_). congruence.
Qed.

Definition example_block : list (list Z * list Z) :=
  [(text "url", text "https://ya.ru/search"); (text "method", text "GET"); (text "accept", text "*"); (text "version", text "HTTP/1.1")].

Definition example_syn : list Z := encode_syn 5 0 0 FLAG_FIN (encode_block example_block).

Lemma example_block_ok : block_of (text "GET") (text "https") (text "ya.ru") (text "search") (text "HTTP/1.1") example_block.
Proof.
  constructor; [vm_compute; reflexivity|vm_compute; reflexivity|vm_compute; reflexivity|split; discriminate| |].
  - split; vm_compute; intuition congruence.
  - split; [repeat constructor; vm_compute; reflexivity|vm_compute; reflexivity].
Qed.

Lemma spdy_stream_opened_witness :
  exists p', loop_turn (HZ := stored) Z.abs (fun _ => PRet tt) (example_proto (example_syn ++ text "more") (fun _ => PRet tt)) = Some p' /\
    view p' 5 = Some ([], true) /\ view p' 1 = Some ([], false).
Proof.
  destruct (spdy_stream_opened (HZ := stored) Z.abs (fun _ => PRet tt) (example_proto (example_syn ++ text "more") (fun _ => PRet tt)) 5 0 0 FLAG_FIN
    (encode_block example_block) (text "more") (text "GET") (text "https") (text "ya.ru") (text "search") (text "HTTP/1.1") example_block tt)
    as (l&p'&Hl&E&_&_&R).
  - lia.
  - lia.
  - lia.
  - unfold FLAG_FIN. lia.
  - vm_compute. reflexivity.
  - exact example_block_ok.
  - reflexivity.
  - vm_compute. discriminate.
  - apply example_proto_pointers.
  - reflexivity.
  - reflexivity.
  - split; [split; [constructor|repeat constructor; discriminate]|]. vm_compute. reflexivity.
  - exists p'. split; [exact E|]. destruct (HaveEmptyChunks l).
    + destruct R as (R&_). exfalso. revert E R. vm_compute. intros E. injection E as <-. discriminate.
    + destruct R as (x&req&_&_&_&_&_&_&R). rewrite !R by lia. split; reflexivity.
Defined.

(** The same frame, in chunks that end where the frame ends. *)
Lemma frame_at_chunk_end :
  let it := mk_iterator (mk_source [] None) [example_syn; text "more"] in
  let p := @mk_proto _ _ stored it ([] : sink) tt tt ∅ [] new_intmap 0 true in
  exists p', loop_turn (HZ := stored) Z.abs (fun _ => PRet tt) p = Some p' /\ running p' = false.
Proof. eexists. split; vm_compute; reflexivity. Qed.

(** ** Responses *)

(** C29: the header block of a response has every header of it, the names in lower case, the
    status and the version: a reader of blocks gets exactly those fields. *)
Theorem spdy_reply_block_roundtrip (status_first : bool) (r : TRequest) (b : block) (rest : list Z) :
  let pairs := reply_pairs status_first (flatten r) in
  Forall short_pair (fields (flatten r)) -> short (line (flatten r)) -> zlen (fields (flatten r)) < 2 ^ 16 - 2 ->
  exists it, ReadToken 2 (within (flat (SaveHeaders status_first r) ++ rest)) = Some (Ret (zlen pairs), it) /\
    read_fields (length pairs) b it = Some (Ret (fold_left add_pair pairs b), within rest).
Proof.
  intros pairs Hs Hl Hn. rewrite SaveHeaders_flat by auto. fold pairs. unfold encode_block. rewrite <- app_assoc.
  assert (Hlen : zlen pairs = zlen (fields (flatten r)) + 2)
    by (unfold pairs, reply_pairs, zlen; rewrite length_app, length_map; destruct status_first; cbn [length]; lia).
  exists (within (concat (map encode_pair pairs) ++ rest)). split.
  - change 2 with (zlen (save16 (zlen pairs))) at 1. rewrite ReadToken_one, big_endian_save16 by (discriminate || (pose proof (zlen_nonneg (fields (flatten r))); lia)). auto.
  - apply read_fields_one. unfold pairs, reply_pairs. apply Forall_app. split.
    + rewrite Forall_map. eapply Forall_impl; [exact Hs|]. intros [k v] [Hk Hv]. split; [|exact Hv]. cbn [fst]. unfold short, zlen in *. rewrite length_map. auto.
    + unfold short, zlen in Hl. destruct status_first; repeat constructor; unfold short, zlen; cbn [fst snd]; rewrite ?length_drop, ?length_take; (vm_compute; reflexivity) || lia.
Qed.

Definition example_reply : TRequest :=
  mk_request [text "HTTP/1.1 20"; text "0 Ok"] [mk_header [text "X-"; text "Tag"] [text "y"]; mk_header [text "Server"] []].

Lemma spdy_reply_block_roundtrip_witness :
  exists it, ReadToken 2 (within (flat (SaveHeaders true example_reply) ++ [])) = Some (Ret 4, it) /\
    read_fields 4 (mk_block [] [] [] []) it = Some (Ret (mk_block [] [] [text "HTTP/1.1"]
      [mk_header [text "x-tag"] [text "y"]; mk_header [text "server"] []; mk_header [text "status"] [text "200 Ok"]]), within []).
Proof.
  destruct (spdy_reply_block_roundtrip true example_reply (mk_block [] [] [] []) []) as (it&E1&E2).
  - repeat constructor; vm_compute; reflexivity.
  - vm_compute. reflexivity.
  - vm_compute. reflexivity.
  - exists it. split; [exact E1|]. etransitivity; [exact E2|]. vm_compute. reflexivity.
Defined.

(** a job that sends its response head and the body in one piece makes one reply frame,
    with the compressed header block, and one data frame with the body; what it sends after
    that is parsed as another head: a body in two pieces loses the second one. *)
Theorem spdy_response_sent {I O : Type} {HI : IIoInput I} `{OutputLaws O} {HZ : Zlib} (NewChunk : Z -> Z) (status_first : bool)
    (p : TProto I O) (c : TConnection) (lst : TChunkList) (resp : flat_request) (body : list Z) :
  C_ c = parse_init -> 0 <= StreamID c < 2 ^ 31 -> zlen body < 2 ^ 24 -> flat_parse Start flat_empty (flat lst) = FDone resp body ->
  exists ctx, flatten (Request ctx) = resp /\ InFinalState ctx = false /\
  match save_reply NewChunk status_first (StreamID c) (Request ctx) (Deflate p) with
  | (Throw e, z) => conn_send NewChunk status_first c lst p = Some (Throw e, ctx, set_deflate p z)
  | (Ret reply, z) => exists p', conn_send NewChunk status_first c lst p = Some (Ret tt, ctx, p') /\ Deflate p' = z /\
      sent (Output p') = sent (Output p) ++ flat (control_frame SYN_REPLY reply) ++ encode (WData (StreamID c) 0 body)
  end.
Proof.
  apply conn_send_response.
Qed.

Definition respond_in (parts : list TChunkList) : TRequest -> Prog unit := fun _ =>
  fold_right (fun l k => PSend l (fun r => match r with Ret _ => k | Throw _ => PRet tt end)) (PRet tt) parts.

Definition example_reply_bytes : TChunkList := [text "HTTP/1.1 200 Ok" ++ CRLF; CRLF ++ text "hel"].

Lemma stored_reply NewChunk status_first id r z : exists reply, save_reply (HZ := stored) NewChunk status_first id r z = (Ret reply, z).
Proof.
  assert (Hl : forall l room out, exists out' room', Compress_loop (HZ := stored) z l room out = (Ret out', room', z)).
  { induction l as [|c l IH]; intros room out; cbn; eauto. }
  unfold save_reply, Compress. destruct (Hl (SaveHeaders status_first r) (NewChunk (deflateBound z (FullLength (SaveHeaders status_first r)))) []) as (out'&room'&->).
  cbn. eauto.
Qed.

Lemma spdy_response_sent_witness :
  exists ctx p', conn_send (HZ := stored) Z.abs true (example_stream 1 (mk_request [] []) (respond_in [])) example_reply_bytes (example_proto [] (respond_in [])) =
    Some (Ret tt, ctx, p') /\ InFinalState ctx = false.
Proof.
  destruct (spdy_response_sent (HZ := stored) Z.abs true (example_proto [] (respond_in [])) (example_stream 1 (mk_request [] []) (respond_in [])) example_reply_bytes
    (mk_flat (text "HTTP/1.1 200 Ok") []) (text "hel")) as (ctx&Hr&Hf&R).
  - reflexivity.
  - cbn. lia.
  - vm_compute. reflexivity.
  - vm_compute. reflexivity.
  - destruct (stored_reply Z.abs true 1 (Request ctx) tt) as (reply&E). cbn [example_stream example_proto StreamID Deflate] in R. rewrite E in R.
    destruct R as (p'&R&_). exists ctx, p'. auto.
Defined.

(** The turns of a job that starts, sends [n] times and ends. *)
Definition job_turns (n : nat) (x : positive) : list turn := replicate (n + 2) (JobTurn x).

Definition run_job (parts : list TChunkList) : option (@TProto TSource sink stored) :=
  take_turns Z.abs true (respond_in parts) (job_turns (length parts) 1) (example_proto [] (respond_in parts)).

Definition reply_frame (st ver : string) : list Z :=
  flat (control_frame SYN_REPLY ([save32 1; save16 0] ++ [encode_block [(text "status", text st); (text "version", text ver)]])).

(** Of a response in two pieces the client gets the head and the part of the body that
    came with it: the second piece is parsed as a head of its own, since the parser never
    says that the headers are parsed, and nothing of it is sent. *)
Theorem spdy_second_piece_lost :
  let head := text "HTTP/1.1 200 Ok" ++ CRLF ++ CRLF in
  let received := reply_frame "200 Ok" "HTTP/1.1" ++ encode (WData 1 0 (text "hel")) ++ encode (WData 1 FLAG_FIN []) in
  (exists p, run_job [[head ++ text "hel"]] = Some p /\ sent (Output p) = received) /\
  (exists p, run_job [[head ++ text "hel"]; [text "lo"]] = Some p /\ sent (Output p) = received).
Proof. split; eexists; split; vm_compute; reflexivity. Qed.




