(* ===== verification/HTheorems.v ===== *)
(** * Server kernel, HTTP module and proxy: the properties

    The theorems on the parser, the streams, the HTTP module and the input chain of the
    proxy, each with a concrete connection it applies to, and what the code gets wrong. *)

From Stdlib Require Import ZArith Lia Bool String Ascii.
From stdpp Require Import base numbers list.
From S2P Require Import Prelude HChunks HStream HLaws HHttp HParse HRequest HHeaders HServer HServerSpec HEncoder HProxy HProxySpec HTermination HPipeline.

#[local] Existing Instance literal_pire.

(** ** Requests on a connection *)

(** C15: several requests on one connection, with their bodies, cut into chunks and
    received in any way, reach a module that reads its input one after the other: each one
    without its connection headers and with exactly its own body, and the answers reach the
    client complete, in the same order, with the chunked encoding and its header added; then
    the loop ends and counts one connection. *)
Theorem pipelined_requests_served {I O A : Type} `{CleanLaws I} `{OutputLaws O} {P : Pire} `{!PireLiteral P}
    (respond : A -> flat_request -> list Z -> list TChunkList * A) (n fuel : nat) (m : TModule) (a : A) (input : I) (o : O)
    (xs : list (list Z * list Z)) :
  (forall a r body, Forall sendable (fst (respond a r body)) /\
    exists resp rest, flat_parse Start flat_empty (flat (concat (fst (respond a r body)))) = FDone resp rest) ->
  MaxLen_ m = 0 -> KeepAlive_ m = true -> ok input -> final input = None ->
  content input = concat (map request_bytes xs) -> Forall (fun x => exists r, good_request (MaxReq_ m) x r) xs ->
  (length (content input) < fuel)%nat -> (length (content input) < n)%nat ->
  exists a' it' o' out, DoRun (reader respond n) fuel m a input o = Some (Ret tt, count_discarded m, a', it', o') /\
    serves respond a xs a' out /\ sent o' = sent o ++ out.
Proof.
  intros Hresp Hml Hka Hok Hfin Hc Hg Hf Hn.
  apply (run_loop_serves respond Hresp n fuel m a (iterator_over input) o xs); auto.
  split; [constructor|exact Hok].
Qed.

Definition text (s : string) : list Z := bytes s.

Definition example_responder (log : list (list Z)) (r : flat_request) (body : list Z) : list TChunkList * list (list Z) :=
  ([[text "HTTP/1.1 200 Ok"; CRLF; CRLF]; [text "hi"; text " there"]], log ++ [line r; body]).

Definition example_head (len : string) : list Z :=
  text "POST /a HTTP/1.1" ++ CRLF ++ text "Host: x" ++ CRLF ++ text "content-length: " ++ text len ++ CRLF ++ CRLF.

Definition example_requests : list (list Z * list Z) := [(example_head "3", text "abc"); (example_head "0", []); (example_head "2", text "GE")].

(** The same bytes, received in pieces that cut the tokens. *)
Definition example_connection : TSource :=
  mk_source [[text "POS"; text "T /a HTTP/1.1" ++ [CR]]; [[LF] ++ text "Ho"];
             [text "st: x" ++ CRLF ++ text "content-length: 3" ++ CRLF ++ CRLF ++ text "a"; text "bc" ++ example_head "0" ++ example_head "2" ++ text "G"];
             [text "E"]] None.

Definition example_module : TModule := mk_module 0 0 0 (2 ^ 64 - 1) true.

Lemma example_responder_good log r body : Forall sendable (fst (example_responder log r body)) /\
  exists resp rest, flat_parse Start flat_empty (flat (concat (fst (example_responder log r body)))) = FDone resp rest.
Proof.
  split; [|eexists _, _; vm_compute; reflexivity].
  repeat constructor; try discriminate; vm_compute; reflexivity.
Qed.

Lemma example_connection_ok : ok example_connection.
Proof. repeat constructor; discriminate. Qed.

Lemma pipelined_requests_served_witness :
  exists it' o' out, DoRun (reader example_responder 1000) 1000 example_module [] example_connection ([] : sink) =
      Some (Ret tt, count_discarded example_module,
        [text "POST /a HTTP/1.1"; text "abc"; text "POST /a HTTP/1.1"; []; text "POST /a HTTP/1.1"; text "GE"], it', o') /\
    sent o' = out /\ serves example_responder [] example_requests
        [text "POST /a HTTP/1.1"; text "abc"; text "POST /a HTTP/1.1"; []; text "POST /a HTTP/1.1"; text "GE"] out.
Proof.
  destruct (pipelined_requests_served example_responder 1000 1000 example_module [] example_connection ([] : sink) example_requests
    example_responder_good eq_refl eq_refl example_connection_ok eq_refl) as (a'&it'&o'&out&E&S1&S2).
  - vm_compute. reflexivity.
  - repeat constructor; eexists; (split; [vm_compute; reflexivity|]); conj; vm_compute; congruence.
  - vm_compute. lia.
  - vm_compute. lia.
  - exists it', o', out. assert (Ha : a' = [text "POST /a HTTP/1.1"; text "abc"; text "POST /a HTTP/1.1"; []; text "POST /a HTTP/1.1"; text "GE"]).
    { clear -E. revert E. destruct (DoRun _ _ _ _ _ _) as [[[[[r0 m0] a0] it0] o0]|] eqn:Ed; [|discriminate].
      intros E. injection E as _ _ <- _ _. revert Ed. vm_compute. intros Ed. congruence. }
    rewrite Ha in E, S1. split; [exact E|]. split; [exact S2|exact S1].
Defined.

(** C16: whatever the module behind does, and whatever the client sends, the loop over the
    requests of a connection ends, with every limit on the head and every output that is
    defined: as many steps as there are bytes, and one more, are enough. *)
Theorem connection_loop_ends {I O A : Type} `{InputLaws I} {HO : IIoOutput O} {HP : Pire} (M_ : A -> TRequest -> Prog A)
    (fuel : nat) (m : TModule) (a : A) (input : I) (o : O) :
  (forall (o : O) l, DoSend o l <> None) -> 0 <= MaxLen_ m -> ok input -> (length (content input) < fuel)%nat ->
  exists r m' a' it' o', DoRun M_ fuel m a input o = Some (r, m', a', it', o').
Proof.
  intros Hout Hm Hok Hf. apply (@run_loop_total _ _ _ _ laws_shrink _ _ M_ Hout); auto.
Qed.

Lemma connection_loop_ends_witness :
  exists r m' a' it' o', DoRun (fun a _ => PRecv (fun _ => PSend [text "x"] (fun _ => PRet a))) 1000 (mk_module 0 0 100 10 true) tt
    example_connection ([] : sink) = Some (r, m', a', it', o').
Proof.
  apply (connection_loop_ends (fun a _ => PRecv (fun _ => PSend [text "x"] (fun _ => PRet a))) 1000 (mk_module 0 0 100 10 true) tt
    example_connection ([] : sink)).
  - discriminate.
  - cbn. lia.
  - exact example_connection_ok.
  - vm_compute. lia.
Defined.

(** ** The parser *)

(** C17: parsing a stream is the reference on its bytes, however they are cut into chunks
    and calls: the same request, the rest of the bytes unread or unparsed, 400 for what is
    not a request, and the exception of the stream or 400 for what is not complete; no null
    pointer is used and the loop ends. *)
Theorem parser_refines_reference {I : Type} `{InputLaws I} (fuel : nat) (i : I) :
  ok i -> (length (content i) < fuel)%nat ->
  exists res i', Parse fuel parse_init i = Some (res, i') /\ ok i' /\
  match flat_parse Start flat_empty (content i) with
  | FDone r rest => exists req un, res = Ret (req, un) /\ flatten req = r /\ rest = flat un ++ content i'
  | FBad => res = Throw (THttpParseError 400)
  | FMore _ _ => res = Throw (default (THttpParseError 400) (final i))
  end.
Proof.
  intros Hok Hf. destruct (Parse_spec fuel parse_init flat_empty i parse_init_between eq_refl Hok Hf) as (res&i'&E&Ho&_&P).
  cbn [cs parse_init] in P. exists res, i'. conj; auto. destruct (flat_parse Start flat_empty (content i)) as [s r| |r rest]; auto.
  - apply P.
  - destruct P as (req&un&P1&P2&P3&_). eauto.
Qed.

Lemma parser_refines_reference_witness : exists req un i', Parse 1000 parse_init example_connection = Some (Ret (req, un), i') /\
  flatten req = mk_flat (text "POST /a HTTP/1.1") [(text "Host", text "x"); (text "content-length", text "3")].
Proof.
  destruct (parser_refines_reference 1000 example_connection example_connection_ok) as (res&i'&E&_&P); [vm_compute; lia|].
  destruct (flat_parse Start flat_empty (content example_connection)) as [s r| |r rest] eqn:Ef; [vm_compute in Ef; discriminate..|].
  destruct P as (req&un&->&Hr&_). exists req, un, i'. split; [exact E|]. rewrite Hr. vm_compute in Ef. injection Ef as <- _. reflexivity.
Defined.

(** C18: a request the parser accepted and [BuildTo] printed is parsed as the same request,
    with the headers the printer was given as further headers and nothing of the bytes
    behind it taken: what is forwarded cannot be read as a different request. *)
Theorem forwarded_request_reparses {I J : Type} `{InputLaws I} `{InputLaws J} (fuel fuel' : nat) (i : I) (j : J) req un i'
    (custom : list (list Z * list Z)) (chunks : TChunkList) (tail : list Z) :
  ok i -> (length (content i) < fuel)%nat -> Parse fuel parse_init i = Some (Ret (req, un), i') ->
  Forall wf_field custom -> flat chunks = concat (map print_field custom) ->
  ok j -> content j = flat (BuildTo req chunks) ++ tail -> (length (content j) < fuel')%nat ->
  exists req' un' j', Parse fuel' parse_init j = Some (Ret (req', un'), j') /\
    flatten req' = mk_flat (line (flatten req)) (fields (flatten req) ++ custom) /\ tail = flat un' ++ content j'.
Proof.
  intros Hok Hf E Hw Hch Hokj Hcj Hfj.
  destruct (Parse_spec fuel parse_init flat_empty i parse_init_between eq_refl Hok Hf) as (res&i2&E2&_&_&P). rewrite E in E2. inv E2.
  cbn [cs parse_init] in P. destruct (flat_parse Start flat_empty (content i)) as [s r| |r rest] eqn:Ef; [destruct P; discriminate|discriminate|].
  destruct P as (req2&un2&E2&Hr&_). inv E2. apply flat_parse_wf in Ef; [|reflexivity].
  destruct (Parse_spec fuel' parse_init flat_empty j parse_init_between eq_refl Hokj Hfj) as (res&j'&E3&_&_&Q).
  cbn [cs parse_init] in Q. rewrite Hcj, BuildTo_flat, Hch, flat_parse_print in Q by auto.
  destruct Q as (req'&un'&->&Hr'&Htail&_). eauto 10.
Qed.

Lemma forwarded_request_reparses_witness : exists req un i', Parse 1000 parse_init example_connection = Some (Ret (req, un), i') /\
  exists req' un' j', Parse 1000 parse_init (mk_source [BuildTo req [connection_close]] None) = Some (Ret (req', un'), j') /\
    flatten req' = mk_flat (line (flatten req)) (fields (flatten req) ++ [(text "Connection", text "Close")]).
Proof.
  destruct (Parse 1000 parse_init example_connection) as [[[[req un]|e] i']|] eqn:E; [|vm_compute in E; discriminate..].
  exists req, un, i'. split; [reflexivity|].
  destruct (forwarded_request_reparses 1000 1000 example_connection (mk_source [BuildTo req [connection_close]] None) req un i'
    [(text "Connection", text "Close")] [connection_close] []) as (req'&un'&j'&E'&Hr&_).
  - exact example_connection_ok.
  - vm_compute. lia.
  - exact E.
  - repeat constructor; cbn; try discriminate; vm_compute; intuition congruence.
  - reflexivity.
  - vm_compute in E. injection E as <- _ _. repeat constructor; discriminate.
  - vm_compute in E. injection E as <- _ _. vm_compute. reflexivity.
  - vm_compute in E. injection E as <- _ _. vm_compute. lia.
  - exists req', un', j'. split; [exact E'|exact Hr].
Defined.




(** ** Responses *)

(** C20: the client gets the head of a response of a back end without its connection
    headers, and of its body: the contents of the HTTP chunks when the response is chunked,
    as many bytes as the length it announces, or everything up to the end; the bytes may
    come in any pieces, and copying ends. *)
Theorem proxied_response {I O : Type} `{CleanLaws I} `{OutputLaws O} {P : Pire} `{!PireLiteral P}
    (fuel : nat) (s : I) (o : O) (r : flat_request) (rest body : list Z) :
  ok s -> final s = None -> (length (content s) < fuel)%nat -> flat_parse Start flat_empty (content s) = FDone r rest ->
  (if chunked_flag r then exists parts tail, Forall small parts /\ body = concat parts /\
     rest = concat (map http_chunk parts) ++ http_chunk [] ++ tail
   else if announced_length r =? 0 then body = rest else body = take (Z.to_nat (announced_length r)) rest) ->
  (length (print_flat (strip r) [] ++ body) < fuel)%nat ->
  exists t' o', worker_run (backend_recv fuel) fuel (NotBuilt s) o = Some (Ret tt, t', o') /\
    sent o' = sent o ++ print_flat (strip r) [] ++ body.
Proof.
  intros Hok Hfin Hf Hp Hb Hl.
  apply (worker_copies (backend_recv fuel) (delivering fuel) (backend_recv_spec fuel)); [|auto]. econstructor; eauto.
Qed.

Definition example_response : TSource :=
  mk_source [[text "HTTP/1.1 200 Ok"]; [CRLF ++ text "Content-Length: 4" ++ CRLF ++ text "X: y"; CRLF ++ CRLF ++ text "ab"]; [text "cdef"]] None.

Lemma proxied_response_witness : exists t' o', worker_run (backend_recv 200) 200 (NotBuilt example_response) ([] : sink) = Some (Ret tt, t', o') /\
  sent o' = text "HTTP/1.1 200 Ok" ++ CRLF ++ text "X: y" ++ CRLF ++ CRLF ++ text "abcd".
Proof.
  destruct (proxied_response 200 example_response ([] : sink)
    (mk_flat (text "HTTP/1.1 200 Ok") [(text "Content-Length", text "4"); (text "X", text "y")]) (text "abcdef") (text "abcd"))
    as (t'&o'&E&S1).
  - repeat constructor; discriminate.
  - reflexivity.
  - vm_compute. lia.
  - vm_compute. reflexivity.
  - vm_compute. reflexivity.
  - vm_compute. lia.
  - exists t', o'. split; [exact E|]. rewrite S1. vm_compute. reflexivity.
Defined.

(** The headers the HTTP module adds to a chunked response. *)
Definition chunked_headers (close : bool) : TChunkList := (if close then [connection_close] else []) ++ [transfer_encoding_chunked].

Definition chunked_fields (close : bool) : list (list Z * list Z) :=
  (if close then [(text "Connection", text "Close")] else []) ++ [(text "Transfer-Encoding", text "Chunked")].

Lemma chunked_headers_fields close : flat (chunked_headers close) = concat (map print_field (chunked_fields close)) /\
  Forall wf_field (chunked_fields close) /\ existsb (named "Transfer-Encoding") (chunked_fields close) = true /\
  List.filter (fun kv => negb (checked kv)) (chunked_fields close) = [].
Proof.
  destruct close; (split; [vm_compute; reflexivity|split; [|split; vm_compute; reflexivity]]);
    repeat constructor; cbn; try discriminate; vm_compute; intuition congruence.
Qed.

(** A module's answer through the encoder. *)
Definition encode {O} `{IIoOutput O} (t : transfer) (headers : TChunkList) (ls : list TChunkList) (o : O) : option (res unit * O) :=
  let* (r, _, _, e) := run_prog (send_all ls tt) NullInstance (new_encoder t o headers) in
  match r with
  | Throw x => Some (Throw x, enc_S e)
  | Ret _ => let* (r, e) := Finish e in Some (r, enc_S e)
  end.

(** C21: a response that the HTTP module sends with the chunked encoding, and a proxy reads
    on the other side of the connection, arrives as it was: the same head without connection
    headers, and the same body byte for byte, however either side cuts it into pieces and
    whatever follows on the connection. *)
Theorem chunked_response_roundtrip {I O O' : Type} `{CleanLaws I} `{OutputLaws O} `{OutputLaws O'} {P : Pire} `{!PireLiteral P}
    (close : bool) (ls : list TChunkList) (resp : flat_request) (body tail : list Z) (o : O) :
  Forall sendable ls -> flat_parse Start flat_empty (flat (concat ls)) = FDone resp body -> zlen body < 2 ^ 64 -> sent o = [] ->
  exists o1, encode TChunkedTransferEncoder (chunked_headers close) ls o = Some (Ret tt, o1) /\
  forall (fuel : nat) (s : I) (p : O'), ok s -> final s = None -> content s = sent o1 ++ tail -> (length (content s) < fuel)%nat ->
  (length (print_flat (strip resp) [] ++ body) < fuel)%nat ->
  exists t' p', worker_run (backend_recv fuel) fuel (NotBuilt s) p = Some (Ret tt, t', p') /\
    sent p' = sent p ++ print_flat (strip resp) [] ++ body.
Proof.
  intros Hs Hp Hz Ho. unfold encode. destruct (chunked_headers_fields close) as (F1&F2&F3&F4).
  destruct (send_all_spec TChunkedTransferEncoder (chunked_headers close) [] ls tt [] NullInstance (new_encoder TChunkedTransferEncoder o (chunked_headers close)))
    as (e&E&He); [apply new_encoding; auto|auto|cbn; rewrite Hp; discriminate|]. rewrite E.
  pose proof (Finish_spec _ _ _ _ _ He) as HF. cbn [app] in HF. rewrite Hp in HF. destruct HF as (e'&parts&E'&Hb&Hne&Hsent). rewrite E'.
  eexists. split; [reflexivity|]. intros fuel s p Hok Hfin Hc Hf Hl. cbn [encoded_end app] in Hsent. rewrite Hsent, F1, <- !app_assoc in Hc.
  pose proof (flat_parse_wf Start flat_empty _ _ _ eq_refl Hp) as Hwf.
  apply (worker_copies (backend_recv fuel) (delivering fuel) (backend_recv_spec fuel)); [|auto].
  assert (Hstrip : strip (mk_flat (line resp) (fields resp ++ chunked_fields close)) = strip resp)
    by (unfold strip; cbn [line fields]; rewrite List.filter_app, F4, app_nil_r; auto).
  rewrite <- Hstrip. econstructor; [exact Hok|exact Hfin|exact Hf|rewrite Hc; apply flat_parse_print; auto|].
  unfold chunked_flag. cbn [fields]. rewrite existsb_app, F3, orb_true_r. exists parts, tail. conj; auto.
  rewrite Hb in Hz. clear -Hne Hz. induction Hne as [|x parts Hx Hne IH]; constructor; cbn in Hz; rewrite zlen_app in Hz;
    pose proof (zlen_nonneg x); pose proof (zlen_nonneg (concat parts)); [split; [auto|lia]|apply IH; lia].
Qed.

Definition example_answer : list TChunkList := [[text "HTTP/1.1 200 Ok" ++ [CR]]; [[LF] ++ text "X: y"; CRLF ++ CRLF ++ text "hel"]; [text "lo"]].

Lemma chunked_response_roundtrip_witness :
  exists o1, encode TChunkedTransferEncoder (chunked_headers true) example_answer ([] : sink) = Some (Ret tt, o1) /\
  exists t' p', worker_run (backend_recv 300) 300 (NotBuilt (mk_source [[sent o1]] None)) ([] : sink) = Some (Ret tt, t', p') /\
    sent p' = print_flat (mk_flat (text "HTTP/1.1 200 Ok") [(text "X", text "y")]) [] ++ text "hello".
Proof.
  destruct (chunked_response_roundtrip (I := TSource) (O' := sink) true example_answer
    (mk_flat (text "HTTP/1.1 200 Ok") [(text "X", text "y")]) (text "hello") [] ([] : sink)) as (o1&E&Hr).
  - repeat constructor; try discriminate; vm_compute; reflexivity.
  - vm_compute. reflexivity.
  - vm_compute. reflexivity.
  - reflexivity.
  - exists o1. split; [exact E|]. assert (Ho : sent o1 <> [] /\ (length (sent o1) < 300)%nat).
    { revert E. vm_compute. intros E. injection E as <-. split; [discriminate|lia]. }
    destruct (Hr 300%nat (mk_source [[sent o1]] None) ([] : sink)) as (t'&p'&E'&S1).
    + apply Forall_singleton. split; [discriminate|]. apply Forall_singleton. apply Ho.
    + reflexivity.
    + cbn [content source_laws parts concat]. rewrite app_nil_r. rewrite flat_one. rewrite app_nil_r. reflexivity.
    + cbn [content source_laws parts concat]. rewrite app_nil_r. rewrite flat_one. apply Ho.
    + vm_compute. lia.
    + exists t', p'. split; [exact E'|]. exact S1.
Defined.

(** ** Errors and limits *)

(** C22: a head that is not a request is answered 400, one that is not complete within the
    limit 413, one that the connection breaks off 400 or the error of the connection, and a
    first line over its limit 414; in each case the module behind is not run and nothing is
    sent. *)
Theorem bad_requests_rejected {I O A : Type} `{CleanLaws I} {HO : IIoOutput O} {P : Pire} `{!PireLiteral P} (M_ : A -> TRequest -> Prog A)
    (fuel : nat) (m : TModule) (a : A) (it : TStreamIterator I) (o : O) :
  0 <= MaxLen_ m -> iter_ok it -> (length (iter_content it) < fuel)%nat ->
  let c := iter_content it in
  let rejected e := exists it', context_run M_ fuel m a it o = Some (Throw e, a, it', o) in
  match flat_parse Start flat_empty (if MaxLen_ m =? 0 then c else take (Z.to_nat (MaxLen_ m)) c) with
  | FBad => rejected (THttpParseError 400)
  | FMore _ _ => rejected (if negb (MaxLen_ m =? 0) && (MaxLen_ m <=? zlen c) then THttpParseError 413
                           else default (THttpParseError 400) (iter_final it))
  | FDone r _ => MaxReq_ m < zlen (line r) -> rejected (THttpParseError 414)
  end.
Proof.
  intros Hm Hok Hf c rejected. unfold rejected, context_run. subst c.
  assert (Hpr : exists res it', parsed_request fuel it (MaxLen_ m) = Some (res, it') /\
    match flat_parse Start flat_empty (if MaxLen_ m =? 0 then iter_content it else take (Z.to_nat (MaxLen_ m)) (iter_content it)) with
    | FDone r _ => exists req, res = Ret req /\ flatten req = r
    | FBad => res = Throw (THttpParseError 400)
    | FMore _ _ => res = Throw (if negb (MaxLen_ m =? 0) && (MaxLen_ m <=? zlen (iter_content it)) then THttpParseError 413
                                else default (THttpParseError 400) (iter_final it))
    end).
  { destruct (Z.eqb_spec (MaxLen_ m) 0) as [E0|E0].
    - rewrite E0. destruct (parsed_request_spec fuel it Hok Hf) as (res&it'&E&_&_&Q). exists res, it'. split; [auto|].
      destruct (flat_parse Start flat_empty (iter_content it)); auto. destruct Q as (req&?&?&_). eauto.
    - destruct (parsed_request_limited fuel it (MaxLen_ m) ltac:(lia) Hok Hf) as (res&it'&E&Q). exists res, it'. split; [auto|].
      destruct (flat_parse Start flat_empty (take (Z.to_nat (MaxLen_ m)) (iter_content it))); auto.
      cbn [negb andb]. rewrite Q. f_equal. destruct (Z.ltb_spec (zlen (iter_content it)) (MaxLen_ m)), (Z.leb_spec (MaxLen_ m) (zlen (iter_content it))); auto; lia. }
  destruct Hpr as (res&it'&E&Q). rewrite E. destruct (flat_parse _ _ _) as [s r| |r rest]; [subst res; eauto|subst res; eauto|].
  destruct Q as (req&->&Hr). intros Hreq. 
  destruct (request_properties_flat req (parsed_request_clean _ _ _ _ _ E)) as (props&req'&E1&Hs&_). rewrite E1. assert (Hl : FullLength (Request_ req') = zlen (line r)).
  { rewrite FullLength_flat, <- Hr. apply (f_equal line) in Hs. cbn in Hs. rewrite Hs. auto. }
  rewrite Hl. destruct (Z.ltb_spec (MaxReq_ m) (zlen (line r))); [|lia]. eauto.
Qed.

Lemma bad_requests_rejected_witness : exists it',
  context_run (fun a _ => PRet a) 1000 (mk_module 0 0 20 100 true) tt (iterator_over example_connection) ([] : sink) =
    Some (Throw (THttpParseError 413), tt, it', []).
Proof.
  pose proof (bad_requests_rejected (fun a _ => PRet a) 1000 (mk_module 0 0 20 100 true) tt (iterator_over example_connection) ([] : sink)) as H.
  cbn zeta in H. apply H; [cbn; lia|split; [constructor|exact example_connection_ok]|vm_compute; lia].
Defined.

(** C23: [Read] takes exactly the next [len] bytes of a connection, in any pieces they come,
    or throws when it ends before; it never waits for more than it needs. *)
Theorem stream_read_exact {I : Type} `{CleanLaws I} (len : Z) (it : TStreamIterator I) :
  0 <= len -> iter_ok it ->
  exists r it', Read len it = Some (r, it') /\ iter_ok it' /\
  if len <=? zlen (iter_content it)
  then r = Ret (take (Z.to_nat len) (iter_content it)) /\ iter_content it' = drop (Z.to_nat len) (iter_content it)
  else r = Throw (default TStreamError (iter_final it)) /\ iter_content it' = [].
Proof.
  intros Hl Hok. destruct (Read_spec len it Hl Hok) as (r&it'&E&Ho&_&R). exists r, it'. auto.
Qed.

Lemma stream_read_exact_witness : exists it', Read 20 (iterator_over example_connection) = Some (Ret (text "POST /a HTTP/1.1" ++ CRLF ++ text "Ho"), it').
Proof.
  destruct (stream_read_exact 20 (iterator_over example_connection)) as (r&it'&E&_&R); [lia|split; [constructor|exact example_connection_ok]|].
  exists it'. rewrite E. f_equal. f_equal. vm_compute in R. destruct R as [-> _]. vm_compute. reflexivity.
Defined.

(** what the module behind does not read of a body is the next request: one request
    whose body looks like another is run as two. *)
Theorem unread_body_is_next_request :
  let smuggled := text "GET /admin HTTP/1.1" ++ CRLF ++ CRLF in
  let client := text "POST / HTTP/1.1" ++ CRLF ++ text "Content-Length: 23" ++ CRLF ++ CRLF ++ smuggled in
  let respond (log : list (list Z)) (r : TRequest) := send_all [[text "HTTP/1.1 200 Ok" ++ CRLF ++ CRLF]] (log ++ [line (flatten r)]) in
  zlen smuggled = 23 /\
  exists it' o', DoRun respond 1000 example_module [] (mk_source [[client]] None) ([] : sink) =
    Some (Ret tt, count_discarded example_module, [text "POST / HTTP/1.1"; text "GET /admin HTTP/1.1"], it', o').
Proof. cbn zeta. split; [vm_compute; reflexivity|]. eexists _, _. vm_compute. reflexivity. Qed.

(** The limit on the head loses bytes behind it: a request within the limit whose body
    comes in the same piece loses what is over the limit, and the module behind waits for
    bytes that have been received. *)
Theorem head_limit_loses_body :
  let client := text "POST / HTTP/1.1" ++ CRLF ++ text "Content-Length: 6" ++ CRLF ++ CRLF ++ text "abcdef" in
  let m maxlen := mk_module 0 0 maxlen (2 ^ 64 - 1) true in
  let run maxlen := DoRun (reader (fun log r body => (fst (example_responder [] r body), log ++ [body])) 100) 1000 (m maxlen) [] (mk_source [[client]] None) ([] : sink) in
  (exists it' o', run 0 = Some (Ret tt, count_discarded (m 0), [text "abcdef"], it', o')) /\
  (exists it' o', run 40 = Some (Ret tt, count_discarded (m 40), [text "ab"], it', o')).
Proof. cbn zeta. split; eexists _, _; vm_compute; reflexivity. Qed.

(** the length a header announces is its number when the value has only digits, up to
    2^64; a blank behind the digits, which the parser keeps, makes it ten times the number
    less sixteen. *)
Theorem content_length_value (l : list Z) : Forall digit l ->
  FromString [l] = u64 (decimal l) /\ FromString [l ++ [SP]] = u64 (decimal l * 10 - 16).
Proof.
  intros Hl. rewrite FromString_decimal by (rewrite flat_one; auto). rewrite flat_one. split; [auto|].
  unfold FromString. rewrite flat_one, fold_left_app. cbn [fold_left]. change 0 with (u64 0) at 1. rewrite (decimal_fold l 0 Hl).
  fold (decimal l). unfold u64. change (signed_char SP - 48) with (-16).
  rewrite Zplus_mod_idemp_r, <- Zplus_mod_idemp_l, Zmult_mod_idemp_l, Zplus_mod_idemp_l. auto.
Qed.

Lemma content_length_value_witness : FromString [text "5"] = 5 /\ FromString [text "5" ++ [SP]] = 34.
Proof.
  destruct (content_length_value (text "5")) as [H1 H2]; [apply Forall_singleton; vm_compute; split; congruence|].
  rewrite H1, H2. vm_compute. auto.
Defined.

(** ** Chunks *)

(** cutting a list keeps its bytes, and leaves an empty chunk behind in the front part
    exactly when the cut falls between two chunks of the list; the other part has none. *)
Theorem split_empty_chunk (len : Z) (from b a : TChunkList) : 0 <= len -> clean from -> Split len from = (b, a) ->
  flat b = take (Z.to_nat len) (flat from) /\ flat a = drop (Z.to_nat len) (flat from) /\ HaveEmptyChunks a = false /\
  (HaveEmptyChunks b = true <-> exists l1 c l2, from = l1 ++ c :: l2 /\ zlen (flat l1) = len).
Proof.
  intros Hl Hc E. destruct (Split_flat _ _ _ _ Hl E) as [F1 F2]. conj; auto.
  { apply clean_HaveEmpty. eapply Split_clean; eauto. }
  unfold Split in E. assert (Hnil : HaveEmptyChunks [] = false) by reflexivity.
  clear F1 F2. revert len Hl E Hnil. generalize (@nil chunk) at 1 3 as before. induction Hc as [|c from Hcn Hc IH]; intros before len Hl E Hb; cbn in E.
  - inv E. rewrite Hb. split; [discriminate|]. intros (l1&c&l2&E&_). destruct l1; discriminate.
  - destruct (Z.leb_spec (zlen c) len) as [Hle|Hgt].
    + rewrite (IH (before ++ [c]) (len - zlen c)); [|lia|auto|].
      * split; intros (l1&x&l2&E1&E2).
        -- exists (c :: l1), x, l2. rewrite E1. split; [auto|]. rewrite flat_cons, zlen_app. lia.
        -- destruct l1 as [|y l1].
           ++ rewrite flat_nil in E2. injection E1 as <- <-. change (zlen (@nil Z)) with 0 in E2. pose proof (zlen_nonneg c).
              destruct c; [tauto|unfold zlen in Hle; cbn in Hle; lia].
           ++ injection E1 as <- E1. exists l1, x, l2. rewrite flat_cons, zlen_app in E2. split; [auto|lia].
      * apply clean_HaveEmpty. apply clean_HaveEmpty in Hb. apply Forall_app. auto.
    + inv E. rewrite HaveEmptyChunks_app, Hb. cbn. rewrite orb_false_r, Z.eqb_eq, SubChunk_prefix.
      unfold zlen. rewrite length_take. split.
      * intros E. exists [], c, from. rewrite flat_nil. cbn. unfold zlen in Hgt. split; [auto|]. destruct c; [tauto|cbn in *; lia].
      * intros (l1&x&l2&E1&E2). destruct l1 as [|y l1]; [rewrite flat_nil in E2; cbn in E2; lia|]. injection E1 as <- E1.
        rewrite flat_cons, length_app in E2. unfold zlen in Hgt. lia.
Qed.

Lemma split_empty_chunk_witness : Split 2 [text "ab"; text "cd"] = ([text "ab"; []], [text "cd"]) /\ HaveEmptyChunks [text "ab"; []] = true.
Proof.
  assert (E : Split 2 [text "ab"; text "cd"] = ([text "ab"; []], [text "cd"])) by (vm_compute; reflexivity).
  split; [exact E|]. apply (split_empty_chunk 2 [text "ab"; text "cd"] [text "ab"; []] [text "cd"]); [lia|repeat constructor; discriminate|exact E|].
  exists [text "ab"], (text "cd"), []. split; vm_compute; reflexivity.
Defined.

(** An empty list sent as a part of the body ends it: the proxy on the other side sees an
    empty body. *)
Theorem empty_part_ends_body :
  let ls := [[text "HTTP/1.1 200 Ok" ++ CRLF ++ CRLF]; []; [text "hello"]] in
  exists o1, encode TChunkedTransferEncoder (chunked_headers false) ls ([] : sink) = Some (Ret tt, o1) /\
  exists t' p', worker_run (backend_recv 300) 300 (NotBuilt (mk_source [[sent o1]] None)) ([] : sink) = Some (Ret tt, t', p') /\
    sent p' = text "HTTP/1.1 200 Ok" ++ CRLF ++ CRLF.
Proof. eexists. split; [vm_compute; reflexivity|]. eexists _, _. split; vm_compute; reflexivity. Qed.

(** [HeadersParsed] is false also when the headers are parsed. *)
Theorem headers_parsed_never_set (c : TParseContext) (lst : TChunkList) r c' :
  InFinalState c = false -> ParseChunk c lst = Some (r, c') -> InFinalState c' = false.
Proof.
  unfold InFinalState. rewrite !bool_decide_eq_false. apply ParseChunk_not_final.
Qed.
