(* ===== verification/HModules.v ===== *)
(** * HTTP modules that route and rewrite

    Models [src/web/httpd/modules/regexp/module.cpp], [ipdisp/module.cpp] and
    [headers/module.cpp] on a configuration that is read, and the list of connections of
    [src/web/httpd/kernel/main.cpp].  Regular expressions (pire), the formatting of addresses
    and numbers, and the modules behind are parameters. *)

From Stdlib Require Import ZArith Lia Bool.
From stdpp Require Import base numbers list gmap.
From S2P Require Import Prelude HChunks HStream HLaws HHttp.

(** ** Routing by regular expressions *)

Section regexp.
(** [Match(m, data).Final()] and [MatchedRegexps()] of the union of the regular expressions
    of the items; [Priority] is a float, of which only the comparison is used. *)
Context {Slave Priority : Type} (gt : Priority -> Priority -> bool) (Final : list Z -> bool) (MatchedRegexps : list Z -> list nat).
(** [Match] of [http_header] *)
Context (header_final : list Z -> bool).

Record TItem := mk_item { item_priority : Priority; item_default : bool; item_slave : Slave }.

(** The loop over the numbers of the regular expressions that match. *)
Fixpoint select_loop (Items_ : list TItem) (nums : list nat) (item : option TItem) : option TItem :=
  match nums with
  | [] => item
  | num :: nums =>
      select_loop Items_ nums
        (match Items_ !! num with
         | Some next => match item with
                        | None => Some next
                        | Some i => if gt (item_priority next) (item_priority i) then Some next else Some i
                        end
         | None => item
         end)
  end.

(** [InitFsm]: the last of the items that are named [default]. *)
Definition Default (Items_ : list TItem) : option Slave :=
  fold_left (fun d i => if item_default i then Some (item_slave i) else d) Items_ None.

Definition SelectHandle (Items_ : list TItem) (data : TChunkList) : option Slave :=
  if Final (flat data) then
    match select_loop Items_ (MatchedRegexps (flat data)) None with
    | Some item => Some (item_slave item)
    | None => Default Items_
    end
  else Default Items_.

(** [THdrChooser] *)
Definition choose_header (r : TRequest) : option THeader :=
  fold_left (fun found h => match found with Some _ => found | None => if header_final (flat (Key h)) then Some h else None end) (Headers_ r) None.

(** [DoRun]: the module that gets the request. *)
Definition regexp_run (Items_ : list TItem) (has_header : bool) (r : TRequest) : res Slave :=
  let slave :=
    if negb has_header then SelectHandle Items_ (Request_ r)
    else match choose_header r with Some h => SelectHandle Items_ (Value h) | None => SelectHandle Items_ [] end in
  match slave with Some s => Ret s | None => Throw (THttpError 404) end.
End regexp.
Arguments TItem : clear implicits.
Arguments mk_item {Slave Priority}.
Arguments item_priority {Slave Priority}.
Arguments item_default {Slave Priority}.
Arguments item_slave {Slave Priority}.

(** ** Routing by addresses *)

(** The key of [Modules_]: the host and the port. *)
Definition TDescr : Type := Z * Z.

Definition MatchAll : TDescr := (0, 0).
Definition MatchPort (port : Z) : TDescr := (0, port).
Definition MatchHost (host : Z) : TDescr := (host, 0).

(** A configured element and its descriptors. *)
Definition AddModule {M} (elem : M) (descrs : list TDescr) (Modules_ : gmap TDescr M) : gmap TDescr M :=
  fold_left (fun m d => <[d := elem]> m) descrs Modules_.

(** [DoRun]: the element that gets the connection with the local address [d]. *)
Definition ipdispatch_run {M} (Modules_ : gmap TDescr M) (d : TDescr) : option M :=
  let it := Modules_ !! d in
  let it := match it with None => Modules_ !! MatchPort (snd d) | _ => it end in
  let it := match it with None => Modules_ !! MatchHost (fst d) | _ => it end in
  match it with None => Modules_ !! MatchAll | _ => it end.

(** ** Rewriting headers *)

Definition UI64LEN : Z := 20.
Definition HOSTLENBUF : Z := 256.
Definition REALIPLEN : Z := HOSTLENBUF.
Definition STARTTIMELEN : Z := UI64LEN.
Definition REQIDLEN : Z := 2 * UI64LEN + 1.
Definition PORTLEN : Z := UI64LEN.

(** The size of [TBuf]. *)
Definition buffer_size : Z := REALIPLEN + STARTTIMELEN + REQIDLEN + PORTLEN.

Inductive generator := RealIpGen | StartTimeGen | ReqIdGen.

#[export] Instance generator_eq_dec : EqDecision generator.
Proof. solve_decision. Defined.

Section headers.
(** [Match] of the regular expression of a header name; what the generators print. *)
Context (key_final : list Z -> list Z -> bool) (printed : generator -> list Z).

Definition alloc_length (g : generator) : Z :=
  match g with RealIpGen => REALIPLEN | StartTimeGen => STARTTIMELEN | ReqIdGen => REQIDLEN end.

(** [Gen] with the buffer used up to [cur]; [None] writes behind the buffer. *)
Definition Gen (g : generator) (cur : Z) : option (chunk * Z) :=
  if cur + zlen (printed g) <=? buffer_size then Some (printed g, cur + alloc_length g) else None.

(** [Generators_] in the order of the hash table: names of headers and generators. *)
Record TConfig := mk_config { Generators_ : list (list Z * generator); KeepRealIp_ : option (list Z); AddReqidToCGI_ : bool }.

Definition matches_any (names : list (list Z)) (h : THeader) : bool := existsb (fun name => key_final name (flat (Key h))) names.

(** The part for [keep_realip]. *)
Definition keep_realip (cfg : TConfig) (r : TRequest) (cur : Z) : option (TRequest * Z) :=
  match KeepRealIp_ cfg with
  | None => Some (r, cur)
  | Some name =>
      if existsb (fun h => key_final name (flat (Key h))) (Headers_ r) then Some (r, cur)
      else let* (value, cur) := Gen RealIpGen cur in Some (AddHeader name value r, cur)
  end.

(** [THdrDel] *)
Definition erase_same (cfg : TConfig) (r : TRequest) : TRequest :=
  mk_request (Request_ r) (List.filter (fun h => negb (matches_any (map fst (Generators_ cfg)) h)) (Headers_ r)).

(** The loop over the generators: the request, the buffer, and the chunk of the request's number. *)
Fixpoint generate (gens : list (list Z * generator)) (r : TRequest) (cur : Z) (reqid : option chunk) : option (TRequest * option chunk) :=
  match gens with
  | [] => Some (r, reqid)
  | (name, g) :: gens =>
      let* (value, cur) := Gen g cur in
      generate gens (AddHeader name value r) cur (if bool_decide (g = ReqIdGen) then Some value else reqid)
  end.

(** "&reqid=" *)
Definition REQID : chunk := [38; 114; 101; 113; 105; 100; 61].

(** The first line with the number of the request. *)
Definition fix_cgi (line : TChunkList) (reqid : chunk) : TChunkList :=
  let '(method, req) := Split 4 line in
  let '(req, proto) := Split (u64 (FullLength req - 9)) req in
  method ++ (req ++ [REQID; reqid]) ++ proto.

(** [DoRun]: the request that the module behind gets. *)
Definition headers_run (cfg : TConfig) (r : TRequest) : option TRequest :=
  let* (r, cur) := keep_realip cfg r 0 in
  let* (r, reqid) := generate (Generators_ cfg) (erase_same cfg r) cur None in
  match reqid with
  | Some id => if AddReqidToCGI_ cfg then Some (mk_request (fix_cgi (Request_ r) id) (Headers_ r)) else Some r
  | None => Some r
  end.
End headers.

(** ** Connections *)

(** [Connections_] by number, the one that sent longest ago first; [Canceled_] with the
    connections whose socket was closed. *)
Record TMainTask := mk_task { Connections_ : list positive; Canceled_ : Z; closed : list positive }.

(** The loop of [OnAcceptFull], once per connection at most. *)
Fixpoint cancel_loop (MaxConnections_ : Z) (conns : list positive) (s : TMainTask) : TMainTask :=
  match conns with
  | [] => s
  | c :: conns =>
      if MaxConnections_ <? zlen (Connections_ s) then cancel_loop MaxConnections_ conns (mk_task conns (Canceled_ s + 1) (closed s ++ [c])) else s
  end.

Definition OnAcceptFull (MaxConnections_ : Z) (c : positive) (s : TMainTask) : TMainTask :=
  let s := if MaxConnections_ =? 0 then s else cancel_loop MaxConnections_ (Connections_ s) s in
  mk_task (Connections_ s ++ [c]) (Canceled_ s) (closed s).

(** [UpPriority]; a connection that was cancelled is put into the list again. *)
Definition UpPriority (c : positive) (s : TMainTask) : TMainTask :=
  mk_task (List.filter (fun x => negb (x =? c)%positive) (Connections_ s) ++ [c]) (Canceled_ s) (closed s).

(** The coroutine of a connection ends and destroys it. *)
Definition connection_ends (c : positive) (s : TMainTask) : TMainTask :=
  mk_task (List.filter (fun x => negb (x =? c)%positive) (Connections_ s)) (Canceled_ s) (closed s).
