(* ===== verification/HModulesTheorems.v ===== *)
(** * HTTP modules that route and rewrite: the properties *)

From Stdlib Require Import ZArith Lia Bool.
From stdpp Require Import base numbers list gmap.
From S2P Require Import Prelude HChunks HStream HLaws HHttp HParse HModules.

(** ** Routing by regular expressions *)

Section regexp.
Context {Slave Priority : Type} (gt : Priority -> Priority -> bool) (Final : list Z -> bool) (MatchedRegexps : list Z -> list nat).

(** Priorities are numbers. *)
Context (gt_trans : forall a b c, gt a b = true -> gt b c = true -> gt a c = true).
Context (gt_total : forall a b c, gt a b = false -> gt b c = false -> gt a c = false).

Notation item := (TItem Slave Priority).

Definition above (i j : item) : Prop := gt (item_priority i) (item_priority j) = true.

(** The first of the items with the greatest priority. *)
Definition first_greatest (i : item) (l : list item) : Prop :=
  exists l1 l2, l = l1 ++ i :: l2 /\ Forall (above i) l1 /\ Forall (fun j => ~ above j i) l2.

Definition matched (Items_ : list item) (nums : list nat) : list item := omap (fun n => Items_ !! n) nums.

Lemma select_from Items_ nums i0 : exists i, select_loop gt Items_ nums (Some i0) = Some i /\ first_greatest i (i0 :: matched Items_ nums).
Proof.
  revert i0. induction nums as [|n nums IH]; intros i0; cbn [select_loop matched omap list_omap].
  - exists i0. split; [auto|]. exists [], []. auto.
  - destruct (Items_ !! n) as [next|]; [|apply IH]. destruct (gt (item_priority next) (item_priority i0)) eqn:Eg.
    + destruct (IH next) as (i&E&l1&l2&El&H1&H2). exists i. split; [exact E|]. exists (i0 :: l1), l2. split; [cbn; rewrite <- El; auto|]. split; [|auto].
      constructor; [|exact H1]. destruct l1 as [|x l1]; injection El as E1 _; [subst; exact Eg|]. subst x. inv H1. unfold above in *. eauto.
    + destruct (IH i0) as (i&E&l1&l2&El&H1&H2). exists i. split; [exact E|]. destruct l1 as [|x l1]; injection El as E1 El.
      * subst i0 l2. exists [], (next :: matched Items_ nums). split; [auto|]. split; [constructor|]. constructor; [unfold above; congruence|exact H2].
      * subst x. exists (i0 :: next :: l1), l2. split; [cbn; f_equal; f_equal; exact El|]. inv H1. split; [|exact H2]. constructor; [auto|]. constructor; [|auto].
        unfold above in *. apply not_false_iff_true. intros F. pose proof (gt_total _ _ _ F Eg). congruence.
Qed.

Lemma select_loop_matched Items_ nums : match select_loop gt Items_ nums None with
  | None => matched Items_ nums = []
  | Some i => first_greatest i (matched Items_ nums)
  end.
Proof.
  induction nums as [|n nums IH]; cbn [select_loop matched omap list_omap]; [auto|]. destruct (Items_ !! n) as [next|]; [|exact IH].
  destruct (select_from Items_ nums next) as (i&E&H). rewrite E. exact H.
Qed.

(** Of the items whose regular expression matches the one with the greatest priority gets the
    request, of equals the first that is configured, and the default item when none matches. *)
Theorem regexp_routes (Items_ : list item) (data : TChunkList) (s : Slave) :
  SelectHandle gt Final MatchedRegexps Items_ data = Some s ->
  (exists i, item_slave i = s /\ Final (flat data) = true /\ first_greatest i (matched Items_ (MatchedRegexps (flat data)))) \/
  ((Final (flat data) = false \/ matched Items_ (MatchedRegexps (flat data)) = []) /\ Default Items_ = Some s).
Proof.
  unfold SelectHandle. pose proof (select_loop_matched Items_ (MatchedRegexps (flat data))) as H. destruct (Final (flat data)); [|auto].
  destruct (select_loop _ _ _ None) as [i|]; [|auto]. intros E. injection E as <-. eauto.
Qed.
End regexp.

(** ** Routing by addresses *)

(** A connection goes to the element of its address, then of its port, then of its host, then
    of all; of two elements with the same descriptor to the one that is configured last. *)
Theorem ipdispatch_precedence {M} (m : gmap TDescr M) (elem : M) (descrs : list TDescr) (d : TDescr) :
  (ipdispatch_run (AddModule elem descrs m) d = Some elem \/ ipdispatch_run (AddModule elem descrs m) d = ipdispatch_run m d) /\
  (d ∈ descrs -> ipdispatch_run (AddModule elem descrs m) d = Some elem) /\
  (m !! d = None -> ipdispatch_run m d = match m !! MatchPort (snd d) with Some e => Some e | None => match m !! MatchHost (fst d) with Some e => Some e | None => m !! MatchAll end end).
Proof.
  assert (Hl : forall k, AddModule elem descrs m !! k = if decide (k ∈ descrs) then Some elem else m !! k).
  { unfold AddModule. induction descrs as [|x l IH] using rev_ind; intros k; [rewrite decide_False by set_solver; auto|].
    rewrite fold_left_app. cbn. destruct (decide (x = k)) as [->|Hne]; [rewrite lookup_insert_eq, decide_True by set_solver; auto|].
    rewrite lookup_insert_ne by exact Hne. rewrite IH. destruct (decide (k ∈ l)); [rewrite decide_True by set_solver; auto|].
    rewrite decide_False; [auto|]. set_solver. }
  unfold ipdispatch_run. rewrite !Hl. split; [|split].
  - destruct (decide (d ∈ descrs)); [auto|]. destruct (m !! d); [auto|]. destruct (decide _); [auto|]. destruct (m !! MatchPort _); [auto|].
    destruct (decide _); [auto|]. destruct (m !! MatchHost _); [auto|]. destruct (decide _); auto.
  - intros Hd. rewrite decide_True by exact Hd. auto.
  - intros ->. destruct (m !! MatchPort _); [auto|]. destruct (m !! MatchHost _); auto.
Qed.

(** ** Rewriting headers *)

Section headers.
Context (key_final : list Z -> list Z -> bool) (printed : generator -> list Z).

(** What is inserted goes before the last nine bytes of the line. *)
Definition with_reqid (line id : list Z) : list Z :=
  if 13 <=? zlen line then take (length line - 9) line ++ REQID ++ id ++ drop (length line - 9) line else line ++ REQID ++ id.

Lemma fix_cgi_flat line id : zlen (flat line) < 2 ^ 63 -> flat (fix_cgi line id) = with_reqid (flat line) id.
Proof.
  intros Hb. unfold fix_cgi. destruct (Split 4 line) as [method req] eqn:E1. apply Split_flat in E1 as [Hm Hr]; [|lia].
  pose proof (u64_bound (FullLength req - 9)) as Hu. destruct (Split (u64 (FullLength req - 9)) req) as [q proto] eqn:E2. apply Split_flat in E2 as [Hq Hp]; [|lia].
  rewrite !flat_app. rewrite Hm, Hq, Hp, Hr. unfold with_reqid. rewrite FullLength_flat, Hr in *. set (l := flat line) in *.
  assert (Hl : zlen (drop (Z.to_nat 4) l) = Z.max 0 (zlen l - 4)) by (unfold zlen; rewrite length_drop; lia). rewrite Hl in *.
  change (flat [REQID; id]) with (REQID ++ id ++ []). rewrite app_nil_r. destruct (Z.leb_spec 13 (zlen l)) as [H13|H13].
  - assert (Hs : u64 (Z.max 0 (zlen l - 4) - 9) = zlen l - 13) by (rewrite u64_small; lia). rewrite Hs in *.
    assert (Hn : (length l - 9)%nat = (4 + Z.to_nat (zlen l - 13))%nat) by (unfold zlen in *; lia). rewrite Hn.
    rewrite <- (take_take_drop l 4), <- (drop_drop l _ 4), !app_assoc. f_equal.
  - assert (Hs : 2 ^ 64 - 9 <= u64 (Z.max 0 (zlen l - 4) - 9)).
    { unfold u64. rewrite <- (Z.mod_add _ 1 (2 ^ 64)) by lia. rewrite Z.mod_small; lia. }
    rewrite (take_ge (drop _ l)), (drop_ge (drop _ l)) by (rewrite length_drop; unfold zlen in *; lia).
    rewrite app_nil_r, app_assoc, take_drop. auto.
Qed.

(** What [keep_realip] adds to the headers. *)
Definition kept_header (cfg : TConfig) (fs : list (list Z * list Z)) : list (list Z * list Z) :=
  match KeepRealIp_ cfg with
  | Some name => if existsb (fun kv => key_final name (fst kv)) fs then [] else [(name, printed RealIpGen)]
  | None => []
  end.

Definition erased (cfg : TConfig) (kv : list Z * list Z) : bool := existsb (fun name => key_final name (fst kv)) (map fst (Generators_ cfg)).

Definition generated (cfg : TConfig) : list (list Z * list Z) := map (fun x => (fst x, printed (snd x))) (Generators_ cfg).

Definition has_reqid (cfg : TConfig) : bool := existsb (fun x => bool_decide (snd x = ReqIdGen)) (Generators_ cfg).

(** The request the module behind gets. *)
Definition rewritten (cfg : TConfig) (r : flat_request) : flat_request :=
  mk_flat (if has_reqid cfg && AddReqidToCGI_ cfg then with_reqid (line r) (printed ReqIdGen) else line r)
    (List.filter (fun kv => negb (erased cfg kv)) (fields r ++ kept_header cfg (fields r)) ++ generated cfg).

Lemma existsb_map {A B} (f : A -> B) (p : B -> bool) l : existsb p (map f l) = existsb (fun x => p (f x)) l.
Proof. induction l as [|x l IH]; cbn; congruence. Qed.

Lemma AddHeader_fields name value r : map flat_header (Headers_ (AddHeader name value r)) = map flat_header (Headers_ r) ++ [(name, value)].
Proof. unfold AddHeader. cbn. rewrite map_app. cbn. unfold flat_header. cbn. rewrite !flat_one. auto. Qed.

Lemma keep_realip_fields cfg r cur r' cur' : keep_realip key_final printed cfg r cur = Some (r', cur') ->
  Request_ r' = Request_ r /\ map flat_header (Headers_ r') = map flat_header (Headers_ r) ++ kept_header cfg (map flat_header (Headers_ r)).
Proof.
  unfold keep_realip, kept_header. destruct (KeepRealIp_ cfg) as [name|]; [|intros E; injection E as <- <-; rewrite app_nil_r; auto].
  rewrite existsb_map. change (fun x : THeader => key_final name (fst (flat_header x))) with (fun h : THeader => key_final name (flat (Key h))). destruct (existsb _ _); [intros E; injection E as <- <-; rewrite app_nil_r; auto|].
  unfold Gen. destruct (_ <=? _); [|discriminate]. intros E. injection E as <- _. split; [auto|apply AddHeader_fields].
Qed.

Lemma erase_same_fields cfg r : map flat_header (Headers_ (erase_same key_final cfg r)) = List.filter (fun kv => negb (erased cfg kv)) (map flat_header (Headers_ r)).
Proof.
  unfold erase_same. cbn. induction (Headers_ r) as [|h hs IH]; [auto|]. cbn [List.filter map]. unfold erased at 1, matches_any at 1.
  change (fst (flat_header h)) with (flat (Key h)). destruct (negb _); cbn [map]; rewrite IH; auto.
Qed.

Lemma generate_fields gens r cur id r' id' : generate printed gens r cur id = Some (r', id') ->
  Request_ r' = Request_ r /\ map flat_header (Headers_ r') = map flat_header (Headers_ r) ++ map (fun x => (fst x, printed (snd x))) gens /\
  id' = (if existsb (fun x => bool_decide (snd x = ReqIdGen)) gens then Some (printed ReqIdGen) else id).
Proof.
  revert r cur id. induction gens as [|[name g] gens IH]; intros r cur id E; cbn [generate] in E; [injection E as <- <-; rewrite app_nil_r; auto|].
  unfold Gen in E. destruct (_ <=? _); [|discriminate]. cbn in E. apply IH in E as (E1&E2&->). split; [exact E1|].
  rewrite E2, AddHeader_fields, <- app_assoc. split; [auto|]. cbn [existsb snd]. destruct (existsb _ gens); [rewrite orb_true_r; auto|]. rewrite orb_false_r.
  destruct (bool_decide (g = ReqIdGen)) eqn:Eg; [apply bool_decide_eq_true in Eg as ->|]; auto.
Qed.

(** C39: the headers module hands on the request with the headers whose names match a
    configured one removed and the configured ones added behind the others, in the order of
    its table, with the address of the client added first when it is to be kept and is not there; and
    with the number of the request in the first line before its last nine bytes, when that is
    configured. *)
Theorem headers_rewritten (cfg : TConfig) (r r' : TRequest) :
  zlen (flat (Request_ r)) < 2 ^ 63 -> headers_run key_final printed cfg r = Some r' -> flatten r' = rewritten cfg (flatten r).
Proof.
  intros Hb E. unfold headers_run in E. destruct (keep_realip _ _ cfg r 0) as [[r1 cur]|] eqn:E1; [|discriminate]. cbn in E.
  apply keep_realip_fields in E1 as [R1 H1]. destruct (generate _ _ _ _ _) as [[r2 id]|] eqn:E2; [|discriminate]. cbn in E.
  apply generate_fields in E2 as (R2&H2&->). rewrite erase_same_fields, H1 in H2. change (Request_ (erase_same key_final cfg r1)) with (Request_ r1) in R2.
  unfold rewritten, flatten, has_reqid. cbn [line fields]. destruct (existsb _ (Generators_ cfg)); cbn [andb].
  - destruct (AddReqidToCGI_ cfg); injection E as <-; cbn [Request_ Headers_]; rewrite H2, ?fix_cgi_flat, R2, R1 by (rewrite ?R2, ?R1; exact Hb); auto.
  - injection E as <-. rewrite H2, R2, R1. auto.
Qed.

Definition allocated (gens : list generator) : Z := fold_right (fun g n => alloc_length g + n) 0 gens.

Lemma allocated_cons g l : allocated (g :: l) = alloc_length g + allocated l.
Proof. reflexivity. Qed.

Lemma alloc_length_pos g : 0 <= alloc_length g.
Proof. destruct g; cbv; congruence. Qed.

Lemma allocated_submseteq l k : l ⊆+ k -> allocated l <= allocated k.
Proof. unfold allocated. induction 1; cbn; try lia. pose proof (alloc_length_pos x). lia. Qed.

Lemma allocated_nonneg l : 0 <= allocated l.
Proof. unfold allocated. induction l as [|x l IH]; cbn; [lia|]. pose proof (alloc_length_pos x). lia. Qed.

Lemma allocated_app l k : allocated (l ++ k) = allocated l + allocated k.
Proof. unfold allocated. induction l as [|x l IH]; cbn; lia. Qed.

(** The loop fails exactly when a generator prints behind the buffer. *)
Lemma generate_None gens r cur id : generate printed gens r cur id = None <->
  exists pre name g post, gens = pre ++ (name, g) :: post /\ buffer_size < cur + allocated (map snd pre) + zlen (printed g).
Proof.
  revert r cur id. induction gens as [|[name g] gens IH]; intros r cur id; cbn [generate].
  - split; [discriminate|]. intros ([]&?&?&?&?&_); discriminate.
  - unfold Gen. destruct (Z.leb_spec (cur + zlen (printed g)) buffer_size) as [H|H]; cbn.
    + rewrite IH. split.
      * intros (pre&n&x&post&->&Hx). exists ((name, g) :: pre), n, x, post. split; [auto|]. cbn [map snd]. rewrite allocated_cons. lia.
      * intros ([|[n1 g1] pre]&n&x&post&E&Hx); injection E as <- <- E; [cbn in Hx; lia|]. subst gens. exists pre, n, x, post. split; [auto|].
        cbn [map snd] in Hx. rewrite allocated_cons in Hx. lia.
    + split; [|auto]. intros _. exists [], name, g, gens. split; [auto|]. cbn. lia.
Qed.

(** The address that [keep_realip] adds. *)
Definition address_added (cfg : TConfig) (r : TRequest) : bool :=
  match KeepRealIp_ cfg with Some name => negb (existsb (fun h => key_final name (flat (Key h))) (Headers_ r)) | None => false end.

Lemma headers_run_None cfg r : zlen (printed RealIpGen) <= REALIPLEN ->
  headers_run key_final printed cfg r = None <->
  exists pre name g post, Generators_ cfg = pre ++ (name, g) :: post /\
    buffer_size < (if address_added cfg r then REALIPLEN else 0) + allocated (map snd pre) + zlen (printed g).
Proof.
  intros Hl. unfold headers_run.
  assert (Hm : forall r1 cur, (
    (let* (r, reqid) := generate printed (Generators_ cfg) (erase_same key_final cfg r1) cur None in
     match reqid with Some id => if AddReqidToCGI_ cfg then Some (mk_request (fix_cgi (Request_ r) id) (Headers_ r)) else Some r | None => Some r end) = None <->
    exists pre name g post, Generators_ cfg = pre ++ (name, g) :: post /\ buffer_size < cur + allocated (map snd pre) + zlen (printed g))).
  { intros r1 cur. rewrite <- (generate_None _ (erase_same key_final cfg r1) cur None).
    destruct (generate _ _ _ _ _) as [[r2 [id|]]|]; cbn; [destruct (AddReqidToCGI_ cfg)| |]; split; auto; discriminate. }
  unfold keep_realip, address_added. destruct (KeepRealIp_ cfg) as [name|]; [|apply Hm]. destruct (existsb _ _); cbn [negb]; [apply Hm|].
  unfold Gen at 1. rewrite (proj2 (Z.leb_le _ _)) by (revert Hl; change buffer_size with 337; change REALIPLEN with 256; lia). apply Hm.
Qed.

(** Without [realip] the generators take little. *)
Lemma allocated_others l : NoDup l -> RealIpGen ∉ l -> allocated l <= STARTTIMELEN + REQIDLEN.
Proof.
  intros Hn Hi. assert (Hs : l ⊆+ [StartTimeGen; ReqIdGen]) by (apply NoDup_submseteq; [exact Hn|]; intros [] Hx; [contradiction| |]; set_solver).
  apply allocated_submseteq in Hs. exact Hs.
Qed.
End headers.

Definition example_config : TConfig := mk_config [([88], ReqIdGen)] (Some [89]) true.

(** "GET /a HTTP/1.0" with the headers X and A. *)
Definition example_request : TRequest :=
  mk_request [[71; 69; 84; 32; 47; 97; 32; 72; 84; 84; 80; 47; 49; 46; 48]] [mk_header [[88]] [[1]]; mk_header [[65]] [[66]]].

Definition same_name (n k : list Z) : bool := bool_decide (n = k).

Lemma headers_rewritten_witness :
  exists r', headers_run same_name (fun _ => [55]) example_config example_request = Some r' /\
  flatten r' = mk_flat [71; 69; 84; 32; 47; 97; 38; 114; 101; 113; 105; 100; 61; 55; 32; 72; 84; 84; 80; 47; 49; 46; 48] [([65], [66]); ([89], [55]); ([88], [55])].
Proof.
  destruct (headers_run same_name (fun _ => [55]) example_config example_request) as [r'|] eqn:E; [|vm_compute in E; discriminate].
  exists r'. split; [reflexivity|]. assert (Hb : zlen (flat (Request_ example_request)) < 2 ^ 63) by (vm_compute; reflexivity).
  pose proof (headers_rewritten same_name (fun _ => [55]) example_config example_request r' Hb E) as H. etransitivity; [exact H|]. vm_compute. reflexivity.
Defined.

(** C40: when the generators print at least one byte and no more than they take of the buffer,
    the headers module writes behind the end of its buffer on the stack exactly when it adds the
    address of the client for [keep_realip] and adds it again for [realip], and then either
    another generator comes behind [realip] in the table or the address is longer than what the
    generators in front of [realip] have left of the buffer.  So every other configuration, and
    every request that has the kept header already, fits. *)
Theorem headers_buffer_overrun (key_final : list Z -> list Z -> bool) (printed : generator -> list Z) (cfg : TConfig) (r : TRequest) :
  (forall g, 0 < zlen (printed g) <= alloc_length g) -> NoDup (map snd (Generators_ cfg)) ->
  headers_run key_final printed cfg r = None <->
  address_added key_final cfg r = true /\
  exists pre name post, Generators_ cfg = pre ++ (name, RealIpGen) :: post /\
    (post <> [] \/ buffer_size - REALIPLEN - allocated (map snd pre) < zlen (printed RealIpGen)).
Proof.
  intros Hp Hn. rewrite headers_run_None by exact (proj2 (Hp RealIpGen)). split.
  - intros (pre&name&g&post&E&H). pose proof (Hp g) as [_ Hg]. rewrite E, map_app in Hn. cbn [map snd] in Hn.
    assert (Hd : NoDup (map snd pre ++ [g])) by (rewrite cons_middle, app_assoc in Hn; apply NoDup_app in Hn; tauto).
    assert (Hle : allocated (map snd pre) + alloc_length g = allocated (map snd pre ++ [g])) by (rewrite allocated_app; cbn; lia).
    destruct (decide (RealIpGen ∈ map snd pre ++ [g])) as [Hi|Hi].
    + assert (Ha : address_added key_final cfg r = true).
      { destruct (address_added key_final cfg r); [auto|]. assert (Hs : map snd pre ++ [g] ⊆+ [RealIpGen; StartTimeGen; ReqIdGen]) by (apply NoDup_submseteq; [exact Hd|]; intros [] _; set_solver).
        apply allocated_submseteq in Hs. change (allocated [RealIpGen; StartTimeGen; ReqIdGen]) with 317 in Hs. revert H. change buffer_size with 337. lia. }
      split; [exact Ha|]. rewrite Ha in H. apply elem_of_app in Hi as [Hi|Hi].
      * apply list_elem_of_fmap in Hi as [[n x] [Hx Hi]]. cbn in Hx. subst x. apply list_elem_of_split in Hi as (p1&p2&->).
        exists p1, n, (p2 ++ (name, g) :: post). split; [rewrite E, <- app_assoc; auto|]. left. destruct p2; discriminate.
      * apply list_elem_of_singleton in Hi as <-. exists pre, name, post. split; [exact E|]. right. lia.
    + apply allocated_others in Hi; [|exact Hd]. revert H Hi. change (STARTTIMELEN + REQIDLEN) with 61. change buffer_size with 337. change REALIPLEN with 256.
      destruct (address_added key_final cfg r); lia.
  - intros [-> (pre&name&post&E&[H|H])]; [|exists pre, name, RealIpGen, post; split; [exact E|lia]].
    destruct post as [|[n g] post]; [contradiction|]. exists (pre ++ [(name, RealIpGen)]), n, g, post. split; [rewrite E, <- app_assoc; auto|].
    rewrite map_app, allocated_app. pose proof (allocated_nonneg (map snd pre)). pose proof (Hp g) as [H1 _].
    cbn [map snd]. rewrite allocated_cons. change (allocated []) with 0. change (alloc_length RealIpGen) with 256. change buffer_size with 337. change REALIPLEN with 256. lia.
Qed.

(** [realip] in front of the time overruns the buffer, behind it a short address does not. *)
Lemma headers_buffer_overrun_witness :
  headers_run same_name (fun _ => [55]) (mk_config [([88], RealIpGen); ([89], StartTimeGen)] (Some [90]) false) (mk_request [] []) = None /\
  headers_run same_name (fun _ => [55]) (mk_config [([89], StartTimeGen); ([88], RealIpGen)] (Some [90]) false) (mk_request [] []) <> None.
Proof.
  assert (Hp : forall g, 0 < zlen ((fun _ : generator => [55]) g) <= alloc_length g) by (intros []; vm_compute; split; congruence).
  split.
  - apply headers_buffer_overrun; [exact Hp|apply (proj1 (bool_decide_eq_true _)); vm_compute; reflexivity|]. split; [reflexivity|].
    exists [], [88], [([89], StartTimeGen)]. split; [reflexivity|]. left. discriminate.
  - intros F. apply headers_buffer_overrun in F as [_ (pre&name&post&E&H)]; [|exact Hp|apply (proj1 (bool_decide_eq_true _)); vm_compute; reflexivity].
    destruct pre as [|x [|y [|z pre]]]; [discriminate| |discriminate|discriminate].
    injection E as <- <- <-. destruct H as [H|H]; [contradiction|vm_compute in H; discriminate].
Defined.

(** ** Connections *)

(** A new connection closes those that sent longest ago until at most [MaxConnections_] are
    left, and no more; so one more than that is open. *)
Lemma cancel_loop_spec max l s : Connections_ s = l ->
  exists gone, l = gone ++ Connections_ (cancel_loop max l s) /\ closed (cancel_loop max l s) = closed s ++ gone /\ Canceled_ (cancel_loop max l s) = Canceled_ s + zlen gone /\
    (0 <= max -> (gone <> [] -> zlen (Connections_ (cancel_loop max l s)) = max) /\ zlen (Connections_ (cancel_loop max l s)) <= max).
Proof.
  revert s. induction l as [|c l IH]; intros s E; cbn [cancel_loop].
  - exists []. rewrite E. split; [auto|]. split; [rewrite app_nil_r; auto|]. split; [unfold zlen; cbn; lia|]. intros Hm. split; [congruence|exact Hm].
  - rewrite E. destruct (Z.ltb_spec max (zlen (c :: l))) as [H|H].
    + destruct (IH (mk_task l (Canceled_ s + 1) (closed s ++ [c])) eq_refl) as (gone&E1&E2&E3&E4). exists (c :: gone). rewrite E2, E3, zlen_cons. cbn [closed Canceled_ app].
      split; [f_equal; exact E1|]. split; [rewrite <- app_assoc; auto|]. split; [lia|]. intros Hm. destruct (E4 Hm) as [E5 E6]. split; [|exact E6].
      intros _. destruct gone as [|x gone]; [|apply E5; discriminate]. cbn in E1. rewrite <- E1 in *. rewrite zlen_cons in H. lia.
    + exists []. rewrite E. split; [auto|]. split; [rewrite app_nil_r; auto|]. split; [unfold zlen; cbn; lia|]. intros _. split; [congruence|exact H].
Qed.

Theorem connections_limited (max : Z) (c : positive) (s : TMainTask) : 0 < max ->
  exists gone kept, Connections_ s = gone ++ kept /\ Connections_ (OnAcceptFull max c s) = kept ++ [c] /\ closed (OnAcceptFull max c s) = closed s ++ gone /\
    Canceled_ (OnAcceptFull max c s) = Canceled_ s + zlen gone /\ zlen kept <= max /\ (gone <> [] -> zlen kept = max).
Proof.
  intros Hm. unfold OnAcceptFull. rewrite (proj2 (Z.eqb_neq _ _)) by lia. destruct (cancel_loop_spec max (Connections_ s) s eq_refl) as (gone&E1&E2&E3&E4).
  destruct (E4 ltac:(lia)) as [E5 E6]. exists gone, (Connections_ (cancel_loop max (Connections_ s) s)). cbn. conj; auto.
Qed.
